(* ===== verification/_CoqProject ===== *)
-Q . S2P
Prelude.v
Visibility.v
TransactionManager.v
TransactionLiveness.v
RowVersion.v
RowVersionSpec.v
RowVersionTheorems.v
Collection.v
CollectionTheorems.v
CollectionAppend.v
Bytes.v
WalBinary.v
DataChunkBinary.v
WalPage.v
WalPageWriter.v
WalPageReader.v
WalTheorems.v
WalWorker.v
WalRecovery.v
DiskHashTable.v
DiskHashPage.v
DiskHashChain.v
DiskHashSpec.v
DiskHashSplit.v
DiskHashOpen.v
DiskHashTheorems.v
HashStorage.v
IndexCodec.v
Bitcask.v
BitcaskLog.v
BitcaskSpec.v
BitcaskOps.v
BitcaskOpen.v
BitcaskMerge.v
BitcaskTheorems.v
BitcaskFailures.v
MemoryIndex.v
MemoryIndexTheorems.v
HashedIndex.v
HashedIndexTheorems.v
IndexEngine.v
Dates.v
DatesTheorems.v
DateParse.v
DateParseTheorems.v
TimeZones.v
TimeZonesTheorems.v
LogicalValue.v
LogicalValueTheorems.v
ColumnCompression.v
ColumnCompressionTheorems.v
BlockManager.v
BlockManagerTheorems.v
ColumnCheckpoint.v
ColumnCheckpointTheorems.v
MetadataStream.v
MetadataStreamTheorems.v
TableFile.v
TableFileTheorems.v
