(* ===== verification/Prelude.v ===== *)
(** * Otterbrix: a verification development

    Otterbrix is a columnar SQL engine in C++. Statements are parsed, planned and run by
    actors ([src/components], [src/services]); tables are row groups of columns with
    per-row version stamps ([src/components/table]); what a transaction changes is logged
    ahead ([src/services/wal]); indexes find rows by key ([src/components/index],
    [src/services/index]). This development models the parts on which isolation, durability and
    lookups rest, and states what they guarantee.

    ** The parts and their files

    Transactions and versions, [src/components/table]:

    - Visibility.v: [transaction_data] and the visibility rule of row_version_manager.cpp,
      the rule both other parts share.
    - TransactionManager.v: [transaction_t] and [transaction_manager_t] (transaction.hpp,
      transaction_manager.cpp), one definition per method. Every method holds the lock, so an
      execution is a sequence of methods: [step] and [reachable]. The class [SnapshotSource]
      states what the manager promises to readers; the manager is its instance. Theorems:
      snapshot isolation, fresh commit ids, the watermarks of compaction and cleanup.
      TransactionLiveness.v: infinite runs; in a fair one the compaction watermark passes every
      commit.
    - RowVersion.v: [row_version_manager_t] with its constant and vector entries.
      RowVersionSpec.v: the abstract table of one insert and one delete stamp per row and the
      simulation. RowVersionTheorems.v: the refinement, scans against [fetch], deletes,
      reverts, the compaction gate, cleanup.
    - Collection.v: [segment_tree_t]'s search, [row_group_t], [collection_t], the scan loop and
      [data_table_t::compact], over row ids and version info. CollectionAppend.v: inserts over
      several row groups by the simulation of RowVersionSpec.v, group by group.
      CollectionTheorems.v: the search, scans and compaction of a table of one row group, and
      what goes wrong from the second row group on.

    The file of a table, [src/components/table] and [src/components/table/storage]:

    - ColumnCompression.v: the encoders of column_checkpoint_state.cpp and the readers of
      column_segment.cpp, for values of a fixed size. ColumnCompressionTheorems.v: scanning and
      fetching an encoded segment gives the values it was made of.
    - BlockManager.v: single_file_block_manager.cpp with its headers, free list and checksummed
      blocks, partial_block_manager.cpp, and the positioned reads and writes of
      local_file_system.cpp. BlockManagerTheorems.v: blocks read back, the swap of the header, what
      an allocation may hand out.
    - ColumnCheckpoint.v: from [flush_segment] up to [collection_t::checkpoint], and segments made of
      data pointers again. ColumnCheckpointTheorems.v: what is checkpointed reads back, and the live
      table can be checkpointed again.
    - MetadataStream.v: metadata_manager.cpp, metadata_writer.cpp and metadata_reader.cpp.
      MetadataStreamTheorems.v: a stream reads back, up to the size where the writer leaves its
      buffer.
    - TableFile.v: data_pointer.cpp, the checkpoint and loading of data_table.cpp, the free list, and
      [table_storage_t] of services/disk/manager_disk.cpp. TableFileTheorems.v: a table that is
      checkpointed is the table that is opened.

    The write-ahead log, [src/services/wal] and [src/components/vector]:

    - Bytes.v: buffers and little-endian fields. WalBinary.v: wal_binary.cpp and record.hpp,
      the records; the codec of chunks is the class [ChunkCodec]. DataChunkBinary.v:
      data_chunk_binary.cpp with the parts of types.cpp and validation.cpp it uses; it is the
      instance of [ChunkCodec].
    - WalPage.v: wal_page.hpp, wal_page_writer.cpp and wal_page_reader.cpp. WalPageWriter.v and
      WalPageReader.v: the writer against pages without their binary form, and the reader on
      those pages. WalTheorems.v: round trips of records, chunks and segment files, crashes,
      damaged pages, the search for an id.
    - WalWorker.v: wal.cpp, the worker of a database with rotation, commit, load, truncation and
      startup, and wal_reader.cpp, the recovery reader. WalRecovery.v: acknowledged commits
      survive, a restart continues the log, [load] returns the committed records.

    Indexes, [src/services/index] and [src/components/index]:

    - DiskHashTable.v: disk_hash_table.cpp, linear hashing over pages. DiskHashPage.v,
      DiskHashChain.v, DiskHashSpec.v, DiskHashSplit.v and DiskHashOpen.v: its pages, chains of
      overflow pages, invariant, splits and files. DiskHashTheorems.v: the table is a multimap,
      splits survive crashes, rehashing ends.
    - HashStorage.v: what an index asks of its hash table, the class [HashStorage] with its laws;
      the disk hash table and a plain list are the instances.
    - IndexCodec.v: logical_value_binary_codec.hpp, keys as bytes, with their round trip.
    - Bitcask.v: bitcask_index_disk.cpp, the log-structured index. BitcaskLog.v, BitcaskSpec.v,
      BitcaskOps.v, BitcaskOpen.v and BitcaskMerge.v: its log, invariant, operations, opening and
      merges. BitcaskTheorems.v: every run is a run of a map from keys to row ids, restarts
      complete committed transactions. BitcaskFailures.v: where it loses or keeps rows.
    - MemoryIndex.v: index.hpp, index.cpp, single_field_index.cpp and hash_single_field_index.cpp,
      the versioned entries of the indexes in memory; the class [Index] is what a search asks of an
      index, [Multimap] what the standard containers give. MemoryIndexTheorems.v: the refinement to a
      multiset of stamped entries, searches, aborts, and visibility against the table's rule.
    - HashedIndex.v: disk_hash_single_field_index.cpp, the hashed index over a shared hash table, and
      index_agent_disk.cpp, its agent over the bitcask index. HashedIndexTheorems.v: what a lookup
      finds after any run of the index on disk.
    - IndexEngine.v: index_engine.cpp and the creation and dropping of manager_index.cpp, over the
      class [IndexObject] of the index objects.

    Dates and times, [src/core/date]:

    - Dates.v: date_types.hpp, date_cast.hpp and the temporal arithmetic of logical_value.cpp, with
      the calendar of the standard library. DatesTheorems.v: timestamps and their parts, months by
      the calendar, arithmetic undone by the opposite interval.
    - DateParse.v: date_parse.hpp. DateParseTheorems.v: texts in standard form are read back, what is
      accepted is in the calendar, reading ends.
    - TimeZones.v: timezones.cpp and session_catalog.hpp. TimeZonesTheorems.v: names, bounds and
      printing of offsets.

    Values, [src/components/types]:

    - LogicalValue.v: promotion of types, casts of numbers, arithmetic and comparison of values.
      LogicalValueTheorems.v: integer arithmetic against the integers, results have their type, and
      where the code misses it.

    Prelude.v has what all share: machine integers, the outcomes of fallible code, lists
    indexed by [Z], ordered sets and the tactics.

    ** How the code is read

    A w-bit unsigned integer is a [Z] with [wrap w] wherever the code's arithmetic can wrap.
    Code that can fail returns [outcome]: [std::abort], a throw, an access outside an object,
    a null dereference and an overflow of a signed integer are faults. An [assert] is compiled out, as in a release build.
    Memory resources, logging and futures have no counterpart. Objects with shared state are
    records passed through the operations; a mutex or a mailbox makes one operation one step.
    A file is a list of bytes, a directory a map from names to files.

    Parameters stand for code outside the repository: [crc32c] is the CRC-32C of Abseil, of
    which the theorems assume nothing, and [disk_ok] says whether the file system accepts a
    page at an offset; theorems about what is stored assume that it does ([disk_accepts]). The class
    [Machine] is what the processor does with floating-point numbers and Abseil with 128-bit integers, with
    the widths of their results as laws ([MachineOk]); [memory] is what a buffer held before a block is read
    into it. The
    containers of the standard library whose order matters are classes with laws ([Multimap]) or a
    parameter for the order in which they are walked.

    ** Fuel

    Loops that are not structural carry fuel, chosen so that it does not run out: the number
    of rows or groups for the loops over row groups, the length of the range for binary
    searches, the bytes of a page for the parse loop of the page reader, the length of a record
    for the page writer, ten digits for a 32-bit number, the overflow pages of the file for a
    chain of the hash table, its entries for the erase loop, and the bytes of a file for the
    loops over its records, the length of a text for the numbers of an interval, and the bytes left for a
    metadata stream. The theorems conclude [Ok], so fuel is
    part of what they show; [WalTheorems.wrapped_length_loops] and [DiskHashTheorems.put_after_crash_never_returns] are
    the loops that do not end.

    ** What the log theorems ask for

    The page reader loses records when a spanning record has fewer than four bytes on its first
    page or starts on the last page of another one ([WalTheorems.short_head_loses_commit],
    [second_span_loses_records]). The theorems exclude these layouts with the computable
    predicates [layout_ok] and [all_fit], and have no other condition on the requests than the
    widths of their fields. Fewer than a million segments is the bound up to which segment
    names sort by index.

    ** What the table file theorems ask for

    A block manager that a run of the code can reach: whole sectors, free ids below the block count and
    apart from the blocks in use, room for the new blocks below 2^32, where the code cuts block ids
    ([alloc_ok], [room], [disk_ok]); the segments of a table within their blocks ([table_ok]); and
    metadata that fits its block, above which the writer leaves its buffer
    ([MetadataStreamTheorems.metadata_round_trip]). A crash is a stop between two writes; the header is
    one write, since a torn one is accepted ([BlockManagerTheorems.torn_header_accepted]).

    ** What is not modelled

    The SQL front end, the planners, operators and compute kernels; the catalog, the B+ tree and the
    index on it; the buffer pool with its eviction; nested values; the
    actors that route messages (dispatcher, disk and WAL managers, executor) and the language
    bindings. Of the columns of a table, segments of fixed-size values are modelled from the checkpoint
    on. Strings, validity bits, update segments and the children of nested columns are not: the code
    does not write the last three to a table's file, and its overflow blocks of long strings are read
    through memory that it does not own. Tables are modelled without allocation failures, and
    visibility and compaction without the columns of a row group; the codec without the child vectors of composite columns, which the code does not
    write either. *)

From stdpp Require Export base tactics list list_numbers numbers sorting option sets gmap.
From Stdlib Require Export ZArith Lia.
#[global] Open Scope Z_scope.

(** ** Notation scope of the development *)

Declare Scope otter_scope.
Delimit Scope otter_scope with otter.
#[global] Open Scope otter_scope.

(** ** Machine integers

    A w-bit unsigned integer of the source is a [Z]; [wrap w] is the value the
    C++ conversion or arithmetic leaves in it. *)

Definition wrap (w z : Z) : Z := z mod 2 ^ w.

Abbreviation u8 := (wrap 8).
Abbreviation u16 := (wrap 16).
Abbreviation u32 := (wrap 32).
Abbreviation u64 := (wrap 64).

(** [in_width w z]: [z] is a value a w-bit unsigned integer can hold. *)
Definition in_width (w z : Z) : Prop := 0 <= z < 2 ^ w.

#[global] Instance in_width_dec w z : Decision (in_width w z).
Proof. unfold in_width. apply _. Defined.

Definition UINT64_MAX : Z := 2 ^ 64 - 1.
Definition UINT32_MAX : Z := 2 ^ 32 - 1.

Lemma wrap_small w z : in_width w z -> wrap w z = z.
Proof. intros H. apply Z.mod_small, H. Qed.

Lemma wrap_width w z : 0 <= w -> in_width w (wrap w z).
Proof. intros H. apply Z.mod_pos_bound. lia. Qed.

Lemma wrap_wrap w z : wrap w (wrap w z) = wrap w z.
Proof. unfold wrap. destruct (decide (2 ^ w = 0)) as [->|]; [by rewrite !Z.mod_0_r | by apply Z.mod_mod]. Qed.

(** ** Outcomes of fallible code

    What a C++ function can do besides returning: call [std::abort], throw, read
    or write outside an object (undefined behaviour), dereference a null pointer,
    do arithmetic whose result the language leaves undefined (signed overflow, division by zero), or fail to terminate within the fuel given to the model. *)

Inductive fault :=
| Abort
| Throw (what : positive)
| OutOfBounds
| NullDeref
| Undefined
| OutOfFuel.

Inductive outcome (A : Type) :=
| Ok (a : A)
| Fault (f : fault).
Arguments Ok {A} _.
Arguments Fault {A} _.

#[global] Instance fault_eq_dec : EqDecision fault.
Proof. solve_decision. Defined.

#[global] Instance outcome_eq_dec {A} `{EqDecision A} : EqDecision (outcome A).
Proof. solve_decision. Defined.

#[global] Instance outcome_ret : MRet outcome := fun A a => Ok a.
#[global] Instance outcome_bind : MBind outcome := fun A B f m =>
  match m with Ok a => f a | Fault e => Fault e end.
#[global] Instance outcome_fmap : FMap outcome := fun A B f m =>
  match m with Ok a => Ok (f a) | Fault e => Fault e end.

Definition of_option {A} (e : fault) (o : option A) : outcome A :=
  match o with Some a => Ok a | None => Fault e end.

Lemma outcome_bind_Ok {A B} (m : outcome A) (f : A -> outcome B) b :
  m ≫= f = Ok b <-> exists a, m = Ok a /\ f a = Ok b.
Proof. destruct m; cbn; naive_solver. Qed.

Lemma mapM_ok {A B} (f : A -> outcome B) l k : Forall2 (fun x y => f x = Ok y) l k -> mapM f l = Ok k.
Proof. induction 1 as [|x y l k H _ IH]; [done|]. cbn. rewrite H. cbn. by rewrite IH. Qed.

Lemma mapM_fmap {A B} (f : A -> outcome B) (g : A -> B) l : Forall (fun x => f x = Ok (g x)) l -> mapM f l = Ok (g <$> l).
Proof. intros H. apply mapM_ok. rewrite Forall2_fmap_r. by apply Forall_Forall2_diag. Qed.

(** [returns E m Q]: [m] ends with a value in [Q] or with a fault in [E]. *)
Definition returns {A} (E : fault -> Prop) (m : outcome A) (Q : A -> Prop) : Prop :=
  match m with Ok a => Q a | Fault e => E e end.

Lemma returns_bind {A B} E (m : outcome A) (f : A -> outcome B) P Q :
  returns E m P -> (forall a, P a -> returns E (f a) Q) -> returns E (m ≫= f) Q.
Proof. destruct m; cbn; auto. Qed.

Lemma returns_mono {A} E (m : outcome A) (P Q : A -> Prop) : returns E m P -> (forall a, P a -> Q a) -> returns E m Q.
Proof. destruct m; cbn; auto. Qed.

(** Rewriting with permutations under concatenation. *)
#[global] Instance app_permutation {A} : Proper ((≡ₚ) ==> (≡ₚ) ==> (≡ₚ)) (@app A).
Proof. intros l l' Hl k k' Hk. by apply Permutation_app. Qed.

#[global] Instance cons_permutation {A} : Proper (eq ==> (≡ₚ) ==> (≡ₚ)) (@cons A).
Proof. intros x y <- l l' Hl. by constructor. Qed.

(** ** Arrays indexed by machine integers

    [l !!z i] reads the element at a [Z] index; [zset i x l] writes it.  Both are
    used only behind the bounds the source establishes; out of range the read
    is [None] and the write does nothing, and definitions that model an unchecked
    access turn the first into [Fault OutOfBounds]. *)

Definition zget {A} (i : Z) (l : list A) : option A :=
  if bool_decide (0 <= i) then l !! Z.to_nat i else None.

Definition zset {A} (i : Z) (x : A) (l : list A) : list A :=
  if bool_decide (0 <= i) then <[Z.to_nat i := x]> l else l.

Notation "l !!z i" := (zget i l) (at level 20, format "l  !!z  i") : otter_scope.

Definition zlen {A} (l : list A) : Z := Z.of_nat (length l).

(** Write [x] at every index of [ks]. *)
Definition zset_all {A} (ks : list Z) (x : A) (l : list A) : list A :=
  foldl (fun l i => zset i x l) l ks.

Section zlist.
Context {A : Type}.
Implicit Types (l : list A) (i j : Z) (x : A).

Lemma zlen_nonneg l : 0 <= zlen l.
Proof. unfold zlen. lia. Qed.

Lemma zlen_app l k : zlen (l ++ k) = zlen l + zlen k.
Proof. unfold zlen. rewrite length_app. lia. Qed.

Lemma zlen_zset i x l : zlen (zset i x l) = zlen l.
Proof. unfold zlen, zset. case_bool_decide; [by rewrite length_insert | done]. Qed.

Lemma zlen_zset_all ks x l : zlen (zset_all ks x l) = zlen l.
Proof.
  unfold zset_all. revert l.
  induction ks as [|i ks IH]; intros l; cbn; [done|]. by rewrite IH, zlen_zset.
Qed.

Lemma zget_Some l i x : l !!z i = Some x <-> 0 <= i /\ l !! Z.to_nat i = Some x.
Proof. unfold zget. case_bool_decide; naive_solver. Qed.

Lemma zget_Some_lt l i x : l !!z i = Some x -> 0 <= i < zlen l.
Proof. rewrite zget_Some. intros [? H%lookup_lt_Some]. unfold zlen. lia. Qed.

Lemma zget_is_Some l i : 0 <= i < zlen l -> is_Some (l !!z i).
Proof.
  intros ?. unfold zget. rewrite bool_decide_true by lia.
  apply lookup_lt_is_Some. unfold zlen in *. lia.
Qed.

Lemma zget_None l i : zlen l <= i -> l !!z i = None.
Proof.
  intros ?. unfold zget. case_bool_decide; [|done].
  apply lookup_ge_None. unfold zlen in *. lia.
Qed.

Lemma zget_zset l i j x :
  (zset i x l) !!z j = if decide (i = j /\ 0 <= i < zlen l) then Some x else l !!z j.
Proof.
  unfold zget, zset, zlen.
  repeat case_bool_decide; case_decide; destruct_and?; subst; try lia; try done.
  - apply list_lookup_insert_eq. lia.
  - destruct (decide (i = j)) as [->|].
    + by rewrite list_insert_ge by lia.
    + rewrite list_lookup_insert_ne by lia. done.
Qed.

Lemma zget_zset_all ks x l j :
  (zset_all ks x l) !!z j = if decide (j ∈ ks /\ 0 <= j < zlen l) then Some x else l !!z j.
Proof.
  unfold zset_all. revert l.
  induction ks as [|i ks IH]; intros l; cbn.
  - rewrite decide_False; [done|]. set_solver.
  - rewrite IH, zlen_zset, zget_zset. repeat case_decide; set_solver.
Qed.

Lemma zget_replicate n x i : 0 <= i < n -> replicate (Z.to_nat n) x !!z i = Some x.
Proof.
  intros ?. unfold zget. rewrite bool_decide_true by lia.
  apply lookup_replicate_2. lia.
Qed.

Lemma zlen_replicate n x : 0 <= n -> zlen (replicate (Z.to_nat n) x) = n.
Proof. intros. unfold zlen. rewrite length_replicate. lia. Qed.

Lemma zlist_eq l k :
  zlen l = zlen k -> (forall i, 0 <= i < zlen l -> l !!z i = k !!z i) -> l = k.
Proof.
  unfold zlen. intros Hlen H. apply list_eq_same_length with (length l); [lia|done|].
  intros i x y Hi Hx Hy. specialize (H (Z.of_nat i) ltac:(lia)).
  unfold zget in H. rewrite bool_decide_true, Nat2Z.id in H by lia. congruence.
Qed.
End zlist.

Lemma zget_fmap {A B} (f : A -> B) (l : list A) i : (f <$> l) !!z i = f <$> (l !!z i).
Proof. unfold zget. case_bool_decide; [by rewrite list_lookup_fmap | done]. Qed.

Lemma zlen_fmap {A B} (f : A -> B) (l : list A) : zlen (f <$> l) = zlen l.
Proof. unfold zlen. by rewrite length_fmap. Qed.

(** ** Ordered sets: [std::set<uint64_t>]

    A strictly ascending list; [begin()] is its head. *)

Fixpoint oset_insert (x : Z) (s : list Z) : list Z :=
  match s with
  | [] => [x]
  | y :: s' =>
      if bool_decide (x < y) then x :: s
      else if bool_decide (x = y) then s
      else y :: oset_insert x s'
  end.

Fixpoint oset_erase (x : Z) (s : list Z) : list Z :=
  match s with
  | [] => []
  | y :: s' => if bool_decide (x = y) then s' else y :: oset_erase x s'
  end.

Definition oset (s : list Z) : Prop := StronglySorted Z.lt s.

Section oset.
Implicit Types (x y : Z) (s : list Z).

Lemma oset_nil : oset [].
Proof. constructor. Qed.

Lemma oset_cons y s : oset (y :: s) <-> oset s /\ Forall (Z.lt y) s.
Proof. split; [by inversion 1 | intros []; by constructor]. Qed.

Lemma elem_of_oset_insert x y s : y ∈ oset_insert x s <-> y = x \/ y ∈ s.
Proof.
  induction s as [|z s IH]; cbn; [set_solver|].
  repeat case_bool_decide; set_solver.
Qed.

Lemma oset_insert_sorted x s : oset s -> oset (oset_insert x s).
Proof.
  induction s as [|z s IH]; cbn; intros Hs; [by repeat constructor|].
  apply oset_cons in Hs as [Hs Hz]. repeat case_bool_decide; subst.
  - rewrite !oset_cons. split_and!; [done..|]. constructor; [done|].
    eapply Forall_impl; [exact Hz|]. cbn. lia.
  - by rewrite oset_cons.
  - apply oset_cons. split; [by apply IH|]. rewrite Forall_forall in Hz |- *.
    intros y Hy%elem_of_oset_insert. destruct Hy; [lia | auto].
Qed.

Lemma elem_of_oset_erase x y s : oset s -> (y ∈ oset_erase x s <-> y <> x /\ y ∈ s).
Proof.
  induction s as [|z s IH]; cbn; intros Hs; [set_solver|].
  apply oset_cons in Hs as [Hs Hz]. rewrite Forall_forall in Hz.
  case_bool_decide; subst.
  - split; [|set_solver]. intros Hy. specialize (Hz _ Hy). split; [lia|set_solver].
  - rewrite !elem_of_cons, IH by done. naive_solver lia.
Qed.

Lemma oset_erase_sorted x s : oset s -> oset (oset_erase x s).
Proof.
  induction s as [|z s IH]; cbn; intros Hs; [done|].
  pose proof Hs as Hs'. apply oset_cons in Hs as [Hs Hz]. case_bool_decide; [done|].
  apply oset_cons. split; [by apply IH|]. rewrite Forall_forall in Hz |- *.
  intros y Hy. apply elem_of_oset_erase in Hy as [_ Hy]; auto.
Qed.

Lemma oset_head_least y s x : oset (y :: s) -> x ∈ y :: s -> y <= x.
Proof.
  intros [_ Hz]%oset_cons Hx. rewrite Forall_forall in Hz.
  apply elem_of_cons in Hx as [->|Hx]; [lia | specialize (Hz _ Hx); lia].
Qed.
End oset.

(** ** [std::binary_search]

    The halving loop of [std::lower_bound] on [first, first + len), then the test
    of the element found.  [fuel] bounds the loop by the length of the range. *)

Fixpoint lower_bound_loop (fuel : nat) (l : list Z) (first len x : Z) : Z :=
  match fuel with
  | O => first
  | S fuel =>
      if bool_decide (len <= 0) then first
      else
        let half := len / 2 in
        let mid := first + half in
        if bool_decide (default 0 (l !!z mid) < x)
        then lower_bound_loop fuel l (mid + 1) (len - half - 1) x
        else lower_bound_loop fuel l first half x
  end.

Definition lower_bound (l : list Z) (x : Z) : Z :=
  lower_bound_loop (length l) l 0 (zlen l) x.

Definition binary_search (l : list Z) (x : Z) : bool :=
  match l !!z lower_bound l x with
  | Some y => negb (bool_decide (x < y))
  | None => false
  end.

Section binary_search.
Context (l : list Z) (x : Z) (Hl : oset l).

Lemma oset_lookup_lt i j a b : i < j -> l !!z i = Some a -> l !!z j = Some b -> a < b.
Proof.
  clear x. revert i j. induction l as [|y s IH]; intros i j Hij Hi Hj.
  { apply zget_Some in Hi as [_ Hi]. by rewrite lookup_nil in Hi. }
  apply oset_cons in Hl as [Hs Hy].
  apply zget_Some in Hi as [Hi0 Hi], Hj as [Hj0 Hj].
  replace (Z.to_nat j) with (S (Z.to_nat (j - 1))) in Hj by lia. cbn in Hj.
  destruct (decide (i = 0)) as [->|].
  - change (Z.to_nat 0) with 0%nat in Hi. cbn in Hi. simplify_eq. rewrite Forall_forall in Hy. apply Hy.
    by eapply list_elem_of_lookup_2.
  - replace (Z.to_nat i) with (S (Z.to_nat (i - 1))) in Hi by lia. cbn in Hi.
    apply (IH Hs (i - 1) (j - 1)); [lia| |]; apply zget_Some; (split; [lia|done]).
Qed.

(** The loop keeps: everything before [first] is below [x], everything from
    [first + len] on is not. *)
Lemma lower_bound_loop_spec fuel first len :
  0 <= first -> 0 <= len -> first + len <= zlen l -> len <= Z.of_nat fuel ->
  (forall i a, l !!z i = Some a -> i < first -> a < x) ->
  (forall i a, l !!z i = Some a -> first + len <= i -> x <= a) ->
  let r := lower_bound_loop fuel l first len x in
  0 <= r <= zlen l /\
  (forall i a, l !!z i = Some a -> i < r -> a < x) /\
  (forall i a, l !!z i = Some a -> r <= i -> x <= a).
Proof.
  revert first len. induction fuel as [|fuel IH]; intros first len Hf Hlen Hle Hfuel Hlo Hhi; cbn.
  { replace len with 0 in * by lia. rewrite Z.add_0_r in *. split_and!; [lia..|done|done]. }
  case_bool_decide as H0.
  { replace len with 0 in * by lia. rewrite Z.add_0_r in *. split_and!; [lia..|done|done]. }
  assert (Hhalf : 0 <= len / 2 < len) by (split; [apply Z.div_pos; lia | apply Z.div_lt; lia]).
  destruct (zget_is_Some l (first + len / 2)) as [m Hm]; [lia|].
  rewrite Hm. cbn. case_bool_decide as Hmx.
  - apply IH; [lia..| |].
    + intros i a Hi Hlt. destruct (decide (i = first + len / 2)) as [->|]; [congruence|].
      pose proof (oset_lookup_lt i (first + len / 2) a m ltac:(lia) Hi Hm). lia.
    + intros i a Hi Hge. apply (Hhi i a Hi). lia.
  - apply IH; [lia..|done|].
    intros i a Hi Hge. destruct (decide (i = first + len / 2)) as [->|].
    + rewrite Hm in Hi. simplify_eq. lia.
    + pose proof (oset_lookup_lt (first + len / 2) i m a ltac:(lia) Hm Hi). lia.
Qed.

Lemma binary_search_elem_of : binary_search l x = bool_decide (x ∈ l).
Proof.
  unfold binary_search, lower_bound.
  destruct (lower_bound_loop_spec (length l) 0 (zlen l)) as (Hr & Hlo & Hhi);
    [unfold zlen; lia | unfold zlen; lia | lia | unfold zlen; lia | | |].
  { intros i a Hi ?. apply zget_Some_lt in Hi. lia. }
  { intros i a Hi ?. apply zget_Some_lt in Hi. lia. }
  cbv zeta in *. set (r := lower_bound_loop _ _ _ _ _) in *.
  assert (Hiff : x ∈ l <-> l !!z r = Some x).
  { split.
    - intros [n Hn]%list_elem_of_lookup_1.
      assert (Hz : l !!z (Z.of_nat n) = Some x) by (apply zget_Some; rewrite Nat2Z.id; split; [lia|done]).
      destruct (Z.lt_trichotomy (Z.of_nat n) r) as [?|[<-|?]]; [|done|].
      + specialize (Hlo _ _ Hz ltac:(done)). lia.
      + pose proof (zget_Some_lt _ _ _ Hz).
        destruct (zget_is_Some l r) as [y Hy]; [lia|].
        pose proof (Hhi _ _ Hy ltac:(lia)).
        pose proof (oset_lookup_lt r (Z.of_nat n) y x ltac:(lia) Hy Hz). lia.
    - intros [_ ?]%zget_Some. by eapply list_elem_of_lookup_2. }
  destruct (l !!z r) as [y|] eqn:Hy.
  - pose proof (Hhi _ _ Hy ltac:(lia)).
    destruct (decide (x = y)) as [->|].
    + rewrite (bool_decide_true (y ∈ l)) by (by apply Hiff). by rewrite bool_decide_false by lia.
    + rewrite (bool_decide_false (x ∈ l)) by (rewrite Hiff; congruence).
      by rewrite bool_decide_true by lia.
  - rewrite bool_decide_false; [done|]. rewrite Hiff. congruence.
Qed.
End binary_search.

(** ** Automation *)

Create HintDb otter.
#[export] Hint Resolve oset_nil oset_insert_sorted oset_erase_sorted zlen_nonneg wrap_width : otter.
#[export] Hint Rewrite @zlen_zset @zlen_zset_all @zlen_app @zlen_fmap : otter.

(** Split the boolean tests of a definition into hypotheses. *)
Ltac split_bools :=
  repeat match goal with
  | H : (_ && _)%bool = true |- _ => apply andb_true_iff in H as [? ?]
  | H : (_ || _)%bool = false |- _ => apply orb_false_iff in H as [? ?]
  | H : bool_decide _ = true |- _ => apply bool_decide_eq_true_1 in H
  | H : bool_decide _ = false |- _ => apply bool_decide_eq_false_1 in H
  | H : negb _ = true |- _ => apply negb_true_iff in H
  | H : negb _ = false |- _ => apply negb_false_iff in H
  end.

(** Peel the binds of a successful [outcome] computation. *)
Ltac invert_ok :=
  repeat match goal with
  | H : _ ≫= _ = Ok _ |- _ => apply outcome_bind_Ok in H as (? & ? & ?)
  | H : Ok _ = Ok _ |- _ => injection H as H
  | H : mret _ = Ok _ |- _ => injection H as H
  | H : Fault _ = Ok _ |- _ => discriminate H
  end.

(** Constants below 2^64 that [lia] treats as numerals. *)
Ltac unfold_widths := unfold in_width, UINT64_MAX, UINT32_MAX in *; cbn [Z.pow Z.pow_pos Pos.iter] in *.
