(* ===== verification/Visibility.v ===== *)
(** * MVCC visibility of one version stamp

    The snapshot a transaction reads through ([transaction_data]) and the
    ProcArray filter that decides whether a stamp is visible to it
    ([transaction_version_operator]), from
    [src/components/table/row_version_manager.hpp] and [.cpp].  Both the
    transaction manager, which builds snapshots, and the row version manager,
    which filters rows through them, are clients of this file. *)

From S2P Require Import Prelude.

(** Pending writes carry the writer's transaction id, which starts here; commit
    ids stay below. *)
Definition TRANSACTION_ID_START : Z := 4611686018427388000.

(** The delete stamp of a row nobody deleted. *)
Definition NOT_DELETED_ID : Z := UINT64_MAX - 1.

Record transaction_data := TransactionData {
  transaction_id : Z;
  start_time : Z;
  snapshot_horizon : Z;
  in_flight_snapshot : list Z;
}.

(** The two-argument constructor: a see-all snapshot. *)
Definition transaction_data_see_all (id time : Z) : transaction_data :=
  TransactionData id time UINT64_MAX [].

Definition use_inserted_version (txn : transaction_data) (id : Z) : bool :=
  if negb (bool_decide (transaction_id txn = 0)) && bool_decide (id = transaction_id txn) then true
  else if bool_decide (TRANSACTION_ID_START <= id) then false
  else if bool_decide (snapshot_horizon txn < id) then false
  else if binary_search (in_flight_snapshot txn) id then false
  else true.

Definition use_deleted_version (txn : transaction_data) (id : Z) : bool :=
  negb (use_inserted_version txn id).

Definition use_version (transaction : transaction_data) (id : Z) : bool :=
  use_inserted_version transaction id.

(** ** What the snapshot promises

    A snapshot is well formed when its in-flight ids are in the ascending order
    [std::binary_search] needs. *)
Definition snapshot_wf (txn : transaction_data) : Prop := oset (in_flight_snapshot txn).

(** The stamp belongs to a commit the snapshot covers. *)
Definition covers (txn : transaction_data) (id : Z) : Prop :=
  id < TRANSACTION_ID_START /\ id <= snapshot_horizon txn /\ id ∉ in_flight_snapshot txn.

#[global] Instance covers_dec txn id : Decision (covers txn id).
Proof. unfold covers. apply _. Defined.

Definition self_write (txn : transaction_data) (id : Z) : Prop :=
  transaction_id txn <> 0 /\ id = transaction_id txn.

Lemma use_inserted_version_spec txn id :
  snapshot_wf txn ->
  use_inserted_version txn id = true <-> self_write txn id \/ covers txn id.
Proof.
  intros Hwf. unfold use_inserted_version, self_write, covers.
  rewrite binary_search_elem_of by done.
  repeat case_bool_decide; cbn; naive_solver lia.
Qed.

Lemma use_deleted_version_spec txn id :
  snapshot_wf txn ->
  use_deleted_version txn id = true <-> ~ (self_write txn id \/ covers txn id).
Proof.
  intros Hwf. rewrite <- use_inserted_version_spec by done. unfold use_deleted_version.
  destruct (use_inserted_version txn id); naive_solver.
Qed.

Lemma NOT_DELETED_ID_above : TRANSACTION_ID_START <= NOT_DELETED_ID.
Proof. vm_compute. congruence. Qed.

(** An undeleted row is never filtered out by its delete stamp, unless the reader's
    own transaction id is the marker itself. *)
Lemma not_deleted_survives txn :
  transaction_id txn <> NOT_DELETED_ID -> use_deleted_version txn NOT_DELETED_ID = true.
Proof.
  intros Hne. unfold use_deleted_version, use_inserted_version.
  rewrite (bool_decide_false (NOT_DELETED_ID = _)) by congruence.
  rewrite andb_false_r. by rewrite bool_decide_true by apply NOT_DELETED_ID_above.
Qed.

#[export] Hint Resolve NOT_DELETED_ID_above not_deleted_survives : otter.
