(* ===== verification/TransactionManager.v ===== *)
(** * The transaction manager

    [src/components/table/transaction.hpp], [transaction.cpp],
    [transaction_manager.hpp] and [transaction_manager.cpp]: transaction objects
    with the work they park until COMMIT, and the manager that hands out ids,
    snapshots and the ProcArray publish barrier.

    The manager's [lock_] makes every operation atomic, so an execution is a
    sequence of operations; [step] below is that transition system, over the
    manager together with the history it has to be judged against. *)

From S2P Require Import Prelude Visibility.
From stdpp Require Import strings fin_maps.
#[local] Open Scope Z_scope.

(** ** Transaction objects *)

Record dml_append_range_t := DmlAppendRange {
  dar_table_oid : Z; dar_row_start : Z; dar_row_count : Z }.
Record dml_delete_range_t := DmlDeleteRange { ddr_table_oid : Z; ddr_txn_id : Z }.
Record created_index_t := CreatedIndex { ci_table_oid : Z; ci_name : string }.
Record pg_catalog_append_range_t := PgCatalogAppendRange {
  pcar_table_oid : Z; pcar_start_row : Z; pcar_count : Z }.
Inductive backfill_kind_t := added_at | dropped_at.
Record pg_attribute_commit_id_backfill_t := Backfill {
  bf_attoid : Z; bf_kind : backfill_kind_t }.
Record append_info := AppendInfo { ai_row_start : Z; ai_count : Z }.

Record transaction_t := Transaction {
  session_ : Z;
  transaction_id_ : Z;
  start_time_ : Z;
  commit_id_ : Z;
  committed_ : bool;
  aborted_ : bool;
  is_explicit_ : bool;
  appends_ : list append_info;
  snapshot_horizon_ : Z;
  in_flight_snapshot_ : list Z;
  pending_base_appends_ : list dml_append_range_t;
  pending_base_deletes_ : list dml_delete_range_t;
  pg_catalog_appends : list pg_catalog_append_range_t;
  pg_catalog_delete_tables : list Z;
  pg_attribute_commit_id_backfills : list pg_attribute_commit_id_backfill_t;
  dropped_storage_oids_ : list Z;
  created_storage_oids_ : list Z;
  created_indexes_ : list created_index_t;
}.

(** The constructor: everything but the ids starts at its default. *)
Definition transaction_new (transaction_id start_time session : Z) : transaction_t :=
  {| session_ := session; transaction_id_ := transaction_id; start_time_ := start_time;
     commit_id_ := 0; committed_ := false; aborted_ := false; is_explicit_ := false;
     appends_ := []; snapshot_horizon_ := 0; in_flight_snapshot_ := [];
     pending_base_appends_ := []; pending_base_deletes_ := [];
     pg_catalog_appends := []; pg_catalog_delete_tables := [];
     pg_attribute_commit_id_backfills := []; dropped_storage_oids_ := [];
     created_storage_oids_ := []; created_indexes_ := [] |}.

Definition data (t : transaction_t) : transaction_data :=
  TransactionData (transaction_id_ t) (start_time_ t) (snapshot_horizon_ t) (in_flight_snapshot_ t).

Definition is_active (t : transaction_t) : bool := negb (committed_ t) && negb (aborted_ t).

(** The lifecycle part of the object, rebuilt by the setters. *)
Definition with_status (t : transaction_t) (commit_id : Z) (committed aborted explicit : bool) : transaction_t :=
  {| session_ := session_ t; transaction_id_ := transaction_id_ t; start_time_ := start_time_ t;
     commit_id_ := commit_id; committed_ := committed; aborted_ := aborted; is_explicit_ := explicit;
     appends_ := appends_ t; snapshot_horizon_ := snapshot_horizon_ t;
     in_flight_snapshot_ := in_flight_snapshot_ t;
     pending_base_appends_ := pending_base_appends_ t; pending_base_deletes_ := pending_base_deletes_ t;
     pg_catalog_appends := pg_catalog_appends t; pg_catalog_delete_tables := pg_catalog_delete_tables t;
     pg_attribute_commit_id_backfills := pg_attribute_commit_id_backfills t;
     dropped_storage_oids_ := dropped_storage_oids_ t;
     created_storage_oids_ := created_storage_oids_ t; created_indexes_ := created_indexes_ t |}.

Definition set_commit_id (t : transaction_t) (id : Z) : transaction_t :=
  with_status t id (committed_ t) (aborted_ t) (is_explicit_ t).
Definition mark_committed (t : transaction_t) : transaction_t :=
  with_status t (commit_id_ t) true (aborted_ t) (is_explicit_ t).
Definition mark_aborted (t : transaction_t) : transaction_t :=
  with_status t (commit_id_ t) (committed_ t) true (is_explicit_ t).
Definition mark_explicit (t : transaction_t) : transaction_t :=
  with_status t (commit_id_ t) (committed_ t) (aborted_ t) true.

Definition set_snapshot (t : transaction_t) (horizon : Z) (in_flight : list Z) : transaction_t :=
  {| session_ := session_ t; transaction_id_ := transaction_id_ t; start_time_ := start_time_ t;
     commit_id_ := commit_id_ t; committed_ := committed_ t; aborted_ := aborted_ t;
     is_explicit_ := is_explicit_ t; appends_ := appends_ t;
     snapshot_horizon_ := horizon; in_flight_snapshot_ := in_flight;
     pending_base_appends_ := pending_base_appends_ t; pending_base_deletes_ := pending_base_deletes_ t;
     pg_catalog_appends := pg_catalog_appends t; pg_catalog_delete_tables := pg_catalog_delete_tables t;
     pg_attribute_commit_id_backfills := pg_attribute_commit_id_backfills t;
     dropped_storage_oids_ := dropped_storage_oids_ t;
     created_storage_oids_ := created_storage_oids_ t; created_indexes_ := created_indexes_ t |}.

(** ** Accumulators

    The work an explicit transaction parks until COMMIT drains it, as one
    record: the accumulate and drain pairs of the class read and write these
    fields only. *)

Record accumulators := Accumulators {
  acc_appends : list append_info;
  acc_base_appends : list dml_append_range_t;
  acc_base_deletes : list dml_delete_range_t;
  acc_pg_appends : list pg_catalog_append_range_t;
  acc_pg_deletes : list Z;
  acc_backfills : list pg_attribute_commit_id_backfill_t;
  acc_dropped : list Z;
  acc_created : list Z;
  acc_indexes : list created_index_t;
}.

Definition parked (t : transaction_t) : accumulators :=
  Accumulators (appends_ t) (pending_base_appends_ t) (pending_base_deletes_ t)
    (pg_catalog_appends t) (pg_catalog_delete_tables t) (pg_attribute_commit_id_backfills t)
    (dropped_storage_oids_ t) (created_storage_oids_ t) (created_indexes_ t).

Definition with_parked (t : transaction_t) (a : accumulators) : transaction_t :=
  {| session_ := session_ t; transaction_id_ := transaction_id_ t; start_time_ := start_time_ t;
     commit_id_ := commit_id_ t; committed_ := committed_ t; aborted_ := aborted_ t;
     is_explicit_ := is_explicit_ t;
     snapshot_horizon_ := snapshot_horizon_ t; in_flight_snapshot_ := in_flight_snapshot_ t;
     appends_ := acc_appends a;
     pending_base_appends_ := acc_base_appends a; pending_base_deletes_ := acc_base_deletes a;
     pg_catalog_appends := acc_pg_appends a; pg_catalog_delete_tables := acc_pg_deletes a;
     pg_attribute_commit_id_backfills := acc_backfills a;
     dropped_storage_oids_ := acc_dropped a;
     created_storage_oids_ := acc_created a; created_indexes_ := acc_indexes a |}.

Definition add_append (t : transaction_t) (row_start count : Z) : transaction_t :=
  let p := parked t in
  with_parked t (Accumulators (acc_appends p ++ [AppendInfo row_start count])
    (acc_base_appends p) (acc_base_deletes p) (acc_pg_appends p) (acc_pg_deletes p)
    (acc_backfills p) (acc_dropped p) (acc_created p) (acc_indexes p)).

Definition accumulate_base_append (t : transaction_t) (range : dml_append_range_t) : transaction_t :=
  let p := parked t in
  with_parked t (Accumulators (acc_appends p) (acc_base_appends p ++ [range]) (acc_base_deletes p)
    (acc_pg_appends p) (acc_pg_deletes p) (acc_backfills p) (acc_dropped p) (acc_created p) (acc_indexes p)).

Definition accumulate_base_delete (t : transaction_t) (range : dml_delete_range_t) : transaction_t :=
  let p := parked t in
  with_parked t (Accumulators (acc_appends p) (acc_base_appends p) (acc_base_deletes p ++ [range])
    (acc_pg_appends p) (acc_pg_deletes p) (acc_backfills p) (acc_dropped p) (acc_created p) (acc_indexes p)).

Definition drain_base_appends (t : transaction_t) : list dml_append_range_t * transaction_t :=
  let p := parked t in
  (acc_base_appends p,
   with_parked t (Accumulators (acc_appends p) [] (acc_base_deletes p) (acc_pg_appends p)
     (acc_pg_deletes p) (acc_backfills p) (acc_dropped p) (acc_created p) (acc_indexes p))).

Definition drain_base_deletes (t : transaction_t) : list dml_delete_range_t * transaction_t :=
  let p := parked t in
  (acc_base_deletes p,
   with_parked t (Accumulators (acc_appends p) (acc_base_appends p) [] (acc_pg_appends p)
     (acc_pg_deletes p) (acc_backfills p) (acc_dropped p) (acc_created p) (acc_indexes p))).

(** [delete_tables] is a [std::set]: the loop inserts its elements one by one. *)
Definition accumulate_pg_catalog_pending (t : transaction_t)
    (appends : list pg_catalog_append_range_t) (delete_tables : list Z) : transaction_t :=
  let p := parked t in
  with_parked t (Accumulators (acc_appends p) (acc_base_appends p) (acc_base_deletes p)
    (acc_pg_appends p ++ appends)
    (foldl (fun s d => oset_insert d s) (acc_pg_deletes p) delete_tables)
    (acc_backfills p) (acc_dropped p) (acc_created p) (acc_indexes p)).

Definition drain_pg_catalog_pending (t : transaction_t) :
    (list pg_catalog_append_range_t * list Z) * transaction_t :=
  let p := parked t in
  ((acc_pg_appends p, acc_pg_deletes p),
   with_parked t (Accumulators (acc_appends p) (acc_base_appends p) (acc_base_deletes p) [] []
     (acc_backfills p) (acc_dropped p) (acc_created p) (acc_indexes p))).

Definition accumulate_pg_attribute_commit_id_backfills (t : transaction_t)
    (backfills : list pg_attribute_commit_id_backfill_t) : transaction_t :=
  let p := parked t in
  with_parked t (Accumulators (acc_appends p) (acc_base_appends p) (acc_base_deletes p)
    (acc_pg_appends p) (acc_pg_deletes p) (acc_backfills p ++ backfills)
    (acc_dropped p) (acc_created p) (acc_indexes p)).

Definition drain_pg_attribute_commit_id_backfills (t : transaction_t) :
    list pg_attribute_commit_id_backfill_t * transaction_t :=
  let p := parked t in
  (acc_backfills p,
   with_parked t (Accumulators (acc_appends p) (acc_base_appends p) (acc_base_deletes p)
     (acc_pg_appends p) (acc_pg_deletes p) [] (acc_dropped p) (acc_created p) (acc_indexes p))).

Definition accumulate_dropped_storage (t : transaction_t) (oid : Z) : transaction_t :=
  let p := parked t in
  with_parked t (Accumulators (acc_appends p) (acc_base_appends p) (acc_base_deletes p)
    (acc_pg_appends p) (acc_pg_deletes p) (acc_backfills p)
    (acc_dropped p ++ [oid]) (acc_created p) (acc_indexes p)).

Definition drain_dropped_storages (t : transaction_t) : list Z * transaction_t :=
  let p := parked t in
  (acc_dropped p,
   with_parked t (Accumulators (acc_appends p) (acc_base_appends p) (acc_base_deletes p)
     (acc_pg_appends p) (acc_pg_deletes p) (acc_backfills p) [] (acc_created p) (acc_indexes p))).

Definition accumulate_created_storage (t : transaction_t) (oid : Z) : transaction_t :=
  let p := parked t in
  with_parked t (Accumulators (acc_appends p) (acc_base_appends p) (acc_base_deletes p)
    (acc_pg_appends p) (acc_pg_deletes p) (acc_backfills p)
    (acc_dropped p) (acc_created p ++ [oid]) (acc_indexes p)).

Definition drain_created_storages (t : transaction_t) : list Z * transaction_t :=
  let p := parked t in
  (acc_created p,
   with_parked t (Accumulators (acc_appends p) (acc_base_appends p) (acc_base_deletes p)
     (acc_pg_appends p) (acc_pg_deletes p) (acc_backfills p) (acc_dropped p) [] (acc_indexes p))).

Definition accumulate_created_index (t : transaction_t) (index : created_index_t) : transaction_t :=
  let p := parked t in
  with_parked t (Accumulators (acc_appends p) (acc_base_appends p) (acc_base_deletes p)
    (acc_pg_appends p) (acc_pg_deletes p) (acc_backfills p)
    (acc_dropped p) (acc_created p) (acc_indexes p ++ [index])).

Definition drain_created_indexes (t : transaction_t) : list created_index_t * transaction_t :=
  let p := parked t in
  (acc_indexes p,
   with_parked t (Accumulators (acc_appends p) (acc_base_appends p) (acc_base_deletes p)
     (acc_pg_appends p) (acc_pg_deletes p) (acc_backfills p) (acc_dropped p) (acc_created p) [])).

Definition nonempty {A} (l : list A) : bool := match l with [] => false | _ => true end.

Definition has_accumulated (t : transaction_t) : bool :=
  nonempty (pending_base_appends_ t) || nonempty (pending_base_deletes_ t)
  || nonempty (pg_catalog_appends t) || nonempty (pg_catalog_delete_tables t)
  || nonempty (pg_attribute_commit_id_backfills t) || nonempty (dropped_storage_oids_ t)
  || nonempty (created_storage_oids_ t) || nonempty (created_indexes_ t).

(** ** The manager *)

Record transaction_manager_t := Manager {
  next_transaction_id_ : Z;
  current_timestamp_ : Z;
  active_ : gmap Z transaction_t;
  active_start_times_ : list Z;
  in_flight_commits_ : list Z;
  published_horizon_ : Z;
}.

Definition manager_new : transaction_manager_t :=
  Manager TRANSACTION_ID_START 1 ∅ [] [] 0.

Definition begin_transaction (m : transaction_manager_t) (session : Z) :
    transaction_t * transaction_manager_t :=
  match active_ m !! session with
  | Some t => (t, m)
  | None =>
      let txn_id := next_transaction_id_ m in
      let start_time := current_timestamp_ m in
      let txn := set_snapshot (transaction_new txn_id start_time session)
                   (published_horizon_ m) (in_flight_commits_ m) in
      (txn, Manager (u64 (next_transaction_id_ m + 1)) (u64 (current_timestamp_ m + 1))
              (<[session := txn]> (active_ m))
              (oset_insert start_time (active_start_times_ m))
              (in_flight_commits_ m) (published_horizon_ m))
  end.

(** The committed object dies with its map entry. *)
Definition commit (m : transaction_manager_t) (session : Z) : Z * transaction_manager_t :=
  match active_ m !! session with
  | None => (0, m)
  | Some it =>
      let commit_id := current_timestamp_ m in
      let it := mark_committed (set_commit_id it commit_id) in
      (commit_id, Manager (next_transaction_id_ m) (u64 (current_timestamp_ m + 1))
              (delete session (active_ m))
              (oset_erase (start_time_ it) (active_start_times_ m))
              (oset_insert commit_id (in_flight_commits_ m)) (published_horizon_ m))
  end.

Definition abort (m : transaction_manager_t) (session : Z) : transaction_manager_t :=
  match active_ m !! session with
  | None => m
  | Some it =>
      let it := mark_aborted it in
      Manager (next_transaction_id_ m) (current_timestamp_ m) (delete session (active_ m))
        (oset_erase (start_time_ it) (active_start_times_ m))
        (in_flight_commits_ m) (published_horizon_ m)
  end.

Definition restore_commit_clock (m : transaction_manager_t) (frontier : Z) : transaction_manager_t :=
  let next := u64 (frontier + 1) in
  Manager (next_transaction_id_ m)
    (if bool_decide (current_timestamp_ m < next) then next else current_timestamp_ m)
    (active_ m) (active_start_times_ m) (in_flight_commits_ m)
    (if bool_decide (published_horizon_ m < frontier) then frontier else published_horizon_ m).

Definition seed_commit_clock (m : transaction_manager_t) (high_water : Z) : transaction_manager_t :=
  restore_commit_clock m high_water.

(** The compare-exchange loop runs under [lock_]: it ends with the maximum. *)
Definition publish (m : transaction_manager_t) (commit_id : Z) : transaction_manager_t :=
  Manager (next_transaction_id_ m) (current_timestamp_ m) (active_ m) (active_start_times_ m)
    (oset_erase commit_id (in_flight_commits_ m))
    (if bool_decide (published_horizon_ m < commit_id) then commit_id else published_horizon_ m).

Record snapshot_t := Snapshot { ss_snapshot_horizon : Z; ss_in_flight_snapshot : list Z }.

Definition take_snapshot (m : transaction_manager_t) : snapshot_t :=
  Snapshot (published_horizon_ m) (in_flight_commits_ m).

Definition find_transaction (m : transaction_manager_t) (session : Z) : option transaction_t :=
  active_ m !! session.

Definition has_active_transaction (m : transaction_manager_t) (session : Z) : bool :=
  match active_ m !! session with Some _ => true | None => false end.

Definition lowest_active_start_time (m : transaction_manager_t) : Z :=
  match active_start_times_ m with [] => current_timestamp_ m | t :: _ => t end.

Definition active_txns (m : transaction_manager_t) : list transaction_t := (map_to_list (active_ m)).*2.

Definition has_active_transactions (m : transaction_manager_t) : bool := nonempty (active_txns m).

Definition lowest_active_snapshot_horizon (m : transaction_manager_t) : Z :=
  if has_active_transactions m then
    foldl (fun lowest txn =>
             let h := snapshot_horizon (data txn) in
             if bool_decide (h < lowest) then h else lowest)
          UINT64_MAX (active_txns m)
  else published_horizon_ m.

(** The loop body of [compact_watermark] for one active transaction. *)
Definition watermark_txn (watermark : Z) (d : transaction_data) : Z :=
  let watermark := Z.min watermark (snapshot_horizon d) in
  match in_flight_snapshot d with
  | [] => watermark
  | c :: _ => Z.min watermark (u64 (c - 1))
  end.

Definition compact_watermark (m : transaction_manager_t) : Z :=
  let watermark := published_horizon_ m in
  let watermark :=
    match in_flight_commits_ m with
    | [] => watermark
    | c :: _ => Z.min watermark (u64 (c - 1))
    end in
  foldl (fun w txn => watermark_txn w (data txn)) watermark (active_txns m).

(** ** Executions

    A [world] is the manager with the history it is judged against: the commit
    ids handed out by this process, those that have gone through [publish], and
    the durable frontier recovered at start-up (every commit up to it was
    published by an earlier process). *)

Record world := World {
  mgr : transaction_manager_t;
  allocated : gset Z;
  published : gset Z;
  recovered : Z;
}.

(** A commit the manager knows: allocated here, or recovered. *)
Definition known (w : world) (c : Z) : Prop := c ∈ allocated w \/ 1 <= c <= recovered w.

(** A commit whose effects readers may see. *)
Definition is_published (w : world) (c : Z) : Prop := c ∈ published w \/ 1 <= c <= recovered w.

(** The clock and the transaction ids have not reached the end of their ranges
    (commit ids stay below [TRANSACTION_ID_START], ids below the delete marker). *)
Definition clock_room (m : transaction_manager_t) : Prop :=
  current_timestamp_ m + 1 < TRANSACTION_ID_START /\ next_transaction_id_ m + 1 < NOT_DELETED_ID.

#[global] Instance clock_room_dec m : Decision (clock_room m).
Proof. unfold clock_room. apply _. Defined.

Inductive boot : world -> Prop :=
| boot_fresh : boot (World manager_new ∅ ∅ 0)
| boot_restore w f :
    boot w -> 0 <= f -> f + 1 < TRANSACTION_ID_START ->
    boot (World (restore_commit_clock (mgr w) f) ∅ ∅ (Z.max (recovered w) f)).

Inductive step : world -> world -> Prop :=
| step_begin w s :
    clock_room (mgr w) ->
    step w (World (begin_transaction (mgr w) s).2 (allocated w) (published w) (recovered w))
| step_commit w s :
    clock_room (mgr w) -> has_active_transaction (mgr w) s = true ->
    step w (World (commit (mgr w) s).2 ({[ (commit (mgr w) s).1 ]} ∪ allocated w)
              (published w) (recovered w))
| step_commit_none w s :
    has_active_transaction (mgr w) s = false ->
    step w (World (commit (mgr w) s).2 (allocated w) (published w) (recovered w))
| step_abort w s :
    step w (World (abort (mgr w) s) (allocated w) (published w) (recovered w))
| step_publish w c :
    c ∈ in_flight_commits_ (mgr w) ->
    step w (World (publish (mgr w) c) (allocated w) ({[c]} ∪ published w) (recovered w)).

Definition steps : world -> world -> Prop := rtc step.

Definition reachable (w : world) : Prop := exists w0, boot w0 /\ steps w0 w.

(** Executions as values: run a list of operations, checking each step's guard. *)
Inductive operation :=
| OBegin (s : Z)
| OCommit (s : Z)
| OAbort (s : Z)
| OPublish (c : Z).

Definition exec (w : world) (o : operation) : option world :=
  match o with
  | OBegin s =>
      if bool_decide (clock_room (mgr w))
      then Some (World (begin_transaction (mgr w) s).2 (allocated w) (published w) (recovered w))
      else None
  | OCommit s =>
      if has_active_transaction (mgr w) s then
        if bool_decide (clock_room (mgr w))
        then Some (World (commit (mgr w) s).2 ({[ (commit (mgr w) s).1 ]} ∪ allocated w)
                     (published w) (recovered w))
        else None
      else Some (World (commit (mgr w) s).2 (allocated w) (published w) (recovered w))
  | OAbort s => Some (World (abort (mgr w) s) (allocated w) (published w) (recovered w))
  | OPublish c =>
      if bool_decide (c ∈ in_flight_commits_ (mgr w))
      then Some (World (publish (mgr w) c) (allocated w) ({[c]} ∪ published w) (recovered w))
      else None
  end.

Fixpoint exec_all (w : world) (os : list operation) : option world :=
  match os with
  | [] => Some w
  | o :: os => w' ← exec w o; exec_all w' os
  end.

Definition fresh_world : world := World manager_new ∅ ∅ 0.

(** The snapshot a transaction reads through covers exactly [P]. *)
Definition sees_exactly (d : transaction_data) (w : world) (P : Z -> Prop) : Prop :=
  forall c, known w c -> (use_inserted_version d c = true <-> P c).

(** A reader that takes its snapshot now, under transaction id [id]. *)
Definition reader_of (id : Z) (s : snapshot_t) : transaction_data :=
  TransactionData id 0 (ss_snapshot_horizon s) (ss_in_flight_snapshot s).

Lemma exec_step w o w' : exec w o = Some w' -> step w w'.
Proof.
  destruct o; cbn; repeat case_match; intros [= <-]; split_bools; by constructor.
Qed.

Lemma exec_all_steps w os w' : exec_all w os = Some w' -> steps w w'.
Proof.
  revert w. induction os as [|o os IH]; intros w; cbn.
  - intros [= <-]. constructor.
  - destruct (exec w o) as [w1|] eqn:Ho; cbn; [|done]. intros H.
    eapply rtc_l; [by eapply exec_step | by apply IH].
Qed.

Lemma exec_all_reachable os w : exec_all fresh_world os = Some w -> reachable w.
Proof. intros H. exists fresh_world. split; [constructor | by eapply exec_all_steps]. Qed.

(** ** The invariant of reachable worlds *)

Record txn_inv (w : world) (s : Z) (t : transaction_t) : Prop := {
  ti_session : session_ t = s;
  ti_sorted : oset (in_flight_snapshot_ t);
  ti_horizon : 0 <= snapshot_horizon_ t <= published_horizon_ (mgr w);
  ti_in_flight : forall c, c ∈ in_flight_snapshot_ t -> c ∈ allocated w;
  ti_id : TRANSACTION_ID_START <= transaction_id_ t < next_transaction_id_ (mgr w);
  ti_start : 1 <= start_time_ t < current_timestamp_ (mgr w);
}.

Record inv (w : world) : Prop := {
  inv_in_flight_sorted : oset (in_flight_commits_ (mgr w));
  inv_starts_sorted : oset (active_start_times_ (mgr w));
  inv_clock : 0 <= published_horizon_ (mgr w) < current_timestamp_ (mgr w)
              /\ current_timestamp_ (mgr w) < TRANSACTION_ID_START;
  inv_next : TRANSACTION_ID_START <= next_transaction_id_ (mgr w) < NOT_DELETED_ID;
  inv_recovered : 0 <= recovered w <= published_horizon_ (mgr w);
  inv_allocated : forall c, c ∈ allocated w <-> c ∈ in_flight_commits_ (mgr w) \/ c ∈ published w;
  inv_disjoint : forall c, c ∈ in_flight_commits_ (mgr w) -> c ∉ published w;
  inv_range : forall c, c ∈ allocated w -> recovered w < c < current_timestamp_ (mgr w);
  inv_published : forall c, c ∈ published w -> c <= published_horizon_ (mgr w);
  inv_active : forall s t, active_ (mgr w) !! s = Some t -> txn_inv w s t;
  inv_starts : forall x, x ∈ active_start_times_ (mgr w) <->
                 exists s t, active_ (mgr w) !! s = Some t /\ start_time_ t = x;
  inv_start_inj : forall s s' t t', active_ (mgr w) !! s = Some t -> active_ (mgr w) !! s' = Some t' ->
                 start_time_ t = start_time_ t' -> s = s';
  inv_id_inj : forall s s' t t', active_ (mgr w) !! s = Some t -> active_ (mgr w) !! s' = Some t' ->
                 transaction_id_ t = transaction_id_ t' -> s = s';
}.

(** Numeric bounds of the constants, once. *)
Lemma id_bounds : 0 < TRANSACTION_ID_START /\ TRANSACTION_ID_START < NOT_DELETED_ID /\ NOT_DELETED_ID < 2 ^ 64.
Proof. vm_compute. split_and!; congruence. Qed.

Lemma clock_wrap x : 0 <= x -> x < NOT_DELETED_ID -> u64 x = x.
Proof. intros. apply wrap_small. unfold in_width. pose proof id_bounds. lia. Qed.

(** [txn_inv] survives as long as the manager's counters only grow. *)
Lemma txn_inv_mono w w' s t :
  published_horizon_ (mgr w) <= published_horizon_ (mgr w') ->
  next_transaction_id_ (mgr w) <= next_transaction_id_ (mgr w') ->
  current_timestamp_ (mgr w) <= current_timestamp_ (mgr w') ->
  allocated w ⊆ allocated w' ->
  txn_inv w s t -> txn_inv w' s t.
Proof. intros ???? []. constructor; try done; try lia. set_solver. Qed.

Section preservation.
Context (w : world) (Hinv : inv w).

Lemma begin_inv s :
  clock_room (mgr w) ->
  inv (World (begin_transaction (mgr w) s).2 (allocated w) (published w) (recovered w)).
Proof.
  intros [Hroom1 Hroom2]. unfold begin_transaction.
  destruct (active_ (mgr w) !! s) as [t|] eqn:Hs; [by destruct w|].
  destruct Hinv as [Hif Hst Hclk Hnx Hrec Hal Hdj Hrg Hpb Hac Hss Hsi Hii].
  pose proof id_bounds.
  cbn [snd]. rewrite !clock_wrap by lia.
  assert (Hnew : forall s' t', active_ (mgr w) !! s' = Some t' ->
            start_time_ t' <> current_timestamp_ (mgr w) /\ transaction_id_ t' <> next_transaction_id_ (mgr w)).
  { intros s' t' [? ? ? ? Hid Hsta]%Hac. lia. }
  constructor; cbn; try done; try lia; auto with otter.
  - intros c Hc. apply Hrg in Hc. lia.
  - intros s' t'. rewrite lookup_insert. case_decide as Heq; [intros [= <-]; subst s' | intros Ht'].
    + constructor; cbn; try done; try lia. intros c Hc. apply Hal. by left.
    + eapply txn_inv_mono; [| | | |by apply Hac]; cbn; first [lia | done].
  - intros x. rewrite elem_of_oset_insert, Hss. split.
    + intros [->|(s' & t' & Ht' & <-)].
      * eexists s, _. by rewrite lookup_insert_eq.
      * exists s', t'. rewrite lookup_insert_ne; [done|]. congruence.
    + intros (s' & t' & Ht' & <-). rewrite lookup_insert in Ht'. case_decide; simplify_eq; [by left|].
      right. eauto.
  - intros s1 s2 t1 t2. rewrite !lookup_insert. repeat case_decide; intros; simplify_eq; try done;
      cbn in *; first [by eapply Hsi | exfalso; naive_solver].
  - intros s1 s2 t1 t2. rewrite !lookup_insert. repeat case_decide; intros; simplify_eq; try done;
      cbn in *; first [by eapply Hii | exfalso; naive_solver].
Qed.

(** Removing a session and its start time keeps the start-time index exact. *)
Lemma erase_session_starts s t :
  active_ (mgr w) !! s = Some t ->
  forall x, x ∈ oset_erase (start_time_ t) (active_start_times_ (mgr w)) <->
    exists s' t', delete s (active_ (mgr w)) !! s' = Some t' /\ start_time_ t' = x.
Proof.
  intros Ht x. rewrite elem_of_oset_erase by apply Hinv. rewrite (inv_starts w Hinv). split.
  - intros [Hne (s' & t' & Ht' & <-)]. exists s', t'. split; [|done].
    rewrite lookup_delete_ne; [done|]. intros <-. congruence.
  - intros (s' & t' & [Hs' Ht']%lookup_delete_Some & <-). split; [|eauto].
    intros Heq. apply Hs'. symmetry. by eapply (inv_start_inj w Hinv).
Qed.

Lemma commit_inv s :
  clock_room (mgr w) -> has_active_transaction (mgr w) s = true ->
  inv (World (commit (mgr w) s).2 ({[ (commit (mgr w) s).1 ]} ∪ allocated w) (published w) (recovered w)).
Proof.
  intros [Hroom1 Hroom2] Has. unfold has_active_transaction in Has. unfold commit.
  destruct (active_ (mgr w) !! s) as [t|] eqn:Hs; [|done].
  pose proof (erase_session_starts s t Hs) as Hers.
  destruct Hinv as [Hif Hst Hclk Hnx Hrec Hal Hdj Hrg Hpb Hac Hss Hsi Hii].
  pose proof id_bounds.
  cbn [fst snd]. rewrite !clock_wrap by lia.
  constructor; cbn; try done; try lia; auto with otter.
  - intros c. rewrite elem_of_oset_insert, elem_of_union, elem_of_singleton, Hal. tauto.
  - intros c. rewrite elem_of_oset_insert. intros [->|Hc]; [|by apply Hdj].
    intros Hc%Hpb. lia.
  - intros c. rewrite elem_of_union, elem_of_singleton. intros [->|Hc%Hrg]; lia.
  - intros s' t' [_ Ht']%lookup_delete_Some.
    eapply txn_inv_mono; [| | | |by apply Hac]; cbn; first [lia | set_solver].
  - intros s1 s2 t1 t2 [_ H1]%lookup_delete_Some [_ H2]%lookup_delete_Some. by eapply Hsi.
  - intros s1 s2 t1 t2 [_ H1]%lookup_delete_Some [_ H2]%lookup_delete_Some. by eapply Hii.
Qed.

Lemma abort_inv s : inv (World (abort (mgr w) s) (allocated w) (published w) (recovered w)).
Proof.
  unfold abort. destruct (active_ (mgr w) !! s) as [t|] eqn:Hs; [|by destruct w].
  pose proof (erase_session_starts s t Hs) as Hers.
  destruct Hinv as [Hif Hst Hclk Hnx Hrec Hal Hdj Hrg Hpb Hac Hss Hsi Hii].
 
  constructor; cbn; try done; auto with otter.
  - intros s' t' [_ Ht']%lookup_delete_Some.
    eapply txn_inv_mono; [| | | |by apply Hac]; cbn; first [lia | done].
  - intros s1 s2 t1 t2 [_ H1]%lookup_delete_Some [_ H2]%lookup_delete_Some. by eapply Hsi.
  - intros s1 s2 t1 t2 [_ H1]%lookup_delete_Some [_ H2]%lookup_delete_Some. by eapply Hii.
Qed.

Lemma publish_inv c :
  c ∈ in_flight_commits_ (mgr w) ->
  inv (World (publish (mgr w) c) (allocated w) ({[c]} ∪ published w) (recovered w)).
Proof.
  intros Hc. destruct Hinv as [Hif Hst Hclk Hnx Hrec Hal Hdj Hrg Hpb Hac Hss Hsi Hii].
 
  assert (Hcr : recovered w < c < current_timestamp_ (mgr w)) by (apply Hrg, Hal; by left).
  assert (Hh : published_horizon_ (mgr w) <= published_horizon_ (publish (mgr w) c)
               /\ c <= published_horizon_ (publish (mgr w) c)
               /\ published_horizon_ (publish (mgr w) c) < current_timestamp_ (mgr w)).
  { unfold publish. cbn. case_bool_decide; lia. }
  constructor; try done; try lia; try (unfold publish; cbn; by auto with otter).
  - cbn in *. lia.
  - cbn in *. lia.
  - intros c'. cbn. rewrite elem_of_oset_erase by done. rewrite Hal. set_unfold.
    destruct (decide (c' = c)); naive_solver.
  - intros c'. cbn. rewrite elem_of_oset_erase by done. set_unfold. naive_solver.
  - intros c'. cbn in *. set_unfold. intros [->|Hc'%Hpb]; lia.
  - intros s t Ht. eapply txn_inv_mono; [| | | |by apply Hac]; cbn in *; first [lia | done].
Qed.
End preservation.

Lemma boot_inv w : boot w -> inv w /\ active_ (mgr w) = ∅ /\ in_flight_commits_ (mgr w) = [].
Proof.
  pose proof id_bounds. induction 1 as [|w f Hb (IH & Hact & Hif) Hf Hroom].
  - split; [|done]. constructor; cbn; try done; try lia; try set_solver; auto with otter.
  - split; [|done]. destruct IH as [Hif' Hst Hclk Hnx Hrec Hal Hdj Hrg Hpb Hac Hss Hsi Hii].
    unfold restore_commit_clock. rewrite clock_wrap by lia. rewrite Hact, Hif in *.
    constructor; cbn; try done; auto; repeat case_bool_decide; try lia; try set_solver.
Qed.

Lemma step_inv w w' : step w w' -> inv w -> inv w'.
Proof.
  intros Hstep Hinv. destruct Hstep.
  - by apply begin_inv.
  - by apply commit_inv.
  - unfold has_active_transaction, commit in *. destruct (active_ (mgr w) !! s); [done|]. by destruct w.
  - by apply abort_inv.
  - by apply publish_inv.
Qed.

Lemma steps_inv w w' : steps w w' -> inv w -> inv w'.
Proof. induction 1; eauto using step_inv. Qed.

Lemma reachable_inv w : reachable w -> inv w.
Proof. intros (w0 & Hb & Hs). eapply steps_inv; [done|]. by apply boot_inv. Qed.

(** ** What later worlds keep

    [later w w'] collects what never goes backwards along an execution. *)

Record later (w w' : world) : Prop := {
  lt_recovered : recovered w' = recovered w;
  lt_horizon : published_horizon_ (mgr w) <= published_horizon_ (mgr w');
  lt_clock : current_timestamp_ (mgr w) <= current_timestamp_ (mgr w');
  lt_next : next_transaction_id_ (mgr w) <= next_transaction_id_ (mgr w');
  lt_allocated : allocated w ⊆ allocated w';
  lt_published : published w ⊆ published w';
  lt_new : forall c, c ∈ allocated w' -> c ∈ allocated w \/ current_timestamp_ (mgr w) <= c;
  lt_active : forall s t, active_ (mgr w') !! s = Some t ->
                active_ (mgr w) !! s = Some t \/ next_transaction_id_ (mgr w) <= transaction_id_ t;
}.

#[global] Instance later_preorder : PreOrder later.
Proof.
  split.
  - intros w. constructor; try done; auto.
  - intros w1 w2 w3 [] []. constructor; [congruence | lia | lia | lia | by etrans | by etrans | |].
    + intros c Hc. destruct (lt_new1 c Hc) as [Hc'|]; [destruct (lt_new0 c Hc'); auto | right; lia].
    + intros s t Ht. destruct (lt_active1 s t Ht) as [Ht'|]; [auto | right; lia].
Qed.

Lemma step_later w w' : inv w -> step w w' -> later w w'.
Proof.
  intros Hinv Hstep. pose proof id_bounds. pose proof (inv_clock w Hinv). pose proof (inv_next w Hinv).
  destruct Hstep as [w s [Hr1 Hr2]|w s [Hr1 Hr2] Has|w s Has|w s|w c Hc].
  - unfold begin_transaction. destruct (active_ (mgr w) !! s) as [t|] eqn:Hs; [by destruct w|].
    cbn [snd]. rewrite !clock_wrap by lia. constructor; cbn; try done; try lia; auto.
    intros s' t' Ht'. rewrite lookup_insert in Ht'. case_decide; simplify_eq; [right; cbn; lia | by left].
  - unfold has_active_transaction, commit in *. destruct (active_ (mgr w) !! s) as [t|] eqn:Hs; [|done].
    cbn [fst snd]. rewrite !clock_wrap by lia. constructor; cbn; [done | lia | lia | lia | set_solver | done | |].
    + intros c. rewrite elem_of_union, elem_of_singleton. intros [->|]; [right; lia | by left].
    + intros s' t' [_ Ht']%lookup_delete_Some. by left.
  - unfold has_active_transaction, commit in *. destruct (active_ (mgr w) !! s); [done|].
    destruct w. reflexivity.
  - unfold abort. destruct (active_ (mgr w) !! s) as [t|] eqn:Hs; [|by destruct w].
    constructor; cbn; try done; auto. intros s' t' [_ Ht']%lookup_delete_Some. by left.
  - constructor; cbn; [done | case_bool_decide; lia | lia | lia | done | set_solver | auto | auto].
Qed.

Lemma steps_later w w' : inv w -> steps w w' -> later w w'.
Proof.
  intros Hinv Hs. induction Hs as [|w w1 w2 H1 H2 IH]; [reflexivity|].
  transitivity w1; [by apply step_later | apply IH; by eapply step_inv].
Qed.

Lemma known_bounds w c : inv w -> known w c -> 1 <= c < current_timestamp_ (mgr w).
Proof.
  intros Hinv. pose proof (inv_clock w Hinv). pose proof (inv_recovered w Hinv).
  intros [Hc%(inv_range w Hinv)|?]; lia.
Qed.

(** The part of [use_inserted_version] that concerns known commits. *)
Lemma known_visible w d c :
  inv w -> known w c -> snapshot_wf d ->
  transaction_id d = 0 \/ TRANSACTION_ID_START <= transaction_id d ->
  use_inserted_version d c = true <-> c <= snapshot_horizon d /\ c ∉ in_flight_snapshot d.
Proof.
  intros Hinv Hc Hwf Hid. pose proof (known_bounds w c Hinv Hc). pose proof (inv_clock w Hinv).
  rewrite use_inserted_version_spec by done. unfold self_write, covers. naive_solver lia.
Qed.

(** What a snapshot of the manager's current state covers, now and later. *)
Lemma snapshot_exact w w' d :
  inv w -> steps w w' ->
  snapshot_horizon d = published_horizon_ (mgr w) -> in_flight_snapshot d = in_flight_commits_ (mgr w) ->
  transaction_id d = 0 \/ TRANSACTION_ID_START <= transaction_id d ->
  sees_exactly d w' (is_published w).
Proof.
  intros Hinv Hs Hh Hif Hid c Hc. pose proof (steps_inv _ _ Hs Hinv) as Hinv'.
  pose proof (steps_later _ _ Hinv Hs) as Hl. pose proof (inv_clock w Hinv). pose proof (inv_recovered w Hinv).
  rewrite (known_visible w') by (try done; unfold snapshot_wf; rewrite Hif; apply Hinv).
  rewrite Hh, Hif. unfold is_published. unfold known in Hc. rewrite (lt_recovered _ _ Hl) in Hc.
  destruct Hc as [Hc|Hc].
  - destruct (lt_new _ _ Hl c Hc) as [Ha|Hge].
    + pose proof (inv_range w Hinv c Ha). pose proof (inv_allocated w Hinv c) as Hal.
      pose proof (inv_disjoint w Hinv c). pose proof (inv_published w Hinv c). naive_solver lia.
    + assert (c ∉ published w) as Hnp by (intros ?%(inv_published w Hinv); lia).
      pose proof (inv_range w' Hinv' c Hc). rewrite (lt_recovered _ _ Hl) in *. naive_solver lia.
  - assert (c ∉ in_flight_commits_ (mgr w)).
    { intros Hin. assert (c ∈ allocated w) as Hr%(inv_range w Hinv) by (apply (inv_allocated w Hinv); by left).
      lia. }
    naive_solver lia.
Qed.

(** ** The compaction watermark

    [safe_mark m K]: no snapshot, present or future, can reject a commit id at or
    below [K]; [safe_mark_for P]: no snapshot but those of transactions outside [P]. *)

Definition safe_mark_for (P : transaction_t -> Prop) (m : transaction_manager_t) (K : Z) : Prop :=
  K <= published_horizon_ m /\
  (forall c, c ∈ in_flight_commits_ m -> K < c) /\
  (forall s t, active_ m !! s = Some t -> P t ->
     K <= snapshot_horizon_ t /\ forall c, c ∈ in_flight_snapshot_ t -> K < c).

Definition safe_mark : transaction_manager_t -> Z -> Prop := safe_mark_for (fun _ => True).

(** [min(.., front() - 1)] over an ascending range of positive ids. *)
Lemma head_pred_bound K W s :
  oset s -> (forall c, c ∈ s -> 1 <= c < TRANSACTION_ID_START) ->
  K <= match s with [] => W | c :: _ => Z.min W (u64 (c - 1)) end <->
  K <= W /\ forall c, c ∈ s -> K < c.
Proof.
  pose proof id_bounds. destruct s as [|c s]; intros Hs Hr; [set_solver|].
  pose proof (Hr c ltac:(set_solver)). rewrite clock_wrap by lia.
  split.
  - intros HK. split; [lia|]. intros c' Hc'. pose proof (oset_head_least c s c' Hs Hc'). lia.
  - intros [HK Hall]. specialize (Hall c ltac:(set_solver)). lia.
Qed.

Lemma watermark_fold K W (l : list transaction_t) :
  (forall t, t ∈ l -> oset (in_flight_snapshot_ t) /\
     forall c, c ∈ in_flight_snapshot_ t -> 1 <= c < TRANSACTION_ID_START) ->
  K <= foldl (fun w txn => watermark_txn w (data txn)) W l <->
  K <= W /\ forall t, t ∈ l -> K <= snapshot_horizon_ t /\ forall c, c ∈ in_flight_snapshot_ t -> K < c.
Proof.
  revert W. induction l as [|t l IH]; intros W Hl; cbn [foldl]; [set_solver|].
  rewrite IH by set_solver. destruct (Hl t ltac:(set_solver)) as [Hs Hr].
  unfold watermark_txn at 1. cbn. rewrite head_pred_bound by done. set_unfold. naive_solver lia.
Qed.

Lemma elem_of_active_txns m t : t ∈ active_txns m <-> exists s, active_ m !! s = Some t.
Proof.
  unfold active_txns. rewrite list_elem_of_fmap. split.
  - intros ([s t'] & -> & Hst%elem_of_map_to_list). eauto.
  - intros [s Hs]. exists (s, t). split; [done|]. by apply elem_of_map_to_list.
Qed.

Lemma compact_watermark_safe_mark w K :
  inv w -> K <= compact_watermark (mgr w) <-> safe_mark (mgr w) K.
Proof.
  intros Hinv. pose proof (inv_clock w Hinv). pose proof (inv_recovered w Hinv).
  assert (Hr : forall c, c ∈ allocated w -> 1 <= c < TRANSACTION_ID_START)
    by (intros c Hc%(inv_range w Hinv); lia).
  unfold compact_watermark. rewrite watermark_fold.
  - rewrite head_pred_bound.
    + unfold safe_mark, safe_mark_for. setoid_rewrite elem_of_active_txns. naive_solver.
    + apply Hinv.
    + intros c Hc. apply Hr, (inv_allocated w Hinv). by left.
  - intros t [s Ht%(inv_active w Hinv)]%elem_of_active_txns. destruct Ht. auto.
Qed.

Lemma step_safe_mark P w w' K : inv w -> step w w' -> safe_mark_for P (mgr w) K -> safe_mark_for P (mgr w') K.
Proof.
  intros Hinv Hstep (HK & Hif & Hact). pose proof (inv_clock w Hinv).
  pose proof (inv_in_flight_sorted w Hinv).
  destruct Hstep as [w s Hr|w s Hr Has|w s Has|w s|w c Hc]; cbn.
  - unfold begin_transaction. destruct (active_ (mgr w) !! s) as [t|] eqn:Hs; [done|].
    split_and!; [done..|]. cbn. intros s' t' Ht'. rewrite lookup_insert in Ht'.
    case_decide; simplify_eq; [done | by eapply Hact].
  - unfold commit. destruct (active_ (mgr w) !! s) as [t|] eqn:Hs; [|done].
    split_and!; cbn; [done| |].
    + intros c [->|]%elem_of_oset_insert; [lia | auto].
    + intros s' t' [_ Ht']%lookup_delete_Some. by eapply Hact.
  - unfold has_active_transaction, commit in *. by destruct (active_ (mgr w) !! s).
  - unfold abort. destruct (active_ (mgr w) !! s) as [t|] eqn:Hs; [|done].
    split_and!; cbn; [done..|]. intros s' t' [_ Ht']%lookup_delete_Some. by eapply Hact.
  - split_and!; cbn; [case_bool_decide; lia| |done].
    intros c' Hc'. apply elem_of_oset_erase in Hc' as [_ Hc']; auto.
Qed.

Lemma steps_safe_mark P w w' K : inv w -> steps w w' -> safe_mark_for P (mgr w) K -> safe_mark_for P (mgr w') K.
Proof.
  intros Hinv Hs. induction Hs as [|w w1 w2 H1 H2 IH]; [done|].
  intros. apply IH; [by eapply step_inv | by eapply step_safe_mark].
Qed.

(** A commit at or below a safe mark is inside every snapshot that respects it. *)
Lemma safe_mark_covers w K c horizon in_flight id time :
  inv w -> known w c -> c <= K -> K <= horizon -> oset in_flight ->
  (forall c, c ∈ in_flight -> K < c) ->
  use_inserted_version (TransactionData id time horizon in_flight) c = true.
Proof.
  intros Hinv Hc HcK HKh Hs Hif. pose proof (known_bounds w c Hinv Hc). pose proof (inv_clock w Hinv).
  apply use_inserted_version_spec; [done|]. right. split_and!; cbn; [lia..|].
  intros Hin%Hif. lia.
Qed.

(** ** Start times *)

Lemma starts_empty_iff w : inv w -> active_start_times_ (mgr w) = [] <-> active_ (mgr w) = ∅.
Proof.
  intros Hinv. split.
  - intros Hnil. apply map_empty. intros s. apply eq_None_not_Some. intros [t Ht].
    assert (Hin : start_time_ t ∈ active_start_times_ (mgr w)) by (apply (inv_starts w Hinv); eauto).
    rewrite Hnil in Hin. set_solver.
  - intros He. destruct (active_start_times_ (mgr w)) as [|x l] eqn:Hl; [done|].
    assert (Hin : x ∈ active_start_times_ (mgr w)) by (rewrite Hl; set_solver).
    apply (inv_starts w Hinv) in Hin as (s & t & Ht & _). by rewrite He, lookup_empty in Ht.
Qed.

(** ** Properties *)

(** A snapshot taken in any reachable state of the manager shows exactly the
    commits that have been published: an allocated commit id still in flight is
    hidden, a published or recovered one is visible, in whatever order the
    commits were published. *)
Theorem take_snapshot_sees_published w id :
  reachable w -> id = 0 \/ TRANSACTION_ID_START <= id ->
  sees_exactly (reader_of id (take_snapshot (mgr w))) w (is_published w).
Proof. intros Hw%reachable_inv Hid. by apply (snapshot_exact w w); [| constructor | | |]. Qed.

(** C1: Snapshot isolation.  The transaction [begin_transaction] opens sees, in
    every later state and for every commit known there, exactly the commits that
    were published when it began; and as long as its session still holds it, the
    object the manager stores keeps that snapshot. *)
Theorem begin_transaction_snapshot_isolation w s w' :
  reachable w -> clock_room (mgr w) -> find_transaction (mgr w) s = None ->
  steps (World (begin_transaction (mgr w) s).2 (allocated w) (published w) (recovered w)) w' ->
  sees_exactly (data (begin_transaction (mgr w) s).1) w' (is_published w) /\
  (forall t, find_transaction (mgr w') s = Some t ->
     transaction_id_ t = transaction_id_ (begin_transaction (mgr w) s).1 ->
     t = (begin_transaction (mgr w) s).1).
Proof.
  intros Hw%reachable_inv Hroom Hnone Hsteps. unfold find_transaction in *.
  pose proof (inv_next w Hw). pose proof id_bounds.
  assert (Hall : steps w w') by (eapply rtc_l; [by apply (step_begin w s) | exact Hsteps]).
  split.
  - apply (snapshot_exact w w'); [done|done| | |]; unfold begin_transaction; rewrite Hnone; cbn; [done|done|lia].
  - intros t Ht Hid. pose proof (begin_inv w Hw s Hroom) as Hi1.
    destruct (lt_active _ _ (steps_later _ _ Hi1 Hsteps) s t Ht) as [Ht1|Hge].
    + unfold begin_transaction in Ht1 |- *. rewrite Hnone in *. cbn in *.
      rewrite lookup_insert_eq in Ht1. by simplify_eq.
    + revert Hge Hid. destruct Hroom. unfold begin_transaction. rewrite Hnone. cbn [fst snd mgr next_transaction_id_].
      rewrite clock_wrap by lia. cbn. lia.
Qed.

(** C26: Compaction safety.  Once [compact_watermark] has returned a value, every
    commit at or below it is visible to every transaction active in any later
    state and to every snapshot taken there, so collapsing its version history
    cannot change what a reader sees. *)
Theorem compact_watermark_visible_to_all w w' c id :
  reachable w -> steps w w' -> known w' c -> c <= compact_watermark (mgr w) ->
  (forall s t, find_transaction (mgr w') s = Some t -> use_inserted_version (data t) c = true) /\
  use_inserted_version (reader_of id (take_snapshot (mgr w'))) c = true.
Proof.
  intros Hw%reachable_inv Hs Hc Hle. pose proof (steps_inv _ _ Hs Hw) as Hw'.
  destruct (steps_safe_mark (fun _ => True) w w' c Hw Hs) as (Hh & Hif & Hact); [by apply compact_watermark_safe_mark|].
  split.
  - intros s t Ht. destruct (Hact s t Ht I). destruct (inv_active w' Hw' s t Ht).
    by eapply (safe_mark_covers w' c).
  - by eapply (safe_mark_covers w' c); [| | | |apply Hw'|].
Qed.

(** The watermark goes stale only in the safe direction: a value computed now
    is never above one computed later. *)
Theorem compact_watermark_monotone w w' :
  reachable w -> steps w w' -> compact_watermark (mgr w) <= compact_watermark (mgr w').
Proof.
  intros Hw%reachable_inv Hs. apply compact_watermark_safe_mark; [by eapply steps_inv|].
  eapply steps_safe_mark; [done..|]. by apply compact_watermark_safe_mark.
Qed.

(** The id [commit] returns is fresh: above every commit id allocated or
    recovered so far, below every transaction id, and never the 0 that reports a
    session without a transaction. *)
Theorem commit_id_fresh w s :
  reachable w -> has_active_transaction (mgr w) s = true ->
  let c := (commit (mgr w) s).1 in
  (forall c', known w c' -> c' < c) /\ 0 < c < TRANSACTION_ID_START /\
  (forall s' t, find_transaction (mgr w) s' = Some t -> c < transaction_id_ t).
Proof.
  intros Hw%reachable_inv Has. unfold has_active_transaction, commit in *.
  destruct (active_ (mgr w) !! s) as [t|] eqn:Hs; [|done]. cbn.
  pose proof (inv_clock w Hw). split_and!; try lia.
  - intros c' Hc'. by apply (known_bounds w).
  - intros s' t' Ht'. destruct (inv_active w Hw s' t' Ht'). lia.
Qed.

(** [lowest_active_start_time] is the least start time of the active
    transactions, and the clock when there is none. *)
Theorem lowest_active_start_time_least w :
  reachable w ->
  (active_ (mgr w) = ∅ -> lowest_active_start_time (mgr w) = current_timestamp_ (mgr w)) /\
  (active_ (mgr w) <> ∅ ->
     exists s t, find_transaction (mgr w) s = Some t /\ start_time_ t = lowest_active_start_time (mgr w)) /\
  (forall s t, find_transaction (mgr w) s = Some t -> lowest_active_start_time (mgr w) <= start_time_ t).
Proof.
  intros Hw%reachable_inv. unfold lowest_active_start_time, find_transaction.
  pose proof (starts_empty_iff w Hw) as He. pose proof (inv_starts w Hw) as Hst.
  pose proof (inv_starts_sorted w Hw) as Hso.
  destruct (active_start_times_ (mgr w)) as [|x l]; split_and!.
  - done.
  - naive_solver.
  - intros s t Ht. assert (start_time_ t ∈ @nil Z) by (apply Hst; eauto). set_solver.
  - naive_solver.
  - intros _. apply Hst. set_solver.
  - intros s t Ht. apply (oset_head_least x l); [done|]. apply Hst. eauto.
Qed.

(** Restoring the commit clock from two durable frontiers is restoring it from
    the larger one: the call is idempotent, order-independent and never lowers
    either half of the clock. *)
Theorem restore_commit_clock_join m f g :
  0 <= f -> 0 <= g -> f + 1 < 2 ^ 64 -> g + 1 < 2 ^ 64 ->
  let m' := restore_commit_clock (restore_commit_clock m f) g in
  m' = restore_commit_clock m (Z.max f g) /\
  current_timestamp_ m <= current_timestamp_ m' /\ published_horizon_ m <= published_horizon_ m' /\
  Z.max f g < current_timestamp_ m'.
Proof.
  intros Hf Hg Hf1 Hg1 m'. unfold m', restore_commit_clock. cbn.
  rewrite !wrap_small by (unfold in_width; lia).
  split_and!; [f_equal|..]; repeat case_bool_decide; lia.
Qed.

(** The transactions that have allocated a commit id but not published it are
    protected from the DROP sweep (which reclaims storage dropped below
    [lowest_active_snapshot_horizon]) when commits publish in allocation order. *)
Theorem gc_horizon_below_in_flight w c :
  reachable w -> (forall c, c ∈ in_flight_commits_ (mgr w) -> published_horizon_ (mgr w) < c) ->
  c ∈ in_flight_commits_ (mgr w) -> lowest_active_snapshot_horizon (mgr w) < c.
Proof.
  intros Hw%reachable_inv Hord Hc. specialize (Hord c Hc). unfold lowest_active_snapshot_horizon, has_active_transactions.
  destruct (active_txns (mgr w)) as [|t l] eqn:Hl; [done|]. cbn.
  assert (Hmin : forall ts W, foldl (fun lowest txn =>
             let h := snapshot_horizon (data txn) in if bool_decide (h < lowest) then h else lowest) W ts <= W).
  { induction ts as [|t' ts IH]; intros W; cbn; [lia|]. etrans; [apply IH|]. case_bool_decide; lia. }
  assert (Ht : t ∈ active_txns (mgr w)) by (rewrite Hl; set_solver).
  apply elem_of_active_txns in Ht as [s Ht%(inv_active w Hw)]. destruct Ht.
  eapply Z.le_lt_trans; [apply Hmin|]. cbn. case_bool_decide; lia.
Qed.

(** Out-of-order publication defeats that protection: two commits in flight, the
    younger one published first, and the sweep horizon passes the older one, which is
    still unpublished. *)
Theorem gc_horizon_overtakes_in_flight :
  exists w c, reachable w /\ c ∈ in_flight_commits_ (mgr w) /\ c ∉ published w /\
    c < lowest_active_snapshot_horizon (mgr w).
Proof.
  eexists _, 3. split; [apply (exec_all_reachable [OBegin 1; OBegin 2; OCommit 1; OCommit 2; OPublish 4]);
    vm_compute; reflexivity|].
  split; [apply (bool_decide_unpack _); vm_compute; exact I|].
  split; [apply (bool_decide_unpack _); vm_compute; exact I | vm_compute; reflexivity].
Qed.

(** A published commit at or below [lowest_active_start_time] can still be hidden
    from an active transaction (it was in flight when that transaction began), so
    the start-time bound is not a visible-to-all bound; [compact_watermark] is. *)
Theorem start_time_bound_not_visible_to_all :
  exists w s t c, reachable w /\ find_transaction (mgr w) s = Some t /\ c ∈ published w /\
    c <= lowest_active_start_time (mgr w) /\ use_inserted_version (data t) c = false /\
    compact_watermark (mgr w) < c.
Proof.
  eexists _, 2, _, 2. split; [apply (exec_all_reachable [OBegin 1; OCommit 1; OBegin 2; OPublish 2]);
    vm_compute; reflexivity|].
  split; [vm_compute; reflexivity|].
  split; [apply (bool_decide_unpack _); vm_compute; exact I|].
  split_and!; vm_compute; congruence.
Qed.

(** ** Witnesses *)

(** Two sessions commit (ids 3 and 4), the second publishes first, a third session
    begins in between. *)
Definition ex_ops : list operation := [OBegin 1; OBegin 2; OCommit 1; OCommit 2; OPublish 4].
Definition ex_world : world := default fresh_world (exec_all fresh_world ex_ops).
Definition ex_next : world :=
  World (begin_transaction (mgr ex_world) 7).2 (allocated ex_world) (published ex_world) (recovered ex_world).
Definition ex_later : world := default fresh_world (exec_all ex_next [OPublish 3; OBegin 8]).

Lemma ex_world_reachable : reachable ex_world.
Proof. apply (exec_all_reachable ex_ops). vm_compute. reflexivity. Qed.

Lemma ex_later_steps : steps ex_next ex_later.
Proof. apply (exec_all_steps _ [OPublish 3; OBegin 8]). vm_compute. reflexivity. Qed.

Lemma ex_next_reachable : reachable ex_next.
Proof.
  destruct ex_world_reachable as (w0 & Hb & Hs). exists w0. split; [done|].
  eapply rtc_r; [exact Hs|]. apply (step_begin ex_world 7). apply (bool_decide_unpack _). vm_compute. exact I.
Qed.

Lemma take_snapshot_sees_published_witness :
  sees_exactly (reader_of 0 (take_snapshot (mgr ex_world))) ex_world (is_published ex_world).
Proof. apply take_snapshot_sees_published; [exact ex_world_reachable | by left]. Defined.

Lemma begin_transaction_snapshot_isolation_witness :
  sees_exactly (data (begin_transaction (mgr ex_world) 7).1) ex_later (is_published ex_world).
Proof.
  apply (begin_transaction_snapshot_isolation ex_world 7 ex_later).
  - exact ex_world_reachable.
  - apply (bool_decide_unpack _). vm_compute. exact I.
  - vm_compute. reflexivity.
  - exact ex_later_steps.
Defined.

(** After both publications the watermark of a later state covers commit 3. *)
Definition ex_done : world := default fresh_world (exec_all fresh_world (ex_ops ++ [OPublish 3; OBegin 8])).

Lemma ex_done_reachable : reachable ex_done.
Proof. apply (exec_all_reachable (ex_ops ++ [OPublish 3; OBegin 8])). vm_compute. reflexivity. Qed.

Lemma compact_watermark_visible_to_all_witness :
  (forall s t, find_transaction (mgr ex_done) s = Some t -> use_inserted_version (data t) 3 = true) /\
  use_inserted_version (reader_of 0 (take_snapshot (mgr ex_done))) 3 = true.
Proof.
  apply (compact_watermark_visible_to_all ex_done ex_done 3 0).
  - exact ex_done_reachable.
  - constructor.
  - left. apply (bool_decide_unpack _). vm_compute. exact I.
  - vm_compute. congruence.
Defined.

Lemma compact_watermark_monotone_witness :
  compact_watermark (mgr ex_next) <= compact_watermark (mgr ex_later).
Proof. apply compact_watermark_monotone; [exact ex_next_reachable | exact ex_later_steps]. Defined.

Lemma commit_id_fresh_witness :
  4 < (commit (mgr ex_next) 7).1 /\ (commit (mgr ex_next) 7).1 < TRANSACTION_ID_START.
Proof.
  destruct (commit_id_fresh ex_next 7) as (Habove & Hrange & _);
    [exact ex_next_reachable | vm_compute; reflexivity|].
  split; [|apply Hrange]. apply Habove. left. apply (bool_decide_unpack _). vm_compute. exact I.
Defined.

Lemma lowest_active_start_time_least_witness :
  exists s t, find_transaction (mgr ex_next) s = Some t /\ start_time_ t = lowest_active_start_time (mgr ex_next).
Proof.
  apply (lowest_active_start_time_least ex_next); [exact ex_next_reachable|].
  apply (bool_decide_unpack _). vm_compute. exact I.
Defined.

Lemma restore_commit_clock_join_witness :
  restore_commit_clock (restore_commit_clock manager_new 7) 3 = restore_commit_clock manager_new 7.
Proof. apply (restore_commit_clock_join manager_new 7 3); vm_compute; congruence. Defined.

Definition ex_ordered : world := default fresh_world (exec_all fresh_world [OBegin 1; OCommit 1]).

Lemma gc_horizon_below_in_flight_witness : lowest_active_snapshot_horizon (mgr ex_ordered) < 2.
Proof.
  apply (gc_horizon_below_in_flight ex_ordered 2).
  - apply (exec_all_reachable [OBegin 1; OCommit 1]). vm_compute. reflexivity.
  - assert (Hif : in_flight_commits_ (mgr ex_ordered) = [2]) by (vm_compute; reflexivity).
    assert (Hh : published_horizon_ (mgr ex_ordered) = 0) by (vm_compute; reflexivity).
    rewrite Hif, Hh. intros c. set_solver by lia.
  - apply (bool_decide_unpack _). vm_compute. exact I.
Defined.
