(* ===== verification/TransactionLiveness.v ===== *)
(** * Progress of the compaction watermark

    An infinite run of the transaction manager of [TransactionManager] is a sequence of worlds, each the
    one before it or one [step] later. A run is fair when no transaction stays active for ever and no
    commit stays in flight for ever: the sessions end their transactions, and every COMMIT of
    [src/services/dispatcher] reaches its [publish]. In a fair run the watermark of
    [transaction_manager_t::compact_watermark] passes every commit id that is handed out. *)

From S2P Require Import Prelude.
From S2P Require Import Visibility.
From S2P Require Import TransactionManager.
From stdpp Require Import fin_maps.
#[local] Open Scope Z_scope.

(** ** Runs *)

Definition run (tr : nat -> world) : Prop :=
  reachable (tr 0%nat) /\ forall n, tr (S n) = tr n \/ step (tr n) (tr (S n)).

Definition fair (tr : nat -> world) : Prop :=
  (forall n s t, find_transaction (mgr (tr n)) s = Some t -> exists k, (n <= k)%nat /\ find_transaction (mgr (tr k)) s <> Some t) /\
  (forall n c, c ∈ in_flight_commits_ (mgr (tr n)) -> exists k, (n <= k)%nat /\ c ∉ in_flight_commits_ (mgr (tr k))).

(** What holds of each element from some point on holds of all of a list from some point on. *)
Lemma eventually_all {A} (P : A -> nat -> Prop) (l : list A) n :
  (forall x k j, x ∈ l -> P x k -> (k <= j)%nat -> P x j) ->
  (forall x, x ∈ l -> exists k, (n <= k)%nat /\ P x k) ->
  exists k, (n <= k)%nat /\ forall x, x ∈ l -> P x k.
Proof.
  induction l as [|x l IH]; intros Hm He; [exists n; split; [done|set_solver]|].
  destruct IH as (k1 & Hk1 & H1); [intros y k j ?; apply Hm; set_solver|intros y ?; apply He; set_solver|].
  destruct (He x ltac:(set_solver)) as (k2 & Hk2 & H2). exists (max k1 k2). split; [lia|].
  intros y [->|Hy]%elem_of_cons; [apply (Hm x k2); [set_solver|done|lia]|apply (Hm y k1); [set_solver|by apply H1|lia]].
Qed.

(** ** What does not come back *)

Lemma published_stays w w' c : inv w -> steps w w' -> c ∈ allocated w -> c ∉ in_flight_commits_ (mgr w) -> c ∉ in_flight_commits_ (mgr w').
Proof.
  intros Hw Hs Hc Hn Hin. pose proof (steps_inv _ _ Hs Hw) as Hw'. apply (inv_disjoint w' Hw' c Hin).
  apply (lt_published _ _ (steps_later _ _ Hw Hs)). by destruct (proj1 (inv_allocated w Hw c) Hc).
Qed.

Lemma ended_stays w w' s t :
  inv w -> steps w w' -> transaction_id_ t < next_transaction_id_ (mgr w) -> active_ (mgr w) !! s <> Some t -> active_ (mgr w') !! s <> Some t.
Proof. intros Hw Hs Hid Hn Ht. destruct (lt_active _ _ (steps_later _ _ Hw Hs) s t Ht); [done|lia]. Qed.

(** New commits are above every id handed out before. *)
Lemma in_flight_new w w' c x :
  inv w -> steps w w' -> c ∈ allocated w ->
  (forall y, y ∈ in_flight_commits_ (mgr w) -> y ∉ in_flight_commits_ (mgr w')) -> x ∈ in_flight_commits_ (mgr w') -> c < x.
Proof.
  intros Hw Hs Hc Hgone Hx. pose proof (steps_inv _ _ Hs Hw) as Hw'. pose proof (inv_range w Hw c Hc) as Hr.
  destruct (lt_new _ _ (steps_later _ _ Hw Hs) x) as [Hx'|?]; [apply (inv_allocated w' Hw'); by left| |lia].
  exfalso. destruct (decide (x ∈ in_flight_commits_ (mgr w))) as [Hi|Hi]; [by apply (Hgone x)|by apply (published_stays w w' x)].
Qed.

Section runs.
Context (tr : nat -> world) (Hrun : run tr).

Lemma run_steps n k : (n <= k)%nat -> steps (tr n) (tr k).
Proof.
  induction 1 as [|k _ IH]; [constructor|]. destruct (proj2 Hrun k) as [->|Hs]; [done|]. by eapply rtc_r.
Qed.

Lemma run_inv n : inv (tr n).
Proof. eapply steps_inv; [apply (run_steps 0 n); lia|]. apply reachable_inv, Hrun. Qed.

Context (Hfair : fair tr).

(** From some point on the horizon has passed a commit and nothing below it is in flight. *)
Lemma eventually_published n c :
  c ∈ allocated (tr n) ->
  exists k, (n <= k)%nat /\ c <= published_horizon_ (mgr (tr k)) /\ forall x, x ∈ in_flight_commits_ (mgr (tr k)) -> c < x.
Proof.
  intros Hc. destruct (eventually_all (fun x k => (n <= k)%nat /\ x ∉ in_flight_commits_ (mgr (tr k))) (in_flight_commits_ (mgr (tr n))) n) as (k & Hk & Hgone).
  - intros x k j Hx [Hnk Hk] Hkj. split; [lia|]. apply (published_stays (tr k)); [apply run_inv|by apply run_steps| |done].
    apply (lt_allocated _ _ (steps_later _ _ (run_inv n) (run_steps n k Hnk))), (inv_allocated _ (run_inv n)). by left.
  - intros x Hx. destruct (proj2 Hfair n x Hx) as (k & Hnk & Hk). exists k. auto.
  - pose proof (run_steps n k Hk) as Hs. exists k. split; [done|].
    assert (Hnew : forall x, x ∈ in_flight_commits_ (mgr (tr k)) -> c < x).
    { intros x Hx. eapply in_flight_new; [apply run_inv|done|done| |done]. intros y Hy. by apply Hgone. }
    split; [|done]. apply (inv_published _ (run_inv k)).
    destruct (proj1 (inv_allocated _ (run_inv k) c)) as [Hin|Hp]; [|apply Hnew in Hin; lia|done].
    by apply (lt_allocated _ _ (steps_later _ _ (run_inv n) Hs)).
Qed.

(** From some point on none of the transactions that are active now is. *)
Lemma eventually_ended n :
  exists k, (n <= k)%nat /\ forall s t, active_ (mgr (tr n)) !! s = Some t -> active_ (mgr (tr k)) !! s <> Some t.
Proof.
  destruct (eventually_all (fun st k => (n <= k)%nat /\ active_ (mgr (tr k)) !! st.1 <> Some st.2) (map_to_list (active_ (mgr (tr n)))) n) as (k & Hk & Hgone).
  - intros [s t] k j Hst%elem_of_map_to_list [Hnk Hk] Hkj. split; [lia|]. cbn in *. apply (ended_stays (tr k)); [apply run_inv|by apply run_steps| |done].
    destruct (inv_active _ (run_inv n) s t Hst). pose proof (lt_next _ _ (steps_later _ _ (run_inv n) (run_steps n k Hnk))). lia.
  - intros [s t] Hst%elem_of_map_to_list. destruct (proj1 Hfair n s t Hst) as (k & Hnk & Hk). exists k. auto.
  - exists k. split; [done|]. intros s t Hst. apply (Hgone (s, t)). by apply elem_of_map_to_list.
Qed.

End runs.

(** ** Property *)

(** C12: In every fair run, every commit id that is handed out is eventually, and from then on for ever,
    at or below the compaction watermark: version history does not stay uncollectable. *)
Theorem watermark_passes_every_commit (tr : nat -> world) n c
    (Hrun : run tr) (Hfair : fair tr) (Hc : c ∈ allocated (tr n)) :
  exists k, (n <= k)%nat /\ forall j, (k <= j)%nat -> c <= compact_watermark (mgr (tr j)).
Proof.
  destruct (eventually_published tr Hrun Hfair n c Hc) as (k & Hnk & Hh & Hif).
  destruct (eventually_ended tr Hrun Hfair k) as (k' & Hkk' & Hgone).
  exists k'. split; [lia|]. intros j Hj.
  assert (Hmark : safe_mark_for (fun t => next_transaction_id_ (mgr (tr k)) <= transaction_id_ t) (mgr (tr k')) c).
  { apply (steps_safe_mark _ (tr k)); [by apply run_inv|by apply run_steps|]. split_and!; [done..|].
    intros s t Ht Hid. destruct (inv_active _ (run_inv tr Hrun k) s t Ht). lia. }
  apply compact_watermark_safe_mark; [by apply run_inv|]. apply (steps_safe_mark _ (tr k')); [by apply run_inv|by apply run_steps|].
  destruct Hmark as (H1 & H2 & H3). split_and!; [done..|]. intros s t Ht _. apply (H3 s t Ht).
  destruct (lt_active _ _ (steps_later _ _ (run_inv tr Hrun k) (run_steps tr Hrun k k' Hkk')) s t Ht) as [Ht'|?]; [|done].
  by destruct (Hgone s t Ht').
Qed.

(** One transaction begins, commits and is published; then nothing happens. *)
Definition ex_run (n : nat) : world := default fresh_world (exec_all fresh_world (take n [OBegin 1; OCommit 1; OPublish 2])).

Lemma ex_run_run : run ex_run.
Proof.
  split; [apply (exec_all_reachable []); vm_compute; reflexivity|]. intros n. destruct n as [|[|[|n]]]; [right..|left].
  - apply (exec_step _ (OBegin 1)). vm_compute. reflexivity.
  - apply (exec_step _ (OCommit 1)). vm_compute. reflexivity.
  - apply (exec_step _ (OPublish 2)). vm_compute. reflexivity.
  - unfold ex_run. by rewrite !take_ge by (cbn; lia).
Qed.

Lemma ex_run_end n : ex_run (max 3 n) = ex_run 3.
Proof. unfold ex_run. by rewrite !take_ge by (cbn; lia). Qed.

Lemma ex_run_fair : fair ex_run.
Proof.
  split; intros n; intros; exists (max 3 n); (split; [lia|]); rewrite ex_run_end; [by vm_compute|].
  intros Hin. apply (bool_decide_pack _) in Hin. by vm_compute in Hin.
Qed.

Lemma watermark_passes_every_commit_witness : exists k, (2 <= k)%nat /\ forall j, (k <= j)%nat -> 2 <= compact_watermark (mgr (ex_run j)).
Proof.
  apply (watermark_passes_every_commit ex_run 2 2); [exact ex_run_run|exact ex_run_fair|].
  apply (bool_decide_unpack _). vm_compute. exact I.
Defined.
