(* ===== verification/RowVersion.v ===== *)
(** * Row versions

    [src/components/table/row_version_manager.hpp] and [.cpp]: per-row insert and
    delete stamps, kept per vector of [DEFAULT_VECTOR_CAPACITY] rows either as one
    pair of stamps ([chunk_constant_info]) or as one pair per row
    ([chunk_vector_info]), and the manager that owns a row group's vectors.

    The manager's [version_lock_] makes each operation atomic.  Array indices are
    below the capacity by the callers' contract, which the theorems state. *)

From S2P Require Import Prelude Visibility.
#[local] Open Scope Z_scope.

Definition DEFAULT_VECTOR_CAPACITY : Z := 1024.

(** The element of a [uint64_t] array. *)
Definition rd (l : list Z) (i : Z) : Z := default 0 (l !!z i).

(** ** A vector whose rows share their stamps *)

Module chunk_constant_info.
Record t := Make { start : Z; insert_id : Z; delete_id : Z }.

Definition new (start : Z) : t := Make start 0 NOT_DELETED_ID.

Definition indexing_vector (c : t) (txn : transaction_data) (iv : list Z) (max_count : Z) : Z * list Z :=
  (if use_inserted_version txn (insert_id c) && use_deleted_version txn (delete_id c)
   then max_count else 0, iv).

Definition fetch (c : t) (txn : transaction_data) (row : Z) : bool :=
  use_version txn (insert_id c) && negb (use_version txn (delete_id c)).

Definition commit_append (c : t) (commit_id first last : Z) : outcome t :=
  if negb (bool_decide (first = 0)) || negb (bool_decide (last = DEFAULT_VECTOR_CAPACITY))
  then Fault Abort
  else Ok (Make (start c) commit_id (delete_id c)).

Definition has_deletes (c : t) : bool :=
  bool_decide (TRANSACTION_ID_START <= insert_id c) || bool_decide (delete_id c < TRANSACTION_ID_START).

Definition committed_deleted_count (c : t) (max_count : Z) : Z :=
  if bool_decide (delete_id c < TRANSACTION_ID_START) then max_count else 0.

Definition has_version_above (c : t) (watermark max_count : Z) : bool :=
  if bool_decide (watermark < insert_id c) then true
  else negb (bool_decide (delete_id c = NOT_DELETED_ID)) && bool_decide (watermark < delete_id c).

(** [result] is never assigned: the replacement is empty. *)
Definition cleanup (c : t) (lowest_transaction : Z) : bool :=
  if bool_decide (lowest_transaction < insert_id c) then false
  else if negb (bool_decide (delete_id c = NOT_DELETED_ID)) && bool_decide (lowest_transaction < delete_id c)
  then false
  else true.
End chunk_constant_info.

(** ** A vector with stamps per row *)

(** A range of rows whose delete a transaction committed. *)
Record delete_info := DeleteInfo {
  di_vector_idx : Z;
  di_count : Z;
  di_base_row : Z;
  di_is_consecutive : bool;
  di_rows : list Z;
}.

Module chunk_vector_info.
Record t := Make {
  start : Z;
  inserted : list Z;
  insert_id : Z;
  same_inserted_id : bool;
  deleted : list Z;
  any_deleted : bool;
}.

Definition new (start : Z) : t :=
  Make start (replicate (Z.to_nat DEFAULT_VECTOR_CAPACITY) 0) 0 true
    (replicate (Z.to_nat DEFAULT_VECTOR_CAPACITY) NOT_DELETED_ID) false.

Definition with_deleted (v : t) (deleted : list Z) (any_deleted : bool) : t :=
  Make (start v) (inserted v) (insert_id v) (same_inserted_id v) deleted any_deleted.

(** The loops that write the indices of the rows passing [p] to the front of
    [iv], with [set_index(count++, i)]. *)
Definition select_rows (p : Z -> bool) (iv : list Z) (max_count : Z) : Z * list Z :=
  foldl (fun '(count, iv) i => if p i then (count + 1, zset count i iv) else (count, iv))
    (0, iv) (seqZ 0 max_count).

Definition indexing_vector (v : t) (txn : transaction_data) (iv : list Z) (max_count : Z) : Z * list Z :=
  if same_inserted_id v && negb (any_deleted v) then
    (if use_inserted_version txn (insert_id v) then max_count else 0, iv)
  else if same_inserted_id v then
    if negb (use_inserted_version txn (insert_id v)) then (0, iv)
    else select_rows (fun i => use_deleted_version txn (rd (deleted v) i)) iv max_count
  else if negb (any_deleted v) then
    select_rows (fun i => use_inserted_version txn (rd (inserted v) i)) iv max_count
  else
    select_rows (fun i => use_inserted_version txn (rd (inserted v) i)
                          && use_deleted_version txn (rd (deleted v) i)) iv max_count.

Definition fetch (v : t) (txn : transaction_data) (row : Z) : bool :=
  use_version txn (rd (inserted v) row) && negb (use_version txn (rd (deleted v) row)).

(** The loop of [delete_rows] compacts the rows it really deleted to the front of
    [rows] while it reads them. *)
Definition delete_step (transaction_id : Z) (st : Z * list Z * list Z) (i : Z) : Z * list Z * list Z :=
  let '(deleted_tuples, rows, deleted) := st in
  let row := rd rows i in
  if negb (bool_decide (rd deleted row = NOT_DELETED_ID)) then st
  else (deleted_tuples + 1, zset deleted_tuples row rows, zset row transaction_id deleted).

Definition delete_rows (v : t) (transaction_id : Z) (rows : list Z) (count : Z) : Z * list Z * t :=
  let '(deleted_tuples, rows', deleted') :=
    foldl (delete_step transaction_id) (0, rows, deleted v) (seqZ 0 count) in
  (deleted_tuples, rows', with_deleted v deleted' true).

Definition commit_delete (v : t) (commit_id : Z) (info : delete_info) : t :=
  if di_is_consecutive info
  then with_deleted v (zset_all (seqZ 0 (di_count info)) commit_id (deleted v)) (any_deleted v)
  else with_deleted v
         (zset_all (rd (di_rows info) <$> seqZ 0 (di_count info)) commit_id (deleted v)) (any_deleted v).

Definition restamp (from to : Z) (l : list Z) : list Z :=
  (fun d => if bool_decide (d = from) then to else d) <$> l.

Definition commit_all_deletes (v : t) (txn_id commit_id : Z) : t :=
  if negb (any_deleted v) then v
  else with_deleted v (restamp txn_id commit_id (deleted v)) (any_deleted v).

Definition revert_all_deletes (v : t) (txn_id : Z) : t :=
  if negb (any_deleted v) then v
  else with_deleted v (restamp txn_id NOT_DELETED_ID (deleted v)) (any_deleted v).

Definition append (v : t) (first last commit_id : Z) : t :=
  let inserted' := zset_all (seqZ first (last - first)) commit_id (inserted v) in
  if bool_decide (first = 0)
  then Make (start v) inserted' commit_id (same_inserted_id v) (deleted v) (any_deleted v)
  else if negb (bool_decide (insert_id v = commit_id))
  then Make (start v) inserted' NOT_DELETED_ID false (deleted v) (any_deleted v)
  else Make (start v) inserted' (insert_id v) (same_inserted_id v) (deleted v) (any_deleted v).

Definition commit_append (v : t) (commit_id first last : Z) : t :=
  Make (start v) (zset_all (seqZ first (last - first)) commit_id (inserted v))
    (if same_inserted_id v then commit_id else insert_id v)
    (same_inserted_id v) (deleted v) (any_deleted v).

(** The delete scan of [cleanup]: [None] when it breaks on an uncommitted or
    recent delete, else whether every row is deleted and the least delete id. *)
Fixpoint cleanup_deletes (lowest_transaction : Z) (l : list Z) (all_deleted : bool) (min_delete_id : Z) :
    option (bool * Z) :=
  match l with
  | [] => Some (all_deleted, min_delete_id)
  | d :: l =>
      if bool_decide (d = NOT_DELETED_ID) then cleanup_deletes lowest_transaction l false min_delete_id
      else if bool_decide (TRANSACTION_ID_START <= d) || bool_decide (lowest_transaction < d) then None
      else cleanup_deletes lowest_transaction l all_deleted
             (if bool_decide (d < min_delete_id) then d else min_delete_id)
  end.

(** The return value and the [result] that replaces the vector. *)
Definition cleanup (v : t) (lowest_transaction : Z) : bool * option chunk_constant_info.t :=
  let inserts_old :=
    if negb (same_inserted_id v)
    then forallb (fun id => bool_decide (id <= lowest_transaction)) (inserted v)
    else bool_decide (insert_id v <= lowest_transaction) in
  if negb inserts_old then (false, None)
  else if any_deleted v then
    match cleanup_deletes lowest_transaction (deleted v) true NOT_DELETED_ID with
    | None => (false, None)
    | Some (all_deleted, min_delete_id) =>
        (true,
         if all_deleted
         then Some (chunk_constant_info.Make (start v)
                      (if same_inserted_id v then insert_id v else rd (inserted v) 0) min_delete_id)
         else None)
    end
  else (true, None).

Definition has_deletes (v : t) : bool := any_deleted v.

Definition has_version_above (v : t) (watermark max_count : Z) : bool :=
  (if same_inserted_id v then bool_decide (watermark < insert_id v)
   else existsb (fun i => bool_decide (watermark < rd (inserted v) i)) (seqZ 0 max_count))
  || (any_deleted v &&
      existsb (fun i => negb (bool_decide (rd (deleted v) i = NOT_DELETED_ID))
                        && bool_decide (watermark < rd (deleted v) i)) (seqZ 0 max_count)).

Definition committed_deleted_count (v : t) (max_count : Z) : Z :=
  if negb (any_deleted v) then 0
  else zlen (filter (fun i => rd (deleted v) i < TRANSACTION_ID_START) (seqZ 0 max_count)).
End chunk_vector_info.

Abbreviation constant_t := chunk_constant_info.t.
Abbreviation vector_t := chunk_vector_info.t.

(** The two concrete [chunk_info] classes. *)
Inductive chunk_info :=
| CONSTANT_INFO (c : constant_t)
| VECTOR_INFO (v : vector_t).

(** Virtual dispatch. *)
Module chunk_info_ops.
Definition indexing_vector (i : chunk_info) (txn : transaction_data) (iv : list Z) (max_count : Z) :=
  match i with
  | CONSTANT_INFO c => chunk_constant_info.indexing_vector c txn iv max_count
  | VECTOR_INFO v => chunk_vector_info.indexing_vector v txn iv max_count
  end.
Definition fetch (i : chunk_info) (txn : transaction_data) (row : Z) : bool :=
  match i with
  | CONSTANT_INFO c => chunk_constant_info.fetch c txn row
  | VECTOR_INFO v => chunk_vector_info.fetch v txn row
  end.
Definition commit_append (i : chunk_info) (commit_id first last : Z) : outcome chunk_info :=
  match i with
  | CONSTANT_INFO c => CONSTANT_INFO <$> chunk_constant_info.commit_append c commit_id first last
  | VECTOR_INFO v => Ok (VECTOR_INFO (chunk_vector_info.commit_append v commit_id first last))
  end.
Definition committed_deleted_count (i : chunk_info) (max_count : Z) : Z :=
  match i with
  | CONSTANT_INFO c => chunk_constant_info.committed_deleted_count c max_count
  | VECTOR_INFO v => chunk_vector_info.committed_deleted_count v max_count
  end.
Definition has_version_above (i : chunk_info) (watermark max_count : Z) : bool :=
  match i with
  | CONSTANT_INFO c => chunk_constant_info.has_version_above c watermark max_count
  | VECTOR_INFO v => chunk_vector_info.has_version_above v watermark max_count
  end.
Definition cleanup (i : chunk_info) (lowest_transaction : Z) : bool * option chunk_info :=
  match i with
  | CONSTANT_INFO c => (chunk_constant_info.cleanup c lowest_transaction, None)
  | VECTOR_INFO v =>
      let '(ok, result) := chunk_vector_info.cleanup v lowest_transaction in
      (ok, CONSTANT_INFO <$> result)
  end.
Definition set_start (i : chunk_info) (start : Z) : chunk_info :=
  match i with
  | CONSTANT_INFO c =>
      CONSTANT_INFO (chunk_constant_info.Make start (chunk_constant_info.insert_id c)
                       (chunk_constant_info.delete_id c))
  | VECTOR_INFO v =>
      VECTOR_INFO (chunk_vector_info.Make start (chunk_vector_info.inserted v)
        (chunk_vector_info.insert_id v) (chunk_vector_info.same_inserted_id v)
        (chunk_vector_info.deleted v) (chunk_vector_info.any_deleted v))
  end.
End chunk_info_ops.

(** ** The manager of a row group's vectors *)

Module row_version_manager.
Record t := Make {
  start_ : Z;
  vector_info_ : list (option chunk_info);
  has_changes_ : bool;
}.

Definition new (start : Z) : t := Make start [] false.

Definition with_info (m : t) (infos : list (option chunk_info)) : t :=
  Make (start_ m) infos (has_changes_ m).

Definition set_start (m : t) (new_start : Z) : t :=
  Make new_start
    (imap (fun i info => (fun c => chunk_info_ops.set_start c
             (new_start + Z.of_nat i * DEFAULT_VECTOR_CAPACITY)) <$> info) (vector_info_ m))
    (has_changes_ m).

(** [vector_info_[i]], out of range or empty alike. *)
Definition get_chunk_info (m : t) (vector_idx : Z) : option chunk_info :=
  mjoin (vector_info_ m !!z vector_idx).

(** The vectors the first [count] rows span, and how many of those rows each
    holds: the loop header [r = 0, i = 0; r < count; r += CAPACITY, i++]. *)
Definition spans (count : Z) : list (Z * Z) :=
  (fun i => (i, Z.min DEFAULT_VECTOR_CAPACITY (count - i * DEFAULT_VECTOR_CAPACITY)))
  <$> seqZ 0 ((count + DEFAULT_VECTOR_CAPACITY - 1) / DEFAULT_VECTOR_CAPACITY).

Definition committed_deleted_count (m : t) (count : Z) : Z :=
  foldl (fun acc '(i, max_count) =>
           match get_chunk_info m i with
           | None => acc
           | Some info => acc + chunk_info_ops.committed_deleted_count info max_count
           end) 0 (spans count).

Definition has_version_above (m : t) (watermark count : Z) : bool :=
  existsb (fun '(i, max_count) =>
             match get_chunk_info m i with
             | None => false
             | Some info => chunk_info_ops.has_version_above info watermark max_count
             end) (spans count).

Definition indexing_vector (m : t) (txn : transaction_data) (vector_idx : Z) (iv : list Z) (max_count : Z) :
    Z * list Z :=
  match get_chunk_info m vector_idx with
  | None => (max_count, iv)
  | Some info => chunk_info_ops.indexing_vector info txn iv max_count
  end.

Definition fetch (m : t) (txn : transaction_data) (row : Z) : bool :=
  let vector_index := row / DEFAULT_VECTOR_CAPACITY in
  match get_chunk_info m vector_index with
  | None => true
  | Some info => chunk_info_ops.fetch info txn (row - vector_index * DEFAULT_VECTOR_CAPACITY)
  end.

Definition fill_vector_info (infos : list (option chunk_info)) (vector_idx : Z) : list (option chunk_info) :=
  if bool_decide (vector_idx < zlen infos) then infos
  else infos ++ replicate (Z.to_nat (vector_idx + 1 - zlen infos)) None.

(** The first vector of a row range, the last one, and the part of the range that
    falls into vector [vector_idx]. *)
Definition start_vector_idx (row_group_start : Z) : Z := row_group_start / DEFAULT_VECTOR_CAPACITY.
Definition end_vector_idx (row_group_end : Z) : Z := u64 (row_group_end - 1) / DEFAULT_VECTOR_CAPACITY.
Definition vector_start (row_group_start vector_idx : Z) : Z :=
  if bool_decide (vector_idx = start_vector_idx row_group_start)
  then row_group_start - start_vector_idx row_group_start * DEFAULT_VECTOR_CAPACITY else 0.
Definition vector_end (row_group_end vector_idx : Z) : Z :=
  if bool_decide (vector_idx = end_vector_idx row_group_end)
  then row_group_end - end_vector_idx row_group_end * DEFAULT_VECTOR_CAPACITY
  else DEFAULT_VECTOR_CAPACITY.
Definition vectors_of (row_group_start row_group_end : Z) : list Z :=
  seqZ (start_vector_idx row_group_start)
    (end_vector_idx row_group_end - start_vector_idx row_group_start + 1).

Definition append_vector (txn_id start_ row_group_start row_group_end : Z)
    (infos : list (option chunk_info)) (vector_idx : Z) : outcome (list (option chunk_info)) :=
  let vstart := vector_start row_group_start vector_idx in
  let vend := vector_end row_group_end vector_idx in
  let first_row := start_ + vector_idx * DEFAULT_VECTOR_CAPACITY in
  if bool_decide (vstart = 0) && bool_decide (vend = DEFAULT_VECTOR_CAPACITY)
  then Ok (zset vector_idx
             (Some (CONSTANT_INFO (chunk_constant_info.Make first_row txn_id NOT_DELETED_ID))) infos)
  else
    match mjoin (infos !!z vector_idx) with
    | None =>
        Ok (zset vector_idx (Some (VECTOR_INFO
              (chunk_vector_info.append (chunk_vector_info.new first_row) vstart vend txn_id))) infos)
    | Some (VECTOR_INFO v) =>
        Ok (zset vector_idx (Some (VECTOR_INFO (chunk_vector_info.append v vstart vend txn_id))) infos)
    | Some (CONSTANT_INFO _) => Fault Abort
    end.

(** Run a fallible loop body over a list. *)
Fixpoint loop {S} (body : S -> Z -> outcome S) (s : S) (l : list Z) : outcome S :=
  match l with
  | [] => Ok s
  | i :: l => s' ← body s i; loop body s' l
  end.

Definition append_version_info (m : t) (transaction : transaction_data)
    (count row_group_start row_group_end : Z) : outcome t :=
  infos ← loop (append_vector (transaction_id transaction) (start_ m) row_group_start row_group_end)
            (fill_vector_info (vector_info_ m) (end_vector_idx row_group_end))
            (vectors_of row_group_start row_group_end);
  mret (Make (start_ m) infos true).

Definition commit_append_vector (commit_id row_group_start row_group_end : Z)
    (infos : list (option chunk_info)) (vector_idx : Z) : outcome (list (option chunk_info)) :=
  match infos !!z vector_idx with
  | None => Fault OutOfBounds
  | Some None => Fault NullDeref
  | Some (Some info) =>
      info' ← chunk_info_ops.commit_append info commit_id
                (vector_start row_group_start vector_idx) (vector_end row_group_end vector_idx);
      mret (zset vector_idx (Some info') infos)
  end.

Definition commit_append (m : t) (commit_id row_group_start count : Z) : outcome t :=
  if bool_decide (count = 0) then Ok m
  else
    let row_group_end := row_group_start + count in
    infos ← loop (commit_append_vector commit_id row_group_start row_group_end) (vector_info_ m)
              (vectors_of row_group_start row_group_end);
    mret (with_info m infos).

Definition cleanup_vector (lowest_active_transaction row_group_end : Z)
    (infos : list (option chunk_info)) (vector_idx : Z) : list (option chunk_info) :=
  if negb (bool_decide (vector_end row_group_end vector_idx = DEFAULT_VECTOR_CAPACITY)) then infos
  else
    match mjoin (infos !!z vector_idx) with
    | None => infos
    | Some info =>
        let '(cleaned, new_info) := chunk_info_ops.cleanup info lowest_active_transaction in
        if cleaned : bool then zset vector_idx new_info infos else infos
    end.

Definition cleanup_append (m : t) (lowest_active_transaction row_group_start count : Z) : t :=
  if bool_decide (count = 0) then m
  else
    let row_group_end := row_group_start + count in
    with_info m (foldl (cleanup_vector lowest_active_transaction row_group_end) (vector_info_ m)
                   (vectors_of row_group_start row_group_end)).

Definition revert_append (m : t) (start_row : Z) : t :=
  let start_vector_idx := (start_row + (DEFAULT_VECTOR_CAPACITY - 1)) / DEFAULT_VECTOR_CAPACITY in
  with_info m (imap (fun i info => if bool_decide (start_vector_idx <= Z.of_nat i) then None else info)
                 (vector_info_ m)).

(** The vector form of one entry: made on demand for an empty slot, expanded from a
    constant one. *)
Definition as_vector (first_row : Z) (info : option chunk_info) : vector_t :=
  match info with
  | None => chunk_vector_info.new first_row
  | Some (CONSTANT_INFO c) =>
      let v := chunk_vector_info.new first_row in
      chunk_vector_info.Make (chunk_vector_info.start v)
        (replicate (Z.to_nat DEFAULT_VECTOR_CAPACITY) (chunk_constant_info.insert_id c))
        (chunk_constant_info.insert_id c) (chunk_vector_info.same_inserted_id v)
        (chunk_vector_info.deleted v) (chunk_vector_info.any_deleted v)
  | Some (VECTOR_INFO v) => v
  end.

Definition vector_info (m : t) (vector_idx : Z) : vector_t * list (option chunk_info) :=
  let infos := fill_vector_info (vector_info_ m) vector_idx in
  let v := as_vector (start_ m + vector_idx * DEFAULT_VECTOR_CAPACITY) (mjoin (infos !!z vector_idx)) in
  (v, zset vector_idx (Some (VECTOR_INFO v)) infos).

Definition delete_rows (m : t) (vector_idx transaction_id : Z) (rows : list Z) (count : Z) : Z * list Z * t :=
  let '(v, infos) := vector_info m vector_idx in
  let '(n, rows', v') := chunk_vector_info.delete_rows v transaction_id rows count in
  (n, rows', Make (start_ m) (zset vector_idx (Some (VECTOR_INFO v')) infos) true).

Definition commit_delete (m : t) (vector_idx commit_id : Z) (info : delete_info) : t :=
  let '(v, infos) := vector_info m vector_idx in
  Make (start_ m)
    (zset vector_idx (Some (VECTOR_INFO (chunk_vector_info.commit_delete v commit_id info))) infos) true.

(** Apply a vector operation to every [VECTOR_INFO] entry. *)
Definition map_vectors (f : vector_t -> vector_t) (m : t) : t :=
  with_info m ((fun info => match info with
                            | Some (VECTOR_INFO v) => Some (VECTOR_INFO (f v))
                            | _ => info
                            end) <$> vector_info_ m).

Definition commit_all_deletes (m : t) (txn_id commit_id : Z) : t :=
  map_vectors (fun v => chunk_vector_info.commit_all_deletes v txn_id commit_id) m.

Definition revert_all_deletes (m : t) (txn_id : Z) : t :=
  map_vectors (fun v => chunk_vector_info.revert_all_deletes v txn_id) m.
End row_version_manager.

(** ** The abstract view: one pair of stamps per row

    [stamps m row] is the insert and delete stamp the manager holds for a row of the
    group; a row of a vector without version info was committed before any snapshot. *)

Import row_version_manager.
Abbreviation CAP := DEFAULT_VECTOR_CAPACITY.

Definition info_stamps (info : option chunk_info) (i : Z) : Z * Z :=
  match info with
  | None => (0, NOT_DELETED_ID)
  | Some (CONSTANT_INFO c) => (chunk_constant_info.insert_id c, chunk_constant_info.delete_id c)
  | Some (VECTOR_INFO v) => (rd (chunk_vector_info.inserted v) i, rd (chunk_vector_info.deleted v) i)
  end.

Definition stamps (m : row_version_manager.t) (row : Z) : Z * Z :=
  info_stamps (get_chunk_info m (row / CAP)) (row mod CAP).

(** Visibility of a row with stamps [s]. *)
Definition visible (txn : transaction_data) (s : Z * Z) : bool :=
  use_version txn s.1 && negb (use_version txn s.2).

(** A reader: its snapshot is ordered, it sees what was there before any commit, and
    its own id is not the delete marker. *)
Record reader (txn : transaction_data) : Prop := {
  reader_wf : snapshot_wf txn;
  reader_zero : use_version txn 0 = true;
  reader_marker : use_version txn NOT_DELETED_ID = false;
}.

(** The arrays have their declared size. *)
Definition vec_wf (v : vector_t) : Prop :=
  zlen (chunk_vector_info.inserted v) = CAP /\ zlen (chunk_vector_info.deleted v) = CAP.

Definition info_wf (info : option chunk_info) : Prop :=
  match info with Some (VECTOR_INFO v) => vec_wf v | _ => True end.

Definition mgr_wf (m : row_version_manager.t) : Prop := Forall info_wf (vector_info_ m).

(** The summary fields agree with the arrays on the first [n] rows. *)
Definition vec_coherent (v : vector_t) (n : Z) : Prop :=
  (chunk_vector_info.same_inserted_id v = true ->
     forall i, 0 <= i < n -> rd (chunk_vector_info.inserted v) i = chunk_vector_info.insert_id v) /\
  (chunk_vector_info.any_deleted v = false ->
     forall i, 0 <= i < CAP -> rd (chunk_vector_info.deleted v) i = NOT_DELETED_ID).

Definition info_coherent (info : option chunk_info) (n : Z) : Prop :=
  match info with Some (VECTOR_INFO v) => vec_coherent v n | _ => True end.

(** ** Arithmetic of rows and vectors *)

Lemma CAP_pos : 0 < CAP.
Proof. vm_compute. reflexivity. Qed.

Lemma row_split row : 0 <= row -> 0 <= row / CAP /\ 0 <= row mod CAP < CAP /\ row = row / CAP * CAP + row mod CAP.
Proof.
  pose proof CAP_pos. intros. split_and!; [by apply Z.div_pos| | |].
  1,2: by apply Z.mod_pos_bound. rewrite (Z.div_mod row CAP) at 1; lia.
Qed.

Lemma row_offset row : row - row / CAP * CAP = row mod CAP.
Proof. pose proof CAP_pos. rewrite Z.mod_eq by lia. lia. Qed.

Lemma row_index q i : 0 <= i < CAP -> (q * CAP + i) / CAP = q /\ (q * CAP + i) mod CAP = i.
Proof.
  pose proof CAP_pos. intros. split.
  - rewrite Z.div_add_l, Z.div_small by lia. lia.
  - rewrite Z.add_comm, Z_mod_plus_full. by apply Z.mod_small.
Qed.

(** ** Arrays *)

Lemma rd_zset l i j x : 0 <= j < zlen l -> rd (zset i x l) j = if decide (i = j) then x else rd l j.
Proof. intros. unfold rd. rewrite zget_zset. repeat case_decide; naive_solver. Qed.

Lemma rd_zset_all l ks j x : 0 <= j < zlen l -> rd (zset_all ks x l) j = if decide (j ∈ ks) then x else rd l j.
Proof. intros. unfold rd. rewrite zget_zset_all. repeat case_decide; naive_solver. Qed.

Lemma rd_zset_range l a b j x :
  0 <= j < zlen l -> rd (zset_all (seqZ a (b - a)) x l) j = if decide (a <= j < b) then x else rd l j.
Proof.
  intros. rewrite rd_zset_all by done. pose proof (elem_of_seqZ a (b - a) j) as Hiff.
  repeat case_decide; try done; exfalso; [apply Hiff in H0; lia | apply H0, Hiff; lia].
Qed.

Lemma rd_replicate n x i : 0 <= i < n -> rd (replicate (Z.to_nat n) x) i = x.
Proof. intros. unfold rd. by rewrite zget_replicate. Qed.

Lemma rd_fmap (f : Z -> Z) l i : 0 <= i < zlen l -> rd (f <$> l) i = f (rd l i).
Proof. intros Hi. unfold rd. rewrite zget_fmap. by destruct (zget_is_Some l i Hi) as [x ->]. Qed.

Lemma vec_wf_new s : vec_wf (chunk_vector_info.new s).
Proof. pose proof CAP_pos. split; cbn; apply zlen_replicate; lia. Qed.

Lemma new_stamps s i : 0 <= i < CAP -> info_stamps (Some (VECTOR_INFO (chunk_vector_info.new s))) i = (0, NOT_DELETED_ID).
Proof. intros. cbn. by rewrite !rd_replicate. Qed.

Lemma get_chunk_info_wf m i info : mgr_wf m -> get_chunk_info m i = Some info -> info_wf (Some info).
Proof.
  unfold mgr_wf, get_chunk_info. rewrite Forall_forall. intros Hwf Hi.
  destruct (vector_info_ m !!z i) as [o|] eqn:Ho; cbn in Hi; [|done]. subst o.
  apply Hwf. apply zget_Some in Ho as [_ Ho]. by eapply list_elem_of_lookup_2.
Qed.

#[export] Hint Resolve vec_wf_new CAP_pos : otter.

(** ** Reading one row and scanning a vector agree *)

Lemma visible_zero txn : reader txn -> visible txn (0, NOT_DELETED_ID) = true.
Proof. intros [? Hz Hm]. unfold visible. cbn. by rewrite Hz, Hm. Qed.

Lemma info_fetch_visible info txn i : chunk_info_ops.fetch info txn i = visible txn (info_stamps (Some info) i).
Proof. by destruct info. Qed.

Lemma fetch_visible m txn row :
  reader txn -> fetch m txn row = visible txn (stamps m row).
Proof.
  intros Hr. unfold fetch, stamps. rewrite row_offset.
  destruct (get_chunk_info m (row / CAP)) as [info|]; [apply info_fetch_visible | by rewrite visible_zero].
Qed.

(** What the caller of [indexing_vector] reads: every row when the count is
    [max_count], else the first [count] entries of the index. *)
Definition selected (res : Z * list Z) (max_count : Z) : list Z :=
  if bool_decide (res.1 = max_count) then seqZ 0 max_count else take (Z.to_nat res.1) res.2.

Lemma select_fold p (l : list Z) count iv acc :
  0 <= count -> take (Z.to_nat count) iv = acc -> zlen acc = count -> count + zlen l <= zlen iv ->
  let res := foldl (fun '(count, iv) i => if (p i : bool) then (count + 1, zset count i iv) else (count, iv))
               (count, iv) l in
  res.1 = count + zlen (filter p l) /\ take (Z.to_nat res.1) res.2 = acc ++ filter p l.
Proof.
  revert count iv acc. induction l as [|x l IH]; intros count iv acc Hc Htake Hacc Hlen.
  { cbn. rewrite Z.add_0_r, app_nil_r. done. }
  cbn [foldl]. assert (zlen (x :: l) = zlen l + 1) by (unfold zlen; cbn; lia).
  destruct (p x) eqn:Hp.
  - rewrite filter_cons_True by (by rewrite Hp). rewrite (cons_middle x acc).
    replace (count + zlen (x :: filter p l)) with (count + 1 + zlen (filter p l)) by (unfold zlen; cbn; lia).
    rewrite app_assoc. pose proof (zlen_nonneg l). apply IH.
    + lia.
    + unfold zset. rewrite bool_decide_true by done.
      replace (Z.to_nat (count + 1)) with (S (Z.to_nat count)) by lia.
      rewrite (take_S_r _ _ x).
      * by rewrite take_insert_ge, Htake by lia.
      * apply list_lookup_insert_eq. unfold zlen in *. lia.
    + rewrite zlen_app, Hacc. done.
    + rewrite zlen_zset. lia.
  - rewrite filter_cons_False by (rewrite Hp; by intros []). apply IH; [done|done|done|lia].
Qed.

Lemma zlen_seqZ s n : 0 <= n -> zlen (seqZ s n) = n.
Proof. intros. unfold zlen. rewrite length_seqZ. lia. Qed.

Lemma filter_full (p : Z -> bool) (l : list Z) : zlen (filter p l) = zlen l -> filter p l = l.
Proof.
  induction l as [|x l IH]; [done|]. unfold zlen in *. intros H.
  pose proof (length_filter p l). destruct (p x) eqn:Hp.
  - rewrite filter_cons_True in H |- * by (by rewrite Hp). cbn in H. rewrite IH by lia. done.
  - rewrite filter_cons_False in H by (rewrite Hp; by intros []). cbn in H. lia.
Qed.

Lemma select_rows_selected p iv max_count :
  0 <= max_count <= zlen iv ->
  selected (chunk_vector_info.select_rows p iv max_count) max_count = filter p (seqZ 0 max_count).
Proof.
  intros Hm. unfold chunk_vector_info.select_rows.
  destruct (select_fold p (seqZ 0 max_count) 0 iv []) as [H1 H2]; [done..| |].
  { rewrite zlen_seqZ by lia. lia. }
  unfold selected. destruct (foldl _ _ _) as [n iv']. cbn in *. rewrite Z.add_0_l in H1. subst n.
  case_bool_decide as Hfull; [|done]. symmetry. apply filter_full. rewrite zlen_seqZ by lia. done.
Qed.

Lemma filter_const_true (p : Z -> bool) (l : list Z) : (forall i, i ∈ l -> p i = true) -> filter p l = l.
Proof.
  induction l as [|x l IH]; intros H; [done|].
  rewrite filter_cons_True by (rewrite H; [done|set_solver]). rewrite IH; [done|set_solver].
Qed.

Lemma filter_const_false (p : Z -> bool) (l : list Z) : (forall i, i ∈ l -> p i = false) -> filter p l = [].
Proof.
  induction l as [|x l IH]; intros H; [done|].
  rewrite filter_cons_False by (rewrite H; [by intros []|set_solver]). apply IH. set_solver.
Qed.

(** A uniform vector: the count is all or nothing. *)
Lemma selected_uniform (b : bool) (p : Z -> bool) iv max_count :
  0 <= max_count -> (forall i, 0 <= i < max_count -> p i = b) ->
  selected (if b then max_count else 0, iv) max_count = filter p (seqZ 0 max_count).
Proof.
  intros Hm Hp. unfold selected. cbn. destruct b.
  - rewrite bool_decide_true by done. rewrite filter_const_true; [done|].
    intros i Hi%elem_of_seqZ. apply Hp. lia.
  - rewrite (filter_const_false p) by (intros i Hi%elem_of_seqZ; apply Hp; lia).
    case_bool_decide; [subst; done | done].
Qed.

Lemma filter_ext_in (p q : Z -> bool) (l : list Z) :
  (forall i, i ∈ l -> p i = q i) -> filter p l = filter q l.
Proof.
  induction l as [|x l IH]; intros H; [done|]. rewrite !filter_cons.
  rewrite (H x) by set_solver. rewrite IH by set_solver. done.
Qed.

Lemma filter_ext_seqZ (p q : Z -> bool) n :
  (forall i, 0 <= i < n -> p i = q i) -> filter p (seqZ 0 n) = filter q (seqZ 0 n).
Proof.
  intros H. apply filter_ext_in. intros i Hi%elem_of_seqZ. apply H. lia.
Qed.

Lemma info_scan_visible info txn iv max_count :
  reader txn -> info_wf (Some info) -> info_coherent (Some info) max_count ->
  0 <= max_count <= CAP -> max_count <= zlen iv ->
  selected (chunk_info_ops.indexing_vector info txn iv max_count) max_count =
  filter (fun i => visible txn (info_stamps (Some info) i)) (seqZ 0 max_count).
Proof.
  intros Hr Hwf Hco Hm Hiv. destruct info as [c|v]; cbn.
  - apply selected_uniform; [lia|]. done.
  - destruct Hco as [Hins Hdel]. destruct Hr as [_ _ Hmk].
    unfold chunk_vector_info.indexing_vector.
    destruct (chunk_vector_info.same_inserted_id v) eqn:Hsame,
             (chunk_vector_info.any_deleted v) eqn:Hany; cbn [andb negb].
    + destruct (use_inserted_version txn (chunk_vector_info.insert_id v)) eqn:Hu; cbn [negb].
      * rewrite select_rows_selected by lia. apply filter_ext_seqZ. intros i Hi.
        unfold visible, use_version. cbn. rewrite Hins, Hu by (done || lia). done.
      * change (0, iv) with (if false then max_count else 0, iv). apply selected_uniform; [lia|].
        intros i Hi. unfold visible, use_version. cbn. rewrite Hins, Hu by (done || lia). done.
    + apply selected_uniform; [lia|]. intros i Hi. unfold visible, use_version in *. cbn.
      rewrite Hins, Hdel, Hmk by (done || lia). by rewrite andb_true_r.
    + rewrite select_rows_selected by lia. apply filter_ext_seqZ. done.
    + rewrite select_rows_selected by lia. apply filter_ext_seqZ. intros i Hi.
      unfold visible, use_version in *. cbn. rewrite Hdel, Hmk by (done || lia). by rewrite andb_true_r.
Qed.

Lemma scan_visible m txn idx iv max_count :
  reader txn -> mgr_wf m -> info_coherent (get_chunk_info m idx) max_count ->
  0 <= max_count <= CAP -> max_count <= zlen iv ->
  selected (indexing_vector m txn idx iv max_count) max_count =
  filter (fun i => visible txn (stamps m (idx * CAP + i))) (seqZ 0 max_count).
Proof.
  intros Hr Hwf Hco Hm Hiv. unfold indexing_vector.
  rewrite (filter_ext_seqZ _ (fun i => visible txn (info_stamps (get_chunk_info m idx) i))).
  2:{ intros i Hi. unfold stamps. destruct (row_index idx i) as [-> ->]; [lia|done]. }
  destruct (get_chunk_info m idx) as [info|] eqn:Hinfo.
  - apply info_scan_visible; try done. by eapply get_chunk_info_wf.
  - apply (selected_uniform true); [lia|]. intros. by apply visible_zero.
Qed.

(** ** Updates, vector by vector *)

Definition at_ (infos : list (option chunk_info)) (idx : Z) : option chunk_info := mjoin (infos !!z idx).

Lemma stamps_at m row : stamps m row = info_stamps (at_ (vector_info_ m) (row / CAP)) (row mod CAP).
Proof. done. Qed.

Lemma at_zset infos idx o j :
  0 <= idx < zlen infos -> at_ (zset idx o infos) j = if decide (idx = j) then o else at_ infos j.
Proof. intros. unfold at_. rewrite zget_zset. repeat case_decide; naive_solver. Qed.

Lemma at_fill infos idx j : 0 <= idx -> at_ (fill_vector_info infos idx) j = at_ infos j.
Proof.
  intros Hidx. unfold at_, fill_vector_info. case_bool_decide; [done|].
  unfold zget. case_bool_decide; [|done].
  destruct (decide (Z.to_nat j < length infos)%nat).
  - by rewrite lookup_app_l.
  - rewrite lookup_app_r by lia. rewrite (lookup_ge_None_2 infos) by lia.
    destruct (replicate _ _ !! _) eqn:E; [|done]. apply lookup_replicate in E as [-> _]. done.
Qed.

Lemma zlen_fill infos idx : 0 <= idx -> idx < zlen (fill_vector_info infos idx) /\ zlen infos <= zlen (fill_vector_info infos idx).
Proof.
  intros Hidx. unfold fill_vector_info. case_bool_decide; [lia|].
  rewrite zlen_app, zlen_replicate by lia. lia.
Qed.

Lemma fill_wf infos idx : Forall info_wf infos -> Forall info_wf (fill_vector_info infos idx).
Proof.
  intros H. unfold fill_vector_info. case_bool_decide; [done|]. apply Forall_app. split; [done|].
  by apply Forall_replicate.
Qed.

Lemma zset_wf infos idx o : Forall info_wf infos -> info_wf o -> Forall info_wf (zset idx o infos).
Proof. intros H Ho. unfold zset. case_bool_decide; [by apply Forall_insert | done]. Qed.

Lemma at_wf infos idx : Forall info_wf infos -> info_wf (at_ infos idx).
Proof.
  rewrite Forall_forall. intros H. unfold at_. destruct (infos !!z idx) as [o|] eqn:Ho; [|done].
  cbn. apply H. apply zget_Some in Ho as [_ Ho]. by eapply list_elem_of_lookup_2.
Qed.

(** A loop whose body touches one vector at a time: [R] relates the vector before and
    after. *)
Lemma loop_pointwise (body : list (option chunk_info) -> Z -> outcome (list (option chunk_info)))
    (R : Z -> option chunk_info -> option chunk_info -> Prop) l infos infos' :
  (forall infos1 infos2 idx, idx ∈ l -> zlen infos1 = zlen infos -> body infos1 idx = Ok infos2 ->
     0 <= idx < zlen infos /\ exists o, infos2 = zset idx o infos1 /\ R idx (at_ infos1 idx) o) ->
  NoDup l -> loop body infos l = Ok infos' ->
  zlen infos' = zlen infos /\
  forall j, (j ∈ l -> R j (at_ infos j) (at_ infos' j)) /\ (j ∉ l -> at_ infos' j = at_ infos j).
Proof.
  revert infos. induction l as [|i l IH]; intros infos Hbody Hnd Hloop; cbn in Hloop.
  { simplify_eq. split; [done|]. set_solver. }
  apply outcome_bind_Ok in Hloop as (infos1 & H1 & H2). apply NoDup_cons in Hnd as [Hni Hnd].
  apply Hbody in H1 as (Hi & o & -> & HR); [|set_solver|done].
  apply IH in H2 as [Hlen Hat]; [| |done].
  2:{ intros i1 i2 idx Hidx Hl. rewrite zlen_zset in *. apply Hbody; [set_solver|done]. }
  rewrite zlen_zset in Hlen. split; [done|]. intros j. destruct (Hat j) as [Hin Hout].
  rewrite at_zset in Hin, Hout by done. destruct (decide (i = j)) as [->|].
  - split; [|set_solver]. intros _. by rewrite Hout.
  - split; [intros [->|]%elem_of_cons; [done|auto] | set_solver].
Qed.

Lemma foldl_pointwise (body : list (option chunk_info) -> Z -> list (option chunk_info))
    (f : Z -> option chunk_info -> option chunk_info) l infos :
  (forall infos idx, idx ∈ l -> 0 <= idx -> zlen (body infos idx) = zlen infos /\
     forall j, at_ (body infos idx) j = if decide (idx = j) then f idx (at_ infos idx) else at_ infos j) ->
  (forall idx, idx ∈ l -> 0 <= idx) -> NoDup l ->
  forall j, at_ (foldl body infos l) j = if decide (j ∈ l) then f j (at_ infos j) else at_ infos j.
Proof.
  intros Hbody. revert infos. induction l as [|i l IH]; intros infos Hr Hnd j; cbn.
  { rewrite decide_False; [done|set_solver]. }
  apply NoDup_cons in Hnd as [Hni Hnd].
  destruct (Hbody infos i ltac:(set_solver) ltac:(apply Hr; set_solver)) as [Hlen Hat].
  rewrite IH; [|set_solver..|done]. rewrite Hat.
  destruct (decide (i = j)) as [->|]; repeat case_decide; set_solver.
Qed.

(** The vectors of a row range cover exactly its rows. *)
Lemma range_rows s e row :
  0 <= s < e -> e < 2 ^ 64 -> 0 <= row ->
  s <= row < e <->
  row / CAP ∈ vectors_of s e /\ vector_start s (row / CAP) <= row mod CAP < vector_end e (row / CAP).
Proof.
  intros Hs He Hrow. unfold vectors_of, vector_start, vector_end, start_vector_idx, end_vector_idx.
  rewrite wrap_small by (unfold in_width; lia). rewrite elem_of_seqZ.
  unfold DEFAULT_VECTOR_CAPACITY. repeat case_bool_decide; Z.div_mod_to_equations; lia.
Qed.

Lemma vectors_of_bounds s e idx :
  0 <= s < e -> e < 2 ^ 64 -> idx ∈ vectors_of s e ->
  0 <= idx <= end_vector_idx e /\
  0 <= vector_start s idx < vector_end e idx /\ vector_end e idx <= CAP.
Proof.
  intros Hs He. unfold vectors_of, vector_start, vector_end, start_vector_idx, end_vector_idx.
  rewrite wrap_small by (unfold in_width; lia). rewrite elem_of_seqZ.
  unfold DEFAULT_VECTOR_CAPACITY. repeat case_bool_decide; Z.div_mod_to_equations; lia.
Qed.

Lemma vectors_of_NoDup s e : NoDup (vectors_of s e).
Proof. apply NoDup_seqZ. Qed.

Lemma wf_from_at infos : (forall j, info_wf (at_ infos j)) -> Forall info_wf infos.
Proof.
  intros H. apply Forall_lookup. intros n o Ho. specialize (H (Z.of_nat n)). unfold at_, zget in H.
  rewrite bool_decide_true, Nat2Z.id, Ho in H by lia. done.
Qed.

(** *** Appending *)

Lemma vec_append_wf v first last id : vec_wf v -> vec_wf (chunk_vector_info.append v first last id).
Proof.
  intros [H1 H2]. unfold chunk_vector_info.append. repeat case_bool_decide; split; cbn; by rewrite ?zlen_zset_all.
Qed.

Lemma vec_append_stamps v first last id i :
  vec_wf v -> 0 <= i < CAP ->
  info_stamps (Some (VECTOR_INFO (chunk_vector_info.append v first last id))) i =
  if decide (first <= i < last) then (id, (info_stamps (Some (VECTOR_INFO v)) i).2)
  else info_stamps (Some (VECTOR_INFO v)) i.
Proof.
  intros [H1 H2] Hi.
  unfold chunk_vector_info.append.
  repeat case_bool_decide; cbn; rewrite rd_zset_range by lia; by case_decide.
Qed.

(** One iteration of [append_version_info]. *)
Definition append_effect (txn_id s e idx : Z) (o o' : option chunk_info) : Prop :=
  info_wf o ->
  info_wf o' /\ forall i, 0 <= i < CAP ->
    info_stamps o' i =
    if decide (vector_start s idx <= i < vector_end e idx)
    then (txn_id, if bool_decide (vector_start s idx = 0) && bool_decide (vector_end e idx = CAP)
                  then NOT_DELETED_ID else (info_stamps o i).2)
    else info_stamps o i.

Lemma append_vector_effect txn_id st s e infos infos' idx :
  0 <= idx -> append_vector txn_id st s e infos idx = Ok infos' ->
  exists o, infos' = zset idx o infos /\ append_effect txn_id s e idx (at_ infos idx) o.
Proof.
  intros Hidx. unfold append_vector. case_match eqn:Hfull.
  - intros [= <-]. eexists. split; [done|]. intros _. split; [done|]. intros i Hi. split_bools. cbn.
    rewrite decide_True by lia. by repeat rewrite bool_decide_true by done.
  - fold (at_ infos idx). destruct (at_ infos idx) as [[c|v]|] eqn:Hat; intros [= <-]; eexists; (split; [done|]).
    + intros Hwf. split; [by apply vec_append_wf|]. intros i Hi. by rewrite vec_append_stamps, Hfull.
    + intros _. split; [apply vec_append_wf, vec_wf_new|]. intros i Hi.
      rewrite vec_append_stamps by auto with otter. by rewrite new_stamps, Hfull.
Qed.

Lemma append_version_info_effect m txn count s e m' :
  mgr_wf m -> 0 <= s < e -> e < 2 ^ 64 ->
  append_version_info m txn count s e = Ok m' ->
  mgr_wf m' /\
  (forall row, 0 <= row ->
     stamps m' row =
     if decide (s <= row < e)
     then (transaction_id txn,
           if bool_decide (vector_start s (row / CAP) = 0) && bool_decide (vector_end e (row / CAP) = CAP)
           then NOT_DELETED_ID else (stamps m row).2)
     else stamps m row).
Proof.
  intros Hwf Hs He. unfold append_version_info. intros (infos & Hloop & Hret)%outcome_bind_Ok.
  injection Hret as <-.
  assert (Hend : 0 <= end_vector_idx e).
  { unfold end_vector_idx. apply Z.div_pos; [apply wrap_width; lia | apply CAP_pos]. }
  pose proof (zlen_fill (vector_info_ m) (end_vector_idx e) Hend) as [Hlen _].
  apply (loop_pointwise _ (append_effect (transaction_id txn) s e)) in Hloop as [_ Hat];
    [| |apply vectors_of_NoDup].
  2:{ intros i1 i2 idx Hin _ Hb. pose proof (vectors_of_bounds s e idx Hs He Hin).
      split; [lia|]. eapply append_vector_effect; [lia|exact Hb]. }
  assert (Hatw : forall j, info_wf (at_ (vector_info_ m) j)) by (intros; by apply at_wf).
  assert (Hat' : forall j, (j ∈ vectors_of s e -> append_effect (transaction_id txn) s e j (at_ (vector_info_ m) j) (at_ infos j))
                          /\ (j ∉ vectors_of s e -> at_ infos j = at_ (vector_info_ m) j)).
  { intros j. specialize (Hat j). by rewrite at_fill in Hat. }
  split.
  - apply wf_from_at. intros j. cbn. destruct (Hat' j) as [Hin Hout].
    destruct (decide (j ∈ vectors_of s e)) as [Hj|Hj]; [by apply Hin | by rewrite Hout].
  - intros row Hrow. rewrite !stamps_at. cbn. destruct (Hat' (row / CAP)) as [Hin Hout].
    destruct (row_split row Hrow) as (_ & Hi & _).
    destruct (decide (row / CAP ∈ vectors_of s e)) as [Hj|Hj].
    + destruct (Hin Hj (Hatw _)) as [_ Hst]. rewrite Hst by done.
      pose proof (range_rows s e row Hs He Hrow). repeat case_decide; tauto.
    + rewrite Hout by done. pose proof (range_rows s e row Hs He Hrow). rewrite decide_False; tauto.
Qed.

(** *** Committing an append *)

Definition commit_effect (commit_id s e idx : Z) (o o' : option chunk_info) : Prop :=
  info_wf o ->
  info_wf o' /\ forall i, 0 <= i < CAP ->
    info_stamps o' i =
    if decide (vector_start s idx <= i < vector_end e idx)
    then (commit_id, (info_stamps o i).2) else info_stamps o i.

Lemma commit_append_vector_effect commit_id s e infos infos' idx :
  commit_append_vector commit_id s e infos idx = Ok infos' ->
  0 <= idx < zlen infos /\
  exists o, infos' = zset idx o infos /\ commit_effect commit_id s e idx (at_ infos idx) o.
Proof.
  intros Hok. split.
  { unfold commit_append_vector in Hok. destruct (infos !!z idx) eqn:E; [by eapply zget_Some_lt | done]. }
  revert Hok. unfold commit_append_vector, at_. destruct (infos !!z idx) as [[[c|v]|]|]; cbn; try done.
  - unfold chunk_constant_info.commit_append. case_match eqn:Hb; [done|]. cbn. intros [= <-].
    eexists. split; [done|]. intros _. split; [done|]. intros i Hi. split_bools. cbn.
    rewrite decide_True; [done|]. lia.
  - intros [= <-]. eexists. split; [done|]. intros [H1 H2]. split; [split; cbn; by rewrite ?zlen_zset_all|].
    intros i Hi. cbn. rewrite rd_zset_range by lia. by case_decide.
Qed.

Lemma commit_append_effect m commit_id s count m' :
  mgr_wf m -> 0 <= s -> 0 < count -> s + count < 2 ^ 64 ->
  commit_append m commit_id s count = Ok m' ->
  mgr_wf m' /\
  (forall row, 0 <= row ->
     stamps m' row = if decide (s <= row < s + count) then (commit_id, (stamps m row).2) else stamps m row).
Proof.
  intros Hwf Hs Hc He. unfold commit_append. rewrite bool_decide_false by lia.
  intros (infos & Hloop & Hret)%outcome_bind_Ok. injection Hret as <-.
  assert (Hse : 0 <= s < s + count) by lia.
  apply (loop_pointwise _ (commit_effect commit_id s (s + count))) in Hloop as [_ Hat];
    [| |apply vectors_of_NoDup].
  2:{ intros i1 i2 idx _ Hl Hb. rewrite <- Hl. by apply commit_append_vector_effect in Hb. }
  assert (Hatw : forall j, info_wf (at_ (vector_info_ m) j)) by (intros; by apply at_wf).
  split.
  - apply wf_from_at. intros j. cbn. destruct (Hat j) as [Hin Hout].
    destruct (decide (j ∈ vectors_of s (s + count))) as [Hj|Hj]; [by apply Hin | by rewrite Hout].
  - intros row Hrow. rewrite !stamps_at. cbn. destruct (Hat (row / CAP)) as [Hin Hout].
    destruct (row_split row Hrow) as (_ & Hi & _).
    destruct (decide (row / CAP ∈ vectors_of s (s + count))) as [Hj|Hj].
    + destruct (Hin Hj (Hatw _)) as [_ Hst]. rewrite Hst by done.
      pose proof (range_rows s _ row Hse He Hrow). repeat case_decide; tauto.
    + rewrite Hout by done. pose proof (range_rows s _ row Hse He Hrow). rewrite decide_False; tauto.
Qed.

(** *** Deleting *)

(** The rows a [delete_rows] call names, and those of them nobody deleted before. *)
Definition named_rows (rows : list Z) (count : Z) : list Z := rd rows <$> seqZ 0 count.

Definition fresh_deletes (deleted rows : list Z) (count : Z) : gset Z :=
  list_to_set (filter (fun r => rd deleted r = NOT_DELETED_ID) (named_rows rows count)).

Lemma elem_of_fresh_deletes deleted rows count r :
  r ∈ fresh_deletes deleted rows count <-> rd deleted r = NOT_DELETED_ID /\ r ∈ named_rows rows count.
Proof. unfold fresh_deletes. rewrite elem_of_list_to_set, list_elem_of_filter. done. Qed.

Lemma named_rows_S rows (n : nat) :
  named_rows rows (Z.of_nat (S n)) = named_rows rows (Z.of_nat n) ++ [rd rows (Z.of_nat n)].
Proof. unfold named_rows. rewrite seqZ_S, fmap_app. by rewrite Z.add_0_l. Qed.

Lemma delete_fold txn_id deleted0 rows0 (n : nat) :
  txn_id <> NOT_DELETED_ID -> Z.of_nat n <= zlen rows0 ->
  (forall r, r ∈ named_rows rows0 (Z.of_nat n) -> 0 <= r < zlen deleted0) ->
  let '(k, rows, deleted) :=
    foldl (chunk_vector_info.delete_step txn_id) (0, rows0, deleted0) (seqZ 0 (Z.of_nat n)) in
  let fresh := fresh_deletes deleted0 rows0 (Z.of_nat n) in
  k = Z.of_nat (size fresh) /\ k <= Z.of_nat n /\
  zlen rows = zlen rows0 /\ zlen deleted = zlen deleted0 /\
  (forall j, Z.of_nat n <= j -> rd rows j = rd rows0 j) /\
  (forall r, r ∈ take (Z.to_nat k) rows <-> r ∈ fresh) /\
  (forall r, 0 <= r < zlen deleted0 -> rd deleted r = if decide (r ∈ fresh) then txn_id else rd deleted0 r).
Proof.
  intros Hid. induction n as [|n IH]; intros Hlen Hrange.
  { cbn. split_and!; [done|done|done|done|done| |].
    - intros r. rewrite elem_of_fresh_deletes. set_solver.
    - intros r _. rewrite decide_False; [done|]. rewrite elem_of_fresh_deletes. set_solver. }
  rewrite seqZ_S, foldl_app, Z.add_0_l. rewrite named_rows_S in Hrange.
  specialize (IH ltac:(lia) ltac:(set_solver)).
  destruct (foldl _ _ _) as [[k rows] deleted]. destruct IH as (Hk & Hkn & Hlr & Hld & Hrest & Htake & Hdel).
  cbn [foldl]. unfold chunk_vector_info.delete_step. rewrite (Hrest (Z.of_nat n)) by lia.
  set (r0 := rd rows0 (Z.of_nat n)) in *.
  assert (Hr0 : 0 <= r0 < zlen deleted0) by (apply Hrange; set_solver).
  assert (Hfresh : forall r, r ∈ fresh_deletes deleted0 rows0 (Z.of_nat (S n)) <->
            r ∈ fresh_deletes deleted0 rows0 (Z.of_nat n) \/ (r = r0 /\ rd deleted0 r0 = NOT_DELETED_ID)).
  { intros r. rewrite !elem_of_fresh_deletes, named_rows_S. set_solver. }
  rewrite Hdel by done.
  destruct (decide (r0 ∈ fresh_deletes deleted0 rows0 (Z.of_nat n))) as [Hin|Hnin].
  - rewrite (bool_decide_false (txn_id = _)) by done. cbn [negb].
    assert (Heq : fresh_deletes deleted0 rows0 (Z.of_nat (S n)) = fresh_deletes deleted0 rows0 (Z.of_nat n)).
    { apply set_eq. intros r. rewrite Hfresh. naive_solver. }
    rewrite Heq. split_and!; try done; try lia. intros j Hj. apply Hrest. lia.
  - case_bool_decide as Hnd; cbn [negb].
    + assert (Heq : fresh_deletes deleted0 rows0 (Z.of_nat (S n)) = {[r0]} ∪ fresh_deletes deleted0 rows0 (Z.of_nat n)).
      { apply set_eq. intros r. rewrite Hfresh. set_solver. }
      rewrite Heq. rewrite size_union, size_singleton by set_solver.
      split_and!; [lia|lia|by rewrite zlen_zset|by rewrite zlen_zset| | |].
      * intros j Hj. unfold rd. rewrite zget_zset. case_decide; [lia|]. apply Hrest. lia.
      * intros r. unfold zset. rewrite bool_decide_true by lia.
        replace (Z.to_nat (k + 1)) with (S (Z.to_nat k)) by lia.
        rewrite (take_S_r _ _ r0) by (apply list_lookup_insert_eq; unfold zlen in *; lia).
        rewrite take_insert_ge by lia. set_solver.
      * intros r Hr. rewrite rd_zset by lia. rewrite Hdel by done. repeat case_decide; set_solver.
    + assert (Heq : fresh_deletes deleted0 rows0 (Z.of_nat (S n)) = fresh_deletes deleted0 rows0 (Z.of_nat n)).
      { apply set_eq. intros r. rewrite Hfresh. naive_solver. }
      rewrite Heq. split_and!; try done; try lia. intros j Hj. apply Hrest. lia.
Qed.

(** The vector form of an entry keeps its stamps when a constant entry is not deleted. *)
Definition not_deleted_constant (o : option chunk_info) : Prop :=
  match o with Some (CONSTANT_INFO c) => chunk_constant_info.delete_id c = NOT_DELETED_ID | _ => True end.

Lemma as_vector_wf first_row o : info_wf o -> vec_wf (as_vector first_row o).
Proof.
  pose proof CAP_pos. destruct o as [[c|v]|]; cbn; [|done|auto with otter].
  intros _. split; cbn; apply zlen_replicate; lia.
Qed.

Lemma as_vector_stamps first_row o i :
  not_deleted_constant o -> 0 <= i < CAP ->
  info_stamps (Some (VECTOR_INFO (as_vector first_row o))) i = info_stamps o i.
Proof.
  destruct o as [[c|v]|]; cbn; intros Hc Hi; [|done|]; rewrite !rd_replicate by done; by rewrite ?Hc.
Qed.

Lemma vector_info_at m idx :
  0 <= idx ->
  idx < zlen (vector_info m idx).2 /\
  (vector_info m idx).1 = as_vector (start_ m + idx * CAP) (at_ (vector_info_ m) idx) /\
  forall j, j <> idx -> at_ (vector_info m idx).2 j = at_ (vector_info_ m) j.
Proof.
  intros Hidx. unfold vector_info. cbn. pose proof (zlen_fill (vector_info_ m) idx Hidx) as [Hl _].
  split_and!.
  - by rewrite zlen_zset.
  - f_equal. apply (at_fill (vector_info_ m) idx idx Hidx).
  - intros j Hj. rewrite at_zset by lia. rewrite decide_False by done. by apply at_fill.
Qed.

Lemma vector_info_wf m idx : mgr_wf m -> Forall info_wf (vector_info m idx).2.
Proof.
  intros Hwf. unfold vector_info. cbn. apply zset_wf; [by apply fill_wf|]. cbn.
  apply as_vector_wf. by apply at_wf, fill_wf.
Qed.

Lemma delete_rows_effect m idx txn_id rows count n rows' m' :
  mgr_wf m -> 0 <= idx -> txn_id <> NOT_DELETED_ID -> 0 <= count <= zlen rows ->
  (forall r, r ∈ named_rows rows count -> 0 <= r < CAP) ->
  not_deleted_constant (get_chunk_info m idx) ->
  delete_rows m idx txn_id rows count = (n, rows', m') ->
  let fresh := fun i => i ∈ named_rows rows count /\ (stamps m (idx * CAP + i)).2 = NOT_DELETED_ID in
  mgr_wf m' /\
  n = Z.of_nat (size (list_to_set (filter fresh (named_rows rows count)) : gset Z)) /\
  (forall i, i ∈ take (Z.to_nat n) rows' <-> fresh i) /\
  (forall row, 0 <= row ->
     stamps m' row = ((stamps m row).1,
                      if decide (row / CAP = idx /\ fresh (row mod CAP)) then txn_id else (stamps m row).2)).
Proof.
  intros Hwf Hidx Hid Hcnt Hrange Hconst Hdel fresh. unfold delete_rows in Hdel.
  destruct (vector_info_at m idx Hidx) as (Hlen & Hv & Hother).
  pose proof (vector_info_wf m idx Hwf) as Hwf1.
  destruct (vector_info m idx) as [v infos]. cbn in Hlen, Hv, Hother, Hwf1.
  assert (Hvwf : vec_wf v) by (rewrite Hv; by apply as_vector_wf, at_wf).
  destruct Hvwf as [Hvi Hvd]. unfold chunk_vector_info.delete_rows in Hdel.
  pose proof (delete_fold txn_id (chunk_vector_info.deleted v) rows (Z.to_nat count) Hid) as Hf.
  rewrite Z2Nat.id in Hf by lia. rewrite Hvd in Hf. specialize (Hf ltac:(lia) Hrange).
  destruct (foldl _ _ _) as [[k rows1] deleted1]. injection Hdel as <- <- <-.
  destruct Hf as (Hk & Hkn & Hlr & Hld & _ & Htake & Hd).
  assert (Hst : forall i, 0 <= i < CAP ->
     stamps m (idx * CAP + i) = (rd (chunk_vector_info.inserted v) i, rd (chunk_vector_info.deleted v) i)).
  { intros i Hi. rewrite stamps_at. destruct (row_index idx i Hi) as [-> ->].
    rewrite <- (as_vector_stamps (start_ m + idx * CAP)) by done. by rewrite <- Hv. }
  assert (Hfr : forall i, i ∈ fresh_deletes (chunk_vector_info.deleted v) rows count <-> fresh i).
  { intros i. rewrite elem_of_fresh_deletes. unfold fresh. split.
    - intros [H1 H2]. split; [done|]. by rewrite Hst by auto.
    - intros [H1 H2]. split; [|done]. by rewrite Hst in H2 by auto. }
  split_and!.
  - apply zset_wf; [done|]. split; cbn; [done|lia].
  - rewrite Hk. do 2 f_equal. apply set_eq. intros i. rewrite Hfr, elem_of_list_to_set, list_elem_of_filter.
    unfold fresh. naive_solver.
  - intros i. rewrite Htake. apply Hfr.
  - intros row Hrow. destruct (row_split row Hrow) as (Hq & Hi & Hrs). rewrite !stamps_at. cbn.
    rewrite at_zset by lia. destruct (decide (idx = row / CAP)) as [Heq|Hne].
    + cbn. rewrite Hd by lia. specialize (Hst (row mod CAP) Hi). rewrite Heq, <- Hrs, stamps_at in Hst.
      rewrite Hst. cbn. f_equal. specialize (Hfr (row mod CAP)). repeat case_decide; naive_solver.
    + rewrite Hother by done. rewrite (decide_False (P := _ /\ _)) by naive_solver. by destruct (info_stamps _ _).
Qed.
