(* ===== verification/RowVersionSpec.v ===== *)
(** * The contract of a row group's version info

    The abstract view of [row_version_manager_t] (RowVersion.v) is one insert stamp and
    one delete stamp per row. This file defines that view and proves that the operations
    simulate it: appends, commits, deletes and reverts change the stamps as the abstract
    table says and do not abort or dereference an empty entry, a scan of a vector selects
    the rows [fetch] accepts, and cleanup keeps or drops entries as the stamps allow. The
    theorems of RowVersionTheorems.v and CollectionAppend.v rest on it. *)

From S2P Require Import Prelude.
From S2P Require Import Visibility.
From S2P Require Import RowVersion.
#[local] Open Scope Z_scope.
Import row_version_manager.

(** ** The abstract table *)

Module spec.
(** The rows appended so far, in ranges, and the stamps of each row. *)
Record t := Make {
  total : Z;
  ranges : list (Z * Z);
  row_stamps : Z -> Z * Z;
}.

Definition empty : t := Make 0 [] (fun _ => (0, NOT_DELETED_ID)).

Inductive op :=
| Append (txn_id count : Z)
| Commit (commit_id start count : Z)
| Delete (vector_idx txn_id : Z) (rows : list Z)
| CommitDeletes (txn_id commit_id : Z)
| RevertDeletes (txn_id : Z)
| RevertAppend (start : Z).

(** What each operation means, row by row. *)
Definition step (s : t) (o : op) : t :=
  match o with
  | Append txn_id count =>
      Make (total s + count) ((total s, total s + count) :: ranges s)
        (fun row => if decide (total s <= row < total s + count) then (txn_id, NOT_DELETED_ID)
                    else row_stamps s row)
  | Commit commit_id start count =>
      Make (total s) (ranges s)
        (fun row => if decide (start <= row < start + count) then (commit_id, (row_stamps s row).2)
                    else row_stamps s row)
  | Delete vector_idx txn_id rows =>
      Make (total s) (ranges s)
        (fun row => ((row_stamps s row).1,
                     if decide (row / CAP = vector_idx /\ row mod CAP ∈ rows /\ (row_stamps s row).2 = NOT_DELETED_ID)
                     then txn_id else (row_stamps s row).2))
  | CommitDeletes txn_id commit_id =>
      Make (total s) (ranges s)
        (fun row => ((row_stamps s row).1,
                     if decide ((row_stamps s row).2 = txn_id) then commit_id else (row_stamps s row).2))
  | RevertDeletes txn_id =>
      Make (total s) (ranges s)
        (fun row => ((row_stamps s row).1,
                     if decide ((row_stamps s row).2 = txn_id) then NOT_DELETED_ID else (row_stamps s row).2))
  | RevertAppend start =>
      Make start (filter (fun r => r.2 <= start) (ranges s)) (row_stamps s)
  end.

(** When a caller may issue an operation: appends extend the table, a commit names a
    range that was appended, a delete names rows of the table under an id that is not
    the marker, and a reverted append ends a range and leaves no delete mark behind. *)
Definition legal (s : t) (o : op) : Prop :=
  match o with
  | Append txn_id count => 0 < count /\ total s + count < 2 ^ 64
  | Commit commit_id start count => (start, start + count) ∈ ranges s
  | Delete vector_idx txn_id rows =>
      0 <= vector_idx /\ txn_id <> NOT_DELETED_ID /\
      Forall (fun r => 0 <= r < CAP /\ vector_idx * CAP + r < total s) rows
  | CommitDeletes txn_id _ => txn_id <> NOT_DELETED_ID
  | RevertDeletes txn_id => txn_id <> NOT_DELETED_ID
  | RevertAppend start =>
      0 <= start <= total s /\
      (forall r, r ∈ ranges s -> r.2 <= start \/ start <= r.1) /\
      (forall row, start <= row < total s -> (row_stamps s row).2 = NOT_DELETED_ID)
  end.

Fixpoint legal_all (s : t) (ops : list op) : Prop :=
  match ops with
  | [] => True
  | o :: ops => legal s o /\ legal_all (step s o) ops
  end.
End spec.

(** The same operation on the version manager; [Append] runs at the current row count,
    as [row_group_t::append_version_info] does. *)
Definition run_op (total : Z) (m : row_version_manager.t) (o : spec.op) : outcome row_version_manager.t :=
  match o with
  | spec.Append txn_id count =>
      append_version_info m (transaction_data_see_all txn_id 0) count total (total + count)
  | spec.Commit commit_id start count => commit_append m commit_id start count
  | spec.Delete vector_idx txn_id rows => Ok (delete_rows m vector_idx txn_id rows (zlen rows)).2
  | spec.CommitDeletes txn_id commit_id => Ok (commit_all_deletes m txn_id commit_id)
  | spec.RevertDeletes txn_id => Ok (revert_all_deletes m txn_id)
  | spec.RevertAppend start => Ok (revert_append m start)
  end.

Fixpoint run (s : spec.t) (m : row_version_manager.t) (ops : list spec.op) : outcome row_version_manager.t :=
  match ops with
  | [] => Ok m
  | o :: ops => m' ← run_op (spec.total s) m o; run (spec.step s o) m' ops
  end.

(** ** The loops, exactly *)

(** A loop whose body succeeds on every vector it visits, with the entry it leaves. *)
Lemma loop_exact (body : list (option chunk_info) -> Z -> outcome (list (option chunk_info)))
    (f : Z -> option chunk_info -> option chunk_info) (ok : Z -> option chunk_info -> Prop) l infos :
  (forall infos1 idx, idx ∈ l -> zlen infos1 = zlen infos -> ok idx (at_ infos1 idx) ->
     body infos1 idx = Ok (zset idx (f idx (at_ infos1 idx)) infos1)) ->
  (forall idx, idx ∈ l -> 0 <= idx < zlen infos /\ ok idx (at_ infos idx)) -> NoDup l ->
  exists infos', loop body infos l = Ok infos' /\
    forall j, at_ infos' j = if decide (j ∈ l) then f j (at_ infos j) else at_ infos j.
Proof.
  revert infos. induction l as [|i l IH]; intros infos Hbody Hok Hnd; cbn.
  { exists infos. split; [done|]. intros j. rewrite decide_False; [done|set_solver]. }
  apply NoDup_cons in Hnd as [Hni Hnd]. destruct (Hok i) as [Hi Hoki]; [set_solver|].
  rewrite Hbody by (done || set_solver). cbn.
  destruct (IH (zset i (f i (at_ infos i)) infos)) as (infos' & Hloop & Hat).
  - intros infos1 idx Hin Hl. rewrite zlen_zset in Hl. apply Hbody; [set_solver|done].
  - intros idx Hin. rewrite zlen_zset, at_zset by done. destruct (Hok idx) as [H1 H2]; [set_solver|].
    case_decide; [by subst|done].
  - done.
  - exists infos'. split; [done|]. intros j. rewrite Hat, at_zset by done.
    destruct (decide (i = j)) as [->|]; repeat case_decide; set_solver.
Qed.

Definition full_vector (s e idx : Z) : bool :=
  bool_decide (vector_start s idx = 0) && bool_decide (vector_end e idx = CAP).

Definition is_constant (o : option chunk_info) : bool :=
  match o with Some (CONSTANT_INFO _) => true | _ => false end.

(** The entry [append_version_info] leaves for a vector, and [commit_append]'s. *)
Definition appended (txn_id start s e idx : Z) (o : option chunk_info) : option chunk_info :=
  let first_row := start + idx * CAP in
  if full_vector s e idx then Some (CONSTANT_INFO (chunk_constant_info.Make first_row txn_id NOT_DELETED_ID))
  else Some (VECTOR_INFO (chunk_vector_info.append
               (match o with Some (VECTOR_INFO v) => v | _ => chunk_vector_info.new first_row end)
               (vector_start s idx) (vector_end e idx) txn_id)).

Definition committed (commit_id s e idx : Z) (o : option chunk_info) : option chunk_info :=
  match o with
  | Some (CONSTANT_INFO c) =>
      Some (CONSTANT_INFO (chunk_constant_info.Make (chunk_constant_info.start c) commit_id
                             (chunk_constant_info.delete_id c)))
  | Some (VECTOR_INFO v) =>
      Some (VECTOR_INFO (chunk_vector_info.commit_append v commit_id (vector_start s idx) (vector_end e idx)))
  | None => None
  end.

Lemma append_version_info_exact m txn count s e :
  0 <= s < e -> e < 2 ^ 64 ->
  (forall idx, idx ∈ vectors_of s e -> full_vector s e idx = true \/ is_constant (get_chunk_info m idx) = false) ->
  exists m', append_version_info m txn count s e = Ok m' /\
    forall j, get_chunk_info m' j =
      if decide (j ∈ vectors_of s e)
      then appended (transaction_id txn) (start_ m) s e j (get_chunk_info m j) else get_chunk_info m j.
Proof.
  intros Hs He Hok. unfold append_version_info.
  assert (Hend : 0 <= end_vector_idx e).
  { unfold end_vector_idx. apply Z.div_pos; [apply wrap_width; lia | apply CAP_pos]. }
  pose proof (zlen_fill (vector_info_ m) _ Hend) as [Hlen _].
  destruct (loop_exact (append_vector (transaction_id txn) (start_ m) s e)
              (appended (transaction_id txn) (start_ m) s e)
              (fun idx o => full_vector s e idx = true \/ is_constant o = false)
              (vectors_of s e) (fill_vector_info (vector_info_ m) (end_vector_idx e)))
    as (infos' & -> & Hat); [| |apply vectors_of_NoDup|].
  - intros infos1 idx _ _ Hidx. unfold append_vector, appended. unfold full_vector in *. fold (at_ infos1 idx).
    case_match; [done|]. destruct Hidx as [?|Hc]; [done|]. by destruct (at_ infos1 idx) as [[]|].
  - intros idx Hin. pose proof (vectors_of_bounds s e idx Hs He Hin). rewrite at_fill by done.
    split; [lia|]. by apply Hok.
  - eexists. split; [done|]. intros j. unfold get_chunk_info. cbn. fold (at_ infos' j).
    rewrite Hat, at_fill by done. done.
Qed.

Lemma commit_append_exact m commit_id s count :
  0 <= s -> 0 < count -> s + count < 2 ^ 64 ->
  (forall idx, idx ∈ vectors_of s (s + count) ->
     get_chunk_info m idx <> None /\
     (full_vector s (s + count) idx = true \/ is_constant (get_chunk_info m idx) = false)) ->
  exists m', commit_append m commit_id s count = Ok m' /\
    forall j, get_chunk_info m' j =
      if decide (j ∈ vectors_of s (s + count))
      then committed commit_id s (s + count) j (get_chunk_info m j) else get_chunk_info m j.
Proof.
  intros Hs Hc He Hok. unfold commit_append. rewrite bool_decide_false by lia.
  destruct (loop_exact (commit_append_vector commit_id s (s + count)) (committed commit_id s (s + count))
              (fun idx o => o <> None /\ (full_vector s (s + count) idx = true \/ is_constant o = false))
              (vectors_of s (s + count)) (vector_info_ m))
    as (infos' & -> & Hat); [| |apply vectors_of_NoDup|].
  - intros infos1 idx _ _ [Hsome Hidx]. unfold commit_append_vector, at_, full_vector in *.
    destruct (infos1 !!z idx) as [[[c|v]|]|]; cbn in *; try done.
    destruct Hidx as [Hf|?]; [|done]. split_bools. unfold chunk_constant_info.commit_append.
    by rewrite !bool_decide_true by done.
  - intros idx Hin. destruct (Hok idx Hin) as [Hsome Hf]. split; [|done].
    unfold get_chunk_info in Hsome. destruct (vector_info_ m !!z idx) eqn:E; [by eapply zget_Some_lt|done].
  - eexists. split; [done|]. intros j. apply Hat.
Qed.

Lemma get_chunk_info_at m j : get_chunk_info m j = at_ (vector_info_ m) j.
Proof. done. Qed.

Lemma map_vectors_at f m j :
  get_chunk_info (map_vectors f m) j =
  match get_chunk_info m j with Some (VECTOR_INFO v) => Some (VECTOR_INFO (f v)) | o => o end.
Proof.
  unfold get_chunk_info, map_vectors. cbn. rewrite zget_fmap.
  by destruct (vector_info_ m !!z j) as [[[]|]|].
Qed.

Lemma revert_append_at m start_row j :
  0 <= j ->
  get_chunk_info (revert_append m start_row) j =
  if decide ((start_row + (CAP - 1)) / CAP <= j) then None else get_chunk_info m j.
Proof.
  intros Hj. unfold get_chunk_info, revert_append, zget. cbn. rewrite bool_decide_true by done.
  rewrite list_lookup_imap. destruct (vector_info_ m !! Z.to_nat j) as [o|] eqn:E; cbn; [|by case_decide].
  rewrite Z2Nat.id by done. by case_bool_decide; case_decide.
Qed.

Lemma delete_rows_at m idx txn_id rows count j :
  0 <= idx -> mgr_wf m ->
  let m' := (delete_rows m idx txn_id rows count).2 in
  (j <> idx -> get_chunk_info m' j = get_chunk_info m j) /\
  (j = idx -> exists v, get_chunk_info m' j = Some (VECTOR_INFO v) /\ chunk_vector_info.any_deleted v = true).
Proof.
  intros Hidx Hwf m'. subst m'. unfold delete_rows.
  destruct (vector_info_at m idx Hidx) as (Hlen & Hv & Hother).
  destruct (vector_info m idx) as [v infos]. cbn [fst snd] in *. unfold chunk_vector_info.delete_rows.
  destruct (foldl _ _ _) as [[k rows1] deleted1]. cbn.
  rewrite !get_chunk_info_at. cbn [vector_info_]. rewrite at_zset by lia. split; intros Hj.
  - rewrite decide_False by done. by apply Hother.
  - rewrite decide_True by done. eauto.
Qed.

(** The hint [any_deleted] is never wrongly clear. *)
Definition hint_sound (o : option chunk_info) : Prop :=
  match o with
  | Some (VECTOR_INFO v) =>
      chunk_vector_info.any_deleted v = false ->
      forall i, 0 <= i < CAP -> rd (chunk_vector_info.deleted v) i = NOT_DELETED_ID
  | _ => True
  end.

(** The stamps after restamping every delete mark of a transaction. *)
Lemma restamp_stamps m from to_ row :
  mgr_wf m -> 0 <= row -> from <> NOT_DELETED_ID ->
  hint_sound (get_chunk_info m (row / CAP)) -> not_deleted_constant (get_chunk_info m (row / CAP)) ->
  stamps (commit_all_deletes m from to_) row =
  ((stamps m row).1, if decide ((stamps m row).2 = from) then to_ else (stamps m row).2).
Proof.
  intros Hwf Hrow Hfrom Hhint Hconst. destruct (row_split row Hrow) as (_ & Hi & _).
  unfold stamps, commit_all_deletes. rewrite map_vectors_at.
  destruct (get_chunk_info m (row / CAP)) as [[c|v]|] eqn:Hg; cbn in *.
  - rewrite Hconst. by rewrite decide_False by done.
  - pose proof (get_chunk_info_wf m _ _ Hwf Hg) as [_ Hd]. unfold chunk_vector_info.commit_all_deletes.
    destruct (chunk_vector_info.any_deleted v) eqn:Ha; cbn.
    + unfold chunk_vector_info.restamp. rewrite rd_fmap by lia. by case_bool_decide; case_decide.
    + rewrite Hhint by done. by rewrite decide_False by done.
  - by rewrite decide_False by done.
Qed.

(** Reverting is restamping to the marker. *)
Lemma revert_all_deletes_restamp m txn_id :
  revert_all_deletes m txn_id = commit_all_deletes m txn_id NOT_DELETED_ID.
Proof. done. Qed.

Lemma restamp_entry m from to_ j :
  match get_chunk_info m j, get_chunk_info (commit_all_deletes m from to_) j with
  | Some (VECTOR_INFO v), Some (VECTOR_INFO v') =>
      chunk_vector_info.any_deleted v' = chunk_vector_info.any_deleted v /\
      zlen (chunk_vector_info.inserted v') = zlen (chunk_vector_info.inserted v) /\
      zlen (chunk_vector_info.deleted v') = zlen (chunk_vector_info.deleted v) /\
      (chunk_vector_info.any_deleted v = false -> v' = v)
  | o, o' => o' = o
  end.
Proof.
  unfold commit_all_deletes. rewrite map_vectors_at. destruct (get_chunk_info m j) as [[c|v]|]; try done.
  unfold chunk_vector_info.commit_all_deletes, chunk_vector_info.restamp.
  destruct (chunk_vector_info.any_deleted v) eqn:E; cbn; rewrite ?zlen_fmap; naive_solver.
Qed.

(** ** The simulation *)

Record simulates (s : spec.t) (m : row_version_manager.t) : Prop := {
  sim_wf : mgr_wf m;
  sim_total : 0 <= spec.total s < 2 ^ 64;
  sim_ranges : forall r, r ∈ spec.ranges s -> 0 <= r.1 < r.2 /\ r.2 <= spec.total s;
  sim_disjoint : forall r1 r2, r1 ∈ spec.ranges s -> r2 ∈ spec.ranges s ->
                   r1 = r2 \/ r1.2 <= r2.1 \/ r2.2 <= r1.1;
  sim_constant : forall idx, 0 <= idx -> is_constant (get_chunk_info m idx) = true ->
                   exists r, r ∈ spec.ranges s /\ r.1 <= idx * CAP /\ (idx + 1) * CAP <= r.2;
  sim_live : forall idx, 0 <= idx -> not_deleted_constant (get_chunk_info m idx);
  sim_hint : forall idx, 0 <= idx -> hint_sound (get_chunk_info m idx);
  sim_present : forall idx, 0 <= idx -> idx * CAP < spec.total s -> get_chunk_info m idx <> None;
  sim_stamps : forall row, 0 <= row < spec.total s -> stamps m row = spec.row_stamps s row;
  sim_tail : forall row, spec.total s <= row -> (stamps m row).2 = NOT_DELETED_ID;
}.

Lemma new_entry start idx : get_chunk_info (row_version_manager.new start) idx = None.
Proof. unfold get_chunk_info, zget. cbn. by case_bool_decide. Qed.

Lemma simulates_new start : simulates spec.empty (row_version_manager.new start).
Proof.
  pose proof CAP_pos. split; intros; try rewrite new_entry in *; cbn in *; try done; try nia; try set_solver.
  - by constructor.
  - unfold stamps. by rewrite new_entry.
Qed.

(** *** Which vectors a range touches *)

Lemma elem_of_vectors_of s e j :
  0 <= s < e -> e < 2 ^ 64 -> j ∈ vectors_of s e <-> s < (j + 1) * CAP /\ j * CAP < e.
Proof.
  intros Hs He. unfold vectors_of, start_vector_idx, end_vector_idx.
  rewrite wrap_small by (unfold in_width; lia). rewrite elem_of_seqZ.
  unfold DEFAULT_VECTOR_CAPACITY. Z.div_mod_to_equations; lia.
Qed.

Lemma full_vector_spec s e j :
  0 <= s < e -> e < 2 ^ 64 -> j ∈ vectors_of s e ->
  full_vector s e j = true <-> s <= j * CAP /\ (j + 1) * CAP <= e.
Proof.
  intros Hs He. rewrite elem_of_vectors_of by done.
  unfold full_vector, vector_start, vector_end, start_vector_idx, end_vector_idx.
  rewrite wrap_small by (unfold in_width; lia). rewrite andb_true_iff, !bool_decide_eq_true.
  unfold DEFAULT_VECTOR_CAPACITY. repeat case_bool_decide; Z.div_mod_to_equations; lia.
Qed.

Lemma constant_below_total s m idx :
  simulates s m -> 0 <= idx -> is_constant (get_chunk_info m idx) = true -> (idx + 1) * CAP <= spec.total s.
Proof.
  intros Hsim Hidx Hc. destruct (sim_constant _ _ Hsim idx Hidx Hc) as (r & Hr & H1 & H2).
  apply (sim_ranges _ _ Hsim) in Hr. lia.
Qed.

Lemma append_hint v first last id :
  chunk_vector_info.any_deleted (chunk_vector_info.append v first last id) = chunk_vector_info.any_deleted v /\
  chunk_vector_info.deleted (chunk_vector_info.append v first last id) = chunk_vector_info.deleted v.
Proof. unfold chunk_vector_info.append. by repeat case_bool_decide. Qed.

Lemma appended_hint txn_id st s e idx o : hint_sound o -> hint_sound (appended txn_id st s e idx o).
Proof.
  unfold appended. case_match; [done|]. intros Ho. cbn.
  match goal with |- context [chunk_vector_info.append ?v ?a ?b ?c] => destruct (append_hint v a b c) as [-> ->] end.
  destruct o as [[c|v]|]; [|exact Ho|]; intros _ i Hi; by apply rd_replicate.
Qed.

Lemma sim_append s m txn_id count :
  simulates s m -> spec.legal s (spec.Append txn_id count) ->
  exists m', run_op (spec.total s) m (spec.Append txn_id count) = Ok m' /\
             simulates (spec.step s (spec.Append txn_id count)) m'.
Proof.
  intros Hsim [Hc Ht]. pose proof CAP_pos as HC. pose proof (sim_total _ _ Hsim) as Htot.
  set (e := spec.total s + count). assert (He : 0 <= spec.total s < e) by (unfold e; lia).
  destruct (append_version_info_exact m (transaction_data_see_all txn_id 0) count (spec.total s) e)
    as (m' & Hrun & Hat); [done|done| |].
  { intros idx Hin. right. destruct (is_constant _) eqn:Hk; [|done].
    apply elem_of_vectors_of in Hin; [|lia..]. apply (constant_below_total s) in Hk; [lia|done|].
    assert (0 < idx + 1) by nia. lia. }
  exists m'. split; [exact Hrun|].
  destruct (append_version_info_effect _ _ _ _ _ _ (sim_wf _ _ Hsim) He Ht Hrun) as [Hwf Hst].
  cbn in Hst. split; cbn -[Z.pow]; fold e; try done.
  - lia.
  - intros r [->|Hr]%elem_of_cons; [cbn; lia|]. apply (sim_ranges _ _ Hsim) in Hr. lia.
  - intros r1 r2 [->|H1]%elem_of_cons [->|H2]%elem_of_cons; cbn.
    + by left.
    + apply (sim_ranges _ _ Hsim) in H2. lia.
    + apply (sim_ranges _ _ Hsim) in H1. lia.
    + by apply (sim_disjoint _ _ Hsim).
  - intros idx Hidx. rewrite Hat. case_decide as Hin.
    + unfold appended. case_match eqn:Hf; [|done]. intros _.
      apply full_vector_spec in Hf; [|lia..|done]. eexists. split; [by left|]. cbn. lia.
    + intros Hk. destruct (sim_constant _ _ Hsim idx Hidx Hk) as (r & Hr & ?). exists r. split; [by right|done].
  - intros idx Hidx. rewrite Hat. case_decide; [|by apply (sim_live _ _ Hsim)].
    unfold appended. by case_match.
  - intros idx Hidx. rewrite Hat. case_decide; [apply appended_hint|]; by apply (sim_hint _ _ Hsim).
  - intros idx Hidx Hlt. rewrite Hat. case_decide as Hin; [unfold appended; by case_match|].
    apply (sim_present _ _ Hsim); [done|]. rewrite elem_of_vectors_of in Hin by lia. lia.
  - intros row Hrow. rewrite Hst by lia. case_decide as Hr.
    + rewrite (sim_tail _ _ Hsim) by lia. by case_match.
    + by apply (sim_stamps _ _ Hsim); lia.
  - intros row Hrow. rewrite Hst by lia. rewrite decide_False by lia. apply (sim_tail _ _ Hsim). lia.
Qed.

Lemma committed_kind commit_id s e idx o :
  is_constant (committed commit_id s e idx o) = is_constant o /\
  (not_deleted_constant o -> not_deleted_constant (committed commit_id s e idx o)) /\
  (hint_sound o -> hint_sound (committed commit_id s e idx o)) /\
  (o <> None -> committed commit_id s e idx o <> None).
Proof. by destruct o as [[c|v]|]. Qed.

(** A legal commit finds every entry it needs, and no constant entry in part. *)
Lemma commit_preconditions s m start count :
  simulates s m -> (start, start + count) ∈ spec.ranges s ->
  forall idx, idx ∈ vectors_of start (start + count) ->
    get_chunk_info m idx <> None /\
    (full_vector start (start + count) idx = true \/ is_constant (get_chunk_info m idx) = false).
Proof.
  intros Hsim Hleg idx Hin. pose proof CAP_pos as HC. pose proof (sim_total _ _ Hsim) as Htot.
  pose proof (sim_ranges _ _ Hsim _ Hleg) as Hr. cbn in Hr.
  pose proof Hin as Hin'. apply elem_of_vectors_of in Hin; [|lia..].
  assert (0 <= idx) by nia. split; [apply (sim_present _ _ Hsim); lia|].
  destruct (is_constant _) eqn:Hk; [left|by right]. apply full_vector_spec; [lia..|done|].
  destruct (sim_constant _ _ Hsim idx) as (r & Hrin & H1 & H2); [done..|].
  destruct (sim_disjoint _ _ Hsim _ _ Hleg Hrin) as [<-|Hd]; cbn in *; lia.
Qed.

Lemma sim_commit s m commit_id start count :
  simulates s m -> spec.legal s (spec.Commit commit_id start count) ->
  exists m', run_op (spec.total s) m (spec.Commit commit_id start count) = Ok m' /\
             simulates (spec.step s (spec.Commit commit_id start count)) m'.
Proof.
  intros Hsim Hleg. cbn in Hleg. pose proof (sim_total _ _ Hsim) as Htot.
  pose proof (sim_ranges _ _ Hsim _ Hleg) as Hr. cbn in Hr. assert (He : start + count < 2 ^ 64) by lia.
  destruct (commit_append_exact m commit_id start count) as (m' & Hrun & Hat);
    [lia..|by apply (commit_preconditions s)|].
  exists m'. split; [exact Hrun|].
  destruct (commit_append_effect m commit_id start count m' (sim_wf _ _ Hsim) ltac:(lia) ltac:(lia) He Hrun) as [Hwf Hst].
  split; cbn -[Z.pow]; try done.
  - apply (sim_ranges _ _ Hsim).
  - apply (sim_disjoint _ _ Hsim).
  - intros idx Hidx. rewrite Hat. case_decide; [|by apply (sim_constant _ _ Hsim)].
    destruct (committed_kind commit_id start (start + count) idx (get_chunk_info m idx)) as (-> & _).
    by apply (sim_constant _ _ Hsim).
  - intros idx Hidx. rewrite Hat. case_decide; [apply committed_kind|]; by apply (sim_live _ _ Hsim).
  - intros idx Hidx. rewrite Hat. case_decide; [apply committed_kind|]; by apply (sim_hint _ _ Hsim).
  - intros idx Hidx Hlt. rewrite Hat. case_decide; [apply committed_kind|]; by apply (sim_present _ _ Hsim).
  - intros row Hrow. rewrite Hst by lia. rewrite (sim_stamps _ _ Hsim) by lia. by case_decide.
  - intros row Hrow. rewrite Hst by lia. rewrite decide_False by lia. by apply (sim_tail _ _ Hsim).
Qed.

Lemma named_rows_all rows : named_rows rows (zlen rows) = rows.
Proof.
  unfold named_rows. apply list_eq. intros i. rewrite list_lookup_fmap.
  destruct (decide (i < length rows)%nat) as [Hi|Hi].
  - rewrite lookup_seqZ_lt by (unfold zlen; lia). cbn. unfold rd, zget. rewrite bool_decide_true by lia.
    replace (Z.to_nat (0 + Z.of_nat i)) with i by lia.
    destruct (lookup_lt_is_Some_2 rows i Hi) as [x ->]. done.
  - rewrite lookup_seqZ_ge by (unfold zlen; lia). cbn. symmetry. apply lookup_ge_None_2. lia.
Qed.

Lemma sim_delete s m vector_idx txn_id rows :
  simulates s m -> spec.legal s (spec.Delete vector_idx txn_id rows) ->
  exists m', run_op (spec.total s) m (spec.Delete vector_idx txn_id rows) = Ok m' /\
             simulates (spec.step s (spec.Delete vector_idx txn_id rows)) m'.
Proof.
  intros Hsim (Hidx & Hid & Hrows). rewrite Forall_forall in Hrows.
  pose proof (sim_total _ _ Hsim) as Htot. eexists. split; [done|].
  pose proof (delete_rows_at m vector_idx txn_id rows (zlen rows)) as Hat.
  destruct (delete_rows m vector_idx txn_id rows (zlen rows)) as [[n rows'] m'] eqn:Hdel. cbn [snd] in *.
  apply delete_rows_effect in Hdel as (Hwf & _ & _ & Hst); rewrite ?named_rows_all in *;
    [|apply Hsim|done|done|unfold zlen; lia|intros r Hr; by apply Hrows|by apply (sim_live _ _ Hsim)].
  assert (Hat' : forall j, (j <> vector_idx -> get_chunk_info m' j = get_chunk_info m j) /\
     (j = vector_idx -> exists v, get_chunk_info m' j = Some (VECTOR_INFO v) /\ chunk_vector_info.any_deleted v = true)).
  { intros j. apply Hat; [done|apply Hsim]. }
  clear Hat. split; cbn -[Z.pow]; try done; try apply Hsim.
  - intros idx Hi. destruct (Hat' idx) as [Hne Heq]. destruct (decide (idx = vector_idx)) as [E|E].
    + destruct (Heq E) as (v & -> & _). done.
    + rewrite Hne by done. by apply (sim_constant _ _ Hsim).
  - intros idx Hi. destruct (Hat' idx) as [Hne Heq]. destruct (decide (idx = vector_idx)) as [E|E].
    + destruct (Heq E) as (v & -> & _). done.
    + rewrite Hne by done. by apply (sim_live _ _ Hsim).
  - intros idx Hi. destruct (Hat' idx) as [Hne Heq]. destruct (decide (idx = vector_idx)) as [E|E].
    + destruct (Heq E) as (v & -> & Hv). cbn. congruence.
    + rewrite Hne by done. by apply (sim_hint _ _ Hsim).
  - intros idx Hi Hlt. destruct (Hat' idx) as [Hne Heq]. destruct (decide (idx = vector_idx)) as [E|E].
    + destruct (Heq E) as (v & -> & _). done.
    + rewrite Hne by done. by apply (sim_present _ _ Hsim).
  - intros row Hrow. destruct (row_split row) as (_ & _ & Hsplit); [lia|].
    rewrite Hst by lia. rewrite <- (sim_stamps _ _ Hsim) by lia. f_equal.
    apply decide_ext. split; intros (E & H1 & H2); rewrite ?E, <- ?Hsplit in *; done.
  - intros row Hrow. destruct (row_split row) as (_ & _ & Hsplit); [lia|]. rewrite Hst by lia. cbn.
    rewrite decide_False; [by apply (sim_tail _ _ Hsim)|]. intros (E & H1 & _). apply Hrows in H1. lia.
Qed.

(** Restamping delete marks keeps every entry's kind. *)
Lemma restamp_wf m from to_ : mgr_wf m -> mgr_wf (commit_all_deletes m from to_).
Proof.
  intros Hwf. apply wf_from_at. intros j. pose proof (restamp_entry m from to_ j) as H.
  pose proof (at_wf _ j Hwf) as Hj. rewrite !get_chunk_info_at in H.
  destruct (at_ (vector_info_ m) j) as [[c|v]|]; try by rewrite H.
  destruct (at_ _ j) as [[c'|v']|]; try done. destruct H as (_ & H1 & H2 & _). cbn in *.
  unfold vec_wf in *. by rewrite H1, H2.
Qed.

Lemma restamp_kind m from to_ j :
  is_constant (get_chunk_info (commit_all_deletes m from to_) j) = is_constant (get_chunk_info m j) /\
  (not_deleted_constant (get_chunk_info m j) -> not_deleted_constant (get_chunk_info (commit_all_deletes m from to_) j)) /\
  (hint_sound (get_chunk_info m j) -> hint_sound (get_chunk_info (commit_all_deletes m from to_) j)) /\
  (get_chunk_info m j <> None -> get_chunk_info (commit_all_deletes m from to_) j <> None).
Proof.
  pose proof (restamp_entry m from to_ j) as H.
  destruct (get_chunk_info m j) as [[c|v]|]; try by rewrite H.
  destruct (get_chunk_info _ j) as [[c'|v']|]; try done. destruct H as (Ha & _ & _ & Hv).
  split_and!; try done. cbn. rewrite Ha. intros Hh Hf. rewrite (Hv Hf). by apply Hh.
Qed.

Lemma sim_restamp s m from to_ f :
  simulates s m -> from <> NOT_DELETED_ID ->
  (forall row, f row = ((spec.row_stamps s row).1,
     if decide ((spec.row_stamps s row).2 = from) then to_ else (spec.row_stamps s row).2)) ->
  simulates (spec.Make (spec.total s) (spec.ranges s) f) (commit_all_deletes m from to_).
Proof.
  intros Hsim Hfrom Hf. pose proof (sim_total _ _ Hsim) as Htot.
  assert (Hst : forall row, 0 <= row -> stamps (commit_all_deletes m from to_) row =
            ((stamps m row).1, if decide ((stamps m row).2 = from) then to_ else (stamps m row).2)).
  { intros row Hrow. destruct (row_split row Hrow) as (Hq & _).
    apply restamp_stamps; [apply Hsim|done|done|by apply (sim_hint _ _ Hsim)|by apply (sim_live _ _ Hsim)]. }
  split; cbn -[Z.pow]; try apply Hsim.
  - apply restamp_wf, Hsim.
  - intros idx Hidx. destruct (restamp_kind m from to_ idx) as (-> & _). by apply (sim_constant _ _ Hsim).
  - intros idx Hidx. apply restamp_kind. by apply (sim_live _ _ Hsim).
  - intros idx Hidx. apply restamp_kind. by apply (sim_hint _ _ Hsim).
  - intros idx Hidx Hlt. apply restamp_kind. by apply (sim_present _ _ Hsim).
  - intros row Hrow. rewrite Hst, Hf by lia. by rewrite (sim_stamps _ _ Hsim).
  - intros row Hrow. rewrite Hst by lia. cbn. rewrite (sim_tail _ _ Hsim) by done. by rewrite decide_False.
Qed.

(** *** Reverting an append *)

Lemma revert_bound start j : 0 <= start -> (start + (CAP - 1)) / CAP <= j <-> start <= j * CAP.
Proof. intros Hs. unfold DEFAULT_VECTOR_CAPACITY. Z.div_mod_to_equations; lia. Qed.

Lemma revert_stamps m start row :
  0 <= start -> 0 <= row ->
  stamps (revert_append m start) row = if decide (start <= row / CAP * CAP) then (0, NOT_DELETED_ID) else stamps m row.
Proof.
  intros Hs Hrow. destruct (row_split row Hrow) as (Hq & _). unfold stamps. rewrite revert_append_at by done.
  pose proof (revert_bound start (row / CAP) Hs). repeat case_decide; tauto.
Qed.

Lemma sim_revert s m start :
  simulates s m -> spec.legal s (spec.RevertAppend start) ->
  simulates (spec.step s (spec.RevertAppend start)) (revert_append m start).
Proof.
  intros Hsim (Hs & Hcut & Hdel). pose proof CAP_pos as HC. pose proof (sim_total _ _ Hsim) as Htot.
  split; cbn -[Z.pow].
  - apply wf_from_at. intros j. rewrite <- get_chunk_info_at. unfold get_chunk_info, zget.
    case_bool_decide as Hj; [|done]. pose proof (revert_append_at m start j Hj) as H.
    unfold get_chunk_info, zget in H. rewrite bool_decide_true in H by done. rewrite H.
    case_decide; [done|]. pose proof (at_wf _ j (sim_wf _ _ Hsim)) as Hw. unfold at_, zget in Hw.
    by rewrite bool_decide_true in Hw.
  - lia.
  - intros r [H1 H2]%list_elem_of_filter. apply (sim_ranges _ _ Hsim) in H2. lia.
  - intros r1 r2 [_ H1]%list_elem_of_filter [_ H2]%list_elem_of_filter. by apply (sim_disjoint _ _ Hsim).
  - intros idx Hidx. rewrite revert_append_at by done. case_decide as Hb; [done|]. intros Hk.
    rewrite revert_bound in Hb by lia. destruct (sim_constant _ _ Hsim idx Hidx Hk) as (r & Hr & H1 & H2).
    exists r. split; [|done]. apply list_elem_of_filter. split; [|done]. destruct (Hcut r Hr); lia.
  - intros idx Hidx. rewrite revert_append_at by done. case_decide; [done|]. by apply (sim_live _ _ Hsim).
  - intros idx Hidx. rewrite revert_append_at by done. case_decide; [done|]. by apply (sim_hint _ _ Hsim).
  - intros idx Hidx Hlt. rewrite revert_append_at by done.
    rewrite decide_False by (rewrite revert_bound; lia). apply (sim_present _ _ Hsim); lia.
  - intros row Hrow. destruct (row_split row) as (Hq & Hm & Heq); [lia|]. rewrite revert_stamps by lia.
    rewrite decide_False by lia. apply (sim_stamps _ _ Hsim); lia.
  - intros row Hrow. rewrite revert_stamps by lia. case_decide; [done|].
    destruct (decide (row < spec.total s)); [|apply (sim_tail _ _ Hsim); lia].
    rewrite (sim_stamps _ _ Hsim) by lia. apply Hdel. lia.
Qed.

Lemma sim_step s m o :
  simulates s m -> spec.legal s o ->
  exists m', run_op (spec.total s) m o = Ok m' /\ simulates (spec.step s o) m'.
Proof.
  intros Hsim Hleg. destruct o as [t n|c st n|idx t rows|t c|t|st].
  - by apply sim_append.
  - by apply sim_commit.
  - by apply sim_delete.
  - eexists. split; [done|]. by apply (sim_restamp s m t c).
  - eexists. split; [done|]. rewrite revert_all_deletes_restamp. by apply (sim_restamp s m t NOT_DELETED_ID).
  - eexists. split; [done|]. by apply sim_revert.
Qed.

Lemma sim_run ops : forall s m,
  simulates s m -> spec.legal_all s ops ->
  exists m', run s m ops = Ok m' /\ simulates (foldl spec.step s ops) m'.
Proof.
  induction ops as [|o ops IH]; intros s m Hsim Hleg; cbn; [by exists m|].
  destruct Hleg as [Ho Hops]. destruct (sim_step s m o Hsim Ho) as (m1 & -> & Hsim1). cbn. by apply IH.
Qed.

(** ** The summary fields of a vector

    [same_inserted_id] and [insert_id] let a scan skip the array of insert stamps. They
    are right when they agree with the array on the rows the vector holds. *)

Definition held (total idx : Z) : Z := Z.min CAP (total - idx * CAP).

Definition coherent (m : row_version_manager.t) (total : Z) : Prop :=
  forall idx, 0 <= idx -> info_coherent (get_chunk_info m idx) (held total idx).

(** While the ranges of transaction [t] are being committed under [commit_id], rows of
    [t] may lag behind the summary. *)
Definition committing (t commit_id : Z) (v : vector_t) (n : Z) : Prop :=
  (chunk_vector_info.same_inserted_id v = true ->
     forall i, 0 <= i < n ->
       rd (chunk_vector_info.inserted v) i = chunk_vector_info.insert_id v \/
       (chunk_vector_info.insert_id v = commit_id /\ rd (chunk_vector_info.inserted v) i = t)) /\
  hint_sound (Some (VECTOR_INFO v)).

Definition info_committing (t commit_id : Z) (o : option chunk_info) (n : Z) : Prop :=
  match o with Some (VECTOR_INFO v) => committing t commit_id v n | _ => True end.

Lemma coherent_committing t commit_id o n : info_coherent o n -> info_committing t commit_id o n.
Proof. destruct o as [[c|v]|]; cbn; try done. intros [H1 H2]. split; [|exact H2]. intros Hs i Hi. left. by apply H1. Qed.

Lemma committing_coherent t commit_id o n :
  info_committing t commit_id o n ->
  (forall i, 0 <= i < n -> (info_stamps o i).1 <> t) -> info_coherent o n.
Proof.
  destruct o as [[c|v]|]; cbn; try done. intros [H1 H2] Hno. split; [|exact H2].
  intros Hs i Hi. destruct (H1 Hs i Hi) as [?|[_ ?]]; [done|]. by destruct (Hno i Hi).
Qed.

(** Committing a range whose rows belong to [t]. *)
Lemma committed_committing t commit_id s e idx o n :
  info_wf o -> 0 <= n <= CAP ->
  0 <= vector_start s idx < vector_end e idx -> vector_end e idx <= n ->
  info_committing t commit_id o n ->
  (forall i, vector_start s idx <= i < vector_end e idx ->
     (info_stamps o i).1 = t \/ (info_stamps o i).1 = commit_id) ->
  info_committing t commit_id (committed commit_id s e idx o) n.
Proof.
  destruct o as [[c|v]|]; cbn; try done. intros [Hw _] Hn Hse Hen [H1 H2] Hown. split; [|exact H2]. cbn.
  intros Hs i Hi. rewrite Hs. rewrite rd_zset_range by lia. case_decide as Hr; [by left|].
  destruct (Hown (vector_start s idx) ltac:(lia)) as [Ht|Ht];
    destruct (H1 Hs (vector_start s idx) ltac:(lia)) as [E|[E1 E2]];
    destruct (H1 Hs i ltac:(lia)) as [F|[F1 F2]];
    first [ by right | left; congruence | right; split; congruence ].
Qed.

Fixpoint commit_ranges (m : row_version_manager.t) (commit_id : Z) (ranges : list (Z * Z)) : outcome row_version_manager.t :=
  match ranges with
  | [] => Ok m
  | r :: ranges => m' ← commit_append m commit_id r.1 (r.2 - r.1); commit_ranges m' commit_id ranges
  end.

Definition all_committing (t commit_id : Z) (m : row_version_manager.t) (total : Z) : Prop :=
  forall idx, 0 <= idx -> info_committing t commit_id (get_chunk_info m idx) (held total idx).

(** The rows of [ranges] are stamped by [t], or already by its commit. *)
Definition owned (t commit_id : Z) (s : spec.t) (ranges : list (Z * Z)) : Prop :=
  forall r row, r ∈ ranges -> r.1 <= row < r.2 ->
    (spec.row_stamps s row).1 = t \/ (spec.row_stamps s row).1 = commit_id.

Lemma held_range s e idx total :
  0 <= s < e -> e <= total -> total < 2 ^ 64 -> idx ∈ vectors_of s e ->
  0 <= held total idx <= CAP /\ vector_end e idx <= held total idx.
Proof.
  intros Hs He Ht Hin. pose proof (vectors_of_bounds s e idx Hs ltac:(lia) Hin) as (_ & Hb & _).
  revert Hin Hb. unfold held. rewrite elem_of_vectors_of by lia. unfold vector_start, vector_end, end_vector_idx.
  rewrite wrap_small by (unfold in_width; lia).
  unfold DEFAULT_VECTOR_CAPACITY. repeat case_bool_decide; Z.div_mod_to_equations; lia.
Qed.

(** One committed range keeps the vectors in step. *)
Lemma commit_range_committing t commit_id s m start count m' :
  simulates s m -> spec.legal s (spec.Commit commit_id start count) ->
  owned t commit_id s [(start, start + count)] ->
  all_committing t commit_id m (spec.total s) ->
  commit_append m commit_id start count = Ok m' -> simulates (spec.step s (spec.Commit commit_id start count)) m' ->
  all_committing t commit_id m' (spec.total s).
Proof.
  intros Hsim Hleg Hown Hall Hrun Hsim'. cbn in Hleg.
  pose proof (sim_ranges _ _ Hsim _ Hleg) as Hr. pose proof (sim_total _ _ Hsim) as Htot. cbn in Hr.
  assert (Hse : 0 <= start < start + count) by lia. assert (He : start + count < 2 ^ 64) by lia.
  assert (Hat : forall j, get_chunk_info m' j =
      if decide (j ∈ vectors_of start (start + count))
      then committed commit_id start (start + count) j (get_chunk_info m j) else get_chunk_info m j).
  { destruct (commit_append_exact m commit_id start count) as (m1 & Hrun1 & Hat); [lia..| |].
    - by apply (commit_preconditions s).
    - rewrite Hrun in Hrun1. by injection Hrun1 as <-. }
  intros idx Hidx. rewrite Hat. case_decide as Hin; [|by apply Hall].
  pose proof (vectors_of_bounds _ _ _ Hse He Hin) as (_ & Hb & Hcap).
  pose proof (held_range _ _ _ (spec.total s) Hse ltac:(lia) ltac:(lia) Hin) as [Hh1 Hh2].
  apply committed_committing; [apply at_wf, Hsim|done|done|done|by apply Hall|].
  intros i Hi. pose proof (range_rows start (start + count) (idx * CAP + i) Hse He) as Hrow.
  destruct (row_index idx i) as [Hq Hm]; [lia|]. rewrite Hq, Hm in Hrow.
  assert (Hin' : start <= idx * CAP + i < start + count) by (apply Hrow; [pose proof CAP_pos; nia|done]).
  pose proof (Hown (start, start + count) (idx * CAP + i) ltac:(set_solver) Hin') as Ho.
  rewrite <- (sim_stamps _ _ Hsim) in Ho by lia. unfold stamps in Ho. by rewrite Hq, Hm in Ho.
Qed.

Definition commit_op (commit_id : Z) (r : Z * Z) : spec.op := spec.Commit commit_id r.1 (r.2 - r.1).

Lemma owned_step t commit_id s r ranges :
  owned t commit_id s ranges -> owned t commit_id (spec.step s (commit_op commit_id r)) ranges.
Proof.
  intros Hown r' row Hr' Hrow. cbn. case_decide; [by right|]. by apply (Hown r').
Qed.

Lemma commit_ranges_lemma t commit_id ranges : forall s m,
  simulates s m -> (forall r, r ∈ ranges -> r ∈ spec.ranges s) -> owned t commit_id s ranges ->
  all_committing t commit_id m (spec.total s) ->
  exists m', commit_ranges m commit_id ranges = Ok m' /\
    simulates (foldl spec.step s (commit_op commit_id <$> ranges)) m' /\
    all_committing t commit_id m' (spec.total s).
Proof.
  induction ranges as [|r ranges IH]; intros s m Hsim Hin Hown Hall; cbn; [by exists m|].
  assert (Hleg : spec.legal s (commit_op commit_id r)).
  { cbn. replace (r.1 + (r.2 - r.1)) with r.2 by lia. apply Hin. destruct r; set_solver. }
  destruct (sim_commit s m commit_id r.1 (r.2 - r.1) Hsim Hleg) as (m1 & Hrun & Hsim1).
  change (run_op _ _ _) with (commit_append m commit_id r.1 (r.2 - r.1)) in Hrun.
  rewrite Hrun. cbn.
  apply (IH (spec.step s (commit_op commit_id r)) m1); [done|set_solver| |].
  - apply owned_step. intros r' row Hr'. apply Hown. set_solver.
  - apply (commit_range_committing t commit_id s m r.1 (r.2 - r.1) m1); try done.
    intros r' row ->%list_elem_of_singleton. cbn. intros Hrow. apply (Hown r); [set_solver|lia].
Qed.

(** Stamps after committing ranges of [t]: [commit_id] inside them. *)
Lemma commit_ranges_stamps commit_id ranges : forall s row,
  spec.row_stamps (foldl spec.step s (commit_op commit_id <$> ranges)) row =
  if decide (Exists (fun r => r.1 <= row < r.2) ranges)
  then (commit_id, (spec.row_stamps s row).2) else spec.row_stamps s row.
Proof.
  induction ranges as [|r ranges IH]; intros s row; cbn -[decide].
  { rewrite decide_False; [done|]. by intros ?%Exists_nil. }
  rewrite IH. cbn -[decide]. replace (r.1 + (r.2 - r.1)) with r.2 by lia.
  assert (Hex : Exists (fun r => r.1 <= row < r.2) (r :: ranges) <->
                r.1 <= row < r.2 \/ Exists (fun r => r.1 <= row < r.2) ranges) by apply Exists_cons.
  destruct (decide (Exists _ ranges)); destruct (decide (r.1 <= row < r.2));
    destruct (decide (Exists _ (r :: ranges))); tauto.
Qed.

Lemma commit_ranges_total commit_id ranges s :
  spec.total (foldl spec.step s (commit_op commit_id <$> ranges)) = spec.total s.
Proof. revert s. induction ranges as [|r ranges IH]; intros s; cbn; [done|]. by rewrite IH. Qed.

(** *** The other operations keep the summary right *)

Lemma info_coherent_mono o n n' : n' <= n \/ n' <= 0 -> info_coherent o n -> info_coherent o n'.
Proof. destruct o as [[c|v]|]; cbn; try done. intros Hn [H1 H2]. split; [|done]. intros Hs i Hi. apply H1; [done|lia]. Qed.

Lemma new_coherent start n : n <= CAP -> vec_coherent (chunk_vector_info.new start) n.
Proof. intros Hn. split; cbn; intros _ i Hi; apply rd_replicate; lia. Qed.

(** Appending rows [n .. last) to a vector that holds [n] rows; from row 0 the old
    contents do not matter. *)
Lemma append_coherent v first last id :
  vec_wf v -> 0 <= first < last -> last <= CAP -> vec_coherent v first ->
  vec_coherent (chunk_vector_info.append v first last id) last.
Proof.
  intros [Hw Hw'] Hfl Hcap [H1 H2].
  destruct (append_hint v first last id) as [Ha Hd]. split; [|by rewrite Ha, Hd].
  intros Hs i Hi. revert Hs. unfold chunk_vector_info.append.
  repeat case_bool_decide; cbn; intros Hs; try done; rewrite rd_zset_range by lia;
    (case_decide; [done|]); [lia|]. apply H1; [done|lia].
Qed.

Lemma append_version_info_coherent m txn count s e m' :
  mgr_wf m -> 0 <= s < e -> e < 2 ^ 64 -> coherent m s ->
  (forall idx, idx ∈ vectors_of s e -> full_vector s e idx = true \/ is_constant (get_chunk_info m idx) = false) ->
  append_version_info m txn count s e = Ok m' -> coherent m' e.
Proof.
  intros Hwf Hs He Hco Hok Hrun.
  destruct (append_version_info_exact m txn count s e Hs He Hok) as (m1 & Hrun1 & Hat).
  rewrite Hrun in Hrun1. injection Hrun1 as <-.
  intros idx Hidx. rewrite Hat. specialize (Hco idx Hidx). case_decide as Hin.
  - pose proof (vectors_of_bounds _ _ _ Hs He Hin) as (_ & Hb & Hcap).
    unfold appended. case_match eqn:Hf; [done|]. cbn [info_coherent].
    assert (Hlast : held e idx = vector_end e idx /\ (vector_start s idx = 0 \/ vector_start s idx = held s idx)).
    { revert Hin. rewrite elem_of_vectors_of by lia.
      unfold held, vector_start, vector_end, start_vector_idx, end_vector_idx.
      rewrite wrap_small by (unfold in_width; lia).
      unfold DEFAULT_VECTOR_CAPACITY. repeat case_bool_decide; Z.div_mod_to_equations; lia. }
    destruct Hlast as [-> Hstart]. apply append_coherent; [|lia|done|].
    + pose proof (at_wf _ idx Hwf) as Hw. rewrite get_chunk_info_at.
      destruct (at_ (vector_info_ m) idx) as [[c|v]|]; auto with otter.
    + destruct (get_chunk_info m idx) as [[c|v]|]; [apply new_coherent; lia| |apply new_coherent; lia].
      destruct Hstart as [-> | ->]; [|done]. destruct Hco as [_ Hd]. split; [intros _ i Hi; lia|done].
  - apply (info_coherent_mono _ (held s idx)); [|done]. revert Hin. rewrite elem_of_vectors_of by lia.
    unfold held. lia.
Qed.

Lemma as_vector_coherent first_row o n : n <= CAP -> info_coherent o n -> vec_coherent (as_vector first_row o) n.
Proof.
  intros Hn. destruct o as [[c|v]|]; cbn; [intros _|done|intros _; by apply new_coherent].
  split; cbn; intros _ i Hi; apply rd_replicate; lia.
Qed.

Lemma delete_rows_coherent m idx txn_id rows count total :
  0 <= idx -> coherent m total -> coherent (delete_rows m idx txn_id rows count).2 total.
Proof.
  intros Hidx Hco. unfold delete_rows.
  destruct (vector_info_at m idx Hidx) as (Hlen & Hv & Hother).
  destruct (vector_info m idx) as [v infos]. cbn [fst snd] in *. unfold chunk_vector_info.delete_rows.
  destruct (foldl _ _ _) as [[k rows1] deleted1]. cbn [snd].
  intros j Hj. rewrite get_chunk_info_at. cbn [vector_info_]. rewrite at_zset by lia. case_decide as E.
  - subst j v. destruct (as_vector_coherent (start_ m + idx * CAP) (get_chunk_info m idx) (held total idx)) as [H1 _];
      [unfold held; lia | by apply Hco |]. cbn. split; [exact H1|done].
  - rewrite Hother by done. by apply Hco.
Qed.

Lemma restamp_coherent m from to_ total : coherent m total -> coherent (commit_all_deletes m from to_) total.
Proof.
  intros Hco idx Hidx. specialize (Hco idx Hidx). unfold commit_all_deletes. rewrite map_vectors_at.
  destruct (get_chunk_info m idx) as [[c|v]|]; try done. cbn in *. unfold chunk_vector_info.commit_all_deletes.
  destruct (chunk_vector_info.any_deleted v) eqn:Ha; cbn; [|done].
  destruct Hco as [H1 _]. split; [exact H1|]. cbn. congruence.
Qed.

Lemma revert_coherent m start total : start <= total -> coherent m total -> coherent (revert_append m start) start.
Proof.
  intros Hs Hco idx Hidx. rewrite revert_append_at by done. case_decide; [done|].
  apply (info_coherent_mono _ (held total idx)); [unfold held; lia|]. by apply Hco.
Qed.

(** ** Whole transactions

    A transaction commits all the ranges it appended, one [commit_append] each. *)

Inductive txn_op :=
| Basic (o : spec.op)
| CommitTxn (txn_id commit_id : Z) (ranges : list (Z * Z)).

Definition expand (o : txn_op) : list spec.op :=
  match o with
  | Basic o => [o]
  | CommitTxn _ commit_id ranges => commit_op commit_id <$> ranges
  end.

Definition txn_legal (s : spec.t) (o : txn_op) : Prop :=
  match o with
  | Basic (spec.Commit _ _ _) => False
  | Basic o => spec.legal s o
  | CommitTxn txn_id commit_id ranges =>
      txn_id <> commit_id /\ (forall r, r ∈ ranges -> r ∈ spec.ranges s) /\
      (forall row, 0 <= row < spec.total s ->
         (spec.row_stamps s row).1 = txn_id <-> Exists (fun r => r.1 <= row < r.2) ranges)
  end.

Fixpoint txn_legal_all (s : spec.t) (ops : list txn_op) : Prop :=
  match ops with
  | [] => True
  | o :: ops => txn_legal s o /\ txn_legal_all (foldl spec.step s (expand o)) ops
  end.

Definition expand_all (ops : list txn_op) : list spec.op := mjoin (expand <$> ops).

Lemma run_app ops1 : forall s m ops2,
  run s m (ops1 ++ ops2) = (m' ← run s m ops1; run (foldl spec.step s ops1) m' ops2).
Proof.
  induction ops1 as [|o ops1 IH]; intros s m ops2; cbn; [done|].
  destruct (run_op (spec.total s) m o) as [m1|f]; cbn; [apply IH|done].
Qed.

Lemma run_commit_ranges commit_id ranges : forall s m,
  run s m (commit_op commit_id <$> ranges) = commit_ranges m commit_id ranges.
Proof.
  induction ranges as [|r ranges IH]; intros s m; cbn; [done|].
  destruct (commit_append m commit_id r.1 (r.2 - r.1)) as [m1|f]; cbn; [apply IH|done].
Qed.

Lemma commit_txn_coherent s m txn_id commit_id ranges :
  simulates s m -> coherent m (spec.total s) -> txn_legal s (CommitTxn txn_id commit_id ranges) ->
  exists m', commit_ranges m commit_id ranges = Ok m' /\
    simulates (foldl spec.step s (commit_op commit_id <$> ranges)) m' /\ coherent m' (spec.total s).
Proof.
  intros Hsim Hco (Hne & Hin & Hex).
  destruct (commit_ranges_lemma txn_id commit_id ranges s m) as (m' & Hrun & Hsim' & Hall); [done|done| | |].
  - intros r row Hr Hrow. left. pose proof (sim_ranges _ _ Hsim r (Hin r Hr)).
    apply Hex; [lia|]. apply Exists_exists. by exists r.
  - intros idx Hidx. apply coherent_committing. by apply Hco.
  - exists m'. split_and!; [done..|]. intros idx Hidx.
    apply (committing_coherent txn_id commit_id); [by apply Hall|]. intros i Hi.
    assert (Hrow : 0 <= idx * CAP + i < spec.total s) by (unfold held in Hi; pose proof CAP_pos; nia).
    assert (Hst : stamps m' (idx * CAP + i) = info_stamps (get_chunk_info m' idx) i).
    { unfold stamps. destruct (row_index idx i) as [-> ->]; [unfold held in Hi; lia|done]. }
    rewrite <- Hst, (sim_stamps _ _ Hsim') by (by rewrite commit_ranges_total).
    rewrite commit_ranges_stamps. case_decide as Hx; [cbn; congruence|]. intros Ht. by apply Hex in Ht.
Qed.

Lemma txn_step_sim s m o :
  simulates s m -> coherent m (spec.total s) -> txn_legal s o ->
  exists m', run s m (expand o) = Ok m' /\
    simulates (foldl spec.step s (expand o)) m' /\ coherent m' (spec.total (foldl spec.step s (expand o))).
Proof.
  intros Hsim Hco Hleg. pose proof (sim_total _ _ Hsim) as Htot. destruct o as [o|t c ranges].
  2:{ cbn [expand]. rewrite run_commit_ranges, commit_ranges_total. by apply (commit_txn_coherent s m t). }
  assert (Hl : spec.legal s o) by (by destruct o).
  destruct (sim_step s m o Hsim Hl) as (m' & Hrun & Hsim').
  exists m'. cbn. rewrite Hrun. split_and!; [done..|].
  destruct o as [t n|c st n|idx t rows|t c|t|st]; cbn in *; try done.
  - eapply append_version_info_coherent; [apply Hsim| |apply Hl|exact Hco| |exact Hrun]; [lia|].
    intros idx Hin. right. destruct (is_constant _) eqn:Hk; [|done]. pose proof CAP_pos.
    apply elem_of_vectors_of in Hin; [|lia..]. apply (constant_below_total s) in Hk; [lia|done|nia].
  - injection Hrun as <-. apply delete_rows_coherent; [apply Hl|done].
  - injection Hrun as <-. by apply restamp_coherent.
  - injection Hrun as <-. rewrite revert_all_deletes_restamp. by apply restamp_coherent.
  - injection Hrun as <-. apply (revert_coherent m st (spec.total s)); [lia|done].
Qed.

Lemma txn_run_sim ops : forall s m,
  simulates s m -> coherent m (spec.total s) -> txn_legal_all s ops ->
  exists m', run s m (expand_all ops) = Ok m' /\
    simulates (foldl spec.step s (expand_all ops)) m' /\
    coherent m' (spec.total (foldl spec.step s (expand_all ops))).
Proof.
  induction ops as [|o ops IH]; intros s m Hsim Hco Hleg; cbn; [by exists m|].
  destruct Hleg as [Ho Hops]. destruct (txn_step_sim s m o Hsim Hco Ho) as (m1 & Hrun & Hsim1 & Hco1).
  unfold expand_all. cbn. rewrite run_app, Hrun, foldl_app. cbn. by apply IH.
Qed.

Lemma coherent_new start : coherent (row_version_manager.new start) 0.
Proof. intros idx _. by rewrite new_entry. Qed.

(** ** The compaction gate *)

Lemma elem_of_spans count i n :
  (i, n) ∈ spans count <-> 0 <= i /\ i * CAP < count /\ n = held count i.
Proof.
  unfold spans, held. rewrite list_elem_of_fmap. setoid_rewrite elem_of_seqZ. split.
  - intros (j & [= -> ->] & Hj). split_and!; [lia| |done].
    revert Hj. unfold DEFAULT_VECTOR_CAPACITY. Z.div_mod_to_equations; lia.
  - intros (H1 & H2 & ->). exists i. split; [done|].
    revert H2. unfold DEFAULT_VECTOR_CAPACITY. Z.div_mod_to_equations; lia.
Qed.

Definition settled (watermark : Z) (s : Z * Z) : Prop :=
  s.1 <= watermark /\ (s.2 = NOT_DELETED_ID \/ s.2 <= watermark).

#[export] Instance settled_dec watermark s : Decision (settled watermark s).
Proof. unfold settled. apply _. Defined.

Lemma existsb_seqZ (p : Z -> bool) n :
  existsb p (seqZ 0 n) = false <-> forall i, 0 <= i < n -> p i = false.
Proof.
  rewrite <- not_true_iff_false, existsb_exists. setoid_rewrite <- list_elem_of_In. setoid_rewrite elem_of_seqZ.
  split.
  - intros H i Hi. apply not_true_iff_false. intros Hp. apply H. exists i. split; [lia|done].
  - intros H (i & Hi & Hp). rewrite H in Hp by lia. done.
Qed.

Lemma info_gate info watermark n :
  0 < n <= CAP -> info_coherent (Some info) n ->
  chunk_info_ops.has_version_above info watermark n = false <->
  forall i, 0 <= i < n -> settled watermark (info_stamps (Some info) i).
Proof.
  intros Hn Hco. destruct info as [c|v]; cbn.
  - unfold chunk_constant_info.has_version_above, settled. cbn. split.
    + intros H i Hi. repeat case_bool_decide; cbn in *; try done; lia.
    + intros H. specialize (H 0 ltac:(lia)). repeat case_bool_decide; cbn; try done; lia.
  - destruct Hco as [Hsame Hdel]. unfold chunk_vector_info.has_version_above, settled.
    rewrite orb_false_iff. cbn.
    assert (Hins : (if chunk_vector_info.same_inserted_id v then bool_decide (watermark < chunk_vector_info.insert_id v)
        else existsb (fun i => bool_decide (watermark < rd (chunk_vector_info.inserted v) i)) (seqZ 0 n)) = false <->
        forall i, 0 <= i < n -> rd (chunk_vector_info.inserted v) i <= watermark).
    { destruct (chunk_vector_info.same_inserted_id v).
      - rewrite bool_decide_eq_false. split.
        + intros H i Hi. rewrite Hsame by done. lia.
        + intros H. specialize (H 0 ltac:(lia)). rewrite Hsame in H by (done || lia). lia.
      - rewrite existsb_seqZ. setoid_rewrite bool_decide_eq_false. split; intros H i Hi; specialize (H i Hi); lia. }
    rewrite Hins.
    assert (Hdels : chunk_vector_info.any_deleted v &&
        existsb (fun i => negb (bool_decide (rd (chunk_vector_info.deleted v) i = NOT_DELETED_ID))
          && bool_decide (watermark < rd (chunk_vector_info.deleted v) i)) (seqZ 0 n) = false <->
        forall i, 0 <= i < n -> rd (chunk_vector_info.deleted v) i = NOT_DELETED_ID \/ rd (chunk_vector_info.deleted v) i <= watermark).
    { destruct (chunk_vector_info.any_deleted v); cbn.
      - rewrite existsb_seqZ. split; intros H i Hi; specialize (H i Hi); repeat case_bool_decide; cbn in *; try done; lia.
      - split; [|done]. intros _ i Hi. left. apply Hdel; [done|lia]. }
    rewrite Hdels. split; [intros [H1 H2] i Hi; split; auto | intros H; split; intros i Hi; by apply H].
Qed.

Lemma gate_settled m watermark count :
  coherent m count -> 0 <= watermark ->
  has_version_above m watermark count = false <->
  forall row, 0 <= row < count -> settled watermark (stamps m row).
Proof.
  intros Hco Hw. pose proof CAP_pos as HC. unfold has_version_above.
  rewrite <- not_true_iff_false, existsb_exists. setoid_rewrite <- list_elem_of_In. split.
  - intros Hno row Hrow. destruct (row_split row) as (Hq & Hm & Heq); [lia|]. unfold stamps.
    specialize (Hco (row / CAP) Hq). destruct (get_chunk_info m (row / CAP)) as [info|] eqn:Hg.
    + assert (Hn : 0 < held count (row / CAP) <= CAP) by (unfold held; lia).
      apply (proj1 (info_gate info watermark _ Hn Hco)); [|unfold held; lia].
      apply not_true_iff_false. intros Ht. apply Hno. exists (row / CAP, held count (row / CAP)).
      split; [apply elem_of_spans; split_and!; [done|lia|done]|]. by rewrite Hg.
    + split; cbn; [lia|by left].
  - intros Hset ([i n] & Hin & Ht). apply elem_of_spans in Hin as (Hi & Hlt & ->).
    destruct (get_chunk_info m i) as [info|] eqn:Hg; [|done]. specialize (Hco i Hi). rewrite Hg in Hco.
    assert (Hn : 0 < held count i <= CAP) by (unfold held; lia).
    rewrite (proj2 (info_gate info watermark _ Hn Hco)) in Ht; [done|].
    intros j Hj. specialize (Hset (i * CAP + j) ltac:(unfold held in *; nia)). unfold stamps in Hset.
    destruct (row_index i j) as [Eq Em]; [unfold held in *; lia|]. by rewrite Eq, Em, Hg in Hset.
Qed.

(** ** Counting committed deletes *)

Definition committed_delete (m : row_version_manager.t) (row : Z) : Prop := (stamps m row).2 < TRANSACTION_ID_START.

#[export] Instance committed_delete_dec m row : Decision (committed_delete m row).
Proof. unfold committed_delete. apply _. Defined.

Lemma filter_ext_list {A} (P Q : A -> Prop) `{!forall x, Decision (P x)} `{!forall x, Decision (Q x)} (l : list A) :
  (forall x, x ∈ l -> P x <-> Q x) -> filter P l = filter Q l.
Proof.
  induction l as [|x l IH]; intros HPQ; [done|]. rewrite !filter_cons, IH by set_solver.
  specialize (HPQ x ltac:(set_solver)). repeat case_decide; tauto.
Qed.

Lemma filter_shift (P : Z -> Prop) `{!forall x, Decision (P x)} a (l : list Z) :
  zlen (filter P (Z.add a <$> l)) = zlen (filter (fun i => P (a + i)) l).
Proof.
  induction l as [|x l IH]; [done|]. rewrite fmap_cons, !filter_cons.
  repeat case_decide; unfold zlen in *; cbn; lia.
Qed.

Lemma filter_all_len {A} (P : A -> Prop) `{!forall x, Decision (P x)} (l : list A) :
  (forall x, x ∈ l -> P x) -> zlen (filter P l) = zlen l.
Proof.
  induction l as [|x l IH]; intros Hall; [done|]. rewrite filter_cons, decide_True by set_solver.
  unfold zlen in *. cbn. rewrite !Nat2Z.inj_succ, IH by set_solver. done.
Qed.

Lemma filter_none_len {A} (P : A -> Prop) `{!forall x, Decision (P x)} (l : list A) :
  (forall x, x ∈ l -> ~ P x) -> zlen (filter P l) = 0.
Proof.
  induction l as [|x l IH]; intros Hno; [done|]. rewrite filter_cons, decide_False by set_solver. apply IH. set_solver.
Qed.

Lemma info_committed_deleted o n :
  0 <= n <= CAP -> hint_sound (Some o) ->
  chunk_info_ops.committed_deleted_count o n =
  zlen (filter (fun i => (info_stamps (Some o) i).2 < TRANSACTION_ID_START) (seqZ 0 n)).
Proof.
  intros Hn Hh. destruct o as [c|v]; cbn in *.
  - unfold chunk_constant_info.committed_deleted_count. case_bool_decide.
    + rewrite filter_all_len by done. by rewrite zlen_seqZ by lia.
    + by rewrite filter_none_len.
  - unfold chunk_vector_info.committed_deleted_count.
    destruct (chunk_vector_info.any_deleted v); cbn; [done|].
    rewrite filter_none_len; [done|]. intros i Hi%elem_of_seqZ.
    rewrite Hh by (done || lia). by vm_compute.
Qed.

Lemma committed_deleted_count_fold m count (k : nat) :
  (forall idx, 0 <= idx -> hint_sound (get_chunk_info m idx)) ->
  (forall i, 0 <= i < Z.of_nat k -> i * CAP < count) ->
  foldl (fun acc '(i, max_count) =>
           match get_chunk_info m i with
           | None => acc
           | Some info => acc + chunk_info_ops.committed_deleted_count info max_count
           end) 0 ((fun i => (i, Z.min CAP (count - i * CAP))) <$> seqZ 0 (Z.of_nat k)) =
  zlen (filter (committed_delete m) (seqZ 0 (Z.min count (Z.of_nat k * CAP)))).
Proof.
  intros Hh. pose proof CAP_pos as HC. induction k as [|k IH]; intros Hk.
  { cbn [Z.of_nat]. rewrite Z.mul_0_l. destruct (decide (0 <= count)).
    - by rewrite Z.min_r by lia. - by rewrite Z.min_l, !seqZ_nil by lia. }
  assert (Hlast : Z.of_nat k * CAP < count) by (apply Hk; lia).
  rewrite seqZ_S, fmap_app, foldl_app, IH by (intros; apply Hk; lia).
  rewrite (Z.min_r count (Z.of_nat k * CAP)) by lia.
  replace (Z.min count (Z.of_nat (S k) * CAP)) with (Z.of_nat k * CAP + held count (Z.of_nat k)) by (unfold held; nia).
  rewrite seqZ_app by (unfold held; lia). rewrite filter_app, zlen_app, !Z.add_0_l.
  replace (seqZ (Z.of_nat k * CAP) (held count (Z.of_nat k)))
    with (Z.add (Z.of_nat k * CAP) <$> seqZ 0 (held count (Z.of_nat k)))
    by (rewrite fmap_add_seqZ; f_equal; lia).
  rewrite filter_shift. cbn [foldl fmap list_fmap]. fold (held count (Z.of_nat k)).
  assert (Hst : forall i, i ∈ seqZ 0 (held count (Z.of_nat k)) ->
     committed_delete m (Z.of_nat k * CAP + i) <->
     (info_stamps (get_chunk_info m (Z.of_nat k)) i).2 < TRANSACTION_ID_START).
  { intros i Hi%elem_of_seqZ. unfold committed_delete, stamps.
    destruct (row_index (Z.of_nat k) i) as [-> ->]; [unfold held in Hi; lia|done]. }
  rewrite (filter_ext_list _ _ _ Hst). specialize (Hh (Z.of_nat k) ltac:(lia)).
  destruct (get_chunk_info m (Z.of_nat k)) as [info|].
  - rewrite info_committed_deleted by (done || unfold held; lia). done.
  - rewrite (filter_none_len (fun i => (info_stamps None i).2 < TRANSACTION_ID_START)); [lia|]. intros i _. cbn. by vm_compute.
Qed.

(** ** Cleaning up old versions *)

Definition cleaned (lowest e idx : Z) (o : option chunk_info) : option chunk_info :=
  if bool_decide (vector_end e idx = CAP) then
    match o with
    | None => None
    | Some info => let '(ok, new_info) := chunk_info_ops.cleanup info lowest in if ok : bool then new_info else o
    end
  else o.

Lemma cleanup_append_at m lowest s count j :
  0 <= s -> 0 < count -> s + count < 2 ^ 64 ->
  get_chunk_info (cleanup_append m lowest s count) j =
  if decide (j ∈ vectors_of s (s + count)) then cleaned lowest (s + count) j (get_chunk_info m j)
  else get_chunk_info m j.
Proof.
  intros Hs Hc He. unfold cleanup_append. rewrite bool_decide_false by lia. rewrite !get_chunk_info_at.
  cbn [vector_info_ with_info].
  apply (foldl_pointwise (cleanup_vector lowest (s + count)) (cleaned lowest (s + count)));
    [|intros idx Hin; by apply (vectors_of_bounds s (s + count)) in Hin as [? _]; lia|apply vectors_of_NoDup].
  intros infos idx _ Hidx. unfold cleanup_vector, cleaned. fold (at_ infos idx).
  case_bool_decide; cbn; [|split; [done|]; intros j'; by case_decide; subst].
  destruct (at_ infos idx) as [info|] eqn:Hat; [|split; [done|]; intros j'; case_decide; by subst].
  assert (Hlt : 0 <= idx < zlen infos).
  { unfold at_ in Hat. destruct (infos !!z idx) eqn:E; [by eapply zget_Some_lt|done]. }
  destruct (chunk_info_ops.cleanup info lowest) as [[] new_info].
  - split; [by rewrite zlen_zset|]. intros j'. by rewrite at_zset.
  - split; [done|]. intros j'. case_decide; by subst.
Qed.

(** What the delete scan of [cleanup] answers. *)
Lemma cleanup_deletes_spec lowest l all_deleted min_id :
  chunk_vector_info.cleanup_deletes lowest l all_deleted min_id = None <->
  Exists (fun d => d <> NOT_DELETED_ID /\ (TRANSACTION_ID_START <= d \/ lowest < d)) l.
Proof.
  revert all_deleted min_id. induction l as [|d l IH]; intros a mi; cbn.
  { rewrite Exists_nil. split; [congruence|done]. }
  rewrite Exists_cons. repeat case_bool_decide; cbn; rewrite ?IH; naive_solver lia.
Qed.

Lemma cleanup_deletes_all lowest l all_deleted min_id b mi :
  chunk_vector_info.cleanup_deletes lowest l all_deleted min_id = Some (b, mi) ->
  b = all_deleted && bool_decide (NOT_DELETED_ID ∉ l).
Proof.
  revert all_deleted min_id. induction l as [|d l IH]; intros a mi'; cbn.
  { intros [= -> ->]. by rewrite bool_decide_true, andb_true_r by set_solver. }
  destruct (decide (d = NOT_DELETED_ID)) as [E|E];
    [rewrite (bool_decide_true (d = _)) by done | rewrite (bool_decide_false (d = _)) by done].
  - intros ->%IH. cbn. by rewrite bool_decide_false, andb_false_r by set_solver.
  - destruct (_ || _); [done|]. intros ->%IH. f_equal. apply bool_decide_ext. set_solver.
Qed.

(** A reader that sees every commit at or below [lowest]. *)
Definition sees_below (txn : transaction_data) (lowest : Z) : Prop :=
  forall id, 0 <= id <= lowest -> use_version txn id = true.

Lemma rd_elem_of l i : 0 <= i < zlen l -> rd l i ∈ l.
Proof.
  intros Hi. unfold rd. destruct (zget_is_Some l i Hi) as [x Hx]. rewrite Hx. cbn.
  apply zget_Some in Hx as [_ Hx]. by eapply list_elem_of_lookup_2.
Qed.

Lemma vec_cleanup_inserts v lowest res :
  vec_wf v -> vec_coherent v CAP -> chunk_vector_info.cleanup v lowest = (true, res) ->
  forall i, 0 <= i < CAP -> rd (chunk_vector_info.inserted v) i <= lowest.
Proof.
  intros [Hw _] [Hs _] Hc i Hi. unfold chunk_vector_info.cleanup in Hc.
  destruct (chunk_vector_info.same_inserted_id v) eqn:Hsame; cbn in Hc.
  - rewrite Hs by done. case_bool_decide; [done|]. discriminate.
  - destruct (forallb _ _) eqn:Hall; [|discriminate]. rewrite forallb_forall in Hall.
    apply (bool_decide_eq_true_1 _). apply Hall, list_elem_of_In, rd_elem_of. lia.
Qed.

(** With an undeleted row among settled ones, the whole entry is dropped. *)
Lemma vec_cleanup_drops v lowest j :
  vec_wf v -> vec_coherent v CAP -> 0 <= j < CAP -> rd (chunk_vector_info.deleted v) j = NOT_DELETED_ID ->
  (forall i, 0 <= i < CAP -> rd (chunk_vector_info.inserted v) i <= lowest /\
     (rd (chunk_vector_info.deleted v) i = NOT_DELETED_ID \/
      rd (chunk_vector_info.deleted v) i < TRANSACTION_ID_START /\ rd (chunk_vector_info.deleted v) i <= lowest)) ->
  chunk_vector_info.cleanup v lowest = (true, None).
Proof.
  intros [Hwi Hwd] [Hs Hd] Hj Hjd Hall. pose proof CAP_pos. unfold chunk_vector_info.cleanup.
  assert (Hrd : forall l d, zlen l = CAP -> d ∈ l -> exists i, 0 <= i < CAP /\ rd l i = d).
  { intros l d Hl [n Hn]%list_elem_of_lookup_1. exists (Z.of_nat n). pose proof (lookup_lt_Some _ _ _ Hn).
    unfold zlen in Hl. split; [lia|]. unfold rd, zget. by rewrite bool_decide_true, Nat2Z.id, Hn by lia. }
  assert (Hins : (if negb (chunk_vector_info.same_inserted_id v)
    then forallb (fun id => bool_decide (id <= lowest)) (chunk_vector_info.inserted v)
    else bool_decide (chunk_vector_info.insert_id v <= lowest)) = true).
  { destruct (chunk_vector_info.same_inserted_id v) eqn:E; cbn.
    - apply bool_decide_eq_true. rewrite <- (Hs eq_refl j Hj). by apply Hall.
    - apply forallb_forall. intros x Hx%list_elem_of_In. apply bool_decide_eq_true.
      destruct (Hrd _ x Hwi Hx) as (i & Hi & <-). by apply Hall. }
  rewrite Hins. cbn. destruct (chunk_vector_info.any_deleted v) eqn:Ha; [|done].
  destruct (chunk_vector_info.cleanup_deletes _ _ _ _) as [[b mi]|] eqn:Hcd.
  - apply cleanup_deletes_all in Hcd as ->. rewrite bool_decide_false; [done|].
    intros Hn. apply Hn. rewrite <- Hjd. apply rd_elem_of. lia.
  - apply cleanup_deletes_spec, Exists_exists in Hcd as (d & Hd' & Hbad).
    destruct (Hrd _ d Hwd Hd') as (i & Hi & <-). destruct (Hall i Hi) as [_ Hdi]. naive_solver lia.
Qed.
