(* ===== verification/RowVersionTheorems.v ===== *)
(** * Theorems about the version info of a row group

    What [row_version_manager_t] (src/components/table/row_version_manager.cpp)
    guarantees to scans, deletes and compaction, proved from the simulation of
    RowVersionSpec.v, and three ways in which cleaning up or expanding an entry makes
    deleted rows visible again. *)

From S2P Require Import Prelude.
From S2P Require Import Visibility.
From S2P Require Import RowVersion.
From S2P Require Import RowVersionSpec.
#[local] Open Scope Z_scope.
Import row_version_manager.

(** ** Concrete inputs *)

Definition T1 : Z := TRANSACTION_ID_START + 1.
Definition T2 : Z := TRANSACTION_ID_START + 2.

(** Two appends of one transaction, its commit, a delete by another one. *)
Definition ex_ops : list spec.op :=
  [spec.Append T1 2; spec.Append T1 3; spec.Commit 5 0 2; spec.Commit 5 2 3; spec.Delete 0 T2 [1; 4];
   spec.CommitDeletes T2 7; spec.Delete 0 T1 [0]; spec.RevertDeletes T1].

Definition ex_txn_ops : list txn_op :=
  [Basic (spec.Append T1 2); Basic (spec.Append T1 3); CommitTxn T1 5 [(0, 2); (2, 5)];
   Basic (spec.Delete 0 T2 [1; 4]); Basic (spec.CommitDeletes T2 7)].

Definition force {A} (d : A) (o : outcome A) : A := match o with Ok x => x | Fault _ => d end.

Definition ex_mgr : row_version_manager.t :=
  force (row_version_manager.new 0) (run spec.empty (row_version_manager.new 0) (expand_all ex_txn_ops)).

Definition see_all : transaction_data := transaction_data_see_all 0 0.

(** A full vector of committed rows, rows 3 and 9 deleted and committed. *)
Definition ex_full_ops : list txn_op :=
  [Basic (spec.Append T1 2000); CommitTxn T1 5 [(0, 2000)];
   Basic (spec.Delete 0 T2 [3; 9]); Basic (spec.CommitDeletes T2 7)].

Definition ex_full : row_version_manager.t :=
  force (row_version_manager.new 0) (run spec.empty (row_version_manager.new 0) (expand_all ex_full_ops)).

(** The same with every row of the first vector deleted, cleaned up once. *)
Definition ex_gone_ops : list txn_op :=
  [Basic (spec.Append T1 2000); CommitTxn T1 5 [(0, 2000)];
   Basic (spec.Delete 0 T2 (seqZ 0 1024)); Basic (spec.CommitDeletes T2 7)].

Definition ex_gone : row_version_manager.t :=
  cleanup_append (force (row_version_manager.new 0)
    (run spec.empty (row_version_manager.new 0) (expand_all ex_gone_ops))) 10 0 1024.

(** ** Readers *)

Lemma see_all_reader : reader see_all.
Proof. split; [by constructor | reflexivity | reflexivity]. Qed.

Lemma see_all_below lowest : lowest < TRANSACTION_ID_START -> sees_below see_all lowest.
Proof.
  intros Hl id Hid. unfold use_version. apply use_inserted_version_spec; [by constructor|]. right.
  split_and!; cbn; [lia| |set_solver]. unfold TRANSACTION_ID_START, UINT64_MAX in *. lia.
Qed.

(** Readers that see every commit up to the watermark agree on settled rows. *)
Lemma settled_visible txn watermark s :
  reader txn -> sees_below txn watermark -> 0 <= s.1 -> 0 <= s.2 -> settled watermark s ->
  visible txn s = bool_decide (s.2 = NOT_DELETED_ID).
Proof.
  intros [_ _ Hm] Hb H1 H2 [Hi Hd]. unfold visible. rewrite Hb by lia. cbn. case_bool_decide as E.
  - by rewrite E, Hm.
  - destruct Hd as [?|Hd]; [done|]. by rewrite Hb by lia.
Qed.

Lemma dropped_visible m idx i txn :
  reader txn -> 0 <= i < CAP -> get_chunk_info m idx = None -> fetch m txn (idx * CAP + i) = true.
Proof.
  intros Hr Hi Hn. rewrite fetch_visible by done. unfold stamps. destruct (row_index idx i Hi) as [-> ->].
  rewrite Hn. by apply visible_zero.
Qed.

Lemma fetch_entry m idx i txn :
  reader txn -> 0 <= i < CAP -> fetch m txn (idx * CAP + i) = visible txn (info_stamps (get_chunk_info m idx) i).
Proof. intros Hr Hi. rewrite fetch_visible by done. unfold stamps. by destruct (row_index idx i Hi) as [-> ->]. Qed.

(** ** What the version manager guarantees *)

(** C4: Refinement.  Every legal sequence of appends, commits, deletes and reverts on a
    new version manager runs to the end, with no abort on a partly covered constant
    entry and no access to a missing one, and leaves each row with the stamps of the
    abstract table; so a reader fetches a row exactly when those stamps make it
    visible. *)
Theorem version_info_refines start ops :
  spec.legal_all spec.empty ops ->
  exists m, run spec.empty (row_version_manager.new start) ops = Ok m /\
    forall row, 0 <= row < spec.total (foldl spec.step spec.empty ops) ->
      stamps m row = spec.row_stamps (foldl spec.step spec.empty ops) row /\
      forall txn, reader txn ->
        fetch m txn row = visible txn (spec.row_stamps (foldl spec.step spec.empty ops) row).
Proof.
  intros Hleg. destruct (sim_run ops _ _ (simulates_new start) Hleg) as (m & Hrun & Hsim).
  exists m. split; [done|]. intros row Hrow. rewrite <- (sim_stamps _ _ Hsim) by done.
  split; [done|]. intros txn Hr. by apply fetch_visible.
Qed.

(** C10: A scan of a vector selects exactly the rows that [fetch] accepts one by one,
    although it consults the summary fields [same_inserted_id], [insert_id] and
    [any_deleted] first: after any sequence of appends, deletes, reverts and commits of
    whole transactions those fields are right on the rows the vector holds. *)
Theorem scan_selects_fetched start ops :
  txn_legal_all spec.empty ops ->
  exists m, run spec.empty (row_version_manager.new start) (expand_all ops) = Ok m /\
    forall txn idx iv, reader txn -> 0 <= idx ->
      let n := held (spec.total (foldl spec.step spec.empty (expand_all ops))) idx in
      0 <= n <= zlen iv ->
      selected (indexing_vector m txn idx iv n) n =
      filter (fun i => fetch m txn (idx * CAP + i)) (seqZ 0 n).
Proof.
  intros Hleg. destruct (txn_run_sim ops _ _ (simulates_new start) (coherent_new start) Hleg) as (m & Hrun & Hsim & Hco).
  exists m. split; [done|]. intros txn idx iv Hr Hidx n Hn.
  rewrite scan_visible; [|done|apply Hsim|by apply Hco|unfold n, held in *; lia|lia].
  apply filter_ext_seqZ. intros i Hi. by rewrite fetch_visible.
Qed.

(** [delete_rows] marks, of the rows it is given, exactly those nobody deleted
    before; it returns how many distinct rows that are, compacts them to the front of
    the row list, and leaves every other row of the group as it was. *)
Theorem delete_rows_marks m idx txn_id rows count n rows' m' :
  mgr_wf m -> 0 <= idx -> txn_id <> NOT_DELETED_ID -> 0 <= count <= zlen rows ->
  (forall r, r ∈ named_rows rows count -> 0 <= r < CAP) ->
  not_deleted_constant (get_chunk_info m idx) ->
  delete_rows m idx txn_id rows count = (n, rows', m') ->
  let fresh := fun i => i ∈ named_rows rows count /\ (stamps m (idx * CAP + i)).2 = NOT_DELETED_ID in
  n = Z.of_nat (size (list_to_set (filter fresh (named_rows rows count)) : gset Z)) /\
  (forall i, i ∈ take (Z.to_nat n) rows' <-> fresh i) /\
  (forall row, 0 <= row ->
     stamps m' row = ((stamps m row).1,
                      if decide (row / CAP = idx /\ fresh (row mod CAP)) then txn_id else (stamps m row).2)).
Proof.
  intros Hwf Hidx Hid Hc Hr Hconst Hdel fresh.
  by destruct (delete_rows_effect m idx txn_id rows count n rows' m' Hwf Hidx Hid Hc Hr Hconst Hdel) as [_ H].
Qed.

(** Aborting a delete undoes it: when the transaction had no mark in the table
    before, [revert_all_deletes] after [delete_rows] gives every row its stamps back,
    so every reader sees the table it saw before. *)
Theorem revert_undoes_delete s m idx txn_id rows :
  simulates s m -> spec.legal s (spec.Delete idx txn_id rows) ->
  (forall row, 0 <= row < spec.total s -> (stamps m row).2 <> txn_id) ->
  let m' := revert_all_deletes (delete_rows m idx txn_id rows (zlen rows)).2 txn_id in
  forall row, 0 <= row < spec.total s ->
    stamps m' row = stamps m row /\
    forall txn, reader txn -> fetch m' txn row = fetch m txn row.
Proof.
  intros Hsim Hleg Hnone m' row Hrow. pose proof Hleg as (_ & Hid & _).
  destruct (sim_delete s m idx txn_id rows Hsim Hleg) as (m1 & [= <-] & Hsim1).
  assert (Hst : stamps m' row = stamps m row).
  { specialize (Hnone row Hrow). rewrite (sim_stamps _ _ Hsim) in Hnone |- * by done.
    assert (Hsim2 : simulates (spec.step (spec.step s (spec.Delete idx txn_id rows)) (spec.RevertDeletes txn_id)) m').
    { unfold m'. rewrite revert_all_deletes_restamp. by apply (sim_restamp _ _ txn_id NOT_DELETED_ID _ Hsim1 Hid). }
    rewrite (sim_stamps _ _ Hsim2) by done. cbn -[decide].
    destruct (spec.row_stamps s row) as [ins del]. cbn -[decide] in *. f_equal.
    destruct (decide (_ /\ _)) as [(_ & _ & ->)|]; [by rewrite decide_True|]. by rewrite decide_False. }
  split; [done|]. intros txn Hr. by rewrite !fetch_visible, Hst by done.
Qed.

(** C27: The gate of [compact] is exact: [has_version_above] is false precisely when
    every row's insert stamp, and its delete stamp if it has one, is at or below the
    watermark.  Then every two readers that see all commits up to the watermark fetch
    the same rows, those without a delete mark. *)
Theorem has_version_above_gate m watermark count :
  coherent m count -> 0 <= watermark ->
  (forall row, 0 <= row < count -> 0 <= (stamps m row).1 /\ 0 <= (stamps m row).2) ->
  (has_version_above m watermark count = false <->
     forall row, 0 <= row < count -> settled watermark (stamps m row)) /\
  (has_version_above m watermark count = false ->
     forall txn row, reader txn -> sees_below txn watermark -> 0 <= row < count ->
       fetch m txn row = bool_decide ((stamps m row).2 = NOT_DELETED_ID)).
Proof.
  intros Hco Hw Hpos. split; [by apply gate_settled|]. intros Hgate txn row Hr Hb Hrow.
  rewrite fetch_visible by done. destruct (Hpos row Hrow). apply (settled_visible txn watermark); try done.
  by apply (gate_settled m watermark count).
Qed.

(** [committed_deleted_count] is the number of rows, among the first [count], whose
    delete stamp is a commit id. *)
Theorem committed_deleted_count_counts m count :
  0 <= count -> (forall idx, 0 <= idx -> hint_sound (get_chunk_info m idx)) ->
  committed_deleted_count m count = zlen (filter (committed_delete m) (seqZ 0 count)).
Proof.
  intros Hc Hh. pose proof CAP_pos. unfold committed_deleted_count, spans.
  set (k := (count + CAP - 1) / CAP). assert (Hk : 0 <= k) by (apply Z.div_pos; lia).
  pose proof (committed_deleted_count_fold m count (Z.to_nat k) Hh) as Hf.
  rewrite Z2Nat.id in Hf by done.
  assert (Hcover : count <= k * CAP /\ forall i, i < k -> i * CAP < count).
  { unfold k, DEFAULT_VECTOR_CAPACITY. split; [|intros i]; Z.div_mod_to_equations; lia. }
  rewrite Hf by (intros; apply Hcover; lia). by rewrite Z.min_l by lia.
Qed.

(** ** Cleaning up *)

Lemma vec_cleanup_no_deletes v lowest res :
  vec_wf v -> vec_coherent v CAP -> chunk_vector_info.cleanup v lowest = (true, res) ->
  (forall i, 0 <= i < CAP -> rd (chunk_vector_info.deleted v) i = NOT_DELETED_ID \/ lowest < rd (chunk_vector_info.deleted v) i) ->
  res = None /\ forall i, 0 <= i < CAP -> rd (chunk_vector_info.deleted v) i = NOT_DELETED_ID.
Proof.
  intros [_ Hwd] [_ Hh] Hc Hnd. pose proof CAP_pos. unfold chunk_vector_info.cleanup in Hc.
  destruct (negb _); [discriminate|]. destruct (chunk_vector_info.any_deleted v) eqn:Ha; [|split; [congruence|auto]].
  destruct (chunk_vector_info.cleanup_deletes _ _ _ _) as [[b mi]|] eqn:Hcd; [|discriminate].
  assert (Hall : forall i, 0 <= i < CAP -> rd (chunk_vector_info.deleted v) i = NOT_DELETED_ID).
  { intros i Hi. destruct (Hnd i Hi) as [?|Hlt]; [done|].
    destruct (decide (rd (chunk_vector_info.deleted v) i = NOT_DELETED_ID)) as [E|E]; [done|].
    assert (Hbad : chunk_vector_info.cleanup_deletes lowest (chunk_vector_info.deleted v) true NOT_DELETED_ID = None).
    { apply cleanup_deletes_spec, Exists_exists. exists (rd (chunk_vector_info.deleted v) i).
      split; [apply rd_elem_of; lia|]. split; [done|by right]. }
    congruence. }
  split; [|done]. apply cleanup_deletes_all in Hcd as ->. rewrite bool_decide_false in Hc; [cbn in Hc; congruence|].
  intros Hn. apply Hn. rewrite <- (Hall 0) by lia. apply rd_elem_of. lia.
Qed.

Lemma vector_end_full e idx : vector_end e idx = CAP -> 0 <= idx -> 0 < e < 2 ^ 64 -> idx * CAP < e -> (idx + 1) * CAP <= e.
Proof.
  unfold vector_end, end_vector_idx. intros Hv Hi He Hlt. rewrite wrap_small in Hv by (unfold in_width; lia).
  revert Hv. unfold DEFAULT_VECTOR_CAPACITY in *. case_bool_decide; intros Hv; Z.div_mod_to_equations; lia.
Qed.

(** Where no row carries a settled delete mark, [cleanup_append] is invisible: every
    reader that sees the commits up to the bound fetches exactly the rows it fetched
    before. *)
Theorem cleanup_append_invisible m lowest s count total txn row :
  mgr_wf m -> coherent m total -> 0 <= s -> 0 < count -> s + count <= total -> total < 2 ^ 64 ->
  reader txn -> sees_below txn lowest ->
  (forall row, 0 <= row < total -> 0 <= (stamps m row).1 /\
     ((stamps m row).2 = NOT_DELETED_ID \/ lowest < (stamps m row).2)) ->
  0 <= row < total -> fetch (cleanup_append m lowest s count) txn row = fetch m txn row.
Proof.
  intros Hwf Hco Hs Hc Hle Ht Hr Hb Hnd Hrow. destruct (row_split row) as (Hq & Hi & Heq); [lia|].
  rewrite !fetch_visible by done. unfold stamps. rewrite cleanup_append_at by lia.
  case_decide as Hin; [|done]. unfold cleaned. case_bool_decide as Hend; [|done].
  apply vector_end_full in Hend; [|lia|lia|apply elem_of_vectors_of in Hin; lia].
  assert (Hst : forall i, 0 <= i < CAP -> 0 <= (info_stamps (get_chunk_info m (row / CAP)) i).1 /\
      ((info_stamps (get_chunk_info m (row / CAP)) i).2 = NOT_DELETED_ID \/
       lowest < (info_stamps (get_chunk_info m (row / CAP)) i).2)).
  { intros i Hi'. specialize (Hnd (row / CAP * CAP + i) ltac:(nia)). unfold stamps in Hnd.
    by destruct (row_index (row / CAP) i Hi') as [Eq Em]; rewrite Eq, Em in Hnd. }
  specialize (Hco (row / CAP) Hq). replace (held total (row / CAP)) with CAP in Hco by (unfold held; lia).
  destruct (get_chunk_info m (row / CAP)) as [[c|v]|] eqn:Hg; [| |done]; cbn [chunk_info_ops.cleanup].
  - destruct (chunk_constant_info.cleanup c lowest) eqn:Hcl; [|done]. symmetry. rewrite visible_zero by done.
    destruct (Hst _ Hi) as [H1 H2]. cbn in *. unfold chunk_constant_info.cleanup in Hcl.
    assert (Hold : chunk_constant_info.insert_id c <= lowest /\ chunk_constant_info.delete_id c = NOT_DELETED_ID).
    { repeat case_bool_decide; cbn in Hcl; try done; split; try done; try lia; by destruct H2; [|lia]. }
    destruct Hold as [Hins Hdel]. unfold visible. cbn. rewrite Hb, Hdel by lia.
    destruct Hr as [_ _ Hm]. by rewrite Hm.
  - destruct (chunk_vector_info.cleanup v lowest) as [[] res] eqn:Hcl; [|done].
    pose proof (get_chunk_info_wf m _ _ Hwf Hg) as Hvw.
    destruct (vec_cleanup_no_deletes v lowest res Hvw Hco Hcl) as [-> Hdel]; [intros i Hi'; by apply Hst|].
    cbn. symmetry. rewrite visible_zero by done. unfold visible. cbn.
    pose proof (vec_cleanup_inserts v lowest None Hvw Hco Hcl _ Hi). destruct (Hst _ Hi) as [H1 _]. cbn in H1.
    rewrite Hb, Hdel by (done || lia). destruct Hr as [_ _ Hm]. by rewrite Hm.
Qed.

(** A vector whose rows are all settled and not all deleted loses its version info
    in [cleanup_append], so every row of it that was deleted and committed is visible
    to every reader again. *)
Theorem cleanup_append_resurrects m lowest s count idx v j :
  mgr_wf m -> 0 <= s -> 0 < count -> s + count < 2 ^ 64 ->
  idx ∈ vectors_of s (s + count) -> vector_end (s + count) idx = CAP ->
  get_chunk_info m idx = Some (VECTOR_INFO v) -> vec_coherent v CAP ->
  0 <= j < CAP -> rd (chunk_vector_info.deleted v) j = NOT_DELETED_ID ->
  (forall i, 0 <= i < CAP -> rd (chunk_vector_info.inserted v) i <= lowest /\
     (rd (chunk_vector_info.deleted v) i = NOT_DELETED_ID \/
      rd (chunk_vector_info.deleted v) i < TRANSACTION_ID_START /\ rd (chunk_vector_info.deleted v) i <= lowest)) ->
  forall txn i, reader txn -> 0 <= i < CAP -> use_version txn (rd (chunk_vector_info.deleted v) i) = true ->
    fetch m txn (idx * CAP + i) = false /\
    fetch (cleanup_append m lowest s count) txn (idx * CAP + i) = true.
Proof.
  intros Hwf Hs Hc He Hin Hend Hg Hco Hj Hjd Hall txn i Hr Hi Hseen. split.
  - rewrite fetch_entry, Hg by done. unfold visible. cbn. rewrite Hseen. apply andb_false_r.
  - apply dropped_visible; [done..|]. rewrite cleanup_append_at, decide_True by done.
    unfold cleaned. rewrite bool_decide_true, Hg by done. cbn.
    rewrite (vec_cleanup_drops v lowest j); [done|exact (get_chunk_info_wf m idx _ Hwf Hg)|done..].
Qed.

(** A vector that [cleanup_append] had reduced to one deleted constant entry loses
    even that entry at the next cleanup, and all its rows are visible again. *)
Theorem cleanup_append_drops_deleted_constant m lowest s count idx c :
  0 <= s -> 0 < count -> s + count < 2 ^ 64 ->
  idx ∈ vectors_of s (s + count) -> vector_end (s + count) idx = CAP ->
  get_chunk_info m idx = Some (CONSTANT_INFO c) ->
  chunk_constant_info.insert_id c <= lowest -> chunk_constant_info.delete_id c <= lowest ->
  forall txn i, reader txn -> 0 <= i < CAP -> use_version txn (chunk_constant_info.delete_id c) = true ->
    fetch m txn (idx * CAP + i) = false /\
    fetch (cleanup_append m lowest s count) txn (idx * CAP + i) = true.
Proof.
  intros Hs Hc He Hin Hend Hg Hi1 Hd1 txn i Hr Hi Hseen. split.
  - rewrite fetch_entry, Hg by done. unfold visible. cbn. rewrite Hseen. apply andb_false_r.
  - apply dropped_visible; [done..|]. rewrite cleanup_append_at, decide_True by done.
    unfold cleaned. rewrite bool_decide_true, Hg by done. cbn. unfold chunk_constant_info.cleanup.
    rewrite (bool_decide_false (lowest < chunk_constant_info.insert_id c)) by lia.
    rewrite (bool_decide_false (lowest < chunk_constant_info.delete_id c)) by lia. by rewrite andb_false_r.
Qed.

Lemma as_vector_constant_fold c first_row txn_id rows count i :
  txn_id <> NOT_DELETED_ID -> 0 <= count <= zlen rows ->
  (forall r, r ∈ named_rows rows count -> 0 <= r < CAP) -> 0 <= i < CAP -> i ∉ named_rows rows count ->
  info_stamps (Some (VECTOR_INFO (chunk_vector_info.delete_rows
    (as_vector first_row (Some (CONSTANT_INFO c))) txn_id rows count).2)) i =
  (chunk_constant_info.insert_id c, NOT_DELETED_ID).
Proof.
  intros Hid Hc Hrange Hi Hni. pose proof CAP_pos. unfold chunk_vector_info.delete_rows.
  pose proof (delete_fold txn_id (replicate (Z.to_nat CAP) NOT_DELETED_ID) rows (Z.to_nat count) Hid) as Hf.
  rewrite Z2Nat.id, zlen_replicate in Hf by lia. specialize (Hf ltac:(lia) Hrange).
  cbn [as_vector chunk_vector_info.deleted chunk_vector_info.new].
  destruct (foldl _ _ _) as [[k rows1] deleted1]. destruct Hf as (_ & _ & _ & _ & _ & _ & Hd).
  cbn. rewrite rd_replicate, Hd by done. rewrite decide_False, rd_replicate; [done|done|].
  rewrite elem_of_fresh_deletes. tauto.
Qed.

(** [delete_rows] on a vector held as one deleted constant entry expands the entry
    without its delete stamp: every row the call does not name, although deleted and
    committed before, is visible again to the readers of its insert. *)
Theorem delete_rows_resurrects_constant m idx txn_id rows count c :
  0 <= idx -> get_chunk_info m idx = Some (CONSTANT_INFO c) ->
  txn_id <> NOT_DELETED_ID -> 0 <= count <= zlen rows ->
  (forall r, r ∈ named_rows rows count -> 0 <= r < CAP) ->
  forall txn i, reader txn -> 0 <= i < CAP -> i ∉ named_rows rows count ->
    use_version txn (chunk_constant_info.insert_id c) = true ->
    use_version txn (chunk_constant_info.delete_id c) = true ->
    fetch m txn (idx * CAP + i) = false /\
    fetch (delete_rows m idx txn_id rows count).2 txn (idx * CAP + i) = true.
Proof.
  intros Hidx Hg Hid Hc Hrange txn i Hr Hi Hni Hins Hdel. rewrite !fetch_entry by done. rewrite Hg. split.
  - unfold visible. cbn. rewrite Hdel. apply andb_false_r.
  - unfold delete_rows. destruct (vector_info_at m idx Hidx) as (Hlen & Hv & _).
    destruct (vector_info m idx) as [v infos]. cbn [fst snd] in *.
    rewrite <- get_chunk_info_at, Hg in Hv.
    pose proof (as_vector_constant_fold c (start_ m + idx * CAP) txn_id rows count i Hid Hc Hrange Hi Hni) as Hst.
    rewrite <- Hv in Hst. destruct (chunk_vector_info.delete_rows v txn_id rows count) as [[k rows1] v1].
    cbn [snd] in *. rewrite get_chunk_info_at. cbn [vector_info_]. rewrite at_zset, decide_True by (done || lia).
    rewrite Hst. unfold visible. cbn. destruct Hr as [_ _ Hm]. by rewrite Hins, Hm.
Qed.

(** ** The theorems at concrete inputs *)

Lemma ex_ops_legal : spec.legal_all spec.empty ex_ops.
Proof.
  unfold ex_ops, T1, T2. cbn -[Z.pow TRANSACTION_ID_START NOT_DELETED_ID DEFAULT_VECTOR_CAPACITY].
  split_and!; try lia; try set_solver; try (vm_compute; congruence);
    repeat constructor; vm_compute; congruence.
Qed.

Lemma version_info_refines_witness :
  exists m, run spec.empty (row_version_manager.new 0) ex_ops = Ok m /\
    fetch m see_all 0 = true /\ fetch m see_all 1 = false.
Proof.
  destruct (version_info_refines 0 ex_ops ex_ops_legal) as (m & Hrun & H). exists m. split; [exact Hrun|].
  split; [destruct (H 0) as [_ ->] | destruct (H 1) as [_ ->]];
    first [apply see_all_reader | vm_compute; split; congruence | vm_compute; reflexivity].
Defined.

Lemma all_below (P : Z -> Prop) `{!forall i, Decision (P i)} n :
  forallb (fun i => bool_decide (P i)) (seqZ 0 n) = true -> forall i, 0 <= i < n -> P i.
Proof.
  rewrite forallb_forall. intros Hall i Hi. apply (bool_decide_eq_true_1 _). apply Hall, list_elem_of_In, elem_of_seqZ. lia.
Qed.

Lemma ex_txn_ops_legal : txn_legal_all spec.empty ex_txn_ops.
Proof.
  unfold ex_txn_ops. cbn -[Z.pow TRANSACTION_ID_START NOT_DELETED_ID DEFAULT_VECTOR_CAPACITY T1 T2].
  split_and!; try lia; try set_solver; try (vm_compute; congruence);
    try (repeat constructor; vm_compute; congruence).
  intros row Hrow. rewrite !Exists_cons, Exists_nil. cbn -[T1 decide].
  repeat (case_decide; cbn -[T1]); split; intros; first [lia | done].
Qed.

Lemma ex_mgr_run :
  run spec.empty (row_version_manager.new 0) (expand_all ex_txn_ops) = Ok ex_mgr /\
  simulates (foldl spec.step spec.empty (expand_all ex_txn_ops)) ex_mgr /\ coherent ex_mgr 5.
Proof.
  destruct (txn_run_sim ex_txn_ops _ _ (simulates_new 0) (coherent_new 0) ex_txn_ops_legal) as (m & Hrun & Hsim & Hco).
  unfold ex_mgr. rewrite Hrun. done.
Qed.

Lemma scan_selects_fetched_witness :
  exists m, run spec.empty (row_version_manager.new 0) (expand_all ex_txn_ops) = Ok m /\
    selected (indexing_vector m see_all 0 (seqZ 0 1024) 5) 5 =
    filter (fun i => fetch m see_all (0 * CAP + i)) (seqZ 0 5).
Proof.
  destruct (scan_selects_fetched 0 ex_txn_ops ex_txn_ops_legal) as (m & Hrun & H). exists m. split; [exact Hrun|].
  apply (H see_all 0); [apply see_all_reader | lia | vm_compute; split; congruence].
Defined.

Lemma delete_rows_marks_witness :
  (delete_rows ex_mgr 0 T2 [2; 1; 2] 3).1.1 = 1 /\
  stamps (delete_rows ex_mgr 0 T2 [2; 1; 2] 3).2 2 = (5, T2).
Proof.
  destruct ex_mgr_run as (_ & Hsim & _).
  destruct (delete_rows_marks ex_mgr 0 T2 [2; 1; 2] 3 _ _ _ (sim_wf _ _ Hsim) ltac:(lia) ltac:(vm_compute; congruence)
    ltac:(vm_compute; split; congruence)
    ltac:(intros r Hr; revert r Hr; apply (proj1 (Forall_forall _ _)); repeat constructor; vm_compute; congruence)
    ltac:(vm_compute; exact I)
    (eq_trans (surjective_pairing _) (f_equal2 pair (surjective_pairing _) eq_refl))) as (Hn & _ & Hst).
  split; [rewrite Hn; vm_compute; reflexivity | rewrite Hst by lia; vm_compute; reflexivity].
Defined.

Lemma revert_undoes_delete_witness :
  fetch (revert_all_deletes (delete_rows ex_mgr 0 T1 [0; 2] 2).2 T1) see_all 2 = fetch ex_mgr see_all 2.
Proof.
  destruct ex_mgr_run as (_ & Hsim & _).
  apply (revert_undoes_delete _ ex_mgr 0 T1 [0; 2] Hsim).
  - split_and!; [lia | vm_compute; congruence | repeat constructor; vm_compute; congruence].
  - change (spec.total _) with 5. apply (all_below (fun row => (stamps ex_mgr row).2 <> T1)). vm_compute. reflexivity.
  - change (spec.total _) with 5. lia.
  - apply see_all_reader.
Defined.

Lemma has_version_above_gate_witness :
  has_version_above ex_mgr 7 5 = false /\ fetch ex_mgr see_all 4 = false.
Proof.
  destruct ex_mgr_run as (_ & _ & Hco).
  assert (Hgate : has_version_above ex_mgr 7 5 = false) by (vm_compute; reflexivity).
  split; [exact Hgate|].
  rewrite (proj2 (has_version_above_gate ex_mgr 7 5 Hco ltac:(lia)
    ltac:(apply (all_below (fun row => 0 <= (stamps ex_mgr row).1 /\ 0 <= (stamps ex_mgr row).2)); vm_compute; reflexivity))
    Hgate see_all 4 see_all_reader (see_all_below 7 eq_refl) ltac:(lia)).
  vm_compute. reflexivity.
Defined.

Lemma committed_deleted_count_counts_witness :
  committed_deleted_count ex_mgr 5 = 2.
Proof.
  destruct ex_mgr_run as (_ & Hsim & _).
  rewrite (committed_deleted_count_counts ex_mgr 5 ltac:(lia) (sim_hint _ _ Hsim)). vm_compute. reflexivity.
Defined.

(** 2000 rows committed at 5, none deleted. *)
Definition ex_clean_ops : list txn_op := [Basic (spec.Append T1 2000); CommitTxn T1 5 [(0, 2000)]].

Definition ex_clean : row_version_manager.t :=
  force (row_version_manager.new 0) (run spec.empty (row_version_manager.new 0) (expand_all ex_clean_ops)).

Lemma ex_clean_legal : txn_legal_all spec.empty ex_clean_ops.
Proof.
  unfold ex_clean_ops. cbn -[Z.pow TRANSACTION_ID_START NOT_DELETED_ID DEFAULT_VECTOR_CAPACITY T1 T2].
  split_and!; try lia; try set_solver; try (vm_compute; congruence).
  intros row Hrow. rewrite !Exists_cons, Exists_nil. cbn -[T1 decide].
  rewrite decide_True by lia. split; [intros _; left; lia|done].
Qed.

Lemma ex_clean_run : simulates (foldl spec.step spec.empty (expand_all ex_clean_ops)) ex_clean /\ coherent ex_clean 2000.
Proof.
  destruct (txn_run_sim ex_clean_ops _ _ (simulates_new 0) (coherent_new 0) ex_clean_legal) as (m & Hrun & Hsim & Hco).
  unfold ex_clean. rewrite Hrun. done.
Qed.

Lemma cleanup_append_invisible_witness :
  fetch (cleanup_append ex_clean 10 0 2000) see_all 1000 = fetch ex_clean see_all 1000.
Proof.
  destruct ex_clean_run as [Hsim Hco].
  apply (cleanup_append_invisible ex_clean 10 0 2000 2000 see_all 1000);
    [apply Hsim | exact Hco | lia | lia | lia | lia | apply see_all_reader | by apply see_all_below | | lia].
  intros row Hrow. rewrite (sim_stamps _ _ Hsim) by (change (spec.total _) with 2000; lia).
  cbn -[decide]. rewrite !decide_True by lia. cbn. split; [lia|by left].
Defined.

Definition ex_full_vector : vector_t :=
  match get_chunk_info ex_full 0 with Some (VECTOR_INFO v) => v | _ => chunk_vector_info.new 0 end.

Lemma forallb_wf (l : list (option chunk_info)) :
  forallb (fun o => match o with
                    | Some (VECTOR_INFO v) =>
                        bool_decide (zlen (chunk_vector_info.inserted v) = CAP)
                        && bool_decide (zlen (chunk_vector_info.deleted v) = CAP)
                    | _ => true end) l = true -> Forall info_wf l.
Proof.
  rewrite forallb_forall, Forall_forall. intros H o Ho%list_elem_of_In. specialize (H o Ho).
  destruct o as [[c|v]|]; try done. split_bools. by split.
Qed.

Lemma cleanup_append_resurrects_witness :
  fetch ex_full see_all (0 * CAP + 3) = false /\
  fetch (cleanup_append ex_full 10 0 1024) see_all (0 * CAP + 3) = true.
Proof.
  apply (cleanup_append_resurrects ex_full 10 0 1024 0 ex_full_vector 0).
  - apply forallb_wf. vm_compute. reflexivity.
  - lia.
  - lia.
  - lia.
  - apply (bool_decide_unpack _). vm_compute. exact I.
  - vm_compute. reflexivity.
  - vm_compute. reflexivity.
  - split; [intros _|intros H; vm_compute in H; discriminate].
    apply (all_below (fun i => rd (chunk_vector_info.inserted ex_full_vector) i = chunk_vector_info.insert_id ex_full_vector)).
    vm_compute. reflexivity.
  - vm_compute. split; congruence.
  - vm_compute. reflexivity.
  - apply (all_below (fun i => rd (chunk_vector_info.inserted ex_full_vector) i <= 10 /\
     (rd (chunk_vector_info.deleted ex_full_vector) i = NOT_DELETED_ID \/
      rd (chunk_vector_info.deleted ex_full_vector) i < TRANSACTION_ID_START /\
      rd (chunk_vector_info.deleted ex_full_vector) i <= 10))).
    vm_compute. reflexivity.
  - apply see_all_reader.
  - vm_compute. split; congruence.
  - vm_compute. reflexivity.
Defined.

Definition ex_gone_constant : constant_t :=
  match get_chunk_info ex_gone 0 with Some (CONSTANT_INFO c) => c | _ => chunk_constant_info.new 0 end.

Lemma cleanup_append_drops_deleted_constant_witness :
  fetch ex_gone see_all (0 * CAP + 3) = false /\
  fetch (cleanup_append ex_gone 10 0 1024) see_all (0 * CAP + 3) = true.
Proof.
  apply (cleanup_append_drops_deleted_constant ex_gone 10 0 1024 0 ex_gone_constant);
    [lia | lia | lia | apply (bool_decide_unpack _); vm_compute; exact I | vm_compute; reflexivity
    | vm_compute; reflexivity | vm_compute; congruence | vm_compute; congruence | apply see_all_reader
    | vm_compute; split; congruence | vm_compute; reflexivity].
Defined.

Lemma delete_rows_resurrects_constant_witness :
  fetch ex_gone see_all (0 * CAP + 3) = false /\
  fetch (delete_rows ex_gone 0 T2 [7] 1).2 see_all (0 * CAP + 3) = true.
Proof.
  apply (delete_rows_resurrects_constant ex_gone 0 T2 [7] 1 ex_gone_constant);
    [lia | vm_compute; reflexivity | vm_compute; congruence | vm_compute; split; congruence | |
     apply see_all_reader | vm_compute; split; congruence | | vm_compute; reflexivity | vm_compute; reflexivity].
  - intros r Hr. change (named_rows [7] 1) with [7] in Hr. apply list_elem_of_singleton in Hr as ->. vm_compute. split; congruence.
  - change (named_rows [7] 1) with [7]. intros H%list_elem_of_singleton. lia.
Defined.
