(* ===== verification/Collection.v ===== *)
(** * Row groups and the collection of a table

    Translates, from src/components/table/, the version-info side of [row_group_t]
    (row_group.cpp), [collection_t] (collection.cpp), the segment search of
    [segment_tree_t] (segment_tree.hpp), the scan loop of [collection_scan_state]
    (table_state.cpp) and the gate of [data_table_t::compact] (data_table.cpp).

    The columns of a row group are left out: an append is the number of rows it adds and
    a scan is the list of row ids it delivers. Row groups are the ones a running table
    creates, so [deletes_pointers_] is empty and [version_info()] is the stored pointer.
    Scans have no filter, so no zone map prunes a vector. *)

From S2P Require Import Prelude.
From S2P Require Import Visibility.
From S2P Require Import RowVersion.
#[local] Open Scope Z_scope.

(** ** Segments *)

Module segment_tree.
(** [try_segment_index]: binary search over [(row_start, count)] with 64-bit unsigned
    bounds, so [index - 1] at index 0 wraps; [None] is the [false] result. Each turn
    halves the range, so 64 turns and one more are enough for any number of nodes; an
    index past the end is the out-of-range access it is. *)
Fixpoint search (fuel : nat) (nodes : list (Z * Z)) (row_number lower upper : Z) : outcome (option Z) :=
  match fuel with
  | O => Fault OutOfFuel
  | S fuel =>
      if bool_decide (lower <= upper) then
        let index := u64 (lower + upper) / 2 in
        match nodes !!z index with
        | None => Fault OutOfBounds
        | Some (row_start, count) =>
            if bool_decide (row_number < row_start) then search fuel nodes row_number lower (u64 (index - 1))
            else if bool_decide (row_start + count <= row_number) then search fuel nodes row_number (u64 (index + 1)) upper
            else Ok (Some index)
        end
      else Ok None
  end.

Definition try_segment_index (nodes : list (Z * Z)) (row_number : Z) : outcome (option Z) :=
  match nodes with
  | [] => Ok None
  | _ => search 66 nodes row_number 0 (zlen nodes - 1)
  end.

(** [segment_index] throws when the row is in no segment. *)
Definition segment_index (nodes : list (Z * Z)) (row_number : Z) : outcome Z :=
  r ← try_segment_index nodes row_number;
  match r with
  | Some index => Ok index
  | None => Fault (Throw 1)
  end.
End segment_tree.

(** ** Row groups *)

Module row_group.
Record t := Make {
  start : Z;
  count : Z;
  version_info : option row_version_manager.t;
  current_version_ : Z;
}.

Definition new (start : Z) : t := Make start 0 None 0.

Definition get_or_create_version_info (g : t) : row_version_manager.t :=
  match version_info g with
  | Some m => m
  | None => row_version_manager.new (start g)
  end.

Definition with_version (g : t) (m : row_version_manager.t) : t :=
  Make (start g) (count g) (Some m) (current_version_ g).

Definition append_version_info (row_group_size : Z) (g : t) (txn : transaction_data) (n : Z) : outcome t :=
  let row_group_start := count g in
  let row_group_end :=
    if bool_decide (row_group_size < row_group_start + n) then row_group_size else row_group_start + n in
  m ← row_version_manager.append_version_info (get_or_create_version_info g) txn n row_group_start row_group_end;
  mret (Make (start g) row_group_end (Some m) (current_version_ g)).

Definition commit_append (g : t) (commit_id row_group_start n : Z) : outcome t :=
  info ← match version_info g with
         | Some m => Some <$> row_version_manager.commit_append m commit_id row_group_start n
         | None => Ok None
         end;
  mret (Make (start g) (count g) info
          (if bool_decide (current_version_ g < commit_id) then commit_id else current_version_ g)).

Definition revert_append (g : t) (row_group_start : Z) : t :=
  Make (start g) (if bool_decide (row_group_start < count g) then row_group_start else count g)
    ((fun m => row_version_manager.revert_append m row_group_start) <$> version_info g)
    (current_version_ g).

Definition committed_row_count (g : t) : Z :=
  match version_info g with
  | Some m => u64 (count g - row_version_manager.committed_deleted_count m (count g))
  | None => count g
  end.

Definition has_version_above (g : t) (watermark : Z) : bool :=
  match version_info g with
  | Some m => row_version_manager.has_version_above m watermark (count g)
  | None => false
  end.

(** The overload for deletes outside a transaction. *)
Definition delete_rows_now (g : t) (vector_idx : Z) (rows : list Z) (n : Z) : Z * t :=
  let delete_id := u64 (current_version_ g + 1) in
  let '(deleted, _, m) :=
    row_version_manager.delete_rows (get_or_create_version_info g) vector_idx delete_id rows n in
  (deleted, Make (start g) (count g) (Some m) (u64 (delete_id + 1))).

Definition commit_all_deletes (g : t) (txn_id commit_id : Z) : t :=
  Make (start g) (count g)
    ((fun m => row_version_manager.commit_all_deletes m txn_id commit_id) <$> version_info g)
    (if bool_decide (current_version_ g <= commit_id) then u64 (commit_id + 1) else current_version_ g).

Definition revert_all_deletes (g : t) (txn_id : Z) : t :=
  Make (start g) (count g)
    ((fun m => row_version_manager.revert_all_deletes m txn_id) <$> version_info g) (current_version_ g).

Definition indexing_vector (g : t) (txn : transaction_data) (vector_idx : Z) (iv : list Z) (max_count : Z) : Z * list Z :=
  match version_info g with
  | None => (max_count, iv)
  | Some m => row_version_manager.indexing_vector m txn vector_idx iv max_count
  end.

(** [version_delete_state]: the rows of one vector collected so far. *)
Record delete_state := DeleteState {
  info : t;
  current_chunk : Z;
  current_version : Z;
  rows : list Z;
  delete_count : Z;
  is_txn_ : bool;
}.

Definition flush (s : delete_state) : delete_state :=
  match rows s with
  | [] => s
  | _ =>
      let n := zlen (rows s) in
      let '(actual_delete_count, g) :=
        if is_txn_ s then
          let '(d, _, m) :=
            row_version_manager.delete_rows (get_or_create_version_info (info s)) (current_chunk s)
              (current_version s) (rows s) n in
          (d, with_version (info s) m)
        else delete_rows_now (info s) (current_chunk s) (rows s) n in
      DeleteState g (current_chunk s) (current_version s) [] (delete_count s + actual_delete_count) (is_txn_ s)
  end.

(** [rows] is an array of [DEFAULT_VECTOR_CAPACITY] entries. *)
Definition delete_row (s : delete_state) (row_id : Z) : outcome delete_state :=
  let vector_idx := row_id / DEFAULT_VECTOR_CAPACITY in
  let idx_in_vector := row_id - vector_idx * DEFAULT_VECTOR_CAPACITY in
  let s := if negb (bool_decide (current_chunk s = vector_idx)) then
             let s := flush s in
             DeleteState (info s) vector_idx (current_version s) (rows s) (delete_count s) (is_txn_ s)
           else s in
  if bool_decide (DEFAULT_VECTOR_CAPACITY <= zlen (rows s)) then Fault OutOfBounds
  else Ok (DeleteState (info s) (current_chunk s) (current_version s) (rows s ++ [idx_in_vector])
             (delete_count s) (is_txn_ s)).

Definition delete_rows (g : t) (ids : list Z) (transaction_id : Z) : outcome (Z * t) :=
  s ← row_version_manager.loop delete_row
        (DeleteState g UINT64_MAX transaction_id [] 0 (negb (bool_decide (transaction_id = 0)))) ids;
  let s := flush s in
  mret (delete_count s, info s).
End row_group.

Abbreviation row_group_t := row_group.t.

(** ** The collection *)

Module collection.
Record t := Make {
  row_group_size_ : Z;
  total_rows_ : Z;
  row_start_ : Z;
  row_groups_ : list row_group_t;
}.

Definition new (row_group_size row_start : Z) : t := Make row_group_size 0 row_start [].

Definition with_groups (c : t) (gs : list row_group_t) : t :=
  Make (row_group_size_ c) (total_rows_ c) (row_start_ c) gs.

Definition append_row_group (c : t) (start_row : Z) : t := with_groups c (row_groups_ c ++ [row_group.new start_row]).

(** [table_append_state]: the index of [start_row_group], of the row group the columns
    are being appended to, and the rows it will hold. *)
Record append_state := AppendState {
  row_start : Z;
  current_row : Z;
  total_append_count : Z;
  start_row_group : Z;
  current_row_group : Z;
  offset_in_row_group : Z;
}.

Definition last_index (c : t) : Z := zlen (row_groups_ c) - 1.

Definition initialize_append (c : t) : outcome (append_state * t) :=
  let c := match row_groups_ c with [] => append_row_group c (row_start_ c) | _ => c end in
  g ← of_option NullDeref (row_groups_ c !!z last_index c);
  mret (AppendState (total_rows_ c) (total_rows_ c) 0 (last_index c) (last_index c) (row_group.count g), c).

(** The loop of [append]: fill the current row group, open the next one. One turn takes
    at least one row unless the group is full, and the next group is empty. *)
Fixpoint append_loop (fuel : nat) (c : t) (s : append_state) (remaining : Z) : outcome (append_state * t) :=
  match fuel with
  | O => Fault OutOfFuel
  | S fuel =>
      g ← of_option NullDeref (row_groups_ c !!z current_row_group s);
      let append_count := Z.min remaining (row_group_size_ c - offset_in_row_group s) in
      let offset := offset_in_row_group s + append_count in
      let remaining := remaining - append_count in
      if bool_decide (remaining = 0) then
        Ok (AppendState (row_start s) (current_row s) (total_append_count s) (start_row_group s)
              (current_row_group s) offset, c)
      else
        let c := append_row_group c (row_group.start g + offset) in
        append_loop fuel c
          (AppendState (row_start s) (current_row s) (total_append_count s) (start_row_group s)
             (last_index c) 0) remaining
  end.

Definition append (c : t) (s : append_state) (n : Z) : outcome (append_state * t) :=
  '(s, c) ← append_loop (Z.to_nat n + 2) c
              (AppendState (row_start s) (current_row s) (total_append_count s + n) (start_row_group s)
                 (current_row_group s) (offset_in_row_group s)) n;
  mret (AppendState (row_start s) (current_row s + n) (total_append_count s) (start_row_group s)
          (current_row_group s) (offset_in_row_group s), c).

(** [finalize_append] walks the row groups from [start_row_group] on. *)
Fixpoint finalize_groups (row_group_size : Z) (txn : transaction_data) (remaining : Z) (gs : list row_group_t) :
    outcome (list row_group_t) :=
  if bool_decide (remaining <= 0) then Ok gs
  else
    match gs with
    | [] => Fault NullDeref
    | g :: gs =>
        let append_count := Z.min remaining (u64 (row_group_size - row_group.count g)) in
        g' ← row_group.append_version_info row_group_size g txn append_count;
        gs' ← finalize_groups row_group_size txn (remaining - append_count) gs;
        mret (g' :: gs')
    end.

Definition finalize_append (c : t) (s : append_state) (txn : transaction_data) : outcome t :=
  let k := Z.to_nat (start_row_group s) in
  gs ← finalize_groups (row_group_size_ c) txn (total_append_count s) (drop k (row_groups_ c));
  mret (Make (row_group_size_ c) (total_rows_ c + total_append_count s) (row_start_ c)
          (take k (row_groups_ c) ++ gs)).

Definition group_end (g : row_group_t) : Z := row_group.start g + row_group.count g.

Fixpoint commit_groups (commit_id row_start n : Z) (gs : list row_group_t) : outcome (list row_group_t) :=
  match gs with
  | [] => Ok []
  | g :: gs =>
      if bool_decide (row_start + n <= row_group.start g) then Ok (g :: gs)
      else if bool_decide (group_end g <= row_start) then
        gs' ← commit_groups commit_id row_start n gs; mret (g :: gs')
      else
        let local_start := Z.max 0 (row_start - row_group.start g) in
        let local_end := Z.min (row_group.count g) (u64 (row_start + n - row_group.start g)) in
        g' ← row_group.commit_append g commit_id local_start (u64 (local_end - local_start));
        gs' ← commit_groups commit_id row_start n gs;
        mret (g' :: gs')
  end.

Definition commit_append (c : t) (commit_id row_start n : Z) : outcome t :=
  gs ← commit_groups commit_id row_start n (row_groups_ c);
  mret (with_groups c gs).

Fixpoint revert_groups (row_start n : Z) (gs : list row_group_t) : list row_group_t :=
  match gs with
  | [] => []
  | g :: gs =>
      if bool_decide (group_end g <= row_start) then g :: revert_groups row_start n gs
      else if bool_decide (row_start + n <= row_group.start g) then g :: gs
      else row_group.revert_append g (Z.max 0 (row_start - row_group.start g)) :: revert_groups row_start n gs
  end.

Definition revert_append (c : t) (row_start n : Z) : t :=
  Make (row_group_size_ c) (if bool_decide (n <= total_rows_ c) then total_rows_ c - n else 0) (row_start_ c)
    (revert_groups row_start n (row_groups_ c)).

Definition commit_all_deletes (c : t) (txn_id commit_id : Z) : t :=
  with_groups c ((fun g => row_group.commit_all_deletes g txn_id commit_id) <$> row_groups_ c).

Definition revert_all_deletes (c : t) (txn_id : Z) : t :=
  with_groups c ((fun g => row_group.revert_all_deletes g txn_id) <$> row_groups_ c).

Definition committed_row_count (c : t) : Z :=
  foldl (fun total g => u64 (total + row_group.committed_row_count g)) 0 (row_groups_ c).

Definition has_version_above (c : t) (watermark : Z) : bool :=
  existsb (fun g => row_group.has_version_above g watermark) (row_groups_ c).

Definition cleanup_versions (c : t) (lowest_active_start_time : Z) : t :=
  with_groups c
    ((fun g => if bool_decide (0 < row_group.count g) then
                 row_group.with_version g
                   (row_version_manager.cleanup_append (row_group.get_or_create_version_info g)
                      lowest_active_start_time 0 (row_group.count g))
               else g) <$> row_groups_ c).

Definition nodes (c : t) : list (Z * Z) := (fun g => (row_group.start g, row_group.count g)) <$> row_groups_ c.

(** The ids that follow in the same row group. *)
Fixpoint span (first last : Z) (ids : list Z) : list Z * list Z :=
  match ids with
  | [] => ([], [])
  | i :: rest =>
      if bool_decide (i < first) || bool_decide (last <= i) then ([], ids)
      else let '(a, b) := span first last rest in (i :: a, b)
  end.

Fixpoint delete_loop (fuel : nat) (c : t) (ids : list Z) (transaction_id delete_count : Z) : outcome (Z * t) :=
  match fuel, ids with
  | O, _ => Fault OutOfFuel
  | S fuel, [] => Fault OutOfBounds
  | S fuel, i :: rest =>
      k ← segment_tree.segment_index (nodes c) i;
      g ← of_option OutOfBounds (row_groups_ c !!z k);
      let '(same, later) := span (row_group.start g) (group_end g) rest in
      '(d, g') ← row_group.delete_rows g (i :: same) transaction_id;
      let c' := with_groups c (zset k g' (row_groups_ c)) in
      match later with
      | [] => Ok (delete_count + d, c')
      | _ => delete_loop fuel c' later transaction_id (delete_count + d)
      end
  end.

(** One turn of the loop takes at least one id. *)
Definition delete_rows (c : t) (ids : list Z) (transaction_id : Z) : outcome (Z * t) :=
  delete_loop (length ids + 1) c ids transaction_id 0.

(** *** Scanning *)

(** [collection_scan_state], with the row ids written to the result so far. *)
Record scan_state := ScanState {
  vector_index : Z;
  max_row_group_row : Z;
  max_row : Z;
  valid_indexing : list Z;
  txn : transaction_data;
  row_ids : list Z;
}.

Definition group_rows (g : row_group_t) (max_row : Z) : Z :=
  if bool_decide (max_row < row_group.start g) then 0 else Z.min (row_group.count g) (max_row - row_group.start g).

(** [row_group_t::initialize_scan_with_offset] starts the group at [vector_offset];
    [row_group_t::initialize_scan] adds the group's rows to those already passed. *)
Definition group_scan_with_offset (g : row_group_t) (s : scan_state) (vector_offset : Z) : bool * scan_state :=
  let m := group_rows g (max_row s) in
  (negb (bool_decide (m = 0)), ScanState vector_offset m (max_row s) (valid_indexing s) (txn s) (row_ids s)).

Definition group_initialize_scan (g : row_group_t) (s : scan_state) : bool * scan_state :=
  let m := max_row_group_row s + group_rows g (max_row s) in
  (negb (bool_decide (m = 0)), ScanState (vector_index s) m (max_row s) (valid_indexing s) (txn s) (row_ids s)).

(** [templated_scan<REGULAR>]: skip vectors without visible rows, deliver one. *)
Fixpoint templated_scan (fuel : nat) (g : row_group_t) (s : scan_state) : outcome scan_state :=
  match fuel with
  | O => Fault OutOfFuel
  | S fuel =>
      if bool_decide (max_row_group_row s <= vector_index s * DEFAULT_VECTOR_CAPACITY) then Ok s
      else
        let current_row := vector_index s * DEFAULT_VECTOR_CAPACITY in
        let max_count := Z.min DEFAULT_VECTOR_CAPACITY (max_row_group_row s - current_row) in
        let '(count, iv) := row_group.indexing_vector g (txn s) (vector_index s) (valid_indexing s) max_count in
        if bool_decide (count = 0) then
          templated_scan fuel g
            (ScanState (vector_index s + 1) (max_row_group_row s) (max_row s) iv (txn s) (row_ids s))
        else
          let iv := if bool_decide (count = max_count) then seqZ 0 DEFAULT_VECTOR_CAPACITY else iv in
          Ok (ScanState (vector_index s + 1) (max_row_group_row s) (max_row s) iv (txn s)
                (row_ids s ++ ((fun i => current_row + rd iv i) <$> seqZ 0 count)))
  end.

(** The vectors left in the current row group, and one turn more. *)
Definition vectors_left (s : scan_state) : nat := Z.to_nat (max_row_group_row s / DEFAULT_VECTOR_CAPACITY + 2).

(** [while (row_group) row_group->scan(..)] until the group is exhausted. *)
Fixpoint scan_group (fuel : nat) (g : row_group_t) (s : scan_state) : outcome scan_state :=
  match fuel with
  | O => Fault OutOfFuel
  | S fuel =>
      s ← templated_scan (vectors_left s) g s;
      if bool_decide (max_row_group_row s <= vector_index s * DEFAULT_VECTOR_CAPACITY) then Ok s
      else scan_group fuel g s
  end.

(** [collection_scan_state::scan]; [current] is the group being scanned, if any, and
    [gs] the ones after it. *)
Fixpoint scan_from (current : option row_group_t) (gs : list row_group_t) (s : scan_state) : outcome scan_state :=
  s ← match current with
      | Some g => scan_group (vectors_left s) g s
      | None => Ok s
      end;
  let finished := match current with Some g => bool_decide (max_row s <= group_end g) | None => false end in
  if finished : bool then Ok s
  else
    match gs with
    | [] => Ok s
    | g :: gs =>
        if bool_decide (max_row s <= row_group.start g) then Ok s
        else
          let '(ready, s) := group_initialize_scan g s in
          scan_from (if ready : bool then Some g else None) gs s
    end.

Definition fresh_scan (c : t) (transaction : transaction_data) (end_row : Z) : scan_state :=
  ScanState 0 0 end_row (seqZ 0 DEFAULT_VECTOR_CAPACITY) transaction [].

(** A whole-table scan: [initialize_scan] takes the first group with rows. *)
Definition scan (c : t) (transaction : transaction_data) : outcome (list Z) :=
  row_ids <$> (fix go (gs : list row_group_t) (s : scan_state) : outcome scan_state :=
    match gs with
    | [] => Ok s
    | g :: gs =>
        let '(ready, s) := group_initialize_scan g s in
        if ready : bool then scan_from (Some g) gs s else go gs s
    end) (row_groups_ c) (fresh_scan c transaction (row_start_ c + total_rows_ c)).

(** A scan of rows [start_row, end_row). *)
Definition scan_with_offset (c : t) (transaction : transaction_data) (start_row end_row : Z) : outcome (list Z) :=
  k ← segment_tree.segment_index (nodes c) start_row;
  g ← of_option OutOfBounds (row_groups_ c !!z k);
  let '(ready, s) :=
    group_scan_with_offset g (fresh_scan c transaction end_row) ((start_row - row_group.start g) / DEFAULT_VECTOR_CAPACITY) in
  if ready : bool then row_ids <$> scan_from (Some g) (drop (Z.to_nat k + 1) (row_groups_ c)) s
  else Fault (Throw 2).
End collection.

Abbreviation collection_t := collection.t.

(** [data_table_t::compact]: the gate, then the rows the rebuilt table holds, all
    stamped by the transaction-less appender. *)
Module data_table.
Definition compact (c : collection_t) (compact_watermark : Z) : outcome (bool * collection_t) :=
  if bool_decide (collection.total_rows_ c = 0) then Ok (true, c)
  else if collection.has_version_above c compact_watermark then Ok (false, c)
  else
    let new_collection := collection.new DEFAULT_VECTOR_CAPACITY 0 in
    '(s, nc) ← collection.initialize_append new_collection;
    rows ← collection.scan_with_offset c (transaction_data_see_all 0 0) 0 (collection.total_rows_ c);
    '(s, nc) ← (match rows with [] => Ok (s, nc) | _ => collection.append nc s (zlen rows) end);
    nc ← collection.finalize_append nc s (transaction_data_see_all 0 0);
    mret (true, nc).
End data_table.
