(* ===== verification/CollectionTheorems.v ===== *)
(** * Theorems about the collection of a table

    The segment search finds the row group of a row; a table of one row group scans to
    exactly its visible rows and is compacted without changing what any present or
    later transaction sees. Then what goes wrong from the second row group on, and after
    an aborted insert that opened a row group. *)

From S2P Require Import Prelude.
From S2P Require Import Visibility.
From S2P Require Import TransactionManager.
From S2P Require Import RowVersion.
From S2P Require Import RowVersionSpec.
From S2P Require Import RowVersionTheorems.
From S2P Require Import Collection.
#[local] Open Scope Z_scope.
Import row_version_manager.

(** ** The segment search *)

(** Segments lie side by side from [first] on. *)
Fixpoint contiguous (first : Z) (nodes : list (Z * Z)) : Prop :=
  match nodes with
  | [] => True
  | (row_start, count) :: nodes => row_start = first /\ 0 <= count /\ contiguous (first + count) nodes
  end.

Lemma contiguous_lookup nodes : forall first i s n,
  contiguous first nodes -> nodes !! i = Some (s, n) -> first <= s /\ 0 <= n.
Proof.
  induction nodes as [|[s0 n0] nodes IH]; intros first i s n Hc Hi; [done|].
  destruct Hc as (-> & Hn & Hc). destruct i as [|i]; cbn in Hi; [by simplify_eq|].
  destruct (IH _ _ _ _ Hc Hi). lia.
Qed.

Lemma contiguous_ordered nodes : forall first i j s n s' n',
  contiguous first nodes -> (i < j)%nat -> nodes !! i = Some (s, n) -> nodes !! j = Some (s', n') -> s + n <= s'.
Proof.
  induction nodes as [|[s0 n0] nodes IH]; intros first i j s n s' n' Hc Hij Hi Hj; [done|].
  destruct Hc as (-> & Hn & Hc). destruct j as [|j]; [lia|]. cbn in Hj.
  destruct i as [|i]; cbn in Hi.
  - simplify_eq. by apply (contiguous_lookup _ _ _ _ _ Hc) in Hj as [? _].
  - apply (IH (first + n0) i j s n s' n'); [done|lia|done|done].
Qed.

(** The loop, on any range of indices that still holds the answer. *)
Lemma search_finds nodes first row k s n : forall fuel lower upper,
  contiguous first nodes -> zlen nodes < 2 ^ 62 -> nodes !!z k = Some (s, n) -> s <= row < s + n ->
  0 <= lower <= k -> k <= upper < zlen nodes -> upper - lower < 2 ^ Z.of_nat fuel ->
  segment_tree.search (S fuel) nodes row lower upper = Ok (Some k).
Proof.
  induction fuel as [|fuel IH]; intros lower upper Hc Hlen Hk Hrow Hl Hu Hf.
  all: cbn [segment_tree.search]; rewrite bool_decide_true by lia;
    rewrite wrap_small by (unfold in_width; lia);
    assert (Hidx : lower <= (lower + upper) / 2 <= upper) by (Z.div_mod_to_equations; lia);
    destruct (zget_is_Some nodes ((lower + upper) / 2)) as [[s0 n0] H0]; [lia|]; rewrite H0.
  all: pose proof H0 as H0'; apply zget_Some in H0 as [_ H0]; pose proof Hk as Hk'; apply zget_Some in Hk as [_ Hk];
    set (mid := (lower + upper) / 2) in *.
  all: destruct (decide (mid = k)) as [->|Hne].
  1,3: rewrite Hk in H0; simplify_eq; rewrite !bool_decide_false by lia; done.
  - cbn in Hf. lia.
  - destruct (decide (mid < k)) as [Hlt|Hge].
    + pose proof (contiguous_ordered _ _ (Z.to_nat mid) (Z.to_nat k) _ _ _ _ Hc ltac:(lia) H0 Hk).
      pose proof (contiguous_lookup _ _ _ _ _ Hc H0).
      rewrite bool_decide_false, bool_decide_true by lia. rewrite wrap_small by (unfold in_width; lia).
      apply IH; try done; try lia. revert Hf. rewrite Nat2Z.inj_succ, Z.pow_succ_r by lia.
      unfold mid in *. Z.div_mod_to_equations; lia.
    + pose proof (contiguous_ordered _ _ (Z.to_nat k) (Z.to_nat mid) _ _ _ _ Hc ltac:(lia) Hk H0).
      rewrite bool_decide_true by lia. rewrite wrap_small by (unfold in_width; lia).
      apply IH; try done; try lia. revert Hf. rewrite Nat2Z.inj_succ, Z.pow_succ_r by lia.
      unfold mid in *. Z.div_mod_to_equations; lia.
Qed.

(** Past the last segment the search gives up without leaving the vector. *)
Lemma search_past nodes first row : forall fuel lower,
  contiguous first nodes -> zlen nodes < 2 ^ 62 ->
  (forall i s n, nodes !! i = Some (s, n) -> s + n <= row) ->
  0 <= lower <= zlen nodes -> zlen nodes - 1 - lower < 2 ^ Z.of_nat fuel - 1 ->
  segment_tree.search (S fuel) nodes row lower (zlen nodes - 1) = Ok None.
Proof.
  induction fuel as [|fuel IH]; intros lower Hc Hlen Hpast Hl Hf; cbn [segment_tree.search].
  { rewrite bool_decide_false; [done|]. cbn in Hf. lia. }
  case_bool_decide as Hle; [|done]. rewrite wrap_small by (unfold in_width; lia).
  assert (Hidx : lower <= (lower + (zlen nodes - 1)) / 2 <= zlen nodes - 1) by (Z.div_mod_to_equations; lia).
  destruct (zget_is_Some nodes ((lower + (zlen nodes - 1)) / 2)) as [[s0 n0] H0]; [lia|]. rewrite H0.
  apply zget_Some in H0 as [_ H0]. pose proof (Hpast _ _ _ H0). pose proof (contiguous_lookup _ _ _ _ _ Hc H0).
  rewrite bool_decide_false, bool_decide_true by lia. rewrite wrap_small by (unfold in_width; lia).
  apply IH; try done; try lia. revert Hf. rewrite Nat2Z.inj_succ, Z.pow_succ_r by lia.
  Z.div_mod_to_equations; lia.
Qed.

(** The binary search over the segments of a table is total and right: with the
    segments side by side from row [first], a row of segment [k] is found there and a
    row past the last segment is reported missing, never read out of range. *)
Theorem try_segment_index_correct nodes first row :
  contiguous first nodes -> zlen nodes < 2 ^ 62 ->
  (forall k s n, nodes !!z k = Some (s, n) -> s <= row < s + n ->
     segment_tree.try_segment_index nodes row = Ok (Some k)) /\
  ((forall k s n, nodes !!z k = Some (s, n) -> s + n <= row) ->
     segment_tree.try_segment_index nodes row = Ok None).
Proof.
  intros Hc Hlen. split.
  - intros k s n Hk Hrow. pose proof (zget_Some_lt _ _ _ Hk). unfold segment_tree.try_segment_index.
    destruct nodes as [|x nodes]; [unfold zlen in *; cbn in *; lia|].
    apply (search_finds (x :: nodes) first row k s n); try done; try lia.
  - intros Hpast. unfold segment_tree.try_segment_index.
    destruct nodes as [|x nodes]; [done|]. pose proof (zlen_nonneg (x :: nodes)).
    apply (search_past (x :: nodes) first row); try done; try lia.
    intros i s n Hi. apply (Hpast (Z.of_nat i) s n). unfold zget. by rewrite bool_decide_true, Nat2Z.id by lia.
Qed.

(** Before the first segment the upper bound wraps past zero. *)
Lemma search_before nodes first row : forall fuel upper,
  contiguous first nodes -> row < first -> zlen nodes < 2 ^ 62 -> 0 <= upper < zlen nodes -> upper < 2 ^ Z.of_nat fuel ->
  segment_tree.search (S (S fuel)) nodes row 0 upper = Fault OutOfBounds.
Proof.
  induction fuel as [|fuel IH]; intros upper Hc Hrow Hlen Hu Hf.
  all: cbn [segment_tree.search]; rewrite bool_decide_true by lia; rewrite wrap_small by (unfold in_width; lia);
    rewrite Z.add_0_l; assert (Hidx : 0 <= upper / 2 <= upper) by (Z.div_mod_to_equations; lia);
    destruct (zget_is_Some nodes (upper / 2)) as [[s0 n0] H0]; [lia|]; rewrite H0;
    apply zget_Some in H0 as [_ H0]; pose proof (contiguous_lookup _ _ _ _ _ Hc H0) as [Hs _];
    rewrite bool_decide_true by lia.
  all: destruct (decide (upper / 2 = 0)) as [E|E];
    [ rewrite E; change (u64 (0 - 1)) with UINT64_MAX; rewrite bool_decide_true by done;
      change (u64 (0 + UINT64_MAX) / 2) with (2 ^ 63 - 1); rewrite zget_None by lia; done |].
  - cbn in Hf. exfalso. apply E. replace upper with 0 by lia. done.
  - rewrite wrap_small by (unfold in_width; lia). apply IH; try done; try lia.
    revert Hf. rewrite Nat2Z.inj_succ, Z.pow_succ_r by lia. Z.div_mod_to_equations; lia.
Qed.

(** A row before the first segment is not reported missing: the unsigned upper bound
    wraps at index 0 and the search reads far outside the vector. *)
Theorem try_segment_index_before_first nodes first row :
  contiguous first nodes -> nodes <> [] -> zlen nodes < 2 ^ 62 -> row < first ->
  segment_tree.try_segment_index nodes row = Fault OutOfBounds.
Proof.
  intros Hc Hne Hlen Hrow. destruct nodes as [|x nodes]; [done|].
  assert (0 < zlen (x :: nodes)) by (unfold zlen; cbn; lia).
  apply (search_before (x :: nodes) first row 64); try done; lia.
Qed.

(** ** Tables of one row group *)

Definition single (m : row_version_manager.t) (n v : Z) : collection_t :=
  collection.Make CAP n 0 [row_group.Make 0 n (Some m) v].

Lemma select_rows_bounds p iv max_count :
  0 <= max_count ->
  0 <= (chunk_vector_info.select_rows p iv max_count).1 <= max_count /\
  zlen (chunk_vector_info.select_rows p iv max_count).2 = zlen iv.
Proof.
  intros Hm. unfold chunk_vector_info.select_rows. rewrite <- (zlen_seqZ 0 max_count) at 3 by done.
  generalize (seqZ 0 max_count). intros l.
  assert (H : forall k iv0, let res := foldl (fun '(count, iv) i => if (p i : bool) then (count + 1, zset count i iv) else (count, iv)) (k, iv0) l in
     k <= res.1 <= k + zlen l /\ zlen res.2 = zlen iv0).
  { induction l as [|x l IH]; intros k iv0; cbn [foldl]; [unfold zlen; cbn; lia|].
    assert (zlen (x :: l) = zlen l + 1) by (unfold zlen; cbn; lia).
    destruct (p x).
    - destruct (IH (k + 1) (zset k x iv0)) as [H1 H2]. rewrite zlen_zset in H2. cbn in *. lia.
    - destruct (IH k iv0) as [H1 H2]. cbn in *. lia. }
  specialize (H 0 iv). cbn in H. lia.
Qed.

Lemma indexing_vector_bounds m txn idx iv max_count :
  0 <= max_count ->
  0 <= (indexing_vector m txn idx iv max_count).1 <= max_count /\
  zlen (indexing_vector m txn idx iv max_count).2 = zlen iv.
Proof.
  intros Hm. unfold indexing_vector. destruct (get_chunk_info m idx) as [[c|v]|]; cbn; [| |lia].
  - unfold chunk_constant_info.indexing_vector. cbn. destruct (_ && _); lia.
  - unfold chunk_vector_info.indexing_vector. repeat case_match; cbn; try lia; by apply select_rows_bounds.
Qed.

Lemma rd_seqZ n i : 0 <= i < n -> rd (seqZ 0 n) i = i.
Proof.
  intros Hi. unfold rd, zget. rewrite bool_decide_true by lia.
  rewrite (lookup_seqZ_lt 0 n (Z.to_nat i)) by lia. cbn. lia.
Qed.

(** The row ids written for one vector are the selected rows. *)
Lemma emitted_selected res n :
  0 <= res.1 <= n -> n <= CAP -> zlen res.2 = CAP ->
  (fun i => 0 + rd (if bool_decide (res.1 = n) then seqZ 0 CAP else res.2) i) <$> seqZ 0 res.1 = selected res n.
Proof.
  destruct res as [k iv]. cbn [fst snd]. intros Hk Hn Hiv. unfold selected. cbn [fst snd].
  case_bool_decide as E.
  - subst k. rewrite <- (list_fmap_id (seqZ 0 n)) at 2. apply list_fmap_ext. intros i x Hx.
    apply lookup_seqZ in Hx as [-> Hi]. rewrite rd_seqZ by lia. cbn. lia.
  - apply list_eq. intros i. rewrite list_lookup_fmap. destruct (decide (Z.of_nat i < k)).
    + rewrite lookup_seqZ_lt by lia. rewrite lookup_take by lia. cbn. unfold rd, zget.
      rewrite bool_decide_true by lia. replace (Z.to_nat (0 + Z.of_nat i)) with i by lia.
      destruct (lookup_lt_is_Some_2 iv i) as [x ->]; [unfold zlen in Hiv; lia|]. rewrite decide_True by lia. cbn. f_equal.
    + rewrite lookup_seqZ_ge by lia. rewrite lookup_take_ge by lia. done.
Qed.

Lemma vectors_left_S n s :
  collection.max_row_group_row s = n -> 0 < n -> exists k, collection.vectors_left s = S (S k).
Proof.
  intros <- Hn. pose proof CAP_pos. unfold collection.vectors_left.
  assert (0 <= collection.max_row_group_row s / CAP) by (apply Z.div_pos; lia).
  exists (Z.to_nat (collection.max_row_group_row s / CAP)). lia.
Qed.

(** One pass over the only vector. *)
Lemma scan_first_vector m n v txn end_row k :
  0 < n <= CAP ->
  let res := indexing_vector m txn 0 (seqZ 0 CAP) n in
  exists iv', collection.templated_scan (S (S k)) (row_group.Make 0 n (Some m) v)
    (collection.ScanState 0 n end_row (seqZ 0 CAP) txn []) =
  Ok (collection.ScanState 1 n end_row iv' txn (selected res n)).
Proof.
  intros Hn res. pose proof CAP_pos. cbn [collection.templated_scan].
  rewrite bool_decide_false by (cbn; lia).
  cbn [collection.vector_index collection.max_row_group_row collection.txn collection.valid_indexing].
  rewrite Z.mul_0_l, Z.sub_0_r, Z.min_r by lia. cbn [row_group.indexing_vector row_group.version_info].
  fold res. destruct (indexing_vector_bounds m txn 0 (seqZ 0 CAP) n) as [Hb Hz]; [lia|].
  rewrite zlen_seqZ in Hz by lia. fold res in Hb, Hz.
  pose proof (emitted_selected res n Hb ltac:(lia) Hz) as Hem. destruct res as [c iv]. cbn [fst snd] in *.
  destruct (decide (c = 0)) as [E|E];
    [rewrite (bool_decide_true (c = 0)) by done | rewrite (bool_decide_false (c = 0)) by done].
  - subst c. rewrite bool_decide_true by (cbn; lia). exists iv. do 2 f_equal.
    rewrite (seqZ_nil 0 0) in Hem by lia. exact Hem.
  - eexists. do 2 f_equal. rewrite <- Hem. done.
Qed.

Lemma scan_single m n v txn :
  0 < n <= CAP ->
  collection.scan (single m n v) txn = Ok (selected (indexing_vector m txn 0 (seqZ 0 CAP) n) n).
Proof.
  intros Hn. pose proof CAP_pos. unfold collection.scan, single.
  cbn [collection.row_groups_ collection.row_start_ collection.total_rows_].
  unfold collection.group_initialize_scan, collection.group_rows, collection.fresh_scan.
  cbn [row_group.start row_group.count collection.max_row collection.max_row_group_row collection.vector_index
       collection.valid_indexing collection.txn collection.row_ids].
  rewrite (bool_decide_false (0 + n < 0)) by lia.
  replace (0 + Z.min n (0 + n - 0)) with n by lia. rewrite (bool_decide_false (n = 0)) by lia. cbn [negb].
  cbn [collection.scan_from].
  destruct (vectors_left_S n (collection.ScanState 0 n (0 + n) (seqZ 0 CAP) txn [])) as [k Hk]; [done|lia|].
  rewrite Hk. cbn [collection.scan_group]. rewrite Hk.
  destruct (scan_first_vector m n v txn (0 + n) k Hn) as [iv' ->]. cbn [mbind outcome_bind].
  cbn [collection.max_row_group_row collection.vector_index collection.max_row].
  rewrite bool_decide_true by lia. cbn.
  rewrite bool_decide_true by (unfold collection.group_end; cbn; lia). done.
Qed.

(** C38: On a table of one row group the scan delivers exactly the visible rows, in
    order: for every reader, the ids [0 .. n) of the rows that [fetch] accepts. *)
Theorem scan_delivers_visible m n v txn :
  0 < n <= CAP -> reader txn -> mgr_wf m -> coherent m n ->
  collection.scan (single m n v) txn = Ok (filter (fun row => fetch m txn row) (seqZ 0 n)).
Proof.
  intros Hn Hr Hwf Hco. pose proof CAP_pos. rewrite scan_single by done. f_equal.
  assert (Hheld : held n 0 = n) by (unfold held; lia).
  rewrite scan_visible; [|done|done| |lia|rewrite zlen_seqZ; lia].
  - apply filter_ext_seqZ. intros i Hi. rewrite fetch_visible by done. by rewrite Z.mul_0_l, Z.add_0_l.
  - rewrite <- Hheld. by apply Hco.
Qed.

(** ** Compaction *)

(** What compaction needs from the transaction layer: a watermark, and that whoever may
    read later sees everything committed at or below it. *)
Class SnapshotSource (S : Type) := {
  source_state : S -> Prop;
  watermark_of : S -> Z;
  later_state : S -> S -> Prop;
  may_read : S -> transaction_data -> Prop;
  watermark_nonneg s : source_state s -> 0 <= watermark_of s;
  reads_settled s s' d : source_state s -> later_state s s' -> may_read s' d ->
    reader d /\ sees_below d (watermark_of s);
}.

(** The transactions open in a state of the manager, and fresh snapshots without one. *)
Definition manager_reads (w : world) (d : transaction_data) : Prop :=
  (exists s t, find_transaction (mgr w) s = Some t /\ d = data t) \/ d = reader_of 0 (take_snapshot (mgr w)).

Lemma safe_mark_reads w K horizon in_flight id time :
  inv w -> 0 <= K -> K <= horizon -> oset in_flight -> (forall c, c ∈ in_flight -> K < c) ->
  K < TRANSACTION_ID_START -> id <> NOT_DELETED_ID ->
  reader (TransactionData id time horizon in_flight) /\ sees_below (TransactionData id time horizon in_flight) K.
Proof.
  intros Hinv HK HKh Hs Hif Hlt Hid.
  assert (Hb : sees_below (TransactionData id time horizon in_flight) K).
  { intros c Hc. unfold use_version. apply use_inserted_version_spec; [done|]. right. split_and!; cbn; [lia..|].
    intros Hin%Hif. lia. }
  split; [|done]. split; [done|apply Hb; lia|].
  pose proof (not_deleted_survives (TransactionData id time horizon in_flight) Hid) as Hn.
  unfold use_deleted_version in Hn. unfold use_version. by destruct (use_inserted_version _ _).
Qed.

Lemma compact_watermark_range w :
  reachable w -> 0 <= compact_watermark (mgr w) < TRANSACTION_ID_START.
Proof.
  intros Hw%reachable_inv. destruct (inv_clock w Hw). split.
  - apply compact_watermark_safe_mark; [done|]. split_and!; [lia| |].
    + intros c Hc. assert (Ha : c ∈ allocated w) by (apply (inv_allocated w Hw); by left).
      apply (inv_range w Hw) in Ha. pose proof (inv_recovered w Hw). lia.
    + intros s t Ht _. destruct (inv_active w Hw s t Ht) as [_ _ Hh Hif _ _]. split; [lia|].
      intros c Hc%Hif%(inv_range w Hw). pose proof (inv_recovered w Hw). lia.
  - destruct (proj1 (compact_watermark_safe_mark w (compact_watermark (mgr w)) Hw) ltac:(lia)) as (Hh & _). lia.
Qed.

Lemma manager_reads_settled w w' d :
  reachable w -> steps w w' -> manager_reads w' d ->
  reader d /\ sees_below d (compact_watermark (mgr w)).
Proof.
  intros Hr Hs Hd. pose proof (compact_watermark_range w Hr) as [Hpos Hlt]. apply reachable_inv in Hr as Hw.
  pose proof (steps_inv _ _ Hs Hw) as Hw'. pose proof id_bounds.
  assert (Hmark : safe_mark (mgr w) (compact_watermark (mgr w))) by (by apply compact_watermark_safe_mark).
  apply (steps_safe_mark _ w w') in Hmark as (Hh & Hif & Hact); [|done|done].
  destruct Hd as [(s & t & Ht & ->)| ->].
  - destruct (Hact s t Ht I). destruct (inv_active w' Hw' s t Ht) as [_ ? _ _ ? _]. destruct (inv_next w' Hw').
    apply (safe_mark_reads w'); try done. lia.
  - apply (safe_mark_reads w'); try done. apply Hw'.
Qed.

#[export] Instance manager_source : SnapshotSource world := {|
  source_state := reachable;
  watermark_of w := compact_watermark (mgr w);
  later_state := steps;
  may_read := manager_reads;
  watermark_nonneg w Hw := proj1 (compact_watermark_range w Hw);
  reads_settled := manager_reads_settled;
|}.

Lemma scan_with_offset_single m n v txn :
  0 < n <= CAP ->
  collection.scan_with_offset (single m n v) txn 0 n = Ok (selected (indexing_vector m txn 0 (seqZ 0 CAP) n) n).
Proof.
  intros Hn. pose proof CAP_pos. unfold collection.scan_with_offset, segment_tree.segment_index.
  assert (Hseg : segment_tree.try_segment_index (collection.nodes (single m n v)) 0 = Ok (Some 0)).
  { apply (search_finds [(0, n)] 0 0 0 0 n 65); try done; cbn; lia. }
  rewrite Hseg. cbn [mbind outcome_bind of_option]. unfold single.
  cbn [collection.row_groups_ zget of_option mbind outcome_bind].
  change (of_option OutOfBounds ([row_group.Make 0 n (Some m) v] !!z 0)) with (@Ok row_group_t (row_group.Make 0 n (Some m) v)).
  cbn [mbind outcome_bind]. unfold collection.group_scan_with_offset, collection.group_rows, collection.fresh_scan.
  cbn [row_group.start row_group.count collection.max_row collection.valid_indexing collection.txn collection.row_ids].
  rewrite (bool_decide_false (n < 0)) by lia. rewrite !Z.sub_0_r, Z.min_id, (bool_decide_false (n = 0)) by lia.
  cbn [negb]. change (0 / CAP) with 0. change (drop (Z.to_nat 0 + 1) [row_group.Make 0 n (Some m) v]) with (@nil row_group_t).
  cbn [collection.scan_from].
  destruct (vectors_left_S n (collection.ScanState 0 n n (seqZ 0 CAP) txn [])) as [k Hk]; [done|lia|].
  rewrite Hk. cbn [collection.scan_group]. rewrite Hk.
  destruct (scan_first_vector m n v txn n k Hn) as [iv' ->]. cbn [mbind outcome_bind].
  cbn [collection.max_row_group_row collection.vector_index collection.max_row].
  rewrite bool_decide_true by lia. cbn.
  rewrite bool_decide_true by (unfold collection.group_end; cbn; lia). done.
Qed.

(** The table compaction rebuilds from [k] rows. *)
Definition rebuild (k : Z) : outcome collection_t :=
  '(s, nc) ← collection.initialize_append (collection.new CAP 0);
  '(s, nc) ← (if bool_decide (k = 0) then Ok (s, nc) else collection.append nc s k);
  collection.finalize_append nc s (transaction_data_see_all 0 0).

Definition fresh_table : collection_t := collection.Make CAP 0 0 [row_group.new 0].

Lemma initialize_new :
  collection.initialize_append (collection.new CAP 0) = Ok (collection.AppendState 0 0 0 0 0 0, fresh_table).
Proof. reflexivity. Qed.

Lemma append_first k :
  0 < k <= CAP ->
  collection.append fresh_table (collection.AppendState 0 0 0 0 0 0) k =
  Ok (collection.AppendState 0 k k 0 0 k, fresh_table).
Proof.
  intros Hk. unfold collection.append. replace (Z.to_nat k + 2)%nat with (S (Z.to_nat k + 1)) by lia.
  cbn [collection.append_loop collection.current_row_group collection.offset_in_row_group].
  change (of_option _ _) with (Ok (row_group.new 0)). cbn [mbind outcome_bind].
  change (collection.row_group_size_ fresh_table - 0) with CAP. rewrite Z.min_l, Z.sub_diag by lia. done.
Qed.

Lemma rebuild_single k :
  0 < k <= CAP ->
  exists m, rebuild k = Ok (single m k 0) /\ mgr_wf m /\ coherent m k /\
    forall row, 0 <= row < k -> stamps m row = (0, NOT_DELETED_ID).
Proof.
  intros Hk. pose proof CAP_pos.
  destruct (sim_append spec.empty (row_version_manager.new 0) 0 k (simulates_new 0)) as (m & Hrun & Hsim).
  { split; cbn; [lia|]. unfold DEFAULT_VECTOR_CAPACITY in Hk. lia. }
  cbn in Hrun. rewrite Z.add_0_l in Hrun. exists m. split_and!.
  - unfold rebuild. rewrite initialize_new. cbn [mbind outcome_bind]. rewrite bool_decide_false by lia.
    rewrite append_first by done. cbn [mbind outcome_bind]. unfold collection.finalize_append.
    change (drop _ _) with [row_group.new 0]. cbn [collection.finalize_groups collection.total_append_count].
    rewrite bool_decide_false by lia. change (u64 _) with CAP. rewrite Z.min_l by lia.
    unfold row_group.append_version_info. change (row_group.count _) with 0. rewrite !Z.add_0_l.
    change (collection.row_group_size_ fresh_table) with CAP. rewrite (bool_decide_false (CAP < k)) by lia.
    change (row_group.get_or_create_version_info _) with (row_version_manager.new 0).
    rewrite Hrun. cbn [mbind outcome_bind]. rewrite Z.sub_diag. done.
  - apply Hsim.
  - apply (append_version_info_coherent (row_version_manager.new 0) (transaction_data_see_all 0 0) k 0 k m).
    + by constructor.
    + lia.
    + unfold DEFAULT_VECTOR_CAPACITY in Hk. lia.
    + apply coherent_new.
    + intros idx _. right. by rewrite new_entry.
    + done.
  - intros row Hrow. rewrite (sim_stamps _ _ Hsim) by (cbn; lia). cbn -[decide]. by rewrite decide_True by lia.
Qed.

Lemma rebuild_empty : rebuild 0 = Ok fresh_table.
Proof. vm_compute. reflexivity. Qed.

Lemma compact_unfold c w :
  collection.total_rows_ c <> 0 -> collection.has_version_above c w = false ->
  data_table.compact c w =
  (rows ← collection.scan_with_offset c (transaction_data_see_all 0 0) 0 (collection.total_rows_ c);
   nc ← rebuild (zlen rows); mret (true, nc)).
Proof.
  intros Ht Hg. unfold data_table.compact, rebuild. rewrite bool_decide_false, Hg by done.
  destruct (collection.initialize_append _) as [[s nc]|f] eqn:E; [|vm_compute in E; discriminate]. cbn.
  destruct (collection.scan_with_offset _ _ _ _) as [rows|f]; [|done]. cbn.
  destruct rows as [|r rows]; [done|]. rewrite bool_decide_false by (unfold zlen; cbn; lia). cbn.
  destruct (collection.append _ _ _) as [[s' nc']|f]; [|done]. done.
Qed.

Section compaction.
Context {S : Type} `{!SnapshotSource S}.

Lemma gated_scan s s' d m n v :
  source_state s -> later_state s s' -> may_read s' d ->
  0 < n <= CAP -> mgr_wf m -> coherent m n ->
  (forall row, 0 <= row < n -> 0 <= (stamps m row).1 /\ 0 <= (stamps m row).2) ->
  has_version_above m (watermark_of s) n = false ->
  collection.scan (single m n v) d =
  Ok (filter (fun row => bool_decide ((stamps m row).2 = NOT_DELETED_ID)) (seqZ 0 n)).
Proof.
  intros Hs Hl Hd Hn Hwf Hco Hpos Hgate. destruct (reads_settled s s' d Hs Hl Hd) as [Hr Hb].
  rewrite scan_single by done. rewrite scan_visible; [|done|done| |lia|rewrite zlen_seqZ; lia].
  - f_equal. apply filter_ext_seqZ. intros i Hi. rewrite Z.mul_0_l, Z.add_0_l. destruct (Hpos i Hi).
    apply (settled_visible d (watermark_of s)); try done.
    by apply (gate_settled m (watermark_of s) n Hco (watermark_nonneg s Hs)).
  - replace n with (held n 0) by (unfold held; lia). by apply Hco.
Qed.

Lemma rebuilt_scan k c' d :
  0 <= k <= CAP -> reader d -> rebuild k = Ok c' -> collection.scan c' d = Ok (seqZ 0 k).
Proof.
  intros Hk Hr Hreb. destruct (decide (k = 0)) as [->|Hne].
  - rewrite rebuild_empty in Hreb. injection Hreb as <-. done.
  - destruct (rebuild_single k) as (m & Hm & Hwf & Hco & Hst); [lia|]. rewrite Hm in Hreb. injection Hreb as <-.
    rewrite scan_single by lia. rewrite scan_visible; [|done|done| |lia|rewrite zlen_seqZ; lia].
    + f_equal. apply filter_const_true. intros i Hi%elem_of_seqZ. rewrite Z.mul_0_l, Z.add_0_l, Hst by lia.
      by apply visible_zero.
    + replace k with (held k 0) by (unfold held; lia). by apply Hco.
Qed.

Lemma compact_single s m n v :
  source_state s -> 0 < n <= CAP -> watermark_of s < TRANSACTION_ID_START -> mgr_wf m -> coherent m n ->
  (forall row, 0 <= row < n -> 0 <= (stamps m row).1 /\ 0 <= (stamps m row).2) ->
  has_version_above m (watermark_of s) n = false ->
  exists c' rows, data_table.compact (single m n v) (watermark_of s) = Ok (true, c') /\
    forall s' d, later_state s s' -> may_read s' d ->
      collection.scan (single m n v) d = Ok rows /\ collection.scan c' d = Ok (seqZ 0 (zlen rows)).
Proof.
  intros Hs Hn Hw Hwf Hco Hpos Hgate. pose proof (watermark_nonneg s Hs) as Hw0.
  set (rows := filter (fun row => bool_decide ((stamps m row).2 = NOT_DELETED_ID)) (seqZ 0 n)).
  assert (Hall : collection.scan_with_offset (single m n v) (transaction_data_see_all 0 0) 0 n = Ok rows).
  { rewrite scan_with_offset_single by done.
    rewrite scan_visible; [|apply see_all_reader|done| |lia|rewrite zlen_seqZ; lia].
    - f_equal. apply filter_ext_seqZ. intros i Hi. rewrite Z.mul_0_l, Z.add_0_l. destruct (Hpos i Hi).
      apply (settled_visible _ (watermark_of s)); try done; [apply see_all_reader|by apply see_all_below|].
      by apply (gate_settled m (watermark_of s) n Hco Hw0).
    - replace n with (held n 0) by (unfold held; lia). by apply Hco. }
  assert (Hk : 0 <= zlen rows <= CAP).
  { pose proof (zlen_nonneg rows). split; [done|]. unfold rows, zlen.
    pose proof (length_filter (fun row => bool_decide ((stamps m row).2 = NOT_DELETED_ID)) (seqZ 0 n)) as Hlf.
    rewrite length_seqZ in Hlf. lia. }
  assert (Hreb : exists c', rebuild (zlen rows) = Ok c').
  { destruct (decide (zlen rows = 0)) as [->|]; [eexists; apply rebuild_empty|].
    destruct (rebuild_single (zlen rows)) as (m' & -> & _); [lia|]. by eexists. }
  destruct Hreb as [c' Hreb]. exists c', rows. split.
  - assert (Hg : collection.has_version_above (single m n v) (watermark_of s) = false)
      by (unfold collection.has_version_above; cbn [single collection.row_groups_ existsb]; by rewrite orb_false_r).
    rewrite compact_unfold; change (collection.total_rows_ (single m n v)) with n; [|lia|exact Hg].
    rewrite Hall. cbn [mbind outcome_bind]. rewrite Hreb. done.
  - intros s' d Hl Hd. destruct (reads_settled s s' d Hs Hl Hd) as [Hr _]. split; [by apply (gated_scan s s')|].
    by apply rebuilt_scan.
Qed.
End compaction.


(** ** From the second row group on

    A row group holds [DEFAULT_VECTOR_CAPACITY] rows, one vector. Appends number the
    vectors of a row group from 0, while deletes and whole-table scans number them over
    the whole table. *)

(** An [INSERT] of [n] rows: the append path of a table. *)
Definition insert (c : collection_t) (txn_id n : Z) : outcome collection_t :=
  '(s, c) ← collection.initialize_append c;
  '(s, c) ← collection.append c s n;
  collection.finalize_append c s (transaction_data_see_all txn_id 0).

Definition delete_from (c : collection_t) (txn_id : Z) (ids : list Z) : outcome collection_t :=
  '(_, c) ← collection.delete_rows c ids txn_id; mret c.

Definition empty_table : collection_t := collection.new CAP 0.

(** 1000 committed rows, then 100 rows of a transaction that has not committed. *)
Definition ex_pending : outcome collection_t :=
  c ← insert empty_table T1 1000; c ← collection.commit_append c 5 0 1000; insert c T2 100.

(** Rows of an uncommitted insert that fall into the second row group are delivered
    to every other transaction: the scan of vector 1 looks for version info under index
    1, where the append of that row group put none. *)
Theorem pending_rows_visible_past_first_group :
  (c ← ex_pending; collection.scan c see_all) = Ok (seqZ 0 1000 ++ seqZ 1024 76).
Proof. vm_compute. reflexivity. Qed.

(** 2048 committed rows, two of the second row group deleted by an open transaction. *)
Definition ex_pending_delete : outcome collection_t :=
  c ← insert empty_table T1 2048; c ← collection.commit_append c 5 0 2048; delete_from c T2 [1500; 1501].

(** The compaction gate does not see an uncommitted delete in the second row group,
    so the table is rebuilt under it; when the transaction then commits, its delete is
    gone and all 2048 rows are still there. *)
Theorem compact_loses_pending_delete :
  (c ← ex_pending_delete; mret (collection.has_version_above c 5)) = Ok false /\
  (c ← ex_pending_delete; collection.scan (collection.commit_all_deletes c T2 7) see_all) =
    Ok (seqZ 0 1500 ++ seqZ 1502 546) /\
  (c ← ex_pending_delete; '(_, c) ← data_table.compact c 5;
   collection.scan (collection.commit_all_deletes c T2 7) see_all) = Ok (seqZ 0 2048).
Proof. vm_compute. split_and!; reflexivity. Qed.

(** [committed_row_count] ignores committed deletes in the second row group, and a
    scan that starts there delivers the deleted rows, while a whole-table scan skips
    them. *)
Theorem committed_row_count_overcounts :
  (c ← ex_pending_delete; mret (collection.committed_row_count (collection.commit_all_deletes c T2 7))) = Ok 2048 /\
  (c ← ex_pending_delete; collection.scan_with_offset (collection.commit_all_deletes c T2 7) see_all 1024 2048) =
    Ok (seqZ 0 1024).
Proof. vm_compute. split; reflexivity. Qed.

(** 1000 committed rows, an aborted insert of 100 that opened a row group, then 20 rows
    inserted at row 1000 and committed there. *)
Definition ex_after_abort : outcome collection_t :=
  c ← insert empty_table T1 1000; c ← collection.commit_append c 5 0 1000; c ← insert c T2 100;
  c ← insert (collection.revert_append c 1000 100) T1 20; collection.commit_append c 9 1000 20.

(** After an aborted insert that opened a row group, rows inserted next are lost: the
    emptied row group stays last, so they are stored at row 1024 while they are counted,
    committed and scanned for at row 1000. *)
Theorem rows_lost_after_aborted_insert :
  (c ← ex_after_abort; mret (collection.total_rows_ c, collection.nodes c)) = Ok (1020, [(0, 1000); (1024, 20)]) /\
  (c ← ex_after_abort; collection.scan c see_all) = Ok (seqZ 0 1000) /\
  (c ← ex_after_abort; mret ((fun g => stamps (row_group.get_or_create_version_info g) 0) <$> collection.row_groups_ c)) =
    Ok [(5, NOT_DELETED_ID); (T1, NOT_DELETED_ID)].
Proof. vm_compute. split_and!; reflexivity. Qed.

(** ** The theorems at concrete inputs *)

Lemma try_segment_index_correct_witness :
  segment_tree.try_segment_index [(0, 1024); (1024, 1024); (2048, 7)] 2050 = Ok (Some 2).
Proof.
  apply (try_segment_index_correct [(0, 1024); (1024, 1024); (2048, 7)] 0 2050) with (s := 2048) (n := 7);
    [cbn; lia | vm_compute; reflexivity | reflexivity | lia].
Defined.

Lemma try_segment_index_before_first_witness :
  segment_tree.try_segment_index [(1024, 10); (1034, 5)] 3 = Fault OutOfBounds.
Proof. apply (try_segment_index_before_first _ 1024); [cbn; lia | discriminate | vm_compute; reflexivity | lia]. Defined.

Lemma ex_mgr_wf : mgr_wf ex_mgr.
Proof. apply ex_mgr_run. Qed.

Lemma ex_mgr_coherent : coherent ex_mgr 5.
Proof. apply ex_mgr_run. Qed.

Lemma scan_delivers_visible_witness :
  collection.scan (single ex_mgr 5 0) see_all = Ok [0; 2; 3].
Proof.
  rewrite (scan_delivers_visible ex_mgr 5 0 see_all ltac:(vm_compute; split; congruence) see_all_reader ex_mgr_wf ex_mgr_coherent).
  vm_compute. reflexivity.
Defined.

(** Three begun and committed transactions, the clock at 8. *)
Definition ex_settled : world :=
  default fresh_world (exec_all fresh_world
    [OBegin 1; OCommit 1; OPublish 2; OBegin 1; OCommit 1; OPublish 4; OBegin 1; OCommit 1; OPublish 6; OBegin 1; OCommit 1;
     OPublish 8; OBegin 3]).

Lemma ex_settled_reachable : reachable ex_settled.
Proof.
  apply (exec_all_reachable [OBegin 1; OCommit 1; OPublish 2; OBegin 1; OCommit 1; OPublish 4; OBegin 1; OCommit 1; OPublish 6;
    OBegin 1; OCommit 1; OPublish 8; OBegin 3]).
  vm_compute. reflexivity.
Qed.

