(* ===== verification/CollectionAppend.v ===== *)
(** * Inserts over several row groups

    An insert fills the last row group of a table and opens new ones; its commit
    restamps its rows group by group. This file proves that the two together stamp
    exactly the inserted rows, by simulating every row group with the abstract table of
    RowVersionSpec.v. *)

From S2P Require Import Prelude.
From S2P Require Import Visibility.
From S2P Require Import RowVersion.
From S2P Require Import RowVersionSpec.
From S2P Require Import RowVersionTheorems.
From S2P Require Import Collection.
From S2P Require Import CollectionTheorems.
#[local] Open Scope Z_scope.
Import row_version_manager.

(** ** One row group *)

(** Row group number [k] of a table, against the abstract table of its rows. *)
Record group_sim (k : Z) (g : row_group_t) (s : spec.t) : Prop := {
  gs_start : row_group.start g = k * CAP;
  gs_count : row_group.count g = spec.total s;
  gs_room : spec.total s <= CAP;
  gs_sim : simulates s (row_group.get_or_create_version_info g);
}.

Lemma group_sim_new k : group_sim k (row_group.new (k * CAP)) spec.empty.
Proof. pose proof CAP_pos. split; cbn; [done|done|lia|apply simulates_new]. Qed.

Lemma CAP_small : CAP < 2 ^ 64.
Proof. vm_compute. reflexivity. Qed.

Lemma group_append k g s T a :
  group_sim k g s -> 0 < a -> spec.total s + a <= CAP ->
  exists g', row_group.append_version_info CAP g (transaction_data_see_all T 0) a = Ok g' /\
             group_sim k g' (spec.step s (spec.Append T a)).
Proof.
  intros [Hs Hc Hr Hsim] Ha Hroom. pose proof CAP_small.
  destruct (sim_append s _ T a Hsim) as (m & Hrun & Hsim'); [split; [done|lia]|].
  unfold row_group.append_version_info. rewrite Hc, bool_decide_false by lia.
  cbn [run_op] in Hrun. rewrite Hrun. eexists. split; [reflexivity|]. by split.
Qed.

(** A full row group takes nothing; only [has_changes_] may change. *)
Lemma group_append_full k g s T :
  group_sim k g s -> spec.total s = CAP ->
  exists g', row_group.append_version_info CAP g (transaction_data_see_all T 0) 0 = Ok g' /\ group_sim k g' s.
Proof.
  intros [Hs Hc Hr Hsim] Hfull. pose proof CAP_pos as HC. unfold row_group.append_version_info.
  rewrite Hc, Hfull, Z.add_0_r, bool_decide_false by lia.
  unfold append_version_info. change (vectors_of CAP CAP) with (@nil Z). change (end_vector_idx CAP) with 0.
  cbn [loop mbind outcome_bind].
  assert (Hp : get_chunk_info (row_group.get_or_create_version_info g) 0 <> None) by (apply (sim_present _ _ Hsim); lia).
  assert (Hfill : fill_vector_info (vector_info_ (row_group.get_or_create_version_info g)) 0 =
                  vector_info_ (row_group.get_or_create_version_info g)).
  { unfold fill_vector_info. rewrite bool_decide_true; [done|]. unfold get_chunk_info in Hp.
    destruct (_ !!z 0) eqn:E; [apply zget_Some_lt in E; lia|done]. }
  rewrite Hfill. eexists. split; [reflexivity|]. split; cbn; [done|lia|lia|].
  destruct Hsim. split; try done.
Qed.

Lemma group_commit k g s commit_id first n :
  group_sim k g s -> (first, first + n) ∈ spec.ranges s ->
  exists g', row_group.commit_append g commit_id first n = Ok g' /\
             group_sim k g' (spec.step s (spec.Commit commit_id first n)).
Proof.
  intros [Hs Hc Hr Hsim] Hin. pose proof CAP_pos as HC.
  pose proof (sim_ranges _ _ Hsim _ Hin) as Hb. cbn in Hb.
  destruct (sim_commit s _ commit_id first n Hsim Hin) as (m & Hrun & Hsim').
  destruct (row_group.version_info g) as [m0|] eqn:Hv.
  - unfold row_group.commit_append. rewrite Hv. unfold row_group.get_or_create_version_info in Hrun. rewrite Hv in Hrun.
    cbn [run_op] in Hrun. rewrite Hrun. eexists. split; [reflexivity|]. by split.
  - destruct (sim_present _ _ Hsim 0); [lia|lia|]. unfold row_group.get_or_create_version_info.
    rewrite Hv. apply new_entry.
Qed.

(** ** Lists of row groups *)

Fixpoint groups_sim (k : Z) (gs : list row_group_t) (ss : list spec.t) : Prop :=
  match gs, ss with
  | [], [] => True
  | g :: gs, s :: ss => group_sim k g s /\ groups_sim (k + 1) gs ss
  | _, _ => False
  end.

Lemma groups_sim_app gs1 : forall k ss1 gs2 ss2,
  groups_sim k gs1 ss1 -> groups_sim (k + zlen gs1) gs2 ss2 -> groups_sim k (gs1 ++ gs2) (ss1 ++ ss2).
Proof.
  induction gs1 as [|g gs1 IH]; intros k ss1 gs2 ss2 H1 H2; destruct ss1 as [|s ss1]; try done.
  - cbn in H2. by rewrite Z.add_0_r in H2.
  - destruct H1 as [Hg H1]. split; [done|]. apply IH; [done|].
    replace (k + 1 + zlen gs1) with (k + zlen (g :: gs1)) by (unfold zlen; cbn; lia). done.
Qed.

Lemma groups_sim_app_inv gs : forall k ss s, groups_sim k gs (ss ++ [s]) ->
  exists gs0 g, gs = gs0 ++ [g] /\ groups_sim k gs0 ss /\ group_sim (k + zlen gs0) g s.
Proof.
  induction gs as [|g gs IH]; intros k ss s H; [by destruct ss|]. destruct ss as [|s0 ss].
  - cbn [app groups_sim] in H. destruct H as [Hg H]. destruct gs; [|done]. exists [], g. by rewrite Z.add_0_r.
  - destruct H as [Hg H]. destruct (IH (k + 1) ss s H) as (gs0 & g' & -> & H0 & Hl). exists (g :: gs0), g'.
    split_and!; [done|done|]. by replace (k + zlen (g :: gs0)) with (k + 1 + zlen gs0) by (unfold zlen; cbn; lia).
Qed.

Lemma groups_sim_length gs : forall k ss, groups_sim k gs ss -> zlen gs = zlen ss.
Proof.
  induction gs as [|g gs IH]; intros k [|s ss] H; try done. destruct H as [_ H]. apply IH in H.
  unfold zlen in *. cbn. lia.
Qed.

Lemma groups_sim_lookup gs : forall k ss i g s,
  groups_sim k gs ss -> gs !! i = Some g -> ss !! i = Some s -> group_sim (k + Z.of_nat i) g s.
Proof.
  induction gs as [|g0 gs IH]; intros k [|s0 ss] i g s H Hg Hs; try done. destruct H as [H0 H].
  destruct i as [|i]; cbn in Hg, Hs.
  - simplify_eq. by rewrite Z.add_0_r.
  - replace (k + Z.of_nat (S i)) with (k + 1 + Z.of_nat i) by lia. by apply (IH (k + 1) ss).
Qed.

(** What an insert of [n] rows does to the abstract tables, from the last row group on. *)
Fixpoint insert_spec (T n : Z) (ss : list spec.t) : list spec.t :=
  if bool_decide (n <= 0) then ss
  else
    match ss with
    | [] => []
    | s :: ss =>
        let a := Z.min n (CAP - spec.total s) in
        (if bool_decide (a = 0) then s else spec.step s (spec.Append T a)) :: insert_spec T (n - a) ss
    end.

Definition room (ss : list spec.t) : Z := foldr (fun s acc => CAP - spec.total s + acc) 0 ss.

Lemma room_cons s ss : room (s :: ss) = CAP - spec.total s + room ss.
Proof. done. Qed.

Lemma room_nonneg gs : forall k ss, groups_sim k gs ss -> 0 <= room ss.
Proof.
  induction gs as [|g gs IH]; intros k [|s ss] H; try done. destruct H as [[_ _ Hr _] H]. apply IH in H. rewrite room_cons. lia.
Qed.

Lemma finalize_sim gs : forall k ss T n,
  groups_sim k gs ss -> n <= room ss ->
  exists gs', collection.finalize_groups CAP (transaction_data_see_all T 0) n gs = Ok gs' /\
              groups_sim k gs' (insert_spec T n ss).
Proof.
  induction gs as [|g gs IH]; intros k ss T n Hsim Hroom; destruct ss as [|s ss]; try done.
  { cbn in *. rewrite bool_decide_true by lia. by exists []. }
  cbn [collection.finalize_groups insert_spec]. case_bool_decide as Hn; [by exists (g :: gs)|].
  destruct Hsim as [Hg Hgs]. pose proof Hg as [_ Hcount Hr Hs]. pose proof (sim_total _ _ Hs). pose proof CAP_small.
  rewrite Hcount, wrap_small by (unfold in_width; lia). set (a := Z.min n (CAP - spec.total s)).
  destruct (IH (k + 1) ss T (n - a)) as (gs' & Hfin & Hsim'); [done|pose proof (room_nonneg _ _ _ Hgs); rewrite room_cons in Hroom; unfold a; lia|].
  assert (Hhead : exists g', row_group.append_version_info CAP g (transaction_data_see_all T 0) a = Ok g' /\
            group_sim k g' (if bool_decide (a = 0) then s else spec.step s (spec.Append T a))).
  { case_bool_decide as Ha.
    - rewrite Ha. apply group_append_full; [done|]. lia.
    - apply group_append; [done|lia|lia]. }
  destruct Hhead as (g' & Happ & Hg'). rewrite Happ. cbn [mbind outcome_bind]. rewrite Hfin.
  eexists. split; [reflexivity|]. by split.
Qed.

(** ** Committing over several row groups *)

(** The part of rows [first, first + n) that falls into row group [k]. *)
Definition local_start (first k : Z) : Z := Z.max 0 (first - k * CAP).
Definition local_end (first n k : Z) (s : spec.t) : Z := Z.min (spec.total s) (first + n - k * CAP).

Definition commit_one (commit_id first n k : Z) (s : spec.t) : spec.t :=
  let lo := local_start first k in
  let hi := local_end first n k s in
  if bool_decide (lo < hi) then spec.step s (spec.Commit commit_id lo (hi - lo)) else s.

Fixpoint commit_spec (commit_id first n k : Z) (ss : list spec.t) : list spec.t :=
  match ss with
  | [] => []
  | s :: ss => commit_one commit_id first n k s :: commit_spec commit_id first n (k + 1) ss
  end.

(** The rows to commit are whole appended ranges of their row groups. *)
Fixpoint owned_ranges (first n k : Z) (ss : list spec.t) : Prop :=
  match ss with
  | [] => True
  | s :: ss =>
      (local_start first k < local_end first n k s -> (local_start first k, local_end first n k s) ∈ spec.ranges s)
      /\ owned_ranges first n (k + 1) ss
  end.

Lemma commit_spec_beyond commit_id first n ss : forall k,
  first + n <= k * CAP -> commit_spec commit_id first n k ss = ss.
Proof.
  pose proof CAP_pos. induction ss as [|s ss IH]; intros k Hk; cbn [commit_spec]; [done|].
  rewrite IH by lia. f_equal. unfold commit_one, local_start, local_end. rewrite bool_decide_false; [done|]. lia.
Qed.

Lemma group_commit_nothing k g s commit_id first :
  group_sim k g s -> exists g', row_group.commit_append g commit_id first 0 = Ok g' /\ group_sim k g' s.
Proof.
  intros [Hs Hc Hr Hsim]. unfold row_group.commit_append. destruct (row_group.version_info g) as [m|] eqn:Hv.
  - unfold commit_append. rewrite (bool_decide_true (0 = 0)) by done. eexists. split; [reflexivity|].
    split; cbn; try done. unfold row_group.get_or_create_version_info in Hsim. by rewrite Hv in Hsim.
  - eexists. split; [reflexivity|]. split; cbn; try done.
    unfold row_group.get_or_create_version_info in Hsim. by rewrite Hv in Hsim.
Qed.

Lemma commit_sim gs : forall k ss commit_id first n,
  groups_sim k gs ss -> 0 < n -> 0 <= first -> 0 <= k -> first + n < 2 ^ 64 -> owned_ranges first n k ss ->
  exists gs', collection.commit_groups commit_id first n gs = Ok gs' /\
              groups_sim k gs' (commit_spec commit_id first n k ss).
Proof.
  pose proof CAP_pos as HC.
  induction gs as [|g gs IH]; intros k ss commit_id first n Hsim Hn Hf Hk Hb Hown; destruct ss as [|s ss]; try done.
  { by exists []. }
  destruct Hsim as [Hg Hgs]. destruct Hown as [Hhead Hown]. pose proof Hg as [Hs Hc Hr Hsimg].
  pose proof (sim_total _ _ Hsimg) as Htot. cbn [collection.commit_groups]. unfold collection.group_end. rewrite Hs, Hc.
  case_bool_decide as Hbreak.
  { exists (g :: gs). split; [done|]. by rewrite commit_spec_beyond. }
  destruct (IH (k + 1) ss commit_id first n) as (gs' & Hrun & Hsim'); [done|done|done|lia|done|done|].
  cbn [commit_spec]. unfold commit_one. case_bool_decide as Hskip.
  { rewrite Hrun. eexists. split; [reflexivity|]. split; [|done].
    unfold local_start, local_end. rewrite bool_decide_false; [done|lia]. }
  rewrite (wrap_small 64 (first + n - k * CAP)) by (unfold in_width; lia).
  fold (local_start first k) (local_end first n k s).
  assert (Hle : local_start first k <= local_end first n k s) by (unfold local_start, local_end; lia).
  rewrite wrap_small by (unfold in_width, local_start, local_end in *; lia).
  assert (Hstep : exists g', row_group.commit_append g commit_id (local_start first k)
            (local_end first n k s - local_start first k) = Ok g' /\
          group_sim k g' (if bool_decide (local_start first k < local_end first n k s)
            then spec.step s (spec.Commit commit_id (local_start first k) (local_end first n k s - local_start first k))
            else s)).
  { case_bool_decide as Hlt.
    - apply group_commit; [done|]. replace (local_start first k + _) with (local_end first n k s) by lia. by apply Hhead.
    - replace (local_end first n k s - local_start first k) with 0 by lia. by apply group_commit_nothing. }
  destruct Hstep as (g' & -> & Hg'). cbn [mbind outcome_bind]. rewrite Hrun.
  eexists. split; [reflexivity|]. by split.
Qed.

(** ** Rows of the whole table *)

Definition srow (ss : list spec.t) (row : Z) : Z * Z :=
  match ss !!z (row / CAP) with
  | Some s => spec.row_stamps s (row mod CAP)
  | None => (0, NOT_DELETED_ID)
  end.

Lemma srow_head s ss row : 0 <= row < CAP -> srow (s :: ss) row = spec.row_stamps s row.
Proof. intros Hrow. unfold srow. rewrite Z.div_small, Z.mod_small by lia. done. Qed.

Lemma srow_tail s ss row : CAP <= row -> srow (s :: ss) row = srow ss (row - CAP).
Proof.
  intros Hrow. pose proof CAP_pos. unfold srow.
  assert (Hq : 1 <= row / CAP) by (apply Z.div_le_lower_bound; lia).
  replace (row - CAP) with (row + -1 * CAP) by lia. rewrite Z.div_add, Z.mod_add by lia.
  unfold zget. rewrite !bool_decide_true by lia.
  replace (Z.to_nat (row / CAP)) with (S (Z.to_nat (row / CAP + -1))) by lia. done.
Qed.

Lemma insert_spec_cons T n s ss :
  insert_spec T n (s :: ss) =
  if bool_decide (n <= 0) then s :: ss
  else let a := Z.min n (CAP - spec.total s) in
       (if bool_decide (a = 0) then s else spec.step s (spec.Append T a)) :: insert_spec T (n - a) ss.
Proof. done. Qed.

Lemma insert_spec_rows T ss : forall s n row,
  0 <= spec.total s <= CAP -> (forall s', s' ∈ ss -> spec.total s' = 0) -> n <= room (s :: ss) -> 0 <= row ->
  srow (insert_spec T n (s :: ss)) row =
  if decide (spec.total s <= row < spec.total s + n) then (T, NOT_DELETED_ID) else srow (s :: ss) row.
Proof.
  pose proof CAP_pos as HC. induction ss as [|s1 ss IH]; intros s n row Ht Hempty Hroom Hrow;
    rewrite insert_spec_cons; rewrite room_cons in Hroom; case_bool_decide as Hn;
    try (rewrite decide_False by lia; done); set (a := Z.min n (CAP - spec.total s)); cbn zeta.
  - destruct (decide (row < CAP)).
    + rewrite !srow_head by lia. case_bool_decide; cbn -[decide]; [rewrite decide_False by (cbn in Hroom; lia); done|].
      repeat case_decide; try done; exfalso; unfold a in *; cbn in Hroom; lia.
    + rewrite !srow_tail by lia. cbn [insert_spec]. rewrite bool_decide_eq_true_2 by (unfold a; cbn in Hroom; lia).
      rewrite decide_False by (cbn in Hroom; lia). done.
  - assert (Hs1 : spec.total s1 = 0) by (apply Hempty; set_solver).
    destruct (decide (row < CAP)).
    + rewrite !srow_head by lia. case_bool_decide as Ha; cbn -[decide].
      * rewrite decide_False by (unfold a in Ha; lia). done.
      * repeat case_decide; try done; exfalso; unfold a in *; lia.
    + rewrite !(srow_tail _ _ row) by lia.
      destruct (decide (n - a <= 0)) as [Hle|Hle].
      * rewrite insert_spec_cons, bool_decide_eq_true_2 by done. rewrite decide_False by (unfold a in Hle; lia). done.
      * rewrite IH; [|lia|set_solver|unfold a; lia|lia].
        rewrite Hs1. repeat case_decide; try done; exfalso; unfold a in *; lia.
Qed.

Lemma owned_ranges_ext first n first' n' ss : forall k,
  first + n = first' + n' -> first <= k * CAP -> first' <= k * CAP ->
  owned_ranges first' n' k ss -> owned_ranges first n k ss.
Proof.
  pose proof CAP_pos. induction ss as [|s ss IH]; intros k Hsum H1 H2 Hown; [done|]. destruct Hown as [Hh Ht].
  assert (E1 : local_start first k = local_start first' k) by (unfold local_start; lia).
  assert (E2 : local_end first n k s = local_end first' n' k s) by (unfold local_end; lia).
  split; [by rewrite E1, E2|]. apply IH; try done; lia.
Qed.

Lemma owned_empty first n ss : forall k,
  (forall s, s ∈ ss -> spec.total s = 0) -> owned_ranges first n k ss.
Proof.
  induction ss as [|s ss IH]; intros k Hempty; [done|]. split; [|apply IH; set_solver].
  unfold local_start, local_end. rewrite (Hempty s) by set_solver. lia.
Qed.

(** The rows of an insert are whole appended ranges. *)
Lemma insert_spec_owned T ss : forall s n k,
  0 <= spec.total s <= CAP -> (forall s', s' ∈ ss -> spec.total s' = 0) -> n <= room (s :: ss) -> 0 < n -> 0 <= k ->
  owned_ranges (k * CAP + spec.total s) n k (insert_spec T n (s :: ss)).
Proof.
  pose proof CAP_pos as HC. induction ss as [|s1 ss IH]; intros s n k Ht Hempty Hroom Hn Hk;
    rewrite insert_spec_cons, bool_decide_eq_false_2 by lia; rewrite room_cons in Hroom;
    set (a := Z.min n (CAP - spec.total s)); cbn zeta.
  all: assert (Hhead : local_start (k * CAP + spec.total s) k <
            local_end (k * CAP + spec.total s) n k (if bool_decide (a = 0) then s else spec.step s (spec.Append T a)) ->
          (local_start (k * CAP + spec.total s) k,
           local_end (k * CAP + spec.total s) n k (if bool_decide (a = 0) then s else spec.step s (spec.Append T a)))
          ∈ spec.ranges (if bool_decide (a = 0) then s else spec.step s (spec.Append T a)))
    by (unfold local_start, local_end; case_bool_decide as Ha; [unfold a in Ha; lia|]; cbn [spec.step spec.total spec.ranges];
        intros _; replace (Z.max 0 _) with (spec.total s) by lia;
        replace (Z.min _ _) with (spec.total s + a) by (unfold a; lia); apply elem_of_cons; by left).
  - split; [exact Hhead|]. cbn [insert_spec]. rewrite bool_decide_eq_true_2; [done|]. unfold a. cbn in Hroom. lia.
  - split; [exact Hhead|]. assert (Hs1 : spec.total s1 = 0) by (apply Hempty; set_solver).
    destruct (decide (n - a <= 0)) as [Hle|Hle].
    + rewrite insert_spec_cons, bool_decide_eq_true_2 by done. by apply owned_empty.
    + apply (owned_ranges_ext _ _ ((k + 1) * CAP + spec.total s1) (n - a)); [unfold a in *; lia|lia|lia|].
      apply IH; [lia|set_solver|unfold a; lia|lia|lia].
Qed.

Lemma owned_app first n ss1 : forall k ss2,
  owned_ranges first n k ss1 -> owned_ranges first n (k + zlen ss1) ss2 -> owned_ranges first n k (ss1 ++ ss2).
Proof.
  induction ss1 as [|s ss1 IH]; intros k ss2 H1 H2; [by rewrite Z.add_0_r in H2|].
  destruct H1 as [Hh H1]. split; [done|]. apply IH; [done|].
  replace (k + 1 + zlen ss1) with (k + zlen (s :: ss1)) by (unfold zlen; cbn; lia). done.
Qed.

(** Row groups that end before the range have nothing of it. *)
Lemma owned_before first n ss : forall k,
  (forall s, s ∈ ss -> spec.total s <= CAP) -> (k + zlen ss) * CAP <= first -> owned_ranges first n k ss.
Proof.
  pose proof CAP_pos. induction ss as [|s ss IH]; intros k Hcap Hf; [done|].
  assert (zlen (s :: ss) = zlen ss + 1) by (unfold zlen; cbn; lia). pose proof (zlen_nonneg ss).
  split; [|apply IH; [set_solver|lia]]. unfold local_start, local_end.
  assert (spec.total s <= CAP) by (apply Hcap; set_solver). nia.
Qed.

(** The stamps of the rows of a table after a commit over row groups. *)
Lemma commit_spec_rows commit_id first n ss : forall k row s,
  0 <= row -> ss !!z (row / CAP) = Some s -> row mod CAP < spec.total s ->
  srow (commit_spec commit_id first n k ss) row =
  if decide (first <= k * CAP + row < first + n) then (commit_id, (srow ss row).2) else srow ss row.
Proof.
  pose proof CAP_pos as HC. induction ss as [|s0 ss IH]; intros k row s Hrow Hlk Hlt.
  { exfalso. unfold zget in Hlk. by case_bool_decide. }
  cbn [commit_spec]. destruct (decide (row < CAP)) as [Hh|Hh].
  - rewrite !srow_head by lia. rewrite Z.div_small in Hlk by lia. rewrite Z.mod_small in Hlt by lia.
    injection Hlk as <-. unfold commit_one. case_bool_decide as Hb; cbn -[decide].
    + replace (local_start first k + _) with (local_end first n k s0) by lia.
      apply decide_ext. unfold local_start, local_end. lia.
    + rewrite decide_False; [done|]. unfold local_start, local_end in Hb. lia.
  - rewrite !(srow_tail _ _ row) by lia.
    assert (Hq : 1 <= row / CAP) by (apply Z.div_le_lower_bound; lia).
    replace (row / CAP) with ((row - CAP) / CAP + 1) in Hlk
      by (replace (row - CAP) with (row + -1 * CAP) by lia; rewrite Z.div_add by lia; lia).
    replace (row mod CAP) with ((row - CAP) mod CAP) in Hlt
      by (replace (row - CAP) with (row + -1 * CAP) by lia; by rewrite Z.mod_add by lia).
    rewrite (IH (k + 1) (row - CAP) s); [|lia| |done].
    + replace ((k + 1) * CAP + (row - CAP)) with (k * CAP + row) by lia. done.
    + assert (0 <= (row - CAP) / CAP) by (apply Z.div_pos; lia). unfold zget in *.
      rewrite bool_decide_true in Hlk |- * by lia.
      by replace (Z.to_nat ((row - CAP) / CAP + 1)) with (S (Z.to_nat ((row - CAP) / CAP))) in Hlk by lia.
Qed.

(** ** Opening row groups *)

Definition new_groups (k j : Z) : list row_group_t := (fun i => row_group.new ((k + i) * CAP)) <$> seqZ 0 j.

Lemma new_groups_cons k j : 0 < j -> new_groups k j = row_group.new (k * CAP) :: new_groups (k + 1) (j - 1).
Proof.
  intros Hj. unfold new_groups. rewrite seqZ_cons by lia. cbn. rewrite Z.add_0_r. f_equal.
  replace (Z.succ 0) with (1 + 0) by lia. replace (Z.pred j) with (j - 1) by lia.
  rewrite <- fmap_add_seqZ, <- list_fmap_compose. apply list_fmap_ext. intros i x _. cbn. do 2 f_equal. lia.
Qed.

Lemma new_groups_sim j : forall k, 0 <= j -> groups_sim k (new_groups k j) (replicate (Z.to_nat j) spec.empty).
Proof.
  intros k Hj. rewrite <- (Z2Nat.id j) by done. generalize (Z.to_nat j). intros n. rewrite Nat2Z.id.
  revert k. induction n as [|n IH]; intros k; [done|].
  rewrite new_groups_cons by lia. replace (Z.of_nat (S n) - 1) with (Z.of_nat n) by lia.
  cbn [replicate groups_sim]. split; [apply group_sim_new|apply IH].
Qed.

Lemma zget_last {A} (l : list A) x : (l ++ [x]) !!z zlen l = Some x.
Proof.
  unfold zget, zlen. rewrite bool_decide_true, Nat2Z.id by lia. rewrite lookup_app_r, Nat.sub_diag by lia. done.
Qed.

(** [append] leaves room for all rows and opens no row group it does not need. *)
Lemma append_loop_opens fuel : forall gs g total c s remaining,
  0 <= remaining -> 0 <= collection.offset_in_row_group s <= CAP -> (collection.offset_in_row_group s = CAP -> 0 < remaining) ->
  row_group.start g = zlen gs * CAP -> collection.current_row_group s = zlen gs ->
  c = collection.Make CAP total 0 (gs ++ [g]) ->
  (Z.to_nat remaining + (if bool_decide (collection.offset_in_row_group s = CAP) then 2 else 1) <= fuel)%nat ->
  exists j s', 0 <= j /\
    collection.append_loop fuel c s remaining =
      Ok (s', collection.Make CAP total 0 (gs ++ [g] ++ new_groups (zlen gs + 1) j)) /\
    collection.start_row_group s' = collection.start_row_group s /\
    collection.total_append_count s' = collection.total_append_count s /\
    remaining <= CAP - collection.offset_in_row_group s + j * CAP /\
    (0 < j -> CAP - collection.offset_in_row_group s + (j - 1) * CAP < remaining).
Proof.
  pose proof CAP_pos as HC.
  induction fuel as [|fuel IH]; intros gs g total c s remaining Hr Ho Hfull Hst Hcur -> Hfuel.
  { case_bool_decide; lia. }
  cbn [collection.append_loop collection.row_groups_ collection.row_group_size_].
  rewrite Hcur, zget_last. cbn [of_option mbind outcome_bind].
  set (o := collection.offset_in_row_group s) in *. set (a := Z.min remaining (CAP - o)).
  destruct (decide (remaining - a = 0)) as [Hdone|Hmore].
  - rewrite bool_decide_true by done. exists 0. eexists. split_and!; [lia|reflexivity|done|done|lia|lia].
  - rewrite bool_decide_false by done.
    set (g2 := row_group.new (row_group.start g + (o + a))).
    assert (Hg2 : row_group.start g2 = zlen (gs ++ [g]) * CAP).
    { cbn. rewrite Hst, zlen_app. unfold a. change (zlen [g]) with 1. lia. }
    unfold collection.append_row_group, collection.with_groups. cbn [collection.row_groups_ collection.row_group_size_
      collection.total_rows_ collection.row_start_]. fold g2.
    destruct (IH (gs ++ [g]) g2 total (collection.Make CAP total 0 ((gs ++ [g]) ++ [g2]))
       (collection.AppendState (collection.row_start s) (collection.current_row s) (collection.total_append_count s)
          (collection.start_row_group s) (collection.last_index (collection.Make CAP total 0 ((gs ++ [g]) ++ [g2]))) 0)
       (remaining - a)) as (j & s' & Hj & Hrun & H1 & H2 & H3 & H4); cbn [collection.offset_in_row_group]; try done; try lia.
    + unfold collection.last_index. cbn. rewrite zlen_app. change (zlen [g2]) with 1. lia.
    + rewrite bool_decide_false by lia. unfold a in *. revert Hfuel. case_bool_decide; lia.
    + exists (j + 1), s'. split_and!; [lia| |done|done|cbn in *; unfold a in *; lia|cbn in *; unfold a in *; lia].
      rewrite Hrun. do 2 f_equal. rewrite (new_groups_cons _ (j + 1)) by lia.
      replace (zlen gs + 1 + 1) with (zlen (gs ++ [g]) + 1) by (rewrite zlen_app; change (zlen [g]) with 1; lia).
      replace (j + 1 - 1) with j by lia. rewrite <- !app_assoc. cbn [app].
      replace g2 with (row_group.new ((zlen gs + 1) * CAP)); [done|]. unfold g2. f_equal. rewrite Hst. unfold a. lia.
Qed.

(** ** Tables *)

(** All row groups but the last are full, and together they hold [n] rows. *)
Fixpoint packed (ss : list spec.t) (n : Z) : Prop :=
  match ss with
  | [] => n = 0
  | [s] => n = spec.total s
  | s :: ss => spec.total s = CAP /\ packed ss (n - CAP)
  end.

Lemma packed_cons s s1 ss n : packed (s :: s1 :: ss) n <-> spec.total s = CAP /\ packed (s1 :: ss) (n - CAP).
Proof. done. Qed.

Lemma packed_split ss : forall n, ss <> [] -> packed ss n ->
  exists ss0 s, ss = ss0 ++ [s] /\ (forall s', s' ∈ ss0 -> spec.total s' = CAP) /\ n = zlen ss0 * CAP + spec.total s.
Proof.
  induction ss as [|s ss IH]; intros n Hne Hp; [done|]. destruct ss as [|s1 ss].
  - exists [], s. split_and!; [done|set_solver|]. cbn [packed] in Hp. by rewrite Hp.
  - apply packed_cons in Hp as [Hs Hp]. destruct (IH (n - CAP)) as (ss0 & s' & E & Hfull & Hn); [done|done|].
    exists (s :: ss0), s'. rewrite E. split_and!; [done|set_solver|].
    replace (zlen (s :: ss0)) with (zlen ss0 + 1) by (unfold zlen; cbn; lia). lia.
Qed.

Lemma packed_app ss0 : forall ss1 n,
  ss1 <> [] -> (forall s, s ∈ ss0 -> spec.total s = CAP) -> packed ss1 (n - zlen ss0 * CAP) -> packed (ss0 ++ ss1) n.
Proof.
  induction ss0 as [|s ss0 IH]; intros ss1 n Hne Hfull Hp.
  { cbn in Hp |- *. by rewrite Z.sub_0_r in Hp. }
  replace (zlen (s :: ss0)) with (zlen ss0 + 1) in Hp by (unfold zlen; cbn; lia).
  assert (Hp' : packed (ss0 ++ ss1) (n - CAP)).
  { apply IH; [done|set_solver|]. by replace (n - CAP - zlen ss0 * CAP) with (n - (zlen ss0 + 1) * CAP) by lia. }
  cbn [app]. destruct (ss0 ++ ss1) as [|s1 ss] eqn:E.
  - destruct ss0; [by subst|done].
  - apply packed_cons. split; [apply Hfull; set_solver|done].
Qed.

Lemma packed_totals ss : forall ss' n, spec.total <$> ss = spec.total <$> ss' -> packed ss n -> packed ss' n.
Proof.
  induction ss as [|s ss IH]; intros [|s' ss'] n E Hp; try done. injection E as E1 E2.
  destruct ss as [|s1 ss], ss' as [|s1' ss']; try done; [cbn in *; congruence|].
  apply packed_cons in Hp as [H1 H2]. apply packed_cons. split; [congruence|]. by apply IH.
Qed.

Lemma packed_lookup ss : forall n row,
  (forall s, s ∈ ss -> 0 <= spec.total s <= CAP) -> packed ss n -> 0 <= row < n ->
  exists s, ss !!z (row / CAP) = Some s /\ row mod CAP < spec.total s.
Proof.
  pose proof CAP_pos as HC. induction ss as [|s ss IH]; intros n row Hcap Hp Hrow; [cbn in Hp; lia|].
  destruct ss as [|s1 ss].
  { cbn [packed] in Hp. pose proof (Hcap s ltac:(set_solver)). exists s. rewrite Z.div_small, Z.mod_small by lia. split; [done|lia]. }
  apply packed_cons in Hp as [Hs Hp]. destruct (decide (row < CAP)) as [Hh|Hh].
  { exists s. rewrite Z.div_small, Z.mod_small by lia. split; [done|lia]. }
  destruct (IH (n - CAP) (row - CAP)) as (s' & Hlk & Hlt); [set_solver|done|lia|]. exists s'.
  replace (row - CAP) with (row + -1 * CAP) in Hlk, Hlt by lia. rewrite Z.div_add in Hlk by lia. rewrite Z.mod_add in Hlt by lia.
  split; [|done]. assert (1 <= row / CAP) by (apply Z.div_le_lower_bound; lia).
  unfold zget in *. rewrite bool_decide_true in Hlk |- * by lia.
  replace (Z.to_nat (row / CAP)) with (S (Z.to_nat (row / CAP + -1))) by lia. done.
Qed.

Lemma insert_spec_packed T j : forall s n,
  0 <= spec.total s <= CAP -> 0 < n -> n <= CAP - spec.total s + Z.of_nat j * CAP ->
  (0 < Z.of_nat j -> CAP - spec.total s + (Z.of_nat j - 1) * CAP < n) ->
  packed (insert_spec T n (s :: replicate j spec.empty)) (spec.total s + n).
Proof.
  pose proof CAP_pos as HC. induction j as [|j IH]; intros s n Ht Hn Hroom Hneed;
    rewrite insert_spec_cons, bool_decide_eq_false_2 by lia; set (a := Z.min n (CAP - spec.total s)); cbn zeta.
  - replace a with n by lia. rewrite bool_decide_eq_false_2 by lia.
    cbn [replicate insert_spec]. rewrite bool_decide_eq_true_2 by lia. done.
  - replace a with (CAP - spec.total s) by nia. cbn [replicate].
    specialize (IH spec.empty (n - (CAP - spec.total s))). cbn [spec.total spec.empty] in IH.
    rewrite insert_spec_cons, (bool_decide_eq_false_2 (n - (CAP - spec.total s) <= 0)) in IH |- * by nia.
    apply packed_cons. split.
    + case_bool_decide; cbn; lia.
    + replace (spec.total s + n - CAP) with (0 + (n - (CAP - spec.total s))) by lia. apply IH; try nia.
Qed.

Lemma commit_spec_totals commit_id first n ss : forall k,
  spec.total <$> commit_spec commit_id first n k ss = spec.total <$> ss.
Proof.
  induction ss as [|s ss IH]; intros k; [done|]. cbn. rewrite IH. f_equal. unfold commit_one. by case_bool_decide.
Qed.

Lemma srow_app ss1 : forall ss2 row, 0 <= row ->
  srow (ss1 ++ ss2) row = if decide (row < zlen ss1 * CAP) then srow ss1 row else srow ss2 (row - zlen ss1 * CAP).
Proof.
  pose proof CAP_pos as HC. induction ss1 as [|s ss1 IH]; intros ss2 row Hrow.
  { cbn [app]. change (zlen (@nil spec.t)) with 0. rewrite decide_False by lia. f_equal; lia. }
  assert (E : zlen (s :: ss1) = zlen ss1 + 1) by (unfold zlen; cbn; lia). pose proof (zlen_nonneg ss1).
  cbn [app]. destruct (decide (row < CAP)).
  - rewrite decide_True by nia. by rewrite !srow_head by lia.
  - rewrite !(srow_tail s) by lia. rewrite IH by lia. rewrite E.
    repeat case_decide; try lia; [done|]. f_equal; lia.
Qed.

(** A table against the abstract tables of its row groups. *)
Record table_sim (c : collection_t) (ss : list spec.t) : Prop := {
  ts_size : collection.row_group_size_ c = CAP;
  ts_start : collection.row_start_ c = 0;
  ts_groups : groups_sim 0 (collection.row_groups_ c) ss;
  ts_packed : packed ss (collection.total_rows_ c);
}.

Definition table_ok (c : collection_t) : Prop := exists ss, table_sim c ss.

(** The stamps of a row of the table. *)
Definition row_stamp (c : collection_t) (row : Z) : Z * Z :=
  match collection.row_groups_ c !!z (row / CAP) with
  | Some g => stamps (row_group.get_or_create_version_info g) (row mod CAP)
  | None => (0, NOT_DELETED_ID)
  end.

Lemma table_ok_new : table_ok (collection.new CAP 0).
Proof. exists []. by split. Qed.

Lemma groups_sim_bounds gs : forall k ss s, groups_sim k gs ss -> s ∈ ss -> 0 <= spec.total s <= CAP.
Proof.
  induction gs as [|g gs IH]; intros k [|s0 ss] s H Hin; try done; [set_solver|]. destruct H as [[_ _ Hr Hs] H].
  apply elem_of_cons in Hin as [-> | Hin]; [|by apply (IH (k + 1) ss)]. pose proof (sim_total _ _ Hs). lia.
Qed.

Lemma row_stamp_srow c ss row : table_sim c ss -> 0 <= row < collection.total_rows_ c -> row_stamp c row = srow ss row.
Proof.
  intros [_ _ Hg Hp] Hrow. pose proof CAP_pos.
  destruct (packed_lookup ss _ row (fun s => groups_sim_bounds _ _ _ s Hg) Hp Hrow) as (s & Hlk & Hlt).
  unfold row_stamp, srow. rewrite Hlk. pose proof (groups_sim_length _ _ _ Hg) as Hlen.
  destruct (zget_is_Some (collection.row_groups_ c) (row / CAP)) as [g Hgk].
  { apply zget_Some_lt in Hlk. lia. }
  rewrite Hgk. assert (Hsim : group_sim (0 + Z.of_nat (Z.to_nat (row / CAP))) g s).
  { unfold zget in Hlk, Hgk. repeat case_bool_decide; try done.
    by apply (groups_sim_lookup (collection.row_groups_ c) 0 ss). }
  destruct Hsim as [_ _ _ Hsim]. apply (sim_stamps _ _ Hsim). pose proof (Z.mod_pos_bound row CAP). lia.
Qed.

(** [initialize_append] points at the last row group, opening the first one if needed. *)
Lemma initialize_append_sim c ss : table_sim c ss ->
  exists gs0 g ss0 s c',
    collection.initialize_append c =
      Ok (collection.AppendState (collection.total_rows_ c) (collection.total_rows_ c) 0 (zlen gs0) (zlen gs0) (spec.total s), c') /\
    c' = collection.Make CAP (collection.total_rows_ c) 0 (gs0 ++ [g]) /\
    groups_sim 0 gs0 ss0 /\ group_sim (zlen gs0) g s /\ (forall s', s' ∈ ss0 -> spec.total s' = CAP) /\
    collection.total_rows_ c = zlen ss0 * CAP + spec.total s /\
    (forall row, 0 <= row < collection.total_rows_ c -> srow (ss0 ++ [s]) row = srow ss row).
Proof.
  intros [Hsz Hst Hg Hp]. destruct c as [sz total st gs]. cbn in *. subst sz st. destruct ss as [|s0 ss].
  { destruct gs; [|done]. cbn in Hp. subst total. exists [], (row_group.new 0), [], spec.empty. eexists.
    split_and!; [reflexivity|reflexivity|done|apply (group_sim_new 0)|set_solver|done|lia]. }
  destruct (packed_split (s0 :: ss) _ ltac:(done) Hp) as (ss0 & s & E & Hfull & Hn). rewrite E in *.
  destruct (groups_sim_app_inv gs 0 ss0 s Hg) as (gs0 & g & -> & Hg0 & Hgl).
  exists gs0, g, ss0, s. eexists. split_and!; [|reflexivity|done|done|done|done|done].
  unfold collection.initialize_append, collection.last_index. cbn [collection.row_groups_].
  assert (Hlast : zlen (gs0 ++ [g]) - 1 = zlen gs0) by (rewrite zlen_app; change (zlen [g]) with 1; lia).
  replace (match gs0 ++ [g] with [] => _ | _ => _ end) with (collection.Make CAP total 0 (gs0 ++ [g])) by (by destruct gs0).
  cbn [collection.row_groups_ collection.total_rows_]. rewrite Hlast, zget_last. cbn. by rewrite (gs_count _ _ _ Hgl).
Qed.

Lemma elem_of_new_empty j s : s ∈ replicate j spec.empty -> spec.total s = 0.
Proof. intros [-> _]%elem_of_replicate. done. Qed.

Lemma room_replicate j : room (replicate j spec.empty) = Z.of_nat j * CAP.
Proof. induction j as [|j IH]; [done|]. cbn [replicate]. rewrite room_cons, IH. cbn [spec.total spec.empty]. lia. Qed.

(** An insert succeeds; its rows are those of [insert_spec] from the last row group on. *)
Lemma insert_sim c ss T n : table_sim c ss -> 0 < n ->
  exists ss0 s j c1,
    insert c T n = Ok c1 /\ collection.total_rows_ c1 = collection.total_rows_ c + n /\
    table_sim c1 (ss0 ++ insert_spec T n (s :: replicate j spec.empty)) /\
    collection.total_rows_ c = zlen ss0 * CAP + spec.total s /\ 0 <= spec.total s <= CAP /\
    n <= room (s :: replicate j spec.empty) /\ (forall s', s' ∈ ss0 -> spec.total s' = CAP) /\
    (forall row, 0 <= row < collection.total_rows_ c -> srow (ss0 ++ [s]) row = srow ss row).
Proof.
  intros Hsim Hn. pose proof CAP_pos as HC.
  destruct (initialize_append_sim c ss Hsim) as (gs0 & g & ss0 & s & c' & Hinit & -> & Hg0 & Hgl & Hfull & Htot & Hrows).
  assert (Hs : 0 <= spec.total s <= CAP).
  { destruct Hgl as [_ _ Hr Hsg]. pose proof (sim_total _ _ Hsg). lia. }
  pose proof (groups_sim_length _ _ _ Hg0) as Hlen.
  unfold insert, collection.append. rewrite Hinit. cbn [mbind outcome_bind collection.row_start collection.current_row
    collection.total_append_count collection.start_row_group collection.current_row_group collection.offset_in_row_group].
  set (total := collection.total_rows_ c) in *.
  destruct (append_loop_opens (Z.to_nat n + 2) gs0 g total (collection.Make CAP total 0 (gs0 ++ [g]))
              (collection.AppendState total total (0 + n) (zlen gs0) (zlen gs0) (spec.total s)) n)
    as (j & s' & Hj & Hrun & Hst & Hcnt & Hroom & Hneed);
    cbn [collection.offset_in_row_group]; try done; try lia; [apply (gs_start _ _ _ Hgl)|case_bool_decide; lia|].
  rewrite Hrun. cbn [mbind outcome_bind mret outcome_ret]. cbn in Hst, Hcnt, Hroom, Hneed.
  assert (Htail : groups_sim (zlen gs0) (g :: new_groups (zlen gs0 + 1) j) (s :: replicate (Z.to_nat j) spec.empty)).
  { split; [done|]. by apply new_groups_sim. }
  destruct (finalize_sim _ _ _ T n Htail) as (gs' & Hfin & Hsim').
  { rewrite room_cons, room_replicate. lia. }
  exists ss0, s, (Z.to_nat j). eexists. unfold collection.finalize_append.
  cbn [collection.start_row_group collection.total_append_count collection.row_group_size_ collection.row_groups_].
  assert (Hk : Z.to_nat (zlen gs0) = length gs0) by (unfold zlen; lia).
  rewrite Hst, Hcnt, Hk, drop_app_length, take_app_length, Z.add_0_l. cbn [app]. rewrite Hfin.
  split_and!; [reflexivity|done| |done|lia|lia|rewrite room_cons, room_replicate; lia|done|done].
  split; cbn [collection.row_group_size_ collection.total_rows_ collection.row_start_ collection.row_groups_]; [done|done| |].
  - apply groups_sim_app; [done|]. by rewrite Z.add_0_l.
  - apply packed_app; [rewrite insert_spec_cons; by case_bool_decide|done|].
    replace (total + n - zlen ss0 * CAP) with (spec.total s + n) by lia.
    apply insert_spec_packed; [done|done|lia|]. intros. rewrite Z2Nat.id by lia. apply Hneed. lia.
Qed.

(** A commit of rows that are whole appended ranges keeps the shape of the table. *)
Lemma commit_table_sim c ss commit_id first n :
  table_sim c ss -> 0 < n -> 0 <= first -> first + n < 2 ^ 64 -> owned_ranges first n 0 ss ->
  exists c2, collection.commit_append c commit_id first n = Ok c2 /\
             collection.total_rows_ c2 = collection.total_rows_ c /\ table_sim c2 (commit_spec commit_id first n 0 ss).
Proof.
  intros [Hsz Hst Hg Hp] Hn Hf Hb Hown.
  destruct (commit_sim _ 0 ss commit_id first n Hg) as (gs' & Hrun & Hg'); try done.
  unfold collection.commit_append. rewrite Hrun. eexists. split_and!; [reflexivity|done|].
  split; cbn; try done. eapply packed_totals; [|done]. by rewrite commit_spec_totals.
Qed.

(** C24: Inserting [n] rows into a well-formed table of any number of row groups and then
    committing them succeeds (new row groups are opened as needed), leaves a well-formed
    table with [n] more rows, stamps exactly the new rows with the commit id and as not
    deleted, and leaves the stamps of every older row as they were. *)
Theorem insert_commit_stamps c T cid n :
  table_ok c -> 0 < n -> collection.total_rows_ c + n < 2 ^ 64 ->
  exists c1 c2,
    insert c T n = Ok c1 /\ collection.commit_append c1 cid (collection.total_rows_ c) n = Ok c2 /\
    table_ok c2 /\ collection.total_rows_ c2 = collection.total_rows_ c + n /\
    forall row, 0 <= row < collection.total_rows_ c + n ->
      row_stamp c2 row = if decide (collection.total_rows_ c <= row) then (cid, NOT_DELETED_ID) else row_stamp c row.
Proof.
  intros [ss Hsim] Hn Hb. pose proof CAP_pos as HC.
  destruct (insert_sim c ss T n Hsim Hn) as (ss0 & s & j & c1 & Hins & Hn1 & Hsim1 & Htot & Hs & Hroom & Hfull & Hrows).
  set (first := collection.total_rows_ c) in *. pose proof (zlen_nonneg ss0).
  destruct (commit_table_sim c1 _ cid first n Hsim1) as (c2 & Hcommit & Hn2 & Hsim2); [done|nia|done| |].
  { apply owned_app; [apply owned_before; [|lia]|].
    - intros s' Hin. by rewrite (Hfull s' Hin).
    - rewrite Z.add_0_l, Htot. apply insert_spec_owned; try done. apply elem_of_new_empty. }
  exists c1, c2. split_and!; [done|done|by eexists|lia|]. intros row Hrow.
  pose proof Hsim1 as [_ _ Hg1 Hp1].
  destruct (packed_lookup _ _ row (fun s => groups_sim_bounds _ _ _ s Hg1) Hp1 ltac:(lia)) as (sr & Hlk & Hlt).
  rewrite (row_stamp_srow c2 _ row Hsim2) by lia. rewrite (commit_spec_rows _ _ _ _ 0 row sr) by (done || lia).
  rewrite Z.mul_0_l, Z.add_0_l, srow_app by lia. destruct (decide (first <= row)).
  - rewrite decide_True, decide_False by lia.
    rewrite insert_spec_rows, decide_True by (done || apply elem_of_new_empty || lia). done.
  - rewrite decide_False by lia. rewrite (row_stamp_srow c ss row Hsim), <- Hrows, srow_app by lia.
    case_decide; [done|].
    rewrite insert_spec_rows, decide_False by (done || apply elem_of_new_empty || lia). by rewrite !srow_head by lia.
Qed.

Lemma insert_commit_stamps_witness :
  exists c1 c2,
    insert (collection.new CAP 0) T1 2500 = Ok c1 /\ collection.commit_append c1 5 0 2500 = Ok c2 /\ table_ok c2 /\
    collection.total_rows_ c2 = 2500 /\
    forall row, 0 <= row < 2500 ->
      row_stamp c2 row = if decide (0 <= row) then (5, NOT_DELETED_ID) else row_stamp (collection.new CAP 0) row.
Proof. apply (insert_commit_stamps (collection.new CAP 0) T1 5 2500); [exact table_ok_new|reflexivity|reflexivity]. Defined.
