(* ===== verification/Bytes.v ===== *)
(** * Byte buffers

    Raw memory as the code reads and writes it: buffers are lists of bytes, integers are
    copied in and out in little-endian order ([std::memcpy] on the supported targets), and a
    read outside the buffer is a fault. The log and the chunk codec are built on these. *)

From S2P Require Import Prelude.
From coqutil Require Import Byte Word.LittleEndianList.
#[local] Open Scope Z_scope.

Abbreviation byte := Init.Byte.byte.
Abbreviation bytes := (list byte).

#[global] Instance byte_eq_dec : EqDecision byte.
Proof. intros a b. destruct (Byte.byte_eq_dec a b); [by left | by right]. Defined.

#[global] Instance byte_countable : Countable byte.
Proof.
  refine (inj_countable Byte.to_N Byte.of_N _). intros b. apply Byte.of_to_N.
Defined.

Definition zero_byte : byte := Byte.x00.
Definition zeros (n : Z) : bytes := replicate (Z.to_nat n) zero_byte.

(** [n] bytes from [off]. *)
Definition read_bytes (l : bytes) (off n : Z) : outcome bytes :=
  if bool_decide (0 <= off /\ 0 <= n /\ off + n <= zlen l) then
    Ok (take (Z.to_nat n) (drop (Z.to_nat off) l))
  else Fault OutOfBounds.

Definition write_le (n : nat) (v : Z) : bytes := le_split n v.

Definition read_le (n : nat) (l : bytes) (off : Z) : outcome Z :=
  le_combine <$> read_bytes l off (Z.of_nat n).

(** [memcpy(dst + off, src, size)]. *)
Definition blit (dst : bytes) (off : Z) (src : bytes) : outcome bytes :=
  if bool_decide (0 <= off /\ off + zlen src <= zlen dst) then
    Ok (take (Z.to_nat off) dst ++ src ++ drop (Z.to_nat (off + zlen src)) dst)
  else Fault OutOfBounds.

(** A write at an offset; past the end the file is filled up with zeros. *)
Definition file_write (f : bytes) (off : Z) (d : bytes) : bytes :=
  take (Z.to_nat off) (f ++ zeros (off - zlen f)) ++ d ++ drop (Z.to_nat (off + zlen d)) f.

(** A 64-bit signed integer from its bits. *)
Definition s64 (z : Z) : Z := if bool_decide (z < 2 ^ 63) then z else z - 2 ^ 64.

Definition in_signed64 (z : Z) : Prop := - 2 ^ 63 <= z < 2 ^ 63.

(** ** Lemmas *)

Lemma zlen_zeros n : 0 <= n -> zlen (zeros n) = n.
Proof. apply zlen_replicate. Qed.

Lemma zlen_write_le n v : zlen (write_le n v) = Z.of_nat n.
Proof. unfold zlen, write_le. by rewrite length_le_split. Qed.

Lemma zlen_nil {A} : zlen (@nil A) = 0.
Proof. done. Qed.

Lemma zlen_cons {A} (x : A) l : zlen (x :: l) = zlen l + 1.
Proof. unfold zlen. cbn. lia. Qed.

Lemma read_bytes_mid a b c off n : off = zlen a -> n = zlen b -> read_bytes (a ++ b ++ c) off n = Ok b.
Proof.
  intros -> ->. unfold read_bytes. rewrite !zlen_app.
  pose proof (zlen_nonneg a); pose proof (zlen_nonneg b); pose proof (zlen_nonneg c).
  rewrite bool_decide_true by lia. unfold zlen. rewrite !Nat2Z.id, drop_app_length, take_app_length. done.
Qed.

Lemma read_bytes_end a b off n : off = zlen a -> n = zlen b -> read_bytes (a ++ b) off n = Ok b.
Proof. intros. rewrite <- (app_nil_r b) at 1. by apply read_bytes_mid. Qed.

Lemma read_bytes_start b c n : n = zlen b -> read_bytes (b ++ c) 0 n = Ok b.
Proof. intros. by apply (read_bytes_mid []). Qed.

Lemma read_bytes_all b n : n = zlen b -> read_bytes b 0 n = Ok b.
Proof. intros. rewrite <- (app_nil_r b) at 1. by apply read_bytes_start. Qed.

Lemma read_bytes_zlen l off n b : read_bytes l off n = Ok b -> zlen b = n.
Proof.
  unfold read_bytes. case_bool_decide as H; [|done]. intros [= <-]. unfold zlen in *.
  rewrite length_take, length_drop. lia.
Qed.

(** A read that stays in the second part of a buffer. *)
Lemma read_bytes_skip a b off n : zlen a <= off -> read_bytes (a ++ b) off n = read_bytes b (off - zlen a) n.
Proof.
  intros Hoff. pose proof (zlen_nonneg a). unfold read_bytes. rewrite zlen_app.
  destruct (decide (0 <= n /\ off + n <= zlen a + zlen b)).
  - rewrite !bool_decide_true by lia. do 2 f_equal. rewrite drop_app_ge by (unfold zlen in *; lia).
    f_equal. unfold zlen. lia.
  - rewrite !bool_decide_false by lia. done.
Qed.

(** A read that stays in the first part. *)
Lemma read_bytes_prefix a b off n : 0 <= n -> off + n <= zlen a -> read_bytes (a ++ b) off n = read_bytes a off n.
Proof.
  intros Hn Hoff. pose proof (zlen_nonneg b). unfold read_bytes. rewrite zlen_app. destruct (decide (0 <= off)).
  - rewrite !bool_decide_true by lia. f_equal. unfold zlen in *.
    rewrite drop_app_le by lia. rewrite take_app_le; [done|]. rewrite length_drop. lia.
  - rewrite !bool_decide_false by lia. done.
Qed.

Lemma le_combine_write n v : 0 <= v < 2 ^ (8 * Z.of_nat n) -> le_combine (write_le n v) = v.
Proof. intros H. unfold write_le. rewrite le_combine_split, Z.mul_comm. by apply Z.mod_small. Qed.

Lemma read_le_mid a n v c off :
  off = zlen a -> 0 <= v < 2 ^ (8 * Z.of_nat n) -> read_le n (a ++ write_le n v ++ c) off = Ok v.
Proof.
  intros Hoff Hv. unfold read_le. rewrite (read_bytes_mid a (write_le n v) c) by (done || by rewrite zlen_write_le).
  cbn. by rewrite le_combine_write.
Qed.

Lemma read_le_at a n v c : 0 <= v < 2 ^ (8 * Z.of_nat n) -> read_le n (a ++ write_le n v ++ c) (zlen a) = Ok v.
Proof. by apply read_le_mid. Qed.

Lemma read_le_start n v c : 0 <= v < 2 ^ (8 * Z.of_nat n) -> read_le n (write_le n v ++ c) 0 = Ok v.
Proof. by apply (read_le_mid []). Qed.

Lemma read_le_skip n a b off : zlen a <= off -> read_le n (a ++ b) off = read_le n b (off - zlen a).
Proof. intros. unfold read_le. by rewrite read_bytes_skip. Qed.

Lemma read_le_prefix n a b off : off + Z.of_nat n <= zlen a -> read_le n (a ++ b) off = read_le n a off.
Proof. intros. unfold read_le. rewrite read_bytes_prefix; [done|lia|done]. Qed.

Lemma read_le_bound n l off v : read_le n l off = Ok v -> 0 <= v < 2 ^ (8 * Z.of_nat n).
Proof.
  unfold read_le. destruct (read_bytes l off (Z.of_nat n)) as [b|] eqn:E; [|done]. cbn. intros [= <-].
  apply read_bytes_zlen in E. pose proof (le_combine_bound b). unfold zlen in E. by rewrite E in *.
Qed.

Lemma read_le_ok n l off : 0 <= off -> off + Z.of_nat n <= zlen l -> exists v, read_le n l off = Ok v.
Proof. intros. unfold read_le, read_bytes. rewrite bool_decide_true by lia. by eexists. Qed.

Lemma zlen_blit dst off src dst' : blit dst off src = Ok dst' -> zlen dst' = zlen dst.
Proof.
  unfold blit. case_bool_decide; [|done]. intros [= <-]. rewrite !zlen_app. unfold zlen in *.
  rewrite length_take, length_drop. lia.
Qed.

Lemma blit_mid a b c b' : zlen b = zlen b' -> blit (a ++ b ++ c) (zlen a) b' = Ok (a ++ b' ++ c).
Proof.
  intros E. unfold blit. rewrite !zlen_app, <- E.
  pose proof (zlen_nonneg a); pose proof (zlen_nonneg b); pose proof (zlen_nonneg c).
  rewrite bool_decide_true by lia. unfold zlen. rewrite <- Nat2Z.inj_add, !Nat2Z.id, take_app_length.
  by rewrite (app_assoc a b c), <- length_app, drop_app_length.
Qed.

Lemma blit_in l a b c b' off : l = a ++ b ++ c -> off = zlen a -> zlen b = zlen b' -> blit l off b' = Ok (a ++ b' ++ c).
Proof. intros -> ->. apply blit_mid. Qed.

(** Two adjacent copies are one. *)
Lemma blit_app dst off a b : (d ← blit dst off a; blit d (off + zlen a) b) = blit dst off (a ++ b).
Proof.
  unfold blit. rewrite zlen_app. pose proof (zlen_nonneg a). pose proof (zlen_nonneg b).
  destruct (decide (0 <= off /\ off + (zlen a + zlen b) <= zlen dst)) as [Hc|Hc].
  - rewrite (bool_decide_true (0 <= off /\ off + zlen a <= _)) by lia. cbn [mbind outcome_bind].
    assert (Ht : length (take (Z.to_nat off) dst) = Z.to_nat off) by (unfold zlen in *; rewrite length_take; lia).
    rewrite !bool_decide_true; [|lia|rewrite !zlen_app; unfold zlen in *; rewrite length_take, length_drop; lia]. f_equal.
    rewrite (app_assoc (take _ dst) a), take_app_length', <- !app_assoc by (rewrite length_app; unfold zlen in *; lia). do 3 f_equal.
    rewrite (app_assoc (take _ dst) a), drop_app_ge, drop_drop by (rewrite length_app; unfold zlen in *; lia). f_equal. rewrite length_app. unfold zlen in *. lia.
  - rewrite (bool_decide_false (0 <= off /\ off + (zlen a + zlen b) <= _)) by done. case_bool_decide; cbn [mbind outcome_bind]; [|done].
    rewrite bool_decide_false; [done|]. rewrite !zlen_app. unfold zlen in *. rewrite length_take, length_drop. lia.
Qed.

(** What a copy leaves and what it stores. *)
Lemma read_blit dst off src d : blit dst off src = Ok d -> read_bytes d off (zlen src) = Ok src.
Proof.
  unfold blit. case_bool_decide; [|done]. intros [= <-]. apply read_bytes_mid; [|done]. unfold zlen in *. rewrite length_take. lia.
Qed.

Lemma s64_mod z : in_signed64 z -> s64 (z mod 2 ^ 64) = z.
Proof.
  intros Hz. unfold in_signed64, s64 in *. case_bool_decide as H; destruct (decide (0 <= z)).
  - apply Z.mod_small. lia.
  - exfalso. rewrite <- (Z.mod_add z 1) in H by lia. rewrite Z.mod_small in H; lia.
  - rewrite Z.mod_small in H; lia.
  - rewrite <- (Z.mod_add z 1) by lia. rewrite Z.mod_small; lia.
Qed.

Lemma zlen_file_write f off d : 0 <= off -> zlen (file_write f off d) = Z.max (zlen f) (off + zlen d).
Proof.
  intros Hoff. unfold file_write. rewrite !zlen_app. pose proof (zlen_nonneg f). pose proof (zlen_nonneg d).
  unfold zlen, zeros in *. rewrite length_take, length_drop, length_app, length_replicate. lia.
Qed.

Lemma zlen_write_prefix f off : 0 <= off -> zlen (take (Z.to_nat off) (f ++ zeros (off - zlen f))) = off.
Proof.
  intros Hoff. unfold zlen, zeros in *. rewrite length_take, length_app, length_replicate. lia.
Qed.

Lemma file_write_same f off d n : 0 <= off -> n = zlen d -> read_bytes (file_write f off d) off n = Ok d.
Proof. intros Hoff Hn. unfold file_write. apply read_bytes_mid; [|done]. by rewrite zlen_write_prefix. Qed.

Lemma read_bytes_take l m off n : off + n <= m -> m <= zlen l -> read_bytes (take (Z.to_nat m) l) off n = read_bytes l off n.
Proof.
  intros Hm Hl. destruct (decide (0 <= off /\ 0 <= n)).
  - rewrite <- (take_drop (Z.to_nat m) l) at 2. rewrite read_bytes_prefix; [done|lia|]. unfold zlen in *. rewrite length_take. lia.
  - unfold read_bytes. by rewrite !bool_decide_false by lia.
Qed.

Lemma read_bytes_drop l m off n b : 0 <= m -> read_bytes l (m + off) n = Ok b -> 0 <= off -> read_bytes (drop (Z.to_nat m) l) off n = Ok b.
Proof.
  intros Hm. unfold read_bytes. case_bool_decide as Hc; [|done]. intros [= <-] Hoff. rewrite bool_decide_true.
  - rewrite drop_drop. do 3 f_equal. lia.
  - unfold zlen in *. rewrite length_drop. lia.
Qed.

Lemma read_bytes_range l off n b : read_bytes l off n = Ok b -> 0 <= off /\ 0 <= n /\ off + n <= zlen l.
Proof. unfold read_bytes. by case_bool_decide. Qed.

(** A write leaves the rest of the file. *)
Lemma file_write_other f off d o n b :
  0 <= off -> read_bytes f o n = Ok b -> o + n <= off \/ off + zlen d <= o -> read_bytes (file_write f off d) o n = Ok b.
Proof.
  intros Hoff Hr Hd. pose proof (read_bytes_range _ _ _ _ Hr) as Hrange. pose proof (zlen_nonneg d). unfold file_write.
  destruct Hd as [Hd|Hd].
  - rewrite read_bytes_prefix by (rewrite ?zlen_write_prefix; lia).
    rewrite read_bytes_take; [|done|].
    + by rewrite read_bytes_prefix by lia.
    + rewrite zlen_app. unfold zlen, zeros in *. rewrite length_replicate. lia.
  - rewrite app_assoc, read_bytes_skip by (rewrite zlen_app, zlen_write_prefix; lia).
    rewrite zlen_app, zlen_write_prefix by done. apply read_bytes_drop; [lia| |lia].
    by replace (off + zlen d + (o - (off + zlen d))) with o by lia.
Qed.

Lemma read_blit_other dst off src d o n :
  blit dst off src = Ok d -> 0 <= n -> o + n <= off \/ off + zlen src <= o -> read_bytes d o n = read_bytes dst o n.
Proof.
  intros Hd Hn Ho. pose proof (zlen_blit _ _ _ _ Hd) as Hz. destruct (read_bytes dst o n) as [b|e] eqn:E.
  - revert Hd. unfold blit. case_bool_decide as Hc; [|done]. intros [= <-]. pose proof (file_write_other dst off src o n b ltac:(lia) E Ho) as H.
    unfold file_write in H. replace (zeros (off - zlen dst)) with (@nil byte) in H by (unfold zeros; pose proof (zlen_nonneg src); by replace (Z.to_nat (off - zlen dst)) with 0%nat by lia).
    by rewrite app_nil_r in H.
  - revert E. unfold read_bytes. rewrite Hz. case_bool_decide; [done|]. by intros [= <-].
Qed.

(** Evaluate [zlen] of concatenations. *)
Ltac len := repeat (rewrite ?zlen_app, ?zlen_cons, ?zlen_nil, ?zlen_write_le in * ); cbn [Z.of_nat Pos.of_succ_nat Pos.succ] in *; try lia.

(** Read one field in a concatenation of fields. *)
Ltac read_field :=
  match goal with
  | |- context [read_le ?n (write_le ?k ?v ++ ?r) 0] => rewrite (read_le_start k v r) by (cbn; unfold in_width in *; lia)
  | |- context [read_le ?n (write_le ?k ?v ++ ?r) ?off] =>
      rewrite (read_le_skip n (write_le k v) r off) by (rewrite zlen_write_le; lia);
      let o := eval vm_compute in (off - Z.of_nat k) in
      replace (off - zlen (write_le k v)) with o by (rewrite zlen_write_le; reflexivity)
  end; cbn [mbind outcome_bind].
