(* ===== verification/WalBinary.v ===== *)
(** * Write-ahead log records

    [services/wal/wal_binary.cpp]: the binary form of a log record, as it is encoded by the
    worker and decoded at recovery. The checksum function (CRC32-C of the Abseil library) is
    a parameter. The codec of data chunks is the interface [ChunkCodec]; the codec of
    [data_chunk_binary.cpp] implements it in DataChunkBinary.v. *)

From S2P Require Import Prelude.
From S2P Require Import Bytes.
From coqutil Require Import Byte Word.LittleEndianList.
#[local] Open Scope Z_scope.

(** ** Records *)

(** An enum with a fixed underlying type: a cast from a byte can give a value without a name. *)
Inductive wal_record_type :=
| COMMIT
| PHYSICAL_INSERT
| PHYSICAL_DELETE
| PHYSICAL_UPDATE
| PHYSICAL_ADD_COLUMN
| unnamed_type (value : Z).

#[global] Instance wal_record_type_eq_dec : EqDecision wal_record_type.
Proof. solve_decision. Defined.

Definition type_byte (t : wal_record_type) : Z :=
  match t with
  | COMMIT => 1
  | PHYSICAL_INSERT => 10
  | PHYSICAL_DELETE => 11
  | PHYSICAL_UPDATE => 12
  | PHYSICAL_ADD_COLUMN => 13
  | unnamed_type v => v
  end.

Definition type_of_byte (v : Z) : wal_record_type :=
  if bool_decide (v = 1) then COMMIT
  else if bool_decide (v = 10) then PHYSICAL_INSERT
  else if bool_decide (v = 11) then PHYSICAL_DELETE
  else if bool_decide (v = 12) then PHYSICAL_UPDATE
  else if bool_decide (v = 13) then PHYSICAL_ADD_COLUMN
  else unnamed_type v.

(** The chunk codec the log relies on: what is written for a chunk within the codec's
    domain is not empty and reads back as that chunk. *)
Class ChunkCodec := {
  chunk : Type;
  serialize_chunk : chunk -> outcome bytes;
  deserialize_chunk : bytes -> outcome (option chunk);
  chunk_ok : chunk -> Prop;
  chunk_round : forall c, chunk_ok c ->
    exists b, serialize_chunk c = Ok b /\ b <> [] /\ deserialize_chunk b = Ok (Some c);
}.

Section wal_binary.
Context `{Codec : ChunkCodec}.

Record record_t := Record_t {
  size : Z;
  crc32 : Z;
  last_crc32 : Z;
  id : Z;
  transaction_id : Z;
  commit_id : Z;
  record_type : wal_record_type;
  table_oid : Z;
  physical_data : option chunk;
  physical_row_ids : list Z;
  physical_row_start : Z;
  physical_row_count : Z;
  is_corrupt : bool;
}.

Definition is_valid (r : record_t) : bool := bool_decide (0 < size r) && negb (is_corrupt r).
Definition is_commit_marker (r : record_t) : bool := bool_decide (record_type r = COMMIT).
Definition is_physical (r : record_t) : bool :=
  bool_decide (record_type r = PHYSICAL_INSERT) || bool_decide (record_type r = PHYSICAL_DELETE) ||
  bool_decide (record_type r = PHYSICAL_UPDATE) || bool_decide (record_type r = PHYSICAL_ADD_COLUMN).

(** Fields without an initialiser; only corrupt records are returned with them unset. *)
Definition unset : Z := 0.
Definition INVALID_OID : Z := 0.

(** [absl::ComputeCrc32c]. *)
Variable crc32c : bytes -> Z.

Definition compute_crc (data : bytes) : Z := u32 (crc32c data).

(** ** Encoding *)

Definition DML_FIXED_HEADER : Z := 4 + 8 + 8 + 1 + 4 + 8 + 8 + 4.

Definition dml_body (last_crc32 wal_id txn_id : Z) (rtype : wal_record_type) (oid row_start row_count payload_size : Z)
    (payload : bytes) : bytes :=
  write_le 4 last_crc32 ++ write_le 8 wal_id ++ write_le 8 txn_id ++ write_le 1 (type_byte rtype) ++ write_le 4 oid ++
  write_le 8 row_start ++ write_le 8 row_count ++ write_le 4 payload_size ++ payload.

(** [total] is 32-bit arithmetic; the buffer is resized to it and everything written must fit. *)
Definition write_dml_record (buffer : bytes) (last_crc32 wal_id txn_id : Z) (rtype : wal_record_type)
    (oid row_start row_count : Z) (payload : bytes) (payload_size : Z) : outcome (bytes * Z) :=
  let size_field := u32 (DML_FIXED_HEADER + payload_size) in
  let total := u32 (u32 (4 + size_field) + 4) in
  payload ← read_bytes payload 0 payload_size;
  let body := dml_body last_crc32 wal_id txn_id rtype oid row_start row_count payload_size payload in
  if bool_decide (total < 4 + zlen body + 4) then Fault OutOfBounds
  else
    covered ← read_bytes body 0 size_field;
    let crc := compute_crc covered in
    mret (buffer ++ write_le 4 size_field ++ body ++ write_le 4 crc, crc).

Definition encode_insert (buffer : bytes) (last_crc32 wal_id txn_id oid : Z) (data_chunk : chunk) (row_start row_count : Z) :
    outcome (bytes * Z) :=
  payload_buf ← serialize_chunk data_chunk;
  write_dml_record buffer last_crc32 wal_id txn_id PHYSICAL_INSERT oid row_start row_count payload_buf (u32 (zlen payload_buf)).

Definition encode_add_column (buffer : bytes) (last_crc32 wal_id txn_id oid : Z) (schema_chunk : chunk) (column_count : Z) :
    outcome (bytes * Z) :=
  payload_buf ← serialize_chunk schema_chunk;
  write_dml_record buffer last_crc32 wal_id txn_id PHYSICAL_ADD_COLUMN oid 0 column_count payload_buf (u32 (zlen payload_buf)).

(** The memory of an [int64_t] array. *)
Definition row_id_bytes (row_ids : list Z) : bytes := row_ids ≫= write_le 8.

Definition encode_delete (buffer : bytes) (last_crc32 wal_id txn_id oid : Z) (row_ids : list Z) (count : Z) :
    outcome (bytes * Z) :=
  let payload_size := u32 (u64 (count * 8)) in
  write_dml_record buffer last_crc32 wal_id txn_id PHYSICAL_DELETE oid 0 count (row_id_bytes row_ids) payload_size.

Definition encode_update (buffer : bytes) (last_crc32 wal_id txn_id oid : Z) (row_ids : list Z) (new_data : chunk) (count : Z) :
    outcome (bytes * Z) :=
  let row_ids_bytes := u32 (u64 (count * 8)) in
  ids ← (if bool_decide (u32 (4 + row_ids_bytes) < 4 + row_ids_bytes) then Fault OutOfBounds
         else read_bytes (row_id_bytes row_ids) 0 row_ids_bytes);
  data ← serialize_chunk new_data;
  let payload_buf := write_le 4 row_ids_bytes ++ ids ++ data in
  write_dml_record buffer last_crc32 wal_id txn_id PHYSICAL_UPDATE oid 0 count payload_buf (u32 (zlen payload_buf)).

Definition COMMIT_BODY_SIZE : Z := 4 + 8 + 8 + 1 + 8.

Definition commit_body (last_crc32 wal_id txn_id commit_id : Z) : bytes :=
  write_le 4 last_crc32 ++ write_le 8 wal_id ++ write_le 8 txn_id ++ write_le 1 (type_byte COMMIT) ++ write_le 8 commit_id.

Definition encode_commit (buffer : bytes) (last_crc32 wal_id txn_id commit_id : Z) : bytes * Z :=
  let body := commit_body last_crc32 wal_id txn_id commit_id in
  let crc := compute_crc body in
  (buffer ++ write_le 4 COMMIT_BODY_SIZE ++ body ++ write_le 4 crc, crc).

(** ** Decoding *)

(** A corrupt record with what was read of it. *)
Definition corrupt_record (size crc : Z) : record_t :=
  Record_t size crc unset unset 0 0 COMMIT INVALID_OID None [] 0 0 true.

Fixpoint words (fuel : nat) (l : bytes) : list Z :=
  match fuel with
  | O => []
  | S fuel => s64 (le_combine (take 8 l)) :: words fuel (drop 8 l)
  end.

(** [physical_row_ids.resize(n / 8); memcpy(.., n)]: the copy must fit the [n / 8] words. *)
Definition copy_row_ids (src : bytes) (off n : Z) : outcome (list Z) :=
  let count := n / 8 in
  b ← read_bytes src off n;
  if bool_decide (count * 8 < n) then Fault OutOfBounds else mret (words (Z.to_nat count) b).

(** [deserialize_binary] of [n] bytes, if there are any; [None] is a failure. *)
Definition chunk_payload (data : bytes) (off n : Z) : outcome (option (option chunk)) :=
  if bool_decide (0 < n) then
    b ← read_bytes data off n;
    c ← deserialize_chunk b;
    mret (match c with Some c => Some (Some c) | None => None end)
  else mret (Some None).

(** The switch on the record type; [p] is the offset of the payload. The flag is
    [is_corrupt]; a record found corrupt keeps what was set before. *)
Definition decode_payload (rtype : wal_record_type) (data : bytes) (p payload_size : Z) :
    outcome (option chunk * list Z * bool) :=
  match rtype with
  | PHYSICAL_INSERT | PHYSICAL_ADD_COLUMN =>
      c ← chunk_payload data p payload_size;
      mret (match c with Some c => (c, [], false) | None => (None, [], true) end)
  | PHYSICAL_DELETE =>
      ids ← copy_row_ids data p payload_size;
      mret (None, ids, false)
  | PHYSICAL_UPDATE =>
      if bool_decide (payload_size < 4) then mret (None, [], true)
      else
        row_ids_bytes ← read_le 4 data p;
        if bool_decide (payload_size < u32 (4 + row_ids_bytes)) then mret (None, [], true)
        else
          ids ← copy_row_ids data (p + 4) row_ids_bytes;
          c ← chunk_payload data (p + 4 + row_ids_bytes) (u32 (payload_size - 4 - row_ids_bytes));
          mret (match c with Some c => (c, ids, false) | None => (None, ids, true) end)
  | COMMIT | unnamed_type _ => mret (None, [], true)
  end.

(** The fields from [last_crc32] on; [ptr] is 4 throughout, the start of the body. *)
Definition decode_body (data : bytes) (size crc body_size : Z) : outcome record_t :=
  last_crc32 ← read_le 4 data 4;
  id ← read_le 8 data 8;
  transaction_id ← read_le 8 data 16;
  ty ← read_le 1 data 24;
  let rtype := type_of_byte ty in
  if bool_decide (rtype = COMMIT) then
    commit_id ← read_le 8 data 25;
    mret (Record_t size crc last_crc32 id transaction_id commit_id rtype INVALID_OID None [] 0 0 false)
  else if bool_decide (body_size < DML_FIXED_HEADER) then
    mret (Record_t size crc last_crc32 id transaction_id 0 rtype INVALID_OID None [] 0 0 true)
  else
    oid ← read_le 4 data 25;
    row_start ← read_le 8 data 29;
    row_count ← read_le 8 data 37;
    payload_size ← read_le 4 data 45;
    let make := fun pd ids bad => Record_t size crc last_crc32 id transaction_id 0 rtype oid pd ids row_start row_count bad in
    if negb (bool_decide (DML_FIXED_HEADER + payload_size = body_size)) then mret (make None [] true)
    else
      '(pd, ids, bad) ← decode_payload rtype data 49 payload_size;
      mret (make pd ids bad).

Definition decode_record (data : bytes) : outcome record_t :=
  let len := zlen data in
  if bool_decide (len < 37) then mret (corrupt_record 0 unset)
  else
    body_size ← read_le 4 data 0;
    let total := u32 (u32 (4 + body_size) + 4) in
    if bool_decide (len < total) then mret (corrupt_record 0 unset)
    else
      expected_crc ← read_le 4 data (4 + body_size);
      body ← read_bytes data 4 body_size;
      let actual_crc := compute_crc body in
      if negb (bool_decide (expected_crc = actual_crc)) then mret (corrupt_record total expected_crc)
      else decode_body data total actual_crc body_size.

Definition extract_crc (data : bytes) : outcome Z :=
  if bool_decide (zlen data < 4) then mret 0 else read_le 4 data (zlen data - 4).

(** ** Round trip *)

(** What the worker logs, apart from the ids every record carries. *)
Inductive logged :=
| Insert (oid : Z) (data : chunk) (row_start row_count : Z)
| Delete (oid : Z) (row_ids : list Z)
| Update (oid : Z) (row_ids : list Z) (data : chunk)
| AddColumn (oid : Z) (schema : chunk) (column_count : Z)
| Commit (commit_id : Z).

Definition encode (last_crc wal_id txn_id : Z) (op : logged) : outcome (bytes * Z) :=
  match op with
  | Insert oid c row_start row_count => encode_insert [] last_crc wal_id txn_id oid c row_start row_count
  | Delete oid ids => encode_delete [] last_crc wal_id txn_id oid ids (zlen ids)
  | Update oid ids c => encode_update [] last_crc wal_id txn_id oid ids c (zlen ids)
  | AddColumn oid c n => encode_add_column [] last_crc wal_id txn_id oid c n
  | Commit commit_id => Ok (encode_commit [] last_crc wal_id txn_id commit_id)
  end.

(** The record that stands for it. *)
Definition record_of (last_crc wal_id txn_id size crc : Z) (op : logged) : record_t :=
  match op with
  | Insert oid c row_start row_count =>
      Record_t size crc last_crc wal_id txn_id 0 PHYSICAL_INSERT oid (Some c) [] row_start row_count false
  | Delete oid ids => Record_t size crc last_crc wal_id txn_id 0 PHYSICAL_DELETE oid None ids 0 (zlen ids) false
  | Update oid ids c => Record_t size crc last_crc wal_id txn_id 0 PHYSICAL_UPDATE oid (Some c) ids 0 (zlen ids) false
  | AddColumn oid c n => Record_t size crc last_crc wal_id txn_id 0 PHYSICAL_ADD_COLUMN oid (Some c) [] 0 n false
  | Commit commit_id => Record_t size crc last_crc wal_id txn_id commit_id COMMIT INVALID_OID None [] 0 0 false
  end.

(** Machine-width fields, and a payload whose record length fits 32 bits. *)
Definition payload_fits (n : Z) : Prop := n < 2 ^ 32 - 53.

Definition chunk_fits (c : chunk) (extra : Z) : Prop :=
  chunk_ok c /\ forall b, serialize_chunk c = Ok b -> payload_fits (extra + zlen b).

Definition ids_ok (ids : list Z) : Prop := Forall in_signed64 ids.

Definition logged_ok (op : logged) : Prop :=
  match op with
  | Insert oid c row_start row_count =>
      in_width 32 oid /\ chunk_fits c 0 /\ in_width 64 row_start /\ in_width 64 row_count
  | Delete oid ids => in_width 32 oid /\ ids_ok ids /\ payload_fits (zlen ids * 8)
  | Update oid ids c => in_width 32 oid /\ ids_ok ids /\ chunk_fits c (4 + zlen ids * 8)
  | AddColumn oid c n => in_width 32 oid /\ chunk_fits c 0 /\ in_width 64 n
  | Commit commit_id => in_width 64 commit_id
  end.

Lemma type_of_type_byte t : (forall v, t <> unnamed_type v) -> type_of_byte (type_byte t) = t.
Proof. destruct t; intros H; try done. by destruct (H value). Qed.

Lemma type_byte_small t : (forall v, t <> unnamed_type v) -> 0 <= type_byte t < 256.
Proof. destruct t; intros H; cbn; try lia. by destruct (H value). Qed.

Lemma row_id_bytes_cons i ids : row_id_bytes (i :: ids) = write_le 8 i ++ row_id_bytes ids.
Proof. done. Qed.

Lemma zlen_row_id_bytes ids : zlen (row_id_bytes ids) = zlen ids * 8.
Proof. induction ids as [|i ids IH]; [done|]. rewrite row_id_bytes_cons, zlen_app, zlen_cons, zlen_write_le, IH. lia. Qed.

Lemma words_row_id_bytes ids : ids_ok ids -> words (length ids) (row_id_bytes ids) = ids.
Proof.
  induction ids as [|i ids IH]; [done|]. intros [Hi Hids]%Forall_cons. cbn [length words]. rewrite row_id_bytes_cons.
  assert (E : length (write_le 8 i) = 8%nat) by apply length_le_split.
  rewrite take_app_le, drop_app_ge by lia. rewrite E, Nat.sub_diag, drop_0, IH by done.
  rewrite take_ge by lia. unfold write_le. rewrite le_combine_split. by rewrite s64_mod.
Qed.

Lemma copy_row_ids_ok a ids c off n :
  ids_ok ids -> off = zlen a -> n = zlen ids * 8 -> copy_row_ids (a ++ row_id_bytes ids ++ c) off n = Ok ids.
Proof.
  intros Hids -> ->. unfold copy_row_ids. rewrite read_bytes_mid by (done || by rewrite zlen_row_id_bytes).
  rewrite Z.div_mul by done. cbn [mbind outcome_bind]. rewrite bool_decide_false by lia. cbn.
  f_equal. unfold zlen. rewrite Nat2Z.id. by apply words_row_id_bytes.
Qed.

Lemma chunk_payload_ok a c b rest off n :
  serialize_chunk c = Ok b -> b <> [] -> deserialize_chunk b = Ok (Some c) -> off = zlen a -> n = zlen b ->
  chunk_payload (a ++ b ++ rest) off n = Ok (Some (Some c)).
Proof.
  intros Hs Hne Hd -> ->. unfold chunk_payload.
  rewrite bool_decide_true by (destruct b; [done|rewrite zlen_cons; pose proof (zlen_nonneg b0); lia]).
  rewrite read_bytes_mid by done. cbn. by rewrite Hd.
Qed.

(** A whole record of data manipulation, in one piece and split at its payload. *)
Definition dml_prefix (last_crc32 wal_id txn_id : Z) (rtype : wal_record_type) (oid row_start row_count n : Z) : bytes :=
  write_le 4 (DML_FIXED_HEADER + n) ++ write_le 4 last_crc32 ++ write_le 8 wal_id ++ write_le 8 txn_id ++
  write_le 1 (type_byte rtype) ++ write_le 4 oid ++ write_le 8 row_start ++ write_le 8 row_count ++ write_le 4 n.

Definition dml_crc (last_crc32 wal_id txn_id : Z) (rtype : wal_record_type) (oid row_start row_count : Z) (payload : bytes) : Z :=
  compute_crc (dml_body last_crc32 wal_id txn_id rtype oid row_start row_count (zlen payload) payload).

Definition dml_record (last_crc32 wal_id txn_id : Z) (rtype : wal_record_type) (oid row_start row_count : Z) (payload : bytes) : bytes :=
  dml_prefix last_crc32 wal_id txn_id rtype oid row_start row_count (zlen payload) ++ payload ++
  write_le 4 (dml_crc last_crc32 wal_id txn_id rtype oid row_start row_count payload).

Ltac field :=
  match goal with |- read_le _ ?data _ = _ => unfold data end;
  unfold dml_record, dml_prefix; rewrite <- !app_assoc; repeat read_field; reflexivity.

Lemma zlen_dml_prefix last_crc wal txn t oid rs rc n : zlen (dml_prefix last_crc wal txn t oid rs rc n) = 49.
Proof. unfold dml_prefix. rewrite !zlen_app, !zlen_write_le. done. Qed.

Lemma zlen_dml_body last_crc wal txn t oid rs rc n payload :
  zlen (dml_body last_crc wal txn t oid rs rc n payload) = DML_FIXED_HEADER + zlen payload.
Proof. unfold dml_body, DML_FIXED_HEADER. rewrite !zlen_app, !zlen_write_le. lia. Qed.

Lemma zlen_dml_record last_crc wal txn t oid rs rc payload :
  zlen (dml_record last_crc wal txn t oid rs rc payload) = 53 + zlen payload.
Proof. unfold dml_record. rewrite !zlen_app, zlen_dml_prefix, zlen_write_le. lia. Qed.

Lemma dml_record_body last_crc wal txn t oid rs rc payload :
  dml_record last_crc wal txn t oid rs rc payload =
  write_le 4 (DML_FIXED_HEADER + zlen payload) ++ dml_body last_crc wal txn t oid rs rc (zlen payload) payload ++
  write_le 4 (dml_crc last_crc wal txn t oid rs rc payload).
Proof. unfold dml_record, dml_prefix, dml_body. by rewrite <- !app_assoc. Qed.

Lemma compute_crc_width b : in_width 32 (compute_crc b).
Proof. by apply wrap_width. Qed.

Lemma write_dml_record_ok buffer last_crc wal txn t oid rs rc payload rest :
  payload_fits (zlen payload) ->
  write_dml_record buffer last_crc wal txn t oid rs rc (payload ++ rest) (zlen payload) =
  Ok (buffer ++ dml_record last_crc wal txn t oid rs rc payload, dml_crc last_crc wal txn t oid rs rc payload).
Proof.
  intros Hfit. unfold payload_fits in Hfit. pose proof (zlen_nonneg payload) as Hp. unfold write_dml_record.
  rewrite read_bytes_start by done. cbn [mbind outcome_bind].
  rewrite (wrap_small 32 (DML_FIXED_HEADER + zlen payload)) by (unfold in_width, DML_FIXED_HEADER; lia).
  rewrite (wrap_small 32 (4 + _)), (wrap_small 32 (_ + 4)) by (unfold in_width, DML_FIXED_HEADER; lia).
  rewrite zlen_dml_body, bool_decide_false by lia.
  rewrite read_bytes_all by (by rewrite zlen_dml_body). cbn. by rewrite dml_record_body.
Qed.

Lemma decode_dml last_crc wal txn t oid rs rc payload :
  in_width 32 last_crc -> in_width 64 wal -> in_width 64 txn -> in_width 32 oid -> in_width 64 rs -> in_width 64 rc ->
  t <> COMMIT -> (forall v, t <> unnamed_type v) -> payload_fits (zlen payload) ->
  decode_record (dml_record last_crc wal txn t oid rs rc payload) =
  '(pd, ids, bad) ← decode_payload t (dml_record last_crc wal txn t oid rs rc payload) 49 (zlen payload);
  mret (Record_t (53 + zlen payload) (dml_crc last_crc wal txn t oid rs rc payload) last_crc wal txn 0 t oid pd ids rs rc bad).
Proof.
  intros Hlast Hwal Htxn Hoid Hrs Hrc Hc Hu Hfit. unfold payload_fits in Hfit. pose proof (zlen_nonneg payload) as Hp.
  unfold decode_record. rewrite zlen_dml_record, bool_decide_false by lia. set (data := dml_record _ _ _ _ _ _ _ _) in *.
  assert (Hsz : read_le 4 data 0 = Ok (DML_FIXED_HEADER + zlen payload)).
  { unfold data. rewrite dml_record_body. rewrite read_le_start; [done|cbn; unfold DML_FIXED_HEADER; lia]. }
  rewrite Hsz. cbn [mbind outcome_bind].
  rewrite (wrap_small 32 (4 + _)), (wrap_small 32 (_ + 4)) by (unfold in_width, DML_FIXED_HEADER; lia).
  rewrite bool_decide_false by (unfold DML_FIXED_HEADER; lia).
  assert (Hcrc : read_le 4 data (4 + (DML_FIXED_HEADER + zlen payload)) = Ok (dml_crc last_crc wal txn t oid rs rc payload)).
  { unfold data. rewrite dml_record_body, app_assoc. rewrite <- (app_nil_r (write_le 4 (dml_crc _ _ _ _ _ _ _ _))).
    apply read_le_mid; [by rewrite zlen_app, zlen_write_le, zlen_dml_body|apply compute_crc_width]. }
  assert (Hbody : read_bytes data 4 (DML_FIXED_HEADER + zlen payload) = Ok (dml_body last_crc wal txn t oid rs rc (zlen payload) payload)).
  { unfold data. rewrite dml_record_body. apply read_bytes_mid; [done|by rewrite zlen_dml_body]. }
  rewrite Hcrc. cbn [mbind outcome_bind]. rewrite Hbody. cbn [mbind outcome_bind].
  fold (dml_crc last_crc wal txn t oid rs rc payload). rewrite bool_decide_true by done. cbn [negb].
  replace (4 + (DML_FIXED_HEADER + zlen payload) + 4) with (53 + zlen payload) by (unfold DML_FIXED_HEADER; lia).
  pose proof (type_byte_small t Hu) as Ht.
  assert (H1 : read_le 4 data 4 = Ok last_crc) by field. assert (H2 : read_le 8 data 8 = Ok wal) by field.
  assert (H3 : read_le 8 data 16 = Ok txn) by field. assert (H4 : read_le 1 data 24 = Ok (type_byte t)) by field.
  assert (H5 : read_le 4 data 25 = Ok oid) by field. assert (H6 : read_le 8 data 29 = Ok rs) by field.
  assert (H7 : read_le 8 data 37 = Ok rc) by field. assert (H8 : read_le 4 data 45 = Ok (zlen payload)) by field.
  unfold decode_body. rewrite H1, H2, H3, H4. cbn [mbind outcome_bind]. rewrite type_of_type_byte by done.
  rewrite (bool_decide_false (t = COMMIT)), bool_decide_false by (done || lia).
  rewrite H5, H6, H7, H8. cbn [mbind outcome_bind]. rewrite bool_decide_true by done. done.
Qed.

(** A commit record. *)
Definition commit_record (last_crc wal txn commit_id : Z) : bytes :=
  write_le 4 COMMIT_BODY_SIZE ++ commit_body last_crc wal txn commit_id ++
  write_le 4 (compute_crc (commit_body last_crc wal txn commit_id)).

Ltac commit_field :=
  match goal with |- read_le _ ?data _ = _ => unfold data end;
  unfold commit_record, commit_body; rewrite <- !app_assoc; repeat read_field; reflexivity.

Lemma zlen_commit_body last_crc wal txn commit_id : zlen (commit_body last_crc wal txn commit_id) = COMMIT_BODY_SIZE.
Proof. unfold commit_body. rewrite !zlen_app, !zlen_write_le. done. Qed.

Lemma zlen_commit_record last_crc wal txn commit_id : zlen (commit_record last_crc wal txn commit_id) = 37.
Proof. unfold commit_record. rewrite !zlen_app, zlen_commit_body, !zlen_write_le. done. Qed.

Lemma decode_commit last_crc wal txn commit_id :
  in_width 32 last_crc -> in_width 64 wal -> in_width 64 txn -> in_width 64 commit_id ->
  decode_record (commit_record last_crc wal txn commit_id) =
  Ok (Record_t 37 (compute_crc (commit_body last_crc wal txn commit_id)) last_crc wal txn commit_id COMMIT INVALID_OID None [] 0 0 false).
Proof.
  intros Hlast Hwal Htxn Hcid. unfold decode_record. rewrite zlen_commit_record, bool_decide_false by lia.
  set (data := commit_record _ _ _ _) in *.
  assert (Hsz : read_le 4 data 0 = Ok COMMIT_BODY_SIZE) by (apply read_le_start; done).
  assert (Hbody : read_bytes data 4 COMMIT_BODY_SIZE = Ok (commit_body last_crc wal txn commit_id))
    by (apply read_bytes_mid; [done|by rewrite zlen_commit_body]).
  assert (Hcrc : read_le 4 data (4 + COMMIT_BODY_SIZE) = Ok (compute_crc (commit_body last_crc wal txn commit_id))).
  { unfold data, commit_record. rewrite app_assoc, <- (app_nil_r (write_le 4 (compute_crc _))).
    apply read_le_mid; [by rewrite zlen_app, zlen_commit_body|apply compute_crc_width]. }
  rewrite Hsz. cbn [mbind outcome_bind]. rewrite bool_decide_false by (vm_compute; done).
  rewrite Hcrc, Hbody. cbn [mbind outcome_bind]. rewrite bool_decide_true by done. cbn [negb].
  assert (H1 : read_le 4 data 4 = Ok last_crc) by commit_field. assert (H2 : read_le 8 data 8 = Ok wal) by commit_field.
  assert (H3 : read_le 8 data 16 = Ok txn) by commit_field. assert (H4 : read_le 1 data 24 = Ok 1) by commit_field.
  assert (H5 : read_le 8 data 25 = Ok commit_id) by commit_field.
  unfold decode_body. rewrite H1, H2, H3, H4. cbn [mbind outcome_bind].
  rewrite bool_decide_true by done. by rewrite H5.
Qed.

(** ** The round trip *)

(** The form every record has: a length, that many bytes, the checksum. *)
Definition framed (b : bytes) (crc : Z) : Prop :=
  exists body, b = write_le 4 (zlen body) ++ body ++ write_le 4 crc /\ 29 <= zlen body < 2 ^ 32 - 8 /\ in_width 32 crc.

Lemma framed_size b crc : framed b crc -> exists n, read_le 4 b 0 = Ok n /\ zlen b = n + 8 /\ 29 <= n < 2 ^ 32 - 8.
Proof.
  intros (body & -> & Hn & _). exists (zlen body). split_and!; [apply read_le_start; cbn; lia| |lia|lia].
  rewrite !zlen_app, !zlen_write_le. lia.
Qed.

Lemma framed_crc b crc : framed b crc -> extract_crc b = Ok crc.
Proof.
  intros (body & -> & Hn & Hcrc). unfold extract_crc. rewrite !zlen_app, !zlen_write_le, bool_decide_false by lia.
  rewrite app_assoc, <- (app_nil_r (write_le 4 crc)). apply read_le_mid; [|done]. rewrite zlen_app, zlen_write_le. lia.
Qed.

Lemma framed_dml last_crc wal txn t oid rs rc payload :
  payload_fits (zlen payload) -> framed (dml_record last_crc wal txn t oid rs rc payload) (dml_crc last_crc wal txn t oid rs rc payload).
Proof.
  unfold payload_fits. intros Hfit. pose proof (zlen_nonneg payload). rewrite dml_record_body. eexists. split_and!.
  - rewrite <- (zlen_dml_body last_crc wal txn t oid rs rc (zlen payload) payload) at 1. done.
  - rewrite zlen_dml_body. unfold DML_FIXED_HEADER. lia.
  - rewrite zlen_dml_body. unfold DML_FIXED_HEADER. lia.
  - apply compute_crc_width.
Qed.

Lemma framed_commit last_crc wal txn commit_id :
  framed (commit_record last_crc wal txn commit_id) (compute_crc (commit_body last_crc wal txn commit_id)).
Proof.
  eexists. split_and!; [unfold commit_record; by rewrite <- (zlen_commit_body last_crc wal txn commit_id) at 1| | |apply compute_crc_width];
    rewrite zlen_commit_body; vm_compute; done.
Qed.

Lemma dml_case last_crc wal txn t oid rs rc payload pd ids :
  in_width 32 last_crc -> in_width 64 wal -> in_width 64 txn -> in_width 32 oid -> in_width 64 rs -> in_width 64 rc ->
  t <> COMMIT -> (forall v, t <> unnamed_type v) -> payload_fits (zlen payload) ->
  decode_payload t (dml_record last_crc wal txn t oid rs rc payload) 49 (zlen payload) = Ok (pd, ids, false) ->
  exists b crc, write_dml_record [] last_crc wal txn t oid rs rc payload (u32 (zlen payload)) = Ok (b, crc) /\ framed b crc /\
    decode_record b = Ok (Record_t (zlen b) crc last_crc wal txn 0 t oid pd ids rs rc false).
Proof.
  intros Hlast Hwal Htxn Hoid Hrs Hrc Hc Hu Hfit Hp. pose proof (zlen_nonneg payload). pose proof Hfit as Hf. unfold payload_fits in Hf.
  rewrite wrap_small by (unfold in_width; lia). pose proof (write_dml_record_ok [] last_crc wal txn t oid rs rc payload [] Hfit) as Hw.
  rewrite app_nil_r in Hw. cbn [app] in Hw. rewrite Hw.
  eexists _, _. split_and!; [done|by apply framed_dml|]. rewrite decode_dml by done. rewrite Hp. cbn. by rewrite zlen_dml_record.
Qed.

(** Payloads in a record start at offset 49 and end before the checksum. *)
Lemma payload_chunk last_crc wal txn t oid rs rc c b :
  serialize_chunk c = Ok b -> b <> [] -> deserialize_chunk b = Ok (Some c) ->
  chunk_payload (dml_record last_crc wal txn t oid rs rc b) 49 (zlen b) = Ok (Some (Some c)).
Proof. intros. by apply chunk_payload_ok; rewrite ?zlen_dml_prefix. Qed.

Lemma payload_update last_crc wal txn oid rs rc ids c b :
  ids_ok ids -> serialize_chunk c = Ok b -> b <> [] -> deserialize_chunk b = Ok (Some c) ->
  payload_fits (4 + zlen ids * 8 + zlen b) ->
  let payload := write_le 4 (zlen ids * 8) ++ row_id_bytes ids ++ b in
  decode_payload PHYSICAL_UPDATE (dml_record last_crc wal txn PHYSICAL_UPDATE oid rs rc payload) 49 (zlen payload) =
  Ok (Some c, ids, false).
Proof.
  intros Hids Hs Hne Hd Hfit payload. unfold payload_fits in Hfit. pose proof (zlen_nonneg ids). pose proof (zlen_nonneg b).
  assert (Hlen : zlen payload = 4 + zlen ids * 8 + zlen b)
    by (unfold payload; rewrite !zlen_app, zlen_write_le, zlen_row_id_bytes; lia).
  cbn [decode_payload]. rewrite bool_decide_false by lia. unfold dml_record.
  set (a := dml_prefix _ _ _ _ _ _ _ _). set (z := write_le 4 (dml_crc _ _ _ _ _ _ _ _)).
  assert (Ha : zlen a = 49) by apply zlen_dml_prefix.
  assert (Ha4 : zlen (a ++ write_le 4 (zlen ids * 8)) = 53) by (rewrite zlen_app, zlen_write_le; lia).
  assert (H1 : read_le 4 (a ++ payload ++ z) 49 = Ok (zlen ids * 8)).
  { unfold payload. rewrite <- !app_assoc. apply read_le_mid; [done|cbn; lia]. }
  assert (H2 : copy_row_ids (a ++ payload ++ z) (49 + 4) (zlen ids * 8) = Ok ids).
  { unfold payload. rewrite <- !app_assoc, (app_assoc a). by apply copy_row_ids_ok. }
  assert (H3 : chunk_payload (a ++ payload ++ z) (49 + 4 + zlen ids * 8) (zlen b) = Ok (Some (Some c))).
  { unfold payload. rewrite <- !app_assoc, (app_assoc a), (app_assoc _ (row_id_bytes ids)).
    apply chunk_payload_ok; try done. rewrite zlen_app, zlen_row_id_bytes. lia. }
  rewrite H1. cbn [mbind outcome_bind].
  rewrite (wrap_small 32 (4 + zlen ids * 8)), bool_decide_false by (unfold in_width in *; lia).
  rewrite H2. cbn [mbind outcome_bind].
  rewrite (wrap_small 32 (zlen payload - _ - _)) by (unfold in_width; lia).
  replace (zlen payload - 4 - zlen ids * 8) with (zlen b) by lia. by rewrite H3.
Qed.

Lemma chunk_fits_round c extra : chunk_fits c extra ->
  exists b, serialize_chunk c = Ok b /\ b <> [] /\ deserialize_chunk b = Ok (Some c) /\ payload_fits (extra + zlen b).
Proof. intros [Hok Hfit]. destruct (chunk_round c Hok) as (b & Hs & Hne & Hd). exists b. split_and!; auto. Qed.

(** Every record the worker encodes is framed and decodes to what was logged. *)
Lemma encode_decode last_crc wal txn op :
  in_width 32 last_crc -> in_width 64 wal -> in_width 64 txn -> logged_ok op ->
  exists b crc, encode last_crc wal txn op = Ok (b, crc) /\ framed b crc /\
                decode_record b = Ok (record_of last_crc wal txn (zlen b) crc op).
Proof.
  intros Hlast Hwal Htxn Hop. destruct op as [oid c rs rc|oid ids|oid ids c|oid c n|cid]; cbn [encode logged_ok record_of] in *.
  - destruct Hop as (Hoid & Hc & Hrs & Hrc). destruct (chunk_fits_round c 0 Hc) as (b & Hs & Hne & Hd & Hfit).
    unfold encode_insert. rewrite Hs. apply dml_case; try done. cbn [decode_payload]. by rewrite (payload_chunk _ _ _ _ _ _ _ c b).
  - destruct Hop as (Hoid & Hids & Hfit). unfold encode_delete. pose proof (zlen_nonneg ids). pose proof Hfit as Hf. unfold payload_fits in Hf.
    rewrite (wrap_small 64) by (unfold in_width; lia). rewrite <- zlen_row_id_bytes in Hfit |- *.
    apply dml_case; try done; [unfold in_width; lia|]. cbn [decode_payload]. unfold dml_record.
    by rewrite copy_row_ids_ok by (done || apply zlen_row_id_bytes).
  - destruct Hop as (Hoid & Hids & Hc). destruct (chunk_fits_round c _ Hc) as (b & Hs & Hne & Hd & Hfit).
    unfold encode_update. pose proof (zlen_nonneg ids). pose proof (zlen_nonneg b). pose proof Hfit as Hf. unfold payload_fits in Hf.
    rewrite (wrap_small 64), (wrap_small 32 (zlen ids * 8)), (wrap_small 32 (4 + _)) by (unfold in_width; lia).
    rewrite bool_decide_false by lia. rewrite read_bytes_all by (by rewrite zlen_row_id_bytes). rewrite Hs. cbn [mbind outcome_bind].
    apply dml_case; try done; [unfold in_width; lia| |by apply payload_update].
    unfold payload_fits. rewrite !zlen_app, zlen_write_le, zlen_row_id_bytes. lia.
  - destruct Hop as (Hoid & Hc & Hn). destruct (chunk_fits_round c 0 Hc) as (b & Hs & Hne & Hd & Hfit).
    unfold encode_add_column. rewrite Hs. apply dml_case; try done. cbn [decode_payload]. by rewrite (payload_chunk _ _ _ _ _ _ _ c b).
  - exists (commit_record last_crc wal txn cid), (compute_crc (commit_body last_crc wal txn cid)).
    split_and!; [done|apply framed_commit|].
    rewrite zlen_commit_record. by apply decode_commit.
Qed.
End wal_binary.
