(* ===== verification/DataChunkBinary.v ===== *)
(** * The binary form of data chunks

    [components/vector/data_chunk_binary.cpp]: how a chunk of columns is written into a log
    record and read back, with the column types of [components/types/types.cpp] it needs.
    The codec implements the interface [ChunkCodec] of WalBinary.v. *)

From S2P Require Import Prelude.
From S2P Require Import Bytes.
From S2P Require Import RowVersion.
From S2P Require Import WalBinary.
From coqutil Require Import Byte Word.LittleEndianList.
#[local] Open Scope Z_scope.

(** ** Types *)

Inductive physical_type :=
| BOOL | UINT8 | INT8 | UINT16 | INT16 | UINT32 | INT32 | UINT64 | INT64 | UINT128 | INT128
| FLOAT | DOUBLE | STRING | LIST | STRUCT | UNION | ARRAY_TYPE | NA | UNKNOWN | BIT | INVALID.

#[global] Instance physical_type_eq_dec : EqDecision physical_type.
Proof. solve_decision. Defined.

(** A [logical_type] is its byte; these are the values the code names here. *)
Definition LT_DECIMAL : Z := 22.
Definition LT_ARRAY : Z := 109.

(** [physical_type_table]. *)
Definition logical_to_physical (type : Z) : physical_type :=
  match type with
  | 0 => NA
  | 10 => BOOL
  | 11 => INT8 | 27 => UINT8
  | 12 => INT16 | 28 => UINT16
  | 104 | 13 => INT32 | 29 => UINT32
  | 14 => INT64
  | 16 => INT32
  | 17 => INT64
  | 18 => STRUCT
  | 19 | 20 => INT64
  | 21 => STRUCT
  | 22 => INT64
  | 30 => UINT64
  | 31 => UINT128
  | 15 | 54 => INT128
  | 23 => FLOAT
  | 24 => DOUBLE
  | 35 => STRING
  | 53 => BIT
  | 109 => ARRAY_TYPE
  | 100 | 107 | 108 => STRUCT
  | 101 | 102 => LIST
  | 127 => UNKNOWN
  | _ => INVALID
  end.

(** The extensions the codec distinguishes; all others are written like [GENERIC]. *)
Inductive complex_logical_type :=
| Complex (type_ : Z) (extension_ : option logical_type_extension)
with logical_type_extension :=
| Extension (alias_ : bytes) (kind : extension_kind)
with extension_kind :=
| GENERIC
| ARRAY (items_type_ : complex_logical_type) (size_ : Z)
| DECIMAL (width_ scale_ : Z)
| unwritten_extension.

Definition type_ (t : complex_logical_type) : Z := let 'Complex ty _ := t in ty.
Definition extension_ (t : complex_logical_type) : option logical_type_extension := let 'Complex _ e := t in e.

(** [has_alias() ? alias() : ""]. *)
Definition alias (t : complex_logical_type) : bytes :=
  match extension_ t with Some (Extension a _) => a | None => [] end.

Definition decimal_storage_type (width : Z) : outcome physical_type :=
  if bool_decide (width <= 4) then Ok INT16
  else if bool_decide (width <= 9) then Ok INT32
  else if bool_decide (width <= 18) then Ok INT64
  else if bool_decide (width <= 38) then Ok INT128
  else Fault (Throw 3).

(** A decimal without a decimal extension makes the code read through the wrong pointer. *)
Definition to_physical_type (t : complex_logical_type) : outcome physical_type :=
  if bool_decide (type_ t = LT_DECIMAL) then
    match extension_ t with
    | Some (Extension _ (DECIMAL width _)) => decimal_storage_type width
    | Some _ => Fault OutOfBounds
    | None => Fault NullDeref
    end
  else Ok (logical_to_physical (type_ t)).

(** [complex_logical_type::size]: the width of a cell in the column's own buffer. *)
Definition object_size (p : physical_type) : Z :=
  match p with
  | BIT | BOOL | INT8 | UINT8 => 1
  | INT16 | UINT16 => 2
  | INT32 | UINT32 | FLOAT => 4
  | INT64 | UINT64 | DOUBLE => 8
  | STRING | LIST => 16
  | _ => 0
  end.

Definition make_type (type : Z) (al : bytes) : complex_logical_type :=
  Complex type (match al with [] => None | _ => Some (Extension al GENERIC) end).

Definition create_array (inner size : Z) (al : bytes) : complex_logical_type :=
  Complex LT_ARRAY (Some (Extension al (ARRAY (Complex inner None) size))).

Definition create_decimal (width scale : Z) (al : bytes) : outcome complex_logical_type :=
  _ ← decimal_storage_type width;
  mret (Complex LT_DECIMAL (Some (Extension al (DECIMAL width scale)))).

(** ** Chunks *)

(** A flat column: the cells of its own buffer, or the strings its views point to, and the
    validity mask of its rows, absent when all are valid. Child vectors of composite columns
    are not part of it: the codec does not write them. *)
Record vector_t := Vector {
  vtype : complex_logical_type;
  data : bytes;
  views : list bytes;
  validity : option (list bool);
}.

Record data_chunk_t := Chunk {
  columns : list vector_t;
  chunk_size : Z;
}.

Definition all_valid (v : vector_t) : bool := match validity v with None => true | Some _ => false end.

Definition row_is_valid (v : vector_t) (row : Z) : bool :=
  match validity v with None => true | Some m => default true (m !!z row) end.

Definition set_invalid (rows row : Z) (m : option (list bool)) : option (list bool) :=
  Some (zset row false (default (replicate (Z.to_nat rows) true) m)).

(** ** Writing *)

Definition fixed_type_size (p : physical_type) : Z :=
  match p with
  | BOOL | INT8 | UINT8 => 1
  | INT16 | UINT16 => 2
  | INT32 | UINT32 | FLOAT => 4
  | INT64 | UINT64 | DOUBLE => 8
  | INT128 | UINT128 => 16
  | _ => 0
  end.

Definition is_variable_type (p : physical_type) : bool := bool_decide (p = STRING).

Definition compute_type_header_size (t : complex_logical_type) : Z :=
  1 + 2 + u32 (zlen (alias t)) + 1 +
  match extension_ t with
  | Some (Extension _ (ARRAY _ _)) => 5
  | Some (Extension _ (DECIMAL _ _)) => 2
  | _ => 0
  end.

Definition write_type_header (t : complex_logical_type) : bytes :=
  let alias_length := u16 (zlen (alias t)) in
  write_le 1 (type_ t) ++ write_le 2 alias_length ++ take (Z.to_nat alias_length) (alias t) ++
  match extension_ t with
  | Some (Extension _ (ARRAY items size)) => write_le 1 1 ++ write_le 1 (type_ items) ++ write_le 4 size
  | Some (Extension _ (DECIMAL width scale)) => write_le 1 2 ++ write_le 1 width ++ write_le 1 scale
  | _ => write_le 1 0
  end.

(** [mask[bit / 8] |= 1 << (bit % 8)] and its test. *)
Definition set_bit (mask : bytes) (bit : Z) : bytes :=
  match mask !!z (bit / 8) with
  | Some b => zset (bit / 8) (byte.of_Z (Z.lor (byte.unsigned b) (Z.shiftl 1 (bit mod 8)))) mask
  | None => mask
  end.

Definition test_bit (b : Z) (bit : Z) : bool := Z.testbit b (bit mod 8).

Definition mask_column (num_columns num_rows : Z) (mask : bytes) (c : Z) (v : vector_t) : bytes :=
  foldl (fun mask r => if row_is_valid v r then set_bit mask (r * num_columns + c) else mask) mask (seqZ 0 num_rows).

(** The null mask, column by column. *)
Fixpoint write_null_mask (num_columns num_rows : Z) (mask : bytes) (c : Z) (vs : list vector_t) : bytes :=
  match vs with
  | [] => mask
  | v :: vs => write_null_mask num_columns num_rows (mask_column num_columns num_rows mask c v) (c + 1) vs
  end.

Fixpoint write_offsets (running : Z) (ss : list bytes) : bytes :=
  match ss with
  | [] => write_le 4 running
  | s :: ss => write_le 4 running ++ write_offsets (u32 (running + u32 (zlen s))) ss
  end.

Definition string_data_size (ss : list bytes) : Z := foldl (fun n s => u32 (n + u32 (zlen s))) 0 ss.

(** [column_data_sizes] and the bytes of a column's data. *)
Definition column_data_size (num_rows : Z) (p : physical_type) (v : vector_t) : Z :=
  if is_variable_type p then u32 (u32 (u32 (num_rows + 1) * 4) + string_data_size (take (Z.to_nat num_rows) (views v)))
  else u32 (fixed_type_size p * num_rows).

Definition write_column_data (num_rows : Z) (p : physical_type) (v : vector_t) : outcome bytes :=
  if is_variable_type p then
    if bool_decide (zlen (views v) < num_rows) then Fault OutOfBounds
    else let ss := take (Z.to_nat num_rows) (views v) in mret (write_offsets 0 ss ++ concat ss)
  else read_bytes (data v) 0 (column_data_size num_rows p v).

Definition write_column (num_rows : Z) (v : vector_t) : outcome bytes :=
  p ← to_physical_type (vtype v);
  d ← write_column_data num_rows p v;
  mret (write_type_header (vtype v) ++ write_le 4 (column_data_size num_rows p v) ++ d).

Definition column_space (num_rows : Z) (v : vector_t) : outcome Z :=
  p ← to_physical_type (vtype v);
  mret (compute_type_header_size (vtype v) + 4 + column_data_size num_rows p v).

Definition has_nulls (vs : list vector_t) : bool := existsb (fun v => negb (all_valid v)) vs.

(** The buffer grows by [total] zero bytes, which must hold everything written. *)
Definition serialize_binary (chunk : data_chunk_t) : outcome bytes :=
  let num_columns := u16 (zlen (columns chunk)) in
  let num_rows := u32 (chunk_size chunk) in
  let vs := take (Z.to_nat num_columns) (columns chunk) in
  let total_cells := num_columns * num_rows in
  let null_mask_bytes := if bool_decide (0 < total_cells) then u32 ((total_cells + 7) / 8) else 0 in
  let actual_mask_bytes := if has_nulls vs then null_mask_bytes else 0 in
  let mask := if has_nulls vs then write_null_mask num_columns num_rows (zeros actual_mask_bytes) 0 vs else [] in
  spaces ← mapM (column_space num_rows) vs;
  cols ← mapM (write_column num_rows) vs;
  let total := 2 + 4 + 4 + actual_mask_bytes + foldr Z.add 0 spaces in
  let written := write_le 2 num_columns ++ write_le 4 num_rows ++ write_le 4 actual_mask_bytes ++ mask ++ concat cols in
  if bool_decide (total < zlen written) then Fault OutOfBounds
  else mret (written ++ zeros (total - zlen written)).

(** ** Reading

    Positions are offsets into the payload; [None] is [ok = false]. *)

Definition read_alias (data : bytes) (scan alias_length : Z) : outcome (option bytes) :=
  if bool_decide (0 < alias_length) then
    if bool_decide (zlen data < scan + alias_length) then mret None
    else b ← read_bytes data scan alias_length; mret (Some b)
  else mret (Some []).

Definition read_extension (data : bytes) (scan type : Z) (al : bytes) : outcome (option (complex_logical_type * Z)) :=
  if bool_decide (zlen data <= scan) then mret None
  else
    e ← read_le 1 data scan;
    let scan := scan + 1 in
    if bool_decide (e = 1) then
      if bool_decide (zlen data < scan + 5) then mret None
      else
        inner ← read_le 1 data scan;
        size ← read_le 4 data (scan + 1);
        mret (Some (create_array inner size al, scan + 5))
    else if bool_decide (e = 2) then
      if bool_decide (zlen data < scan + 2) then mret None
      else
        width ← read_le 1 data scan;
        scale ← read_le 1 data (scan + 1);
        t ← create_decimal width scale al;
        mret (Some (t, scan + 2))
    else mret (Some (make_type type al, scan)).

Definition read_type_header (data : bytes) (scan : Z) : outcome (option (complex_logical_type * Z)) :=
  if bool_decide (zlen data < scan + 4) then mret None
  else
    type ← read_le 1 data scan;
    alias_length ← read_le 2 data (scan + 1);
    al ← read_alias data (scan + 3) alias_length;
    match al with
    | None => mret None
    | Some al => read_extension data (scan + 3 + alias_length) type al
    end.

(** First pass: the column types. *)
Fixpoint scan_types (n : nat) (data : bytes) (scan : Z) : outcome (option (list complex_logical_type)) :=
  match n with
  | O => mret (Some [])
  | S n =>
      h ← read_type_header data scan;
      match h with
      | None => mret None
      | Some (t, scan) =>
          if bool_decide (zlen data < scan + 4) then mret None
          else
            data_size ← read_le 4 data scan;
            let scan := scan + 4 in
            if bool_decide (zlen data < scan + data_size) then mret None
            else
              ts ← scan_types n data (scan + data_size);
              mret (match ts with Some ts => Some (t :: ts) | None => None end)
      end
  end.

Definition read_string (data : bytes) (offsets_pointer string_data row : Z) : outcome bytes :=
  offset_begin ← read_le 4 data (offsets_pointer + u32 (row * 4));
  offset_end ← read_le 4 data (offsets_pointer + u32 (u32 (row + 1) * 4));
  let string_length := u32 (offset_end - offset_begin) in
  if bool_decide (0 < string_length) then read_bytes data (string_data + offset_begin) string_length else mret [].

(** The cells of one column of [data_size] bytes at [pointer]. *)
Definition read_column_data (data : bytes) (num_rows pointer data_size : Z) (p : physical_type) :
    outcome (option (bytes * list bytes)) :=
  if is_variable_type p then
    if bool_decide (data_size < u32 (u32 (num_rows + 1) * 4)) then mret None
    else
      ss ← mapM (read_string data pointer (pointer + u32 (u32 (num_rows + 1) * 4))) (seqZ 0 num_rows);
      mret (Some ([], ss))
  else
    src ← read_bytes data pointer data_size;
    b ← blit (zeros (object_size p * num_rows)) 0 src;
    mret (Some (b, [])).

Fixpoint apply_null_mask (rows : list Z) (data : bytes) (null_mask num_columns num_rows c : Z) (m : option (list bool)) :
    outcome (option (list bool)) :=
  match rows with
  | [] => mret m
  | r :: rows =>
      let bit := r * num_columns + c in
      b ← read_le 1 data (null_mask + bit / 8);
      apply_null_mask rows data null_mask num_columns num_rows c (if test_bit b bit then m else set_invalid num_rows r m)
  end.

(** A new vector of more than [DEFAULT_VECTOR_CAPACITY] rows gets a mask at once. *)
Definition fresh_validity (num_rows : Z) : option (list bool) :=
  if bool_decide (DEFAULT_VECTOR_CAPACITY < num_rows) then Some (replicate (Z.to_nat num_rows) true) else None.

(** Second pass: the columns, with the types of the first. *)
Fixpoint read_columns (ts : list complex_logical_type) (data : bytes) (num_columns num_rows : Z) (null_mask : option Z)
    (pointer c : Z) : outcome (option (list vector_t)) :=
  match ts with
  | [] => mret (Some [])
  | t :: ts =>
      h ← read_type_header data pointer;
      match h with
      | None => mret None
      | Some (_, pointer) =>
          data_size ← read_le 4 data pointer;
          let pointer := pointer + 4 in
          p ← to_physical_type t;
          d ← read_column_data data num_rows pointer data_size p;
          match d with
          | None => mret None
          | Some (cells, strings) =>
              m ← (match null_mask with
                   | Some pos => apply_null_mask (seqZ 0 num_rows) data pos num_columns num_rows c (fresh_validity num_rows)
                   | None => mret (fresh_validity num_rows)
                   end);
              vs ← read_columns ts data num_columns num_rows null_mask (pointer + data_size) (c + 1);
              mret (match vs with Some vs => Some (Vector t cells strings m :: vs) | None => None end)
          end
      end
  end.

Definition deserialize_binary (data : bytes) : outcome (option data_chunk_t) :=
  if bool_decide (zlen data < 10) then mret None
  else
    num_columns ← read_le 2 data 0;
    num_rows ← read_le 4 data 2;
    null_mask_size ← read_le 4 data 6;
    if bool_decide (0 < null_mask_size) && bool_decide (zlen data < 10 + null_mask_size) then mret None
    else
      let null_mask := if bool_decide (0 < null_mask_size) then Some 10 else None in
      let pointer := 10 + null_mask_size in
      ts ← scan_types (Z.to_nat num_columns) data pointer;
      match ts with
      | None => mret None
      | Some ts =>
          _ ← mapM to_physical_type ts;
          vs ← read_columns ts data num_columns num_rows null_mask pointer 0;
          mret (match vs with Some vs => Some (Chunk vs num_rows) | None => None end)
      end.

(** ** Chunks the codec is for *)

Definition type_ok (t : complex_logical_type) : Prop :=
  match t with
  | Complex ty None => 0 <= ty < 256 /\ ty <> LT_DECIMAL
  | Complex ty (Some (Extension al GENERIC)) => 0 <= ty < 256 /\ ty <> LT_DECIMAL /\ al <> [] /\ zlen al < 2 ^ 16
  | Complex ty (Some (Extension al (DECIMAL w s))) => ty = LT_DECIMAL /\ 0 <= w <= 38 /\ 0 <= s < 256 /\ zlen al < 2 ^ 16
  | _ => False
  end.

Definition cells_ok (num_rows : Z) (p : physical_type) (v : vector_t) : Prop :=
  if is_variable_type p then
    data v = [] /\ zlen (views v) = num_rows /\ (num_rows + 1) * 4 + zlen (concat (views v)) < 2 ^ 32
  else
    views v = [] /\ 0 < fixed_type_size p /\ object_size p = fixed_type_size p /\ zlen (data v) = fixed_type_size p * num_rows.

(** A mask is present only when a row is invalid, as the decoder leaves it. *)
Definition validity_ok (num_rows : Z) (m : option (list bool)) : Prop :=
  match m with None => True | Some m => zlen m = num_rows /\ false ∈ m end.

Definition vector_ok (num_rows : Z) (v : vector_t) : Prop :=
  type_ok (vtype v) /\ validity_ok num_rows (validity v) /\
  exists p, to_physical_type (vtype v) = Ok p /\ cells_ok num_rows p v.

(** At most one vector of rows, of columns with their own cells. *)
Definition data_chunk_ok (c : data_chunk_t) : Prop :=
  zlen (columns c) < 2 ^ 16 /\ 0 <= chunk_size c <= DEFAULT_VECTOR_CAPACITY /\
  Forall (vector_ok (chunk_size c)) (columns c).

(** ** Type headers *)

Lemma zlen_type_header t : type_ok t -> zlen (write_type_header t) = compute_type_header_size t.
Proof.
  destruct t as [ty [[al k]|]]; unfold write_type_header, compute_type_header_size; cbn [alias extension_ type_ ].
  - intros H. pose proof (zlen_nonneg al).
    assert (Hal : zlen al < 2 ^ 16) by (destruct k; cbn in H; lia).
    rewrite !wrap_small by (unfold in_width; lia).
    rewrite take_ge by (unfold zlen; lia). destruct k; try done; rewrite !zlen_app, !zlen_write_le; lia.
  - intros _. done.
Qed.

Lemma type_header_size_ge t : 4 <= compute_type_header_size t.
Proof.
  unfold compute_type_header_size. pose proof (wrap_width 32 (zlen (alias t)) ltac:(lia)) as [? _].
  destruct (extension_ t) as [[? []]|]; lia.
Qed.

Lemma read_alias_ok a al c : read_alias (a ++ al ++ c) (zlen a) (zlen al) = Ok (Some al).
Proof.
  unfold read_alias. case_bool_decide as H.
  - rewrite !zlen_app, bool_decide_false by (pose proof (zlen_nonneg c); lia). by rewrite read_bytes_mid.
  - destruct al; [done|]. rewrite zlen_cons in H. pose proof (zlen_nonneg al). lia.
Qed.

(** The extension part of a header. *)
Definition extension_bytes (t : complex_logical_type) : bytes :=
  match extension_ t with
  | Some (Extension _ (ARRAY items size)) => write_le 1 1 ++ write_le 1 (type_ items) ++ write_le 4 size
  | Some (Extension _ (DECIMAL width scale)) => write_le 1 2 ++ write_le 1 width ++ write_le 1 scale
  | _ => write_le 1 0
  end.

Lemma read_decimal a w s c al ty : 0 <= w <= 38 -> 0 <= s < 256 ->
  read_extension (a ++ write_le 1 2 ++ write_le 1 w ++ write_le 1 s ++ c) (zlen a) ty al =
  Ok (Some (Complex LT_DECIMAL (Some (Extension al (DECIMAL w s))), zlen a + 3)).
Proof.
  intros Hw Hs. unfold read_extension. rewrite !zlen_app, !zlen_write_le. pose proof (zlen_nonneg c).
  rewrite bool_decide_false by lia. rewrite read_le_at by (cbn; lia). cbn [mbind outcome_bind].
  rewrite bool_decide_false, bool_decide_true, bool_decide_false by lia.
  assert (H1 : read_le 1 (a ++ write_le 1 2 ++ write_le 1 w ++ write_le 1 s ++ c) (zlen a + 1) = Ok w).
  { rewrite app_assoc. apply read_le_mid; [|cbn; lia]. rewrite zlen_app, zlen_write_le. lia. }
  assert (H2 : read_le 1 (a ++ write_le 1 2 ++ write_le 1 w ++ write_le 1 s ++ c) (zlen a + 1 + 1) = Ok s).
  { rewrite !app_assoc, <- app_assoc. apply read_le_mid; [|cbn; lia]. rewrite !zlen_app, !zlen_write_le. lia. }
  rewrite H1, H2. cbn [mbind outcome_bind]. unfold create_decimal, decimal_storage_type.
  repeat case_bool_decide; try lia; cbn; do 3 f_equal; lia.
Qed.

Lemma read_extension_ok a t c : type_ok t ->
  read_extension (a ++ extension_bytes t ++ c) (zlen a) (type_ t) (alias t) = Ok (Some (t, zlen a + zlen (extension_bytes t))).
Proof.
  destruct t as [ty [[al k]|]]; unfold extension_bytes; cbn [extension_ alias type_]; intros H.
  - destruct k as [| |w s|]; try done.
    + cbn in H. unfold read_extension. rewrite !zlen_app, zlen_write_le, bool_decide_false by (pose proof (zlen_nonneg c); lia).
      rewrite read_le_at by (cbn; lia). cbn -[zlen Z.add write_le]. destruct al; [naive_solver|]. done.
    + destruct H as (-> & Hw & Hs & _). rewrite <- !app_assoc, read_decimal by lia. done.
  - unfold read_extension. rewrite !zlen_app, zlen_write_le, bool_decide_false by (pose proof (zlen_nonneg c); lia).
    rewrite read_le_at by (cbn; lia). done.
Qed.

Lemma type_ok_bounds t : type_ok t -> 0 <= type_ t < 256 /\ 0 <= zlen (alias t) < 2 ^ 16.
Proof.
  destruct t as [ty [[al k]|]]; cbn [type_ok type_ alias extension_].
  - pose proof (zlen_nonneg al). destruct k; unfold LT_DECIMAL; try done; lia.
  - change (zlen (@nil byte)) with 0. lia.
Qed.

Lemma write_type_header_ok t : type_ok t ->
  write_type_header t = write_le 1 (type_ t) ++ write_le 2 (zlen (alias t)) ++ alias t ++ extension_bytes t.
Proof.
  intros [_ Hal]%type_ok_bounds. unfold write_type_header. rewrite wrap_small by (unfold in_width; lia).
  rewrite take_ge by (unfold zlen; lia). done.
Qed.

Lemma zlen_extension_ge t : 1 <= zlen (extension_bytes t).
Proof. unfold extension_bytes. destruct (extension_ t) as [[? []]|]; rewrite ?zlen_app, ?zlen_write_le; lia. Qed.

Lemma read_type_header_ok a t c : type_ok t ->
  read_type_header (a ++ write_type_header t ++ c) (zlen a) = Ok (Some (t, zlen a + zlen (write_type_header t))).
Proof.
  intros Ht. pose proof (type_ok_bounds t Ht) as [Hty Hal]. rewrite write_type_header_ok by done. rewrite <- !app_assoc.
  unfold read_type_header. pose proof (zlen_extension_ge t). pose proof (zlen_nonneg c).
  rewrite !zlen_app, !zlen_write_le, bool_decide_false by lia.
  rewrite read_le_at by (cbn; lia). cbn [mbind outcome_bind].
  set (a1 := a ++ write_le 1 (type_ t)). set (a2 := a1 ++ write_le 2 (zlen (alias t))).
  assert (H1 : zlen a + 1 = zlen a1) by (unfold a1; by rewrite zlen_app).
  assert (H2 : zlen a + 3 = zlen a2) by (unfold a2; rewrite zlen_app, <- H1, zlen_write_le; lia).
  rewrite (app_assoc a). fold a1. rewrite H1, read_le_at by (cbn; lia). cbn [mbind outcome_bind].
  rewrite (app_assoc a1). fold a2. rewrite H2, read_alias_ok. cbn [mbind outcome_bind].
  rewrite (app_assoc a2), <- zlen_app, read_extension_ok by done. do 3 f_equal. rewrite zlen_app. lia.
Qed.

(** ** Strings *)

Definition lengths_total (ss : list bytes) : Z := zlen (concat ss).

Lemma lengths_total_nil : lengths_total [] = 0.
Proof. done. Qed.

Lemma lengths_total_cons s ss : lengths_total (s :: ss) = zlen s + lengths_total ss.
Proof. unfold lengths_total. cbn. by rewrite zlen_app. Qed.

Lemma string_data_size_ok ss : lengths_total ss < 2 ^ 32 -> string_data_size ss = lengths_total ss.
Proof.
  unfold string_data_size. assert (forall n, 0 <= n -> n + lengths_total ss < 2 ^ 32 ->
    foldl (fun n s => u32 (n + u32 (zlen s))) n ss = n + lengths_total ss) as H.
  { induction ss as [|s ss IH]; intros n Hn Hb; [rewrite lengths_total_nil; cbn [foldl]; lia|].
    rewrite lengths_total_cons in *. pose proof (zlen_nonneg s). pose proof (zlen_nonneg (concat ss)). fold (lengths_total ss) in *.
    cbn [foldl]. rewrite !(wrap_small 32) by (unfold in_width; rewrite ?(wrap_small 32 (zlen s)) by (unfold in_width; lia); lia).
    rewrite IH by lia. lia. }
  intros Hb. by rewrite H by lia.
Qed.

Lemma zlen_write_offsets ss : forall n, zlen (write_offsets n ss) = (zlen ss + 1) * 4.
Proof.
  induction ss as [|s ss IH]; intros n; cbn [write_offsets]; [by rewrite zlen_write_le|].
  rewrite zlen_app, zlen_write_le, IH, zlen_cons. lia.
Qed.

(** Entry [i] of the offsets is the total length of the strings before it. *)
Lemma read_offset ss : forall a c n i,
  0 <= n -> n + lengths_total ss < 2 ^ 32 -> 0 <= i <= zlen ss ->
  read_le 4 (a ++ write_offsets n ss ++ c) (zlen a + i * 4) = Ok (n + lengths_total (take (Z.to_nat i) ss)).
Proof.
  induction ss as [|s ss IH]; intros a c n i Hn Hb Hi.
  - change (zlen (@nil bytes)) with 0 in Hi. replace i with 0 by lia. cbn [write_offsets]. rewrite Z.mul_0_l, Z.add_0_r, read_le_at.
    + by rewrite take_0, lengths_total_nil, Z.add_0_r.
    + rewrite lengths_total_nil in Hb. cbn. lia.
  - rewrite lengths_total_cons in Hb. rewrite zlen_cons in Hi. pose proof (zlen_nonneg s).
    pose proof (zlen_nonneg (concat ss)). fold (lengths_total ss) in *. cbn [write_offsets]. rewrite <- app_assoc.
    destruct (decide (i = 0)) as [-> |].
    { rewrite Z.mul_0_l, Z.add_0_r, read_le_at by (cbn; lia). by rewrite take_0, lengths_total_nil, Z.add_0_r. }
    rewrite app_assoc. replace (zlen a + i * 4) with (zlen (a ++ write_le 4 n) + (i - 1) * 4) by (rewrite zlen_app, zlen_write_le; lia).
    rewrite (wrap_small 32 (zlen s)), wrap_small by (unfold in_width; lia). rewrite IH by lia. f_equal.
    replace (Z.to_nat i) with (S (Z.to_nat (i - 1))) by lia. cbn [take]. rewrite lengths_total_cons. lia.
Qed.

Lemma lengths_total_take_S ss i s :
  ss !!z i = Some s -> lengths_total (take (Z.to_nat (i + 1)) ss) = lengths_total (take (Z.to_nat i) ss) + zlen s.
Proof.
  intros [Hi Hs]%zget_Some. replace (Z.to_nat (i + 1)) with (S (Z.to_nat i)) by lia.
  rewrite (take_S_r _ _ _ Hs). unfold lengths_total. rewrite concat_app, zlen_app. cbn. by rewrite app_nil_r.
Qed.

Lemma concat_split ss i s : ss !!z i = Some s ->
  exists before after, concat ss = before ++ s ++ after /\ zlen before = lengths_total (take (Z.to_nat i) ss).
Proof.
  intros [Hi Hs]%zget_Some. exists (concat (take (Z.to_nat i) ss)), (concat (drop (S (Z.to_nat i)) ss)). split; [|done].
  rewrite <- (take_drop_middle ss _ _ Hs) at 1. by rewrite concat_app.
Qed.

Lemma read_string_ok a ss c i s :
  lengths_total ss < 2 ^ 32 -> (zlen ss + 1) * 4 < 2 ^ 32 -> ss !!z i = Some s ->
  read_string (a ++ write_offsets 0 ss ++ concat ss ++ c) (zlen a) (zlen a + (zlen ss + 1) * 4) i = Ok s.
Proof.
  intros Hb Hn Hs. pose proof (zget_Some_lt _ _ _ Hs) as Hi. unfold read_string.
  rewrite (wrap_small 32 (i + 1)), (wrap_small 32 (i * 4)), (wrap_small 32 ((i + 1) * 4)) by (unfold in_width; lia).
  rewrite read_offset by lia. cbn [mbind outcome_bind]. rewrite read_offset by lia. cbn [mbind outcome_bind].
  rewrite (lengths_total_take_S _ _ _ Hs). destruct (concat_split _ _ _ Hs) as (before & after & E & Hbefore).
  pose proof (zlen_nonneg s). pose proof (zlen_nonneg before). pose proof (zlen_nonneg after).
  assert (Htot : zlen before + zlen s + zlen after < 2 ^ 32) by (unfold lengths_total in Hb; rewrite E, !zlen_app in Hb; lia).
  rewrite wrap_small by (unfold in_width; lia). replace (_ - _) with (zlen s) by lia.
  case_bool_decide.
  - rewrite E, <- !app_assoc, (app_assoc a), (app_assoc _ before). apply read_bytes_mid; [|done].
    rewrite !zlen_app, zlen_write_offsets. lia.
  - destruct s; [done|]. rewrite zlen_cons in *. pose proof (zlen_nonneg s). lia.
Qed.

(** ** The null mask *)

Definition bit_of (mask : bytes) (i : Z) : bool :=
  match mask !!z (i / 8) with Some b => Z.testbit (byte.unsigned b) (i mod 8) | None => false end.

Lemma zlen_set_bit mask j : zlen (set_bit mask j) = zlen mask.
Proof. unfold set_bit. destruct (mask !!z (j / 8)); [by rewrite zlen_zset|done]. Qed.

Lemma bit_of_set_bit mask i j : 0 <= i -> 0 <= j -> j / 8 < zlen mask ->
  bit_of (set_bit mask j) i = bool_decide (i = j) || bit_of mask i.
Proof.
  intros Hi Hj Hlen. unfold set_bit, bit_of. assert (Hj8 : 0 <= j / 8) by (apply Z.div_pos; lia).
  destruct (zget_is_Some mask (j / 8)) as [b Hb]; [lia|]. rewrite Hb, zget_zset.
  pose proof (Z.mod_pos_bound i 8 ltac:(lia)). pose proof (Z.mod_pos_bound j 8 ltac:(lia)).
  destruct (decide (i / 8 = j / 8)) as [E|E].
  - rewrite decide_True by lia. rewrite E, Hb. rewrite byte.unsigned_of_Z. unfold byte.wrap.
    rewrite Z.mod_pow2_bits_low by lia. rewrite Z.lor_spec, Z.shiftl_1_l, Z.pow2_bits_eqb by lia.
    rewrite orb_comm. f_equal. pose proof (Z.div_mod i 8). pose proof (Z.div_mod j 8).
    destruct (Z.eqb_spec (j mod 8) (i mod 8)); [rewrite bool_decide_true|rewrite bool_decide_false]; (done || lia).
  - rewrite decide_False by lia. rewrite bool_decide_false by congruence. done.
Qed.

Lemma test_bit_mod b i : 0 <= i -> test_bit (byte.unsigned b) i = Z.testbit (byte.unsigned b) (i mod 8).
Proof. done. Qed.

(** After one column: a bit is set if it was, or if it is a valid row's of that column. *)
Lemma mask_column_bits v nc c : forall rows mask i,
  0 <= i -> (forall r, r ∈ rows -> 0 <= r * nc + c /\ (r * nc + c) / 8 < zlen mask) ->
  let mask' := foldl (fun mask r => if row_is_valid v r then set_bit mask (r * nc + c) else mask) mask rows in
  zlen mask' = zlen mask /\
  bit_of mask' i = bit_of mask i || existsb (fun r => bool_decide (i = r * nc + c) && row_is_valid v r) rows.
Proof.
  induction rows as [|r rows IH]; intros mask i Hi Hrange; cbn -[bool_decide]; [by rewrite orb_false_r|].
  assert (Hr : 0 <= r * nc + c /\ (r * nc + c) / 8 < zlen mask) by (apply Hrange; set_solver).
  destruct (row_is_valid v r) eqn:Hv.
  - destruct (IH (set_bit mask (r * nc + c)) i) as [Hl Hb]; [done| |].
    { intros r' Hr'. rewrite zlen_set_bit. apply Hrange. set_solver. }
    rewrite zlen_set_bit in Hl. split; [done|]. rewrite Hb, bit_of_set_bit by lia. rewrite andb_true_r.
    by rewrite (orb_comm (bool_decide _)), <- orb_assoc.
  - destruct (IH mask i) as [Hl Hb]; [done|intros; apply Hrange; set_solver|]. split; [done|].
    rewrite Hb. by rewrite andb_false_r.
Qed.

(** Cell [r, c] of the mask of a chunk. *)
Definition cell_bit (vs : list vector_t) (c0 : Z) (r c : Z) : bool :=
  match vs !!z (c - c0) with Some v => row_is_valid v r | None => false end.

Lemma cell_unique nc r r' c c' : 0 <= c < nc -> 0 <= c' < nc -> r * nc + c = r' * nc + c' -> r = r' /\ c = c'.
Proof.
  intros Hc Hc' H. assert (r = r') as ->; [|lia].
  rewrite (Z.div_unique (r * nc + c) nc r c), (Z.div_unique (r' * nc + c') nc r' c'); [by rewrite H|lia|lia|lia|lia].
Qed.

Lemma existsb_seqZ_at nc nr r c c0 (f : Z -> bool) :
  0 <= c < nc -> 0 <= c0 < nc -> 0 <= r < nr ->
  existsb (fun r' => bool_decide (r * nc + c = r' * nc + c0) && f r') (seqZ 0 nr) = bool_decide (c = c0) && f r.
Proof.
  intros Hc Hc0 Hr. destruct (bool_decide (c = c0) && f r) eqn:E.
  - apply andb_true_iff in E as [->%bool_decide_eq_true Hf]. apply existsb_exists. exists r.
    split; [apply list_elem_of_In, elem_of_seqZ; lia|]. by rewrite bool_decide_true by done.
  - apply not_true_iff_false. intros (r' & Hin & [H%bool_decide_eq_true Hf]%andb_true_iff)%existsb_exists.
    apply list_elem_of_In, elem_of_seqZ in Hin. destruct (cell_unique nc r r' c c0) as [-> ->]; [lia|lia|lia|].
    rewrite bool_decide_true, Hf in E by done. done.
Qed.

Lemma write_null_mask_bits nc nr : forall vs mask c0 r c,
  0 <= c0 -> c0 + zlen vs <= nc -> 0 <= c < nc -> 0 <= r < nr -> (nr * nc - 1) / 8 < zlen mask ->
  let mask' := write_null_mask nc nr mask c0 vs in
  zlen mask' = zlen mask /\
  bit_of mask' (r * nc + c) = bit_of mask (r * nc + c) || (bool_decide (c0 <= c) && cell_bit vs c0 r c).
Proof.
  induction vs as [|v vs IH]; intros mask c0 r c Hc0 Hlen Hc Hr Hmask; cbn [write_null_mask].
  { split; [done|]. unfold cell_bit. destruct (_ !!z _) eqn:E; [apply zget_Some_lt in E; unfold zlen in E; cbn in E; lia|].
    by rewrite andb_false_r, orb_false_r. }
  rewrite zlen_cons in Hlen. pose proof (zlen_nonneg vs). unfold mask_column.
  destruct (mask_column_bits v nc c0 (seqZ 0 nr) mask (r * nc + c)) as [Hl Hb]; [nia| |].
  { intros r' Hr'%elem_of_seqZ. split; [nia|]. eapply Z.le_lt_trans; [|done]. apply Z.div_le_mono; nia. }
  rewrite existsb_seqZ_at in Hb by lia.
  destruct (IH (foldl (fun mask r => if row_is_valid v r then set_bit mask (r * nc + c0) else mask) mask (seqZ 0 nr)) (c0 + 1) r c)
    as [Hl' Hb']; [lia|lia|lia|lia|by rewrite Hl|].
  split; [congruence|]. rewrite Hb', Hb. rewrite <- orb_assoc. f_equal. unfold cell_bit.
  destruct (decide (c = c0)) as [-> |Hne].
  - rewrite (bool_decide_true (c0 = c0)), (bool_decide_false (c0 + 1 <= c0)), (bool_decide_true (c0 <= c0)) by lia.
    rewrite Z.sub_diag. cbn. by rewrite orb_false_r.
  - rewrite (bool_decide_false (c = c0)) by done. cbn [andb orb]. destruct (decide (c0 < c)).
    + rewrite (bool_decide_true (c0 + 1 <= c)), (bool_decide_true (c0 <= c)) by lia. f_equal. cbn [andb].
      unfold zget. rewrite !bool_decide_true by lia. replace (Z.to_nat (c - c0)) with (S (Z.to_nat (c - (c0 + 1)))) by lia. done.
    + rewrite (bool_decide_false (c0 + 1 <= c)), (bool_decide_false (c0 <= c)) by lia. done.
Qed.

Lemma read_byte a mask c k b : mask !!z k = Some b -> read_le 1 (a ++ mask ++ c) (zlen a + k) = Ok (byte.unsigned b).
Proof.
  intros Hb. pose proof (zget_Some_lt _ _ _ Hb). apply zget_Some in Hb as [_ Hb].
  rewrite <- (take_drop_middle mask _ _ Hb). change (b :: drop (S (Z.to_nat k)) mask) with ([b] ++ drop (S (Z.to_nat k)) mask).
  rewrite <- !app_assoc, app_assoc. unfold read_le. rewrite read_bytes_mid; [|rewrite zlen_app; unfold zlen in *; rewrite length_take; lia|done].
  cbn. f_equal. apply le_combine_1.
Qed.

Lemma apply_null_mask_ok a mask rest nc nr c v rows : forall m,
  (forall r, r ∈ rows -> 0 <= r * nc + c /\ (r * nc + c) / 8 < zlen mask /\ bit_of mask (r * nc + c) = row_is_valid v r) ->
  apply_null_mask rows (a ++ mask ++ rest) (zlen a) nc nr c m =
  Ok (foldl (fun m r => if row_is_valid v r then m else set_invalid nr r m) m rows).
Proof.
  induction rows as [|r rows IH]; intros m H; [done|]. cbn [apply_null_mask foldl].
  destruct (H r) as (H0 & Hlt & Hbit); [set_solver|]. assert (0 <= (r * nc + c) / 8) by (apply Z.div_pos; lia).
  destruct (zget_is_Some mask ((r * nc + c) / 8)) as [b Hb]; [lia|]. rewrite (read_byte a mask rest _ b Hb). cbn [mbind outcome_bind].
  unfold bit_of in Hbit. rewrite Hb in Hbit. unfold test_bit. rewrite Hbit. apply IH. intros. apply H. set_solver.
Qed.

Lemma all_true (l : list bool) : false ∉ l -> l = replicate (length l) true.
Proof.
  induction l as [|x l IH]; intros H; [done|]. cbn. destruct x; [|set_solver]. f_equal. apply IH. set_solver.
Qed.

(** Row by row the decoder rebuilds the mask. *)
Lemma rebuild_mask nr m k : zlen m = nr -> (k <= length m)%nat ->
  foldl (fun acc r => if default true (m !!z r) then acc else set_invalid nr r acc) None (seqZ 0 (Z.of_nat k)) =
  if bool_decide (false ∈ take k m) then Some (take k m ++ replicate (length m - k) true) else None.
Proof.
  intros Hlen. induction k as [|k IH]; intros Hk.
  { cbn. by rewrite bool_decide_false by set_solver. }
  replace (Z.of_nat (S k)) with (Z.of_nat k + 1) by lia.
  rewrite seqZ_app, foldl_app, IH by lia. rewrite Z.add_0_l. change (seqZ (Z.of_nat k) 1) with [Z.of_nat k]. cbn [foldl].
  destruct (lookup_lt_is_Some_2 m k) as [x Hx]; [lia|].
  assert (Hz : m !!z Z.of_nat k = Some x) by (apply zget_Some; rewrite Nat2Z.id; split; [lia|done]).
  rewrite Hz. cbn [default]. rewrite (take_S_r _ _ _ Hx).
  assert (Hlk : length (take k m) = k) by (rewrite length_take; lia).
  destruct x; cbn [default].
  - destruct (decide (false ∈ take k m)).
    + rewrite !bool_decide_true by set_solver. f_equal. rewrite <- app_assoc. f_equal.
      replace (length m - k)%nat with (S (length m - S k)) by lia. done.
    + rewrite !bool_decide_false by set_solver. done.
  - rewrite (bool_decide_true (false ∈ take k m ++ [false])) by set_solver. unfold set_invalid. f_equal.
    assert (E : default (replicate (Z.to_nat nr) true)
                  (if bool_decide (false ∈ take k m) then Some (take k m ++ replicate (length m - k) true) else None)
                = take k m ++ replicate (length m - k) true).
    { case_bool_decide as Hin; [done|]. cbn. rewrite (all_true _ Hin), Hlk, <- replicate_add. f_equal. unfold zlen in Hlen. lia. }
    rewrite E. unfold zset. rewrite bool_decide_true, Nat2Z.id by lia.
    rewrite insert_app_r_alt by lia. rewrite Hlk, Nat.sub_diag, <- app_assoc. f_equal.
    replace (length m - k)%nat with (S (length m - S k)) by lia. done.
Qed.

Lemma validity_restored nr v : 0 <= nr -> validity_ok nr (validity v) ->
  foldl (fun m r => if row_is_valid v r then m else set_invalid nr r m) None (seqZ 0 nr) = validity v.
Proof.
  intros Hnr Hok. unfold row_is_valid. destruct (validity v) as [m|].
  - destruct Hok as [Hlen Hin].
    assert (Hn : nr = Z.of_nat (length m)) by (unfold zlen in Hlen; lia).
    pose proof (rebuild_mask nr m (length m) Hlen (le_n _)) as Hr. rewrite <- Hn, firstn_all, bool_decide_true in Hr by done.
    by rewrite Hr, Nat.sub_diag, app_nil_r.
  - assert (H : forall l (m : option (list bool)), foldl (fun m (_ : Z) => m) m l = m) by (induction l; cbn; auto). apply H.
Qed.

(** ** Columns *)

Definition column_bytes (num_rows : Z) (p : physical_type) (v : vector_t) : bytes :=
  if is_variable_type p then write_offsets 0 (views v) ++ concat (views v) else data v.

Definition physical (v : vector_t) : physical_type := match to_physical_type (vtype v) with Ok p => p | Fault _ => INVALID end.

(** The bytes of a column: type header, size, cells. *)
Definition column_image (num_rows : Z) (v : vector_t) : bytes :=
  write_type_header (vtype v) ++ write_le 4 (zlen (column_bytes num_rows (physical v) v)) ++ column_bytes num_rows (physical v) v.

Lemma column_data_ok num_rows p v : 0 <= num_rows <= DEFAULT_VECTOR_CAPACITY -> cells_ok num_rows p v ->
  column_data_size num_rows p v = zlen (column_bytes num_rows p v) /\
  write_column_data num_rows p v = Ok (column_bytes num_rows p v) /\ 0 <= zlen (column_bytes num_rows p v) < 2 ^ 32.
Proof.
  intros Hr Hc. change DEFAULT_VECTOR_CAPACITY with 1024 in Hr.
  unfold column_data_size, write_column_data, column_bytes, cells_ok in *. destruct (is_variable_type p) eqn:Hp.
  - destruct Hc as (_ & Hlen & Hb). fold (lengths_total (views v)) in Hb. pose proof (zlen_nonneg (concat (views v))).
    fold (lengths_total (views v)) in *. assert (Htake : take (Z.to_nat num_rows) (views v) = views v) by (apply take_ge; unfold zlen in Hlen; lia).
    rewrite Htake, (wrap_small 32 (num_rows + 1)), (wrap_small 32 ((num_rows + 1) * 4)) by (unfold in_width; lia).
    rewrite string_data_size_ok, wrap_small by (unfold in_width; lia).
    rewrite zlen_app, zlen_write_offsets, Hlen. fold (lengths_total (views v)).
    rewrite bool_decide_false by lia. split_and!; [done|done|lia|lia].
  - destruct Hc as (_ & Hpos & _ & Hlen).
    assert (fixed_type_size p <= 16) by (destruct p; cbn; lia).
    unfold column_data_size. rewrite Hp, wrap_small by (unfold in_width; nia). rewrite read_bytes_all by done.
    split_and!; [done|done|lia|nia].
Qed.

Lemma write_column_ok num_rows v : 0 <= num_rows <= DEFAULT_VECTOR_CAPACITY -> vector_ok num_rows v ->
  write_column num_rows v = Ok (column_image num_rows v) /\ column_space num_rows v = Ok (zlen (column_image num_rows v)).
Proof.
  intros Hr (Ht & _ & p & Hp & Hc). unfold write_column, column_space, column_image, physical. rewrite Hp.
  cbn [mbind outcome_bind]. destruct (column_data_ok num_rows p v Hr Hc) as (Hs & Hw & Hb). rewrite Hw, Hs. cbn [mbind outcome_bind mret outcome_ret].
  split; [done|]. rewrite !zlen_app, zlen_write_le, zlen_type_header by done. f_equal. lia.
Qed.

Lemma read_strings_ok a ss c n off : lengths_total ss < 2 ^ 32 -> (n + 1) * 4 < 2 ^ 32 -> zlen ss = n -> off = zlen a + (n + 1) * 4 ->
  mapM (read_string (a ++ (write_offsets 0 ss ++ concat ss) ++ c) (zlen a) off) (seqZ 0 n) = Ok ss.
Proof.
  intros Hb Hn <- ->. rewrite <- app_assoc. apply mapM_ok. apply Forall2_same_length_lookup_2.
  { rewrite length_seqZ. unfold zlen. lia. }
  intros i x y Hx Hy. apply lookup_seqZ in Hx as [-> Hi]. apply read_string_ok; [done|done|].
  apply zget_Some. split; [lia|]. by rewrite Z.add_0_l, Nat2Z.id.
Qed.

Lemma read_column_data_ok a num_rows p v c : 0 <= num_rows <= DEFAULT_VECTOR_CAPACITY -> cells_ok num_rows p v ->
  read_column_data (a ++ column_bytes num_rows p v ++ c) num_rows (zlen a) (zlen (column_bytes num_rows p v)) p =
  Ok (Some (data v, views v)).
Proof.
  intros Hr Hc. change DEFAULT_VECTOR_CAPACITY with 1024 in Hr. unfold read_column_data, column_bytes, cells_ok in *.
  destruct (is_variable_type p) eqn:Hp.
  - destruct Hc as (-> & Hlen & Hb). fold (lengths_total (views v)) in Hb. pose proof (zlen_nonneg (concat (views v))).
    rewrite (wrap_small 32 (num_rows + 1)), (wrap_small 32 ((num_rows + 1) * 4)) by (unfold in_width; lia).
    rewrite zlen_app, zlen_write_offsets, bool_decide_false by lia.
    rewrite read_strings_ok by (done || (unfold lengths_total in *; lia)). done.
  - destruct Hc as (-> & Hpos & Hobj & Hlen). rewrite read_bytes_mid by done. cbn [mbind outcome_bind].
    rewrite Hobj, <- Hlen. pose proof (blit_mid [] (zeros (zlen (data v))) [] (data v)) as Hblit.
    rewrite !app_nil_l, !app_nil_r in Hblit. change (zlen (@nil byte)) with 0 in Hblit.
    rewrite Hblit by (rewrite zlen_zeros; [done|apply zlen_nonneg]). done.
Qed.

(** A column image, with the position of its parts. *)
Definition after_header (a : bytes) (v : vector_t) : bytes := a ++ write_type_header (vtype v).

Lemma read_column_parts a num_rows v c : 0 <= num_rows <= DEFAULT_VECTOR_CAPACITY -> vector_ok num_rows v ->
  let d := column_bytes num_rows (physical v) v in
  let l := a ++ column_image num_rows v ++ c in
  read_type_header l (zlen a) = Ok (Some (vtype v, zlen a + zlen (write_type_header (vtype v)))) /\
  read_le 4 l (zlen a + zlen (write_type_header (vtype v))) = Ok (zlen d) /\
  zlen a + zlen (write_type_header (vtype v)) + 4 + zlen d = zlen (a ++ column_image num_rows v) /\
  to_physical_type (vtype v) = Ok (physical v) /\
  read_column_data l num_rows (zlen a + zlen (write_type_header (vtype v)) + 4) (zlen d) (physical v) =
    Ok (Some (data v, views v)).
Proof.
  intros Hr (Ht & _ & p & Hp & Hc) d l. assert (Hph : physical v = p) by (unfold physical; by rewrite Hp).
  destruct (column_data_ok num_rows p v Hr Hc) as (_ & _ & Hb). unfold l, column_image, d. rewrite Hph.
  set (b := column_bytes num_rows p v) in *. rewrite <- !app_assoc. split_and!; [by apply read_type_header_ok| | |done|].
  - rewrite app_assoc, <- zlen_app. apply read_le_at. cbn. lia.
  - rewrite !zlen_app, zlen_write_le. lia.
  - rewrite app_assoc, (app_assoc _ (write_le 4 (zlen b))).
    replace (zlen a + _ + 4) with (zlen ((a ++ write_type_header (vtype v)) ++ write_le 4 (zlen b)))
      by (rewrite !zlen_app, zlen_write_le; lia).
    by apply read_column_data_ok.
Qed.

Lemma scan_types_ok num_rows vs : forall a c, 0 <= num_rows <= DEFAULT_VECTOR_CAPACITY -> Forall (vector_ok num_rows) vs ->
  scan_types (length vs) (a ++ concat (column_image num_rows <$> vs) ++ c) (zlen a) = Ok (Some (vtype <$> vs)).
Proof.
  induction vs as [|v vs IH]; intros a c Hr Hok; [done|]. apply Forall_cons in Hok as [Hv Hvs].
  destruct (read_column_parts a num_rows v (concat (column_image num_rows <$> vs) ++ c) Hr Hv) as (Hh & Hsz & Hend & _ & _).
  cbn [length scan_types]. rewrite fmap_cons. cbn [concat]. rewrite <- app_assoc. rewrite Hh. cbn [mbind outcome_bind].
  pose proof (zlen_nonneg (column_bytes num_rows (physical v) v)).
  pose proof (zlen_nonneg (concat (column_image num_rows <$> vs) ++ c)).
  assert (Hl : zlen (a ++ column_image num_rows v ++ concat (column_image num_rows <$> vs) ++ c) =
               zlen (a ++ column_image num_rows v) + zlen (concat (column_image num_rows <$> vs) ++ c))
    by (rewrite !zlen_app; lia).
  rewrite Hl, bool_decide_false by lia. rewrite Hsz. cbn [mbind outcome_bind]. rewrite bool_decide_false by lia.
  rewrite Hend, (app_assoc a). by rewrite IH.
Qed.

(** What the second pass needs of the null mask. *)
Definition mask_read (l : bytes) (nm : option Z) (nc nr c : Z) : outcome (option (list bool)) :=
  match nm with
  | Some pos => apply_null_mask (seqZ 0 nr) l pos nc nr c (fresh_validity nr)
  | None => mret (fresh_validity nr)
  end.

Lemma read_columns_ok l nm nc nr vs : forall a c c0,
  0 <= nr <= DEFAULT_VECTOR_CAPACITY -> Forall (vector_ok nr) vs -> l = a ++ concat (column_image nr <$> vs) ++ c ->
  (forall i v, vs !! i = Some v -> mask_read l nm nc nr (c0 + Z.of_nat i) = Ok (validity v)) ->
  read_columns (vtype <$> vs) l nc nr nm (zlen a) c0 = Ok (Some vs).
Proof.
  induction vs as [|v vs IH]; intros a c c0 Hr Hok Hl Hmask; [done|]. apply Forall_cons in Hok as [Hv Hvs].
  rewrite !fmap_cons in *. cbn [concat] in Hl. rewrite <- app_assoc in Hl. cbn [read_columns].
  destruct (read_column_parts a nr v (concat (column_image nr <$> vs) ++ c) Hr Hv) as (Hh & Hsz & Hend & Hp & Hd).
  rewrite <- Hl in Hh, Hsz, Hd. rewrite Hh. cbn [mbind outcome_bind]. rewrite Hsz. cbn [mbind outcome_bind]. rewrite Hp.
  cbn [mbind outcome_bind]. rewrite Hd. cbn [mbind outcome_bind]. fold (mask_read l nm nc nr c0).
  pose proof (Hmask 0%nat v eq_refl) as Hm. rewrite Z.add_0_r in Hm. rewrite Hm. cbn [mbind outcome_bind].
  rewrite Hend, (IH _ c (c0 + 1)); try done.
  - cbn. by destruct v.
  - by rewrite Hl, app_assoc.
  - intros i v' Hi. specialize (Hmask (S i) v' Hi). by replace (c0 + 1 + Z.of_nat i) with (c0 + Z.of_nat (S i)) by lia.
Qed.

Lemma zlen_write_null_mask nc nr vs : forall mask c, zlen (write_null_mask nc nr mask c vs) = zlen mask.
Proof.
  induction vs as [|v vs IH]; intros mask c; [done|]. cbn [write_null_mask]. rewrite IH. unfold mask_column.
  generalize (seqZ 0 nr). intros rows. revert mask. induction rows as [|r rows IHr]; intros mask; [done|].
  cbn. rewrite IHr. destruct (row_is_valid v r); [apply zlen_set_bit|done].
Qed.

(** The mask [serialize_binary] writes reads back, column by column. *)
Lemma null_mask_round nr vs a rest i v :
  0 <= nr <= DEFAULT_VECTOR_CAPACITY -> Forall (vector_ok nr) vs -> vs !! i = Some v ->
  let nc := zlen vs in
  let mask := write_null_mask nc nr (zeros ((nc * nr + 7) / 8)) 0 vs in
  zlen mask = (nc * nr + 7) / 8 /\ mask_read (a ++ mask ++ rest) (Some (zlen a)) nc nr (Z.of_nat i) = Ok (validity v).
Proof.
  intros Hr Hok Hi nc mask. pose proof (lookup_lt_Some _ _ _ Hi) as Hlt.
  assert (Hnc : 0 <= Z.of_nat i < nc) by (unfold nc, zlen; lia).
  assert (Hz : 0 <= (nc * nr + 7) / 8) by (apply Z.div_pos; nia).
  assert (Hlen : zlen mask = (nc * nr + 7) / 8) by (unfold mask; rewrite zlen_write_null_mask; by apply zlen_zeros).
  assert (Hfit : (nr * nc - 1) / 8 < zlen mask).
  { rewrite Hlen. apply Z.div_lt_upper_bound; [lia|]. pose proof (Z.div_mod (nc * nr + 7) 8). pose proof (Z.mod_pos_bound (nc * nr + 7) 8). lia. }
  assert (Hbits : forall r, 0 <= r < nr -> bit_of mask (r * nc + Z.of_nat i) = row_is_valid v r).
  { intros r Hrr. destruct (write_null_mask_bits nc nr vs (zeros ((nc * nr + 7) / 8)) 0 r (Z.of_nat i)) as [_ Hb]; try (unfold nc; lia).
    { rewrite zlen_zeros by done. by rewrite <- Hlen. }
    fold mask in Hb. rewrite Hb.
    assert (Hzero : bit_of (zeros ((nc * nr + 7) / 8)) (r * nc + Z.of_nat i) = false).
    { unfold bit_of, zeros. destruct (_ !!z _) as [b|] eqn:E; [|done]. apply zget_Some in E as [_ E].
      apply lookup_replicate in E as [-> _]. by rewrite Z.testbit_0_l. }
    rewrite Hzero, bool_decide_true by lia. cbn. unfold cell_bit. rewrite Z.sub_0_r.
    replace (vs !!z Z.of_nat i) with (Some v); [done|]. symmetry. apply zget_Some. rewrite Nat2Z.id. split; [lia|done]. }
  split; [done|]. unfold mask_read. unfold fresh_validity. rewrite bool_decide_false by lia.
  rewrite (apply_null_mask_ok a mask rest nc nr (Z.of_nat i) v).
  - rewrite validity_restored; [done|lia|]. rewrite Forall_lookup in Hok. by destruct (Hok i v Hi) as (_ & ? & _).
  - intros r Hrr%elem_of_seqZ. split_and!; [nia| |apply Hbits; lia].
    eapply Z.le_lt_trans; [|exact Hfit]. apply Z.div_le_mono; nia.
Qed.

Lemma has_nulls_rows nr vs : Forall (vector_ok nr) vs -> has_nulls vs = true -> 0 < zlen vs /\ 0 < nr.
Proof.
  intros Hok (v & Hin & Hv)%existsb_exists. apply list_elem_of_In in Hin. rewrite Forall_forall in Hok.
  destruct (Hok v Hin) as (_ & Hval & _). unfold all_valid in Hv. destruct (validity v) as [m|]; [|done].
  destruct Hval as [Hlen Hm]. split.
  - apply list_elem_of_lookup in Hin as [i Hi]. apply lookup_lt_Some in Hi. unfold zlen. lia.
  - apply list_elem_of_lookup in Hm as [i Hi]. apply lookup_lt_Some in Hi. unfold zlen in Hlen. lia.
Qed.

Lemma no_nulls nr vs i v : has_nulls vs = false -> vs !! i = Some v -> 0 <= nr <= DEFAULT_VECTOR_CAPACITY ->
  fresh_validity nr = validity v.
Proof.
  intros Hn Hi Hr. unfold fresh_validity. rewrite bool_decide_false by lia. destruct (validity v) as [m|] eqn:E; [|done].
  exfalso. apply not_true_iff_false in Hn. apply Hn, existsb_exists. exists v.
  split; [by apply list_elem_of_In, (list_elem_of_lookup_2 _ i)|]. unfold all_valid. by rewrite E.
Qed.

Lemma foldr_zlen (l : list bytes) : foldr Z.add 0 (zlen <$> l) = zlen (concat l).
Proof. induction l as [|b l IH]; [done|]. cbn. by rewrite IH, zlen_app. Qed.

(** ** The round trip *)

Definition mask_size (c : data_chunk_t) : Z :=
  if has_nulls (columns c) then (zlen (columns c) * chunk_size c + 7) / 8 else 0.

Definition mask_image (c : data_chunk_t) : bytes :=
  if has_nulls (columns c) then
    write_null_mask (zlen (columns c)) (chunk_size c) (zeros (mask_size c)) 0 (columns c)
  else [].

Definition chunk_image (c : data_chunk_t) : bytes :=
  write_le 2 (zlen (columns c)) ++ write_le 4 (chunk_size c) ++ write_le 4 (mask_size c) ++ mask_image c ++
  concat (column_image (chunk_size c) <$> columns c).

Lemma mask_size_bounds c : data_chunk_ok c -> 0 <= mask_size c < 2 ^ 32.
Proof.
  intros (Hc & Hr & _). change DEFAULT_VECTOR_CAPACITY with 1024 in Hr. unfold mask_size. pose proof (zlen_nonneg (columns c)).
  destruct (has_nulls _); [|lia]. split; [apply Z.div_pos; nia|]. apply Z.div_lt_upper_bound; nia.
Qed.

Lemma zlen_mask_image c : data_chunk_ok c -> zlen (mask_image c) = mask_size c.
Proof.
  intros Hok. pose proof (mask_size_bounds c Hok). unfold mask_image. unfold mask_size in *. destruct (has_nulls _); [|done].
  rewrite zlen_write_null_mask. apply zlen_zeros. lia.
Qed.

Lemma zlen_chunk_image c : data_chunk_ok c ->
  zlen (chunk_image c) = 10 + mask_size c + zlen (concat (column_image (chunk_size c) <$> columns c)).
Proof. intros Hok. unfold chunk_image. rewrite !zlen_app, !zlen_write_le, zlen_mask_image by done. lia. Qed.

Lemma serialize_image c : data_chunk_ok c -> serialize_binary c = Ok (chunk_image c).
Proof.
  intros Hok. pose proof Hok as (Hc & Hr & Hvs). pose proof (zlen_nonneg (columns c)). unfold serialize_binary.
  change DEFAULT_VECTOR_CAPACITY with 1024 in Hr.
  rewrite (wrap_small 16), (wrap_small 32 (chunk_size c)) by (unfold in_width; lia).
  assert (Htake : take (Z.to_nat (zlen (columns c))) (columns c) = columns c) by (apply take_ge; unfold zlen; lia). rewrite Htake.
  assert (Hall : Forall (fun v => write_column (chunk_size c) v = Ok (column_image (chunk_size c) v) /\
                                  column_space (chunk_size c) v = Ok (zlen (column_image (chunk_size c) v))) (columns c))
    by (eapply Forall_impl; [exact Hvs|]; intros v; by apply write_column_ok).
  rewrite (mapM_fmap (column_space (chunk_size c)) (fun v => zlen (column_image (chunk_size c) v)))
    by (eapply Forall_impl; [exact Hall|]; naive_solver).
  cbn [mbind outcome_bind].
  rewrite (mapM_fmap (write_column (chunk_size c)) (column_image (chunk_size c)))
    by (eapply Forall_impl; [exact Hall|]; naive_solver).
  cbn [mbind outcome_bind].
  assert (Hmask : (if has_nulls (columns c)
                   then if bool_decide (0 < zlen (columns c) * chunk_size c)
                        then u32 ((zlen (columns c) * chunk_size c + 7) / 8) else 0 else 0) = mask_size c).
  { pose proof (mask_size_bounds c Hok) as Hm. unfold mask_size in *. destruct (has_nulls (columns c)) eqn:Hn; [|done].
    destruct (has_nulls_rows _ _ Hvs Hn). rewrite bool_decide_true by nia. by apply wrap_small. }
  rewrite Hmask. fold (mask_image c) (chunk_image c).
  pose proof (zlen_chunk_image c Hok) as Hlen. rewrite Hlen.
  replace (foldr Z.add 0 _) with (zlen (concat (column_image (chunk_size c) <$> columns c)))
    by (rewrite <- foldr_zlen, <- list_fmap_compose; done).
  rewrite bool_decide_false by lia. replace (_ - _) with 0 by lia. cbn. by rewrite app_nil_r.
Qed.

Lemma deserialize_image c : data_chunk_ok c -> deserialize_binary (chunk_image c) = Ok (Some c).
Proof.
  intros Hok. pose proof Hok as (Hc & Hr & Hvs). pose proof (zlen_nonneg (columns c)). pose proof (mask_size_bounds c Hok) as Hm.
  pose proof (zlen_chunk_image c Hok) as Hlen. pose proof (zlen_nonneg (concat (column_image (chunk_size c) <$> columns c))).
  assert (Hr' : 0 <= chunk_size c <= 1024) by exact Hr.
  unfold deserialize_binary. rewrite Hlen, bool_decide_false by lia.
  assert (H1 : read_le 2 (chunk_image c) 0 = Ok (zlen (columns c))) by (apply read_le_start; cbn; lia).
  assert (H2 : read_le 4 (chunk_image c) 2 = Ok (chunk_size c)) by (apply read_le_mid; [done|cbn; lia]).
  assert (H3 : read_le 4 (chunk_image c) 6 = Ok (mask_size c)).
  { unfold chunk_image. rewrite app_assoc. apply read_le_mid; [done|cbn; lia]. }
  rewrite H1, H2, H3. cbn [mbind outcome_bind].
  rewrite (bool_decide_false (10 + mask_size c + _ < 10 + mask_size c)), andb_false_r by lia.
  set (hd := write_le 2 (zlen (columns c)) ++ write_le 4 (chunk_size c) ++ write_le 4 (mask_size c)).
  assert (Himg : chunk_image c = hd ++ mask_image c ++ concat (column_image (chunk_size c) <$> columns c))
    by (unfold chunk_image, hd; by rewrite <- !app_assoc).
  assert (Hhd : zlen hd = 10) by (unfold hd; by rewrite !zlen_app, !zlen_write_le).
  assert (Hpos : 10 + mask_size c = zlen (hd ++ mask_image c)) by (rewrite zlen_app, zlen_mask_image by done; lia).
  assert (Himg2 : chunk_image c = (hd ++ mask_image c) ++ concat (column_image (chunk_size c) <$> columns c) ++ [])
    by (rewrite Himg, app_nil_r; by rewrite <- app_assoc).
  replace (Z.to_nat (zlen (columns c))) with (length (columns c)) by (unfold zlen; lia).
  rewrite Hpos, Himg2, scan_types_ok by done. rewrite <- Himg2. cbn [mbind outcome_bind].
  rewrite (mapM_fmap to_physical_type (fun t => match to_physical_type t with Ok p => p | Fault _ => INVALID end))
    by (apply Forall_fmap; eapply Forall_impl; [exact Hvs|]; intros v (_ & _ & p & Hp & _); cbn; by rewrite Hp).
  cbn [mbind outcome_bind].
  rewrite (read_columns_ok (chunk_image c) _ _ _ (columns c) _ [] 0); try done.
  { cbn. by destruct c. }
  intros i v Hi. rewrite Z.add_0_l. unfold mask_image, mask_size in *. destruct (has_nulls (columns c)) eqn:Hn.
  - destruct (has_nulls_rows _ _ Hvs Hn). rewrite bool_decide_true by (apply Z.div_str_pos; nia).
    rewrite Himg, <- Hhd. by apply (null_mask_round (chunk_size c) (columns c) hd).
  - rewrite bool_decide_false by lia. cbn. f_equal. by apply (no_nulls _ (columns c) i).
Qed.

Lemma chunk_image_nonempty c : chunk_image c <> [].
Proof.
  intros E. apply (f_equal zlen) in E. unfold chunk_image in E. rewrite zlen_app, zlen_write_le in E.
  pose proof (zlen_nonneg (write_le 4 (chunk_size c) ++ write_le 4 (mask_size c) ++ mask_image c ++ concat (column_image (chunk_size c) <$> columns c))).
  change (zlen (@nil byte)) with 0 in E. lia.
Qed.

#[global, refine] Instance data_chunk_codec : ChunkCodec :=
  {| chunk := data_chunk_t; serialize_chunk := serialize_binary; deserialize_chunk := deserialize_binary;
     chunk_ok := data_chunk_ok |}.
Proof.
  intros c Hok. exists (chunk_image c). split_and!; [by apply serialize_image|apply chunk_image_nonempty|by apply deserialize_image].
Defined.
