(* ===== verification/WalPage.v ===== *)
(** * Pages and segment files of the write-ahead log

    [services/wal/wal_page.hpp], [wal_page_writer.cpp], [wal_page_reader.cpp]: a segment file
    is a header page followed by data pages with a checksum; the writer cuts the stream of
    records into pages, the reader puts it together again. Files are lists of bytes. Whether
    the file system accepts a page at an offset is the parameter [disk_ok]. *)

From S2P Require Import Prelude.
From S2P Require Import Bytes.
From S2P Require Import WalBinary.
From coqutil Require Import Byte Word.LittleEndianList.
#[local] Open Scope Z_scope.

Definition PAGE_SIZE : Z := 4096.
Definition PAGE_HEADER_SIZE : Z := 32.
Definition PAGE_DATA_SIZE : Z := PAGE_SIZE - PAGE_HEADER_SIZE.
Definition WAL_MAGIC : bytes := [Byte.x4f; Byte.x57; Byte.x41; Byte.x4c].
Definition WAL_VERSION : Z := 1.

Definition PAGE_NORMAL : Z := 0.
Definition PAGE_PARTIAL_CONT : Z := 1.
Definition PAGE_PARTIAL_END : Z := 2.

(** ** Headers *)

Record wal_file_header_t := FileHeader {
  magic : bytes;
  version : Z;
  page_size : Z;
  segment_index : Z;
  database_name_len : Z;
  database_name : bytes;
  created_timestamp : Z;
}.

(** [init]: the name buffer keeps a terminating zero. *)
Definition init_file_header (seg_idx : Z) (db_name : bytes) : wal_file_header_t :=
  let len := u16 (if bool_decide (zlen db_name < 256) then zlen db_name else 255) in
  FileHeader WAL_MAGIC WAL_VERSION PAGE_SIZE seg_idx len
    (take (Z.to_nat len) db_name ++ zeros (256 - len)) 0.

(** The struct in memory: six bytes of padding before the time stamp. *)
Definition file_header_bytes (h : wal_file_header_t) : bytes :=
  magic h ++ write_le 2 (version h) ++ write_le 2 0 ++ write_le 4 (page_size h) ++ write_le 4 (segment_index h) ++
  write_le 2 (database_name_len h) ++ database_name h ++ zeros 6 ++ write_le 8 (created_timestamp h).

Definition validate_file_header (h : wal_file_header_t) : bool :=
  bool_decide (magic h = WAL_MAGIC) && bool_decide (version h = WAL_VERSION) && bool_decide (page_size h = PAGE_SIZE).

Record wal_page_header_t := PageHeader {
  page_lsn : Z;
  page_end_lsn : Z;
  num_records : Z;
  data_size : Z;
  checksum : Z;
  flags : Z;
  reserved : Z;
}.

Definition zero_header : wal_page_header_t := PageHeader 0 0 0 0 0 0 0.

Definition page_header_bytes (h : wal_page_header_t) : bytes :=
  write_le 8 (page_lsn h) ++ write_le 8 (page_end_lsn h) ++ write_le 4 (num_records h) ++ write_le 4 (data_size h) ++
  write_le 4 (checksum h) ++ write_le 2 (flags h) ++ write_le 2 (reserved h).

(** [memcpy(&hdr, page_buf, PAGE_HEADER_SIZE)]. *)
Definition page_header_of (page : bytes) : outcome wal_page_header_t :=
  page_lsn ← read_le 8 page 0;
  page_end_lsn ← read_le 8 page 8;
  num_records ← read_le 4 page 16;
  data_size ← read_le 4 page 20;
  checksum ← read_le 4 page 24;
  flags ← read_le 2 page 28;
  reserved ← read_le 2 page 30;
  mret (PageHeader page_lsn page_end_lsn num_records data_size checksum flags reserved).

Section wal_page.
Context `{Codec : ChunkCodec} (crc32c : bytes -> Z) (disk_ok : Z -> bool).

Definition compute_page_crc (page : bytes) : Z := u32 (crc32c page).

(** Returns the page buffer with the header and its checksum in place. *)
Definition compute_checksum (h : wal_page_header_t) (page : bytes) : outcome bytes :=
  let h0 := PageHeader (page_lsn h) (page_end_lsn h) (num_records h) (data_size h) 0 (flags h) (reserved h) in
  page ← blit page 0 (page_header_bytes h0);
  blit page 24 (write_le 4 (compute_page_crc page)).

Definition verify_checksum (h : wal_page_header_t) (page : bytes) : outcome bool :=
  temp ← blit page 24 (write_le 4 0);
  mret (bool_decide (compute_page_crc temp = checksum h)).

(** ** The writer *)

Record writer := Writer {
  file : bytes;
  current_page_ : bytes;
  current_offset_ : Z;
  num_records_ : Z;
  page_lsn_ : Z;
  page_end_lsn_ : Z;
  page_flags_ : Z;
  file_size_ : Z;
  has_data_ : bool;
}.

Definition start_new_page (w : writer) : writer :=
  Writer (file w) (zeros PAGE_SIZE) PAGE_HEADER_SIZE 0 0 0 PAGE_NORMAL (file_size_ w) false.

Definition write_file_header (seg_idx : Z) (db_name : bytes) (w : writer) : bool * writer :=
  let hdr := file_header_bytes (init_file_header seg_idx db_name) in
  let header_page := hdr ++ zeros (PAGE_SIZE - zlen hdr) in
  if disk_ok 0 then
    (true, Writer (file_write (file w) 0 header_page) (current_page_ w) (current_offset_ w) (num_records_ w) (page_lsn_ w)
             (page_end_lsn_ w) (page_flags_ w) PAGE_SIZE (has_data_ w))
  else (false, w).

(** The constructor: [existing] is the content of the segment file. *)
Definition open_writer (existing : bytes) (seg_idx : Z) (db_name : bytes) : writer :=
  let w := Writer existing (zeros PAGE_SIZE) PAGE_HEADER_SIZE 0 0 0 PAGE_NORMAL 0 false in
  let w :=
    if bool_decide (PAGE_SIZE < zlen existing) then
      Writer existing (current_page_ w) (current_offset_ w) 0 0 0 PAGE_NORMAL (zlen existing / PAGE_SIZE * PAGE_SIZE) false
    else (write_file_header seg_idx db_name w).2 in
  start_new_page w.

Definition flush_page (w : writer) : outcome (bool * writer) :=
  if negb (has_data_ w) && bool_decide (num_records_ w = 0) && bool_decide (Z.land (page_flags_ w) PAGE_PARTIAL_CONT = 0) then
    mret (true, w)
  else
    page ← (if bool_decide (current_offset_ w < PAGE_SIZE) then
              blit (current_page_ w) (current_offset_ w) (zeros (PAGE_SIZE - current_offset_ w))
            else mret (current_page_ w));
    let hdr := PageHeader (page_lsn_ w) (page_end_lsn_ w) (num_records_ w) (u32 (current_offset_ w - PAGE_HEADER_SIZE)) 0
                 (page_flags_ w) 0 in
    page ← blit page 0 (page_header_bytes hdr);
    page ← compute_checksum hdr page;
    let w := Writer (file w) page (current_offset_ w) (num_records_ w) (page_lsn_ w) (page_end_lsn_ w) (page_flags_ w)
               (file_size_ w) (has_data_ w) in
    if disk_ok (file_size_ w) then
      mret (true, start_new_page
                    (Writer (file_write (file w) (file_size_ w) page) (current_page_ w) (current_offset_ w) (num_records_ w)
                       (page_lsn_ w) (page_end_lsn_ w) (page_flags_ w) (file_size_ w + PAGE_SIZE) (has_data_ w)))
    else mret (false, w).

(** The loop of [append]; a turn that does not finish fills a page. *)
Fixpoint append_loop (fuel : nat) (w : writer) (src : bytes) (wal_id : Z) (is_first_chunk : bool) : outcome (bool * writer) :=
  match fuel with
  | O => Fault OutOfFuel
  | S fuel =>
      if bool_decide (zlen src = 0) then mret (true, w)
      else
        let space := u64 (PAGE_DATA_SIZE - (current_offset_ w - PAGE_HEADER_SIZE)) in
        if bool_decide (zlen src <= space) then
          page ← blit (current_page_ w) (current_offset_ w) src;
          mret (true,
                Writer (file w) page (current_offset_ w + zlen src)
                  (if is_first_chunk then u32 (num_records_ w + 1) else num_records_ w) (page_lsn_ w) (page_end_lsn_ w)
                  (if is_first_chunk then page_flags_ w else Z.lor (page_flags_ w) PAGE_PARTIAL_END) (file_size_ w) true)
        else
          chunk ← read_bytes src 0 space;
          page ← blit (current_page_ w) (current_offset_ w) chunk;
          '(ok, w) ← flush_page
                       (Writer (file w) page (current_offset_ w + space) (num_records_ w) (page_lsn_ w) (page_end_lsn_ w)
                          (Z.lor (page_flags_ w) PAGE_PARTIAL_CONT) (file_size_ w) true);
          if negb ok : bool then mret (false, w)
          else
            let w := start_new_page w in
            append_loop fuel
              (Writer (file w) (current_page_ w) (current_offset_ w) (num_records_ w) wal_id wal_id
                 (Z.lor (page_flags_ w) PAGE_PARTIAL_CONT) (file_size_ w) (has_data_ w))
              (drop (Z.to_nat space) src) wal_id false
  end.

(** Every turn but the first takes a whole page. *)
Definition append (w : writer) (data : bytes) (wal_id : Z) : outcome (bool * writer) :=
  if bool_decide (zlen data = 0) then mret (true, w)
  else
    append_loop (length data + 2)
      (Writer (file w) (current_page_ w) (current_offset_ w) (num_records_ w)
         (if bool_decide (page_lsn_ w = 0) then wal_id else page_lsn_ w) wal_id (page_flags_ w) (file_size_ w) (has_data_ w))
      data wal_id true.

Definition flush (w : writer) : outcome (bool * writer) := if has_data_ w then flush_page w else mret (true, w).

(** [fsync] adds nothing to the model of the file. *)
Definition flush_and_sync (w : writer) : outcome (bool * writer) := flush w.

Definition last_wal_id (w : writer) : Z := page_end_lsn_ w.

(** ** The reader *)

Definition page_count (f : bytes) : Z := if bool_decide (zlen f <= PAGE_SIZE) then 0 else zlen f / PAGE_SIZE - 1.

Definition read_page (f : bytes) (page_index : Z) : option bytes :=
  let offset := page_index * PAGE_SIZE in
  match read_bytes f offset PAGE_SIZE with Ok b => Some b | Fault _ => None end.

Definition read_page_header (f : bytes) (page_index : Z) : outcome wal_page_header_t :=
  match read_bytes f (page_index * PAGE_SIZE) PAGE_HEADER_SIZE with
  | Ok b => page_header_of b
  | Fault _ => mret zero_header
  end.

Definition verify_page_checksum (f : bytes) (page_index : Z) : outcome bool :=
  match read_page f page_index with
  | None => mret false
  | Some page => h ← page_header_of page; verify_checksum h page
  end.

Fixpoint verify_from (f : bytes) (indices : list Z) : outcome bool :=
  match indices with
  | [] => mret true
  | i :: indices =>
      ok ← verify_page_checksum f i;
      if ok : bool then verify_from f indices else mret false
  end.

Definition verify_chain (f : bytes) : outcome bool := verify_from f (seqZ 1 (page_count f)).

(** The binary search over the page headers; [lo] to [hi] inclusive. *)
Fixpoint seek (fuel : nat) (f : bytes) (target lo hi result : Z) : outcome Z :=
  match fuel with
  | O => Fault OutOfFuel
  | S fuel =>
      if bool_decide (hi < lo) then mret result
      else
        let mid := lo + (hi - lo) / 2 in
        hdr ← read_page_header f mid;
        if bool_decide (page_lsn hdr <= target) then
          if bool_decide (target <= page_end_lsn hdr) then mret mid else seek fuel f target (mid + 1) hi mid
        else if bool_decide (mid = 0) then mret result
        else seek fuel f target lo (mid - 1) result
  end.

(** The range shrinks by one at least. *)
Definition seek_to_lsn (f : bytes) (target_lsn : Z) : outcome Z :=
  let count := page_count f in
  if bool_decide (count = 0) then mret 0 else seek (Z.to_nat count + 1) f target_lsn 1 count 1.

(** *** Putting records together *)

(** Keep a record that is valid and new. *)
Definition keep (after_id : Z) (records : list record_t) (r : record_t) : list record_t :=
  if is_valid r && bool_decide (after_id < id r) then records ++ [r] else records.

(** The complete records of a page from [offset] on, and where they end. A turn moves on
    unless the length of a record wraps to zero. *)
Fixpoint parse_records (fuel : nat) (data : bytes) (offset data_size after_id : Z) (records : list record_t) :
    outcome (Z * list record_t) :=
  match fuel with
  | O => Fault OutOfFuel
  | S fuel =>
      if bool_decide (data_size <= offset) then mret (offset, records)
      else if bool_decide (data_size < offset + 4) then mret (offset, records)
      else
        rec_size ← read_le 4 data offset;
        if bool_decide (rec_size = 0) then mret (offset, records)
        else
          let total := u32 (rec_size + 8) in
          if bool_decide (data_size < offset + total) then mret (offset, records)
          else
            b ← read_bytes data offset total;
            r ← decode_record crc32c b;
            parse_records fuel data (offset + total) data_size after_id (keep after_id records r)
  end.

Definition parse_fuel (data_size : Z) : nat := Z.to_nat data_size + 1.

(** What [read_all_records] carries from page to page. *)
Record read_state := ReadState {
  records : list record_t;
  span_buffer : bytes;
  in_span : bool;
}.

(** The continuation of a spanning record on its last page. *)
Definition finish_span (after_id : Z) (st : read_state) (data : bytes) (data_size : Z) : outcome read_state :=
  let span := span_buffer st in
  needed ← (if bool_decide (4 <= zlen span) then
              body_size ← read_le 4 span 0;
              let total_record := u32 (body_size + 8) in
              mret (if bool_decide (zlen span < total_record) then u32 (total_record - zlen span) else 0)
            else mret data_size);
  let to_take := Z.min needed data_size in
  more ← read_bytes data 0 to_take;
  let span := span ++ more in
  if bool_decide (4 <= zlen span) then
    body_size ← read_le 4 span 0;
    let total_record := u32 (body_size + 8) in
    if bool_decide (total_record <= zlen span) then
      b ← read_bytes span 0 total_record;
      r ← decode_record crc32c b;
      '(_, recs) ← parse_records (parse_fuel data_size) data to_take data_size after_id (keep after_id (records st) r);
      mret (ReadState recs [] false)
    else mret (ReadState (records st) span true)
  else mret (ReadState (records st) span true).

(** One page with a good checksum. *)
Definition process_page (after_id : Z) (st : read_state) (hdr : wal_page_header_t) (data : bytes) : outcome read_state :=
  let data_size := data_size hdr in
  let is_cont := negb (bool_decide (Z.land (flags hdr) PAGE_PARTIAL_CONT = 0)) in
  let is_end := negb (bool_decide (Z.land (flags hdr) PAGE_PARTIAL_END = 0)) in
  if in_span st && is_cont && negb is_end then
    more ← read_bytes data 0 data_size;
    mret (ReadState (records st) (span_buffer st ++ more) true)
  else if in_span st && (is_cont || is_end) then finish_span after_id st data data_size
  else
    let span := if in_span st then [] else span_buffer st in
    '(offset, recs) ← parse_records (parse_fuel data_size) data 0 data_size after_id (records st);
    if is_cont then
      span ← (if bool_decide (offset < data_size) then read_bytes data offset (data_size - offset) else mret span);
      mret (ReadState recs span true)
    else mret (ReadState recs span false).

(** [false]: stop at this page. *)
Definition read_one (f : bytes) (after_id : Z) (pi : Z) (st : read_state) : outcome (bool * read_state) :=
  match read_page f pi with
  | None => mret (false, st)
  | Some page =>
      hdr ← page_header_of page;
      ok ← verify_checksum hdr page;
      if ok : bool then
        data ← read_bytes page PAGE_HEADER_SIZE PAGE_DATA_SIZE;
        st ← process_page after_id st hdr data;
        mret (true, st)
      else mret (false, st)
  end.

Fixpoint read_from (f : bytes) (after_id : Z) (indices : list Z) (st : read_state) : outcome read_state :=
  match indices with
  | [] => mret st
  | pi :: indices =>
      '(go, st) ← read_one f after_id pi st;
      if go : bool then read_from f after_id indices st else mret st
  end.

Definition read_all_records (f : bytes) (after_id : Z) : outcome (list record_t) :=
  st ← read_from f after_id (seqZ 1 (page_count f)) (ReadState [] [] false);
  mret (records st).

End wal_page.
