(* ===== verification/WalPageWriter.v ===== *)
(** * What the page writer puts into a segment file

    The page writer of WalPage.v against an abstract one that works on pages without their
    binary form: a page is its header fields and its data. [image] is the binary form, and
    the writer's file is the concatenation of the images of the pages it has flushed. *)

From S2P Require Import Prelude.
From S2P Require Import Bytes.
From S2P Require Import WalBinary.
From S2P Require Import WalPage.
From coqutil Require Import Byte Word.LittleEndianList.
#[local] Open Scope Z_scope.

Record apage := APage {
  ap_lsn : Z;
  ap_end : Z;
  ap_num : Z;
  ap_flags : Z;
  ap_data : bytes;
}.

Definition new_page : apage := APage 0 0 0 0 [].

Definition space (p : apage) : Z := PAGE_DATA_SIZE - zlen (ap_data p).

Record apage_ok (p : apage) : Prop := {
  ok_lsn : in_width 64 (ap_lsn p);
  ok_end : in_width 64 (ap_end p);
  ok_num : 0 <= ap_num p <= zlen (ap_data p);
  ok_flags : 0 <= ap_flags p < 4;
  ok_data : zlen (ap_data p) <= PAGE_DATA_SIZE;
}.

Lemma new_page_ok : apage_ok new_page.
Proof. by split; vm_compute. Qed.

Section page_writer.
Context `{Codec : ChunkCodec} (crc32c : bytes -> Z) (disk_ok : Z -> bool).

(** ** Binary form *)

Definition header_with (p : apage) (crc : Z) : wal_page_header_t :=
  PageHeader (ap_lsn p) (ap_end p) (ap_num p) (zlen (ap_data p)) crc (ap_flags p) 0.

Definition padded (p : apage) : bytes := ap_data p ++ zeros (space p).

Definition page_crc (p : apage) : Z := compute_page_crc crc32c (page_header_bytes (header_with p 0) ++ padded p).
Definition header (p : apage) : wal_page_header_t := header_with p (page_crc p).
Definition image (p : apage) : bytes := page_header_bytes (header p) ++ padded p.

(** The header around its checksum. *)
Definition header_front (p : apage) : bytes :=
  write_le 8 (ap_lsn p) ++ write_le 8 (ap_end p) ++ write_le 4 (ap_num p) ++ write_le 4 (zlen (ap_data p)).
Definition header_back (p : apage) : bytes := write_le 2 (ap_flags p) ++ write_le 2 0.

Lemma header_split p crc : page_header_bytes (header_with p crc) = header_front p ++ write_le 4 crc ++ header_back p.
Proof. unfold page_header_bytes, header_front, header_back. cbn [page_lsn page_end_lsn num_records data_size checksum flags reserved header_with]. by rewrite <- !app_assoc. Qed.

Lemma zlen_header_front p : zlen (header_front p) = 24.
Proof. unfold header_front. by rewrite !zlen_app, !zlen_write_le. Qed.

Lemma zlen_header p crc : zlen (page_header_bytes (header_with p crc)) = 32.
Proof. rewrite header_split, !zlen_app, zlen_header_front. unfold header_back. by rewrite !zlen_app, !zlen_write_le. Qed.

Lemma zlen_padded p : apage_ok p -> zlen (padded p) = PAGE_DATA_SIZE.
Proof. intros [_ _ _ _ Hd]. unfold padded, space. rewrite zlen_app, zlen_zeros by lia. lia. Qed.

Lemma zlen_image p : apage_ok p -> zlen (image p) = PAGE_SIZE.
Proof. intros Hp. unfold image, header. by rewrite zlen_app, zlen_header, zlen_padded. Qed.

Lemma read_padded p : apage_ok p -> read_bytes (image p) PAGE_HEADER_SIZE PAGE_DATA_SIZE = Ok (padded p).
Proof.
  intros Hp. unfold image. apply read_bytes_end; [unfold header; by rewrite zlen_header|by rewrite zlen_padded].
Qed.

Lemma header_of_image p : apage_ok p -> page_header_of (image p) = Ok (header p).
Proof.
  intros [Hlsn Hend Hnum Hfl Hd]. unfold page_header_of, image, header, page_header_bytes.
  cbn [page_lsn page_end_lsn num_records data_size checksum flags reserved header_with].
  pose proof (wrap_width 32 (crc32c (page_header_bytes (header_with p 0) ++ padded p)) ltac:(lia)) as Hcrc. fold (page_crc p) in Hcrc.
  pose proof (zlen_nonneg (ap_data p)). change PAGE_DATA_SIZE with 4064 in Hd. unfold in_width in *.
  assert (Hc : page_crc p = u32 (crc32c (page_header_bytes (header_with p 0) ++ padded p))) by done.
  rewrite <- !app_assoc.
  repeat read_field. done.
Qed.

Lemma verify_image p : verify_checksum crc32c (header p) (image p) = Ok true.
Proof.
  unfold verify_checksum, image, header. rewrite header_split, <- !app_assoc.
  pose proof (blit_mid (header_front p) (write_le 4 (page_crc p)) (header_back p ++ padded p) (write_le 4 0)) as Hb.
  rewrite zlen_header_front in Hb. rewrite Hb by (by rewrite !zlen_write_le). cbn [mbind outcome_bind].
  rewrite bool_decide_true; [done|]. cbn [checksum header_with]. unfold page_crc. rewrite header_split. by rewrite <- !app_assoc.
Qed.

(** ** The writer's state *)

(** The writer has flushed [f] and is filling page [p]. A reopened file can have less than
    a page of leftovers after [f]; the next page overwrites them. *)
Record writer_at (w : writer) (f : bytes) (p : apage) : Prop := {
  at_file : exists junk, file w = f ++ junk /\ zlen junk < PAGE_SIZE;
  at_page : current_page_ w = zeros PAGE_HEADER_SIZE ++ padded p;
  at_offset : current_offset_ w = PAGE_HEADER_SIZE + zlen (ap_data p);
  at_num : num_records_ w = ap_num p;
  at_lsn : page_lsn_ w = ap_lsn p;
  at_end : page_end_lsn_ w = ap_end p;
  at_flags : page_flags_ w = ap_flags p;
  at_size : file_size_ w = zlen f;
  at_data : has_data_ w = bool_decide (ap_data p <> []);
}.

Lemma zeros_app a b : 0 <= a -> 0 <= b -> zeros (a + b) = zeros a ++ zeros b.
Proof. intros. unfold zeros. by rewrite <- replicate_add, Z2Nat.inj_add. Qed.

Lemma blit_page p src : apage_ok p -> zlen src <= space p ->
  blit (zeros PAGE_HEADER_SIZE ++ padded p) (PAGE_HEADER_SIZE + zlen (ap_data p)) src =
  Ok (zeros PAGE_HEADER_SIZE ++ (ap_data p ++ src) ++ zeros (space p - zlen src)).
Proof.
  intros Hp Hs. pose proof (zlen_nonneg src). unfold padded.
  replace (space p) with (zlen src + (space p - zlen src)) at 1 by lia. rewrite zeros_app by lia.
  pose proof (blit_mid (zeros PAGE_HEADER_SIZE ++ ap_data p) (zeros (zlen src)) (zeros (space p - zlen src)) src) as Hb.
  rewrite zlen_app, <- !app_assoc in Hb. rewrite <- !app_assoc. apply Hb. by rewrite zlen_zeros.
Qed.

Lemma file_write_end f junk d : zlen junk <= zlen d -> file_write (f ++ junk) (zlen f) d = f ++ d.
Proof.
  intros Hj. pose proof (zlen_nonneg f). pose proof (zlen_nonneg junk). unfold file_write.
  rewrite <- app_assoc. rewrite take_app_le by (unfold zlen; lia). rewrite take_ge by (unfold zlen; lia).
  rewrite drop_ge; [by rewrite app_nil_r|]. rewrite length_app. unfold zlen in *. lia.
Qed.

Lemma flush_page_bytes p :
  apage_ok p ->
  (page ← blit (zeros PAGE_HEADER_SIZE ++ padded p) 0 (page_header_bytes (header_with p 0));
   compute_checksum crc32c (header_with p 0) page) = Ok (image p).
Proof.
  intros Hp. pose proof (blit_mid [] (zeros PAGE_HEADER_SIZE) (padded p) (page_header_bytes (header_with p 0))) as H1.
  rewrite !app_nil_l in H1. change (zlen (@nil byte)) with 0 in H1. rewrite H1 by (by rewrite zlen_header). cbn [mbind outcome_bind].
  unfold compute_checksum. cbn [page_lsn page_end_lsn num_records data_size flags reserved header_with]. fold (header_with p 0).
  pose proof (blit_mid [] (page_header_bytes (header_with p 0)) (padded p) (page_header_bytes (header_with p 0))) as H2.
  rewrite !app_nil_l in H2. change (zlen (@nil byte)) with 0 in H2. rewrite H2 by done. cbn [mbind outcome_bind].
  fold (page_crc p). unfold image, header. rewrite (header_split p 0), (header_split p (page_crc p)), <- !app_assoc.
  pose proof (blit_mid (header_front p) (write_le 4 0) (header_back p ++ padded p) (write_le 4 (page_crc p))) as Hb.
  rewrite zlen_header_front in Hb. apply Hb. by rewrite !zlen_write_le.
Qed.

(** What a page is written to. *)
Definition disk_accepts : Prop := forall off, disk_ok off = true.

Lemma flush_page_at w f p : disk_accepts -> apage_ok p -> writer_at w f p -> ap_data p <> [] ->
  exists w', flush_page crc32c disk_ok w = Ok (true, w') /\ file w' = f ++ image p /\ writer_at w' (f ++ image p) new_page /\ start_new_page w' = w'.
Proof.
  intros Hdisk Hp Hw Hne. destruct Hw as [(junk & Hfile & Hj) Hpage Hoff Hnum Hlsn Hend Hfl Hsz Hdata].
  unfold flush_page. rewrite Hdata, bool_decide_true by done. cbn [negb andb].
  pose proof (ok_data p Hp) as Hd. pose proof (zlen_nonneg (ap_data p)). change PAGE_DATA_SIZE with 4064 in Hd.
  assert (Htail : (if bool_decide (current_offset_ w < PAGE_SIZE) then
              blit (current_page_ w) (current_offset_ w) (zeros (PAGE_SIZE - current_offset_ w))
            else mret (current_page_ w)) = Ok (zeros PAGE_HEADER_SIZE ++ padded p)).
  { rewrite Hpage, Hoff.
    replace (PAGE_SIZE - (PAGE_HEADER_SIZE + zlen (ap_data p))) with (space p) by (unfold space, PAGE_DATA_SIZE; lia).
    assert (Hsp : 0 <= space p) by (unfold space, PAGE_DATA_SIZE, PAGE_SIZE, PAGE_HEADER_SIZE in *; lia).
    rewrite blit_page by (done || (rewrite zlen_zeros; lia)). rewrite zlen_zeros, Z.sub_diag by done.
    unfold padded. change (zeros 0) with (@nil byte). rewrite app_nil_r. destruct (bool_decide (PAGE_HEADER_SIZE + _ < PAGE_SIZE)); reflexivity. }
  rewrite Htail. cbn [mbind outcome_bind].
  assert (Hh : PageHeader (page_lsn_ w) (page_end_lsn_ w) (num_records_ w) (u32 (current_offset_ w - PAGE_HEADER_SIZE)) 0 (page_flags_ w) 0
               = header_with p 0).
  { rewrite Hlsn, Hend, Hnum, Hfl, Hoff. unfold header_with. f_equal. rewrite wrap_small; [lia|]. unfold in_width, PAGE_HEADER_SIZE. lia. }
  rewrite Hh. pose proof (flush_page_bytes p Hp) as Hb.
  destruct (blit (zeros PAGE_HEADER_SIZE ++ padded p) 0 (page_header_bytes (header_with p 0))) as [page|]; [|done].
  cbn [mbind outcome_bind] in *. rewrite Hb. cbn [mbind outcome_bind file_size_]. rewrite Hdisk.
  assert (Hfw : file_write (file w) (file_size_ w) (image p) = f ++ image p).
  { rewrite Hfile, Hsz. apply file_write_end. rewrite zlen_image by done. lia. }
  eexists. split_and!; [reflexivity| | |]; cbn [file start_new_page]; [done| |done].
  split; cbn [file current_page_ current_offset_ num_records_ page_lsn_ page_end_lsn_ page_flags_ file_size_ has_data_ start_new_page]; try done.
  - exists []. rewrite app_nil_r. done.
  - rewrite zlen_app, zlen_image by done. lia.
Qed.

(** ** Appending *)

(** How a record is put on pages: the pages it completes and the page it ends on. *)
Inductive puts (id : Z) : bool -> apage -> bytes -> list apage -> apage -> Prop :=
| puts_fit first p src :
    zlen src <= space p ->
    puts id first p src []
      (APage (ap_lsn p) (ap_end p) (if first then ap_num p + 1 else ap_num p)
         (if first then ap_flags p else Z.lor (ap_flags p) PAGE_PARTIAL_END) (ap_data p ++ src))
| puts_spill first p s1 s2 ps p' :
    zlen s1 = space p -> s2 <> [] ->
    puts id false (APage id id 0 PAGE_PARTIAL_CONT []) s2 ps p' ->
    puts id first p (s1 ++ s2)
      (APage (ap_lsn p) (ap_end p) (ap_num p) (Z.lor (ap_flags p) PAGE_PARTIAL_CONT) (ap_data p ++ s1) :: ps) p'.

Lemma flags_lor a b : 0 <= a < 4 -> 0 <= b < 4 -> 0 <= Z.lor a b < 4.
Proof.
  intros Ha Hb. split; [apply Z.lor_nonneg; lia|]. change 4 with (2 ^ 2). apply Z.log2_lt_cancel.
  destruct (decide (Z.lor a b = 0)) as [-> |]; [done|]. rewrite Z.log2_lor by lia.
  change (Z.log2 (2 ^ 2)) with (Z.succ 1). apply Z.max_lub_lt; apply Z.lt_succ_r; (etrans; [apply (Z.log2_le_mono _ 3); lia|done]).
Qed.

Lemma zlen_pos {A} (l : list A) : l <> [] -> 0 < zlen l.
Proof. destruct l; [done|]. intros _. rewrite zlen_cons. pose proof (zlen_nonneg l). lia. Qed.

Lemma zlen_pos_inv {A} (l : list A) : 0 < zlen l -> l <> [].
Proof. intros H ->. change (zlen (@nil A)) with 0 in H. lia. Qed.

Lemma space_bounds p : apage_ok p -> 0 <= space p <= PAGE_DATA_SIZE.
Proof. intros Hp. pose proof (ok_data p Hp). pose proof (zlen_nonneg (ap_data p)). unfold space. lia. Qed.

Lemma full_page_ok p s1 : apage_ok p -> zlen s1 = space p ->
  apage_ok (APage (ap_lsn p) (ap_end p) (ap_num p) (Z.lor (ap_flags p) PAGE_PARTIAL_CONT) (ap_data p ++ s1)).
Proof.
  intros [Hl He Hn Hf Hd] Hs. unfold space in Hs. pose proof (zlen_nonneg s1). split; cbn; try done; rewrite ?zlen_app; try lia.
  apply flags_lor; [done|]. unfold PAGE_PARTIAL_CONT. lia.
Qed.

Lemma page_full_nonempty p (d : bytes) : zlen d = zlen (ap_data p) + space p -> d <> [].
Proof. intros Hd. apply zlen_pos_inv. rewrite Hd. unfold space. change PAGE_DATA_SIZE with 4064. lia. Qed.

Lemma cont_page_ok id : in_width 64 id -> apage_ok (APage id id 0 PAGE_PARTIAL_CONT []).
Proof. intros Hid. split; cbn; try done; by vm_compute. Qed.

Lemma append_fit (fuel : nat) w f p src id first : apage_ok p -> writer_at w f p -> src <> [] -> zlen src <= space p ->
  exists p' w', append_loop crc32c disk_ok (S fuel) w src id first = Ok (true, w') /\ puts id first p src [] p' /\
                writer_at w' f p' /\ apage_ok p'.
Proof.
  intros Hp Hw Hne Hfit. pose proof (space_bounds p Hp) as Hsp. pose proof (zlen_pos src Hne).
  pose proof Hw as [Hfile Hpage Hoff Hnum Hlsn Hend Hfl Hsz Hdata]. pose proof Hp as [Hl He Hn Hf Hd].
  change PAGE_DATA_SIZE with 4064 in *. cbn [append_loop]. rewrite bool_decide_false by lia.
  assert (Hspace : u64 (PAGE_DATA_SIZE - (current_offset_ w - PAGE_HEADER_SIZE)) = space p).
  { rewrite Hoff, wrap_small; unfold in_width, space, PAGE_DATA_SIZE, PAGE_SIZE, PAGE_HEADER_SIZE in *; lia. }
  rewrite Hspace, bool_decide_true by done. rewrite Hpage, Hoff, blit_page by done. cbn [mbind outcome_bind].
  eexists _, _. split_and!; [reflexivity|by apply puts_fit| |].
  - split; cbn [file current_page_ current_offset_ num_records_ page_lsn_ page_end_lsn_ page_flags_ file_size_ has_data_
                ap_data ap_num ap_flags ap_lsn ap_end]; try done.
    + unfold padded, space. cbn [ap_data]. rewrite zlen_app. do 3 f_equal. unfold space. lia.
    + rewrite zlen_app. lia.
    + rewrite Hnum. destruct first; [|done]. apply wrap_small. unfold in_width. lia.
    + destruct first; by rewrite Hfl.
    + rewrite bool_decide_true; [done|]. by destruct (ap_data p), src.
  - split; cbn [ap_data ap_num ap_flags ap_lsn ap_end]; try done; rewrite ?zlen_app.
    + destruct first; lia.
    + destruct first; [done|]. apply flags_lor; [done|]. unfold PAGE_PARTIAL_END. lia.
    + unfold space in Hfit. lia.
Qed.

Lemma append_loop_at fuel : forall w f p src id first,
  disk_accepts -> in_width 64 id -> apage_ok p -> writer_at w f p -> src <> [] ->
  (length src + (if bool_decide (space p = 0%Z) then 1 else 0) < fuel)%nat ->
  exists ps p' w', append_loop crc32c disk_ok fuel w src id first = Ok (true, w') /\ puts id first p src ps p' /\
    writer_at w' (f ++ concat (image <$> ps)) p' /\ apage_ok p' /\ Forall apage_ok ps.
Proof.
  induction fuel as [|fuel IH]; intros w f p src id first Hdisk Hid Hp Hw Hne Hfuel; [lia|].
  destruct (decide (zlen src <= space p)) as [Hfit|Hspill].
  { destruct (append_fit fuel w f p src id first) as (p' & w' & Hrun & Hputs & Hat & Hok); try done.
    exists [], p', w'. rewrite app_nil_r. done. }
  pose proof (space_bounds p Hp) as Hsp. pose proof (zlen_pos src Hne).
  set (s1 := take (Z.to_nat (space p)) src). set (s2 := drop (Z.to_nat (space p)) src).
  assert (Hsplit : src = s1 ++ s2) by (unfold s1, s2; by rewrite take_drop).
  assert (Hs1 : zlen s1 = space p) by (unfold s1, zlen in *; rewrite length_take; lia).
  assert (Hs2 : zlen s2 = zlen src - space p) by (rewrite Hsplit, zlen_app; lia).
  assert (Hs2ne : s2 <> []) by (apply zlen_pos_inv; lia).
  set (p1 := APage (ap_lsn p) (ap_end p) (ap_num p) (Z.lor (ap_flags p) PAGE_PARTIAL_CONT) (ap_data p ++ s1)).
  assert (Hp1 : apage_ok p1) by (by apply full_page_ok).
  pose proof Hw as [Hfile Hpage Hoff Hnum Hlsn Hend Hfl Hsz Hdata].
  assert (Hspace : u64 (PAGE_DATA_SIZE - (current_offset_ w - PAGE_HEADER_SIZE)) = space p).
  { rewrite Hoff, wrap_small; unfold in_width, space, PAGE_DATA_SIZE, PAGE_SIZE, PAGE_HEADER_SIZE in *; lia. }
  cbn [append_loop]. rewrite bool_decide_false by lia. rewrite Hspace, bool_decide_false by lia.
  assert (Hread : read_bytes src 0 (space p) = Ok s1) by (rewrite Hsplit; by apply read_bytes_start).
  rewrite Hread. cbn [mbind outcome_bind]. rewrite Hpage, Hoff, blit_page by (done || lia). cbn [mbind outcome_bind].
  match goal with |- context [flush_page _ _ ?w1] => set (wf := w1) end.
  assert (Hwf : writer_at wf f p1).
  { split; unfold wf, p1; cbn [file current_page_ current_offset_ num_records_ page_lsn_ page_end_lsn_ page_flags_ file_size_ has_data_
                ap_data ap_num ap_flags ap_lsn ap_end]; try done.
    - unfold padded, space. cbn [ap_data]. rewrite zlen_app. do 3 f_equal. unfold space. lia.
    - rewrite zlen_app. lia.
    - by rewrite Hfl.
    - rewrite bool_decide_true; [done|]. apply (page_full_nonempty p). by rewrite zlen_app, Hs1. }
  destruct (flush_page_at wf f p1 Hdisk Hp1 Hwf) as (w' & Hflush & Hfile' & Hat & Hnew).
  { apply (page_full_nonempty p). unfold p1. cbn [ap_data]. by rewrite zlen_app, Hs1. }
  rewrite Hflush. cbn [mbind outcome_bind negb]. rewrite Hnew.
  edestruct (IH (Writer (file w') (current_page_ w') (current_offset_ w') (num_records_ w') id id
                 (Z.lor (page_flags_ w') PAGE_PARTIAL_CONT) (file_size_ w') (has_data_ w')) (f ++ image p1)
                (APage id id 0 PAGE_PARTIAL_CONT []) s2 id false) as (ps & p' & w'' & Hrun & Hputs & Hat' & Hok & Hall); try done.
  - destruct Hat as [A1 A2 A3 A4 A5 A6 A7 A8 A9]. split; cbn; try done. by rewrite A7.
  - rewrite bool_decide_false by done. destruct (decide (space p = 0)) as [E|E].
    + rewrite bool_decide_true in Hfuel by done. unfold zlen in *. lia.
    + rewrite bool_decide_false in Hfuel by done. unfold zlen in *. lia.
  - exists (p1 :: ps), p', w''. split_and!; [exact Hrun| | |done|by constructor].
    + rewrite Hsplit at 1. by apply puts_spill.
    + rewrite fmap_cons. cbn [concat]. by rewrite app_assoc.
Qed.

(** [append] sets the page's ids before it puts the record. *)
Definition touch (id : Z) (p : apage) : apage :=
  APage (if bool_decide (ap_lsn p = 0) then id else ap_lsn p) id (ap_num p) (ap_flags p) (ap_data p).

Lemma touch_ok id p : in_width 64 id -> apage_ok p -> apage_ok (touch id p).
Proof. intros Hid [Hl He Hn Hf Hd]. split; cbn; try done. by case_bool_decide. Qed.

Lemma append_at w f p b id : disk_accepts -> in_width 64 id -> apage_ok p -> writer_at w f p -> b <> [] ->
  exists ps p' w', append crc32c disk_ok w b id = Ok (true, w') /\ puts id true (touch id p) b ps p' /\
    writer_at w' (f ++ concat (image <$> ps)) p' /\ apage_ok p' /\ Forall apage_ok ps.
Proof.
  intros Hdisk Hid Hp Hw Hne. pose proof (zlen_pos b Hne). unfold append. rewrite bool_decide_false by lia.
  apply append_loop_at; try done; [by apply touch_ok| |].
  - destruct Hw as [A1 A2 A3 A4 A5 A6 A7 A8 A9]. split; cbn; try done. by rewrite A5.
  - case_bool_decide; lia.
Qed.

Lemma flush_at w f p : disk_accepts -> apage_ok p -> writer_at w f p ->
  exists w', flush crc32c disk_ok w = Ok (true, w') /\
    (if bool_decide (ap_data p = []) then w' = w else file w' = f ++ image p /\ writer_at w' (f ++ image p) new_page).
Proof.
  intros Hdisk Hp Hw. unfold flush. rewrite (at_data _ _ _ Hw). destruct (decide (ap_data p = [])) as [E|E].
  - rewrite bool_decide_false by naive_solver. exists w. by rewrite bool_decide_true.
  - rewrite bool_decide_true by done. destruct (flush_page_at w f p) as (w' & Hf & Hfile & Hat & _); try done.
    exists w'. by rewrite bool_decide_false.
Qed.
End page_writer.
