(* ===== verification/WalPageReader.v ===== *)
(** * Reading back what the page writer wrote

    The page reader of WalPage.v on the pages of WalPageWriter.v. *)

From S2P Require Import Prelude.
From S2P Require Import Bytes.
From S2P Require Import WalBinary.
From S2P Require Import WalPage.
From S2P Require Import WalPageWriter.
From coqutil Require Import Byte Word.LittleEndianList.
#[local] Open Scope Z_scope.

Section page_reader.
Context `{Codec : ChunkCodec} (crc32c : bytes -> Z) (disk_ok : Z -> bool).

(** A record with its binary form. *)
Record entry := Entry { e_bytes : bytes; e_rec : record_t }.

Definition entry_ok (e : entry) : Prop :=
  (exists crc, framed (e_bytes e) crc) /\ decode_record crc32c (e_bytes e) = Ok (e_rec e) /\ is_valid (e_rec e) = true /\
  in_width 64 (id (e_rec e)).

Definition stream (es : list entry) : bytes := concat (e_bytes <$> es).

(** The records a reader keeps. *)
Definition kept (after_id : Z) (es : list entry) : list record_t :=
  filter (fun r => after_id < id r) (e_rec <$> es).

Lemma kept_app after_id es1 es2 : kept after_id (es1 ++ es2) = kept after_id es1 ++ kept after_id es2.
Proof. unfold kept. by rewrite fmap_app, filter_app. Qed.

Lemma keep_entry after_id acc e : entry_ok e -> keep after_id acc (e_rec e) = acc ++ kept after_id [e].
Proof.
  intros (_ & _ & Hv & _). unfold keep, kept. rewrite Hv. cbn [andb fmap list_fmap].
  destruct (decide (after_id < id (e_rec e))).
  - rewrite bool_decide_true by done. by rewrite filter_cons_True.
  - rewrite bool_decide_false by done. by rewrite filter_cons_False, filter_nil, app_nil_r.
Qed.

Lemma entry_size e : entry_ok e -> exists n, read_le 4 (e_bytes e) 0 = Ok n /\ zlen (e_bytes e) = n + 8 /\ 29 <= n < 2 ^ 32 - 8.
Proof. intros ((crc & Hf) & _). by apply (framed_size _ crc). Qed.

(** The beginning of a record whose length is known. *)
Definition fragment (p : bytes) : Prop :=
  p = [] \/ exists e q, entry_ok e /\ e_bytes e = p ++ q /\ q <> [] /\ 4 <= zlen p.

Lemma parse_fragment fuel a p z after_id acc : fragment p ->
  parse_records crc32c (S fuel) (a ++ p ++ z) (zlen a) (zlen a + zlen p) after_id acc = Ok (zlen a, acc).
Proof.
  intros [->|(e & q & He & Hsplit & Hq & Hp)]; cbn [parse_records].
  { change (zlen (@nil byte)) with 0. by rewrite bool_decide_true by lia. }
  rewrite !bool_decide_false by lia. destruct (entry_size e He) as (n & Hn & Hlen & Hb).
  assert (Hr : read_le 4 (a ++ p ++ z) (zlen a) = Ok n).
  { rewrite read_le_skip by lia. rewrite Z.sub_diag, read_le_prefix by lia. rewrite Hsplit, read_le_prefix in Hn by lia. done. }
  rewrite Hr. cbn [mbind outcome_bind]. rewrite (bool_decide_false (n = 0)) by lia.
  rewrite wrap_small by (unfold in_width; lia). rewrite bool_decide_true; [done|].
  rewrite Hsplit, zlen_app in Hlen. pose proof (zlen_pos q Hq). lia.
Qed.

Lemma parse_entries es : forall fuel a p z after_id acc,
  Forall entry_ok es -> fragment p -> (length es < fuel)%nat ->
  parse_records crc32c fuel (a ++ stream es ++ p ++ z) (zlen a) (zlen a + zlen (stream es) + zlen p) after_id acc =
  Ok (zlen a + zlen (stream es), acc ++ kept after_id es).
Proof.
  induction es as [|e es IH]; intros fuel a p z after_id acc Hok Hp Hfuel; (destruct fuel as [|fuel]; [cbn in Hfuel; lia|]).
  { unfold stream. cbn [fmap list_fmap concat]. change (zlen (@nil byte)) with 0. rewrite app_nil_l, Z.add_0_r.
    rewrite parse_fragment by done. by rewrite app_nil_r. }
  apply Forall_cons in Hok as [He Hes]. destruct (entry_size e He) as (n & Hn & Hlen & Hb).
  assert (Hs : stream (e :: es) = e_bytes e ++ stream es) by done. rewrite Hs, zlen_app.
  pose proof (zlen_nonneg (stream es)). pose proof (zlen_nonneg p). cbn [parse_records].
  rewrite !bool_decide_false by lia.
  assert (Hr : read_le 4 (a ++ (e_bytes e ++ stream es) ++ p ++ z) (zlen a) = Ok n).
  { rewrite read_le_skip by lia. by rewrite Z.sub_diag, <- app_assoc, read_le_prefix by lia. }
  rewrite Hr. cbn [mbind outcome_bind]. rewrite (bool_decide_false (n = 0)) by lia.
  rewrite wrap_small by (unfold in_width; lia). rewrite bool_decide_false by lia.
  assert (Hrd : read_bytes (a ++ (e_bytes e ++ stream es) ++ p ++ z) (zlen a) (n + 8) = Ok (e_bytes e)).
  { rewrite <- app_assoc. by apply read_bytes_mid. }
  rewrite Hrd. cbn [mbind outcome_bind]. destruct He as (Hf & Hdec & Hv & Hid). rewrite Hdec. cbn [mbind outcome_bind].
  rewrite keep_entry by done. rewrite <- Hlen, <- zlen_app, <- app_assoc, app_assoc.
  replace (zlen a + (zlen (e_bytes e) + zlen (stream es)) + zlen p) with (zlen (a ++ e_bytes e) + zlen (stream es) + zlen p)
    by (rewrite zlen_app; lia).
  rewrite IH by (done || (cbn in Hfuel; lia)). rewrite <- app_assoc, <- kept_app. do 2 f_equal. rewrite !zlen_app. lia.
Qed.

(** ** One page *)

Definition process (after_id : Z) (st : read_state) (p : apage) : outcome read_state :=
  process_page crc32c after_id st (header crc32c p) (padded p).

Lemma length_stream es : Forall entry_ok es -> Z.of_nat (length es) <= zlen (stream es).
Proof.
  induction 1 as [|e es He _ IH]; [done|]. unfold stream in *. cbn [fmap list_fmap concat length]. rewrite zlen_app.
  destruct (entry_size e He) as (n & _ & Hlen & Hb). cbn. lia.
Qed.

Lemma parse_page es p after_id acc rest : Forall entry_ok es -> fragment rest -> ap_data p = stream es ++ rest ->
  parse_records crc32c (parse_fuel (zlen (ap_data p))) (padded p) 0 (zlen (ap_data p)) after_id acc =
  Ok (zlen (stream es), acc ++ kept after_id es).
Proof.
  intros Hes Hrest Hd. pose proof (length_stream es Hes). pose proof (zlen_nonneg rest).
  pose proof (parse_entries es (parse_fuel (zlen (ap_data p))) [] rest (zeros (space p)) after_id acc) as H1.
  unfold padded. rewrite Hd in *. rewrite app_nil_l in H1. rewrite <- app_assoc.
  change (zlen (@nil byte)) with 0 in H1. rewrite !Z.add_0_l, <- zlen_app in H1. apply H1; try done.
  unfold parse_fuel. rewrite zlen_app. lia.
Qed.

Lemma process_clean after_id st p es : Forall entry_ok es -> in_span st = false -> span_buffer st = [] ->
  ap_flags p = 0 -> ap_data p = stream es ->
  process after_id st p = Ok (ReadState (records st ++ kept after_id es) [] false).
Proof.
  intros Hes Hin Hbuf Hfl Hd. unfold process, process_page. rewrite Hin. cbn [header header_with flags data_size andb].
  rewrite Hfl. cbn [andb negb bool_decide]. rewrite (parse_page es p after_id (records st) []);
    [|done|by left|by rewrite app_nil_r]. cbn [mbind outcome_bind]. by rewrite Hbuf.
Qed.

Lemma process_start after_id st p es frag : Forall entry_ok es -> in_span st = false ->
  ap_flags p = 1 -> ap_data p = stream es ++ frag -> fragment frag -> frag <> [] -> apage_ok p ->
  process after_id st p = Ok (ReadState (records st ++ kept after_id es) frag true).
Proof.
  intros Hes Hin Hfl Hd Hf Hne Hp. unfold process, process_page. rewrite Hin. cbn [header header_with flags data_size andb].
  rewrite Hfl. cbn [andb negb bool_decide]. rewrite (parse_page es p after_id (records st) frag) by done. cbn [mbind outcome_bind].
  pose proof (zlen_pos frag Hne). change (negb (bool_decide (Z.land 1 PAGE_PARTIAL_CONT = 0))) with true. cbn iota.
  rewrite (bool_decide_true (zlen (stream es) < _)) by (rewrite Hd, zlen_app; lia).
  unfold padded. rewrite Hd, <- app_assoc, read_bytes_mid; [done|done|rewrite zlen_app; lia].
Qed.

Lemma process_middle after_id st p : in_span st = true -> ap_flags p = 1 ->
  process after_id st p = Ok (ReadState (records st) (span_buffer st ++ ap_data p) true).
Proof.
  intros Hin Hfl. unfold process, process_page. rewrite Hin. cbn [header header_with flags data_size andb]. rewrite Hfl.
  cbn [andb negb bool_decide]. unfold padded. by rewrite read_bytes_start by done.
Qed.

Lemma process_end after_id st p e es s2 : Forall entry_ok (e :: es) -> in_span st = true -> ap_flags p = 3 ->
  e_bytes e = span_buffer st ++ s2 -> 4 <= zlen (span_buffer st) -> ap_data p = s2 ++ stream es ->
  process after_id st p = Ok (ReadState (records st ++ kept after_id (e :: es)) [] false).
Proof.
  intros [He Hes]%Forall_cons Hin Hfl Hsplit Hlen Hd. unfold process, process_page. rewrite Hin.
  cbn [header header_with flags data_size andb]. rewrite Hfl. cbn [andb orb negb bool_decide].
  change (negb (bool_decide (Z.land 3 PAGE_PARTIAL_END = 0))) with true. change (negb (bool_decide (Z.land 3 PAGE_PARTIAL_CONT = 0))) with true.
  cbn [andb orb negb]. unfold finish_span. rewrite bool_decide_true by done. destruct (entry_size e He) as (n & Hn & Hsz & Hb).
  assert (Hn' : read_le 4 (span_buffer st) 0 = Ok n) by (rewrite Hsplit, read_le_prefix in Hn by lia; done).
  rewrite Hn'. cbn [mbind outcome_bind mret outcome_ret]. rewrite wrap_small by (unfold in_width; lia).
  pose proof (zlen_nonneg s2). pose proof (zlen_nonneg (stream es)). rewrite Hsplit, zlen_app in Hsz.
  assert (Hneed : (if bool_decide (zlen (span_buffer st) < n + 8) then u32 (n + 8 - zlen (span_buffer st)) else 0) = zlen s2).
  { case_bool_decide; [rewrite wrap_small; [lia|]; unfold in_width; lia|lia]. }
  rewrite Hneed, Z.min_l by (rewrite Hd, zlen_app; lia). unfold padded. rewrite Hd, <- app_assoc, read_bytes_start by done.
  cbn [mbind outcome_bind]. rewrite <- Hsplit, bool_decide_true by (rewrite Hsplit, zlen_app; lia). rewrite Hn. cbn [mbind outcome_bind].
  rewrite wrap_small by (unfold in_width; lia). rewrite bool_decide_true by (rewrite Hsplit, zlen_app; lia).
  rewrite read_bytes_all by (rewrite Hsplit, zlen_app; lia). cbn [mbind outcome_bind].
  pose proof He as (_ & Hdec & _). rewrite Hdec. cbn [mbind outcome_bind]. rewrite keep_entry by done.
  pose proof (parse_entries es (parse_fuel (zlen (s2 ++ stream es))) s2 [] (zeros (space p)) after_id (records st ++ kept after_id [e])) as H1.
  change (zlen (@nil byte)) with 0 in H1. rewrite Z.add_0_r, <- zlen_app, app_nil_l in H1.
  rewrite H1; [|done|by left|]. { cbn [mbind outcome_bind]. by rewrite <- app_assoc, <- kept_app. }
  pose proof (length_stream es Hes). unfold parse_fuel. rewrite zlen_app. lia.
Qed.

(** ** Many pages *)

Fixpoint process_pages (after_id : Z) (st : read_state) (ps : list apage) : outcome read_state :=
  match ps with
  | [] => Ok st
  | p :: ps => st ← process after_id st p; process_pages after_id st ps
  end.

Lemma process_pages_app after_id ps1 : forall st ps2,
  process_pages after_id st (ps1 ++ ps2) = (st ← process_pages after_id st ps1; process_pages after_id st ps2).
Proof.
  induction ps1 as [|p ps1 IH]; intros st ps2; [done|]. cbn. destruct (process after_id st p); [|done]. cbn. apply IH.
Qed.

(** After pages [ps] a reader has delivered [es], and holds [span] of the next record. *)
Definition reads (ps : list apage) (es : list entry) (span : bytes) (inside : bool) : Prop :=
  forall after_id, process_pages after_id (ReadState [] [] false) ps = Ok (ReadState (kept after_id es) span inside).

Lemma reads_nil : reads [] [] [] false.
Proof. by intros after_id. Qed.

Lemma reads_app ps1 ps2 es1 es2 span1 span2 b1 b2 : reads ps1 es1 span1 b1 ->
  (forall after_id, process_pages after_id (ReadState (kept after_id es1) span1 b1) ps2 = Ok (ReadState (kept after_id es2) span2 b2)) ->
  reads (ps1 ++ ps2) es2 span2 b2.
Proof. intros H1 H2 after_id. rewrite process_pages_app, H1. apply H2. Qed.

(** Where a reader is, after the flushed pages, relative to the page the writer fills:
    before records only, or inside a record whose end is on the page. [es0] are the records
    delivered, [es] those appended. *)
Inductive phase (p : apage) (es0 es : list entry) : bytes -> bool -> Prop :=
| phase_clean es1 :
    es = es0 ++ es1 -> ap_flags p = 0 -> ap_data p = stream es1 -> phase p es0 es [] false
| phase_tail e es1 s1 s2 :
    es = es0 ++ e :: es1 -> e_bytes e = s1 ++ s2 -> 4 <= zlen s1 -> s2 <> [] -> ap_flags p = 3 ->
    ap_data p = s2 ++ stream es1 -> phase p es0 es s1 true.

Lemma phase_prefix p es0 es span b : phase p es0 es span b -> es0 `prefix_of` es.
Proof. intros [es1 -> _ _|e es1 s1 s2 -> _ _ _ _ _]; by eexists. Qed.

Lemma stream_snoc es e : stream (es ++ [e]) = stream es ++ e_bytes e.
Proof. unfold stream. rewrite fmap_app, concat_app. cbn. by rewrite app_nil_r. Qed.

(** The pages a record fills after its first one. *)
Lemma puts_continue id src ps p' : forall span e,
  puts id false (APage id id 0 PAGE_PARTIAL_CONT []) src ps p' -> entry_ok e ->
  e_bytes e = span ++ src -> 4 <= zlen span -> src <> [] ->
  exists s1 s2, e_bytes e = s1 ++ s2 /\ 4 <= zlen s1 /\ s2 <> [] /\ ap_flags p' = 3 /\ ap_data p' = s2 /\
    forall after_id recs, process_pages after_id (ReadState recs span true) ps = Ok (ReadState recs s1 true).
Proof.
  intros span e Hputs. remember false as first eqn:Hfirst. remember (APage id id 0 PAGE_PARTIAL_CONT []) as p eqn:Hp.
  revert span e. induction Hputs as [first p src Hfit|first p s1 s2 ps p' Hs1 Hne Hputs IH]; intros span e He Hsplit Hlen Hsrc; subst.
  - by exists span, src.
  - destruct (IH eq_refl eq_refl (span ++ s1) e) as (t1 & t2 & H1 & H2 & H2' & H3 & H4 & H5); try done.
    + by rewrite <- app_assoc.
    + rewrite zlen_app. pose proof (zlen_nonneg s1). lia.
    + exists t1, t2. split_and!; try done. intros after_id recs. cbn [process_pages]. rewrite process_middle by done.
      cbn [mbind outcome_bind ap_data app records span_buffer]. apply H5.
Qed.

(** A record may start a span only on a page without one, with its length on that page. *)
Definition may_append (p : apage) (n : Z) : Prop := n <= space p \/ (ap_flags p = 0 /\ 4 <= space p).

Lemma phase_append ps0 p es0 es span b e id ps p' :
  phase p es0 es span b -> reads ps0 es0 span b -> Forall entry_ok (es ++ [e]) -> may_append p (zlen (e_bytes e)) ->
  puts id true p (e_bytes e) ps p' -> Forall apage_ok ps ->
  exists es0' span' b', phase p' es0' (es ++ [e]) span' b' /\ reads (ps0 ++ ps) es0' span' b' /\ es0 `prefix_of` es0'.
Proof.
  intros Hph Hreads Hes Hmay Hputs Hps. inversion Hputs as [? ? ? Hfit|? ? s1 s2 ps' ? Hs1 Hs2 Hrest Hf Hp Hsplit]; subst.
  - exists es0, span, b. rewrite app_nil_r. split_and!; [|done|done].
    destruct Hph as [es1 -> Hfl Hd|e0 es1 t1 t2 -> Hsp Hlen Hne Hfl Hd].
    + apply (phase_clean _ _ _ (es1 ++ [e])); cbn; try done; [by rewrite app_assoc|]. by rewrite Hd, stream_snoc.
    + apply (phase_tail _ _ _ e0 (es1 ++ [e]) _ t2); cbn; try done; [by rewrite <- app_assoc|].
      by rewrite Hd, stream_snoc, app_assoc.
  - assert (Hlong : space p < zlen (e_bytes e)) by (rewrite <- Hsplit, zlen_app; pose proof (zlen_pos s2 Hs2); lia).
    destruct Hmay as [?|[Hfl4 Hsp4]]; [lia|].
    destruct Hph as [es1 -> Hfl Hd|e0 es1 t1 t2 -> Hsp Hlen Hne Hfl Hd]; [|lia].
    apply Forall_app in Hes as [Hes He]. apply Forall_app in Hes as [_ Hes1]. rewrite Forall_singleton in He.
    destruct (puts_continue id s2 ps' p' s1 e) as (t1 & t2 & Q1 & Q2 & Q2' & Q3 & Q4 & Q5); [done|done|done|lia|done|].
    exists (es0 ++ es1), t1, true. split_and!; [| |by eexists].
    + apply (phase_tail _ _ _ e [] t1 t2); try done. by rewrite Q4, app_nil_r.
    + apply (reads_app _ _ _ _ _ _ _ _ Hreads). intros after_id. cbn [process_pages].
      rewrite (process_start after_id _ _ es1 s1); cbn [ap_flags ap_data records in_span]; try done.
      * cbn [mbind outcome_bind]. by rewrite <- kept_app.
      * by rewrite Hfl.
      * by rewrite Hd.
      * right. exists e, s2. split_and!; try done. lia.
      * apply zlen_pos_inv. lia.
      * by apply Forall_cons in Hps as [? _].
Qed.

Lemma phase_flush ps0 p es0 es span b : phase p es0 es span b -> reads ps0 es0 span b -> Forall entry_ok es ->
  reads (ps0 ++ [p]) es [] false /\ phase new_page es es [] false.
Proof.
  intros Hph Hreads Hes. split; [|apply (phase_clean _ _ _ []); [by rewrite app_nil_r|done|done]].
  apply (reads_app _ _ _ _ _ _ _ _ Hreads). intros after_id. cbn [process_pages].
  destruct Hph as [es1 -> Hfl Hd|e es1 s1 s2 -> Hsp Hlen Hne Hfl Hd]; apply Forall_app in Hes as [_ Hes].
  - rewrite (process_clean _ _ _ es1) by done. cbn. by rewrite kept_app.
  - rewrite (process_end _ _ _ e es1 s2) by done. cbn [mbind outcome_bind records]. by rewrite kept_app.
Qed.

(** ** Segment files *)

(** A header page, the images of [ps], and less than a page of leftovers. *)
Definition segment (f : bytes) (ps : list apage) : Prop :=
  exists fh junk, f = fh ++ concat (image crc32c <$> ps) ++ junk /\ zlen fh = PAGE_SIZE /\ zlen junk < PAGE_SIZE /\ Forall apage_ok ps.

Lemma zlen_images ps : Forall apage_ok ps -> zlen (concat (image crc32c <$> ps)) = zlen ps * PAGE_SIZE.
Proof.
  induction 1 as [|p ps Hp _ IH]; [done|]. rewrite fmap_cons. cbn [concat]. rewrite zlen_app, IH, zlen_image, zlen_cons by done. lia.
Qed.

Lemma page_count_segment f ps : segment f ps -> page_count f = zlen ps.
Proof.
  intros (fh & junk & -> & Hfh & Hj & Hps). unfold page_count. rewrite !zlen_app, zlen_images by done. rewrite Hfh.
  pose proof (zlen_nonneg ps). pose proof (zlen_nonneg junk). change PAGE_SIZE with 4096 in *.
  assert (Hdiv : (4096 + (zlen ps * 4096 + zlen junk)) / 4096 = zlen ps + 1) by (symmetry; apply Z.div_unique with (zlen junk); lia).
  rewrite Hdiv. case_bool_decide; lia.
Qed.

Lemma read_one_image a p rest k after_id st : apage_ok p -> zlen a = k * PAGE_SIZE ->
  read_one crc32c (a ++ image crc32c p ++ rest) after_id k st = (st' ← process after_id st p; mret (true, st')).
Proof.
  intros Hp Ha. unfold read_one, read_page. rewrite read_bytes_mid by (done || by rewrite zlen_image).
  rewrite header_of_image by done. cbn [mbind outcome_bind]. rewrite verify_image. cbn [mbind outcome_bind].
  rewrite read_padded by done. cbn [mbind outcome_bind]. done.
Qed.

Lemma read_from_images ps : forall a rest k after_id st more, Forall apage_ok ps -> zlen a = k * PAGE_SIZE ->
  read_from crc32c (a ++ concat (image crc32c <$> ps) ++ rest) after_id (seqZ k (zlen ps) ++ more) st =
  (st' ← process_pages after_id st ps; read_from crc32c (a ++ concat (image crc32c <$> ps) ++ rest) after_id more st').
Proof.
  induction ps as [|p ps IH]; intros a rest k after_id st more Hps Ha; [done|]. apply Forall_cons in Hps as [Hp Hps].
  rewrite zlen_cons, seqZ_cons by (pose proof (zlen_nonneg ps); lia). rewrite fmap_cons. cbn [concat app read_from process_pages].
  rewrite <- !app_assoc. rewrite read_one_image by done. destruct (process after_id st p) as [st'|]; [|done]. cbn [mbind outcome_bind mret outcome_ret].
  replace (Z.pred (zlen ps + 1)) with (zlen ps) by lia. rewrite (app_assoc a (image crc32c p)).
  rewrite (IH (a ++ image crc32c p) rest (Z.succ k)); [done|done|]. rewrite zlen_app, Ha, zlen_image by done. lia.
Qed.

Lemma read_segment f ps after_id : segment f ps ->
  read_all_records crc32c f after_id = (st ← process_pages after_id (ReadState [] [] false) ps; mret (records st)).
Proof.
  intros Hf. pose proof (page_count_segment f ps Hf) as Hc. destruct Hf as (fh & junk & -> & Hfh & Hj & Hps).
  unfold read_all_records. rewrite Hc, <- (app_nil_r (seqZ 1 (zlen ps))). rewrite read_from_images by (done || lia).
  by destruct (process_pages after_id (ReadState [] [] false) ps).
Qed.

(** ** Runs of the writer *)

Inductive wop := WAppend (e : entry) | WFlush.

Definition run_wop (w : writer) (o : wop) : outcome writer :=
  '(_, w) ← (match o with
             | WAppend e => append crc32c disk_ok w (e_bytes e) (id (e_rec e))
             | WFlush => flush crc32c disk_ok w
             end);
  mret w.

Definition run_wops (w : writer) (ops : list wop) : outcome writer := foldl (fun m o => w ← m; run_wop w o) (Ok w) ops.

Definition appended (ops : list wop) : list entry := omap (fun o => match o with WAppend e => Some e | WFlush => None end) ops.

(** The place of the next record: bytes used of the page, and whether the page begins with
    the end of a spanning record. *)
Definition lay_of (p : apage) : Z * bool := (zlen (ap_data p), negb (bool_decide (ap_flags p = 0))).

Definition lay_append (l : Z * bool) (n : Z) : Z * bool :=
  let '(used, tail) := l in
  if bool_decide (n <= PAGE_DATA_SIZE - used) then (used + n, tail)
  else ((n - (PAGE_DATA_SIZE - used) - 1) mod PAGE_DATA_SIZE + 1, true).

(** A record fits, or it starts the only span of its page with at least its length field. *)
Definition lay_fits (l : Z * bool) (n : Z) : bool :=
  let '(used, tail) := l in
  bool_decide (n <= PAGE_DATA_SIZE - used) || (negb tail && bool_decide (4 <= PAGE_DATA_SIZE - used)).

Fixpoint layout_ok (l : Z * bool) (ops : list wop) : bool :=
  match ops with
  | [] => true
  | WAppend e :: ops => lay_fits l (zlen (e_bytes e)) && layout_ok (lay_append l (zlen (e_bytes e))) ops
  | WFlush :: ops => layout_ok (0, false) ops
  end.

Lemma puts_continue_layout id src ps p' : puts id false (APage id id 0 PAGE_PARTIAL_CONT []) src ps p' -> src <> [] ->
  lay_of p' = ((zlen src - 1) mod PAGE_DATA_SIZE + 1, true).
Proof.
  remember false as first eqn:Hfirst. remember (APage id id 0 PAGE_PARTIAL_CONT []) as p eqn:Hp.
  induction 1 as [first p src Hfit|first p s1 s2 ps p' Hs1 Hne Hputs IH]; intros Hsrc; subst.
  - pose proof (zlen_pos src Hsrc). unfold lay_of, space in *. cbn [ap_data ap_flags app] in *. change (zlen (@nil byte)) with 0 in Hfit.
    rewrite Z.mod_small by lia. f_equal. lia.
  - rewrite IH by done. f_equal. unfold space in Hs1. cbn [ap_data] in Hs1. change (zlen (@nil byte)) with 0 in Hs1.
    rewrite zlen_app, Hs1. replace (PAGE_DATA_SIZE - 0 + zlen s2 - 1) with (zlen s2 - 1 + 1 * PAGE_DATA_SIZE) by lia.
    by rewrite Z.mod_add by done.
Qed.

Lemma puts_layout id p src ps p' : puts id true p src ps p' -> src <> [] -> lay_of p' = lay_append (lay_of p) (zlen src).
Proof.
  intros Hputs Hsrc. unfold lay_append, lay_of at 2. inversion Hputs as [? ? ? Hfit|? ? s1 s2 ps' ? Hs1 Hs2 Hrest]; subst.
  - rewrite bool_decide_true by (unfold space in Hfit; lia). unfold lay_of. cbn [ap_data ap_flags]. by rewrite zlen_app.
  - pose proof (zlen_pos s2 Hs2). unfold space in Hs1. rewrite zlen_app, bool_decide_false by lia.
    rewrite (puts_continue_layout _ _ _ _ Hrest Hs2). do 3 f_equal. lia.
Qed.

Lemma lay_fits_may p n : lay_fits (lay_of p) n = true -> may_append p n.
Proof.
  unfold lay_fits, lay_of, may_append, space. intros [H|[H1 H2]%andb_true_iff]%orb_true_iff.
  - left. by apply bool_decide_eq_true in H.
  - right. apply bool_decide_eq_true in H2. rewrite negb_involutive in H1. apply bool_decide_eq_true in H1. done.
Qed.

(** ** The invariant of a run *)

Lemma phase_touch id p es0 es span b : phase p es0 es span b -> phase (touch id p) es0 es span b.
Proof. intros [es1 ? ? ?|e es1 s1 s2 ? ? ? ? ? ?]; [by eapply phase_clean|by eapply phase_tail]. Qed.

(** [es] appended so far, [flushed] of them before the last flush, next record at [l]. *)
Definition wstate (w : writer) (l : Z * bool) (flushed es : list entry) : Prop :=
  exists fh ps p es0 span b,
    writer_at w (fh ++ concat (image crc32c <$> ps)) p /\ zlen fh = PAGE_SIZE /\ Forall apage_ok ps /\ apage_ok p /\
    Forall entry_ok es /\ phase p es0 es span b /\ reads ps es0 span b /\ flushed `prefix_of` es0 /\ lay_of p = l.

(** At any time the file holds the records flushed, perhaps more, and nothing else. *)
Lemma wstate_read w l flushed es : wstate w l flushed es ->
  exists es0, flushed `prefix_of` es0 /\ es0 `prefix_of` es /\
    forall after_id, read_all_records crc32c (file w) after_id = Ok (kept after_id es0).
Proof.
  intros (fh & ps & p & es0 & span & b & Hat & Hfh & Hps & Hp & Hes & Hph & Hreads & Hfl & Hl). exists es0.
  split_and!; [done|by eapply phase_prefix|]. intros after_id.
  destruct (at_file _ _ _ Hat) as (junk & Hfile & Hj). rewrite (read_segment _ ps).
  - by rewrite Hreads.
  - exists fh, junk. rewrite Hfile. by rewrite <- app_assoc.
Qed.

Lemma entry_nonempty e : entry_ok e -> e_bytes e <> [].
Proof. intros He. destruct (entry_size e He) as (n & _ & Hlen & Hb). apply zlen_pos_inv. lia. Qed.

Lemma wstate_append w l flushed es e : disk_accepts disk_ok -> wstate w l flushed es -> entry_ok e -> lay_fits l (zlen (e_bytes e)) = true ->
  exists w', run_wop w (WAppend e) = Ok w' /\ wstate w' (lay_append l (zlen (e_bytes e))) flushed (es ++ [e]).
Proof.
  intros Hdisk (fh & ps & p & es0 & span & b & Hat & Hfh & Hps & Hp & Hes & Hph & Hreads & Hfl & <-) He Hfit.
  pose proof He as (_ & _ & _ & Hid). pose proof (entry_nonempty e He) as Hne.
  destruct (append_at crc32c disk_ok w _ p (e_bytes e) (id (e_rec e)) Hdisk Hid Hp Hat Hne) as (ps' & p' & w' & Hrun & Hputs & Hat' & Hp' & Hps').
  destruct (phase_append ps (touch (id (e_rec e)) p) es0 es span b e (id (e_rec e)) ps' p') as (es0' & span' & b' & Hph' & Hreads' & Hpre);
    try done; [by apply phase_touch|by apply Forall_app; split; [|constructor]|by apply lay_fits_may|].
  exists w'. unfold run_wop. rewrite Hrun. split; [done|]. exists fh, (ps ++ ps'), p', es0', span', b'.
  rewrite fmap_app, concat_app, app_assoc. split_and!; try done.
  - by apply Forall_app.
  - by apply Forall_app; split; [|constructor].
  - by transitivity es0.
  - by apply (puts_layout _ (touch (id (e_rec e)) p) _ _ _ Hputs).
Qed.

Lemma stream_nil es : Forall entry_ok es -> stream es = [] -> es = [].
Proof.
  intros Hes H. destruct es as [|e es]; [done|]. apply Forall_cons in Hes as [He _]. unfold stream in H. cbn in H.
  apply app_eq_nil in H as [H _]. by destruct (entry_nonempty e He).
Qed.

Lemma wstate_flush w l flushed es : disk_accepts disk_ok -> wstate w l flushed es ->
  exists w', run_wop w WFlush = Ok w' /\ wstate w' (0, false) es es.
Proof.
  intros Hdisk (fh & ps & p & es0 & span & b & Hat & Hfh & Hps & Hp & Hes & Hph & Hreads & Hfl & <-).
  destruct (flush_at crc32c disk_ok w _ p Hdisk Hp Hat) as (w' & Hrun & Hcase). exists w'. unfold run_wop. rewrite Hrun. split; [done|].
  destruct (decide (ap_data p = [])) as [E|E].
  - rewrite bool_decide_true in Hcase by done. subst w'. inversion Hph as [es1 Hes1 Hfl0 Hd|e es1 s1 s2 Hes1 Hsp Hlen Hne Hfl3 Hd]; subst.
    + rewrite E in Hd. apply Forall_app in Hes as [Hes0 Hes1']. rewrite (stream_nil es1 Hes1' (eq_sym Hd)), app_nil_r in *.
      exists fh, ps, p, es0, [], false. split_and!; try done. unfold lay_of. by rewrite E, Hfl0.
    + rewrite E in Hd. symmetry in Hd. by apply app_eq_nil in Hd as [-> _].
  - rewrite bool_decide_false in Hcase by done. destruct Hcase as [_ Hat'].
    destruct (phase_flush ps p es0 es span b) as [Hreads' Hph']; try done.
    exists fh, (ps ++ [p]), new_page, es, [], false. rewrite fmap_app, concat_app, app_assoc. cbn [fmap list_fmap concat].
    rewrite app_nil_r. split_and!; try done. by apply Forall_app; split; [|constructor].
Qed.

Lemma wstate_run ops : forall w l flushed es, disk_accepts disk_ok -> wstate w l flushed es -> Forall entry_ok (appended ops) ->
  layout_ok l ops = true ->
  exists w' l' flushed', run_wops w ops = Ok w' /\ wstate w' l' flushed' (es ++ appended ops) /\ flushed `prefix_of` flushed'.
Proof.
  induction ops as [|o ops IH]; intros w l flushed es Hdisk Hw Hok Hlay.
  { exists w, l, flushed. by rewrite app_nil_r. }
  destruct o as [e|]; cbn [appended omap list_omap layout_ok] in *.
  - apply andb_true_iff in Hlay as [Hfit Hlay]. apply Forall_cons in Hok as [He Hok].
    destruct (wstate_append w l flushed es e Hdisk Hw He Hfit) as (w1 & Hrun & Hw1).
    destruct (IH w1 _ flushed (es ++ [e]) Hdisk Hw1 Hok Hlay) as (w' & l' & fl' & Hrun' & Hw' & Hpre).
    exists w', l', fl'. unfold run_wops. cbn [foldl mbind outcome_bind]. rewrite Hrun. split_and!; [done| |done].
    by rewrite <- app_assoc in Hw'.
  - destruct (wstate_flush w l flushed es Hdisk Hw) as (w1 & Hrun & Hw1).
    destruct (IH w1 _ es es Hdisk Hw1 Hok Hlay) as (w' & l' & fl' & Hrun' & Hw' & Hpre).
    exists w', l', fl'. unfold run_wops. cbn [foldl mbind outcome_bind]. rewrite Hrun. split_and!; [done|done|].
    transitivity es; [|done]. destruct Hw as (? & ? & ? & ? & ? & ? & _ & _ & _ & _ & _ & Hph & _ & Hfl & _).
    transitivity x2; [done|]. by eapply phase_prefix.
Qed.

(** ** Opening a segment *)

(** A file of complete records. *)
Definition clean_segment (f : bytes) (es : list entry) : Prop :=
  exists ps, segment f ps /\ reads ps es [] false /\ Forall entry_ok es.

Lemma wstate_clean w flushed es : wstate w (0, false) flushed es -> clean_segment (file w) es.
Proof.
  intros (fh & ps & p & es0 & span & b & Hat & Hfh & Hps & Hp & Hes & Hph & Hreads & _ & Hl). exists ps.
  destruct (at_file _ _ _ Hat) as (junk & Hfile & Hj). unfold lay_of in Hl. injection Hl as Hlen Hfl.
  inversion Hph as [es1 Hes1 Hfl0 Hd|e es1 s1 s2 Hes1 Hsp Hlen4 Hne Hfl3 Hd]; subst.
  - rewrite Hd in Hlen. assert (Hnil : es1 = []).
    { apply Forall_app in Hes as [_ Hes1]. apply stream_nil; [done|]. destruct (stream es1); [done|]. rewrite zlen_cons in Hlen. pose proof (zlen_nonneg l). lia. }
    subst es1. rewrite app_nil_r in *. split_and!; [|done|done]. exists fh, junk. rewrite Hfile. by rewrite <- app_assoc.
  - by rewrite Hfl3 in Hfl.
Qed.

Lemma zlen_header_page seg_idx db : zlen (file_header_bytes (init_file_header seg_idx db)) = 288.
Proof.
  unfold file_header_bytes, init_file_header. cbn [magic version page_size segment_index database_name_len database_name created_timestamp].
  pose proof (zlen_nonneg db). set (len := u16 (if bool_decide (zlen db < 256) then zlen db else 255)).
  assert (Hlen : 0 <= len <= 255 /\ len <= zlen db).
  { unfold len. case_bool_decide; rewrite wrap_small by (unfold in_width; lia); lia. }
  rewrite !zlen_app, !zlen_write_le, !zlen_zeros by lia.
  replace (zlen (take (Z.to_nat len) db)) with len by (unfold zlen in *; rewrite length_take; lia). change (zlen WAL_MAGIC) with 4. lia.
Qed.

Lemma open_header seg_idx db f : disk_accepts disk_ok -> zlen f <= PAGE_SIZE ->
  exists fh, file (open_writer disk_ok f seg_idx db) = fh /\ zlen fh = PAGE_SIZE /\ writer_at (open_writer disk_ok f seg_idx db) fh new_page.
Proof.
  intros Hdisk Hf. unfold open_writer. rewrite bool_decide_false by lia. unfold write_file_header. rewrite Hdisk. cbn [snd].
  set (page := file_header_bytes _ ++ _).
  assert (Hpage : zlen page = PAGE_SIZE) by (unfold page; rewrite zlen_app, zlen_header_page, zlen_zeros by done; lia).
  assert (Hfw : file_write f 0 page = page).
  { pose proof (file_write_end [] f page) as H. rewrite !app_nil_l in H. apply H. lia. }
  exists page. cbn [file start_new_page]. split_and!; [done|done|].
  split; cbn [file current_page_ current_offset_ num_records_ page_lsn_ page_end_lsn_ page_flags_ file_size_ has_data_ start_new_page]; try done.
  rewrite Hfw. exists []. by rewrite app_nil_r.
Qed.

Lemma open_new seg_idx db f : disk_accepts disk_ok -> zlen f <= PAGE_SIZE ->
  wstate (open_writer disk_ok f seg_idx db) (0, false) [] [].
Proof.
  intros Hdisk Hf. destruct (open_header seg_idx db f Hdisk Hf) as (fh & _ & Hfh & Hat).
  exists fh, [], new_page, [], [], false. cbn [fmap list_fmap concat]. rewrite app_nil_r.
  split_and!; try done. by apply (phase_clean _ _ _ []).
Qed.

Lemma open_clean f es seg_idx db : disk_accepts disk_ok -> clean_segment f es ->
  wstate (open_writer disk_ok f seg_idx db) (0, false) es es.
Proof.
  intros Hdisk (ps & (fh & junk & -> & Hfh & Hj & Hps) & Hreads & Hes).
  assert (Hlen : zlen (fh ++ concat (image crc32c <$> ps) ++ junk) = (zlen ps + 1) * PAGE_SIZE + zlen junk)
    by (rewrite !zlen_app, zlen_images by done; lia).
  pose proof (zlen_nonneg ps). pose proof (zlen_nonneg junk). change PAGE_SIZE with 4096 in *.
  destruct (decide (zlen (fh ++ concat (image crc32c <$> ps) ++ junk) <= 4096)) as [Hs|Hs].
  { assert (Hps0 : ps = []) by (destruct ps; [done|rewrite zlen_cons in Hlen; pose proof (zlen_nonneg ps); lia]). subst ps.
    assert (Hes0 : es = []).
    { specialize (Hreads (-1)). cbn in Hreads. injection Hreads as Hk. destruct es as [|e es]; [done|].
      apply Forall_cons in Hes as [(_ & _ & _ & [Hid _]) _]. unfold kept in Hk. cbn [fmap list_fmap] in Hk. by rewrite filter_cons_True in Hk by lia. }
    subst es. by apply open_new. }
  exists fh, ps, new_page, es, [], false. split_and!; try done.
  - unfold open_writer. rewrite bool_decide_true by (change PAGE_SIZE with 4096; lia). split; cbn [file current_page_ current_offset_ num_records_ page_lsn_ page_end_lsn_ page_flags_ file_size_ has_data_ start_new_page]; try done.
    + exists junk. by rewrite <- app_assoc.
    + rewrite Hlen, zlen_app, zlen_images by done. change PAGE_SIZE with 4096.
      rewrite <- (Z.div_unique ((zlen ps + 1) * 4096 + zlen junk) 4096 (zlen ps + 1) (zlen junk)) by lia. lia.
  - apply (phase_clean _ _ _ []); [by rewrite app_nil_r|done|done].
Qed.
End page_reader.
