(* ===== verification/WalTheorems.v ===== *)
(** * The write-ahead log: theorems

    Records, chunks and segment files read back as they were written; what a crash or a
    damaged page leaves; and the layouts of records the page reader does not survive. *)

From S2P Require Import Prelude.
From S2P Require Import Bytes.
From S2P Require Import WalBinary.
From S2P Require Import DataChunkBinary.
From S2P Require Import WalPage.
From S2P Require Import WalPageWriter.
From S2P Require Import WalPageReader.
From coqutil Require Import Byte Word.LittleEndianList.
#[local] Open Scope Z_scope.

(** ** Sessions

    A segment is written in sessions: open the file, append and flush, and flush at the end. *)

Section sessions.
Context `{Codec : ChunkCodec} (crc32c : bytes -> Z) (disk_ok : Z -> bool).

Definition run_session (seg_idx : Z) (db f : bytes) (ops : list wop) : outcome bytes :=
  w ← run_wops crc32c disk_ok (open_writer disk_ok f seg_idx db) (ops ++ [WFlush]);
  mret (file w).

Definition run_sessions (seg_idx : Z) (db f : bytes) (ss : list (list wop)) : outcome bytes :=
  foldl (fun m ops => f ← m; run_session seg_idx db f ops) (Ok f) ss.

Lemma layout_ok_app ops1 : forall l ops2, layout_ok l (ops1 ++ WFlush :: ops2) = layout_ok l ops1 && layout_ok (0, false) ops2.
Proof.
  induction ops1 as [|[e|] ops1 IH]; intros l ops2; [done| |apply IH]. cbn. by rewrite IH, andb_assoc.
Qed.

Lemma appended_app ops1 ops2 : appended (ops1 ++ ops2) = appended ops1 ++ appended ops2.
Proof. unfold appended. apply omap_app. Qed.

Lemma run_wops_app w ops1 ops2 : run_wops crc32c disk_ok w (ops1 ++ ops2) = (w ← run_wops crc32c disk_ok w ops1; run_wops crc32c disk_ok w ops2).
Proof.
  unfold run_wops. rewrite foldl_app. generalize (foldl (fun m o => w0 ← m; run_wop crc32c disk_ok w0 o) (Ok w) ops1).
  intros m. destruct m as [w'|e]; [done|]. cbn. induction ops2; [done|]. done.
Qed.

(** From any state to the end of the session. *)
Lemma session_from f es seg_idx db ops : disk_accepts disk_ok -> wstate crc32c (open_writer disk_ok f seg_idx db) (0, false) es es ->
  Forall (entry_ok crc32c) (appended ops) -> layout_ok (0, false) ops = true ->
  exists f', run_session seg_idx db f ops = Ok f' /\ clean_segment crc32c f' (es ++ appended ops).
Proof.
  intros Hdisk Hw Hok Hlay. destruct (wstate_run crc32c disk_ok ops _ _ _ _ Hdisk Hw Hok Hlay) as (w1 & l1 & fl1 & Hrun & Hw1 & _).
  destruct (wstate_flush crc32c disk_ok w1 l1 fl1 _ Hdisk Hw1) as (w2 & Hflush & Hw2).
  unfold run_session. rewrite run_wops_app, Hrun. cbn [mbind outcome_bind run_wops foldl]. rewrite Hflush.
  eexists. split; [reflexivity|]. by eapply wstate_clean.
Qed.

Lemma sessions_clean ss : forall f es seg_idx db, disk_accepts disk_ok -> clean_segment crc32c f es ->
  Forall (fun ops => Forall (entry_ok crc32c) (appended ops) /\ layout_ok (0, false) ops = true) ss ->
  exists f', run_sessions seg_idx db f ss = Ok f' /\ clean_segment crc32c f' (es ++ concat (appended <$> ss)).
Proof.
  induction ss as [|ops ss IH]; intros f es seg_idx db Hdisk Hf Hss.
  { exists f. cbn. by rewrite app_nil_r. }
  apply Forall_cons in Hss as [[Hok Hlay] Hss].
  destruct (session_from f es seg_idx db ops Hdisk (open_clean crc32c disk_ok f es seg_idx db Hdisk Hf) Hok Hlay) as (f1 & Hrun & Hf1).
  destruct (IH f1 _ seg_idx db Hdisk Hf1 Hss) as (f' & Hrun' & Hf').
  exists f'. unfold run_sessions. cbn [foldl mbind outcome_bind fmap list_fmap concat]. rewrite Hrun. split; [done|].
  by rewrite app_assoc.
Qed.

Lemma clean_read f es after_id : clean_segment crc32c f es -> read_all_records crc32c f after_id = Ok (kept after_id es).
Proof. intros (ps & Hseg & Hreads & _). rewrite (read_segment crc32c f ps) by done. by rewrite Hreads. Qed.
End sessions.

(** ** Records and chunks *)

(** C15: Every record the worker encodes decodes to what was logged, whatever the checksum
    function: ids, table, rows, row ids and chunk, for inserts, deletes, updates, column
    additions and commits; its length and trailing checksum are those reported. *)
Theorem record_round_trip `{Codec : ChunkCodec} (crc32c : bytes -> Z) last_crc wal_id txn_id op :
  in_width 32 last_crc -> in_width 64 wal_id -> in_width 64 txn_id -> logged_ok op ->
  exists b crc, encode crc32c last_crc wal_id txn_id op = Ok (b, crc) /\
    decode_record crc32c b = Ok (record_of last_crc wal_id txn_id (zlen b) crc op) /\ extract_crc b = Ok crc.
Proof.
  intros Hl Hw Ht Hop. destruct (encode_decode crc32c last_crc wal_id txn_id op Hl Hw Ht Hop) as (b & crc & He & Hf & Hd).
  exists b, crc. split_and!; [done|done|by apply framed_crc].
Qed.

Lemma record_of_id `{Codec : ChunkCodec} last_crc wal_id txn_id n crc op : id (record_of last_crc wal_id txn_id n crc op) = wal_id.
Proof. by destruct op. Qed.

Lemma encoded_entry `{Codec : ChunkCodec} (crc32c : bytes -> Z) last_crc wal_id txn_id op b crc : in_width 64 wal_id -> framed b crc ->
  decode_record crc32c b = Ok (record_of last_crc wal_id txn_id (zlen b) crc op) ->
  entry_ok crc32c (Entry b (record_of last_crc wal_id txn_id (zlen b) crc op)).
Proof.
  intros Hw Hf Hd. destruct (framed_size _ _ Hf) as (n & _ & Hlen & Hn).
  split_and!; cbn [e_bytes e_rec]; [by exists crc|done| |by rewrite record_of_id].
  unfold is_valid. rewrite bool_decide_true; [by destruct op|]. destruct op; cbn; lia.
Qed.

#[local] Ltac small := solve [unfold in_width, in_signed64; lia].

(** A checksum function to evaluate examples with. *)
Definition sum_crc (b : bytes) : Z := foldl (fun s x => (s * 31 + byte.unsigned x) mod 65521) 7 b.

(** Two columns, an integer and a text with a null. *)
Definition ex_chunk : data_chunk_t :=
  Chunk [Vector (make_type 13 [Byte.x61]) (write_le 4 10 ++ write_le 4 20 ++ write_le 4 30) [] None;
         Vector (make_type 35 [Byte.x62; Byte.x63]) [] [[Byte.x68; Byte.x69]; []; [Byte.x78]] (Some [true; false; true])] 3.

Lemma ex_chunk_ok : data_chunk_ok ex_chunk.
Proof.
  split_and!; [done|done|done|]. constructor; [|constructor; [|done]].
  - split_and!; [by vm_compute|done|]. exists INT32. by vm_compute.
  - split_and!; [by vm_compute|split; [done|set_solver]|]. exists STRING. by vm_compute.
Qed.

Lemma ex_chunk_fits extra : extra < 1000 -> chunk_fits (ex_chunk : @chunk data_chunk_codec) extra.
Proof.
  intros He. split; [apply ex_chunk_ok|]. intros b Hb. vm_compute in Hb. injection Hb as <-.
  unfold payload_fits. match goal with |- _ + zlen ?l < _ => let n := eval vm_compute in (zlen l) in change (zlen l) with n end. lia.
Qed.

Lemma record_round_trip_witness :
  exists b crc, encode sum_crc 17 5 9 (Update 4 [3; -1; 2] (ex_chunk : @chunk data_chunk_codec)) = Ok (b, crc) /\
    decode_record sum_crc b = Ok (record_of 17 5 9 (zlen b) crc (Update 4 [3; -1; 2] (ex_chunk : @chunk data_chunk_codec))) /\
    extract_crc b = Ok crc.
Proof.
  apply (record_round_trip sum_crc 17 5 9 (Update 4 [3; -1; 2] (ex_chunk : @chunk data_chunk_codec))); [small|small|small|].
  split; [small|]. split; [repeat (constructor; [small|]); done|by apply ex_chunk_fits].
Defined.

(** C16: A chunk of at most 1024 rows of flat columns (fixed width or text, with or without
    nulls, aliases and decimals included) is serialised without error and reads back as the
    same chunk: types, cells, strings and null mask. *)
Theorem data_chunk_round_trip c : data_chunk_ok c ->
  exists b, serialize_binary c = Ok b /\ deserialize_binary b = Ok (Some c).
Proof. intros Hc. exists (chunk_image c). split; [by apply serialize_image|by apply deserialize_image]. Qed.

Lemma data_chunk_round_trip_witness : exists b, serialize_binary ex_chunk = Ok b /\ deserialize_binary b = Ok (Some ex_chunk).
Proof. apply (data_chunk_round_trip ex_chunk). exact ex_chunk_ok. Defined.

(** ** Segments *)

(** C6: Over any number of sessions, the reader returns every record that was appended, in
    order and once, if each record either fits on its page or starts the only span of a page
    that has room for its length field ([layout_ok]). *)
Theorem segment_round_trip `{Codec : ChunkCodec} (crc32c : bytes -> Z) (disk_ok : Z -> bool) seg_idx db ss :
  disk_accepts disk_ok ->
  Forall (fun ops => Forall (entry_ok crc32c) (appended ops) /\ layout_ok (0, false) ops = true) ss ->
  exists f, run_sessions crc32c disk_ok seg_idx db [] ([] :: ss) = Ok f /\
    forall after_id, read_all_records crc32c f after_id = Ok (kept after_id (concat (appended <$> ss))).
Proof.
  intros Hdisk Hss.
  destruct (session_from crc32c disk_ok [] [] seg_idx db []) as (f0 & Hrun0 & Hf0);
    [done|by apply open_new|done|done|].
  destruct (sessions_clean crc32c disk_ok ss f0 _ seg_idx db Hdisk Hf0 Hss) as (f & Hrun & Hf).
  exists f. unfold run_sessions in *. cbn [foldl mbind outcome_bind]. rewrite Hrun0. split; [done|].
  intros after_id. by apply clean_read.
Qed.

(** Entries for examples: what the worker encodes. *)
Definition entry_of (txn wal_id : Z) (op : @logged data_chunk_codec) : @entry data_chunk_codec :=
  match encode sum_crc 0 wal_id txn op with
  | Ok (b, crc) => Entry b (record_of 0 wal_id txn (zlen b) crc op)
  | Fault _ => Entry [] (corrupt_record 0 0)
  end.

Lemma entry_of_ok txn wal_id op : in_width 64 txn -> in_width 64 wal_id -> logged_ok op -> entry_ok sum_crc (entry_of txn wal_id op).
Proof.
  intros Ht Hw Hop. destruct (encode_decode sum_crc 0 wal_id txn op) as (b & crc & He & Hf & Hd); try done.
  unfold entry_of. rewrite He. by apply encoded_entry.
Qed.

(** Two commits, a delete of 600 rows over two pages, and one more session. *)
Definition ex_sessions : list (list (@wop data_chunk_codec)) :=
  [[WAppend (entry_of 1 1 (Commit 2)); WAppend (entry_of 2 2 (Delete 4 (seqZ 0 600))); WAppend (entry_of 2 3 (Commit 4)); WFlush;
    WAppend (entry_of 3 4 (Commit 6))];
   [WAppend (entry_of 4 5 (Delete 4 [7])); WAppend (entry_of 4 6 (Commit 8))]].

Lemma commit_ok_ex cid : in_width 64 cid -> @logged_ok data_chunk_codec (Commit cid).
Proof. done. Qed.

Lemma delete_ok_ex oid ids : in_width 32 oid -> Forall in_signed64 ids -> zlen ids < 100000 -> @logged_ok data_chunk_codec (Delete oid ids).
Proof. intros. split_and!; [done|done|]. unfold payload_fits. lia. Qed.

Lemma seqZ_signed a n : 0 <= a -> a + n < 2 ^ 63 -> Forall in_signed64 (seqZ a n).
Proof. intros Ha Hn. apply Forall_forall. intros x Hx%elem_of_seqZ. unfold in_signed64. lia. Qed.

Lemma segment_round_trip_witness :
  exists f, run_sessions sum_crc (fun _ => true) 0 [] [] ([] :: ex_sessions) = Ok f /\
    forall after_id, read_all_records sum_crc f after_id = Ok (kept after_id (concat (appended <$> ex_sessions))).
Proof.
  apply (segment_round_trip sum_crc (fun _ => true) 0 [] ex_sessions); [done|].
  constructor; [|constructor; [|done]]; (split; [|by vm_compute]);
    repeat (apply Forall_cons; split; [apply entry_of_ok; [small|small|]|]); try done;
    (apply delete_ok_ex; [small| |by vm_compute]); [by apply seqZ_signed|]. repeat (constructor; [small|]). done.
Defined.



(** ** Damaged files and searching *)

Section damaged.
Context `{Codec : ChunkCodec} (crc32c : bytes -> Z).

Lemma read_page_cut f n i : (i + 1) * PAGE_SIZE <= n <= zlen f -> read_page (take (Z.to_nat n) f) i = read_page f i.
Proof.
  intros Hn. unfold read_page. rewrite <- (take_drop (Z.to_nat n) f) at 2.
  rewrite read_bytes_prefix; [done|done|]. unfold zlen, PAGE_SIZE in *. rewrite length_take. lia.
Qed.

Lemma read_from_app f after_id is1 : forall is2 st,
  read_from crc32c f after_id (is1 ++ is2) st =
  (st' ← read_from crc32c f after_id is1 st;
   if forallb (fun i => bool_decide (verify_page_checksum crc32c f i = Ok true)) is1 then read_from crc32c f after_id is2 st' else mret st').
Proof.
  induction is1 as [|i is1 IH]; intros is2 st; [done|]. cbn [app read_from forallb]. unfold read_one, verify_page_checksum.
  destruct (read_page f i) as [page|]; [|done]. cbn [mbind outcome_bind].
  destruct (page_header_of page) as [h|]; [|done]. cbn [mbind outcome_bind].
  destruct (verify_checksum crc32c h page) as [[]|]; [|done|done]. cbn [mbind outcome_bind].
  destruct (read_bytes page _ _) as [d|]; [|done]. cbn [mbind outcome_bind].
  destruct (process_page crc32c after_id st h d) as [st'|]; [|done]. cbn [mbind outcome_bind mret outcome_ret].
  rewrite IH. by rewrite bool_decide_true.
Qed.

Lemma read_from_ext f f' after_id idx : (forall i, i ∈ idx -> read_page f i = read_page f' i) -> forall st,
  read_from crc32c f after_id idx st = read_from crc32c f' after_id idx st.
Proof.
  induction idx as [|i idx IH]; intros Heq st; [done|]. cbn [read_from]. unfold read_one. rewrite Heq by (by left).
  destruct (match read_page f' i with Some _ => _ | None => _ end) as [[[] st']|]; [|done|done].
  cbn [mbind outcome_bind]. apply IH. intros j Hj. apply Heq. by right.
Qed.

Lemma page_count_cut f k : 1 <= k -> k * PAGE_SIZE <= zlen f -> page_count (take (Z.to_nat (k * PAGE_SIZE)) f) = k - 1.
Proof.
  intros Hk Hf. unfold page_count. assert (Hlen : zlen (take (Z.to_nat (k * PAGE_SIZE)) f) = k * PAGE_SIZE).
  { unfold zlen, PAGE_SIZE in *. rewrite length_take. lia. }
  rewrite Hlen, Z.div_mul by done. case_bool_decide; unfold PAGE_SIZE in *; lia.
Qed.

Lemma page_count_bound f k : (k + 1) * PAGE_SIZE <= zlen f -> k <= page_count f.
Proof.
  intros Hk. unfold page_count, PAGE_SIZE in *. case_bool_decide; [lia|].
  pose proof (Z.div_le_lower_bound (zlen f) 4096 (k + 1)). lia.
Qed.

(** The last page of the range, if it starts at or before the target. *)
Lemma seek_finds f target lo_of hi_of i : forall fuel lo hi result,
  (forall j, 1 <= j <= page_count f -> exists h, read_page_header f j = Ok h /\ page_lsn h = lo_of j /\ page_end_lsn h = hi_of j) ->
  (forall j k, 1 <= j < k -> k <= page_count f -> lo_of j <= lo_of k /\ hi_of j <= hi_of k) ->
  1 <= lo -> lo <= i <= hi -> hi <= page_count f -> lo_of i <= target <= hi_of i -> hi - lo + 1 < Z.of_nat fuel ->
  exists k, seek fuel f target lo hi result = Ok k /\ 1 <= k <= page_count f /\ lo_of k <= target <= hi_of k.
Proof.
  induction fuel as [|fuel IH]; intros lo hi result Hh Hmono Hlo Hi Hhi Ht Hfuel; [lia|].
  cbn [seek]. rewrite bool_decide_false by lia. set (mid := lo + (hi - lo) / 2).
  assert (Hmid : lo <= mid <= hi) by (subst mid; pose proof (Z.div_mod (hi - lo) 2); pose proof (Z.mod_pos_bound (hi - lo) 2); lia).
  destruct (Hh mid) as (h & -> & Hlsn & Hend); [lia|]. cbn [mbind outcome_bind]. rewrite Hlsn, Hend.
  destruct (decide (lo_of mid <= target)) as [H1|H1]; [rewrite bool_decide_true by done|rewrite bool_decide_false by done].
  - destruct (decide (target <= hi_of mid)) as [H2|H2]; [rewrite bool_decide_true by done|rewrite bool_decide_false by done].
    + exists mid. split_and!; [done|lia..].
    + apply IH; try done; try lia. destruct (decide (i < mid)); [destruct (Hmono i mid); lia|].
      destruct (decide (i = mid)) as [->|]; lia.
  - rewrite bool_decide_false by lia. apply IH; try done; try lia.
    destruct (decide (mid < i)); [destruct (Hmono mid i); lia|]. destruct (decide (i = mid)) as [->|]; lia.
Qed.
End damaged.

(** C39: A page whose checksum does not match ends the log: the records read are exactly
    those of the file cut before that page, whatever that page and the pages after it hold. *)
Theorem read_stops_at_corruption `{Codec : ChunkCodec} (crc32c : bytes -> Z) f k after_id :
  1 <= k -> (k + 1) * PAGE_SIZE <= zlen f -> verify_page_checksum crc32c f k = Ok false ->
  read_all_records crc32c f after_id = read_all_records crc32c (take (Z.to_nat (k * PAGE_SIZE)) f) after_id.
Proof.
  intros Hk Hf Hbad. pose proof (page_count_bound f k Hf) as Hcount. unfold read_all_records.
  rewrite page_count_cut by (unfold PAGE_SIZE in *; lia).
  replace (page_count f) with ((k - 1) + (1 + (page_count f - k))) by lia.
  rewrite seqZ_app by lia. replace (1 + (k - 1)) with k by lia. rewrite read_from_app.
  rewrite (read_from_ext crc32c (take (Z.to_nat (k * PAGE_SIZE)) f) f).
  2:{ intros i Hi%elem_of_seqZ. apply read_page_cut. unfold PAGE_SIZE in *. lia. }
  destruct (read_from crc32c f after_id (seqZ 1 (k - 1)) _) as [st|]; [|done]. cbn [mbind outcome_bind].
  destruct (forallb _ _); [|done]. rewrite seqZ_cons by lia. cbn [read_from]. unfold read_one, verify_page_checksum in *.
  destruct (read_page f k) as [page|]; [|done]. destruct (page_header_of page) as [h|]; [|done]. cbn [mbind outcome_bind] in *.
  rewrite Hbad. done.
Qed.

(** Two pages of one commit each. *)
Definition ex_file : bytes :=
  match run_session sum_crc (fun _ => true) 0 [] [] [WAppend (entry_of 1 1 (Commit 2)); WFlush; WAppend (entry_of 2 2 (Commit 3))] with
  | Ok f => f
  | Fault _ => []
  end.

Lemma read_stops_at_corruption_witness :
  read_all_records sum_crc (<[8232%nat := Byte.xff]> ex_file) 0 =
  read_all_records sum_crc (take (Z.to_nat (2 * PAGE_SIZE)) (<[8232%nat := Byte.xff]> ex_file)) 0.
Proof. apply (read_stops_at_corruption sum_crc (<[8232%nat := Byte.xff]> ex_file) 2 0); [lia|by vm_compute|by vm_compute]. Defined.

(** The binary search for a log sequence number finds a page that holds it, when one
    does and the pages are in order. *)
Theorem seek_to_lsn_finds f target lo_of hi_of i :
  (forall j, 1 <= j <= page_count f -> exists h, read_page_header f j = Ok h /\ page_lsn h = lo_of j /\ page_end_lsn h = hi_of j) ->
  (forall j k, 1 <= j < k -> k <= page_count f -> lo_of j <= lo_of k /\ hi_of j <= hi_of k) ->
  1 <= i <= page_count f -> lo_of i <= target <= hi_of i ->
  exists k, seek_to_lsn f target = Ok k /\ 1 <= k <= page_count f /\ lo_of k <= target <= hi_of k.
Proof.
  intros Hh Hmono Hi Ht. unfold seek_to_lsn. rewrite bool_decide_false by lia.
  apply (seek_finds f target lo_of hi_of i); try done; lia.
Qed.

Lemma header_range f i lo hi :
  match read_page_header f i with Ok h => bool_decide (page_lsn h = lo /\ page_end_lsn h = hi) | Fault _ => false end = true ->
  exists h, read_page_header f i = Ok h /\ page_lsn h = lo /\ page_end_lsn h = hi.
Proof. destruct (read_page_header f i) as [h|]; [|done]. intros H%bool_decide_eq_true. by exists h. Qed.

Lemma seek_to_lsn_finds_witness : exists k, seek_to_lsn ex_file 2 = Ok k /\ 1 <= k <= page_count ex_file /\ k <= 2 <= k.
Proof.
  assert (Hc : page_count ex_file = 2) by by vm_compute.
  apply (seek_to_lsn_finds ex_file 2 (fun i => i) (fun i => i) 2); [|lia|lia|lia].
  intros j Hj. assert (Hj' : j = 1 \/ j = 2) by lia. destruct Hj' as [-> | ->]; (apply header_range; by vm_compute).
Defined.

(** ** Layouts the reader does not survive *)

(** What a session of appends leaves in the file, as (transaction, id) pairs. *)
Definition read_back (ops : list (@wop data_chunk_codec)) : outcome (list (Z * Z)) :=
  f ← run_session sum_crc (fun _ => true) 0 [] [] ops;
  rs ← read_all_records (Codec := data_chunk_codec) sum_crc f 0;
  mret (map (fun r => (transaction_id r, id r)) rs).

(** A delete of 501 rows (4061 bytes) leaves three bytes of its page to the next record,
    fewer than the length field: the reader takes the whole next page as that record and
    drops the commit behind it, which was flushed. *)
Theorem short_head_loses_commit :
  read_back [WAppend (entry_of 1 1 (Delete 4 (seqZ 0 501))); WAppend (entry_of 2 2 (Delete 4 [7])); WAppend (entry_of 1 3 (Commit 2))] =
  Ok [(1, 1); (2, 2)].
Proof. by vm_compute. Qed.

(** A record that starts on the last page of another and spans further is dropped, and so
    is what follows it. *)
Theorem second_span_loses_records :
  read_back [WAppend (entry_of 1 1 (Delete 4 (seqZ 0 600))); WAppend (entry_of 1 2 (Delete 4 (seqZ 0 600))); WAppend (entry_of 1 3 (Commit 2))] =
  Ok [(1, 1)].
Proof. by vm_compute. Qed.

(** A length field of 2^32 - 8 makes the total length wrap to zero: the parse loop never
    moves on. *)
Theorem wrapped_length_loops `{Codec : ChunkCodec} (crc32c : bytes -> Z) fuel data offset data_size after_id acc :
  0 <= offset <= zlen data -> offset + 4 <= data_size -> read_le 4 data offset = Ok (2 ^ 32 - 8) ->
  parse_records crc32c fuel data offset data_size after_id acc = Fault OutOfFuel.
Proof.
  revert acc. induction fuel as [|fuel IH]; intros acc Hoff Hsize Hread; [done|]. cbn [parse_records].
  rewrite !bool_decide_false by lia. rewrite Hread. cbn [mbind outcome_bind].
  rewrite (bool_decide_false (2 ^ 32 - 8 = 0)) by lia. change (u32 (2 ^ 32 - 8 + 8)) with 0.
  rewrite (bool_decide_false (data_size < offset + 0)) by lia.
  unfold read_bytes. rewrite (bool_decide_true (0 <= offset /\ 0 <= 0 /\ offset + 0 <= zlen data)) by lia.
  cbn [mbind outcome_bind]. rewrite Z.add_0_r.
  change (decode_record crc32c (take (Z.to_nat 0) (drop (Z.to_nat offset) data))) with (Ok (corrupt_record 0 0)).
  cbn [mbind outcome_bind]. by apply IH.
Qed.
