(* ===== verification/WalWorker.v ===== *)
(** * The write-ahead log of one database: worker and recovery reader

    [services/wal/wal.cpp] and [services/wal/wal_reader.cpp]: the segment files of a
    database directory, the worker that appends to the last of them and rotates, and the two
    readers that return the records of committed transactions. A directory is a map from
    file names to contents; the files are regular files and can be read. *)

From S2P Require Import Prelude.
From S2P Require Import Bytes.
From S2P Require Import WalBinary.
From S2P Require Import WalPage.
From coqutil Require Import Byte.
#[local] Open Scope Z_scope.

(** ** Segment names *)

Definition digit (d : Z) : byte := byte.of_Z (48 + d).

(** A 32-bit number has at most ten digits. *)
Fixpoint decimal_loop (fuel : nat) (n : Z) : bytes :=
  match fuel with
  | O => []
  | S fuel => if bool_decide (n < 10) then [digit n] else decimal_loop fuel (n / 10) ++ [digit (n mod 10)]
  end.

Definition decimal (n : Z) : bytes := decimal_loop 10 n.

(** [oss.width(n); oss.fill('0')]. *)
Definition pad (n : nat) (s : bytes) : bytes := replicate (n - length s) (digit 0) ++ s.

Definition segment_prefix (db_dir_name : bytes) : bytes :=
  [Byte.x77; Byte.x61; Byte.x6c; Byte.x5f] ++ db_dir_name ++ [Byte.x5f].

Definition segment_filename (db_dir_name : bytes) (index : Z) : bytes := segment_prefix db_dir_name ++ pad 6 (decimal index).

Definition has_prefix (prefix fname : bytes) : bool := bool_decide (take (length prefix) fname = prefix).

(** [operator<=] of strings: byte by byte. *)
Fixpoint lex_leb (a b : bytes) : bool :=
  match a, b with
  | [], _ => true
  | _ :: _, [] => false
  | x :: a, y :: b => bool_decide (byte.unsigned x < byte.unsigned y) || (bool_decide (x = y) && lex_leb a b)
  end.

Definition lex_le (a b : bytes) : Prop := lex_leb a b = true.

#[global] Instance lex_le_dec : RelDecision lex_le.
Proof. intros a b. unfold lex_le. apply _. Defined.

(** [std::stoul] in base 10; [None] when it throws. *)
Definition is_space (b : byte) : bool := bool_decide (byte.unsigned b = 32 \/ 9 <= byte.unsigned b <= 13).
Definition is_digit (b : byte) : bool := bool_decide (48 <= byte.unsigned b <= 57).

Fixpoint drop_while (p : byte -> bool) (s : bytes) : bytes :=
  match s with [] => [] | b :: s' => if p b then drop_while p s' else s end.

Fixpoint take_while (p : byte -> bool) (s : bytes) : bytes :=
  match s with [] => [] | b :: s' => if p b then b :: take_while p s' else [] end.

Definition digits_value (ds : bytes) : Z := foldl (fun v b => v * 10 + (byte.unsigned b - 48)) 0 ds.

Definition stoul (s : bytes) : option Z :=
  let s := drop_while is_space s in
  let negative := match s with b :: _ => bool_decide (b = Byte.x2d) | [] => false end in
  let signed := match s with b :: _ => bool_decide (b = Byte.x2d \/ b = Byte.x2b) | [] => false end in
  let ds := take_while is_digit (if signed then drop 1 s else s) in
  let v := digits_value ds in
  if bool_decide (ds = []) || bool_decide (2 ^ 64 <= v) then None
  else Some (if negative then u64 (- v) else v).

Definition parse_segment_index (db_dir_name fname : bytes) : Z :=
  let prefix := segment_prefix db_dir_name in
  if bool_decide (zlen fname <= zlen prefix) || negb (has_prefix prefix fname) then UINT32_MAX
  else match stoul (drop (length prefix) fname) with Some v => u32 v | None => UINT32_MAX end.

(** ** The worker *)

Inductive wal_sync_mode := OFF | NORMAL | FULL.

Section wal_worker.
Context `{Codec : ChunkCodec} (crc32c : bytes -> Z) (disk_ok : Z -> bool).
(** [database_dir_name_] and [config_.max_segment_size]. *)
Variables (db : bytes) (max_segment_size : Z).

Record worker := Worker {
  dir : gmap bytes bytes;
  id_ : Z;
  last_crc_ : Z;
  current_segment_index_ : Z;
  writer_ : option (bytes * writer);
}.

(** The files of a directory whose names start with [prefix], in order. *)
Definition sorted_files (prefix : bytes) (d : gmap bytes bytes) : list bytes :=
  merge_sort lex_le (filter (fun n => has_prefix prefix n) (map_to_list d).*1).

Definition discover_segments (d : gmap bytes bytes) : list bytes := sorted_files (segment_prefix db) d.

Definition segment_path (seg_index : Z) : bytes := segment_filename db seg_index.

(** The writer's file is the file of the directory. *)
Definition set_writer (wk : worker) (path : bytes) (w : writer) : worker :=
  Worker (<[path := file w]> (dir wk)) (id_ wk) (last_crc_ wk) (current_segment_index_ wk) (Some (path, w)).

Definition open_segment (wk : worker) : worker :=
  let path := segment_path (current_segment_index_ wk) in
  set_writer wk path (open_writer disk_ok (default [] (dir wk !! path)) (current_segment_index_ wk) db).

(** The destructor of the page writer. *)
Definition close_writer (w : writer) : outcome writer :=
  if has_data_ w then '(_, w) ← flush_page crc32c disk_ok w; mret w else mret w.

Definition ensure_writer (wk : worker) : outcome worker :=
  match writer_ wk with
  | Some (path, w) =>
      if match dir wk !! path with Some f => bool_decide (max_segment_size <= zlen f) | None => false end then
        '(_, w) ← flush crc32c disk_ok w;
        w ← close_writer w;
        mret (open_segment
                (Worker (<[path := file w]> (dir wk)) (id_ wk) (last_crc_ wk) (u32 (current_segment_index_ wk + 1)) None))
      else mret wk
  | None => mret (open_segment wk)
  end.

(** The common part of the handlers: [id_], the encoded record and its checksum, the append.
    The result of [append] is not looked at. *)
Definition log_record (wk : worker) (wal_id : Z) (encoded : Z -> outcome (bytes * Z)) : outcome worker :=
  '(encode_buf, crc) ← encoded (last_crc_ wk);
  wk ← ensure_writer (Worker (dir wk) wal_id crc (current_segment_index_ wk) (writer_ wk));
  match writer_ wk with
  | Some (path, w) =>
      '(_, w) ← append crc32c disk_ok w encode_buf wal_id;
      mret (set_writer wk path w)
  | None => Fault NullDeref
  end.

Definition write_physical_insert (wk : worker) (table_oid : Z) (data_chunk : chunk) (row_start row_count txn_id wal_id : Z) :
    outcome (Z * worker) :=
  wk ← log_record wk wal_id
         (fun last_crc => encode_insert crc32c [] last_crc wal_id txn_id table_oid data_chunk row_start row_count);
  mret (wal_id, wk).

Definition write_physical_delete (wk : worker) (table_oid : Z) (row_ids : list Z) (count txn_id wal_id : Z) : outcome (Z * worker) :=
  wk ← log_record wk wal_id (fun last_crc => encode_delete crc32c [] last_crc wal_id txn_id table_oid row_ids count);
  mret (wal_id, wk).

Definition write_physical_update (wk : worker) (table_oid : Z) (row_ids : list Z) (new_data : chunk) (count txn_id wal_id : Z) :
    outcome (Z * worker) :=
  wk ← log_record wk wal_id (fun last_crc => encode_update crc32c [] last_crc wal_id txn_id table_oid row_ids new_data count);
  mret (wal_id, wk).

Definition write_physical_add_column (wk : worker) (table_oid : Z) (schema_chunk : chunk) (column_count txn_id wal_id : Z) :
    outcome (Z * worker) :=
  wk ← log_record wk wal_id (fun last_crc => encode_add_column crc32c [] last_crc wal_id txn_id table_oid schema_chunk column_count);
  mret (wal_id, wk).

(** With [OFF] the record is encoded for its checksum only. *)
Definition commit_txn (wk : worker) (transaction_id : Z) (sync_mode : wal_sync_mode) (wal_id commit_id : Z) : outcome (Z * worker) :=
  match sync_mode with
  | OFF =>
      let '(_, crc) := encode_commit crc32c [] (last_crc_ wk) wal_id transaction_id commit_id in
      mret (wal_id, Worker (dir wk) wal_id crc (current_segment_index_ wk) (writer_ wk))
  | NORMAL | FULL =>
      wk ← log_record wk wal_id (fun last_crc => mret (encode_commit crc32c [] last_crc wal_id transaction_id commit_id));
      match writer_ wk with
      | Some (path, w) =>
          '(_, w) ← (if sync_mode is FULL then flush_and_sync crc32c disk_ok w else flush crc32c disk_ok w);
          mret (wal_id, set_writer wk path w)
      | None => Fault NullDeref
      end
  end.

Definition current_wal_id (wk : worker) : Z := id_ wk.

(** ** Reading *)

Definition committed_txns (rs : list record_t) : gset Z :=
  list_to_set (transaction_id <$> filter (fun r => is_commit_marker r && is_valid r) rs).

(** Records of committed transactions, and those of transaction 0. *)
Definition committed_only (committed : gset Z) (rs : list record_t) : list record_t :=
  filter (fun r => is_valid r && (bool_decide (transaction_id r = 0) || bool_decide (transaction_id r ∈ committed))) rs.

(** [std::sort] by id; the order of records with one id is not specified. *)
Definition id_le (a b : record_t) : Prop := id a <= id b.

#[local] Instance id_le_dec : RelDecision id_le.
Proof. intros a b. unfold id_le. apply _. Defined.

Definition sort_by_id (rs : list record_t) : list record_t := merge_sort id_le rs.

Definition flush_current (wk : worker) : outcome worker :=
  match writer_ wk with
  | Some (path, w) => '(_, w) ← flush crc32c disk_ok w; mret (set_writer wk path w)
  | None => mret wk
  end.

Definition load (wk : worker) (after_wal_id : Z) : outcome (list record_t * worker) :=
  wk ← flush_current wk;
  rs ← mapM (fun p => read_all_records crc32c (default [] (dir wk !! p)) after_wal_id) (discover_segments (dir wk));
  let all_records := concat rs in
  mret (sort_by_id (committed_only (committed_txns all_records) all_records), wk).

(** Segments whose last page ends at or before the checkpoint. *)
Definition removable (checkpoint_wal_id : Z) (f : bytes) : outcome bool :=
  let pc := page_count f in
  if bool_decide (pc = 0) then mret true
  else
    last_hdr ← read_page_header f pc;
    mret (bool_decide (page_end_lsn last_hdr <= checkpoint_wal_id)).

Fixpoint truncate_segments (wk : worker) (checkpoint_wal_id : Z) (segments : list bytes) : outcome worker :=
  match segments with
  | [] => mret wk
  | p :: segments =>
      remove ← (if match writer_ wk with Some (path, _) => bool_decide (p = path) | None => false end then mret false
                else removable checkpoint_wal_id (default [] (dir wk !! p)));
      truncate_segments
        (if remove : bool then Worker (delete p (dir wk)) (id_ wk) (last_crc_ wk) (current_segment_index_ wk) (writer_ wk) else wk)
        checkpoint_wal_id segments
  end.

Definition truncate_before (wk : worker) (checkpoint_wal_id : Z) : outcome worker :=
  truncate_segments wk checkpoint_wal_id (discover_segments (dir wk)).

(** ** Startup *)

(** The highest id so far and the checksum of its record. *)
Definition latest (acc : Z * Z) (rs : list record_t) : Z * Z :=
  foldl (fun acc r => if is_valid r && bool_decide (acc.1 < id r) then (id r, crc32 r) else acc) acc rs.

(** [max_wal_id], [recovered_crc] and [max_seg_index]; a segment with a bad page is the last. *)
Fixpoint recover_segments (d : gmap bytes bytes) (segments : list bytes) (acc : Z * Z) (max_seg_index : Z) :
    outcome (Z * Z * Z) :=
  match segments with
  | [] => mret (acc, max_seg_index)
  | p :: segments =>
      let seg_idx := parse_segment_index db p in
      let max_seg_index :=
        if negb (bool_decide (seg_idx = UINT32_MAX)) && bool_decide (max_seg_index < seg_idx) then seg_idx else max_seg_index in
      let f := default [] (d !! p) in
      chain_ok ← verify_chain crc32c f;
      rs ← read_all_records crc32c f 0;
      if chain_ok : bool then recover_segments d segments (latest acc rs) max_seg_index
      else mret (latest acc rs, max_seg_index)
  end.

Definition recover_from_disk (wk : worker) : outcome worker :=
  match discover_segments (dir wk) with
  | [] => mret wk
  | segments =>
      '(max_wal_id, recovered_crc, max_seg_index) ← recover_segments (dir wk) segments (0, 0) 0;
      mret (Worker (dir wk) max_wal_id recovered_crc max_seg_index (writer_ wk))
  end.

(** The constructor and the destructor. *)
Definition new_worker (d : gmap bytes bytes) : outcome worker :=
  wk ← recover_from_disk (Worker d 0 0 0 None);
  ensure_writer wk.

Definition destroy_worker (wk : worker) : outcome (gmap bytes bytes) :=
  match writer_ wk with
  | Some (path, w) => w ← close_writer w; mret (<[path := file w]> (dir wk))
  | None => mret (dir wk)
  end.

(** ** The recovery reader *)

Fixpoint read_segments (d : gmap bytes bytes) (after_wal_id : Z) (segments : list bytes) : outcome (list record_t) :=
  match segments with
  | [] => mret []
  | p :: segments =>
      let f := default [] (d !! p) in
      chain_ok ← verify_chain crc32c f;
      rs ← read_all_records crc32c f after_wal_id;
      if chain_ok : bool then more ← read_segments d after_wal_id segments; mret (rs ++ more) else mret rs
  end.

(** The records kept and the transactions found committed. *)
Definition read_database_segments (d : gmap bytes bytes) (after_wal_id : Z) : outcome (list record_t * gset Z) :=
  all_records ← read_segments d after_wal_id (sorted_files [Byte.x77; Byte.x61; Byte.x6c; Byte.x5f] d);
  let committed := committed_txns all_records in
  mret (committed_only committed all_records, committed).

(** All databases, in the order the file system lists them; [committed_out] is the union. *)
Fixpoint read_databases (dbs : list (gmap bytes bytes)) (after_wal_id : Z) : outcome (list record_t * gset Z) :=
  match dbs with
  | [] => mret ([], ∅)
  | d :: dbs =>
      '(rs, committed) ← read_database_segments d after_wal_id;
      '(more, committed') ← read_databases dbs after_wal_id;
      mret (rs ++ more, committed ∪ committed')
  end.

Definition read_committed_records (dbs : list (gmap bytes bytes)) (after_wal_id : Z) : outcome (list record_t * gset Z) :=
  '(merged, committed_out) ← read_databases dbs after_wal_id;
  mret (sort_by_id merged, committed_out).

End wal_worker.
