(* ===== verification/WalRecovery.v ===== *)
(** * The write-ahead log of one database: theorems

    Segment names sort by index; acknowledged commits survive a crash and uncommitted
    transactions do not come back; a restart continues the log. *)

From S2P Require Import Prelude.
From S2P Require Import Bytes.
From S2P Require Import WalBinary.
From S2P Require Import DataChunkBinary.
From S2P Require Import WalPage.
From S2P Require Import WalPageWriter.
From S2P Require Import WalPageReader.
From S2P Require Import WalTheorems.
From S2P Require Import WalWorker.
From coqutil Require Import Byte.
#[local] Open Scope Z_scope.

(** ** The order of names *)

#[global] Instance lex_le_refl : Reflexive lex_le.
Proof. intros a. unfold lex_le. induction a as [|x a IH]; [done|]. cbn. rewrite IH, (bool_decide_true (x = x)) by done. by rewrite orb_true_r. Qed.

Lemma lex_le_cons x a y b : lex_le (x :: a) (y :: b) <-> byte.unsigned x < byte.unsigned y \/ x = y /\ lex_le a b.
Proof.
  unfold lex_le. cbn [lex_leb]. rewrite orb_true_iff, andb_true_iff, !bool_decide_eq_true. done.
Qed.

#[global] Instance lex_le_trans : Transitive lex_le.
Proof.
  intros a. induction a as [|x a IH]; intros b c Hab Hbc; [done|]. destruct b as [|y b]; [done|]. destruct c as [|z c]; [done|].
  rewrite lex_le_cons in *. destruct Hab as [Hab|[-> Hab]], Hbc as [Hbc|[-> Hbc]]; [left; lia|by left|by left|]. right. eauto.
Qed.

#[global] Instance lex_le_antisym : AntiSymm (=) lex_le.
Proof.
  intros a. induction a as [|x a IH]; intros [|y b] Hab Hba; try done.
  rewrite lex_le_cons in *. destruct Hab as [Hab|[-> Hab]], Hba as [Hba|[Heq Hba]]; subst; try lia. f_equal. eauto.
Qed.

#[global] Instance lex_le_total : Total lex_le.
Proof.
  intros a. induction a as [|x a IH]; intros [|y b]; [by left..|by right|]. rewrite !lex_le_cons.
  destruct (Z.lt_trichotomy (byte.unsigned x) (byte.unsigned y)) as [H|[H|H]]; [by left; left| |by right; left].
  apply byte.unsigned_inj in H as ->. destruct (IH b); [left|right]; by right.
Qed.

Lemma lex_le_snoc a b x y : length a = length b -> lex_le a b -> a <> b \/ byte.unsigned x <= byte.unsigned y -> lex_le (a ++ [x]) (b ++ [y]).
Proof.
  revert b. induction a as [|u a IH]; intros [|v b] Hlen Hle Hor; try done; cbn [app]; rewrite lex_le_cons in *.
  - destruct Hor as [?|?]; [done|]. destruct (decide (x = y)) as [->|Hne]; [by right|]. left.
    assert (byte.unsigned x <> byte.unsigned y) by (by intros ?%byte.unsigned_inj). lia.
  - destruct Hle as [?|[-> Hle]]; [by left|right]. split; [done|]. apply IH; [by injection Hlen|done|].
    destruct Hor as [Hne|?]; [left; by intros ->|by right].
Qed.

Lemma lex_le_app p a b : lex_le a b -> lex_le (p ++ a) (p ++ b).
Proof. induction p as [|x p IH]; [done|]. intros H. cbn [app]. rewrite lex_le_cons. right. split; [done|by apply IH]. Qed.

(** The last [k] digits of a number. *)
Fixpoint digits (k : nat) (n : Z) : bytes := match k with O => [] | S k => digits k (n / 10) ++ [digit (n mod 10)] end.

Lemma length_digits k n : length (digits k n) = k.
Proof. revert n. induction k as [|k IH]; intros n; [done|]. cbn [digits]. rewrite length_app, IH. cbn. lia. Qed.

Lemma digit_value d : 0 <= d < 10 -> byte.unsigned (digit d) = 48 + d.
Proof. intros H. unfold digit. rewrite byte.unsigned_of_Z. unfold byte.wrap. rewrite Z.mod_small; lia. Qed.

Lemma digits_zero k : digits k 0 = replicate k (digit 0).
Proof.
  induction k as [|k IH]; [done|]. cbn [digits]. change (0 / 10) with 0. change (0 mod 10) with 0. rewrite IH.
  by rewrite <- replicate_S_end.
Qed.

Lemma pow10_S k : 10 ^ Z.of_nat (S k) = 10 * 10 ^ Z.of_nat k.
Proof. rewrite Nat2Z.inj_succ, Z.pow_succ_r by lia. done. Qed.

Lemma div10_bound k n : 0 <= n < 10 ^ Z.of_nat (S k) -> 0 <= n / 10 < 10 ^ Z.of_nat k.
Proof. rewrite pow10_S. intros H. split; [apply Z.div_pos; lia|]. apply Z.div_lt_upper_bound; lia. Qed.

Lemma pad_decimal fuel : forall k n, (k <= fuel)%nat -> (0 < k)%nat -> 0 <= n < 10 ^ Z.of_nat k -> pad k (decimal_loop fuel n) = digits k n.
Proof.
  induction fuel as [|fuel IH]; intros k n Hk Hpos Hn; [lia|]. destruct k as [|k]; [lia|]. cbn [decimal_loop digits].
  case_bool_decide as H10.
  - rewrite Z.div_small, Z.mod_small, digits_zero by lia. unfold pad. cbn [length]. by rewrite Nat.sub_succ, Nat.sub_0_r.
  - assert (Hq : 0 <= n / 10 < 10 ^ Z.of_nat k) by (by apply div10_bound).
    destruct k as [|k]; [cbn in Hn; lia|]. rewrite <- (IH (S k) (n / 10)) by lia. unfold pad. rewrite length_app. cbn [length].
    rewrite <- app_assoc. f_equal. f_equal. lia.
Qed.

Lemma digits_inj k : forall i j, 0 <= i < 10 ^ Z.of_nat k -> 0 <= j < 10 ^ Z.of_nat k -> digits k i = digits k j -> i = j.
Proof.
  induction k as [|k IH]; intros i j Hi Hj Heq; [cbn in *; lia|]. cbn [digits] in Heq. apply app_inj_tail in Heq as [Hq Hd].
  apply IH in Hq; [|by apply div10_bound..]. apply (f_equal byte.unsigned) in Hd.
  pose proof (Z.mod_pos_bound i 10). pose proof (Z.mod_pos_bound j 10). rewrite !digit_value in Hd by lia.
  rewrite (Z.div_mod i 10), (Z.div_mod j 10) by lia. lia.
Qed.

Lemma digits_mono k : forall i j, 0 <= i <= j -> j < 10 ^ Z.of_nat k -> lex_le (digits k i) (digits k j).
Proof.
  induction k as [|k IH]; intros i j Hij Hj; [done|]. cbn [digits].
  assert (Hq : i / 10 <= j / 10) by (apply Z.div_le_mono; lia).
  pose proof (div10_bound k i). pose proof (div10_bound k j).
  apply lex_le_snoc; [by rewrite !length_digits|apply IH; lia|].
  pose proof (Z.mod_pos_bound i 10). pose proof (Z.mod_pos_bound j 10). pose proof (Z.div_mod i 10). pose proof (Z.div_mod j 10).
  destruct (decide (i / 10 = j / 10)) as [E|E].
  - right. rewrite !digit_value by lia. lia.
  - left. intros Heq. apply E. apply digits_inj in Heq; lia.
Qed.

(** ** Segment names *)

(** Indices whose names have exactly six digits. *)
Definition MAX_SEGMENTS : Z := 1000000.

Lemma segment_filename_digits db i : 0 <= i < MAX_SEGMENTS -> segment_filename db i = segment_prefix db ++ digits 6 i.
Proof. intros Hi. unfold segment_filename, decimal. rewrite pad_decimal; [done|lia|lia|done]. Qed.

Lemma segment_filename_inj db i j : 0 <= i < MAX_SEGMENTS -> 0 <= j < MAX_SEGMENTS ->
  segment_filename db i = segment_filename db j -> i = j.
Proof. intros Hi Hj. rewrite !segment_filename_digits by done. intros H%app_inv_head. by apply (digits_inj 6). Qed.

Lemma segment_filename_mono db i j : 0 <= i <= j -> j < MAX_SEGMENTS -> lex_le (segment_filename db i) (segment_filename db j).
Proof. intros Hij Hj. rewrite !segment_filename_digits by lia. apply lex_le_app. by apply digits_mono. Qed.

Lemma has_prefix_app p s : has_prefix p (p ++ s) = true.
Proof. apply bool_decide_eq_true. apply take_app_length. Qed.

Lemma segment_filename_prefix db i : has_prefix (segment_prefix db) (segment_filename db i) = true.
Proof. apply has_prefix_app. Qed.

Lemma segment_filename_wal db i : has_prefix [Byte.x77; Byte.x61; Byte.x6c; Byte.x5f] (segment_filename db i) = true.
Proof. unfold segment_filename, segment_prefix. rewrite <- app_assoc. apply has_prefix_app. Qed.

Lemma is_digit_digit d : 0 <= d < 10 -> is_digit (digit d) = true.
Proof. intros H. apply bool_decide_eq_true. rewrite digit_value by done. lia. Qed.

Lemma decimal_digits fuel : forall n, 0 <= n -> Forall (fun b => is_digit b = true) (decimal_loop fuel n).
Proof.
  induction fuel as [|fuel IH]; intros n Hn; [done|]. cbn [decimal_loop]. case_bool_decide.
  - constructor; [|done]. apply is_digit_digit. lia.
  - apply Forall_app. split; [apply IH; apply Z.div_pos; lia|]. constructor; [|done]. apply is_digit_digit.
    apply Z.mod_pos_bound. lia.
Qed.

Lemma digits_value_snoc ds d : 0 <= d < 10 -> digits_value (ds ++ [digit d]) = digits_value ds * 10 + d.
Proof. intros Hd. unfold digits_value. rewrite foldl_app. cbn [foldl]. rewrite digit_value by done. lia. Qed.

Lemma decimal_value fuel : forall n, 0 <= n < 10 ^ Z.of_nat fuel -> digits_value (decimal_loop fuel n) = n.
Proof.
  induction fuel as [|fuel IH]; intros n Hn; [cbn in *; lia|]. cbn [decimal_loop]. case_bool_decide.
  - change [digit n] with ([] ++ [digit n]). rewrite digits_value_snoc by lia. cbn. lia.
  - pose proof (Z.mod_pos_bound n 10). rewrite digits_value_snoc, IH by (lia || by apply div10_bound).
    rewrite (Z.div_mod n 10) at 3 by lia. lia.
Qed.

Lemma digits_value_zeros k ds : digits_value (replicate k (digit 0) ++ ds) = digits_value ds.
Proof.
  induction k as [|k IH]; [done|]. rewrite <- IH. unfold digits_value. cbn [replicate app foldl]. by rewrite digit_value by lia.
Qed.

Lemma take_while_all p ds : Forall (fun b => p b = true) ds -> take_while p ds = ds.
Proof. induction 1 as [|b ds Hb _ IH]; [done|]. cbn. by rewrite Hb, IH. Qed.

Lemma stoul_digits ds : ds <> [] -> Forall (fun b => is_digit b = true) ds -> digits_value ds < 2 ^ 64 -> stoul ds = Some (digits_value ds).
Proof.
  intros Hne Hds Hv. destruct ds as [|b ds]; [done|]. pose proof Hds as Hb. apply Forall_cons in Hb as [Hb _].
  unfold is_digit in Hb. apply bool_decide_eq_true in Hb. 
  assert (Hs : drop_while is_space (b :: ds) = b :: ds) by (cbn; unfold is_space; by rewrite bool_decide_false by lia).
  unfold stoul. rewrite Hs.
  rewrite (bool_decide_false (b = Byte.x2d)), (bool_decide_false (b = Byte.x2d \/ b = Byte.x2b))
    by (intros E; repeat destruct E as [E|E]; subst b; cbn in Hb; lia).
  rewrite take_while_all by done. rewrite bool_decide_false, bool_decide_false by (done || lia). done.
Qed.

Lemma decimal_nonempty fuel n : (0 < fuel)%nat -> decimal_loop fuel n <> [].
Proof. destruct fuel; [lia|]. intros _. cbn [decimal_loop]. case_bool_decide; [done|]. by intros [_ ?]%app_eq_nil. Qed.

(** The index read back from a name is the index it was made from. *)
Lemma parse_segment_filename db i : 0 <= i < 2 ^ 32 -> parse_segment_index db (segment_filename db i) = i.
Proof.
  intros Hi. unfold parse_segment_index. rewrite segment_filename_prefix. unfold segment_filename. rewrite zlen_app.
  assert (Hne : pad 6 (decimal i) <> []) by (intros [_ H]%app_eq_nil; by apply decimal_nonempty in H; [|lia]).
  pose proof (zlen_pos _ Hne). rewrite bool_decide_false by lia. cbn [negb orb]. rewrite drop_app_length.
  assert (Hval : digits_value (pad 6 (decimal i)) = i) by (unfold pad; rewrite digits_value_zeros; apply decimal_value; cbn; lia).
  rewrite stoul_digits; [rewrite Hval; by apply wrap_small|done| |lia].
  apply Forall_app. split; [|apply decimal_digits; lia]. apply Forall_replicate. by apply is_digit_digit.
Qed.

(** ** Directories of segments *)

Section directory.
Variable db : bytes.

Definition path_of (i : nat) : bytes := segment_filename db (Z.of_nat i).

(** [d] holds exactly the segments [fs], from index 0 on. *)
Definition dir_is (d : gmap bytes bytes) (fs : list bytes) : Prop :=
  zlen fs <= MAX_SEGMENTS /\ forall p f, d !! p = Some f <-> exists i, p = path_of i /\ fs !! i = Some f.

Definition names (fs : list bytes) : list bytes := path_of <$> seq 0 (length fs).

Lemma path_of_inj i j : Z.of_nat i < MAX_SEGMENTS -> Z.of_nat j < MAX_SEGMENTS -> path_of i = path_of j -> i = j.
Proof. intros Hi Hj H. apply segment_filename_inj in H; lia. Qed.

Lemma dir_empty : dir_is ∅ [].
Proof. split; [by vm_compute|]. intros p f. rewrite lookup_empty. split; [done|]. by intros (i & _ & Hi). Qed.

Lemma dir_lookup d fs i f : dir_is d fs -> fs !! i = Some f -> d !! path_of i = Some f.
Proof. intros [_ Hd] Hi. apply Hd. eauto. Qed.

Lemma dir_lookup_next d fs : dir_is d fs -> zlen fs < MAX_SEGMENTS -> d !! path_of (length fs) = None.
Proof.
  intros [_ Hd] Hn. apply eq_None_not_Some. intros [f (i & Heq & Hi)%Hd]. pose proof (lookup_lt_Some _ _ _ Hi).
  unfold zlen in *. apply path_of_inj in Heq; lia.
Qed.

(** A file written at the next index, or over the last one. *)
Lemma dir_insert d fs f : dir_is d fs -> zlen fs < MAX_SEGMENTS -> dir_is (<[path_of (length fs) := f]> d) (fs ++ [f]).
Proof.
  intros [_ Hd] Hn. split; [rewrite zlen_app; change (zlen [f]) with 1; lia|]. intros p g. unfold zlen in Hn.
  destruct (decide (p = path_of (length fs))) as [->|Hne].
  - rewrite lookup_insert_eq. split.
    + intros [= ->]. exists (length fs). split; [done|]. by apply list_lookup_middle.
    + intros (i & Heq & [[Hi Hg]|[-> ->]]%lookup_snoc_Some); [|done]. apply path_of_inj in Heq; lia.
  - rewrite lookup_insert_ne, Hd by done. setoid_rewrite lookup_snoc_Some. split.
    + intros (i & -> & Hi). exists i. split; [done|]. left. split; [|done]. by eapply lookup_lt_Some.
    + intros (i & -> & [[_ Hi]|[-> _]]); [by exists i|done].
Qed.

Lemma dir_replace d fs f0 f : dir_is d (fs ++ [f0]) -> dir_is (<[path_of (length fs) := f]> d) (fs ++ [f]).
Proof.
  intros [Hn Hd]. assert (Hlen : Z.of_nat (length fs) < MAX_SEGMENTS) by (rewrite zlen_app in Hn; unfold zlen in Hn; cbn in Hn; lia).
  split; [by rewrite zlen_app in *|]. intros p g. destruct (decide (p = path_of (length fs))) as [->|Hne].
  - rewrite lookup_insert_eq. split.
    + intros [= ->]. exists (length fs). split; [done|]. by apply list_lookup_middle.
    + intros (i & Heq & [[Hi Hg]|[-> ->]]%lookup_snoc_Some); [|done]. apply path_of_inj in Heq; lia.
  - rewrite lookup_insert_ne, Hd by done. setoid_rewrite lookup_snoc_Some. split.
    + intros (i & -> & [[Hi Hg]|[-> _]]); [|done]. exists i. auto.
    + intros (i & -> & [[Hi Hg]|[-> _]]); [|done]. exists i. auto.
Qed.

(** The files are found in the order of their indices. *)
Lemma names_sorted fs : zlen fs <= MAX_SEGMENTS -> StronglySorted lex_le (names fs).
Proof.
  unfold names, zlen. intros Hn. assert (Hk : forall n k, Z.of_nat k + Z.of_nat n <= MAX_SEGMENTS -> StronglySorted lex_le (path_of <$> seq k n)).
  { induction n as [|n IH]; intros k Hk; [constructor|]. cbn. constructor; [apply IH; lia|].
    apply Forall_forall. intros p (i & -> & Hi%elem_of_seq)%list_elem_of_fmap. apply segment_filename_mono; lia. }
  apply Hk. lia.
Qed.

Lemma sorted_files_names prefix d fs : dir_is d fs -> (forall i, has_prefix prefix (path_of i) = true) -> sorted_files prefix d = names fs.
Proof.
  intros [Hn Hd] Hpre. apply (StronglySorted_unique lex_le); [apply StronglySorted_merge_sort; apply _|by apply names_sorted|].
  unfold sorted_files. rewrite merge_sort_Permutation. apply NoDup_Permutation.
  - apply NoDup_filter, NoDup_fst_map_to_list.
  - apply NoDup_fmap_2_strong; [|apply NoDup_seq]. intros i j Hi%elem_of_seq Hj%elem_of_seq. unfold zlen in Hn. apply path_of_inj; lia.
  - intros p. unfold names. rewrite list_elem_of_filter, !list_elem_of_fmap. split.
    + intros (_ & [q f] & -> & Hq%elem_of_map_to_list). apply Hd in Hq as (i & -> & Hi). exists i. split; [done|].
      apply elem_of_seq. apply lookup_lt_Some in Hi. lia.
    + intros (i & -> & Hi%elem_of_seq). split; [by rewrite Hpre|]. destruct (lookup_lt_is_Some_2 fs i) as [f Hf]; [lia|].
      exists (path_of i, f). split; [done|]. apply elem_of_map_to_list, Hd. eauto.
Qed.

Lemma discover_names d fs : dir_is d fs -> discover_segments db d = names fs.
Proof. intros Hd. apply sorted_files_names; [done|]. intros i. apply segment_filename_prefix. Qed.

Lemma names_files d fs : dir_is d fs -> (fun p => default [] (d !! p)) <$> names fs = fs.
Proof.
  intros Hd. apply list_eq. intros i. unfold names. rewrite !list_lookup_fmap. destruct (fs !! i) as [f|] eqn:Hf.
  - rewrite (lookup_seq_lt 0 (length fs) i) by (by eapply lookup_lt_Some). cbn [fmap option_fmap option_map]. by rewrite Nat.add_0_l, (dir_lookup d fs i f).
  - rewrite lookup_seq_ge; [done|]. by apply lookup_ge_None.
Qed.
End directory.

(** ** Reading a directory *)

Section recovery.
Context `{Codec : ChunkCodec} (crc32c : bytes -> Z) (disk_ok : Z -> bool).
Variables (db : bytes) (max_segment_size : Z).

(** A file that passes verification and reads as [es]. *)
Definition segment_reads (f : bytes) (es : list entry) : Prop :=
  verify_chain crc32c f = Ok true /\ forall after_id, read_all_records crc32c f after_id = Ok (kept after_id es).

Lemma verify_images ps : forall a rest k, Forall apage_ok ps -> zlen a = k * PAGE_SIZE ->
  verify_from crc32c (a ++ concat (image crc32c <$> ps) ++ rest) (seqZ k (zlen ps)) = Ok true.
Proof.
  induction ps as [|p ps IH]; intros a rest k Hps Ha; [done|]. apply Forall_cons in Hps as [Hp Hps].
  rewrite zlen_cons, seqZ_cons by (pose proof (zlen_nonneg ps); lia). rewrite fmap_cons. cbn [concat verify_from].
  rewrite <- !app_assoc. unfold verify_page_checksum, read_page. rewrite read_bytes_mid by (done || by rewrite zlen_image).
  rewrite header_of_image by done. cbn [mbind outcome_bind]. rewrite verify_image. cbn [mbind outcome_bind].
  replace (Z.pred (zlen ps + 1)) with (zlen ps) by lia. rewrite (app_assoc a (image crc32c p)).
  apply IH; [done|]. rewrite zlen_app, Ha, zlen_image by done. lia.
Qed.

Lemma verify_segment f ps : segment crc32c f ps -> verify_chain crc32c f = Ok true.
Proof.
  intros Hf. unfold verify_chain. rewrite (page_count_segment crc32c f ps Hf). destruct Hf as (fh & junk & -> & Hfh & Hj & Hps).
  apply verify_images; [done|lia].
Qed.

Lemma clean_reads f es : clean_segment crc32c f es -> segment_reads f es.
Proof. intros Hf. split; [|intros a; by apply clean_read]. destruct Hf as (ps & Hseg & _). by eapply verify_segment. Qed.

Lemma wstate_reads w l flushed es : wstate crc32c w l flushed es ->
  exists es0, flushed `prefix_of` es0 /\ es0 `prefix_of` es /\ segment_reads (file w) es0.
Proof.
  intros Hw. destruct (wstate_read crc32c w l flushed es Hw) as (es0 & Hfl & Hes0 & Hread). exists es0. split_and!; [done|done|].
  split; [|done]. destruct Hw as (fh & ps & p & es1 & span & b & Hat & Hfh & Hps & _).
  destruct (at_file _ _ _ Hat) as (junk & Hfile & Hj). apply (verify_segment _ ps). exists fh, junk. by rewrite Hfile, <- app_assoc.
Qed.

Lemma read_segments_ok (d : gmap bytes bytes) after_id (ps : list bytes) (ess : list (list entry)) :
  Forall2 segment_reads ((fun p => default [] (d !! p)) <$> ps) ess ->
  read_segments crc32c d after_id ps = Ok (kept after_id (concat ess)).
Proof.
  revert ess. induction ps as [|p ps IH]; intros ess Hr; [by apply Forall2_nil_inv_l in Hr as ->|].
  rewrite fmap_cons in Hr. apply Forall2_cons_inv_l in Hr as (es & ess' & [Hchain Hread] & Hr & ->).
  cbn [read_segments]. rewrite Hchain. cbn [mbind outcome_bind]. rewrite Hread. cbn [mbind outcome_bind].
  rewrite (IH _ Hr). cbn [concat]. by rewrite kept_app.
Qed.

Lemma read_mapM_ok (d : gmap bytes bytes) after_id (ps : list bytes) (ess : list (list entry)) :
  Forall2 segment_reads ((fun p => default [] (d !! p)) <$> ps) ess ->
  mapM (fun p => read_all_records crc32c (default [] (d !! p)) after_id) ps = Ok (kept after_id <$> ess).
Proof.
  rewrite Forall2_fmap_l. intros Hr. apply mapM_ok. apply Forall2_fmap_r. eapply Forall2_impl; [exact Hr|]. intros p es [_ H]. apply H.
Qed.

Lemma concat_kept after_id (ess : list (list entry)) : concat (kept after_id <$> ess) = kept after_id (concat ess).
Proof. induction ess as [|es ess IH]; [done|]. cbn [fmap list_fmap concat]. by rewrite kept_app, <- IH. Qed.

(** The records of committed transactions among [es]. *)
Definition recovered (after_id : Z) (es : list entry) : list record_t :=
  committed_only (committed_txns (kept after_id es)) (kept after_id es).

Lemma read_database_ok d fs ess after_id : dir_is db d fs -> Forall2 segment_reads fs ess ->
  read_database_segments crc32c d after_id =
  Ok (recovered after_id (concat ess), committed_txns (kept after_id (concat ess))).
Proof.
  intros Hd Hr. unfold read_database_segments.
  rewrite (sorted_files_names db _ d fs Hd) by (intros i; apply segment_filename_wal).
  rewrite (read_segments_ok _ _ _ ess); [done|]. by rewrite (names_files db).
Qed.

(** A directory of complete segments. *)
Definition clean_dir (n : Z) (d : gmap bytes bytes) (es : list entry) : Prop :=
  exists fs ess, dir_is db d fs /\ Forall2 (clean_segment crc32c) fs ess /\ es = concat ess /\ n = zlen fs.

(** ** The invariant of the worker *)

(** Segment [n] is being written, its next record at [l]; [es] are the records logged so far,
    the first of them, [flushed], are on disk. *)
Definition winv (wk : worker) (n : nat) (l : Z * bool) (flushed es : list entry) : Prop :=
  exists fs ess w fl cur,
    length fs = n /\ current_segment_index_ wk = Z.of_nat n /\ writer_ wk = Some (path_of db n, w) /\
    dir_is db (dir wk) (fs ++ [file w]) /\ Forall2 (clean_segment crc32c) fs ess /\
    wstate crc32c w l fl cur /\ es = concat ess ++ cur /\ flushed = concat ess ++ fl /\ in_width 32 (last_crc_ wk).

Lemma open_segment_inv wk fs ess : disk_accepts disk_ok -> dir_is db (dir wk) fs -> zlen fs < MAX_SEGMENTS ->
  current_segment_index_ wk = zlen fs -> Forall2 (clean_segment crc32c) fs ess -> in_width 32 (last_crc_ wk) ->
  winv (open_segment disk_ok db wk) (length fs) (0, false) (concat ess) (concat ess).
Proof.
  intros Hdisk Hd Hn Hidx Hfs Hcrc. unfold open_segment, segment_path. rewrite Hidx. change (segment_filename db (zlen fs)) with (path_of db (length fs)).
  rewrite (dir_lookup_next db _ fs) by done. cbn [default].
  exists fs, ess, (open_writer disk_ok [] (zlen fs) db), [], []. rewrite !app_nil_r. unfold set_writer.
  cbn [dir current_segment_index_ writer_ last_crc_]. split_and!; try done; [by apply dir_insert|by apply open_new].
Qed.

Lemma place_flushed w flushed es : wstate crc32c w (0, false) flushed es -> has_data_ w = false.
Proof.
  intros (fh & ps & p & es0 & span & b & Hat & _ & _ & _ & _ & _ & _ & _ & Hl). rewrite (at_data _ _ _ Hat).
  unfold lay_of in Hl. injection Hl as Hlen _. apply bool_decide_eq_false. intros Hne. pose proof (zlen_pos _ Hne). lia.
Qed.

Lemma winv_set wk n l flushed es i c : winv wk n l flushed es -> in_width 32 c ->
  winv (Worker (dir wk) i c (current_segment_index_ wk) (writer_ wk)) n l flushed es.
Proof. intros (fs & ess & w & fl & cur & H) Hc. exists fs, ess, w, fl, cur. cbn [dir current_segment_index_ writer_ last_crc_]. naive_solver. Qed.

Lemma winv_prefix wk n l flushed es : winv wk n l flushed es -> flushed `prefix_of` es.
Proof.
  intros (fs & ess & w & fl & cur & _ & _ & _ & _ & _ & Hw & -> & -> & _). apply prefix_app.
  destruct (wstate_read crc32c _ _ _ _ Hw) as (es0 & H1 & H2 & _). by transitivity es0.
Qed.

Lemma run_flush w : run_wop crc32c disk_ok w WFlush = ('(_, w') ← flush crc32c disk_ok w; mret w').
Proof. done. Qed.

(** Writing back the file of the last segment. *)
Lemma winv_write wk fs ess w w' l fl cur n : length fs = n -> current_segment_index_ wk = Z.of_nat n ->
  dir_is db (dir wk) (fs ++ [file w]) -> Forall2 (clean_segment crc32c) fs ess -> in_width 32 (last_crc_ wk) ->
  wstate crc32c w' l fl cur -> winv (set_writer wk (path_of db n) w') n l (concat ess ++ fl) (concat ess ++ cur).
Proof.
  intros <- Hidx Hd Hfs Hcrc Hw. exists fs, ess, w', fl, cur. unfold set_writer. cbn [dir current_segment_index_ writer_ last_crc_].
  split_and!; try done. by eapply dir_replace.
Qed.

(** A full segment is closed with all its records; another is opened. *)
Lemma ensure_writer_inv wk n l flushed es : disk_accepts disk_ok -> winv wk n l flushed es -> Z.of_nat n + 1 < MAX_SEGMENTS ->
  exists wk' n' l' flushed', ensure_writer crc32c disk_ok db max_segment_size wk = Ok wk' /\ winv wk' n' l' flushed' es /\
    flushed `prefix_of` flushed' /\ (n' <= S n)%nat.
Proof.
  intros Hdisk Hinv Hn. pose proof Hinv as (fs & ess & w & fl & cur & Hlen & Hidx & Hwr & Hd & Hfs & Hw & -> & -> & Hcrc).
  unfold ensure_writer. rewrite Hwr. destruct (match dir wk !! path_of db n with Some f => _ | None => _ end).
  2:{ exists wk, n, l, (concat ess ++ fl). split_and!; [done|done|done|lia]. }
  destruct (wstate_flush crc32c disk_ok w l fl cur Hdisk Hw) as (w' & Hflush & Hw'). rewrite run_flush in Hflush.
  destruct (flush crc32c disk_ok w) as [[b w1]|]; [|done]. injection Hflush as ->. cbn [mbind outcome_bind].
  unfold close_writer. rewrite (place_flushed _ _ _ Hw'). cbn [mbind outcome_bind mret outcome_ret].
  pose proof (winv_prefix _ _ _ _ _ Hinv) as Hpre.
  rewrite Hidx, wrap_small by (unfold in_width, MAX_SEGMENTS in *; lia). eexists _, (S n), (0, false), (concat ess ++ cur). split; [reflexivity|].
  split_and!; [|done|lia].
  assert (Hall : concat ess ++ cur = concat (ess ++ [cur])) by (rewrite concat_app; cbn; by rewrite app_nil_r).
  rewrite Hall. replace (S n) with (length (fs ++ [file w'])) by (rewrite length_app; cbn; lia). apply open_segment_inv; try done.
  - cbn [dir]. subst n. by eapply dir_replace.
  - rewrite zlen_app. unfold zlen. cbn. lia.
  - cbn [current_segment_index_]. rewrite zlen_app. unfold zlen. cbn. lia.
  - apply Forall2_app; [done|]. constructor; [|done]. by eapply wstate_clean.
Qed.

(** ** Requests *)

(** A message to the worker: a record with its ids, and the sync mode of a commit. *)
Record request := Request { r_wal : Z; r_txn : Z; r_op : logged; r_mode : wal_sync_mode }.

Definition handle (wk : worker) (r : request) : outcome (Z * worker) :=
  match r_op r with
  | Insert oid c row_start row_count =>
      write_physical_insert crc32c disk_ok db max_segment_size wk oid c row_start row_count (r_txn r) (r_wal r)
  | Delete oid ids => write_physical_delete crc32c disk_ok db max_segment_size wk oid ids (zlen ids) (r_txn r) (r_wal r)
  | Update oid ids c => write_physical_update crc32c disk_ok db max_segment_size wk oid ids c (zlen ids) (r_txn r) (r_wal r)
  | AddColumn oid c n => write_physical_add_column crc32c disk_ok db max_segment_size wk oid c n (r_txn r) (r_wal r)
  | Commit commit_id => commit_txn crc32c disk_ok db max_segment_size wk (r_txn r) (r_mode r) (r_wal r) commit_id
  end.

Fixpoint handle_all (wk : worker) (rs : list request) : outcome worker :=
  match rs with
  | [] => mret wk
  | r :: rs => '(_, wk) ← handle wk r; handle_all wk rs
  end.

(** Requests that write a record, and those that also flush it. *)
Definition written (r : request) : bool := match r_op r, r_mode r with Commit _, OFF => false | _, _ => true end.
Definition synced (r : request) : bool := match r_op r, r_mode r with Commit _, OFF => false | Commit _, _ => true | _, _ => false end.

Definition request_ok (r : request) : Prop := in_width 64 (r_wal r) /\ in_width 64 (r_txn r) /\ logged_ok (r_op r).

(** The record of a request, as it is read back. *)
Definition logged_as (r : request) (e : entry) : Prop :=
  exists last_crc crc, e_rec e = record_of last_crc (r_wal r) (r_txn r) (zlen (e_bytes e)) crc (r_op r).

(** The page a record goes to has room for it or for the start of its only span. *)
Definition place (w : writer) : Z * bool := (current_offset_ w - PAGE_HEADER_SIZE, negb (bool_decide (page_flags_ w = 0))).

Definition fits (wk : worker) (r : request) : bool :=
  match encode crc32c (last_crc_ wk) (r_wal r) (r_txn r) (r_op r) with
  | Ok (b, crc) =>
      match ensure_writer crc32c disk_ok db max_segment_size
              (Worker (dir wk) (r_wal r) crc (current_segment_index_ wk) (writer_ wk)) with
      | Ok wk => match writer_ wk with Some (_, w) => lay_fits (place w) (zlen b) | None => true end
      | Fault _ => true
      end
  | Fault _ => true
  end.

Fixpoint all_fit (wk : worker) (rs : list request) : bool :=
  match rs with
  | [] => true
  | r :: rs => (negb (written r) || fits wk r) && match handle wk r with Ok (_, wk) => all_fit wk rs | Fault _ => true end
  end.

Lemma wstate_place w l flushed es : wstate crc32c w l flushed es -> place w = l.
Proof.
  intros (fh & ps & p & es0 & span & b & Hat & _ & _ & _ & _ & _ & _ & _ & <-). unfold place, lay_of.
  rewrite (at_offset _ _ _ Hat), (at_flags _ _ _ Hat). f_equal. lia.
Qed.

Lemma handle_written wk r : written r = true ->
  handle wk r =
  (wk ← log_record crc32c disk_ok db max_segment_size wk (r_wal r) (fun last_crc => encode crc32c last_crc (r_wal r) (r_txn r) (r_op r));
   if synced r then
     match writer_ wk with
     | Some (path, w) => '(_, w) ← flush crc32c disk_ok w; mret (r_wal r, set_writer wk path w)
     | None => Fault NullDeref
     end
   else mret (r_wal r, wk)).
Proof. destruct r as [wal txn [] []]; done. Qed.

Lemma log_record_inv wk n l flushed es r : disk_accepts disk_ok -> winv wk n l flushed es -> Z.of_nat n + 1 < MAX_SEGMENTS ->
  request_ok r -> fits wk r = true ->
  exists wk' n' l' flushed' e,
    log_record crc32c disk_ok db max_segment_size wk (r_wal r) (fun last_crc => encode crc32c last_crc (r_wal r) (r_txn r) (r_op r)) = Ok wk' /\
    winv wk' n' l' flushed' (es ++ [e]) /\ flushed `prefix_of` flushed' /\ (n' <= S n)%nat /\ logged_as r e.
Proof.
  intros Hdisk Hinv Hn (Hwal & Htxn & Hop) Hfit. pose proof Hinv as (_ & _ & _ & _ & _ & _ & _ & _ & _ & _ & _ & _ & _ & Hcrc).
  destruct (encode_decode crc32c (last_crc_ wk) (r_wal r) (r_txn r) (r_op r) Hcrc Hwal Htxn Hop) as (b & crc & He & Hf & Hd).
  unfold log_record, fits in *. rewrite He in *. cbn [mbind outcome_bind].
  assert (Hcrc' : in_width 32 crc) by (by destruct Hf as (? & _ & _ & ?)).
  destruct (ensure_writer_inv _ _ _ _ _ Hdisk (winv_set _ _ _ _ _ (r_wal r) crc Hinv Hcrc') Hn) as (wk1 & n1 & l1 & fl1 & Hens & Hinv1 & Hpre & Hn1).
  rewrite Hens in *. cbn [mbind outcome_bind].
  destruct Hinv1 as (fs & ess & w & fl & cur & Hlen & Hidx & Hwr & Hdir & Hfs & Hw & -> & -> & Hcrc1). rewrite Hwr in *.
  rewrite (wstate_place _ _ _ _ Hw) in Hfit.
  set (e := Entry b (record_of (last_crc_ wk) (r_wal r) (r_txn r) (zlen b) crc (r_op r))).
  assert (Heok : entry_ok crc32c e) by (by apply (encoded_entry crc32c (last_crc_ wk) (r_wal r) (r_txn r) (r_op r))).
  destruct (wstate_append crc32c disk_ok w l1 fl cur e Hdisk Hw Heok Hfit) as (w' & Hrun & Hw').
  unfold run_wop in Hrun. cbn [e e_bytes e_rec] in Hrun. rewrite record_of_id in Hrun.
  destruct (append crc32c disk_ok w b (r_wal r)) as [[ok w1]|]; [|done]. injection Hrun as ->. cbn [mbind outcome_bind].
  eexists _, n1, _, (concat ess ++ fl), e. split; [reflexivity|]. split_and!; [|done|done|by eexists _, _].
  rewrite <- app_assoc. by eapply winv_write.
Qed.

Lemma handle_inv wk n l flushed es r : disk_accepts disk_ok -> winv wk n l flushed es -> Z.of_nat n + 1 < MAX_SEGMENTS ->
  request_ok r -> negb (written r) || fits wk r = true ->
  exists wk' n' l' flushed' new,
    handle wk r = Ok (r_wal r, wk') /\ winv wk' n' l' flushed' (es ++ new) /\ flushed `prefix_of` flushed' /\ (n' <= S n)%nat /\
    Forall2 logged_as (filter (fun r => written r) [r]) new /\ (synced r = true -> flushed' = es ++ new).
Proof.
  intros Hdisk Hinv Hn Hok Hfit. rewrite (filter_cons (fun r => written r)). destruct (written r) eqn:Hwritten; cbn [negb orb] in Hfit.
  - rewrite decide_True by done. destruct (log_record_inv wk n l flushed es r) as (wk1 & n1 & l1 & fl1 & e & Hlog & Hinv1 & Hpre & Hn1 & He); try done.
    rewrite handle_written by done. rewrite Hlog. cbn [mbind outcome_bind]. destruct (synced r).
    + destruct Hinv1 as (fs & ess & w & fl & cur & Hlen & Hidx & Hwr & Hdir & Hfs & Hw & Hes & -> & Hcrc1). rewrite Hwr.
      destruct (wstate_flush crc32c disk_ok w l1 fl cur Hdisk Hw) as (w' & Hflush & Hw'). rewrite run_flush in Hflush.
      destruct (flush crc32c disk_ok w) as [[b w1]|]; [|done]. injection Hflush as ->. cbn [mbind outcome_bind].
      eexists _, n1, (0, false), (es ++ [e]), [e]. split; [reflexivity|].
      split_and!; [rewrite Hes; by eapply winv_write| |done|by repeat constructor|done]. etrans; [done|]. rewrite Hes. apply prefix_app.
      destruct (wstate_read crc32c _ _ _ _ Hw) as (es0 & H1 & H2 & _). by transitivity es0.
    + exists wk1, n1, l1, fl1, [e]. split_and!; try done. by repeat constructor.
  - rewrite decide_False by (by intros ?). destruct r as [wal txn [] []]; try done. cbn in Hok.
    eexists _, n, l, flushed, []. split; [reflexivity|]. rewrite app_nil_r. split_and!; [|done|lia|constructor|done].
    apply winv_set; [done|]. apply compute_crc_width.
Qed.

Lemma handle_all_inv rs : forall wk n l flushed es, disk_accepts disk_ok -> winv wk n l flushed es ->
  Z.of_nat n + zlen rs < MAX_SEGMENTS -> Forall request_ok rs -> all_fit wk rs = true ->
  exists wk' n' l' flushed' new,
    handle_all wk rs = Ok wk' /\ winv wk' n' l' flushed' (es ++ new) /\ flushed `prefix_of` flushed' /\
    Z.of_nat n' <= Z.of_nat n + zlen rs /\ Forall2 logged_as (filter (fun r => written r) rs) new.
Proof.
  induction rs as [|r rs IH]; intros wk n l flushed es Hdisk Hinv Hn Hok Hfit.
  { exists wk, n, l, flushed, []. rewrite app_nil_r. split_and!; try done. unfold zlen; cbn; lia. }
  apply Forall_cons in Hok as [Hr Hok]. cbn [all_fit] in Hfit. apply andb_true_iff in Hfit as [Hfit Hrest].
  rewrite zlen_cons in *. pose proof (zlen_nonneg rs).
  destruct (handle_inv wk n l flushed es r) as (wk1 & n1 & l1 & fl1 & new1 & Hrun & Hinv1 & Hpre1 & Hn1 & Hnew1 & _); try done; [lia|].
  rewrite Hrun in Hrest. destruct (IH wk1 n1 l1 fl1 (es ++ new1)) as (wk' & n' & l' & fl' & new & Hrun' & Hinv' & Hpre' & Hn' & Hnew); try done; [lia|].
  exists wk', n', l', fl', (new1 ++ new). cbn [handle_all]. rewrite Hrun. cbn [mbind outcome_bind]. rewrite app_assoc.
  split_and!; [done|done|by transitivity fl1|lia|]. change (r :: rs) with ([r] ++ rs). rewrite filter_app. by apply Forall2_app.
Qed.

Lemma handle_all_app wk rs1 rs2 : handle_all wk (rs1 ++ rs2) = (wk ← handle_all wk rs1; handle_all wk rs2).
Proof.
  revert wk. induction rs1 as [|r rs1 IH]; intros wk; [done|]. cbn [app handle_all].
  destruct (handle wk r) as [[x wk1]|]; [|done]. cbn [mbind outcome_bind]. apply IH.
Qed.

Lemma all_fit_app rs1 : forall wk rs2, all_fit wk (rs1 ++ rs2) = true ->
  all_fit wk rs1 = true /\ forall wk1, handle_all wk rs1 = Ok wk1 -> all_fit wk1 rs2 = true.
Proof.
  induction rs1 as [|r rs1 IH]; intros wk rs2 H.
  { split; [done|]. by intros wk1 [= <-]. }
  cbn [app all_fit handle_all] in *. apply andb_true_iff in H as [-> H]. destruct (handle wk r) as [[x wk1]|]; [|done].
  cbn [mbind outcome_bind]. by apply IH.
Qed.

Lemma winv_reads wk n l flushed es : winv wk n l flushed es ->
  exists es0, flushed `prefix_of` es0 /\ es0 `prefix_of` es /\
    forall after_id, read_database_segments crc32c (dir wk) after_id = Ok (recovered after_id es0, committed_txns (kept after_id es0)).
Proof.
  intros (fs & ess & w & fl & cur & Hlen & Hidx & Hwr & Hdir & Hfs & Hw & -> & -> & Hcrc).
  destruct (wstate_reads _ _ _ _ Hw) as (es0 & H1 & H2 & Hr). exists (concat ess ++ es0). split_and!; [by apply prefix_app..|].
  intros after_id. assert (Hall : concat ess ++ es0 = concat (ess ++ [es0])) by (rewrite concat_app; cbn; by rewrite app_nil_r).
  rewrite Hall. apply (read_database_ok _ _ _ _ Hdir). apply Forall2_app; [|by repeat constructor; apply Hr].
  eapply Forall2_impl; [exact Hfs|]. intros f es Hf. by apply clean_reads.
Qed.

(** ** Startup *)

Lemma decode_crc_width b r : decode_record crc32c b = Ok r -> is_valid r = true -> in_width 32 (crc32 r).
Proof.
  unfold decode_record, decode_body. intros H Hv.
  repeat match type of H with
  | (mbind _ ?e) = _ => destruct e as [?|]; [cbn [mbind outcome_bind] in H|done]
  | (if ?c then _ else _) = _ => destruct c
  | (let '(_, _) := ?c in _) = _ => destruct c as [[? ?] ?]
  end; injection H as <-; try apply compute_crc_width; unfold is_valid in Hv; cbn in Hv; by rewrite ?andb_false_r in Hv.
Qed.

Lemma latest_app acc rs1 rs2 : latest acc (rs1 ++ rs2) = latest (latest acc rs1) rs2.
Proof. apply foldl_app. Qed.

(** The highest id, and the checksum that goes with it. *)
Lemma latest_spec rs : forall acc, let a := latest acc rs in
  acc.1 <= a.1 /\ Forall (fun r => is_valid r = true -> id r <= a.1) rs /\
  (a = acc \/ exists r, r ∈ rs /\ is_valid r = true /\ id r = a.1 /\ crc32 r = a.2).
Proof.
  induction rs as [|r rs IH]; intros acc a; [split_and!; [done|done|by left]|].
  set (acc' := if is_valid r && bool_decide (acc.1 < id r) then (id r, crc32 r) else acc). subst a. change (latest acc (r :: rs)) with (latest acc' rs).
  destruct (IH acc') as (H1 & H2 & H3).
  assert (Hacc : acc.1 <= acc'.1 /\ (is_valid r = true -> id r <= acc'.1) /\ (acc' = acc \/ is_valid r = true /\ acc' = (id r, crc32 r))).
  { subst acc'. destruct (is_valid r); cbn [andb]; [|by split_and!; [done|done|left]]. case_bool_decide; cbn [fst]; split_and!; auto; lia. }
  destruct Hacc as (Ha & Hb & Hc). split_and!; [lia| |].
  - constructor; [|done]. intros Hv. specialize (Hb Hv). lia.
  - destruct H3 as [-> | (r' & Hr' & H3)]; [|right; exists r'; split; [by right|done]].
    destruct Hc as [-> | [Hv ->]]; [by left|]. right. exists r. split; [by left|done].
Qed.

Definition higher_index (m : Z) (p : bytes) : Z :=
  let seg_idx := parse_segment_index db p in
  if negb (bool_decide (seg_idx = UINT32_MAX)) && bool_decide (m < seg_idx) then seg_idx else m.

Lemma recover_segments_ok (d : gmap bytes bytes) (ps : list bytes) (ess : list (list entry)) : forall acc m,
  Forall2 segment_reads ((fun p => default [] (d !! p)) <$> ps) ess ->
  recover_segments crc32c db d ps acc m = Ok (latest acc (kept 0 (concat ess)), foldl higher_index m ps).
Proof.
  revert ess. induction ps as [|p ps IH]; intros ess acc m Hr; [by apply Forall2_nil_inv_l in Hr as ->|].
  rewrite fmap_cons in Hr. apply Forall2_cons_inv_l in Hr as (es & ess' & [Hchain Hread] & Hr & ->).
  cbn [recover_segments]. rewrite Hchain. cbn [mbind outcome_bind]. rewrite Hread. cbn [mbind outcome_bind].
  rewrite (IH _ _ _ Hr). cbn [concat foldl]. by rewrite kept_app, latest_app.
Qed.

Lemma higher_index_names n : forall k m, m = Z.max 0 (Z.of_nat k - 1) -> Z.of_nat k + Z.of_nat n <= MAX_SEGMENTS ->
  foldl higher_index m (path_of db <$> seq k n) = Z.max 0 (Z.of_nat k + Z.of_nat n - 1).
Proof.
  induction n as [|n IH]; intros k m Hm Hk; [cbn; lia|]. cbn [seq fmap list_fmap foldl]. rewrite (IH (S k)); [lia| |lia].
  unfold higher_index, path_of. rewrite parse_segment_filename by (unfold MAX_SEGMENTS in Hk; lia).
  rewrite (bool_decide_false (Z.of_nat k = UINT32_MAX)) by (unfold UINT32_MAX, MAX_SEGMENTS in *; lia). cbn [negb andb].
  case_bool_decide; lia.
Qed.

Lemma recovered_crc_width es : Forall (entry_ok crc32c) es -> in_width 32 (latest (0, 0) (kept 0 es)).2.
Proof.
  intros Hes. destruct (latest_spec (kept 0 es) (0, 0)) as (_ & _ & [-> | (r & Hr & Hv & _ & <-)]); [by vm_compute|].
  unfold kept in Hr. apply list_elem_of_filter in Hr as [_ Hr]. apply list_elem_of_fmap in Hr as (e & -> & He).
  rewrite Forall_forall in Hes. destruct (Hes e He) as (_ & Hd & _). by eapply decode_crc_width.
Qed.

(** Reopening the last segment. *)
Lemma reopen_inv wk fs ess f es : disk_accepts disk_ok -> dir_is db (dir wk) (fs ++ [f]) -> current_segment_index_ wk = zlen fs ->
  Forall2 (clean_segment crc32c) fs ess -> clean_segment crc32c f es -> in_width 32 (last_crc_ wk) ->
  winv (open_segment disk_ok db wk) (length fs) (0, false) (concat ess ++ es) (concat ess ++ es).
Proof.
  intros Hdisk Hd Hidx Hfs Hf Hcrc. unfold open_segment, segment_path. rewrite Hidx. change (segment_filename db (zlen fs)) with (path_of db (length fs)).
  rewrite (dir_lookup db _ _ _ f Hd) by (by apply list_lookup_middle). cbn [default].
  exists fs, ess, (open_writer disk_ok f (zlen fs) db), es, es. unfold set_writer.
  cbn [dir current_segment_index_ writer_ last_crc_]. split_and!; try done; [by eapply dir_replace|by apply open_clean].
Qed.

Lemma clean_entries fs ess : Forall2 (clean_segment crc32c) fs ess -> Forall (entry_ok crc32c) (concat ess).
Proof. induction 1 as [|f es fs ess (ps & _ & _ & Hes) _ IH]; [done|]. cbn [concat]. by apply Forall_app. Qed.

Lemma new_worker_inv n d es : disk_accepts disk_ok -> clean_dir n d es -> n <= MAX_SEGMENTS ->
  exists wk n', new_worker crc32c disk_ok db max_segment_size d = Ok wk /\ winv wk n' (0, false) es es /\ Z.of_nat n' <= n /\
    (id_ wk, last_crc_ wk) = latest (0, 0) (kept 0 es).
Proof.
  intros Hdisk (fs & ess & Hd & Hfs & -> & ->) Hn. unfold new_worker, recover_from_disk. cbn [dir]. rewrite (discover_names db d fs Hd).
  destruct (decide (fs = [])) as [->|Hne].
  { apply Forall2_nil_inv_l in Hfs as ->. cbn [names length seq fmap list_fmap mbind outcome_bind].
    eexists _, 0%nat. split; [reflexivity|]. split_and!; [|done|done]. by apply (open_segment_inv (Worker d 0 0 0 None) [] []). }
  destruct (exists_last Hne) as (fs1 & [f ->]). apply Forall2_app_inv_l in Hfs as (ess1 & ess2 & Hfs1 & Hf & ->).
  apply Forall2_cons_inv_l in Hf as (es1 & ess3 & Hf & Hnil & ->). apply Forall2_nil_inv_l in Hnil as ->.
  assert (Hr : Forall2 segment_reads (fs1 ++ [f]) (ess1 ++ [es1])).
  { eapply Forall2_impl; [by apply Forall2_app; [|constructor]|]. intros g es Hg. by apply clean_reads. }
  destruct (names db (fs1 ++ [f])) as [|p ps] eqn:Hnames; [by apply (f_equal length) in Hnames; unfold names in Hnames; rewrite length_fmap, length_seq, length_app in Hnames; cbn in Hnames; lia|].
  rewrite <- Hnames. rewrite (recover_segments_ok d _ (ess1 ++ [es1])) by (by rewrite (names_files db)).
  unfold names. rewrite higher_index_names by (done || (unfold zlen in Hn; lia)). cbn [mbind outcome_bind].
  destruct (latest (0, 0) (kept 0 (concat (ess1 ++ [es1])))) as [i c] eqn:Hlatest. cbn [mbind outcome_bind mret outcome_ret].
  eexists _, (length fs1). split; [reflexivity|].
  assert (Hall : concat (ess1 ++ [es1]) = concat ess1 ++ es1) by (rewrite concat_app; cbn; by rewrite app_nil_r).
  split_and!; [|rewrite zlen_app; unfold zlen; cbn; lia|done]. rewrite Hall. apply (reopen_inv _ fs1 ess1 f es1); try done.
  - cbn [current_segment_index_]. rewrite length_app. unfold zlen. cbn. lia.
  - cbn [last_crc_]. replace c with (latest (0, 0) (kept 0 (concat (ess1 ++ [es1])))).2 by (by rewrite Hlatest). apply recovered_crc_width.
    apply (clean_entries (fs1 ++ [f])). by apply Forall2_app; [|constructor].
Qed.

Lemma clean_dir_empty : clean_dir 0 ∅ [].
Proof. exists [], []. split_and!; [apply dir_empty|constructor|done|done]. Qed.

(** Closing the worker leaves complete segments. *)
Lemma destroy_inv wk n l flushed es : disk_accepts disk_ok -> winv wk n l flushed es -> exists d,
  destroy_worker crc32c disk_ok wk = Ok d /\ clean_dir (Z.of_nat n + 1) d es.
Proof.
  intros Hdisk (fs & ess & w & fl & cur & Hlen & Hidx & Hwr & Hdir & Hfs & Hw & -> & -> & Hcrc).
  destruct (wstate_flush crc32c disk_ok w l fl cur Hdisk Hw) as (w' & Hflush & Hw'). rewrite run_flush in Hflush.
  assert (Hclose : close_writer crc32c disk_ok w = Ok w') by (unfold close_writer, flush in *; by destruct (has_data_ w)).
  unfold destroy_worker. rewrite Hwr, Hclose. cbn [mbind outcome_bind]. eexists. split; [reflexivity|].
  exists (fs ++ [file w']), (ess ++ [cur]). split_and!.
  - subst n. by eapply dir_replace.
  - apply Forall2_app; [done|]. constructor; [by eapply wstate_clean|done].
  - rewrite concat_app. cbn. by rewrite app_nil_r.
  - rewrite zlen_app. unfold zlen. cbn. lia.
Qed.
#[global] Instance id_le_trans : Transitive id_le.
Proof. intros a b c. unfold id_le. lia. Qed.

#[global] Instance id_le_total : Total id_le.
Proof. intros a b. unfold id_le. lia. Qed.

Lemma load_inv wk n l flushed es after_id : disk_accepts disk_ok -> winv wk n l flushed es ->
  exists wk', load crc32c disk_ok db wk after_id = Ok (sort_by_id (recovered after_id es), wk').
Proof.
  intros Hdisk (fs & ess & w & fl & cur & Hlen & Hidx & Hwr & Hdir & Hfs & Hw & -> & -> & Hcrc).
  destruct (wstate_flush crc32c disk_ok w l fl cur Hdisk Hw) as (w' & Hflush & Hw'). rewrite run_flush in Hflush.
  unfold load, flush_current. rewrite Hwr. destruct (flush crc32c disk_ok w) as [[b w1]|]; [|done]. injection Hflush as ->.
  cbn [mbind outcome_bind mret outcome_ret set_writer dir].
  assert (Hdir' : dir_is db (<[path_of db n := file w']> (dir wk)) (fs ++ [file w'])) by (subst n; by eapply dir_replace).
  rewrite (discover_names db _ _ Hdir'). rewrite (read_mapM_ok _ after_id _ (ess ++ [cur])).
  - cbn [mbind outcome_bind]. rewrite concat_kept, concat_app. cbn [concat]. rewrite app_nil_r. by eexists.
  - rewrite (names_files db _ _ Hdir'). apply Forall2_app; [|constructor; [apply clean_reads; by eapply wstate_clean|done]].
    eapply Forall2_impl; [exact Hfs|]. intros f es Hf. by apply clean_reads.
Qed.

End recovery.

(** ** Theorems *)

Section serving.
Context `{Codec : ChunkCodec} (crc32c : bytes -> Z) (disk_ok : Z -> bool).
Variables (db : bytes) (max_segment_size : Z).

(** A worker started on a directory and given requests. *)
Definition serve (d : gmap bytes bytes) (rs : list request) : outcome worker :=
  wk ← new_worker crc32c disk_ok db max_segment_size d;
  handle_all crc32c disk_ok db max_segment_size wk rs.

Definition serve_fits (d : gmap bytes bytes) (rs : list request) : bool :=
  match new_worker crc32c disk_ok db max_segment_size d with
  | Ok wk => all_fit crc32c disk_ok db max_segment_size wk rs
  | Fault _ => true
  end.

End serving.

Section replay.
Context `{Codec : ChunkCodec} (crc32c : bytes -> Z).

(** [x] is a record of the log [es] after [after_id], of a transaction with a commit
    record after [after_id], or of transaction 0. *)
Definition replayed (after_id : Z) (es : list entry) (x : record_t) : Prop :=
  (exists e, e ∈ es /\ x = e_rec e) /\ after_id < id x /\
  (transaction_id x = 0 \/
   exists c, c ∈ es /\ is_commit_marker (e_rec c) = true /\ after_id < id (e_rec c) /\ transaction_id (e_rec c) = transaction_id x).

Lemma elem_of_kept after_id es x : x ∈ kept after_id es <-> (exists e, e ∈ es /\ x = e_rec e) /\ after_id < id x.
Proof. unfold kept. rewrite list_elem_of_filter, list_elem_of_fmap. naive_solver. Qed.

Lemma elem_of_committed (rs : list record_t) t :
  t ∈ committed_txns rs <-> exists c, c ∈ rs /\ is_commit_marker c = true /\ is_valid c = true /\ transaction_id c = t.
Proof.
  unfold committed_txns. rewrite elem_of_list_to_set, list_elem_of_fmap. split.
  - intros (c & -> & [[Hm Hv]%Is_true_true%andb_true_iff Hc]%list_elem_of_filter). by exists c.
  - intros (c & Hc & Hm & Hv & <-). exists c. split; [done|]. apply list_elem_of_filter. by rewrite Hm, Hv.
Qed.

Lemma recovered_replayed after_id es x : Forall (entry_ok crc32c) es -> x ∈ recovered after_id es <-> replayed after_id es x.
Proof.
  intros Hes. unfold recovered, committed_only, replayed. rewrite list_elem_of_filter, Is_true_true, andb_true_iff, orb_true_iff, !bool_decide_eq_true.
  rewrite elem_of_kept, elem_of_committed. setoid_rewrite elem_of_kept.
  assert (Hv : forall e, e ∈ es -> is_valid (e_rec e) = true) by (intros e He; rewrite Forall_forall in Hes; by destruct (Hes e He) as (_ & _ & ? & _)).
  split.
  - intros [[_ Hc] [He Ha]]. split_and!; [done|done|]. destruct Hc as [?|(c & ((e & He' & ->) & Hid) & Hm & _ & Ht)]; [by left|]. right. by exists e.
  - intros ((e & He & ->) & Ha & Hc). split_and!; [by apply Hv| |by exists e|done].
    destruct Hc as [?|(c & Hc & Hm & Hid & Ht)]; [by left|]. right. exists (e_rec c). split_and!; [by exists c|done|done|by apply Hv|done].
Qed.

Lemma recovered_sublist after_id es : recovered after_id es `sublist_of` e_rec <$> es.
Proof. unfold recovered, committed_only, kept. etrans; apply sublist_filter. Qed.

Lemma winv_entries db wk n l flushed es : winv crc32c db wk n l flushed es -> Forall (entry_ok crc32c) es.
Proof.
  intros (fs & ess & w & fl & cur & _ & _ & _ & _ & Hfs & Hw & -> & _). apply Forall_app. split; [by eapply clean_entries|].
  by destruct Hw as (fh & ps & p & es0 & span & b & _ & _ & _ & _ & Hes & _).
Qed.
End replay.




(** ** Examples *)

#[local] Ltac small := solve [unfold in_width, in_signed64; lia].

(** A transaction with a delete and an insert, committed; another one left open. *)
Definition ex_requests : list (@request data_chunk_codec) :=
  [Request 1 7 (Delete 4 [3; 5]) OFF; Request 2 7 (Insert 4 (ex_chunk : @chunk data_chunk_codec) 10 3) OFF].
Definition ex_commit : @request data_chunk_codec := Request 3 7 (Commit 2) FULL.
Definition ex_later : list (@request data_chunk_codec) := [Request 4 8 (Delete 4 [1]) OFF].

Lemma ex_requests_ok : Forall request_ok (ex_requests ++ ex_commit :: ex_later).
Proof.
  unfold ex_requests, ex_commit, ex_later. cbn [app].
  repeat (apply Forall_cons; split; [split; [cbn; small|]; split; [cbn; small|]; cbn [r_op]|]); try done.
  - apply delete_ok_ex; [small| |by vm_compute]. by repeat (constructor; [small|]).
  - split; [small|]. split; [by apply ex_chunk_fits|]. split; small.
  - apply delete_ok_ex; [small| |by vm_compute]. by repeat (constructor; [small|]).
Qed.




(** ** Behaviours outside the theorems *)

(** The ids that recovery finds after a run. *)
Definition recovered_ids (o : outcome (@worker)) : outcome (list Z) :=
  wk ← o;
  '(rs, _) ← read_database_segments (Codec := data_chunk_codec) sum_crc (dir wk) 0;
  mret (map id rs).

(** A disk that refuses the data pages: the commit is answered all the same and is lost. *)
Theorem commit_answered_without_write :
  recovered_ids (serve sum_crc (fun off => bool_decide (off < 4096)) [Byte.x34] 8192 ∅ (ex_requests ++ [ex_commit])) = Ok [].
Proof. by vm_compute. Qed.

(** A page damaged before startup: recovery warns that it truncates the segment, but the
    worker appends behind the damage, and a commit answered after that is not recovered. *)
Definition damaged_dir : gmap bytes bytes :=
  match serve sum_crc (fun _ => true) [Byte.x34] 8192 ∅ (ex_requests ++ [ex_commit]) with
  | Ok wk => (fun f => <[4200%nat := Byte.xff]> f) <$> dir wk
  | Fault _ => ∅
  end.

Theorem commit_lost_behind_damage :
  recovered_ids (serve sum_crc (fun _ => true) [Byte.x34] 8192 damaged_dir [Request 4 8 (Delete 4 [1]) OFF; Request 5 8 (Commit 3) FULL]) = Ok [].
Proof. by vm_compute. Qed.

(** The names of segments from one million on do not sort by index. *)
Theorem segment_names_out_of_order : lex_leb (segment_filename [Byte.x34] 1000000) (segment_filename [Byte.x34] 100001) = true.
Proof. by vm_compute. Qed.
