(* ===== verification/DiskHashTable.v ===== *)
(** * The hash table on disk

    [services/index/disk_hash_table.cpp]: a linear hash table of 4096-byte pages in two
    files, the buckets' primary pages behind a header page and the overflow pages in a file of
    their own. An entry keeps the reference of an index record (value, segment, offset) and
    the key, or the first bytes of a long key; [load] stands for the installed key loader,
    which reads the full key of a reference ([Ok None] when there is no loader or it fails, a
    fault when it throws).
    [disk_ok] says whether the file system accepts a page. The table's mutex makes every
    operation one step. *)

From S2P Require Import Prelude.
From S2P Require Import Bytes.
From S2P Require Import WalPage.
From coqutil Require Import Byte.
#[local] Open Scope Z_scope.

Module disk_hash_table.

Definition page_size : Z := 4096.
Definition inline_key_limit : Z := 64.
Definition truncated_prefix_len : Z := 32.
Definition slot_flag_free : Z := 0.
Definition slot_flag_used : Z := 1.
Definition entry_flag_truncated : Z := 1.
Definition page_header_size : Z := 12.
Definition slot_size : Z := 9.
Definition overflow_page_id_base : Z := 2 ^ 40.

Record value_ref_t := ValueRef { value : Z; log_file_id : Z; log_offset : Z; key_truncated : bool }.

Record slot_t := Slot { offset : Z; length_ : Z; flags : Z; key_hash : Z }.

Record decoded_entry_t := Decoded {
  stored_key : bytes;
  full_key_len : Z;
  entry_flags : Z;
  e_value : Z;
  e_log_file_id : Z;
  e_log_offset : Z;
}.

Record header_t := Header {
  page_size_value : Z;
  bucket_count_value : Z;
  next_overflow_page : Z;
  level_value : Z;
  split_bucket_value : Z;
  hash_seed_value : Z;
}.

(** The table: its two files and what it keeps in memory. *)
Record t := Table {
  file_ : bytes;
  ovf_file_ : bytes;
  header_ : header_t;
  entry_count_ : Z;
  rehash_in_progress_ : bool;
  suppress_auto_rehash_ : bool;
}.

Definition with_header (tb : t) (h : header_t) : t :=
  Table (file_ tb) (ovf_file_ tb) h (entry_count_ tb) (rehash_in_progress_ tb) (suppress_auto_rehash_ tb).
Definition with_count (tb : t) (n : Z) : t :=
  Table (file_ tb) (ovf_file_ tb) (header_ tb) n (rehash_in_progress_ tb) (suppress_auto_rehash_ tb).
Definition with_rehash (tb : t) (b : bool) : t :=
  Table (file_ tb) (ovf_file_ tb) (header_ tb) (entry_count_ tb) b (suppress_auto_rehash_ tb).

(** ** Hashing *)

Definition fnv1a_32_seeded (s : bytes) (seed : Z) : Z :=
  foldl (fun h c => u32 (Z.lxor h (byte.unsigned c) * 16777619)) (Z.lxor 2166136261 seed) s.

Definition hash_key (tb : t) (key : bytes) : Z := fnv1a_32_seeded key (hash_seed_value (header_ tb)).

Definition bucket_id_for_hash (h : header_t) (key_hash : Z) : outcome Z :=
  if bool_decide (bucket_count_value h = 0) then mret 0
  else if bool_decide (31 < level_value h) then Fault (Throw 4)
  else
    let base := 2 ^ level_value h in
    let bucket := key_hash mod base in
    mret (if bool_decide (bucket < split_bucket_value h) then key_hash mod (2 * base) else bucket).

Definition slot_belongs_to_bucket_unlocked (h : header_t) (key_hash bucket_id : Z) : outcome bool :=
  b ← bucket_id_for_hash h key_hash; mret (bool_decide (b = bucket_id)).

(** The doubling loop; a 32-bit [base] doubles at most 31 times. *)
Fixpoint linear_level (fuel : nat) (bucket_count base level : Z) : Z * Z :=
  match fuel with
  | O => (base, level)
  | S fuel =>
      if negb (bool_decide (u32 (2 * base) = 0)) && bool_decide (u32 (2 * base) <= bucket_count)
      then linear_level fuel bucket_count (u32 (2 * base)) (level + 1)
      else (base, level)
  end.

Definition initialize_linear_state_from_bucket_count (h : header_t) : outcome header_t :=
  if bool_decide (bucket_count_value h = 0) then Fault (Throw 5)
  else
    let '(base, level) := linear_level 32 (bucket_count_value h) 1 0 in
    mret (Header (page_size_value h) (bucket_count_value h) (next_overflow_page h) level (bucket_count_value h - base)
            (hash_seed_value h)).

(** ** Pages *)

Definition is_overflow_page_id (page_id : Z) : bool := bool_decide (overflow_page_id_base <= page_id).
Definition main_page_count (tb : t) : Z := zlen (file_ tb) / page_size.
Definition overflow_page_count (tb : t) : Z := zlen (ovf_file_ tb) / page_size.
Definition bucket_primary_page_id (bucket_id : Z) : Z := u32 (1 + bucket_id).

Definition read_page (tb : t) (page_id : Z) : outcome bytes :=
  if is_overflow_page_id page_id then
    let physical := page_id - overflow_page_id_base in
    if bool_decide (overflow_page_count tb <= physical) then Fault (Throw 6)
    else read_bytes (ovf_file_ tb) (physical * page_size) page_size
  else if bool_decide (main_page_count tb <= page_id) then Fault (Throw 7)
  else read_bytes (file_ tb) (page_id * page_size) page_size.

Definition page_count (page : bytes) : outcome Z := read_le 2 page 0.
Definition page_free_offset (page : bytes) : outcome Z := read_le 2 page 2.
Definition page_overflow (page : bytes) : outcome Z := read_le 8 page 4.
Definition set_page_count (page : bytes) (v : Z) : outcome bytes := blit page 0 (write_le 2 v).
Definition set_page_free_offset (page : bytes) (v : Z) : outcome bytes := blit page 2 (write_le 2 v).
Definition set_page_overflow (page : bytes) (v : Z) : outcome bytes := blit page 4 (write_le 8 v).

Definition init_empty_page : outcome bytes :=
  page ← set_page_count (zeros page_size) 0;
  page ← set_page_free_offset page page_header_size;
  set_page_overflow page 0.

Definition slot_dir_offset (slot_index : Z) : Z := u16 (page_size - slot_size * (slot_index + 1)).

Definition read_slot (page : bytes) (slot_index : Z) : outcome slot_t :=
  let off := slot_dir_offset slot_index in
  o ← read_le 2 page off;
  l ← read_le 2 page (off + 2);
  f ← read_le 1 page (off + 4);
  h ← read_le 4 page (off + 5);
  mret (Slot o l f h).

Definition write_slot (page : bytes) (slot_index : Z) (s : slot_t) : outcome bytes :=
  let off := slot_dir_offset slot_index in
  page ← blit page off (write_le 2 (offset s));
  page ← blit page (off + 2) (write_le 2 (length_ s));
  page ← blit page (off + 4) (write_le 1 (flags s));
  blit page (off + 5) (write_le 4 (key_hash s)).

(** ** Entries *)

Definition make_entry_payload (key : bytes) (v fid off : Z) : bytes :=
  let truncated := bool_decide (inline_key_limit < zlen key) in
  let stored_len := u16 (if truncated then Z.min truncated_prefix_len (zlen key) else zlen key) in
  let full_len := u32 (Z.min (zlen key) UINT32_MAX) in
  write_le 2 stored_len ++ write_le 4 full_len ++ write_le 1 (if truncated then entry_flag_truncated else 0) ++
  take (Z.to_nat stored_len) key ++ write_le 8 v ++ write_le 4 fid ++ write_le 8 off.

Definition decode_entry (page : bytes) (s : slot_t) : outcome decoded_entry_t :=
  if bool_decide (page_size < offset s + length_ s) || bool_decide (length_ s < 2 + 4 + 1 + 8 + 4 + 8) then
    Fault (Throw 8)
  else
    let p := offset s in
    stored_key_len ← read_le 2 page p;
    full_len ← read_le 4 page (p + 2);
    fl ← read_le 1 page (p + 6);
    if bool_decide (length_ s < 7 + stored_key_len + (8 + 4 + 8)) then Fault (Throw 9)
    else
      k ← read_bytes page (p + 7) stored_key_len;
      let vptr := p + 7 + stored_key_len in
      v ← read_le 8 page vptr;
      fid ← read_le 4 page (vptr + 8);
      off ← read_le 8 page (vptr + 12);
      mret (Decoded k full_len fl (s64 v) fid off).

Section table.
Context (disk_ok : Z -> bool).
Variable load : Z -> Z -> outcome (option bytes).

Definition is_truncated (e : decoded_entry_t) : bool := negb (bool_decide (Z.land (entry_flags e) entry_flag_truncated = 0)).

Definition keys_equal (query : bytes) (e : decoded_entry_t) : outcome bool :=
  if negb (is_truncated e) then mret (bool_decide (zlen query = full_key_len e) && bool_decide (query = stored_key e))
  else if bool_decide (zlen query < zlen (stored_key e)) ||
          negb (bool_decide (take (length (stored_key e)) query = stored_key e)) then mret false
  else
    full ← load (e_log_file_id e) (e_log_offset e);
    mret (match full with Some full => bool_decide (full = query) | None => false end).

Definition value_ref (e : decoded_entry_t) : value_ref_t := ValueRef (e_value e) (e_log_file_id e) (e_log_offset e) (is_truncated e).

(** ** Writing pages *)

Definition write_page (tb : t) (page_id : Z) (page : bytes) : outcome t :=
  if negb (bool_decide (zlen page = page_size)) then Fault (Throw 10)
  else if negb (disk_ok page_id) then Fault (Throw 11)
  else if is_overflow_page_id page_id then
    mret (Table (file_ tb) (file_write (ovf_file_ tb) (u64 ((page_id - overflow_page_id_base) * page_size)) page) (header_ tb)
            (entry_count_ tb) (rehash_in_progress_ tb) (suppress_auto_rehash_ tb))
  else
    mret (Table (file_write (file_ tb) (page_id * page_size) page) (ovf_file_ tb) (header_ tb)
            (entry_count_ tb) (rehash_in_progress_ tb) (suppress_auto_rehash_ tb)).

Definition header_page (h : header_t) : bytes :=
  zeros 12 ++ write_le 4 (page_size_value h) ++ write_le 4 (bucket_count_value h) ++ write_le 8 (next_overflow_page h) ++
  write_le 4 (level_value h) ++ write_le 4 (split_bucket_value h) ++ write_le 4 (hash_seed_value h) ++ zeros (page_size - 40).

Definition persist_header (tb : t) : outcome t :=
  if disk_ok 0 then
    mret (Table (file_write (file_ tb) 0 (header_page (header_ tb))) (ovf_file_ tb) (header_ tb) (entry_count_ tb)
            (rehash_in_progress_ tb) (suppress_auto_rehash_ tb))
  else Fault (Throw 12).

Definition with_next_overflow (h : header_t) (n : Z) : header_t :=
  Header (page_size_value h) (bucket_count_value h) n (level_value h) (split_bucket_value h) (hash_seed_value h).

Definition allocate_overflow_page (tb : t) : outcome (Z * t) :=
  let h := header_ tb in
  let next := if bool_decide (next_overflow_page h < overflow_page_id_base) then overflow_page_id_base else next_overflow_page h in
  page ← init_empty_page;
  tb ← write_page (with_header tb (with_next_overflow h (u64 (next + 1)))) next page;
  mret (next, tb).

(** [None]: no room. *)
Definition try_insert_payload_in_page (page : bytes) (kh : Z) (payload : bytes) : outcome (option bytes) :=
  free_off ← page_free_offset page;
  cnt ← page_count page;
  let dir_start := slot_dir_offset cnt in
  if bool_decide (dir_start + slot_size < free_off + zlen payload + slot_size) then mret None
  else
    page ← blit page free_off payload;
    page ← write_slot page cnt (Slot free_off (u16 (zlen payload)) slot_flag_used kh);
    page ← set_page_count page (u16 (cnt + 1));
    page ← set_page_free_offset page (u16 (free_off + zlen payload));
    mret (Some page).

(** The walk along the chain of a bucket. *)
Fixpoint insert_loop (fuel : nat) (tb : t) (page_id kh : Z) (payload : bytes) : outcome t :=
  match fuel with
  | O => Fault OutOfFuel
  | S fuel =>
      page ← read_page tb page_id;
      r ← try_insert_payload_in_page page kh payload;
      match r with
      | Some page => write_page tb page_id page
      | None =>
          overflow ← page_overflow page;
          if bool_decide (overflow = 0) then
            '(new_page, tb) ← allocate_overflow_page tb;
            page ← set_page_overflow page new_page;
            tb ← write_page tb page_id page;
            insert_loop fuel tb new_page kh payload
          else insert_loop fuel tb overflow kh payload
      end
  end.

(** A chain has its primary page and overflow pages; one page can be added. *)
Definition chain_fuel (tb : t) : nat := Z.to_nat (overflow_page_count tb) + 3.

Definition insert_payload_into_bucket_unlocked (tb : t) (bucket_id kh : Z) (payload : bytes) : outcome t :=
  insert_loop (chain_fuel tb) tb (bucket_primary_page_id bucket_id) kh payload.

(** ** Walking the entries *)

(** The slots of [indices] in use, in order, with [visit] on each: [None] skips the slot. *)
Fixpoint scan_slots {A} (visit : slot_t -> outcome (option A)) (page : bytes) (indices : list Z) : outcome (list A) :=
  match indices with
  | [] => mret []
  | i :: indices =>
      s ← read_slot page i;
      if negb (bool_decide (flags s = slot_flag_used)) || bool_decide (length_ s = 0) then scan_slots visit page indices
      else
        r ← visit s;
        more ← scan_slots visit page indices;
        mret (option_list r ++ more)
  end.

(** The pages of a chain. *)
Fixpoint scan_chain {A} (visit : bytes -> slot_t -> outcome (option A)) (fuel : nat) (tb : t) (page_id : Z) : outcome (list A) :=
  match fuel with
  | O => Fault OutOfFuel
  | S fuel =>
      if bool_decide (page_id = 0) then mret []
      else
        page ← read_page tb page_id;
        cnt ← page_count page;
        found ← scan_slots (visit page) page (seqZ 0 cnt);
        overflow ← page_overflow page;
        more ← scan_chain visit fuel tb overflow;
        mret (found ++ more)
  end.

Definition scan_bucket {A} (visit : bytes -> slot_t -> outcome (option A)) (tb : t) (bucket : Z) : outcome (list A) :=
  scan_chain visit (chain_fuel tb) tb (bucket_primary_page_id bucket).

(** Every bucket in turn. *)
Fixpoint scan_buckets {A} (visit : Z -> bytes -> slot_t -> outcome (option A)) (tb : t) (buckets : list Z) : outcome (list A) :=
  match buckets with
  | [] => mret []
  | b :: buckets =>
      found ← scan_bucket (visit b) tb b;
      more ← scan_buckets visit tb buckets;
      mret (found ++ more)
  end.

(** ** Lookups *)

Definition get_visit (key : bytes) (kh : Z) (page : bytes) (s : slot_t) : outcome (option value_ref_t) :=
  if negb (bool_decide (key_hash s = kh)) then mret None
  else
    e ← decode_entry page s;
    same ← keys_equal key e;
    mret (if same : bool then Some (value_ref e) else None).

Definition get_all (tb : t) (key : bytes) : outcome (list value_ref_t) :=
  let kh := hash_key tb key in
  b ← bucket_id_for_hash (header_ tb) kh;
  scan_bucket (get_visit key kh) tb b.

Definition get (tb : t) (key : bytes) : outcome (option value_ref_t) :=
  all ← get_all tb key; mret (head all).

(** [for_each] hands these to its callback. *)
Definition for_each_visit (h : header_t) (bucket : Z) (page : bytes) (s : slot_t) : outcome (option value_ref_t) :=
  o ← slot_belongs_to_bucket_unlocked h (key_hash s) bucket;
  if negb o then mret None else e ← decode_entry page s; mret (Some (value_ref e)).

Definition for_each (tb : t) : outcome (list value_ref_t) :=
  scan_buckets (for_each_visit (header_ tb)) tb (seqZ 0 (bucket_count_value (header_ tb))).

Definition count_visit (h : header_t) (bucket : Z) (_ : bytes) (s : slot_t) : outcome (option unit) :=
  o ← slot_belongs_to_bucket_unlocked h (key_hash s) bucket; mret (if o : bool then Some tt else None).

Definition count_entries_unlocked (tb : t) : outcome Z :=
  found ← scan_buckets (count_visit (header_ tb)) tb (seqZ 0 (bucket_count_value (header_ tb)));
  mret (u64 (zlen found)).

(** ** Erasing *)

(** [Some] of the page with the first matching slot freed. *)
Fixpoint erase_in_slots (page key : bytes) (kh : Z) (expected : option Z) (indices : list Z) : outcome (option bytes) :=
  match indices with
  | [] => mret None
  | i :: indices =>
      s ← read_slot page i;
      if negb (bool_decide (flags s = slot_flag_used /\ key_hash s = kh /\ length_ s <> 0)) then erase_in_slots page key kh expected indices
      else
        e ← decode_entry page s;
        same ← keys_equal key e;
        if negb same then erase_in_slots page key kh expected indices
        else if match expected with Some v => negb (bool_decide (e_value e = v)) | None => false end then
          erase_in_slots page key kh expected indices
        else
          page ← write_slot page i (Slot (offset s) (length_ s) slot_flag_free (key_hash s));
          mret (Some page)
  end.

Definition try_erase_in_page (page key : bytes) (kh : Z) (expected : option Z) : outcome (option bytes) :=
  cnt ← page_count page; erase_in_slots page key kh expected (seqZ 0 cnt).

Fixpoint erase_loop (fuel : nat) (tb : t) (page_id : Z) (key : bytes) (kh : Z) (expected : option Z) : outcome (bool * t) :=
  match fuel with
  | O => Fault OutOfFuel
  | S fuel =>
      if bool_decide (page_id = 0) then mret (false, tb)
      else
        page ← read_page tb page_id;
        r ← try_erase_in_page page key kh expected;
        match r with
        | Some page =>
            tb ← write_page tb page_id page;
            mret (true, if bool_decide (0 < entry_count_ tb) then with_count tb (entry_count_ tb - 1) else tb)
        | None => overflow ← page_overflow page; erase_loop fuel tb overflow key kh expected
        end
  end.

Definition erase (tb : t) (key : bytes) (expected : option Z) : outcome (bool * t) :=
  let kh := hash_key tb key in
  b ← bucket_id_for_hash (header_ tb) kh;
  erase_loop (chain_fuel tb) tb (bucket_primary_page_id b) key kh expected.

(** ** Growing *)

(** Phase 1 of a split: the entries that move are copied to the new bucket. [page] is the
    buffer the slots are read from. *)
Fixpoint copy_slots (tb : t) (split_bucket new_bucket modulus : Z) (page : bytes) (indices : list Z) : outcome t :=
  match indices with
  | [] => mret tb
  | i :: indices =>
      s ← read_slot page i;
      if negb (bool_decide (flags s = slot_flag_used)) || bool_decide (length_ s = 0) then
        copy_slots tb split_bucket new_bucket modulus page indices
      else
        o ← slot_belongs_to_bucket_unlocked (header_ tb) (key_hash s) split_bucket;
        if negb o || bool_decide (key_hash s mod modulus = split_bucket) then
          copy_slots tb split_bucket new_bucket modulus page indices
        else
          payload ← read_bytes page (offset s) (length_ s);
          tb ← insert_payload_into_bucket_unlocked tb new_bucket (key_hash s) payload;
          copy_slots tb split_bucket new_bucket modulus page indices
  end.

Fixpoint copy_chain (fuel : nat) (tb : t) (split_bucket new_bucket modulus page_id : Z) : outcome t :=
  match fuel with
  | O => Fault OutOfFuel
  | S fuel =>
      if bool_decide (page_id = 0) then mret tb
      else
        page ← read_page tb page_id;
        cnt ← page_count page;
        tb ← copy_slots tb split_bucket new_bucket modulus page (seqZ 0 cnt);
        overflow ← page_overflow page;
        copy_chain fuel tb split_bucket new_bucket modulus overflow
  end.

Definition advance (h : header_t) (base : Z) : header_t :=
  let split := split_bucket_value h + 1 in
  if bool_decide (split = base) then
    Header (page_size_value h) (bucket_count_value h + 1) (next_overflow_page h) (level_value h + 1) 0 (hash_seed_value h)
  else Header (page_size_value h) (bucket_count_value h + 1) (next_overflow_page h) (level_value h) split (hash_seed_value h).

(** Up to the new addressing state in memory: what a crash before the header is written leaves
    is the files of [split_copy]. *)
Definition split_copy (tb : t) (base new_bucket : Z) : outcome t :=
  let split_bucket := split_bucket_value (header_ tb) in
  empty ← init_empty_page;
  tb ← write_page tb (bucket_primary_page_id new_bucket) empty;
  copy_chain (chain_fuel tb) tb split_bucket new_bucket (2 * base) (bucket_primary_page_id split_bucket).

Definition split_one_bucket_unlocked (tb : t) (durable_commit : bool) : outcome (bool * t) :=
  let h := header_ tb in
  if bool_decide (bucket_count_value h = UINT32_MAX) then mret (false, tb)
  else if bool_decide (31 < level_value h) then Fault OutOfBounds
  else
    let base := 2 ^ level_value h in
    if bool_decide (base <= split_bucket_value h) then Fault (Throw 13)
    else
      let new_bucket := u32 (base + split_bucket_value h) in
      if negb (bool_decide (new_bucket = bucket_count_value h)) then Fault (Throw 14)
      else
        tb ← split_copy tb base new_bucket;
        let tb := with_header tb (advance (header_ tb) base) in
        tb ← (if durable_commit then persist_header tb else mret tb);
        mret (true, tb).

Fixpoint split_until (fuel : nat) (tb : t) (target : Z) (durable : bool) (changed : bool) : outcome (bool * t) :=
  match fuel with
  | O => Fault OutOfFuel
  | S fuel =>
      if bool_decide (target <= bucket_count_value (header_ tb)) then mret (changed, tb)
      else
        '(c, tb) ← split_one_bucket_unlocked tb durable;
        split_until fuel tb target durable (c || changed)
  end.

(** Every turn adds a bucket. *)
Definition split_fuel (tb : t) (target : Z) : nat := Z.to_nat (target - bucket_count_value (header_ tb)) + 1.

Definition rehash_unlocked (tb : t) (new_bucket_count : Z) : outcome (bool * t) :=
  if bool_decide (new_bucket_count = 0) then Fault (Throw 15)
  else if bool_decide (new_bucket_count <= bucket_count_value (header_ tb)) then mret (false, tb)
  else
    '(changed, tb) ← split_until (split_fuel tb new_bucket_count) (with_rehash tb true) new_bucket_count true false;
    mret (changed, with_rehash tb false).

(** The load factor is compared as [entries / buckets > 0.75]; the target is [entries / 0.45]
    rounded down. The quotients are of integers below 2^40, for which the double results agree
    with the exact ones. *)
Definition needs_rehash (tb : t) : bool := bool_decide (3 * bucket_count_value (header_ tb) < 4 * entry_count_ tb).
Definition target_buckets (tb : t) : Z := Z.min UINT32_MAX (entry_count_ tb * 20 / 9).

Definition maybe_rehash_if_needed_unlocked (tb : t) : outcome (bool * t) :=
  if rehash_in_progress_ tb || bool_decide (bucket_count_value (header_ tb) = 0) || suppress_auto_rehash_ tb ||
     bool_decide (bucket_count_value (header_ tb) = UINT32_MAX) || negb (needs_rehash tb) then mret (false, tb)
  else
    '(changed, tb) ← split_until (split_fuel tb (target_buckets tb)) tb (target_buckets tb) false false;
    if changed : bool then tb ← persist_header tb; mret (true, tb) else mret (false, tb).

Definition trigger_rehash_if_needed (tb : t) : outcome (bool * t) := maybe_rehash_if_needed_unlocked tb.

Definition set_auto_rehash_suppressed (tb : t) (suppressed : bool) : bool * t :=
  (suppress_auto_rehash_ tb,
   Table (file_ tb) (ovf_file_ tb) (header_ tb) (entry_count_ tb) (rehash_in_progress_ tb) suppressed).

(** ** Insertion *)

Definition put (tb : t) (key : bytes) (v fid off : Z) : outcome (bool * t) :=
  let kh := hash_key tb key in
  b ← bucket_id_for_hash (header_ tb) kh;
  tb ← insert_payload_into_bucket_unlocked tb b kh (make_entry_payload key v fid off);
  '(_, tb) ← maybe_rehash_if_needed_unlocked (with_count tb (u64 (entry_count_ tb + 1)));
  mret (true, tb).

(** ** Opening and closing *)

Fixpoint init_buckets (tb : t) (page : bytes) (buckets : list Z) : outcome t :=
  match buckets with
  | [] => mret tb
  | b :: buckets => tb ← write_page tb (bucket_primary_page_id b) page; init_buckets tb page buckets
  end.

(** [seed] is what [generate_hash_seed] draws. *)
Definition initialize_new_file (tb : t) (seed : Z) : outcome t :=
  let h := header_ tb in
  h ← initialize_linear_state_from_bucket_count
        (Header page_size (bucket_count_value h) overflow_page_id_base (level_value h) (split_bucket_value h) seed);
  tb ← persist_header (with_header tb h);
  page ← init_empty_page;
  tb ← init_buckets tb page (seqZ 0 (bucket_count_value h));
  mret (with_count tb 0).

Definition load_header (f : bytes) : outcome header_t :=
  if bool_decide (zlen f < page_size) then Fault (Throw 16)
  else
    ps ← read_le 4 f 12;
    bc ← read_le 4 f 16;
    no ← read_le 8 f 20;
    lv ← read_le 4 f 28;
    sb ← read_le 4 f 32;
    seed ← read_le 4 f 36;
    mret (Header ps bc no lv sb seed).

Definition load_existing_file (tb : t) : outcome t :=
  h ← load_header (file_ tb);
  if negb (bool_decide (page_size_value h = page_size)) || bool_decide (bucket_count_value h = 0) then Fault (Throw 17)
  else
    let base := if bool_decide (31 < level_value h) then 0 else 2 ^ level_value h in
    h ← (if bool_decide (base = 0) || bool_decide (bucket_count_value h < base) || bool_decide (base < split_bucket_value h) ||
            negb (bool_decide (u32 (base + split_bucket_value h) = bucket_count_value h))
         then initialize_linear_state_from_bucket_count h else mret h);
    mret (with_header tb
            (if bool_decide (next_overflow_page h < overflow_page_id_base) then with_next_overflow h overflow_page_id_base else h)).

Definition open_or_create (tb : t) (seed : Z) : outcome t :=
  if bool_decide (zlen (file_ tb) = 0) then initialize_new_file tb seed
  else
    tb ← load_existing_file tb;
    n ← count_entries_unlocked tb;
    mret (with_count tb n).

(** The constructor on the files [f] and [ovf]. *)
Definition new (f ovf : bytes) (bucket_count seed : Z) : outcome t :=
  if bool_decide (bucket_count = 0) then Fault (Throw 18)
  else open_or_create (Table f ovf (Header page_size bucket_count 0 0 0 0) 0 false false) seed.

(** The destructor leaves the files. *)
Definition close (tb : t) : outcome (bytes * bytes) :=
  tb ← persist_header tb; mret (file_ tb, ovf_file_ tb).

Definition default_bucket_count : Z := 1024.

Definition clear (tb : t) (seed : Z) : outcome t :=
  let bucket_count := if bool_decide (0 < bucket_count_value (header_ tb)) then bucket_count_value (header_ tb) else default_bucket_count in
  open_or_create (Table [] [] (Header page_size bucket_count 0 0 0 0) 0 false false) seed.

End table.
End disk_hash_table.
