(* ===== verification/DiskHashPage.v ===== *)
(** * Pages of the hash table

    The bytes of a page and the entries they stand for: [image] is the page with given
    entries and overflow link, and every page operation of [DiskHashTable] is shown to compute
    on images what it should on the entries. An entry keeps the full key it was put with, of
    which the page holds the first bytes when it is long. *)

From S2P Require Import Prelude.
From S2P Require Import Bytes.
From S2P Require Import DiskHashTable.
From coqutil Require Import Byte Word.LittleEndianList.
Import disk_hash_table.
#[local] Open Scope Z_scope.

Record ref := Ref { r_key : bytes; r_value : Z; r_file : Z; r_off : Z }.

#[global] Instance ref_eq_dec : EqDecision ref.
Proof. solve_decision. Defined.

Record ref_ok (r : ref) : Prop := {
  ref_key_ok : zlen (r_key r) < 2 ^ 32;
  ref_value_ok : in_signed64 (r_value r);
  ref_file_ok : in_width 32 (r_file r);
  ref_off_ok : in_width 64 (r_off r);
}.

(** A slot of a page: an entry, in use or freed. *)
Record cell := Cell { used : bool; c_ref : ref }.

Definition payload_of (r : ref) : bytes := make_entry_payload (r_key r) (r_value r) (r_file r) (r_off r).

Definition payloads (cs : list cell) : bytes := cs ≫= (fun c => payload_of (c_ref c)).

Definition is_long (r : ref) : bool := bool_decide (inline_key_limit < zlen (r_key r)).

Definition stored_prefix (r : ref) : bytes := if is_long r then take 32 (r_key r) else r_key r.

Definition decoded (r : ref) : decoded_entry_t :=
  Decoded (stored_prefix r) (zlen (r_key r)) (if is_long r then 1 else 0) (r_value r) (r_file r) (r_off r).

(** ** Hashes *)

Lemma lxor_width w a b : 0 <= w -> in_width w a -> in_width w b -> in_width w (Z.lxor a b).
Proof.
  intros Hw [Ha1 Ha2] [Hb1 Hb2]. assert (0 <= Z.lxor a b) by (apply Z.lxor_nonneg; lia). split; [done|].
  destruct (decide (Z.lxor a b = 0)) as [->|]; [lia|].
  apply Z.log2_lt_pow2; [lia|]. eapply Z.le_lt_trans; [by apply Z.log2_lxor|].
  destruct (decide (w = 0)) as [->|]; [assert (a = 0 /\ b = 0) as [-> ->] by lia; done|].
  apply Z.max_lub_lt.
  - destruct (decide (a = 0)) as [->|]; [cbn; lia|]. apply Z.log2_lt_pow2; lia.
  - destruct (decide (b = 0)) as [->|]; [cbn; lia|]. apply Z.log2_lt_pow2; lia.
Qed.

Lemma fnv1a_width s seed : in_width 32 seed -> in_width 32 (fnv1a_32_seeded s seed).
Proof.
  intros Hs. unfold fnv1a_32_seeded.
  assert (H0 : in_width 32 (Z.lxor 2166136261 seed)) by (apply lxor_width; [lia | unfold in_width; lia | done]).
  revert H0. generalize (Z.lxor 2166136261 seed). induction s as [|c s IH]; intros h Hh; [done|].
  cbn [foldl]. apply IH. by apply wrap_width.
Qed.

(** ** Entries *)

Lemma stored_prefix_len r : zlen (stored_prefix r) <= 64.
Proof.
  unfold stored_prefix, is_long, inline_key_limit. case_bool_decide; [|lia]. unfold zlen. rewrite length_take. lia.
Qed.

Lemma payload_of_eq r :
  zlen (r_key r) < 2 ^ 32 ->
  payload_of r = write_le 2 (zlen (stored_prefix r)) ++ write_le 4 (zlen (r_key r)) ++
                 write_le 1 (if is_long r then 1 else 0) ++ stored_prefix r ++
                 write_le 8 (r_value r) ++ write_le 4 (r_file r) ++ write_le 8 (r_off r).
Proof.
  intros Hk. pose proof (zlen_nonneg (r_key r)) as H0. unfold payload_of, make_entry_payload, stored_prefix, is_long.
  cbv zeta. unfold UINT32_MAX. rewrite (Z.min_l (zlen (r_key r)) (2 ^ 32 - 1)) by lia.
  rewrite (wrap_small 32) by (unfold in_width; lia).
  unfold inline_key_limit, truncated_prefix_len, entry_flag_truncated in *. case_bool_decide as E.
  - rewrite Z.min_l by lia. rewrite wrap_small by (unfold in_width; lia).
    assert (zlen (take 32 (r_key r)) = 32) as -> by (unfold zlen in *; rewrite length_take; lia). done.
  - rewrite wrap_small by (unfold in_width; lia). rewrite (take_ge (r_key r)) by (unfold zlen; lia). done.
Qed.

Lemma payload_of_len r : zlen (r_key r) < 2 ^ 32 -> zlen (payload_of r) = 27 + zlen (stored_prefix r).
Proof. intros Hk. rewrite payload_of_eq by done. len. Qed.

Lemma payload_of_bound r : zlen (r_key r) < 2 ^ 32 -> 27 <= zlen (payload_of r) <= 91.
Proof.
  intros Hk. rewrite payload_of_len by done. pose proof (stored_prefix_len r). pose proof (zlen_nonneg (stored_prefix r)). lia.
Qed.

Lemma le_combine_write_mod n v : le_combine (write_le n v) = v mod 2 ^ (8 * Z.of_nat n).
Proof. unfold write_le. by rewrite le_combine_split, Z.mul_comm. Qed.

Lemma read_le_any l a n v c off :
  l = a ++ write_le n v ++ c -> off = zlen a -> read_le n l off = Ok (v mod 2 ^ (8 * Z.of_nat n)).
Proof.
  intros -> ->. unfold read_le. rewrite (read_bytes_mid a (write_le n v) c) by (done || by rewrite zlen_write_le).
  cbn. by rewrite le_combine_write_mod.
Qed.

Lemma read_le_in l a n v c off :
  l = a ++ write_le n v ++ c -> off = zlen a -> 0 <= v < 2 ^ (8 * Z.of_nat n) -> read_le n l off = Ok v.
Proof. intros -> ->. by apply read_le_mid. Qed.

Lemma read_bytes_in l a b c off n : l = a ++ b ++ c -> off = zlen a -> n = zlen b -> read_bytes l off n = Ok b.
Proof. intros ->. by apply read_bytes_mid. Qed.

(** Read the next field, which follows [pre]. *)
Ltac read_after pre :=
  match goal with
  | |- mbind _ (read_le ?n ?l ?off) = _ =>
      erewrite (read_le_in l pre n _ _ off); [| by rewrite <- ?app_assoc | len | cbn; first [assumption | lia]]
  end; cbn [mbind outcome_bind].

(** An entry is read back from the place of its payload. *)
Lemma decode_entry_at a b r fl kh :
  ref_ok r -> zlen (a ++ payload_of r ++ b) = page_size ->
  decode_entry (a ++ payload_of r ++ b) (Slot (zlen a) (zlen (payload_of r)) fl kh) = Ok (decoded r).
Proof.
  intros [Hk Hv Hf Ho] Hlen. pose proof (payload_of_bound r Hk) as Hpb. pose proof (payload_of_len r Hk) as Hpl.
  pose proof (zlen_nonneg b). pose proof (zlen_nonneg a). pose proof (zlen_nonneg (r_key r)). pose proof (zlen_nonneg (stored_prefix r)).
  pose proof (stored_prefix_len r).
  assert (Hbound : zlen a + zlen (payload_of r) <= page_size) by (rewrite !zlen_app in Hlen; lia).
  unfold decode_entry. cbn [offset length_]. rewrite bool_decide_false by lia. rewrite bool_decide_false by lia. cbn [orb].
  rewrite Hpl. rewrite payload_of_eq by done. rewrite <- !app_assoc.
  set (w1 := write_le 2 (zlen (stored_prefix r))). set (w2 := write_le 4 (zlen (r_key r))).
  set (w3 := write_le 1 (if is_long r then 1 else 0)). set (w4 := write_le 8 (r_value r)). set (w5 := write_le 4 (r_file r)).
  assert (Hw : zlen w1 = 2 /\ zlen w2 = 4 /\ zlen w3 = 1 /\ zlen w4 = 8 /\ zlen w5 = 4) by (subst w1 w2 w3 w4 w5; len).
  read_after a. read_after (a ++ w1).
  assert (Hflag : in_width 8 (if is_long r then 1 else 0)) by (destruct (is_long r); unfold in_width; lia).
  read_after (a ++ w1 ++ w2). rewrite bool_decide_false by lia.
  erewrite (read_bytes_in _ (a ++ w1 ++ w2 ++ w3) (stored_prefix r)); [|by rewrite <- ?app_assoc|len|done].
  cbn [mbind outcome_bind].
  erewrite (read_le_any _ (a ++ w1 ++ w2 ++ w3 ++ stored_prefix r) 8 (r_value r) _ (zlen a + 7 + zlen (stored_prefix r)));
    [|by rewrite <- ?app_assoc|len]. cbn [mbind outcome_bind].
  read_after (a ++ w1 ++ w2 ++ w3 ++ stored_prefix r ++ w4).
  read_after (a ++ w1 ++ w2 ++ w3 ++ stored_prefix r ++ w4 ++ w5).
  change (8 * Z.of_nat 8) with 64. by rewrite s64_mod.
Qed.

(** ** Slots *)

Definition slot_bytes (s : slot_t) : bytes :=
  write_le 2 (offset s) ++ write_le 2 (length_ s) ++ write_le 1 (flags s) ++ write_le 4 (key_hash s).

Record slot_ok (s : slot_t) : Prop := {
  slot_offset_ok : in_width 16 (offset s);
  slot_length_ok : in_width 16 (length_ s);
  slot_flags_ok : in_width 8 (flags s);
  slot_hash_ok : in_width 32 (key_hash s);
}.

Lemma zlen_slot_bytes s : zlen (slot_bytes s) = 9.
Proof. unfold slot_bytes. len. Qed.

Lemma read_slot_at l a b i s : l = a ++ slot_bytes s ++ b -> slot_ok s -> slot_dir_offset i = zlen a -> read_slot l i = Ok s.
Proof.
  intros -> [Ho Hl Hf Hh] Hi. unfold read_slot. rewrite Hi. unfold slot_bytes. rewrite <- !app_assoc.
  set (w1 := write_le 2 (offset s)). set (w2 := write_le 2 (length_ s)). set (w3 := write_le 1 (flags s)).
  assert (Hw : zlen w1 = 2 /\ zlen w2 = 2 /\ zlen w3 = 1) by (subst w1 w2 w3; len).
  read_after a. read_after (a ++ w1). read_after (a ++ w1 ++ w2). read_after (a ++ w1 ++ w2 ++ w3). by destruct s.
Qed.

(** Any nine bytes are four fields. *)
Lemma split_fields (b : bytes) :
  zlen b = 9 -> exists b1 b2 b3 b4, b = b1 ++ b2 ++ b3 ++ b4 /\ zlen b1 = 2 /\ zlen b2 = 2 /\ zlen b3 = 1 /\ zlen b4 = 4.
Proof.
  intros Hb. unfold zlen in *. exists (take 2 b), (take 2 (drop 2 b)), (take 1 (drop 4 b)), (drop 5 b).
  split.
  - assert (drop 5 b = drop 1 (drop 4 b)) as -> by (by rewrite drop_drop). rewrite take_drop.
    assert (drop 4 b = drop 2 (drop 2 b)) as -> by (by rewrite drop_drop). by rewrite !take_drop.
  - rewrite !length_take, !length_drop. lia.
Qed.

Lemma write_slot_at l a b c i s :
  l = a ++ b ++ c -> zlen b = 9 -> slot_dir_offset i = zlen a -> write_slot l i s = Ok (a ++ slot_bytes s ++ c).
Proof.
  intros -> Hb Hi. destruct (split_fields b Hb) as (b1 & b2 & b3 & b4 & -> & H1 & H2 & H3 & H4).
  unfold write_slot. rewrite Hi, <- !app_assoc.
  set (w1 := write_le 2 (offset s)). set (w2 := write_le 2 (length_ s)). set (w3 := write_le 1 (flags s)).
  assert (Hw : zlen w1 = 2 /\ zlen w2 = 2 /\ zlen w3 = 1) by (subst w1 w2 w3; len).
  rewrite (blit_in _ a b1 (b2 ++ b3 ++ b4 ++ c)) by (first [done | len]). cbn [mbind outcome_bind].
  rewrite (blit_in _ (a ++ w1) b2 (b3 ++ b4 ++ c)) by (first [by rewrite <- ?app_assoc | len]). cbn [mbind outcome_bind].
  rewrite (blit_in _ ((a ++ w1) ++ w2) b3 (b4 ++ c)) by (first [by rewrite <- ?app_assoc | len]). cbn [mbind outcome_bind].
  rewrite (blit_in _ (((a ++ w1) ++ w2) ++ w3) b4 c) by (first [by rewrite <- ?app_assoc | len]).
  unfold slot_bytes. subst w1 w2 w3. by rewrite <- !app_assoc.
Qed.

(** ** Images *)

Section image.
Context (seed : Z).

Definition ref_hash (r : ref) : Z := fnv1a_32_seeded (r_key r) seed.

Definition slot_of (off : Z) (c : cell) : slot_t :=
  Slot off (zlen (payload_of (c_ref c))) (if used c then slot_flag_used else slot_flag_free) (ref_hash (c_ref c)).

(** The slot directory, from the last slot to the first. *)
Fixpoint slots (off : Z) (cs : list cell) : bytes :=
  match cs with
  | [] => []
  | c :: cs => slots (off + zlen (payload_of (c_ref c))) cs ++ slot_bytes (slot_of off c)
  end.

Definition gap (cs : list cell) : Z := page_size - page_header_size - zlen (payloads cs) - slot_size * zlen cs.

Definition image (cs : list cell) (next : Z) : bytes :=
  write_le 2 (zlen cs) ++ write_le 2 (page_header_size + zlen (payloads cs)) ++ write_le 8 next ++
  payloads cs ++ zeros (gap cs) ++ slots page_header_size cs.

Definition fits (cs : list cell) : Prop := 0 <= gap cs.

Lemma payloads_app l k : payloads (l ++ k) = payloads l ++ payloads k.
Proof. apply bind_app. Qed.

Lemma payloads_single c : payloads [c] = payload_of (c_ref c).
Proof. apply app_nil_r. Qed.

Lemma slots_app off l k : slots off (l ++ k) = slots (off + zlen (payloads l)) k ++ slots off l.
Proof.
  revert off. induction l as [|c l IH]; intros off; cbn [slots app].
  - by rewrite app_nil_r, Z.add_0_r.
  - rewrite IH. change (payloads (c :: l)) with (payload_of (c_ref c) ++ payloads l).
    by rewrite zlen_app, Z.add_assoc, app_assoc.
Qed.

Lemma zlen_slots off cs : zlen (slots off cs) = slot_size * zlen cs.
Proof.
  revert off. induction cs as [|c cs IH]; intros off; cbn [slots]; [done|].
  rewrite zlen_app, IH, zlen_slot_bytes, zlen_cons. unfold slot_size. lia.
Qed.

Lemma zlen_page_image cs next : fits cs -> zlen (image cs next) = page_size.
Proof.
  intros Hf. unfold image. len. rewrite zlen_zeros, zlen_slots by done. unfold gap, page_header_size. lia.
Qed.

(** A page with its slot directory cut at a cell. *)
Lemma image_cut l c k next :
  image (l ++ c :: k) next =
  (write_le 2 (zlen (l ++ c :: k)) ++ write_le 2 (page_header_size + zlen (payloads (l ++ c :: k))) ++ write_le 8 next ++
   payloads (l ++ c :: k) ++ zeros (gap (l ++ c :: k)) ++
   slots (page_header_size + zlen (payloads l) + zlen (payload_of (c_ref c))) k) ++
  slot_bytes (slot_of (page_header_size + zlen (payloads l)) c) ++ slots page_header_size l.
Proof. unfold image. rewrite slots_app. cbn [slots]. by rewrite <- !app_assoc. Qed.

Lemma fits_len cs : fits cs -> zlen cs <= 453 /\ zlen (payloads cs) <= 4084.
Proof.
  unfold fits, gap, page_size, page_header_size, slot_size. pose proof (zlen_nonneg cs). pose proof (zlen_nonneg (payloads cs)). lia.
Qed.

Lemma slot_dir_small i : 0 <= i <= 454 -> slot_dir_offset i = page_size - slot_size * (i + 1).
Proof.
  intros Hi. unfold slot_dir_offset, page_size, slot_size. apply wrap_small. unfold in_width. lia.
Qed.

Definition cells_ok (cs : list cell) : Prop := Forall (fun c => ref_ok (c_ref c)) cs.

Lemma page_count_image cs next : fits cs -> page_count (image cs next) = Ok (zlen cs).
Proof.
  intros Hf%fits_len. pose proof (zlen_nonneg cs). unfold page_count, image. rewrite read_le_start; [done|]. cbn. lia.
Qed.

Lemma page_free_offset_image cs next : fits cs -> page_free_offset (image cs next) = Ok (page_header_size + zlen (payloads cs)).
Proof.
  intros Hf%fits_len. pose proof (zlen_nonneg (payloads cs)). unfold page_free_offset, image, page_header_size.
  eapply (read_le_in _ (write_le 2 (zlen cs))); [done|by rewrite zlen_write_le|]. cbn. lia.
Qed.

Lemma page_overflow_image cs next : in_width 64 next -> page_overflow (image cs next) = Ok next.
Proof.
  intros Hn. unfold page_overflow, image.
  eapply (read_le_in _ (write_le 2 (zlen cs) ++ write_le 2 _)); [by rewrite <- app_assoc|len|done].
Qed.

Lemma set_page_overflow_image cs next n : set_page_overflow (image cs next) n = Ok (image cs n).
Proof.
  unfold set_page_overflow, image. erewrite (blit_in _ (write_le 2 (zlen cs) ++ write_le 2 _) (write_le 8 next)).
  - by rewrite <- app_assoc.
  - by rewrite <- app_assoc.
  - len.
  - by rewrite !zlen_write_le.
Qed.

Lemma init_empty_page_image : init_empty_page = Ok (image [] 0).
Proof. by vm_compute. Qed.

(** ** Page operations on images *)

Hypothesis seed_ok : in_width 32 seed.

(** Where the payload of the cell after [l] starts. *)
Definition cell_off (l : list cell) : Z := page_header_size + zlen (payloads l).

Lemma payloads_cut l c k : zlen (payloads (l ++ c :: k)) = zlen (payloads l) + zlen (payload_of (c_ref c)) + zlen (payloads k).
Proof. change (c :: k) with ([c] ++ k). rewrite !payloads_app, payloads_single, !zlen_app. lia. Qed.

Lemma slot_of_ok l c k : fits (l ++ c :: k) -> ref_ok (c_ref c) -> slot_ok (slot_of (cell_off l) c).
Proof.
  intros Hf%fits_len Hr. pose proof (payload_of_bound (c_ref c) (ref_key_ok _ Hr)) as Hb.
  rewrite payloads_cut in Hf. pose proof (zlen_nonneg (payloads l)). pose proof (zlen_nonneg (payloads k)).
  unfold cell_off, page_header_size. split; cbn [offset length_ flags key_hash slot_of]; unfold in_width; try lia.
  - destruct (used c); unfold slot_flag_used, slot_flag_free; lia.
  - by apply fnv1a_width.
Qed.

Lemma slot_pos l c k : fits (l ++ c :: k) -> slot_dir_offset (zlen l) = page_size - slot_size * (zlen l + 1).
Proof.
  intros Hf%fits_len. rewrite zlen_app, zlen_cons in Hf. pose proof (zlen_nonneg k). pose proof (zlen_nonneg l).
  apply slot_dir_small. lia.
Qed.

Lemma zlen_before_slot l c k next A B :
  fits (l ++ c :: k) -> image (l ++ c :: k) next = A ++ B ++ slots page_header_size l -> zlen B = 9 ->
  slot_dir_offset (zlen l) = zlen A.
Proof.
  intros Hf E HB. rewrite (slot_pos _ _ _ Hf). apply (f_equal zlen) in E. rewrite zlen_page_image in E by done.
  rewrite !zlen_app, zlen_slots in E. unfold slot_size in *. lia.
Qed.

Lemma read_slot_image l c k next :
  fits (l ++ c :: k) -> ref_ok (c_ref c) -> read_slot (image (l ++ c :: k) next) (zlen l) = Ok (slot_of (cell_off l) c).
Proof.
  intros Hf Hr. eapply read_slot_at.
  - apply image_cut.
  - by eapply slot_of_ok.
  - eapply zlen_before_slot; [done|apply image_cut|apply zlen_slot_bytes].
Qed.

(** The page around the payload of a cell. *)
Lemma image_payload l c k next :
  exists A B, image (l ++ c :: k) next = A ++ payload_of (c_ref c) ++ B /\ zlen A = cell_off l.
Proof.
  unfold image. change (c :: k) with ([c] ++ k). rewrite !payloads_app, payloads_single. rewrite <- !app_assoc.
  eexists (write_le 2 _ ++ write_le 2 _ ++ write_le 8 next ++ payloads l), _. split.
  - rewrite <- !app_assoc. done.
  - unfold cell_off, page_header_size. len.
Qed.

Lemma decode_image l c k next :
  fits (l ++ c :: k) -> ref_ok (c_ref c) ->
  decode_entry (image (l ++ c :: k) next) (slot_of (cell_off l) c) = Ok (decoded (c_ref c)).
Proof.
  intros Hf Hr. pose proof (zlen_page_image _ next Hf) as Hlen.
  destruct (image_payload l c k next) as (A & B & E & HA). rewrite E in *. unfold slot_of. rewrite <- HA.
  by apply decode_entry_at.
Qed.

Lemma read_payload_image l c k next :
  read_bytes (image (l ++ c :: k) next) (cell_off l) (zlen (payload_of (c_ref c))) = Ok (payload_of (c_ref c)).
Proof.
  destruct (image_payload l c k next) as (A & B & -> & HA). by apply read_bytes_mid.
Qed.

(** Freeing a slot keeps its place. *)
Lemma free_slot_image l c k next :
  fits (l ++ c :: k) -> ref_ok (c_ref c) ->
  write_slot (image (l ++ c :: k) next) (zlen l) (slot_of (cell_off l) (Cell false (c_ref c))) =
  Ok (image (l ++ Cell false (c_ref c) :: k) next).
Proof.
  intros Hf Hr. erewrite write_slot_at; [|apply image_cut|apply zlen_slot_bytes|].
  - rewrite (image_cut l (Cell false (c_ref c))). cbn [c_ref]. unfold gap.
    rewrite !payloads_cut, !payloads_app, !zlen_app, !zlen_cons. done.
  - eapply zlen_before_slot; [done|apply image_cut|apply zlen_slot_bytes].
Qed.

Lemma fits_snoc cs c : fits (cs ++ [c]) <-> cell_off cs + zlen (payload_of (c_ref c)) + slot_size <= page_size - slot_size * zlen cs.
Proof. unfold fits, gap, cell_off. rewrite payloads_app, payloads_single, !zlen_app. change (zlen [c]) with 1. unfold slot_size. lia. Qed.

Lemma split_zeros n m : 0 <= m <= n -> zeros n = zeros m ++ zeros (n - m).
Proof. intros H. unfold zeros. rewrite <- replicate_add. f_equal. lia. Qed.

(** Inserting appends a cell when it fits. *)
Lemma try_insert_image cs next r :
  fits cs -> ref_ok r -> fits (cs ++ [Cell true r]) ->
  try_insert_payload_in_page (image cs next) (ref_hash r) (payload_of r) = Ok (Some (image (cs ++ [Cell true r]) next)).
Proof.
  intros Hf Hr Hfit. pose proof (proj1 (fits_snoc _ _) Hfit) as Hroom. pose proof (fits_len _ Hf) as Hl. pose proof (fits_len _ Hfit) as Hl'.
  pose proof (zlen_nonneg cs) as H0. pose proof (payload_of_bound _ (ref_key_ok _ Hr)) as Hb. cbn [c_ref] in Hroom.
  unfold try_insert_payload_in_page. rewrite page_free_offset_image, page_count_image by done. cbn [mbind outcome_bind].
  rewrite slot_dir_small by lia. fold (cell_off cs).
  rewrite bool_decide_false by (unfold slot_size, page_size in *; lia).
  assert (Hgap : gap cs = zlen (payload_of r) + (gap (cs ++ [Cell true r]) + 9)).
  { unfold gap. rewrite payloads_app, payloads_single, !zlen_app. cbn [c_ref]. change (zlen [Cell true r]) with 1. unfold slot_size. lia. }
  unfold fits in Hfit. unfold image at 1. rewrite Hgap.
  rewrite (split_zeros _ (zlen (payload_of r))) by lia.
  replace (zlen (payload_of r) + (gap (cs ++ [Cell true r]) + 9) - zlen (payload_of r)) with (gap (cs ++ [Cell true r]) + 9) by lia.
  rewrite (split_zeros (_ + 9) (gap (cs ++ [Cell true r]))) by lia.
  replace (gap (cs ++ [Cell true r]) + 9 - gap (cs ++ [Cell true r])) with 9 by lia.
  set (w1 := write_le 2 (zlen cs)). set (w2 := write_le 2 (page_header_size + zlen (payloads cs))). set (w3 := write_le 8 next).
  set (g := zeros (gap (cs ++ [Cell true r]))).
  assert (Hw : zlen w1 = 2 /\ zlen w2 = 2 /\ zlen w3 = 8 /\ zlen g = gap (cs ++ [Cell true r])).
  { subst w1 w2 w3 g. rewrite zlen_zeros by done. len. }
  erewrite (blit_in _ (w1 ++ w2 ++ w3 ++ payloads cs) (zeros (zlen (payload_of r))));
    [| by rewrite <- !app_assoc | unfold cell_off, page_header_size; len | by rewrite zlen_zeros by lia].
  cbn [mbind outcome_bind].
  erewrite (write_slot_at _ ((w1 ++ w2 ++ w3 ++ payloads cs) ++ payload_of r ++ g) (zeros 9));
    [| by rewrite <- !app_assoc | done | ].
  2:{ rewrite slot_dir_small by lia. unfold gap, slot_size, cell_off, page_header_size in *. len. }
  cbn [mbind outcome_bind]. unfold set_page_count, set_page_free_offset. rewrite <- !app_assoc.
  erewrite (blit_in _ [] w1); [|done|done|by subst w1]. cbn [mbind outcome_bind app].
  erewrite (blit_in _ (write_le 2 _) w2); [|done|by rewrite zlen_write_le|by rewrite zlen_write_le]. cbn [mbind outcome_bind app].
  rewrite !payloads_app, !payloads_single, !zlen_app in Hl'. cbn [c_ref] in Hl'. pose proof (zlen_nonneg (payloads cs)).
  rewrite (wrap_small 16 (zlen cs + 1)), (wrap_small 16 (cell_off cs + _)), (wrap_small 16 (zlen _))
    by (unfold in_width, cell_off, page_header_size in *; lia).
  unfold image. rewrite slots_app, payloads_app, payloads_single, !zlen_app. cbn [slots c_ref app].
  change (zlen [Cell true r]) with 1. unfold cell_off, slot_of. cbn [c_ref used]. by rewrite Z.add_assoc, <- !app_assoc.
Qed.

Lemma try_insert_full cs next r :
  fits cs -> ref_ok r -> ~ fits (cs ++ [Cell true r]) ->
  try_insert_payload_in_page (image cs next) (ref_hash r) (payload_of r) = Ok None.
Proof.
  intros Hf Hr Hfit. rewrite fits_snoc in Hfit. pose proof (fits_len _ Hf) as Hl. pose proof (zlen_nonneg cs) as H0.
  unfold try_insert_payload_in_page. rewrite page_free_offset_image, page_count_image by done. cbn [mbind outcome_bind].
  rewrite slot_dir_small by lia. fold (cell_off cs). cbn [c_ref] in Hfit.
  rewrite bool_decide_true; [done|]. unfold slot_size, page_size in *. lia.
Qed.

Lemma fits_empty : fits [].
Proof. by vm_compute. Qed.

Lemma fits_single c : ref_ok (c_ref c) -> fits [c].
Proof.
  intros Hr. change [c] with ([] ++ [c]). apply fits_snoc. pose proof (payload_of_bound _ (ref_key_ok _ Hr)).
  change (cell_off []) with 12. change (zlen (@nil cell)) with 0. unfold page_size, slot_size. lia.
Qed.

(** ** Walks over a page *)

(** A visitor that sees an entry on a page as [g] sees it. *)
Definition visits {A} (cs : list cell) (visit : slot_t -> outcome (option A)) (g : ref -> option A) : Prop :=
  forall l c k, cs = l ++ c :: k -> used c = true -> visit (slot_of (cell_off l) c) = Ok (g (c_ref c)).

Definition used_refs (cs : list cell) : list ref := c_ref <$> filter (fun c => used c = true) cs.

Lemma used_refs_cons c cs : used_refs (c :: cs) = (if used c then [c_ref c] else []) ++ used_refs cs.
Proof. unfold used_refs. rewrite filter_cons. by destruct (used c). Qed.

Lemma used_refs_app l k : used_refs (l ++ k) = used_refs l ++ used_refs k.
Proof. unfold used_refs. by rewrite filter_app, fmap_app. Qed.

Lemma slot_of_skip off c : ref_ok (c_ref c) ->
  negb (bool_decide (flags (slot_of off c) = slot_flag_used)) || bool_decide (length_ (slot_of off c) = 0) = negb (used c).
Proof.
  intros Hr. pose proof (payload_of_bound _ (ref_key_ok _ Hr)). cbn [flags length_ slot_of].
  rewrite (bool_decide_false (zlen _ = 0)) by lia. by destruct (used c).
Qed.

Lemma scan_slots_suffix {A} (visit : slot_t -> outcome (option A)) g l k next :
  fits (l ++ k) -> cells_ok k -> visits (l ++ k) visit g ->
  scan_slots visit (image (l ++ k) next) (seqZ (zlen l) (zlen k)) = Ok (omap g (used_refs k)).
Proof.
  revert l. induction k as [|c k IH]; intros l Hf Hok Hv; [done|].
  apply Forall_cons in Hok as [Hr Hok]. rewrite zlen_cons, seqZ_cons by (pose proof (zlen_nonneg k); lia). cbn [scan_slots].
  rewrite read_slot_image by done. cbn [mbind outcome_bind]. rewrite slot_of_skip by done.
  replace (Z.pred (zlen k + 1)) with (zlen k) by lia. replace (Z.succ (zlen l)) with (zlen (l ++ [c])) by (rewrite zlen_app; done).
  assert (E : l ++ c :: k = (l ++ [c]) ++ k) by (by rewrite <- app_assoc).
  specialize (IH (l ++ [c])). rewrite <- E in IH. specialize (IH Hf Hok Hv). rewrite used_refs_cons.
  destruct (used c) eqn:Hu; cbn [negb]; [|done].
  rewrite (Hv l c k) by done. cbn [mbind outcome_bind]. rewrite IH. cbn [mbind outcome_bind mret outcome_ret].
  cbn [app omap list_omap]. by destruct (g (c_ref c)).
Qed.

Lemma scan_slots_image {A} (visit : slot_t -> outcome (option A)) g cs next :
  fits cs -> cells_ok cs -> visits cs visit g ->
  scan_slots visit (image cs next) (seqZ 0 (zlen cs)) = Ok (omap g (used_refs cs)).
Proof. apply (scan_slots_suffix visit g []). Qed.

(** ** Erasing on a page *)

(** The first cell in use with [P], freed. *)
Fixpoint free_first (P : ref -> bool) (cs : list cell) : option (list cell) :=
  match cs with
  | [] => None
  | c :: cs => if used c && P (c_ref c) then Some (Cell false (c_ref c) :: cs) else cons c <$> free_first P cs
  end.

Definition matches (key : bytes) (expected : option Z) (r : ref) : bool :=
  bool_decide (r_key r = key) && match expected with Some v => bool_decide (r_value r = v) | None => true end.

Context (load : Z -> Z -> outcome (option bytes)).

(** The loader returns the key of a long entry. *)
Definition loads (r : ref) : Prop := is_long r = true -> load (r_file r) (r_off r) = Ok (Some (r_key r)).

Lemma keys_equal_decoded key r : loads r -> keys_equal load key (decoded r) = Ok (bool_decide (r_key r = key)).
Proof.
  intros Hl. unfold keys_equal, is_truncated. cbn [entry_flags decoded full_key_len stored_key e_log_file_id e_log_offset].
  unfold stored_prefix. destruct (is_long r) eqn:El; cbn [negb].
  - assert (negb (bool_decide (Z.land 1 entry_flag_truncated = 0)) = true) as -> by done. cbn [negb]. rewrite Hl by done. cbn [mbind outcome_bind].
    unfold is_long, inline_key_limit in El. apply bool_decide_eq_true in El.
    destruct (decide (r_key r = key)) as [<-|Hne].
    + rewrite bool_decide_false.
      2:{ unfold zlen in *. rewrite length_take. lia. }
      rewrite bool_decide_true; [by rewrite bool_decide_true|]. f_equal. rewrite length_take. unfold zlen in El. lia.
    + rewrite !(bool_decide_false (r_key r = key)) by done. by destruct (_ || _).
  - assert (negb (bool_decide (Z.land 0 entry_flag_truncated = 0)) = false) as -> by done. cbn [negb].
    destruct (decide (r_key r = key)) as [<-|Hne]; [by rewrite !bool_decide_true|].
    rewrite (bool_decide_false (key = r_key r)) by done. rewrite (bool_decide_false (r_key r = key)) by done. by rewrite andb_false_r.
Qed.

Lemma erase_in_slots_suffix key expected l k next :
  fits (l ++ k) -> cells_ok k ->
  (forall r, r ∈ used_refs k -> ref_hash r = fnv1a_32_seeded key seed -> loads r) ->
  erase_in_slots load (image (l ++ k) next) key (fnv1a_32_seeded key seed) expected (seqZ (zlen l) (zlen k)) =
  Ok ((fun k' => image (l ++ k') next) <$> free_first (matches key expected) k).
Proof.
  revert l. induction k as [|c k IH]; intros l Hf Hok Hload; [done|].
  apply Forall_cons in Hok as [Hr Hok]. rewrite zlen_cons, seqZ_cons by (pose proof (zlen_nonneg k); lia). cbn [erase_in_slots].
  rewrite read_slot_image by done. cbn [mbind outcome_bind].
  replace (Z.pred (zlen k + 1)) with (zlen k) by lia. replace (Z.succ (zlen l)) with (zlen (l ++ [c])) by (rewrite zlen_app; done).
  assert (Hload' : forall r, r ∈ used_refs k -> ref_hash r = fnv1a_32_seeded key seed -> loads r).
  { intros r Hin. apply Hload. rewrite used_refs_cons. apply elem_of_app. by right. }
  assert (E : forall k, l ++ c :: k = (l ++ [c]) ++ k) by (intros; by rewrite <- app_assoc).
  specialize (IH (l ++ [c])). rewrite <- E in IH. specialize (IH Hf Hok Hload').
  assert (Hskip : Ok ((fun k' => image ((l ++ [c]) ++ k') next) <$> free_first (matches key expected) k) =
                  Ok ((fun k' => image (l ++ k') next) <$> (cons c <$> free_first (matches key expected) k))).
  { f_equal. destruct (free_first (matches key expected) k); [cbn; by rewrite <- app_assoc | done]. }
  rewrite Hskip in IH.
  cbn [free_first flags key_hash length_ offset slot_of].
  pose proof (payload_of_bound _ (ref_key_ok _ Hr)) as Hb.
  destruct (used c) eqn:Hu; cbn [andb].
  2:{ rewrite bool_decide_false by (unfold slot_flag_used, slot_flag_free; intros [? _]; lia). cbn [negb]. by rewrite IH. }
  destruct (decide (ref_hash (c_ref c) = fnv1a_32_seeded key seed)) as [Eh|Eh].
  - rewrite bool_decide_true by (split_and!; [done|done|lia]). cbn [negb].
    rewrite decode_image by done. cbn [mbind outcome_bind].
    rewrite keys_equal_decoded; [|apply Hload; [rewrite used_refs_cons, Hu; by left|done]]. cbn [mbind outcome_bind]. unfold matches.
    case_bool_decide as Ek; cbn [negb andb]; [|by rewrite IH]. cbn [e_value decoded].
    pose proof (free_slot_image l c k next Hf Hr) as Hfree. unfold slot_of in Hfree. cbn [used c_ref] in Hfree.
    destruct expected as [v|]; [|by rewrite Hfree].
    case_bool_decide; cbn [negb]; [by rewrite Hfree | by rewrite IH].
  - rewrite bool_decide_false by (intros (_ & ? & _); done). cbn [negb]. rewrite IH.
    unfold matches. rewrite bool_decide_false; [done|]. intros Ek. apply Eh. unfold ref_hash. by rewrite Ek.
Qed.

End image.
