(* ===== verification/DiskHashChain.v ===== *)
(** * Buckets of the hash table

    A bucket is a chain of pages. The files seen as pages, chains of page images, and what the
    loops of [DiskHashTable] over a chain do: lookups read the entries in use, insertion adds
    one on the first page with room or on a new page, erasing frees the first match, and
    pages outside the chain are kept. The only fault left is a refused write. *)

From S2P Require Import Prelude.
From S2P Require Import Bytes.
From S2P Require Import WalPage.
From S2P Require Import DiskHashTable.
From S2P Require Import DiskHashPage.
From coqutil Require Import Byte.
Import disk_hash_table.
#[local] Open Scope Z_scope.

(** ** Pages of the files *)

(** The file a page is in, and its place there. *)
Definition page_file (tb : t) (id : Z) : bytes := if is_overflow_page_id id then ovf_file_ tb else file_ tb.
Definition page_pos (id : Z) : Z := (if is_overflow_page_id id then id - overflow_page_id_base else id) * page_size.

Lemma page_in_file (f : bytes) k : 0 <= k -> (zlen f / page_size <= k <-> zlen f < k * page_size + page_size).
Proof.
  intros Hk. unfold page_size. pose proof (Z.div_mod (zlen f) 4096 ltac:(lia)). pose proof (Z.mod_pos_bound (zlen f) 4096 ltac:(lia)). lia.
Qed.

Lemma read_page_Ok tb id b :
  0 <= id -> (read_page tb id = Ok b <-> read_bytes (page_file tb id) (page_pos id) page_size = Ok b).
Proof.
  intros Hid. unfold read_page, page_file, page_pos, is_overflow_page_id, overflow_page_count, main_page_count.
  case_bool_decide as Ho; case_bool_decide as Hc; try done; rewrite page_in_file in Hc by lia;
    unfold read_bytes; rewrite bool_decide_false by lia; done.
Qed.

(** A write the file system refuses. *)
Definition refused (e : fault) : Prop := e = Throw 11 \/ e = Throw 12.

Definition next_page (tb : t) : Z := next_overflow_page (header_ tb).

(** [tb'] has the pages of [tb] below the allocation bound but for [ids], and what [tb] keeps in
    memory but for the bound. *)
Record keeps (ids : list Z) (tb tb' : t) : Prop := {
  keeps_page j b : 0 <= j < next_page tb -> j ∉ ids -> read_page tb j = Ok b -> read_page tb' j = Ok b;
  keeps_header : header_ tb' = with_next_overflow (header_ tb) (next_page tb');
  keeps_next : next_page tb <= next_page tb';
  keeps_count : entry_count_ tb' = entry_count_ tb;
  keeps_rehash : rehash_in_progress_ tb' = rehash_in_progress_ tb;
  keeps_suppress : suppress_auto_rehash_ tb' = suppress_auto_rehash_ tb;
  keeps_ovf : zlen (ovf_file_ tb) <= zlen (ovf_file_ tb');
}.

Lemma with_next_same h : with_next_overflow h (next_overflow_page h) = h.
Proof. by destruct h. Qed.

Lemma keeps_refl ids tb : keeps ids tb tb.
Proof. split; try done. unfold next_page. by rewrite with_next_same. Qed.

Lemma keeps_trans ids ids' tb tb' tb'' :
  (forall j, j ∈ ids' -> j ∈ ids \/ next_page tb <= j) -> keeps ids tb tb' -> keeps ids' tb' tb'' -> keeps ids tb tb''.
Proof.
  intros Hsub [P1 H1 N1 C1 R1 S1 O1] [P2 H2 N2 C2 R2 S2 O2]. split; try congruence; try lia.
  - intros j b Hj Hn Hr. apply P2; [lia| |by apply P1]. intros [?|?]%Hsub; [done|lia].
  - rewrite H2, H1. done.
Qed.

Lemma keeps_mono ids ids' tb tb' : ids ⊆ ids' -> keeps ids tb tb' -> keeps ids' tb tb'.
Proof. intros Hs [P1 H1 N1 C1 R1 S1 O1]. split; try done. intros j b Hj Hn. apply P1; [done|]. by intros ?%Hs. Qed.

Section disk.
Context (disk_ok : Z -> bool).

(** A file offset is a signed 64-bit integer: a write past it is refused. *)
Hypothesis disk_limit : forall p, disk_ok p = true -> p < overflow_page_id_base + 2 ^ 51.

Lemma page_pos_disjoint i j :
  0 <= i -> 0 <= j -> i <> j -> is_overflow_page_id i = is_overflow_page_id j ->
  page_pos i + page_size <= page_pos j \/ page_pos j + page_size <= page_pos i.
Proof. intros Hi Hj Hne E. unfold page_pos. rewrite E. unfold page_size. destruct (is_overflow_page_id j); lia. Qed.

Lemma page_pos_nonneg id : 0 <= id -> 0 <= page_pos id.
Proof. intros Hid. unfold page_pos, is_overflow_page_id, page_size. case_bool_decide; lia. Qed.

(** What a successful write leaves. *)
Definition put_page (tb : t) (id : Z) (page : bytes) : t :=
  if is_overflow_page_id id then
    Table (file_ tb) (file_write (ovf_file_ tb) (page_pos id) page) (header_ tb) (entry_count_ tb) (rehash_in_progress_ tb)
      (suppress_auto_rehash_ tb)
  else
    Table (file_write (file_ tb) (page_pos id) page) (ovf_file_ tb) (header_ tb) (entry_count_ tb) (rehash_in_progress_ tb)
      (suppress_auto_rehash_ tb).

Lemma page_file_put tb id page j :
  page_file (put_page tb id page) j =
  if bool_decide (is_overflow_page_id id = is_overflow_page_id j) then file_write (page_file tb j) (page_pos id) page
  else page_file tb j.
Proof. unfold page_file, put_page. by destruct (is_overflow_page_id id), (is_overflow_page_id j). Qed.

Lemma put_page_same tb id page : 0 <= id -> zlen page = page_size -> read_page (put_page tb id page) id = Ok page.
Proof.
  intros Hid Hp. apply read_page_Ok; [done|]. rewrite page_file_put, bool_decide_true by done.
  apply file_write_same; [by apply page_pos_nonneg|done].
Qed.

Lemma put_page_keeps tb id page : 0 <= id -> zlen page = page_size -> keeps [id] tb (put_page tb id page).
Proof.
  intros Hid Hp. split; try by (unfold put_page; destruct (is_overflow_page_id id)).
  - intros j b Hj Hne Hr. rewrite read_page_Ok in * by lia. rewrite page_file_put.
    case_bool_decide as E; [|done]. apply file_write_other; [by apply page_pos_nonneg|done|]. rewrite Hp.
    apply page_pos_disjoint; [lia|lia| |done]. intros ->. apply Hne. by left.
  - unfold next_page, put_page. destruct (is_overflow_page_id id); cbn; by rewrite with_next_same.
  - unfold put_page. destruct (is_overflow_page_id id); [cbn|apply Z.le_refl].
    rewrite zlen_file_write by (by apply page_pos_nonneg). lia.
Qed.

Lemma write_page_eq tb id page :
  0 <= id -> zlen page = page_size ->
  write_page disk_ok tb id page = if disk_ok id then Ok (put_page tb id page) else Fault (Throw 11).
Proof.
  intros Hid Hp. unfold write_page. rewrite bool_decide_true by done. cbn [negb].
  destruct (disk_ok id) eqn:Hok; cbn [negb]; [|done]. pose proof (disk_limit id Hok) as Hlim. unfold put_page, page_pos.
  destruct (is_overflow_page_id id) eqn:Ho; [|done].
  unfold is_overflow_page_id, overflow_page_id_base, page_size in *. apply bool_decide_eq_true in Ho.
  by rewrite wrap_small by (unfold in_width; lia).
Qed.

(** ** Chains *)

Context (seed : Z).
Hypothesis seed_ok : in_width 32 seed.

Abbreviation chain := (list (Z * list cell)).

Definition ids (c : chain) : list Z := c.*1.
Definition cells (c : chain) : list cell := c ≫= snd.
Definition refs (c : chain) : list ref := used_refs (cells c).

(** The pages of [c], linked, start at [id]. *)
Fixpoint chain_on (tb : t) (id : Z) (c : chain) : Prop :=
  match c with
  | [] => id = 0
  | (i, cs) :: c =>
      id = i /\ i <> 0 /\ fits cs /\ cells_ok cs /\
      exists next, in_width 64 next /\ read_page tb i = Ok (image seed cs next) /\ chain_on tb next c
  end.

Definition below (n : Z) (c : chain) : Prop := Forall (fun i => 0 <= i < n) (ids c).

Lemma ids_cons i cs c : ids ((i, cs) :: c) = i :: ids c.
Proof. done. Qed.

Lemma below_cons n i cs c : below n ((i, cs) :: c) <-> 0 <= i < n /\ below n c.
Proof. unfold below. by rewrite ids_cons, Forall_cons. Qed.

Lemma chain_on_keeps tb tb' js id c :
  keeps js tb tb' -> below (next_page tb) c -> (forall i, i ∈ ids c -> i ∉ js) -> chain_on tb id c -> chain_on tb' id c.
Proof.
  intros Hk. revert id. induction c as [|[i cs] c IH]; intros id Hb Hn; [done|].
  apply Forall_cons in Hb as [Hi Hb]. intros (-> & Hi0 & Hf & Hok & next & Hw & Hr & Hc). split_and!; try done.
  exists next. split_and!; [done| |].
  - eapply keeps_page; [done|done| |done]. apply Hn. by left.
  - apply IH; [done| |done]. intros j Hj. apply Hn. by right.
Qed.

Lemma refs_cons i cs c : refs ((i, cs) :: c) = used_refs cs ++ refs c.
Proof. unfold refs, cells. cbn. apply used_refs_app. Qed.

Lemma chain_cells_ok tb id c : chain_on tb id c -> cells_ok (cells c).
Proof.
  revert id. induction c as [|[i cs] c IH]; intros id; [by constructor|].
  intros (_ & _ & _ & Hok & next & _ & _ & Hc). apply Forall_app. split; [done|]. by eapply IH.
Qed.

(** ** Lookups along a chain *)

Lemma scan_chain_on {A} (visit : bytes -> slot_t -> outcome (option A)) g tb fuel id c :
  (forall cs next, fits cs -> cells_ok cs -> (forall r, r ∈ used_refs cs -> r ∈ refs c) ->
                   visits seed cs (visit (image seed cs next)) g) ->
  chain_on tb id c -> (length c < fuel)%nat -> scan_chain visit fuel tb id = Ok (omap g (refs c)).
Proof.
  revert id c. induction fuel as [|fuel IH]; intros id c Hv Hc Hfuel; [lia|]. cbn [scan_chain].
  destruct c as [|[i cs] c].
  - cbn in Hc. by rewrite bool_decide_true.
  - destruct Hc as (-> & Hi0 & Hf & Hok & next & Hw & Hr & Hc). rewrite bool_decide_false by done. rewrite Hr. cbn [mbind outcome_bind].
    rewrite page_count_image by done. cbn [mbind outcome_bind]. rewrite (scan_slots_image _ seed_ok _ g).
    + cbn [mbind outcome_bind]. rewrite page_overflow_image by done. cbn [mbind outcome_bind].
      rewrite (IH next c); [|intros cs' next' ? ? Hsub; apply Hv; [done|done|]|done|cbn in Hfuel; lia].
      * cbn [mbind outcome_bind mret outcome_ret]. by rewrite refs_cons, omap_app.
      * intros r ?%Hsub. rewrite refs_cons. apply elem_of_app. by right.
    + done.
    + done.
    + apply Hv; [done|done|]. intros r ?. rewrite refs_cons. apply elem_of_app. by left.
Qed.

(** ** Insertion *)

(** [c'] is [c] with [r] added, on the page after the allocation bound when no page had room. *)
Record inserted (tb tb' : t) (id : Z) (c c' : chain) (r : ref) : Prop := {
  ins_chain : chain_on tb' id c';
  ins_refs : refs c' ≡ₚ r :: refs c;
  ins_ids : (ids c' = ids c /\ next_page tb' = next_page tb) \/
            (ids c' = ids c ++ [next_page tb] /\ next_page tb' = next_page tb + 1 /\ disk_ok (next_page tb) = true);
  ins_keeps : keeps (ids c) tb tb';
}.

Lemma write_returns tb id page :
  0 <= id -> zlen page = page_size ->
  returns refused (write_page disk_ok tb id page) (fun tb' => disk_ok id = true /\ tb' = put_page tb id page).
Proof. intros Hid Hp. rewrite write_page_eq by done. destruct (disk_ok id); [done|by left]. Qed.

Lemma next_put tb id page : next_page (put_page tb id page) = next_page tb.
Proof. unfold next_page, put_page. by destruct (is_overflow_page_id id). Qed.

(** A page with room takes the entry. *)
Lemma insert_here fuel tb i cs c next r :
  0 <= i < next_page tb -> i <> 0 -> fits cs -> cells_ok cs -> in_width 64 next -> ref_ok r ->
  i ∉ ids c -> below (next_page tb) c ->
  read_page tb i = Ok (image seed cs next) -> chain_on tb next c -> fits (cs ++ [Cell true r]) ->
  returns refused (insert_loop disk_ok (S fuel) tb i (ref_hash seed r) (payload_of r))
    (fun tb' => inserted tb tb' i ((i, cs) :: c) ((i, cs ++ [Cell true r]) :: c) r).
Proof.
  intros Hi Hi0 Hf Hok Hw Hr Hni Hb Hread Hc Hfit. cbn [insert_loop]. rewrite Hread. cbn [mbind outcome_bind].
  rewrite try_insert_image by done. cbn [mbind outcome_bind].
  assert (Hlen : zlen (image seed (cs ++ [Cell true r]) next) = page_size) by (by apply zlen_page_image).
  eapply returns_mono; [apply write_returns; [lia|done]|]. intros tb' [Hdisk ->].
  pose proof (put_page_keeps tb i (image seed (cs ++ [Cell true r]) next) ltac:(lia) Hlen) as Hk. split.
  - split_and!; try done. { apply Forall_app. split; [done|]. by constructor. }
    exists next. split_and!; [done|by apply put_page_same; [lia|]|].
    eapply chain_on_keeps; [done|done| |done]. intros j Hj ->%list_elem_of_singleton. done.
  - rewrite !refs_cons, used_refs_app. change (used_refs [Cell true r]) with [r]. rewrite <- app_assoc. symmetry. apply Permutation_middle.
  - left. split; [done|]. apply next_put.
  - eapply keeps_mono; [|done]. intros j ->%list_elem_of_singleton. by left.
Qed.

(** Allocation hands out the page at the bound, empty. *)
Lemma allocate_returns tb :
  overflow_page_id_base <= next_page tb ->
  returns refused (allocate_overflow_page disk_ok tb) (fun p =>
    p.1 = next_page tb /\ disk_ok (next_page tb) = true /\ read_page p.2 (next_page tb) = Ok (image seed [] 0) /\
    next_page p.2 = next_page tb + 1 /\ keeps [] tb p.2).
Proof.
  intros Hbase. unfold allocate_overflow_page. fold (next_page tb). rewrite bool_decide_false by lia.
  rewrite (init_empty_page_image seed). cbn [mbind outcome_bind].
  assert (H0 : zlen (image seed [] 0) = page_size) by (apply zlen_page_image, fits_empty).
  assert (Hn : 0 <= next_page tb) by (unfold overflow_page_id_base in Hbase; lia).
  eapply returns_bind; [by apply write_returns|]. intros tb1 [Hd ->]. cbn [returns mret outcome_ret fst snd].
  pose proof (disk_limit _ Hd) as Hlim. set (tb0 := with_header _ _).
  assert (Hn0 : next_page tb0 = next_page tb + 1) by (cbn; apply wrap_small; unfold in_width, overflow_page_id_base in *; lia).
  split_and!; [done|done|by apply put_page_same|by rewrite next_put|].
  apply (keeps_trans [] [next_page tb] tb tb0).
  - intros j ->%list_elem_of_singleton. right. lia.
  - split; try done. rewrite Hn0. lia.
  - by apply put_page_keeps.
Qed.

(** A full last page is linked to a new page. *)
Lemma insert_new fuel tb i cs r :
  0 <= i < next_page tb -> i <> 0 -> overflow_page_id_base <= next_page tb -> fits cs -> cells_ok cs -> ref_ok r ->
  read_page tb i = Ok (image seed cs 0) -> ~ fits (cs ++ [Cell true r]) ->
  returns refused (insert_loop disk_ok (S (S fuel)) tb i (ref_hash seed r) (payload_of r))
    (fun tb' => inserted tb tb' i [(i, cs)] [(i, cs); (next_page tb, [Cell true r])] r).
Proof.
  intros Hi Hi0 Hbase Hf Hok Hr Hread Hfit. cbn [insert_loop]. rewrite Hread. cbn [mbind outcome_bind].
  rewrite try_insert_full by done. cbn [mbind outcome_bind]. rewrite page_overflow_image by (split; lia). cbn [mbind outcome_bind].
  rewrite (bool_decide_true (0 = 0)) by done.
  eapply returns_bind; [by apply allocate_returns|]. intros [n tb1]. cbn [fst snd]. intros (-> & Hdn & Hread1 & Hn1 & Hk1).
  set (n := next_page tb) in *. rewrite set_page_overflow_image. cbn [mbind outcome_bind].
  pose proof (disk_limit n Hdn) as Hlim. assert (Hn : 0 < n) by (unfold overflow_page_id_base in Hbase; lia).
  assert (Hl : zlen (image seed cs n) = page_size) by (by apply zlen_page_image).
  eapply returns_bind; [apply write_returns; [lia|done]|]. intros tb2 [Hd2 ->].
  set (tb2 := put_page tb1 i (image seed cs n)).
  assert (Hk2 : keeps [i] tb1 tb2) by (by apply put_page_keeps; [lia|]).
  assert (Hread2 : read_page tb2 n = Ok (image seed [] 0)).
  { eapply keeps_page; [done|lia| |done]. intros ->%list_elem_of_singleton. lia. }
  assert (Hn2 : next_page tb2 = n + 1) by (by unfold tb2; rewrite next_put).
  eapply returns_mono; [apply (insert_here fuel tb2 n [] [] 0 r); eauto using fits_empty, fits_single, not_elem_of_nil, Forall_nil_2; try lia|].
  - by constructor.
  - split; lia.
  - by constructor.
  - done.
  - intros tb3 [Hc3 _ Hids3 Hk3]. split.
    + split_and!; try done. exists n. split_and!.
      * unfold in_width, overflow_page_id_base in *. lia.
      * apply (keeps_page _ _ _ Hk3); [lia| |apply put_page_same; [lia|done]]. intros E%list_elem_of_singleton. cbn in E. lia.
      * done.
    + rewrite !refs_cons. change (refs []) with (@nil ref). change (used_refs [Cell true r]) with [r]. rewrite !app_nil_r.
      symmetry. apply Permutation_cons_append.
    + right. destruct Hids3 as [[_ ->]|[Hids3 _]]; [done|]. by apply (f_equal length) in Hids3.
    + apply (keeps_trans _ [n] tb tb2); [intros j ->%list_elem_of_singleton; right; lia| |done].
      apply (keeps_trans _ [i] tb tb1); [intros j ?; by left| |done]. eapply keeps_mono; [|done]. apply list_subseteq_nil.
Qed.

(** The insertion loop on a whole chain. *)
Lemma insert_loop_on r fuel tb id c :
  ref_ok r -> chain_on tb id c -> c <> [] -> NoDup (ids c) -> below (next_page tb) c -> overflow_page_id_base <= next_page tb ->
  (length c < fuel)%nat ->
  returns refused (insert_loop disk_ok fuel tb id (ref_hash seed r) (payload_of r))
    (fun tb' => exists c', inserted tb tb' id c c' r).
Proof.
  intros Hr. revert tb id c. induction fuel as [|fuel IH]; intros tb id c Hc Hne Hnd Hb Hbase Hfuel; [lia|].
  destruct c as [|[i cs] c]; [done|]. destruct Hc as (-> & Hi0 & Hf & Hok & next & Hw & Hread & Hc).
  apply below_cons in Hb as [Hi Hb]. rewrite ids_cons in Hnd. apply NoDup_cons in Hnd as [Hni Hnd].
  destruct (decide (0 <= gap (cs ++ [Cell true r]))) as [Hfit|Hfit].
  { eapply returns_mono; [by apply (insert_here fuel tb i cs c next r)|]. intros tb' H. eexists. exact H. }
  destruct c as [|[j cs'] c].
  { cbn in Hc, Hfuel. subst next. destruct fuel as [|fuel]; [lia|].
    eapply returns_mono; [by apply insert_new|]. intros tb' H. eexists. exact H. }
  assert (Hnext : next <> 0) by (destruct Hc as (-> & ? & _); done).
  cbn [insert_loop]. rewrite Hread. cbn [mbind outcome_bind]. rewrite try_insert_full by done. cbn [mbind outcome_bind].
  rewrite page_overflow_image by done. cbn [mbind outcome_bind]. rewrite bool_decide_false by done.
  eapply returns_mono; [apply (IH tb next ((j, cs') :: c)); try done; cbn in *; lia|].
  intros tb' [c' [Hc' Hrefs Hids Hk]]. exists ((i, cs) :: c'). split.
  - split_and!; try done. exists next. split_and!; try done. by apply (keeps_page _ _ _ Hk).
  - rewrite !(refs_cons i), Hrefs. symmetry. apply Permutation_middle.
  - destruct Hids as [[Hids Hn]|[Hids Hn]]; [left|right]; cbn; fold (ids c'); rewrite Hids; done.
  - eapply keeps_mono; [|done]. intros x Hx. by right.
Qed.

(** Enough fuel: the overflow pages of a chain are pages of the overflow file. *)
Lemma chain_length tb id c :
  chain_on tb id c -> NoDup (ids c) -> Forall (fun i => overflow_page_id_base <= i) (tail (ids c)) ->
  (length c < chain_fuel tb - 1)%nat.
Proof.
  intros Hc Hnd Hov. destruct c as [|[i cs] c]; [unfold chain_fuel; cbn; lia|].
  rewrite ids_cons in *. apply NoDup_cons in Hnd as [_ Hnd]. cbn [tail] in Hov.
  assert (Hsub : ids c ⊆ seqZ overflow_page_id_base (overflow_page_count tb)).
  { destruct Hc as (_ & _ & _ & _ & next & _ & _ & Hc). clear Hnd. revert next Hc. induction c as [|[j cs'] c IH]; intros next Hc x Hx.
    - by apply not_elem_of_nil in Hx.
    - rewrite ids_cons in *. apply Forall_cons in Hov as [Hj Hov]. destruct Hc as (-> & _ & _ & _ & next' & _ & Hr & Hc).
      apply elem_of_cons in Hx as [->|Hx]; [|by eapply IH]. cbn [fst] in *. apply elem_of_seqZ. split; [done|].
      unfold read_page, is_overflow_page_id in Hr. rewrite bool_decide_true in Hr by done. case_bool_decide; [done|]. lia. }
  apply (NoDup_submseteq _ _ Hnd), submseteq_length in Hsub. unfold ids in Hsub. rewrite length_fmap, length_seqZ in Hsub.
  unfold chain_fuel. cbn. lia.
Qed.

(** ** Erasing *)

Lemma free_first_Some P cs cs' :
  free_first P cs = Some cs' ->
  exists l c k, cs = l ++ c :: k /\ cs' = l ++ Cell false (c_ref c) :: k /\ used c = true /\ P (c_ref c) = true.
Proof.
  revert cs'. induction cs as [|c cs IH]; intros cs'; [done|]. cbn [free_first].
  destruct (used c && P (c_ref c)) eqn:E.
  - intros [= <-]. apply andb_true_iff in E as [Hu HP]. by exists [], c, cs.
  - destruct (free_first P cs) as [cs1|]; [|done]. intros [= <-]. destruct (IH _ eq_refl) as (l & c0 & k & -> & -> & Hu & HP).
    by exists (c :: l), c0, k.
Qed.

Lemma free_first_None P cs r : free_first P cs = None -> r ∈ used_refs cs -> P r = false.
Proof.
  induction cs as [|c cs IH]; cbn [free_first]; [intros _ ?%not_elem_of_nil; done|].
  destruct (used c && P (c_ref c)) eqn:E; [done|]. destruct (free_first P cs); [done|]. intros _. rewrite used_refs_cons.
  destruct (used c); [|by apply IH]. intros [->%list_elem_of_singleton|?]%elem_of_app; [done|by apply IH].
Qed.

(** A freed cell gives its room and its place back to nobody: the page still fits. *)
Lemma free_first_page P cs cs' :
  free_first P cs = Some cs' -> fits cs -> cells_ok cs ->
  fits cs' /\ cells_ok cs' /\ exists r, P r = true /\ used_refs cs ≡ₚ r :: used_refs cs'.
Proof.
  intros (l & c & k & -> & -> & Hu & HP)%free_first_Some Hf Hok. split_and!.
  - unfold fits, gap in *. rewrite payloads_cut, !zlen_app, !zlen_cons in *. done.
  - unfold cells_ok in *. rewrite Forall_app, Forall_cons in *. done.
  - exists (c_ref c). split; [done|]. rewrite !used_refs_app, !used_refs_cons, Hu. cbn [used app].
    symmetry. apply Permutation_middle.
Qed.

Context (load : Z -> Z -> outcome (option bytes)).

Definition one_less (tb : t) : t := if bool_decide (0 < entry_count_ tb) then with_count tb (entry_count_ tb - 1) else tb.

(** What [erase_loop] leaves: [c] without one match, or nothing changed and no match. *)
Definition erased (key : bytes) (expected : option Z) (tb : t) (id : Z) (c : chain) (p : bool * t) : Prop :=
  if p.1 then
    exists c' r tb1, p.2 = one_less tb1 /\ chain_on tb1 id c' /\ ids c' = ids c /\ matches key expected r = true /\
                     refs c ≡ₚ r :: refs c' /\ keeps (ids c) tb tb1 /\ next_page tb1 = next_page tb
  else p.2 = tb /\ forall r, r ∈ refs c -> matches key expected r = false.

Lemma erase_loop_on key expected fuel tb id c :
  chain_on tb id c -> NoDup (ids c) -> below (next_page tb) c ->
  (forall r, r ∈ refs c -> ref_hash seed r = fnv1a_32_seeded key seed -> loads load r) -> (length c < fuel)%nat ->
  returns refused (erase_loop disk_ok load fuel tb id key (fnv1a_32_seeded key seed) expected) (erased key expected tb id c).
Proof.
  revert id c. induction fuel as [|fuel IH]; intros id c Hc Hnd Hb Hload Hfuel; [lia|]. cbn [erase_loop].
  destruct c as [|[i cs] c].
  { cbn in Hc. rewrite bool_decide_true by done. split; [done|]. by intros r ?%not_elem_of_nil. }
  destruct Hc as (-> & Hi0 & Hf & Hok & next & Hw & Hread & Hc). rewrite ids_cons in *.
  apply below_cons in Hb as [Hi Hb]. apply NoDup_cons in Hnd as [Hni Hnd].
  assert (Hload1 : forall r, r ∈ used_refs cs -> ref_hash seed r = fnv1a_32_seeded key seed -> loads load r).
  { intros r Hin. apply Hload. rewrite refs_cons. apply elem_of_app. by left. }
  rewrite bool_decide_false by done. rewrite Hread. cbn [mbind outcome_bind].
  unfold try_erase_in_page. rewrite page_count_image by done. cbn [mbind outcome_bind].
  pose proof (erase_in_slots_suffix seed seed_ok load key expected [] cs next Hf Hok Hload1) as He. cbn [app] in He.
  change (zlen (@nil cell)) with 0 in He. rewrite He. cbn [mbind outcome_bind].
  destruct (free_first (matches key expected) cs) as [cs'|] eqn:Hfree; cbn [fmap option_fmap option_map].
  - destruct (free_first_page _ _ _ Hfree Hf Hok) as (Hf' & Hok' & r & Hm & Hrefs).
    pose proof (zlen_page_image seed cs' next Hf') as Hl.
    eapply returns_bind; [apply write_returns; [lia|done]|]. intros tb1 [Hd ->]. cbn [mret outcome_ret returns].
    exists ((i, cs') :: c), r, (put_page tb i (image seed cs' next)). split_and!; try done.
    + split_and!; try done. exists next. split_and!; [done|apply put_page_same; [lia|done]|].
      eapply chain_on_keeps; [apply put_page_keeps; [lia|done]|done| |done]. intros j Hj ->%list_elem_of_singleton. done.
    + by rewrite !refs_cons, Hrefs.
    + eapply keeps_mono; [|apply put_page_keeps; [lia|done]]. intros j ->%list_elem_of_singleton. by left.
    + apply next_put.
  - rewrite page_overflow_image by done. cbn [mbind outcome_bind].
    eapply returns_mono; [apply (IH next c); try done|].
    + intros r Hin. apply Hload. rewrite refs_cons. apply elem_of_app. by right.
    + cbn in Hfuel. lia.
    + intros [[|] tb'].
      * intros (c' & r & tb1 & E & Hc' & Hids & Hm & Hrefs & Hk & Hn). exists ((i, cs) :: c'), r, tb1. split_and!; try done.
        -- split_and!; try done. exists next. split_and!; try done. by apply (keeps_page _ _ _ Hk).
        -- by rewrite !ids_cons, Hids.
        -- rewrite !refs_cons, Hrefs. symmetry. apply Permutation_middle.
        -- eapply keeps_mono; [|done]. intros x Hx. by right.
      * intros [E Hno]. split; [done|]. intros r. rewrite refs_cons. intros [Hin|Hin]%elem_of_app; [|by apply Hno].
        by eapply free_first_None.
Qed.
End disk.
