(* ===== verification/DiskHashSpec.v ===== *)
(** * The hash table as a multimap

    [holds tb bk m]: the files of [tb] have chains [bk] whose entries in use, each in the
    bucket its hash belongs to, are the multimap [m]. Copies a split has left in the old
    bucket are entries in use that belong elsewhere. Every operation is shown to do on [m] what a
    multimap does, for lookups, insertion, erasing, splitting, counting and reopening. *)

From stdpp Require Import functions.
From S2P Require Import Prelude.
From S2P Require Import Bytes.
From S2P Require Import WalPage.
From S2P Require Import DiskHashTable.
From S2P Require Import DiskHashPage.
From S2P Require Import DiskHashChain.
Import disk_hash_table.
#[local] Open Scope Z_scope.

Abbreviation chain := (list (Z * list cell)).

(** ** Addressing *)

Definition bucket_of (h : header_t) (kh : Z) : Z :=
  if bool_decide (kh mod 2 ^ level_value h < split_bucket_value h) then kh mod (2 * 2 ^ level_value h)
  else kh mod 2 ^ level_value h.

Record header_ok (h : header_t) : Prop := {
  ho_size : page_size_value h = page_size;
  ho_level : 0 <= level_value h <= 31;
  ho_split : 0 <= split_bucket_value h < 2 ^ level_value h;
  ho_count : bucket_count_value h = 2 ^ level_value h + split_bucket_value h;
}.

Lemma header_ok_bounds h : header_ok h -> 1 <= 2 ^ level_value h <= 2 ^ 31 /\ 0 < bucket_count_value h <= UINT32_MAX.
Proof.
  intros [Hs Hl Hsp Hc]. assert (1 <= 2 ^ level_value h <= 2 ^ 31).
  { split; [|apply Z.pow_le_mono_r; lia]. pose proof (Z.pow_pos_nonneg 2 (level_value h)). lia. }
  unfold UINT32_MAX. lia.
Qed.

Lemma bucket_id_for_hash_eq h kh : header_ok h -> bucket_id_for_hash h kh = Ok (bucket_of h kh).
Proof.
  intros Ho. pose proof (header_ok_bounds h Ho). destruct Ho as [Hs Hl Hsp Hc]. unfold bucket_id_for_hash, bucket_of.
  rewrite bool_decide_false by lia. rewrite bool_decide_false by lia. done.
Qed.

Lemma mod_double a n : 0 < n -> a mod (2 * n) = a mod n \/ a mod (2 * n) = a mod n + n.
Proof.
  intros Hn. rewrite (Z.mul_comm 2 n), Z.rem_mul_r by lia. pose proof (Z.mod_pos_bound (a / n) 2 ltac:(lia)).
  assert ((a / n) mod 2 = 0 \/ (a / n) mod 2 = 1) as [-> | ->] by lia; lia.
Qed.

Lemma bucket_of_range h kh : header_ok h -> 0 <= bucket_of h kh < bucket_count_value h.
Proof.
  intros Ho. pose proof (header_ok_bounds h Ho) as Hb. destruct Ho as [Hs Hl Hsp Hc].
  unfold bucket_of. pose proof (Z.mod_pos_bound kh (2 ^ level_value h) ltac:(lia)).
  case_bool_decide; [|lia]. destruct (mod_double kh (2 ^ level_value h)) as [-> | ->]; lia.
Qed.

(** Only the entries of the bucket that is split change place. *)
Lemma bucket_of_advance h kh :
  header_ok h ->
  bucket_of (advance h (2 ^ level_value h)) kh =
  if bool_decide (bucket_of h kh = split_bucket_value h) then kh mod (2 * 2 ^ level_value h) else bucket_of h kh.
Proof.
  intros Ho. pose proof (header_ok_bounds h Ho) as Hb. destruct Ho as [Hs Hl Hsp Hc].
  unfold bucket_of, advance. set (B := 2 ^ level_value h) in *. set (s := split_bucket_value h) in *.
  pose proof (Z.mod_pos_bound kh B ltac:(lia)) as Hm. destruct (mod_double kh B ltac:(lia)) as [Hd|Hd]; set (d := kh mod (2 * B)) in *.
  all: destruct (decide (s + 1 = B)) as [E|E];
    [rewrite (bool_decide_true (s + 1 = B)) by done | rewrite (bool_decide_false (s + 1 = B)) by done];
    cbn [level_value split_bucket_value];
    [rewrite Z.pow_add_r, Z.pow_1_r by lia; fold B; rewrite (Z.mul_comm B 2); fold d | fold B; fold d].
  all: repeat case_bool_decide; lia.
Qed.

Lemma advance_ok h :
  header_ok h -> bucket_count_value h <> UINT32_MAX ->
  header_ok (advance h (2 ^ level_value h)) /\ bucket_count_value (advance h (2 ^ level_value h)) = bucket_count_value h + 1.
Proof.
  intros Ho Hmax. pose proof (header_ok_bounds h Ho) as Hb. destruct Ho as [Hs Hl Hsp Hc]. unfold advance, UINT32_MAX in *.
  case_bool_decide as E; (split; [|done]); split; cbn [page_size_value level_value split_bucket_value bucket_count_value]; try done; try lia.
  - assert (level_value h <> 31); [|lia]. intros E31. rewrite E31 in *. lia.
  - rewrite Z.pow_add_r, Z.pow_1_r by lia. lia.
Qed.

(** ** Layout *)

Lemma primary_id b : 0 <= b < UINT32_MAX -> bucket_primary_page_id b = 1 + b.
Proof. intros Hb. apply wrap_small. unfold in_width, UINT32_MAX in *. lia. Qed.

Section table.
Context (disk_ok : Z -> bool).
Hypothesis disk_limit : forall p, disk_ok p = true -> p < overflow_page_id_base + 2 ^ 51.
Context (seed : Z).
Hypothesis seed_ok : in_width 32 seed.

(** [bk b] is the chain of bucket [b], for the first [n] buckets. *)
Record layout (tb : t) (n : Z) (bk : Z -> chain) : Prop := {
  lay_n : 0 <= n <= UINT32_MAX;
  lay_next : overflow_page_id_base <= next_page tb <= overflow_page_id_base + 2 ^ 51;
  lay_chain b : 0 <= b < n -> chain_on seed tb (1 + b) (bk b);
  lay_nodup b : 0 <= b < n -> NoDup (ids (bk b));
  lay_ovf b : 0 <= b < n -> Forall (fun i => overflow_page_id_base <= i < next_page tb) (tail (ids (bk b)));
  lay_disjoint b b' i : 0 <= b < n -> 0 <= b' < n -> i ∈ ids (bk b) -> i ∈ ids (bk b') -> b = b';
}.

Lemma layout_ids tb n bk b : layout tb n bk -> 0 <= b < n -> ids (bk b) = (1 + b) :: tail (ids (bk b)).
Proof.
  intros L Hb. pose proof (lay_chain _ _ _ L b Hb) as Hc. destruct (bk b) as [|[i cs] c]; [cbn in Hc; lia|].
  by destruct Hc as (<- & _).
Qed.

Lemma layout_below tb n bk b : layout tb n bk -> 0 <= b < n -> below (next_page tb) (bk b).
Proof.
  intros L Hb. unfold below. rewrite (layout_ids _ _ _ _ L Hb). pose proof (lay_next _ _ _ L). pose proof (lay_n _ _ _ L).
  unfold overflow_page_id_base, UINT32_MAX in *. constructor; [lia|].
  eapply Forall_impl; [exact (lay_ovf _ _ _ L b Hb)|]. cbn. intros i. unfold overflow_page_id_base. lia.
Qed.

Lemma layout_fuel tb n bk b : layout tb n bk -> 0 <= b < n -> (length (bk b) < chain_fuel tb - 1)%nat.
Proof.
  intros L Hb. eapply chain_length; [by apply (lay_chain _ _ _ L)|by apply (lay_nodup _ _ _ L)|].
  eapply Forall_impl; [exact (lay_ovf _ _ _ L b Hb)|]. cbn. lia.
Qed.

Lemma layout_keeps_other tb tb' n bk b b' :
  layout tb n bk -> keeps (ids (bk b)) tb tb' -> 0 <= b < n -> 0 <= b' < n -> b <> b' -> chain_on seed tb' (1 + b') (bk b').
Proof.
  intros L Hk Hb Hb' Hne. eapply chain_on_keeps; [done|by eapply layout_below| |by apply (lay_chain _ _ _ L)].
  intros i Hi Hi'. apply Hne. by eapply (lay_disjoint _ _ _ L).
Qed.

(** The chain of [b] changed, maybe by the next page. *)
Lemma layout_update tb tb' n bk b c' :
  layout tb n bk -> 0 <= b < n -> chain_on seed tb' (1 + b) c' -> keeps (ids (bk b)) tb tb' ->
  (ids c' = ids (bk b) /\ next_page tb' = next_page tb) \/
  (ids c' = ids (bk b) ++ [next_page tb] /\ next_page tb' = next_page tb + 1 /\ disk_ok (next_page tb) = true) ->
  layout tb' n (<[b := c']> bk).
Proof.
  intros L Hb Hc Hk Hids. pose proof (lay_next _ _ _ L) as Hnext. pose proof (layout_ids _ _ _ _ L Hb) as Hidb.
  assert (Hn' : next_page tb <= next_page tb' <= overflow_page_id_base + 2 ^ 51).
  { destruct Hids as [[_ ->]|(_ & -> & Hd)]; [lia|]. apply disk_limit in Hd. lia. }
  assert (Hold : forall b' i, 0 <= b' < n -> i ∈ ids (bk b') -> i < next_page tb).
  { intros b' i Hb' Hi. pose proof (layout_below _ _ _ _ L Hb') as Hbel. unfold below in Hbel. rewrite Forall_forall in Hbel. apply Hbel in Hi. lia. }
  assert (Hnew : forall i, i ∈ ids c' -> i ∈ ids (bk b) \/ i = next_page tb).
  { destruct Hids as [[-> _]|[-> _]]; [by left|]. intros i [?| ->%list_elem_of_singleton]%elem_of_app; [by left|by right]. }
  assert (Hov : Forall (fun i => overflow_page_id_base <= i < next_page tb') (tail (ids c'))).
  { assert (Htl : Forall (fun i => overflow_page_id_base <= i < next_page tb') (tail (ids (bk b)))).
    { eapply Forall_impl; [exact (lay_ovf _ _ _ L b Hb)|]. cbn. lia. }
    destruct Hids as [[-> _]|(-> & Hn & _)]; [done|]. rewrite Hidb. cbn [app tail]. apply Forall_app. split; [done|].
    constructor; [lia|done]. }
  split; [apply L|lia| | | |].
  - intros b' Hb'. destruct (decide (b = b')) as [<-|Hne]; [by rewrite fn_lookup_insert|].
    rewrite fn_lookup_insert_ne by done. by eapply layout_keeps_other.
  - intros b' Hb'. destruct (decide (b = b')) as [<-|Hne]; [rewrite fn_lookup_insert|rewrite fn_lookup_insert_ne by done; by apply (lay_nodup _ _ _ L)].
    destruct Hids as [[-> _]|(-> & _)]; [by apply (lay_nodup _ _ _ L)|]. apply NoDup_app. split_and!; [by apply (lay_nodup _ _ _ L)| |apply NoDup_singleton].
    intros i Hi ->%list_elem_of_singleton. apply (Hold b) in Hi; [lia|done].
  - intros b' Hb'. destruct (decide (b = b')) as [<-|Hne]; [by rewrite fn_lookup_insert|]. rewrite fn_lookup_insert_ne by done.
    eapply Forall_impl; [exact (lay_ovf _ _ _ L b' Hb')|]. cbn. lia.
  - intros b1 b2 i H1 H2. destruct (decide (b = b1)) as [<-|Hne1], (decide (b = b2)) as [<-|Hne2]; [done| | |].
    + rewrite fn_lookup_insert, fn_lookup_insert_ne by done. intros [Hi| ->]%Hnew Hi2; [by eapply (lay_disjoint _ _ _ L)|].
      apply Hold in Hi2; [lia|done].
    + rewrite fn_lookup_insert, fn_lookup_insert_ne by done. intros Hi2 [Hi| ->]%Hnew; [by eapply (lay_disjoint _ _ _ L)|].
      apply Hold in Hi2; [lia|done].
    + rewrite !fn_lookup_insert_ne by done. by apply (lay_disjoint _ _ _ L).
Qed.

(** [bk'] has the entries [rs] more than [bk] in bucket [b], and the rest as it was. *)
Record added (n b : Z) (rs : list ref) (tb tb' : t) (bk bk' : Z -> chain) : Prop := {
  add_layout : layout tb' n bk';
  add_other b' : b' <> b -> bk' b' = bk b';
  add_refs : refs (bk' b) ≡ₚ rs ++ refs (bk b);
  add_keeps : keeps (ids (bk b)) tb tb';
  add_ids i : i ∈ ids (bk' b) -> i ∈ ids (bk b) \/ next_page tb <= i;
}.

Lemma added_nil n b tb bk : layout tb n bk -> added n b [] tb tb bk bk.
Proof. intros L. split; try done; [apply keeps_refl|by left]. Qed.

Lemma added_trans n b rs rs' tb tb1 tb2 bk bk1 bk2 :
  added n b rs tb tb1 bk bk1 -> added n b rs' tb1 tb2 bk1 bk2 -> added n b (rs' ++ rs) tb tb2 bk bk2.
Proof.
  intros [L1 O1 R1 K1 I1] [L2 O2 R2 K2 I2]. pose proof (keeps_next _ _ _ K1). split; [done| | | |].
  - intros b' Hb'. by rewrite O2, O1.
  - by rewrite R2, R1, app_assoc.
  - by eapply keeps_trans.
  - intros i [?|?]%I2; [by apply I1|right; lia].
Qed.

Lemma insert_bucket n b r tb bk :
  layout tb n bk -> 0 <= b < n -> ref_ok r ->
  returns refused (insert_payload_into_bucket_unlocked disk_ok tb b (ref_hash seed r) (payload_of r))
    (fun tb' => exists bk', added n b [r] tb tb' bk bk').
Proof.
  intros L Hb Hr. pose proof (lay_n _ _ _ L) as Hn. unfold insert_payload_into_bucket_unlocked. rewrite primary_id by lia.
  pose proof (layout_fuel _ _ _ _ L Hb) as Hfuel. pose proof (layout_ids _ _ _ _ L Hb) as Hids0.
  eapply returns_mono.
  - apply insert_loop_on; try done; try lia.
    + by apply (lay_chain _ _ _ L).
    + intros E. by rewrite E in Hids0.
    + by apply (lay_nodup _ _ _ L).
    + by eapply layout_below.
    + apply (lay_next _ _ _ L).
    + lia.
  - intros tb' [c' Hins]. exists (<[b := c']> bk). destruct Hins as [Hc Hrefs Hids Hk].
    pose proof (layout_update _ _ _ _ _ _ L Hb Hc Hk Hids) as L'. split; [done| | |done|]; rewrite ?fn_lookup_insert.
    + intros b' Hne. by rewrite fn_lookup_insert_ne.
    + done.
    + intros i. destruct Hids as [[-> _]|[-> _]]; [by left|]. intros [?| ->%list_elem_of_singleton]%elem_of_app; [by left|by right].
Qed.

(** ** The multimap of a table *)

Definition owned (h : header_t) (b : Z) (rs : list ref) : list ref := filter (fun r => bucket_of h (ref_hash seed r) = b) rs.

(** The files store [m] under the addressing of the header. *)
Record stores (tb : t) (bk : Z -> chain) (m : list ref) : Prop := {
  st_header : header_ok (header_ tb);
  st_seed : hash_seed_value (header_ tb) = seed;
  st_layout : layout tb (bucket_count_value (header_ tb)) bk;
  st_owned b : 0 <= b < bucket_count_value (header_ tb) -> owned (header_ tb) b (refs (bk b)) ≡ₚ owned (header_ tb) b m;
}.

(** And the count in memory is right. *)
Record holds (tb : t) (bk : Z -> chain) (m : list ref) : Prop := {
  holds_stores : stores tb bk m;
  holds_count : entry_count_ tb = zlen m;
}.

Lemma owned_cons h b r rs : owned h b (r :: rs) = (if decide (bucket_of h (ref_hash seed r) = b) then [r] else []) ++ owned h b rs.
Proof. unfold owned. rewrite filter_cons. by case_decide. Qed.

Lemma bucket_of_next h n kh : bucket_of (with_next_overflow h n) kh = bucket_of h kh.
Proof. done. Qed.

Lemma header_ok_next h n : header_ok h -> header_ok (with_next_overflow h n).
Proof. by intros []. Qed.

(** *** Lookups *)

Context (load : Z -> Z -> outcome (option bytes)).

Definition vref (r : ref) : value_ref_t := ValueRef (r_value r) (r_file r) (r_off r) (is_long r).

Lemma value_ref_decoded r : value_ref (decoded r) = vref r.
Proof.
  unfold value_ref, vref, is_truncated. cbn [e_value e_log_file_id e_log_offset entry_flags decoded]. by destruct (is_long r).
Qed.

Definition with_key (key : bytes) (m : list ref) : list ref := filter (fun r => r_key r = key) m.

(** Entries of [key] are all in its bucket. *)
Lemma with_key_owned h key rs :
  with_key key rs = with_key key (owned h (bucket_of h (fnv1a_32_seeded key seed)) rs).
Proof.
  unfold with_key, owned. rewrite list_filter_filter. apply list_filter_iff. intros r. unfold ref_hash. naive_solver.
Qed.

Lemma stores_mem tb bk m b r :
  stores tb bk m -> 0 <= b < bucket_count_value (header_ tb) -> r ∈ refs (bk b) -> bucket_of (header_ tb) (ref_hash seed r) = b -> r ∈ m.
Proof.
  intros H Hb Hin Hbo. assert (Ho : r ∈ owned (header_ tb) b (refs (bk b))) by (by apply list_elem_of_filter).
  rewrite (st_owned _ _ _ H b Hb) in Ho. by apply list_elem_of_filter in Ho as [_ ?].
Qed.

(** Walking bucket [b] sees every entry as [g]. *)
Lemma scan_bucket_stores {A} (visit : bytes -> slot_t -> outcome (option A)) g tb bk m b :
  stores tb bk m -> 0 <= b < bucket_count_value (header_ tb) ->
  (forall l c k next, fits (l ++ c :: k) -> cells_ok (l ++ c :: k) -> c_ref c ∈ refs (bk b) -> used c = true ->
                      visit (image seed (l ++ c :: k) next) (slot_of seed (cell_off l) c) = Ok (g (c_ref c))) ->
  scan_bucket visit tb b = Ok (omap g (refs (bk b))).
Proof.
  intros [Ho Hs L Hown] Hb Hv. pose proof (header_ok_bounds _ Ho). unfold scan_bucket. rewrite primary_id by lia.
  apply (scan_chain_on seed seed_ok _ g); [|by apply (lay_chain _ _ _ L)|].
  - intros cs next Hf Hok Hsub l c k -> Hu. apply Hv; try done. apply Hsub. rewrite used_refs_app, used_refs_cons, Hu.
    apply elem_of_app. right. by left.
  - pose proof (layout_fuel _ _ _ _ L Hb). lia.
Qed.

Lemma get_all_stores tb bk m key :
  stores tb bk m -> Forall (loads load) m ->
  exists vs, get_all load tb key = Ok vs /\ vs ≡ₚ vref <$> with_key key m.
Proof.
  intros H Hload. pose proof H as [Ho Hs L Hown]. unfold get_all, hash_key. rewrite Hs, bucket_id_for_hash_eq by done.
  cbn [mbind outcome_bind]. set (kh := fnv1a_32_seeded key seed). set (b := bucket_of (header_ tb) kh).
  pose proof (bucket_of_range _ kh Ho) as Hb. fold b in Hb.
  set (g := fun r => if bool_decide (r_key r = key) then Some (vref r) else None).
  assert (Hg : forall rs, omap g rs = vref <$> with_key key rs).
  { intros rs. unfold with_key. induction rs as [|r rs IH]; [done|]. rewrite filter_cons. cbn. unfold g at 1.
    case_bool_decide as E; case_decide; try done. cbn. by rewrite IH. }
  exists (omap g (refs (bk b))). split.
  - apply (scan_bucket_stores _ g _ _ m); [done|done|]. intros l c k next Hf Hok Hin Hu. unfold get_visit, g. cbn [key_hash slot_of].
    assert (Hr : ref_ok (c_ref c)) by (apply Forall_app in Hok as [_ Hok]; by apply Forall_cons in Hok as [? _]).
    case_bool_decide as E; cbn [negb].
    + rewrite decode_image by done. cbn [mbind outcome_bind]. rewrite keys_equal_decoded, value_ref_decoded; [done|].
      rewrite Forall_forall in Hload. apply Hload. eapply stores_mem; [done|done|done|]. by rewrite E.
    + rewrite bool_decide_false; [done|]. intros Ek. apply E. unfold ref_hash. by rewrite Ek.
  - rewrite Hg. apply fmap_Permutation. rewrite (with_key_owned (header_ tb) key (refs (bk b))), (with_key_owned (header_ tb) key m).
    fold kh. fold b. unfold with_key. by rewrite (Hown b Hb).
Qed.

(** *** Iteration *)

Lemma filter_partition {A} (f : A -> Z) bs (l : list A) :
  NoDup bs -> (bs ≫= fun b => filter (fun x => f x = b) l) ≡ₚ filter (fun x => f x ∈ bs) l.
Proof.
  induction bs as [|b bs IH]; intros Hnd.
  - cbn. induction l as [|x l IHl]; [done|]. rewrite filter_cons, decide_False; [done|]. apply not_elem_of_nil.
  - apply NoDup_cons in Hnd as [Hb Hnd]. rewrite bind_cons, (IH Hnd). clear IH. induction l as [|x l IHl]; [done|].
    rewrite !filter_cons. case_decide as H1; case_decide as H2; case_decide as H3.
    + congruence.
    + exfalso. apply H3. rewrite H1. by left.
    + rewrite <- IHl. done.
    + exfalso. apply H3. rewrite H1. by left.
    + rewrite <- IHl, Permutation_middle. done.
    + exfalso. apply H3. by right.
    + apply elem_of_cons in H3 as [?|?]; done.
    + done.
Qed.

Lemma owned_all h n (m : list ref) :
  (forall kh, 0 <= bucket_of h kh < n) -> (seqZ 0 n ≫= fun b => owned h b m) ≡ₚ m.
Proof.
  intros Hr. unfold owned. rewrite (filter_partition (fun r => bucket_of h (ref_hash seed r))) by apply NoDup_seqZ.
  induction m as [|r m IH]; [done|]. rewrite filter_cons, decide_True; [by rewrite IH|]. apply elem_of_seqZ. pose proof (Hr (ref_hash seed r)). lia.
Qed.

Lemma scan_buckets_eq {A} (visit : Z -> bytes -> slot_t -> outcome (option A)) tb (f : Z -> list A) bs :
  (forall b, b ∈ bs -> scan_bucket (visit b) tb b = Ok (f b)) -> scan_buckets visit tb bs = Ok (bs ≫= f).
Proof.
  induction bs as [|b bs IH]; intros Hf; [done|]. cbn [scan_buckets]. rewrite Hf by left. cbn [mbind outcome_bind].
  rewrite IH; [done|]. intros b' Hb'. apply Hf. by right.
Qed.

Lemma omap_owned {A} h b (f : ref -> A) rs :
  omap (fun r => if bool_decide (bucket_of h (ref_hash seed r) = b) then Some (f r) else None) rs = f <$> owned h b rs.
Proof.
  unfold owned. induction rs as [|r rs IH]; [done|]. rewrite filter_cons. cbn. case_bool_decide; case_decide; try done. cbn. by rewrite IH.
Qed.

(** Walking all buckets with the ownership test sees the multimap. *)
Lemma scan_buckets_stores {A} (visit : Z -> bytes -> slot_t -> outcome (option A)) (f : ref -> A) tb bk m :
  stores tb bk m ->
  (forall b l c k next, fits (l ++ c :: k) -> ref_ok (c_ref c) -> used c = true ->
     visit b (image seed (l ++ c :: k) next) (slot_of seed (cell_off l) c) =
     Ok (if bool_decide (bucket_of (header_ tb) (ref_hash seed (c_ref c)) = b) then Some (f (c_ref c)) else None)) ->
  exists vs, scan_buckets visit tb (seqZ 0 (bucket_count_value (header_ tb))) = Ok vs /\ vs ≡ₚ f <$> m.
Proof.
  intros H Hv. pose proof H as [Ho Hs L Hown].
  eexists. split.
  - apply (scan_buckets_eq _ _ (fun b => f <$> owned (header_ tb) b (refs (bk b)))). intros b Hb%elem_of_seqZ.
    rewrite <- omap_owned. eapply scan_bucket_stores; [done|lia|]. intros l c k next Hf Hok _ Hu. apply Hv; try done.
    apply Forall_app in Hok as [_ Hok]. by apply Forall_cons in Hok as [? _].
  - etrans; [|apply fmap_Permutation, (owned_all (header_ tb) (bucket_count_value (header_ tb))); intros; by apply bucket_of_range].
    assert (Hin : forall b, b ∈ seqZ 0 (bucket_count_value (header_ tb)) -> owned (header_ tb) b (refs (bk b)) ≡ₚ owned (header_ tb) b m).
    { intros b Hb%elem_of_seqZ. apply Hown. lia. }
    clear Hown. induction (seqZ 0 (bucket_count_value (header_ tb))) as [|b bs IH]; [done|].
    rewrite !bind_cons, fmap_app, (Hin b) by left. rewrite IH; [done|]. intros b' Hb'. apply Hin. by right.
Qed.

Lemma slot_belongs_eq h kh b :
  header_ok h -> slot_belongs_to_bucket_unlocked h kh b = Ok (bool_decide (bucket_of h kh = b)).
Proof. intros Ho. unfold slot_belongs_to_bucket_unlocked. by rewrite bucket_id_for_hash_eq. Qed.

Lemma for_each_stores tb bk m : stores tb bk m -> exists vs, for_each tb = Ok vs /\ vs ≡ₚ vref <$> m.
Proof.
  intros H. eapply scan_buckets_stores; [done|]. intros b l c k next Hf Hr Hu. unfold for_each_visit. cbn [key_hash slot_of].
  rewrite slot_belongs_eq by apply H. cbn [mbind outcome_bind]. case_bool_decide; cbn [negb]; [|done].
  rewrite decode_image by done. cbn. by rewrite value_ref_decoded.
Qed.

Lemma count_stores tb bk m : stores tb bk m -> in_width 64 (zlen m) -> count_entries_unlocked tb = Ok (zlen m).
Proof.
  intros H Hm. unfold count_entries_unlocked.
  destruct (scan_buckets_stores (count_visit (header_ tb)) (fun _ => tt) tb bk m H) as (vs & E & Hp).
  - intros b l c k next Hf Hr Hu. unfold count_visit. cbn [key_hash slot_of]. rewrite slot_belongs_eq by apply H. by case_bool_decide.
  - rewrite E. cbn [mbind outcome_bind]. apply Permutation_length in Hp. rewrite length_fmap in Hp.
    unfold zlen in *. rewrite Hp, wrap_small by done. done.
Qed.

(** *** Erasing *)

Lemma layout_files tb tb' n bk :
  file_ tb' = file_ tb -> ovf_file_ tb' = ovf_file_ tb -> next_page tb' = next_page tb -> layout tb n bk -> layout tb' n bk.
Proof.
  intros Hf Ho Hn [L1 L2 L3 L4 L5 L6]. assert (Hr : forall id, read_page tb' id = read_page tb id).
  { intros id. unfold read_page, overflow_page_count, main_page_count. by rewrite Hf, Ho. }
  split; rewrite ?Hn; try done. intros b Hb. specialize (L3 b Hb). revert L3. generalize (1 + b). clear - Hr. generalize (bk b).
  intros c. induction c as [|[i cs] c IH]; intros id; [done|]. intros (-> & Hi & Hfit & Hok & next & Hw & Hread & Hc). split_and!; try done.
  exists next. split_and!; [done|by rewrite Hr|by apply IH].
Qed.

Lemma erase_holds tb bk m key expected :
  holds tb bk m -> Forall (loads load) m ->
  returns refused (erase disk_ok load tb key expected) (fun p =>
    if p.1 then exists bk' m' r, holds p.2 bk' m' /\ matches key expected r = true /\ m ≡ₚ r :: m'
    else p.2 = tb /\ forall r, r ∈ m -> matches key expected r = false).
Proof.
  intros H Hload. pose proof H as [HS Hcnt]. pose proof HS as [Ho Hs L Hown]. unfold erase, hash_key. rewrite Hs, bucket_id_for_hash_eq by done.
  cbn [mbind outcome_bind]. set (kh := fnv1a_32_seeded key seed). set (b := bucket_of (header_ tb) kh).
  pose proof (bucket_of_range _ kh Ho) as Hb. fold b in Hb. pose proof (header_ok_bounds _ Ho) as Hbd. rewrite primary_id by lia.
  pose proof (layout_fuel _ _ _ _ L Hb) as Hfuel.
  assert (Hmb : forall r, matches key expected r = true -> bucket_of (header_ tb) (ref_hash seed r) = b).
  { intros r [Hk _]%andb_true_iff. apply bool_decide_eq_true in Hk. unfold ref_hash. by rewrite Hk. }
  eapply returns_mono.
  - apply (erase_loop_on disk_ok disk_limit seed seed_ok load key expected _ tb (1 + b) (bk b)).
    + by apply (lay_chain _ _ _ L).
    + by apply (lay_nodup _ _ _ L).
    + by eapply layout_below.
    + intros r Hr Hh. rewrite Forall_forall in Hload. apply Hload. eapply stores_mem; [done|done|done|]. by rewrite Hh.
    + lia.
  - intros [[|] tb']; cbn [erased fst snd].
    + intros (c' & r & tb1 & -> & Hc & Hids & Hm & Hrefs & Hk & Hn). cbn [snd].
      assert (Hin : r ∈ m). { eapply stores_mem; [done|exact Hb| |by apply Hmb]. rewrite Hrefs. by left. }
      apply elem_of_Permutation in Hin as [m' Hm']. exists (<[b := c']> bk), m', r. split_and!; [|done|done].
      assert (Hcnt1 : entry_count_ tb1 = zlen m' + 1).
      { rewrite (keeps_count _ _ _ Hk), Hcnt. unfold zlen. rewrite (Permutation_length Hm'). cbn. lia. }
      pose proof (zlen_nonneg m'). unfold one_less. rewrite bool_decide_true by lia.
      assert (Hh1 : header_ tb1 = header_ tb).
      { rewrite (keeps_header _ _ _ Hk), Hn. apply with_next_same. }
      split; [|cbn; lia]. split; cbn [header_ with_count]; rewrite ?Hh1; try done.
      * eapply (layout_files tb1); [done|done|done|]. eapply layout_update; [done|done|done|done|]. by left.
      * intros b' Hb'. pose proof (Hown b' Hb') as Hob. destruct (decide (b = b')) as [<-|Hne].
        -- rewrite fn_lookup_insert. unfold owned in Hob. rewrite Hrefs, Hm' in Hob. fold (owned (header_ tb) b) in Hob.
           rewrite !filter_cons, !decide_True in Hob by (by apply Hmb). by apply Permutation_cons_inv in Hob.
        -- rewrite fn_lookup_insert_ne, Hob by done. unfold owned. rewrite Hm', filter_cons, decide_False; [done|].
           rewrite Hmb by done. done.
    + intros [-> Hno]. cbn [snd]. split; [done|]. intros r Hin. destruct (matches key expected r) eqn:E; [|done]. rewrite <- E. apply Hno.
      assert (Hr : r ∈ owned (header_ tb) b m) by (apply list_elem_of_filter; split; [by apply Hmb|done]).
      rewrite <- (Hown b Hb) in Hr. by apply list_elem_of_filter in Hr as [_ ?].
Qed.
End table.
