(* ===== verification/DiskHashSplit.v ===== *)
(** * Growing the hash table

    A split copies the entries that move to a fresh bucket and then advances the addressing
    state: the multimap is the same before, after, and for a process that dies between the two.
    Insertion, rehashing and reopening are built on it. *)

From stdpp Require Import functions.
From S2P Require Import Prelude.
From S2P Require Import Bytes.
From S2P Require Import WalPage.
From S2P Require Import DiskHashTable.
From S2P Require Import DiskHashPage.
From S2P Require Import DiskHashChain.
From S2P Require Import DiskHashSpec.
Import disk_hash_table.
#[local] Open Scope Z_scope.

(** Where the entries of a bucket are after a split. *)
Lemma bucket_of_split h kh b :
  header_ok h -> 0 <= b <= bucket_count_value h ->
  bucket_of (advance h (2 ^ level_value h)) kh = b <->
  if bool_decide (b = bucket_count_value h) then
    bucket_of h kh = split_bucket_value h /\ kh mod (2 * 2 ^ level_value h) <> split_bucket_value h
  else if bool_decide (b = split_bucket_value h) then
    bucket_of h kh = split_bucket_value h /\ kh mod (2 * 2 ^ level_value h) = split_bucket_value h
  else bucket_of h kh = b.
Proof.
  intros Ho Hb. rewrite bucket_of_advance by done. pose proof (bucket_of_range h kh Ho) as Hr.
  pose proof (header_ok_bounds h Ho) as Hbd. destruct Ho as [Hs Hl Hsp Hc].
  assert (Hd : bucket_of h kh = split_bucket_value h ->
               kh mod (2 * 2 ^ level_value h) = split_bucket_value h \/ kh mod (2 * 2 ^ level_value h) = bucket_count_value h).
  { unfold bucket_of. pose proof (Z.mod_pos_bound kh (2 ^ level_value h) ltac:(lia)).
    destruct (mod_double kh (2 ^ level_value h) ltac:(lia)) as [E|E]; rewrite E; case_bool_decide; lia. }
  repeat case_bool_decide; lia.
Qed.

Section split.
Context (disk_ok : Z -> bool).
Hypothesis disk_limit : forall p, disk_ok p = true -> p < overflow_page_id_base + 2 ^ 51.
Context (seed : Z).
Hypothesis seed_ok : in_width 32 seed.

(** ** Copying *)

Section copy.
Context (h : header_t) (n nb : Z).
Hypothesis h_ok : header_ok h.
Hypothesis nb_range : 0 <= nb < n.

Let B := 2 ^ level_value h.
Let s := split_bucket_value h.

(** The entries of the split bucket that move. *)
Definition moves (r : ref) : Prop := bucket_of h (ref_hash seed r) = s /\ ref_hash seed r mod (2 * B) <> s.

#[global] Instance moves_dec r : Decision (moves r).
Proof. unfold moves. apply _. Defined.

Definition same_addressing (tb : t) : Prop := header_ tb = with_next_overflow h (next_page tb).

Lemma same_addressing_keeps js tb tb' : same_addressing tb -> keeps js tb tb' -> same_addressing tb'.
Proof. intros E K. unfold same_addressing in *. rewrite (keeps_header _ _ _ K), E. done. Qed.

Lemma copy_slots_on l k next tb bk :
  fits (l ++ k) -> cells_ok k -> layout seed tb n bk -> same_addressing tb ->
  returns refused (copy_slots disk_ok tb s nb (2 * B) (image seed (l ++ k) next) (seqZ (zlen l) (zlen k)))
    (fun tb' => exists bk', added seed n nb (rev (filter moves (used_refs k))) tb tb' bk bk').
Proof.
  revert l tb bk. induction k as [|c k IH]; intros l tb bk Hf Hok L Ha.
  { exists bk. by apply added_nil. }
  apply Forall_cons in Hok as [Hr Hok]. rewrite zlen_cons, seqZ_cons by (pose proof (zlen_nonneg k); lia). cbn [copy_slots].
  rewrite read_slot_image by done. cbn [mbind outcome_bind]. rewrite slot_of_skip by done.
  replace (Z.pred (zlen k + 1)) with (zlen k) by lia. replace (Z.succ (zlen l)) with (zlen (l ++ [c])) by (rewrite zlen_app; done).
  assert (E : l ++ c :: k = (l ++ [c]) ++ k) by (by rewrite <- app_assoc).
  rewrite used_refs_cons. destruct (used c) eqn:Hu; cbn [negb]; [|rewrite E in *; by apply IH].
  rewrite slot_belongs_eq by (rewrite Ha; by apply header_ok_next). cbn [mbind outcome_bind key_hash slot_of].
  rewrite Ha, bucket_of_next. cbn [app]. rewrite filter_cons.
  destruct (decide (moves (c_ref c))) as [Hm|Hm].
  - pose proof Hm as [Hm1 Hm2]. rewrite (bool_decide_true (bucket_of _ _ = s)), (bool_decide_false (_ mod _ = s)) by done. cbn [negb orb].
    cbn [offset length_ slot_of]. rewrite read_payload_image by done. cbn [mbind outcome_bind].
    eapply returns_bind; [by apply insert_bucket|]. intros tb1 [bk1 A1].
    rewrite E in *. eapply returns_mono; [apply (IH (l ++ [c]) tb1 bk1); try done; [apply A1|]|].
    + eapply same_addressing_keeps; [done|apply A1].
    + intros tb2 [bk2 A2]. exists bk2. cbn [rev]. by eapply added_trans.
  - assert (negb (bool_decide (bucket_of h (ref_hash seed (c_ref c)) = s)) || bool_decide (ref_hash seed (c_ref c) mod (2 * B) = s) = true) as ->.
    { unfold moves in Hm. repeat case_bool_decide; cbn; try done. naive_solver. }
    rewrite E in *. by apply IH.
Qed.

Lemma copy_chain_on fuel tb bk id c :
  layout seed tb n bk -> same_addressing tb -> chain_on seed tb id c -> below (next_page tb) c ->
  (forall i, i ∈ ids c -> i ∉ ids (bk nb)) -> (length c < fuel)%nat ->
  returns refused (copy_chain disk_ok fuel tb s nb (2 * B) id)
    (fun tb' => exists bk' rs, added seed n nb rs tb tb' bk bk' /\ rs ≡ₚ filter moves (refs c)).
Proof.
  revert tb bk id c. induction fuel as [|fuel IH]; intros tb bk id c L Ha Hc Hb Hd Hfuel; [lia|]. cbn [copy_chain].
  destruct c as [|[i cs] c].
  { cbn in Hc. rewrite bool_decide_true by done. exists bk, []. split; [by apply added_nil|done]. }
  destruct Hc as (-> & Hi0 & Hf & Hok & next & Hw & Hread & Hc). apply below_cons in Hb as [Hi Hb].
  rewrite bool_decide_false by done. rewrite Hread. cbn [mbind outcome_bind]. rewrite page_count_image by done. cbn [mbind outcome_bind].
  eapply returns_bind; [by apply (copy_slots_on [] cs next tb bk)|]. intros tb1 [bk1 A1].
  rewrite page_overflow_image by done. cbn [mbind outcome_bind].
  pose proof (keeps_next _ _ _ (add_keeps _ _ _ _ _ _ _ _ A1)) as Hn1.
  eapply returns_mono; [apply (IH tb1 bk1 next c)|].
  - apply A1.
  - eapply same_addressing_keeps; [done|apply A1].
  - eapply chain_on_keeps; [apply A1|done| |done]. intros j Hj. apply Hd. by right.
  - eapply Forall_impl; [done|]. cbn. lia.
  - intros j Hj Hj'. apply (add_ids _ _ _ _ _ _ _ _ A1) in Hj' as [Hj'|Hj'].
    + eapply Hd; [|done]. by right.
    + unfold below in Hb. rewrite Forall_forall in Hb. apply Hb in Hj. lia.
  - cbn in Hfuel. lia.
  - intros tb2 (bk2 & rs & A2 & Hrs). exists bk2, (rs ++ rev (filter moves (used_refs cs))). split; [by eapply added_trans|].
    rewrite refs_cons, filter_app, Hrs, Permutation_app_comm. by rewrite <- Permutation_rev.
Qed.
End copy.

(** ** One split *)

(** A fresh bucket after the last one. *)
Lemma layout_grow tb n bk :
  layout seed tb n bk -> n < UINT32_MAX ->
  layout seed (put_page tb (1 + n) (image seed [] 0)) (n + 1) (<[n := [(1 + n, [])]]> bk).
Proof.
  intros L Hn. pose proof (lay_n _ _ _ _ L) as Hn0. pose proof (lay_next _ _ _ _ L) as Hnext.
  assert (Hlen : zlen (image seed [] 0) = page_size) by (apply zlen_page_image, fits_empty).
  pose proof (put_page_keeps tb (1 + n) _ ltac:(lia) Hlen) as Hk.
  assert (Hids : forall b i, 0 <= b < n -> i ∈ ids (bk b) -> i <> 1 + n).
  { intros b i Hb. rewrite (layout_ids _ _ _ _ _ L Hb). intros [->|Hi]%elem_of_cons; [lia|].
    pose proof (lay_ovf _ _ _ _ L b Hb) as Ho. rewrite Forall_forall in Ho. apply Ho in Hi. unfold overflow_page_id_base, UINT32_MAX in *. lia. }
  split; rewrite ?next_put; try done; [lia| | | |].
  - intros b Hb. destruct (decide (n = b)) as [<-|Hne].
    + rewrite fn_lookup_insert. split_and!; [done|lia|apply fits_empty|by constructor|]. exists 0.
      split_and!; [split; lia|by apply put_page_same; [lia|]|done].
    + rewrite fn_lookup_insert_ne by done. eapply chain_on_keeps; [done|eapply layout_below; [done|lia]| |apply (lay_chain _ _ _ _ L); lia].
      intros i Hi ->%list_elem_of_singleton. eapply Hids; [|done|done]. lia.
  - intros b Hb. destruct (decide (n = b)) as [<-|Hne]; [rewrite fn_lookup_insert; apply NoDup_singleton|].
    rewrite fn_lookup_insert_ne by done. apply (lay_nodup _ _ _ _ L). lia.
  - intros b Hb. destruct (decide (n = b)) as [<-|Hne]; [by rewrite fn_lookup_insert|].
    rewrite fn_lookup_insert_ne by done. apply (lay_ovf _ _ _ _ L). lia.
  - intros b b' i Hb Hb'. destruct (decide (n = b)) as [<-|Hne], (decide (n = b')) as [<-|Hne']; [done| | |];
      rewrite ?fn_lookup_insert, ?fn_lookup_insert_ne by done.
    + intros ->%list_elem_of_singleton Hi. exfalso. eapply Hids; [|exact Hi|done]. lia.
    + intros Hi ->%list_elem_of_singleton. exfalso. eapply Hids; [|exact Hi|done]. lia.
    + apply (lay_disjoint _ _ _ _ L); lia.
Qed.

(** What the copy phase leaves: the buckets as they were, and the new one with the entries that
    move, under the old addressing. *)
Record copied (tb tb' : t) (bk bk' : Z -> chain) : Prop := {
  cp_layout : layout seed tb' (bucket_count_value (header_ tb) + 1) bk';
  cp_other b : b <> bucket_count_value (header_ tb) -> bk' b = bk b;
  cp_refs : refs (bk' (bucket_count_value (header_ tb))) ≡ₚ
            filter (fun r => moves (header_ tb) r) (refs (bk (split_bucket_value (header_ tb))));
  cp_keeps : keeps [1 + bucket_count_value (header_ tb)] tb tb';
}.

Lemma split_copy_copied tb bk m :
  stores seed tb bk m -> bucket_count_value (header_ tb) <> UINT32_MAX ->
  returns refused (split_copy disk_ok tb (2 ^ level_value (header_ tb)) (bucket_count_value (header_ tb)))
    (fun tb' => exists bk', copied tb tb' bk bk').
Proof.
  intros [Ho Hs L Hown] Hmax. pose proof (header_ok_bounds _ Ho) as Hb. pose proof Ho as [_ Hlv Hsp Hc].
  set (n := bucket_count_value (header_ tb)) in *. set (s := split_bucket_value (header_ tb)) in *.
  unfold split_copy. rewrite (init_empty_page_image seed). cbn [mbind outcome_bind]. rewrite !primary_id by lia.
  assert (Hlen : zlen (image seed [] 0) = page_size) by (apply zlen_page_image, fits_empty).
  eapply returns_bind; [apply (write_returns disk_ok disk_limit); [lia|done]|]. intros tb0 [Hd ->].
  pose proof (layout_grow tb n bk L ltac:(lia)) as L0. set (tb0 := put_page tb (1 + n) (image seed [] 0)) in *.
  set (bk0 := <[n := [(1 + n, [])]]> bk) in *.
  assert (Hk0 : keeps [1 + n] tb tb0) by (apply put_page_keeps; [lia|done]).
  assert (Hbs : bk0 s = bk s) by (unfold bk0; rewrite fn_lookup_insert_ne; [done|lia]).
  eapply returns_mono; [apply (copy_chain_on (header_ tb) (n + 1) n Ho ltac:(lia) (chain_fuel tb0) tb0 bk0 (1 + s) (bk s) L0)|].
  - unfold same_addressing. by rewrite (keeps_header _ _ _ Hk0).
  - rewrite <- Hbs. apply (lay_chain _ _ _ _ L0). lia.
  - rewrite <- Hbs. eapply layout_below; [done|lia].
  - intros i Hi Hi'. rewrite <- Hbs in Hi. assert (s = n); [|lia]. eapply (lay_disjoint _ _ _ _ L0); [lia|lia|done|done].
  - rewrite <- Hbs. pose proof (layout_fuel _ _ _ _ s L0 ltac:(lia)). lia.
  - intros tb' (bk' & rs & [AL AO AR AK AI] & Hrs). exists bk'. split; fold n; fold s.
    + done.
    + intros b Hb'. rewrite AO by done. unfold bk0. by rewrite fn_lookup_insert_ne.
    + rewrite AR, Hrs. unfold bk0 at 1. rewrite fn_lookup_insert. cbn. by rewrite app_nil_r.
    + eapply keeps_trans; [|exact Hk0|exact AK]. unfold bk0. rewrite fn_lookup_insert. by left.
Qed.

Lemma advance_next h n B : advance (with_next_overflow h n) B = with_next_overflow (advance h B) n.
Proof. unfold advance. cbn. by case_bool_decide. Qed.

Lemma owned_split_new h rs :
  header_ok h -> owned seed (advance h (2 ^ level_value h)) (bucket_count_value h) rs =
                 filter (fun r => moves h r) (owned seed h (split_bucket_value h) rs).
Proof.
  intros Ho. pose proof (header_ok_bounds h Ho). unfold owned, moves. rewrite list_filter_filter. apply list_filter_iff. intros r.
  rewrite bucket_of_split by (done || lia). rewrite bool_decide_true by done. tauto.
Qed.

Lemma owned_split_old h rs :
  header_ok h -> owned seed (advance h (2 ^ level_value h)) (split_bucket_value h) rs =
                 filter (fun r => ~ moves h r) (owned seed h (split_bucket_value h) rs).
Proof.
  intros Ho. pose proof (header_ok_bounds h Ho). pose proof Ho as [_ _ Hs Hc]. unfold owned, moves.
  rewrite list_filter_filter. apply list_filter_iff. intros r.
  rewrite bucket_of_split by (done || lia). rewrite bool_decide_false by lia. rewrite bool_decide_true by done.
  destruct (decide (ref_hash seed r mod (2 * 2 ^ level_value h) = split_bucket_value h)); tauto.
Qed.

Lemma owned_split_other h b rs :
  header_ok h -> 0 <= b < bucket_count_value h -> b <> split_bucket_value h ->
  owned seed (advance h (2 ^ level_value h)) b rs = owned seed h b rs.
Proof.
  intros Ho Hb Hne. unfold owned. apply list_filter_iff. intros r.
  rewrite bucket_of_split by (done || lia). rewrite !bool_decide_false by lia. done.
Qed.

(** Publishing the new addressing state keeps the multimap. *)
Lemma copied_advance tb tb' bk bk' m :
  stores seed tb bk m -> bucket_count_value (header_ tb) <> UINT32_MAX -> copied tb tb' bk bk' ->
  stores seed (with_header tb' (advance (header_ tb') (2 ^ level_value (header_ tb)))) bk' m.
Proof.
  intros [Ho Hs L Hown] Hmax [CL CO CR CK]. pose proof (keeps_header _ _ _ CK) as Hh.
  pose proof (header_ok_bounds _ Ho) as Hb. pose proof Ho as [_ _ Hsp Hc]. destruct (advance_ok _ Ho Hmax) as [Ho' Hc'].
  rewrite Hh, advance_next. set (h' := advance (header_ tb) (2 ^ level_value (header_ tb))) in *.
  assert (Hhead : header_ (with_header tb' (with_next_overflow h' (next_page tb'))) = with_next_overflow h' (next_page tb')) by done.
  split; rewrite ?Hhead.
  - by apply header_ok_next.
  - cbn. unfold h', advance. by case_bool_decide.
  - cbn [bucket_count_value with_next_overflow]. rewrite Hc'. by eapply (layout_files seed tb').
  - cbn [bucket_count_value with_next_overflow]. rewrite Hc'. intros b Hb'.
    assert (Hnext : forall rs, owned seed (with_next_overflow h' (next_page tb')) b rs = owned seed h' b rs) by done. rewrite !Hnext. clear Hnext.
    destruct (decide (b = bucket_count_value (header_ tb))) as [->|Hne].
    + unfold h'. rewrite !owned_split_new by done. rewrite <- (Hown (split_bucket_value (header_ tb))) by lia.
      unfold owned at 1. rewrite CR. unfold owned, moves. rewrite !list_filter_filter.
      erewrite list_filter_iff; [done|]. cbn. tauto.
    + rewrite CO by done. destruct (decide (b = split_bucket_value (header_ tb))) as [->|Hne'].
      * unfold h'. rewrite !owned_split_old by done. by rewrite Hown by lia.
      * unfold h'. rewrite !owned_split_other by (done || lia). apply Hown. lia.
Qed.

(** ** The header page *)

Lemma zlen_hash_header h : zlen (header_page h) = page_size.
Proof. unfold header_page. len. rewrite !zlen_zeros by (unfold page_size; lia). unfold page_size. lia. Qed.

Lemma persist_returns tb :
  returns refused (persist_header disk_ok tb) (fun tb' => disk_ok 0 = true /\ tb' = put_page tb 0 (header_page (header_ tb))).
Proof. unfold persist_header. destruct (disk_ok 0); [done|by right]. Qed.

(** Writing the header page touches no bucket. *)
Lemma layout_header_page tb n bk page : zlen page = page_size -> layout seed tb n bk -> layout seed (put_page tb 0 page) n bk.
Proof.
  intros Hp L. pose proof (put_page_keeps tb 0 page ltac:(lia) Hp) as Hk. pose proof L as [L1 L2 L3 L4 L5 L6].
  split; rewrite ?next_put; try done. intros b Hb. eapply chain_on_keeps; [done|by eapply layout_below| |by apply L3].
  intros i Hi ->%list_elem_of_singleton. rewrite (layout_ids _ _ _ _ _ L Hb) in Hi. apply elem_of_cons in Hi as [?|Hi]; [lia|].
  specialize (L5 b Hb). rewrite Forall_forall in L5. apply L5 in Hi. unfold overflow_page_id_base in Hi. lia.
Qed.

Lemma header_put tb id page : header_ (put_page tb id page) = header_ tb.
Proof. unfold put_page. by destruct (is_overflow_page_id id). Qed.

Lemma count_put tb id page : entry_count_ (put_page tb id page) = entry_count_ tb.
Proof. unfold put_page. by destruct (is_overflow_page_id id). Qed.

Lemma holds_header_page tb bk m page : zlen page = page_size -> holds seed tb bk m -> holds seed (put_page tb 0 page) bk m.
Proof.
  intros Hp [[Ho Hs L Hown] Hc]. split; [|by rewrite count_put]. split; rewrite ?header_put; try done. by apply layout_header_page.
Qed.

(** The header page on disk is the header in memory. *)
Definition synced (tb : t) : Prop := read_page tb 0 = Ok (header_page (header_ tb)).

Lemma synced_persist tb : synced (put_page tb 0 (header_page (header_ tb))).
Proof. unfold synced. rewrite header_put. apply put_page_same; [lia|apply zlen_hash_header]. Qed.

(** ** Splitting, rehashing, inserting *)

Lemma split_one_holds tb bk m durable :
  holds seed tb bk m -> bucket_count_value (header_ tb) <> UINT32_MAX ->
  returns refused (split_one_bucket_unlocked disk_ok tb durable) (fun p =>
    p.1 = true /\ (exists bk', holds seed p.2 bk' m) /\ bucket_count_value (header_ p.2) = bucket_count_value (header_ tb) + 1 /\
    (durable = true -> synced p.2)).
Proof.
  intros [HS Hcnt] Hmax. pose proof HS as [Ho _ _ _]. pose proof (header_ok_bounds _ Ho) as Hb. pose proof Ho as [_ Hlv Hsp Hc].
  unfold split_one_bucket_unlocked. rewrite bool_decide_false by done. rewrite bool_decide_false by lia. rewrite bool_decide_false by lia.
  rewrite wrap_small by (unfold in_width, UINT32_MAX in *; lia). rewrite bool_decide_true by done. cbn [negb]. rewrite <- Hc.
  eapply returns_bind; [by eapply split_copy_copied|]. intros tb1 [bk1 HC].
  pose proof (copied_advance _ _ _ _ _ HS Hmax HC) as HS1. destruct (advance_ok _ Ho Hmax) as [_ Hc1].
  assert (Hcount : bucket_count_value (advance (header_ tb1) (2 ^ level_value (header_ tb))) = bucket_count_value (header_ tb) + 1).
  { by rewrite (keeps_header _ _ _ (cp_keeps _ _ _ _ HC)), advance_next. }
  set (tb2 := with_header tb1 _) in *.
  assert (H2 : holds seed tb2 bk1 m) by (split; [done|]; cbn; by rewrite (keeps_count _ _ _ (cp_keeps _ _ _ _ HC))).
  destruct durable.
  - eapply returns_bind; [apply persist_returns|]. intros tb3 [_ ->]. cbn [mret outcome_ret returns fst snd]. split_and!; [done| | |].
    + exists bk1. apply holds_header_page; [apply zlen_hash_header|done].
    + by rewrite header_put.
    + intros _. apply synced_persist.
  - split_and!; [done|by exists bk1|done|done].
Qed.

Lemma split_until_holds fuel tb bk m target durable changed :
  holds seed tb bk m -> target <= UINT32_MAX -> target - bucket_count_value (header_ tb) < Z.of_nat fuel -> (0 < fuel)%nat ->
  returns refused (split_until disk_ok fuel tb target durable changed) (fun p =>
    (exists bk', holds seed p.2 bk' m) /\ bucket_count_value (header_ p.2) = Z.max target (bucket_count_value (header_ tb)) /\
    p.1 = changed || bool_decide (bucket_count_value (header_ tb) < target) /\
    (durable = true -> synced tb \/ bucket_count_value (header_ tb) < target -> synced p.2)).
Proof.
  revert tb bk changed. induction fuel as [|fuel IH]; intros tb bk changed H Ht Hfuel H0; [lia|]. cbn [split_until].
  case_bool_decide as Hle.
  - cbn. split_and!; [by exists bk|lia| |intros _ [?|?]; [done|lia]]. rewrite bool_decide_false by lia. by rewrite orb_false_r.
  - eapply returns_bind; [eapply split_one_holds; [done|lia]|]. intros [c tb1]. cbn [fst snd]. intros (-> & [bk1 H1] & Hc1 & Hs1).
    eapply returns_mono; [apply (IH tb1 bk1 (true || changed)); [done|done|lia|lia]|].
    intros p (Hex & Hc & Hp & Hs). split_and!; [done|lia| |].
    + rewrite Hp. cbn [orb]. rewrite bool_decide_true by lia. by rewrite orb_true_r.
    + intros Hd _. apply Hs; [done|]. left. by apply Hs1.
Qed.

Lemma holds_rehash tb bk m b : holds seed tb bk m -> holds seed (with_rehash tb b) bk m.
Proof. intros [[Ho Hs L Hown] Hc]. split; [split|]; try done. by eapply (layout_files seed tb). Qed.

Lemma synced_files tb tb' : file_ tb' = file_ tb -> header_ tb' = header_ tb -> synced tb -> synced tb'.
Proof. unfold synced, read_page, main_page_count. cbn. by intros -> ->. Qed.

Lemma rehash_holds tb bk m new_count :
  holds seed tb bk m -> 0 < new_count <= UINT32_MAX ->
  returns refused (rehash_unlocked disk_ok tb new_count) (fun p =>
    (exists bk', holds seed p.2 bk' m) /\ bucket_count_value (header_ p.2) = Z.max new_count (bucket_count_value (header_ tb)) /\
    p.1 = bool_decide (bucket_count_value (header_ tb) < new_count) /\ (p.1 = true -> synced p.2)).
Proof.
  intros H Hn. unfold rehash_unlocked. rewrite bool_decide_false by lia. case_bool_decide as Hle.
  - cbn. split_and!; [by exists bk|lia|by rewrite bool_decide_false by lia|done].
  - eapply returns_bind; [apply (split_until_holds _ (with_rehash tb true) bk m); [by apply holds_rehash|lia|unfold split_fuel; cbn; lia|unfold split_fuel; lia]|].
    intros [c tb1]. cbn [fst snd with_rehash header_]. intros ([bk1 H1] & Hc & -> & Hs). cbn [returns mret outcome_ret fst snd].
    split_and!; [exists bk1; by apply holds_rehash|done|done|]. intros _. eapply (synced_files tb1); [done|done|]. apply Hs; [done|]. right. lia.
Qed.

Lemma maybe_rehash_holds tb bk m :
  holds seed tb bk m ->
  returns refused (maybe_rehash_if_needed_unlocked disk_ok tb) (fun p => (exists bk', holds seed p.2 bk' m) /\ (p.1 = true -> synced p.2)).
Proof.
  intros H. unfold maybe_rehash_if_needed_unlocked. destruct (_ || _ || _ || _ || _); [split; [by exists bk|done]|].
  eapply returns_bind; [apply (split_until_holds _ tb bk m (target_buckets tb)); [done|unfold target_buckets; lia|unfold split_fuel; lia|unfold split_fuel; lia]|].
  intros [c tb1]. cbn [fst snd]. intros ([bk1 H1] & _ & _ & _). destruct c; [|split; [by exists bk1|done]].
  eapply returns_bind; [apply persist_returns|]. intros tb2 [_ ->]. cbn. split; [|intros _; apply synced_persist].
  exists bk1. apply holds_header_page; [apply zlen_hash_header|done].
Qed.

Lemma put_holds tb bk m r :
  holds seed tb bk m -> ref_ok r -> zlen m + 1 < 2 ^ 64 ->
  returns refused (put disk_ok tb (r_key r) (r_value r) (r_file r) (r_off r)) (fun p => p.1 = true /\ exists bk', holds seed p.2 bk' (r :: m)).
Proof.
  intros [HS Hcnt] Hr Hm. pose proof HS as [Ho Hs L Hown]. unfold put, hash_key. rewrite Hs, bucket_id_for_hash_eq by done.
  cbn [mbind outcome_bind]. fold (ref_hash seed r). fold (payload_of r). set (b := bucket_of (header_ tb) (ref_hash seed r)).
  pose proof (bucket_of_range _ (ref_hash seed r) Ho) as Hb. fold b in Hb. pose proof (zlen_nonneg m).
  eapply returns_bind; [by apply insert_bucket|]. intros tb1 [bk1 [AL AO AR AK _]].
  pose proof (keeps_header _ _ _ AK) as Hh.
  assert (H1 : holds seed (with_count tb1 (u64 (entry_count_ tb1 + 1))) bk1 (r :: m)).
  { split; [split|]; cbn [header_ with_count entry_count_].
    - rewrite Hh. by apply header_ok_next.
    - by rewrite Hh.
    - rewrite Hh. cbn [bucket_count_value with_next_overflow]. by eapply (layout_files seed tb1).
    - rewrite Hh. cbn [bucket_count_value with_next_overflow]. intros b' Hb'.
      assert (Hn : forall rs, owned seed (with_next_overflow (header_ tb) (next_page tb1)) b' rs = owned seed (header_ tb) b' rs) by done.
      rewrite !Hn, owned_cons. fold b. destruct (decide (b = b')) as [<-|Hne].
      + unfold owned at 1. rewrite AR. cbn [app]. rewrite filter_cons, decide_True by done. fold (owned seed (header_ tb) b). by rewrite <- Hown.
      + rewrite AO by done. by apply Hown.
    - rewrite (keeps_count _ _ _ AK), Hcnt, zlen_cons. apply wrap_small. split; lia. }
  eapply returns_bind; [by eapply maybe_rehash_holds|]. intros [c tb2] [Hex _]. done.
Qed.
End split.
