(* ===== verification/DiskHashOpen.v ===== *)
(** * Creating, closing and reopening the hash table

    A new table is empty, a closed table opens with the multimap it had, and so does the
    table of a process that died between the copy phase of a split and the header write. *)

From stdpp Require Import functions.
From S2P Require Import Prelude.
From S2P Require Import Bytes.
From S2P Require Import WalPage.
From S2P Require Import DiskHashTable.
From S2P Require Import DiskHashPage.
From S2P Require Import DiskHashChain.
From S2P Require Import DiskHashSpec.
From S2P Require Import DiskHashSplit.
Import disk_hash_table.
#[local] Open Scope Z_scope.

(** ** The linear state of a bucket count *)

Lemma linear_level_spec fuel n level :
  0 <= level <= 31 -> 2 ^ level <= n <= UINT32_MAX -> 32 - level <= Z.of_nat fuel ->
  exists l, linear_level fuel n (2 ^ level) level = (2 ^ l, l) /\ level <= l <= 31 /\ 2 ^ l <= n < 2 * 2 ^ l.
Proof.
  revert level. induction fuel as [|fuel IH]; intros level Hl Hn Hf; [lia|]. cbn [linear_level]. unfold UINT32_MAX in *.
  assert (Hp : 2 ^ (level + 1) = 2 * 2 ^ level) by (rewrite Z.pow_add_r by lia; lia).
  destruct (decide (level = 31)) as [->|Hne].
  - change (u32 (2 * 2 ^ 31)) with 0. cbn. exists 31. split_and!; try done; lia.
  - assert (2 ^ (level + 1) <= 2 ^ 31) by (apply Z.pow_le_mono_r; lia).
    assert (0 < 2 ^ level) by (apply Z.pow_pos_nonneg; lia).
    rewrite wrap_small by (unfold in_width; lia). rewrite (bool_decide_false (_ = 0)) by lia. cbn [negb andb].
    case_bool_decide as Hc.
    + rewrite <- Hp in *. destruct (IH (level + 1)) as (l & E & Hll & Hln); [lia|lia|lia|]. exists l. split_and!; try done; lia.
    + exists level. split_and!; try done; lia.
Qed.

Lemma initialize_linear_state_ok h :
  0 < bucket_count_value h <= UINT32_MAX -> page_size_value h = page_size ->
  exists h', initialize_linear_state_from_bucket_count h = Ok h' /\ header_ok h' /\ bucket_count_value h' = bucket_count_value h /\
             next_overflow_page h' = next_overflow_page h /\ hash_seed_value h' = hash_seed_value h.
Proof.
  intros Hn Hp. unfold initialize_linear_state_from_bucket_count. rewrite bool_decide_false by lia.
  destruct (linear_level_spec 32 (bucket_count_value h) 0) as (l & E & Hl & Hb); [lia|lia|lia|]. change (2 ^ 0) with 1 in E. rewrite E.
  eexists. split; [done|]. split_and!; try done. split; cbn; try done; lia.
Qed.

(** ** Reading the header page *)

Record header_fields_ok (h : header_t) : Prop := {
  hf_size : in_width 32 (page_size_value h);
  hf_count : in_width 32 (bucket_count_value h);
  hf_next : in_width 64 (next_overflow_page h);
  hf_level : in_width 32 (level_value h);
  hf_split : in_width 32 (split_bucket_value h);
  hf_seed : in_width 32 (hash_seed_value h);
}.

Lemma read_bytes_start_inv (f p : bytes) n : read_bytes f 0 n = Ok p -> exists rest, f = p ++ rest.
Proof.
  unfold read_bytes. case_bool_decide; [|done]. intros [= <-]. exists (drop (Z.to_nat n) f). by rewrite take_drop.
Qed.

Lemma load_header_page f h :
  read_bytes f 0 page_size = Ok (header_page h) -> header_fields_ok h -> load_header f = Ok h.
Proof.
  intros Hr [H1 H2 H3 H4 H5 H6]. pose proof (read_bytes_range _ _ _ _ Hr) as Hlen. unfold load_header. rewrite bool_decide_false by lia.
  apply read_bytes_start_inv in Hr as [rest ->]. unfold header_page. rewrite <- !app_assoc.
  set (w0 := zeros 12). set (w1 := write_le 4 (page_size_value h)). set (w2 := write_le 4 (bucket_count_value h)).
  set (w3 := write_le 8 (next_overflow_page h)). set (w4 := write_le 4 (level_value h)). set (w5 := write_le 4 (split_bucket_value h)).
  assert (Hw : zlen w0 = 12 /\ zlen w1 = 4 /\ zlen w2 = 4 /\ zlen w3 = 8 /\ zlen w4 = 4 /\ zlen w5 = 4).
  { subst w0 w1 w2 w3 w4 w5. rewrite !zlen_write_le. done. }
  read_after w0. read_after (w0 ++ w1). read_after (w0 ++ w1 ++ w2). read_after (w0 ++ w1 ++ w2 ++ w3).
  read_after (w0 ++ w1 ++ w2 ++ w3 ++ w4). read_after (w0 ++ w1 ++ w2 ++ w3 ++ w4 ++ w5). by destruct h.
Qed.

Section opening.
Context (disk_ok : Z -> bool).
Hypothesis disk_limit : forall p, disk_ok p = true -> p < overflow_page_id_base + 2 ^ 51.
Context (seed : Z).
Hypothesis seed_ok : in_width 32 seed.

(** ** Opening files that store a multimap *)

Lemma stores_fields tb bk m : stores seed tb bk m -> header_fields_ok (header_ tb).
Proof.
  intros [Ho Hs L _]. pose proof (header_ok_bounds _ Ho) as Hb. pose proof (lay_next _ _ _ _ L) as Hn. destruct Ho as [Hp Hl Hsp Hc].
  unfold next_page, overflow_page_id_base, UINT32_MAX in *.
  split; unfold in_width; rewrite ?Hp, ?Hs; try done; unfold page_size; lia.
Qed.

Lemma new_reopen f ovf h bk m bucket_count sd :
  stores seed (Table f ovf h 0 false false) bk m -> read_page (Table f ovf h 0 false false) 0 = Ok (header_page h) ->
  in_width 64 (zlen m) -> 0 < bucket_count ->
  new disk_ok f ovf bucket_count sd = Ok (Table f ovf h (zlen m) false false).
Proof.
  intros HS Hr Hm Hbc. pose proof HS as [Ho Hs L _]. cbn [header_] in *. pose proof (header_ok_bounds _ Ho) as Hb.
  pose proof (stores_fields _ _ _ HS) as Hf. cbn [header_] in Hf. pose proof (lay_next _ _ _ _ L) as Hn.
  apply read_page_Ok in Hr; [|lia]. change (read_bytes f 0 page_size = Ok (header_page h)) in Hr.
  pose proof (read_bytes_range _ _ _ _ Hr) as Hlen. unfold page_size in Hlen.
  unfold new. rewrite bool_decide_false by lia. unfold open_or_create. cbn [file_]. rewrite bool_decide_false by lia.
  unfold load_existing_file. cbn [file_]. rewrite (load_header_page f h Hr Hf). cbn [mbind outcome_bind].
  destruct Ho as [Hp Hl Hsp Hc]. rewrite (bool_decide_true (page_size_value h = page_size)) by done.
  rewrite (bool_decide_false (bucket_count_value h = 0)) by lia. cbn [negb orb].
  rewrite (bool_decide_false (31 < level_value h)) by lia. rewrite (bool_decide_false (2 ^ level_value h = 0)) by lia.
  rewrite (bool_decide_false (bucket_count_value h < _)) by lia. rewrite (bool_decide_false (2 ^ level_value h < split_bucket_value h)) by lia.
  rewrite wrap_small by (unfold in_width, UINT32_MAX in *; lia). rewrite (bool_decide_true (_ = bucket_count_value h)) by done.
  cbn [negb orb mbind outcome_bind mret outcome_ret]. rewrite bool_decide_false by (unfold next_page in Hn; cbn in Hn; lia).
  change (with_header (Table f ovf _ 0 false false) h) with (Table f ovf h 0 false false).
  by rewrite (count_stores seed seed_ok _ bk m).
Qed.

(** Files that agree on the header page and on the pages of the chains. *)
Lemma stores_files tb tb' bk m :
  stores seed tb bk m -> (forall id b, 1 <= id < next_page tb -> (exists k, 0 <= k < bucket_count_value (header_ tb) /\ id ∈ ids (bk k)) ->
                          read_page tb id = Ok b -> read_page tb' id = Ok b) ->
  header_ tb' = header_ tb -> stores seed tb' bk m.
Proof.
  intros [Ho Hs [L1 L2 L3 L4 L5 L6] Hown] Hpages Hh. assert (Hn : next_page tb' = next_page tb) by (unfold next_page; by rewrite Hh).
  split; rewrite ?Hh; try done. split; rewrite ?Hn; try done. intros b Hb.
  assert (HL : layout seed tb (bucket_count_value (header_ tb)) bk) by (by split).
  pose proof (layout_below _ _ _ _ _ HL Hb) as Hbel. pose proof (L3 b Hb) as Hc.
  assert (Hsub : forall i, i ∈ ids (bk b) -> exists k, 0 <= k < bucket_count_value (header_ tb) /\ i ∈ ids (bk k)) by (intros i Hi; by exists b).
  revert Hc Hbel Hsub. generalize (bk b), (1 + b). clear - Hpages. intros c. induction c as [|[i cs] c IH]; intros id; [done|].
  intros (-> & Hi & Hf & Hok & next & Hw & Hr & Hc) [Hlt Hb]%below_cons Hsub. split_and!; try done. exists next. split_and!; [done| |].
  - apply Hpages; [lia| |done]. apply Hsub. by left.
  - apply IH; [done|done|]. intros j Hj. apply Hsub. by right.
Qed.

Lemma reopen_synced tb bk m bucket_count sd :
  stores seed tb bk m -> synced tb -> in_width 64 (zlen m) -> 0 < bucket_count ->
  exists tb', new disk_ok (file_ tb) (ovf_file_ tb) bucket_count sd = Ok tb' /\ holds seed tb' bk m.
Proof.
  intros HS Hsync Hm Hbc.
  assert (HS' : forall n, stores seed (Table (file_ tb) (ovf_file_ tb) (header_ tb) n false false) bk m).
  { intros n. by eapply (stores_files tb). }
  eexists. split; [by apply (new_reopen _ _ (header_ tb) bk m)|by split].
Qed.

(** ** Closing *)

Lemma close_reopen tb bk m :
  holds seed tb bk m -> in_width 64 (zlen m) ->
  returns refused (close disk_ok tb) (fun p => forall bucket_count sd, 0 < bucket_count ->
    exists tb', new disk_ok p.1 p.2 bucket_count sd = Ok tb' /\ holds seed tb' bk m).
Proof.
  intros H Hm. unfold close. eapply returns_bind; [apply persist_returns|]. intros tb1 [_ ->]. cbn [mret outcome_ret returns fst snd].
  intros bc sd Hbc. apply reopen_synced; [|apply synced_persist|done|done].
  apply holds_stores. apply holds_header_page; [apply zlen_hash_header|done].
Qed.

(** ** A process that dies during a split *)

Lemma split_copy_crash tb bk m :
  stores seed tb bk m -> bucket_count_value (header_ tb) <> UINT32_MAX -> synced tb -> in_width 64 (zlen m) ->
  returns refused (split_copy disk_ok tb (2 ^ level_value (header_ tb)) (bucket_count_value (header_ tb))) (fun tb1 =>
    forall bucket_count sd, 0 < bucket_count ->
    exists tb', new disk_ok (file_ tb1) (ovf_file_ tb1) bucket_count sd = Ok tb' /\ holds seed tb' bk m).
Proof.
  intros HS Hmax Hsync Hm. pose proof HS as [Ho _ L _]. pose proof (header_ok_bounds _ Ho) as Hb. pose proof (lay_next _ _ _ _ L) as Hn.
  unfold overflow_page_id_base in Hn.
  eapply returns_mono; [by eapply split_copy_copied|]. intros tb1 [bk1 [CL CO CR CK]] bc sd Hbc.
  assert (HS1 : forall n, stores seed (Table (file_ tb1) (ovf_file_ tb1) (header_ tb) n false false) bk m).
  { intros n. eapply (stores_files tb); [done| |done]. intros id b Hid (k & Hk & Hin) Hr.
    change (read_page tb1 id = Ok b). apply (keeps_page _ _ _ CK); [lia| |done].
    intros ->%list_elem_of_singleton. rewrite (layout_ids _ _ _ _ _ L Hk) in Hin. apply elem_of_cons in Hin as [?|Hin]; [lia|].
    pose proof (lay_ovf _ _ _ _ L k Hk) as Hov. rewrite Forall_forall in Hov. apply Hov in Hin. unfold overflow_page_id_base, UINT32_MAX in *. lia. }
  eexists. split; [apply (new_reopen _ _ (header_ tb) bk m); [apply HS1| |done|done]|by split].
  change (read_page tb1 0 = Ok (header_page (header_ tb))). apply (keeps_page _ _ _ CK); [lia| |done].
  intros ?%list_elem_of_singleton. lia.
Qed.

(** ** A new table *)

Lemma init_buckets_layout k tb n bk :
  layout seed tb n bk -> (forall b, 0 <= b < n -> refs (bk b) = []) -> n + Z.of_nat k <= UINT32_MAX ->
  returns refused (init_buckets disk_ok tb (image seed [] 0) (seqZ n (Z.of_nat k))) (fun tb' =>
    exists bk', layout seed tb' (n + Z.of_nat k) bk' /\ (forall b, 0 <= b < n + Z.of_nat k -> refs (bk' b) = []) /\ header_ tb' = header_ tb).
Proof.
  revert tb n bk. induction k as [|k IH]; intros tb n bk L Hnil Hn.
  { exists bk. replace (n + Z.of_nat 0) with n by lia. done. }
  rewrite seqZ_cons by lia. cbn [init_buckets]. pose proof (lay_n _ _ _ _ L) as Hn0. rewrite primary_id by lia.
  assert (Hlen : zlen (image seed [] 0) = page_size) by (apply zlen_page_image, fits_empty).
  eapply returns_bind; [apply (write_returns disk_ok disk_limit); [lia|done]|]. intros tb1 [_ ->].
  replace (Z.pred (Z.of_nat (S k))) with (Z.of_nat k) by lia. change (Z.succ n) with (n + 1).
  eapply returns_mono; [apply (IH _ (n + 1) (<[n := [(1 + n, [])]]> bk)); [apply layout_grow; [done|lia]| |lia]|].
  - intros b Hb. destruct (decide (n = b)) as [<-|Hne]; [by rewrite fn_lookup_insert|]. rewrite fn_lookup_insert_ne by done. apply Hnil. lia.
  - intros tb' (bk' & L' & Hnil' & Hh). exists bk'. replace (n + Z.of_nat (S k)) with (n + 1 + Z.of_nat k) by lia.
    split_and!; [done|done|]. rewrite Hh. apply header_put.
Qed.

Lemma new_empty ovf bucket_count :
  0 < bucket_count <= UINT32_MAX ->
  returns refused (new disk_ok [] ovf bucket_count seed) (fun tb =>
    (exists bk, holds seed tb bk []) /\ bucket_count_value (header_ tb) = bucket_count).
Proof.
  intros Hn. unfold new. rewrite bool_decide_false by lia. unfold open_or_create. rewrite bool_decide_true by done.
  unfold initialize_new_file. cbn [header_ bucket_count_value].
  destruct (initialize_linear_state_ok (Header page_size bucket_count overflow_page_id_base 0 0 seed)) as (h & E & Ho & Hc & Hnx & Hsd);
    [done|done|]. cbn [level_value split_bucket_value]. rewrite E. cbn [mbind outcome_bind].
  cbn [bucket_count_value next_overflow_page hash_seed_value] in Hc, Hnx, Hsd.
  eapply returns_bind; [apply persist_returns|]. intros tb1 [_ ->]. rewrite (init_empty_page_image seed). cbn [mbind outcome_bind].
  set (tb0 := with_header _ h). rewrite Hc.
  assert (L0 : layout seed (put_page tb0 0 (header_page (header_ tb0))) 0 (fun _ => [])).
  { split; try (intros; lia). rewrite next_put. unfold next_page. cbn. rewrite Hnx. unfold overflow_page_id_base. lia. }
  replace bucket_count with (Z.of_nat (Z.to_nat bucket_count)) at 1 by lia.
  eapply returns_bind; [apply (init_buckets_layout _ _ 0 (fun _ => []) L0); [intros; lia|lia]|].
  intros tb2 (bk & L & Hnil & Hh). rewrite header_put in Hh. cbn in Hh. cbn [mret outcome_ret returns].
  replace (0 + Z.of_nat (Z.to_nat bucket_count)) with bucket_count in * by lia.
  split; [|cbn; by rewrite Hh]. exists bk. split; [|done]. split; cbn [header_ with_count]; rewrite Hh; try done.
  - rewrite Hc. by eapply (layout_files seed tb2).
  - rewrite Hc. intros b Hb. by rewrite (Hnil b Hb).
Qed.
End opening.
