(* ===== verification/DiskHashTheorems.v ===== *)
(** * What the hash table on disk guarantees

    Every run of operations on a table, reopenings included, is a run of a multimap; growing
    is safe against a crash between copying and publishing; the linear state and rehashing
    end where they should. And one failure: the allocation bound of overflow pages is not
    written when a page is handed out, so a process that dies leaves a table on which an insertion
    can loop for ever. *)

From S2P Require Import Prelude.
From S2P Require Import Bytes.
From S2P Require Import WalPage.
From S2P Require Import DiskHashTable.
From S2P Require Import DiskHashPage.
From S2P Require Import DiskHashChain.
From S2P Require Import DiskHashSpec.
From S2P Require Import DiskHashSplit.
From S2P Require Import DiskHashOpen.
Import disk_hash_table.
#[local] Open Scope Z_scope.

(** ** Operations and the multimap *)

Inductive op :=
  | op_put (r : ref)
  | op_erase (key : bytes) (expected : option Z)
  | op_get_all (key : bytes)
  | op_get (key : bytes)
  | op_for_each
  | op_rehash (new_bucket_count : Z)
  | op_trigger
  | op_suppress (suppressed : bool)
  | op_reopen
  | op_clear (new_seed : Z).

Inductive result := res_bool (b : bool) | res_refs (vs : list value_ref_t) | res_ref (v : option value_ref_t) | res_unit.

(** What a multimap may answer and become. *)
Inductive mstep (m : list ref) : op -> result -> list ref -> Prop :=
  | mstep_put r : mstep m (op_put r) (res_bool true) (r :: m)
  | mstep_erase key expected r m' : matches key expected r = true -> m ≡ₚ r :: m' -> mstep m (op_erase key expected) (res_bool true) m'
  | mstep_erase_none key expected :
      (forall r, r ∈ m -> matches key expected r = false) -> mstep m (op_erase key expected) (res_bool false) m
  | mstep_get_all key vs : vs ≡ₚ vref <$> with_key key m -> mstep m (op_get_all key) (res_refs vs) m
  | mstep_get key r : r ∈ with_key key m -> mstep m (op_get key) (res_ref (Some (vref r))) m
  | mstep_get_none key : with_key key m = [] -> mstep m (op_get key) (res_ref None) m
  | mstep_for_each vs : vs ≡ₚ vref <$> m -> mstep m op_for_each (res_refs vs) m
  | mstep_rehash n b : mstep m (op_rehash n) (res_bool b) m
  | mstep_trigger b : mstep m op_trigger (res_bool b) m
  | mstep_suppress s b : mstep m (op_suppress s) (res_bool b) m
  | mstep_reopen : mstep m op_reopen res_unit m
  | mstep_clear sd : mstep m (op_clear sd) res_unit [].

Inductive msteps : list ref -> list op -> list result -> list ref -> Prop :=
  | msteps_nil m : msteps m [] [] m
  | msteps_cons m o a m' os rs m'' : mstep m o a m' -> msteps m' os rs m'' -> msteps m (o :: os) (a :: rs) m''.

Section runs.
Context (disk_ok : Z -> bool).
Context (load : Z -> Z -> outcome (option bytes)).

Definition exec (tb : t) (o : op) : outcome (result * t) :=
  match o with
  | op_put r => '(b, tb) ← put disk_ok tb (r_key r) (r_value r) (r_file r) (r_off r); mret (res_bool b, tb)
  | op_erase key expected => '(b, tb) ← erase disk_ok load tb key expected; mret (res_bool b, tb)
  | op_get_all key => vs ← get_all load tb key; mret (res_refs vs, tb)
  | op_get key => v ← get load tb key; mret (res_ref v, tb)
  | op_for_each => vs ← for_each tb; mret (res_refs vs, tb)
  | op_rehash n => '(b, tb) ← rehash_unlocked disk_ok tb n; mret (res_bool b, tb)
  | op_trigger => '(b, tb) ← trigger_rehash_if_needed disk_ok tb; mret (res_bool b, tb)
  | op_suppress s => let '(b, tb) := set_auto_rehash_suppressed tb s in mret (res_bool b, tb)
  | op_reopen => '(f, ovf) ← close disk_ok tb; tb ← new disk_ok f ovf default_bucket_count 0; mret (res_unit, tb)
  | op_clear sd => tb ← clear disk_ok tb sd; mret (res_unit, tb)
  end.

Fixpoint run (tb : t) (os : list op) : outcome (list result * t) :=
  match os with
  | [] => mret ([], tb)
  | o :: os => '(a, tb) ← exec tb o; '(rs, tb) ← run tb os; mret (a :: rs, tb)
  end.

(** The loader returns the key of a long entry from the moment it is put. *)
Definition op_ok (o : op) : Prop :=
  match o with
  | op_put r => ref_ok r /\ loads load r
  | op_rehash n => 0 < n <= UINT32_MAX
  | op_clear sd => in_width 32 sd
  | _ => True
  end.

Definition table_of (tb : t) (m : list ref) : Prop := exists seed bk, in_width 32 seed /\ holds seed tb bk m.

Hypothesis disk_limit : forall p, disk_ok p = true -> p < overflow_page_id_base + 2 ^ 51.

Lemma holds_suppress seed tb bk m s : holds seed tb bk m -> holds seed (set_auto_rehash_suppressed tb s).2 bk m.
Proof. intros [[Ho Hs L Hown] Hc]. split; [split|]; try done. by eapply (layout_files seed tb). Qed.

Lemma get_step tb seed bk m key :
  in_width 32 seed -> holds seed tb bk m -> Forall (loads load) m ->
  exists v, get load tb key = Ok v /\ mstep m (op_get key) (res_ref v) m.
Proof.
  intros Hs H Hl. destruct (get_all_stores seed Hs load tb bk m key (holds_stores _ _ _ _ H) Hl) as (vs & E & Hp).
  unfold get. rewrite E. cbn [mbind outcome_bind mret outcome_ret]. destruct vs as [|v vs]; cbn [head].
  - exists None. split; [done|]. constructor. apply Permutation_nil in Hp. by destruct (with_key key m).
  - exists (Some v). split; [done|]. assert (Hin : v ∈ vref <$> with_key key m) by (rewrite <- Hp; by left).
    apply list_elem_of_fmap in Hin as (r & -> & Hr). by constructor.
Qed.

Lemma exec_refines tb m o :
  table_of tb m -> Forall (loads load) m -> op_ok o -> zlen m + 1 < 2 ^ 64 ->
  returns refused (exec tb o) (fun p => exists m', table_of p.2 m' /\ mstep m o p.1 m').
Proof.
  intros (seed & bk & Hs & H) Hl Hok Hm. pose proof (zlen_nonneg m) as H0. pose proof (holds_stores _ _ _ _ H) as HS. destruct o as [r|key expected|key|key| |n| |s| |sd]; cbn [exec].
  - destruct Hok as [Hr Hlr]. eapply returns_bind; [by eapply put_holds|]. intros [b tb'] [E [bk' H']]. cbn in E. subst b.
    exists (r :: m). split; [by exists seed, bk'|constructor].
  - eapply returns_bind; [by eapply erase_holds|]. intros [[|] tb']; cbn [fst snd].
    + intros (bk' & m' & r & H' & Hma & Hp). exists m'. split; [by exists seed, bk'|by econstructor].
    + intros [-> Hno]. exists m. split; [by exists seed, bk|by constructor].
  - destruct (get_all_stores seed Hs load tb bk m key HS Hl) as (vs & -> & Hp). exists m. split; [by exists seed, bk|by constructor].
  - destruct (get_step tb seed bk m key Hs H Hl) as (v & -> & Hst). exists m. split; [by exists seed, bk|done].
  - destruct (for_each_stores seed Hs tb bk m HS) as (vs & -> & Hp). exists m. split; [by exists seed, bk|by constructor].
  - eapply returns_bind; [by eapply rehash_holds|]. intros [b tb'] ([bk' H'] & _). exists m. split; [by exists seed, bk'|constructor].
  - eapply returns_bind; [by eapply maybe_rehash_holds|]. intros [b tb'] ([bk' H'] & _). exists m. split; [by exists seed, bk'|constructor].
  - exists m. split; [|constructor]. exists seed, bk. split; [done|]. by apply holds_suppress.
  - eapply returns_bind; [eapply close_reopen; [done|done|split; lia]|]. intros [f ovf] Hre. cbn [fst snd] in Hre.
    destruct (Hre default_bucket_count 0 ltac:(done)) as (tb' & -> & H'). exists m. split; [by exists seed, bk|constructor].
  - pose proof HS as [Ho _ _ _]. pose proof (header_ok_bounds _ Ho) as Hb. unfold clear. rewrite bool_decide_true by lia.
    pose proof (new_empty disk_ok disk_limit sd [] (bucket_count_value (header_ tb)) ltac:(lia)) as Hnew.
    unfold new in Hnew. rewrite bool_decide_false in Hnew by lia.
    eapply returns_bind; [exact Hnew|]. intros tb' [[bk' H'] _]. exists []. split; [by exists sd, bk'|constructor].
Qed.

Lemma mstep_loads m o a m' : mstep m o a m' -> op_ok o -> Forall (loads load) m -> Forall (loads load) m' /\ zlen m' <= zlen m + 1.
Proof.
  intros Hst Hok Hl. destruct Hst; try (split; [done|lia]).
  - rewrite zlen_cons. split; [constructor; [apply Hok|done]|lia].
  - rewrite H0 in Hl. apply Forall_cons in Hl as [_ Hl]. split; [done|]. unfold zlen. rewrite (Permutation_length H0). cbn. lia.
  - split; [done|]. rewrite zlen_nil. pose proof (zlen_nonneg m). lia.
Qed.

Lemma run_refines os tb m :
  table_of tb m -> Forall (loads load) m -> Forall op_ok os -> zlen m + zlen os < 2 ^ 64 ->
  returns refused (run tb os) (fun p => exists m', table_of p.2 m' /\ msteps m os p.1 m').
Proof.
  revert tb m. induction os as [|o os IH]; intros tb m Ht Hl Hok Hlen.
  - exists m. split; [done|constructor].
  - apply Forall_cons in Hok as [Ho Hok]. rewrite zlen_cons in Hlen. pose proof (zlen_nonneg os). cbn [run].
    eapply returns_bind; [apply (exec_refines tb m o); try done; lia|]. intros [a tb1] (m1 & Ht1 & Hst). cbn [fst snd] in *.
    destruct (mstep_loads _ _ _ _ Hst Ho Hl) as [Hl1 Hlen1].
    eapply returns_bind; [apply (IH tb1 m1); try done; lia|]. intros [rs tb2] (m2 & Ht2 & Hst2). exists m2. split; [done|]. by econstructor.
Qed.
End runs.

(** C7: from a new table on, any sequence of insertions, erasures, lookups, iterations,
    rehashings, reopenings and clearings answers as a multimap of (key, value, segment, offset)
    does, however the entries move between buckets and pages; the only fault is a write the file
    system refuses, so every loop over a chain or over the buckets ends. *)
Theorem disk_hash_table_refines disk_ok load ovf bucket_count seed os :
  (forall p, disk_ok p = true -> p < overflow_page_id_base + 2 ^ 51) ->
  0 < bucket_count <= UINT32_MAX -> in_width 32 seed -> Forall (op_ok load) os -> zlen os < 2 ^ 64 ->
  returns refused (tb ← new disk_ok [] ovf bucket_count seed; run disk_ok load tb os)
    (fun p => exists m, msteps [] os p.1 m /\ table_of p.2 m).
Proof.
  intros Hlim Hbc Hs Hok Hlen. eapply returns_bind; [by apply new_empty|]. intros tb [[bk H] _].
  eapply returns_mono; [apply (run_refines disk_ok load Hlim os tb []); [by exists seed, bk|by constructor|done|done]|].
  intros p (m & Ht & Hst). by exists m.
Qed.

(** A file system that takes every page a file offset can reach. *)
Definition all_pages (p : Z) : bool := bool_decide (p < overflow_page_id_base + 2 ^ 51).

Lemma all_pages_limit p : all_pages p = true -> p < overflow_page_id_base + 2 ^ 51.
Proof. apply bool_decide_eq_true_1. Qed.

Definition sample_key (n : Z) : bytes := replicate (Z.to_nat n) Byte.x61.
Definition sample_load (fid off : Z) : outcome (option bytes) := Ok (Some (sample_key off)).
Definition sample_ref (n v : Z) : ref := Ref (sample_key n) v 1 n.

(** Two short keys and a long one in a table of one bucket, which grows, loses an entry and is
    reopened. *)
Definition sample_ops : list op :=
  [op_put (sample_ref 3 10); op_put (sample_ref 3 11); op_put (sample_ref 70 12); op_erase (sample_key 3) (Some 10);
   op_rehash 5; op_reopen; op_get_all (sample_key 70); op_get (sample_key 3); op_for_each].

Lemma sample_ref_ok n v : 0 <= n < 2 ^ 32 -> in_signed64 v -> ref_ok (sample_ref n v) /\ loads sample_load (sample_ref n v).
Proof.
  intros Hn Hv. split; [split; cbn; try done|done].
  - unfold sample_key, zlen. rewrite length_replicate. lia.
  - unfold in_width. lia.
Qed.

Lemma disk_hash_table_refines_witness :
  returns refused (tb ← new all_pages [] [] 1 7; run all_pages sample_load tb sample_ops)
    (fun p => exists m, msteps [] sample_ops p.1 m /\ table_of p.2 m) /\
  fst <$> (tb ← new all_pages [] [] 1 7; run all_pages sample_load tb sample_ops) =
    Ok [res_bool true; res_bool true; res_bool true; res_bool true; res_bool true; res_unit;
        res_refs [ValueRef 12 1 70 true]; res_ref (Some (ValueRef 11 1 3 false));
        res_refs [ValueRef 11 1 3 false; ValueRef 12 1 70 true]].
Proof.
  split; [|by vm_compute].
  apply (disk_hash_table_refines all_pages sample_load [] 1 7 sample_ops); [|done|done| |done].
  - apply all_pages_limit.
  - repeat constructor; try (apply sample_ref_ok; unfold in_signed64; lia); done.
Defined.


(** A table with one entry, which the first insertion has grown to two buckets. *)
Definition sample_table : t :=
  match tb ← new all_pages [] [] 1 7; put all_pages tb (sample_key 3) 10 1 3 with
  | Ok p => p.2
  | Fault _ => Table [] [] (Header 0 0 0 0 0 0) 0 false false
  end.

Lemma sample_table_holds : exists bk, holds 7 sample_table bk [sample_ref 3 10].
Proof.
  unfold sample_table. pose proof (new_empty all_pages all_pages_limit 7 [] 1 ltac:(done)) as Hnew.
  destruct (new all_pages [] [] 1 7) as [tb|e] eqn:E; [|by vm_compute in E]. destruct Hnew as [[bk H] _]. cbn [mbind outcome_bind].
  pose proof (put_holds all_pages all_pages_limit 7 ltac:(done) tb bk [] (sample_ref 3 10) H) as Hput.
  specialize (Hput ltac:(apply sample_ref_ok; unfold in_signed64; lia) ltac:(done)).
  cbn [r_key r_value r_file r_off sample_ref] in Hput. destruct (put all_pages tb (sample_key 3) 10 1 3) as [p|e] eqn:Ep.
  - apply Hput.
  - injection E as <-. by vm_compute in Ep.
Qed.

Lemma sample_table_synced : synced sample_table.
Proof. by vm_compute. Qed.


(** C37: [rehash] ends, with as many buckets as asked for (never fewer than before), says whether it
    split any, and keeps the multimap; when it did, the header on disk is the one in memory. *)
Theorem rehash_reaches_count disk_ok tb seed bk m new_bucket_count :
  (forall p, disk_ok p = true -> p < overflow_page_id_base + 2 ^ 51) -> in_width 32 seed ->
  holds seed tb bk m -> 0 < new_bucket_count <= UINT32_MAX ->
  returns refused (rehash_unlocked disk_ok tb new_bucket_count) (fun p =>
    (exists bk', holds seed p.2 bk' m) /\ bucket_count_value (header_ p.2) = Z.max new_bucket_count (bucket_count_value (header_ tb)) /\
    p.1 = bool_decide (bucket_count_value (header_ tb) < new_bucket_count) /\ (p.1 = true -> synced p.2)).
Proof. intros Hlim Hs H Hn. by eapply rehash_holds. Qed.

Lemma rehash_reaches_count_witness :
  returns refused (rehash_unlocked all_pages sample_table 6) (fun p =>
    (exists bk', holds 7 p.2 bk' [sample_ref 3 10]) /\ bucket_count_value (header_ p.2) = 6 /\ p.1 = true /\ (p.1 = true -> synced p.2)).
Proof.
  destruct sample_table_holds as [bk H].
  exact (rehash_reaches_count all_pages sample_table 7 bk _ 6 all_pages_limit ltac:(done) H ltac:(done)).
Defined.

(** For every 32-bit bucket count the doubling loop ends with a state in which the count is
    2^level plus the split pointer, and every hash is then sent to an existing bucket. *)
Theorem linear_state_addresses_buckets h kh :
  0 < bucket_count_value h <= UINT32_MAX -> page_size_value h = page_size ->
  exists h' b, initialize_linear_state_from_bucket_count h = Ok h' /\ bucket_count_value h' = bucket_count_value h /\
    bucket_count_value h' = 2 ^ level_value h' + split_bucket_value h' /\ 0 <= split_bucket_value h' < 2 ^ level_value h' /\
    bucket_id_for_hash h' kh = Ok b /\ 0 <= b < bucket_count_value h.
Proof.
  intros Hn Hp. destruct (initialize_linear_state_ok h Hn Hp) as (h' & E & Ho & Hc & _). exists h', (bucket_of h' kh).
  pose proof (bucket_of_range h' kh Ho). rewrite (bucket_id_for_hash_eq h' kh Ho). destruct Ho as [_ Hl Hsp Hcnt].
  rewrite <- Hc. split_and!; done || lia.
Qed.

Lemma linear_state_addresses_buckets_witness :
  exists h' b, initialize_linear_state_from_bucket_count (Header page_size 1000 overflow_page_id_base 0 0 7) = Ok h' /\
    bucket_count_value h' = 1000 /\ bucket_count_value h' = 2 ^ level_value h' + split_bucket_value h' /\
    0 <= split_bucket_value h' < 2 ^ level_value h' /\ bucket_id_for_hash h' 123456789 = Ok b /\ 0 <= b < 1000.
Proof. apply (linear_state_addresses_buckets (Header page_size 1000 overflow_page_id_base 0 0 7) 123456789); done. Defined.

(** ** Overflow pages after a crash *)

(** One turn of the insertion loop: the page and table it goes on with, if it does. *)
Definition insert_turn (disk_ok : Z -> bool) (p : t * Z) (kh : Z) (payload : bytes) : option (t * Z) :=
  let '(tb, id) := p in
  match
    (page ← read_page tb id;
     r ← try_insert_payload_in_page page kh payload;
     match r with
     | Some page => mret None
     | None =>
         overflow ← page_overflow page;
         if bool_decide (overflow = 0) then
           '(new_page, tb) ← allocate_overflow_page disk_ok tb;
           page ← set_page_overflow page new_page;
           tb ← write_page disk_ok tb id page;
           mret (Some (tb, new_page))
         else mret (Some (tb, overflow))
     end : outcome (option (t * Z)))
  with
  | Ok o => o
  | Fault _ => None
  end.

Lemma insert_loop_turn disk_ok tb id kh payload tb' id' fuel :
  insert_turn disk_ok (tb, id) kh payload = Some (tb', id') ->
  insert_loop disk_ok (S fuel) tb id kh payload = insert_loop disk_ok fuel tb' id' kh payload.
Proof.
  unfold insert_turn. cbn [insert_loop]. destruct (read_page tb id) as [page|]; [|done]. cbn [mbind outcome_bind].
  destruct (try_insert_payload_in_page page kh payload) as [[page'|]|]; [done| |done]. cbn [mbind outcome_bind].
  destruct (page_overflow page) as [o|]; [|done]. cbn [mbind outcome_bind]. case_bool_decide; [|by intros [= <- <-]].
  destruct (allocate_overflow_page disk_ok tb) as [[n tb1]|]; [|done]. cbn [mbind outcome_bind].
  destruct (set_page_overflow page n) as [page1|]; [|done]. cbn [mbind outcome_bind].
  destruct (write_page disk_ok tb1 id page1) as [tb2|]; [|done]. by intros [= <- <-].
Qed.

(** A turn that comes back to where it was. *)
Lemma insert_loop_stuck disk_ok tb id kh payload fuel :
  insert_turn disk_ok (tb, id) kh payload = Some (tb, id) -> insert_loop disk_ok fuel tb id kh payload = Fault OutOfFuel.
Proof. intros E. induction fuel as [|fuel IH]; [done|]. by rewrite (insert_loop_turn _ _ _ _ _ _ _ _ E). Qed.

(** The same key with [n] values, put by a process that has suppressed rehashing, as loading does. *)
Fixpoint fill (tb : t) (n : nat) : outcome t :=
  match n with
  | O => mret tb
  | S n => tb ← fill tb n; '(_, tb) ← put all_pages tb (sample_key 64) (Z.of_nat n) 1 64; mret tb
  end.

Definition first_process : outcome t :=
  tb ← new all_pages [] [] 1 7; fill (set_auto_rehash_suppressed tb true).2 80.

#[global] Instance header_eq_dec : EqDecision header_t.
Proof. solve_decision. Defined.

#[global] Instance table_eq_dec : EqDecision t.
Proof. solve_decision. Defined.

(** After two turns the loop is where it will stay. *)
Definition hangs (tb : t) (kh : Z) (payload : bytes) : bool :=
  match insert_turn all_pages (tb, bucket_primary_page_id 0) kh payload with
  | Some p =>
      match insert_turn all_pages p kh payload with
      | Some q => bool_decide (insert_turn all_pages q kh payload = Some q)
      | None => false
      end
  | None => false
  end.

Lemma hangs_never_returns tb kh payload fuel :
  hangs tb kh payload = true -> insert_loop all_pages fuel tb (bucket_primary_page_id 0) kh payload = Fault OutOfFuel.
Proof.
  unfold hangs. destruct (insert_turn _ (tb, _) _ _) as [[tb1 id1]|] eqn:E1; [|done].
  destruct (insert_turn _ (tb1, id1) _ _) as [[tb2 id2]|] eqn:E2; [|done]. intros E3%bool_decide_eq_true_1.
  destruct fuel as [|fuel]; [done|]. rewrite (insert_loop_turn _ _ _ _ _ _ _ _ E1).
  destruct fuel as [|fuel]; [done|]. rewrite (insert_loop_turn _ _ _ _ _ _ _ _ E2). by apply insert_loop_stuck.
Qed.

Definition second_process_hangs (first : outcome t) : bool :=
  match first with
  | Ok dead =>
      match new all_pages (file_ dead) (ovf_file_ dead) 1 7 with
      | Ok tb => hangs tb (hash_key tb (sample_key 64)) (make_entry_payload (sample_key 64) 80 1 64)
      | Fault _ => false
      end
  | Fault _ => false
  end.

Lemma second_process_hangs_true : second_process_hangs first_process = true.
Proof. vm_cast_no_check (eq_refl true). Qed.

Lemma second_process_never_returns first :
  second_process_hangs first = true ->
  exists dead tb, first = Ok dead /\ new all_pages (file_ dead) (ovf_file_ dead) 1 7 = Ok tb /\
    forall fuel, insert_loop all_pages fuel tb (bucket_primary_page_id 0) (hash_key tb (sample_key 64))
                   (make_entry_payload (sample_key 64) 80 1 64) = Fault OutOfFuel.
Proof.
  intros H. unfold second_process_hangs in H. destruct first as [dead|]; [|done].
  destruct (new all_pages (file_ dead) (ovf_file_ dead) 1 7) as [tb|] eqn:E2; [|done].
  exists dead, tb. split; [reflexivity|]. split; [exact E2|]. intros fuel. by apply hangs_never_returns.
Qed.

