(* ===== verification/HashStorage.v ===== *)
(** * The hash index as its clients see it

    [components/index/disk_hash_storage.hpp] and the further operations of
    [disk_hash_table_t] that an index on disk calls: an interface of operations, the laws a
    client relies on (a multimap of references by key), and two implementations, the table on
    disk and a plain list. *)

From S2P Require Import Prelude.
From S2P Require Import Bytes.
From S2P Require Import DiskHashTable.
From S2P Require Import DiskHashPage.
From S2P Require Import DiskHashChain.
From S2P Require Import DiskHashSpec.
From S2P Require Import DiskHashSplit.
From S2P Require Import DiskHashOpen.
From S2P Require Import DiskHashTheorems.
Import disk_hash_table.
#[local] Open Scope Z_scope.

(** What the installed [full_key_loader_t] returns for a segment and an offset. *)
Definition loader := Z -> Z -> outcome (option bytes).

(** The operations. [hs_reopen] is the destructor followed by the constructor on the same files;
    [sync] changes nothing the model sees. *)
Class HashStorage (T : Type) := {
  hs_put : T -> bytes -> Z -> Z -> Z -> outcome (bool * T);
  hs_get : loader -> T -> bytes -> outcome (option value_ref_t);
  hs_get_all : loader -> T -> bytes -> outcome (list value_ref_t);
  hs_erase : loader -> T -> bytes -> outcome (bool * T);
  hs_for_each : T -> outcome (list value_ref_t);
  hs_suppress : T -> bool -> bool * T;
  hs_trigger : T -> outcome (bool * T);
  hs_clear : T -> outcome T;
  hs_reopen : T -> outcome T;
  hs_size : T -> Z;
}.

(** The laws: [hs_holds tb m] says that the storage holds the references [m]. *)
Class HashStorageOk (T : Type) `{HashStorage T} := {
  hs_holds : T -> list ref -> Prop;
  hs_holds_perm tb m m' : m ≡ₚ m' -> hs_holds tb m -> hs_holds tb m';
  hs_size_ok tb m : hs_holds tb m -> hs_size tb = zlen m;
  hs_put_ok tb m r :
    hs_holds tb m -> ref_ok r -> zlen m + 1 < 2 ^ 64 ->
    returns refused (hs_put tb (r_key r) (r_value r) (r_file r) (r_off r)) (fun p => hs_holds p.2 (r :: m));
  hs_get_ok load tb m key :
    hs_holds tb m -> Forall (loads load) m ->
    exists v, hs_get load tb key = Ok v /\
      match v with Some v => exists r, r ∈ m /\ r_key r = key /\ v = vref r | None => forall r, r ∈ m -> r_key r <> key end;
  hs_get_all_ok load tb m key :
    hs_holds tb m -> Forall (loads load) m -> exists vs, hs_get_all load tb key = Ok vs /\ vs ≡ₚ vref <$> with_key key m;
  hs_erase_ok load tb m key :
    hs_holds tb m -> Forall (loads load) m ->
    returns refused (hs_erase load tb key) (fun p =>
      if p.1 then exists m' r, hs_holds p.2 m' /\ r_key r = key /\ m ≡ₚ r :: m'
      else hs_holds p.2 m /\ forall r, r ∈ m -> r_key r <> key);
  hs_for_each_ok tb m : hs_holds tb m -> exists vs, hs_for_each tb = Ok vs /\ vs ≡ₚ vref <$> m;
  hs_suppress_ok tb m s : hs_holds tb m -> hs_holds (hs_suppress tb s).2 m;
  hs_trigger_ok tb m : hs_holds tb m -> returns refused (hs_trigger tb) (fun p => hs_holds p.2 m);
  hs_clear_ok tb m : hs_holds tb m -> returns refused (hs_clear tb) (fun tb' => hs_holds tb' []);
  hs_reopen_ok tb m : hs_holds tb m -> in_width 64 (zlen m) -> returns refused (hs_reopen tb) (fun tb' => hs_holds tb' m);
}.

(** ** The table on disk *)

(** [seed] is what the constructor and [clear] draw for a new file. *)
#[global] Instance table_storage (disk_ok : Z -> bool) (seed : Z) : HashStorage t := {|
  hs_put := put disk_ok;
  hs_get := get;
  hs_get_all := get_all;
  hs_erase load tb key := erase disk_ok load tb key None;
  hs_for_each := for_each;
  hs_suppress := set_auto_rehash_suppressed;
  hs_trigger := trigger_rehash_if_needed disk_ok;
  hs_clear tb := clear disk_ok tb seed;
  hs_reopen tb := '(f, ovf) ← close disk_ok tb; new disk_ok f ovf default_bucket_count seed;
  hs_size := entry_count_;
|}.

Section table_storage.
Context (disk_ok : Z -> bool) (seed : Z).
Hypothesis disk_limit : forall p, disk_ok p = true -> p < overflow_page_id_base + 2 ^ 51.
Hypothesis seed_ok : in_width 32 seed.

Lemma table_of_perm tb m m' : m ≡ₚ m' -> table_of tb m -> table_of tb m'.
Proof.
  intros Hp (sd & bk & Hs & [[Ho Hsd L Hown] Hc]). exists sd, bk. split; [done|]. split; [split; try done|].
  - intros b Hb. rewrite (Hown b Hb). unfold owned. by rewrite Hp.
  - unfold zlen in *. by rewrite <- (Permutation_length Hp).
Qed.

Lemma matches_key key r : matches key None r = bool_decide (r_key r = key).
Proof. unfold matches. by rewrite andb_true_r. Qed.

Lemma table_put tb m r :
  table_of tb m -> ref_ok r -> zlen m + 1 < 2 ^ 64 ->
  returns refused (put disk_ok tb (r_key r) (r_value r) (r_file r) (r_off r)) (fun p => table_of p.2 (r :: m)).
Proof.
  intros (sd & bk & Hs & H) Hr Hm. eapply returns_mono; [by eapply put_holds|]. intros p (_ & bk' & H'). by exists sd, bk'.
Qed.

Lemma table_get load tb m key :
  table_of tb m -> Forall (loads load) m ->
  exists v, get load tb key = Ok v /\
    match v with Some v => exists r, r ∈ m /\ r_key r = key /\ v = vref r | None => forall r, r ∈ m -> r_key r <> key end.
Proof.
  intros (sd & bk & Hs & H) Hl. destruct (get_step load tb sd bk m key Hs H Hl) as (v & E & Hst). exists v. split; [done|].
  inversion Hst as [| | | |? r Hr| ? Hn| | | | | |]; subst.
  - apply list_elem_of_filter in Hr as [Hk Hr]. by exists r.
  - intros r Hr Hk. assert (Hin : r ∈ with_key key m) by (by apply list_elem_of_filter). rewrite Hn in Hin. by apply not_elem_of_nil in Hin.
Qed.

Lemma table_erase load tb m key :
  table_of tb m -> Forall (loads load) m ->
  returns refused (erase disk_ok load tb key None) (fun p =>
    if p.1 then exists m' r, table_of p.2 m' /\ r_key r = key /\ m ≡ₚ r :: m'
    else table_of p.2 m /\ forall r, r ∈ m -> r_key r <> key).
Proof.
  intros (sd & bk & Hs & H) Hl. eapply returns_mono; [by eapply erase_holds|]. intros [[|] tb']; cbn [fst snd].
  - intros (bk' & m' & r & H' & Hma & Hp). rewrite matches_key in Hma. apply bool_decide_eq_true in Hma.
    exists m', r. split_and!; [by exists sd, bk'|done|done].
  - intros [-> Hno]. split; [by exists sd, bk|]. intros r Hr Hk. specialize (Hno r Hr). rewrite matches_key in Hno.
    by apply bool_decide_eq_false in Hno.
Qed.

Lemma table_clear tb m : table_of tb m -> returns refused (clear disk_ok tb seed) (fun tb' => table_of tb' []).
Proof.
  intros (sd & bk & Hs & H). pose proof (st_header _ _ _ _ (holds_stores _ _ _ _ H)) as Ho. pose proof (header_ok_bounds _ Ho) as Hb.
  unfold clear. rewrite bool_decide_true by lia.
  pose proof (new_empty disk_ok disk_limit seed [] (bucket_count_value (header_ tb)) ltac:(lia)) as Hnew.
  unfold new in Hnew. rewrite bool_decide_false in Hnew by lia. eapply returns_mono; [exact Hnew|].
  intros tb' [[bk' H'] _]. by exists seed, bk'.
Qed.

Lemma table_reopen tb m :
  table_of tb m -> in_width 64 (zlen m) ->
  returns refused ('(f, ovf) ← close disk_ok tb; new disk_ok f ovf default_bucket_count seed) (fun tb' => table_of tb' m).
Proof.
  intros (sd & bk & Hs & H) Hm. eapply returns_bind; [by eapply close_reopen|]. intros [f ovf] Hre. cbn [fst snd] in Hre.
  destruct (Hre default_bucket_count seed ltac:(done)) as (tb' & -> & H'). by exists sd, bk.
Qed.

#[global] Instance table_storage_ok : @HashStorageOk t (table_storage disk_ok seed).
Proof.
  refine {| hs_holds := table_of |}; cbn.
  - apply table_of_perm.
  - intros tb m (sd & bk & _ & H). apply H.
  - apply table_put.
  - apply table_get.
  - intros load tb m key (sd & bk & Hs & H) Hl. by eapply get_all_stores; [|apply H|].
  - apply table_erase.
  - intros tb m (sd & bk & Hs & H). by eapply for_each_stores; [|apply H].
  - intros tb m s (sd & bk & Hs & H). exists sd, bk. split; [done|]. by apply holds_suppress.
  - intros tb m (sd & bk & Hs & H). eapply returns_mono; [by eapply maybe_rehash_holds|]. intros p [[bk' H'] _]. by exists sd, bk'.
  - apply table_clear.
  - apply table_reopen.
Defined.
End table_storage.

(** ** A list of references *)

(** Quick to evaluate: keys are kept whole, and growing is nothing. *)
Record list_table := ListTable { lt_refs : list ref; lt_suppressed : bool }.

(** The first reference with the key, and the others. *)
Fixpoint take_key (key : bytes) (m : list ref) : option (ref * list ref) :=
  match m with
  | [] => None
  | r :: m => if bool_decide (r_key r = key) then Some (r, m) else prod_map id (cons r) <$> take_key key m
  end.

#[global] Instance list_storage : HashStorage list_table := {|
  hs_put tb key v fid off := Ok (true, ListTable (Ref key v fid off :: lt_refs tb) (lt_suppressed tb));
  hs_get _ tb key := Ok (vref <$> (fst <$> take_key key (lt_refs tb)));
  hs_get_all _ tb key := Ok (vref <$> with_key key (lt_refs tb));
  hs_erase _ tb key :=
    Ok (match take_key key (lt_refs tb) with
        | Some (_, m) => (true, ListTable m (lt_suppressed tb))
        | None => (false, tb)
        end);
  hs_for_each tb := Ok (vref <$> lt_refs tb);
  hs_suppress tb s := (lt_suppressed tb, ListTable (lt_refs tb) s);
  hs_trigger tb := Ok (false, tb);
  hs_clear _ := Ok (ListTable [] false);
  hs_reopen tb := Ok (ListTable (lt_refs tb) false);
  hs_size tb := zlen (lt_refs tb);
|}.

Lemma take_key_spec key m :
  match take_key key m with
  | Some (r, m') => r_key r = key /\ m ≡ₚ r :: m'
  | None => forall r, r ∈ m -> r_key r <> key
  end.
Proof.
  induction m as [|r m IH]; cbn; [by intros r ?%not_elem_of_nil|]. case_bool_decide as E; [done|].
  destruct (take_key key m) as [[r' m']|]; cbn.
  - destruct IH as [Hk Hp]. split; [done|]. rewrite Hp. apply perm_swap.
  - intros r' [->|Hr']%elem_of_cons; [done|by apply IH].
Qed.

#[global] Instance list_storage_ok : HashStorageOk list_table.
Proof.
  refine {| hs_holds tb m := lt_refs tb ≡ₚ m |}; cbn.
  - intros tb m m' Hp Hm. by rewrite <- Hp.
  - intros tb m Hm. unfold zlen. by rewrite (Permutation_length Hm).
  - intros tb m r Hm _ _. rewrite Hm. by destruct r.
  - intros load tb m key Hm _. eexists. split; [done|]. pose proof (take_key_spec key (lt_refs tb)) as Hs.
    destruct (take_key key (lt_refs tb)) as [[r m']|]; cbn.
    + destruct Hs as [Hk Hp]. exists r. split_and!; [|done|done]. rewrite <- Hm, Hp. by left.
    + intros r Hr. apply Hs. by rewrite Hm.
  - intros load tb m key Hm _. eexists. split; [done|]. unfold with_key. by rewrite Hm.
  - intros load tb m key Hm _. pose proof (take_key_spec key (lt_refs tb)) as Hs.
    destruct (take_key key (lt_refs tb)) as [[r m']|]; cbn.
    + destruct Hs as [Hk Hp]. exists m', r. split_and!; [done|done|]. by rewrite <- Hm.
    + split; [done|]. intros r Hr. apply Hs. by rewrite Hm.
  - intros tb m Hm. eexists. split; [done|]. by rewrite Hm.
  - done.
  - done.
  - done.
  - done.
Defined.
