(* ===== verification/IndexCodec.v ===== *)
(** * Index keys as bytes

    [components/index/logical_value_binary_codec.hpp]: how a key is written into an index
    record and into the hash table, and read back, with the casts of
    [components/types/logical_value.cpp] that bring integer keys to one type. A value is its
    type and its content: nothing for a null, a number (the bits of a floating-point number),
    or a string. *)

From S2P Require Import Prelude.
From S2P Require Import Bytes.
From S2P Require Import WalBinary.
From S2P Require Import DataChunkBinary.
From S2P Require Import DiskHashPage.
#[local] Open Scope Z_scope.

Inductive content := C_null | C_num (z : Z) | C_str (s : bytes).

Record logical_value_t := Value { v_type : complex_logical_type; v_content : content }.

Definition num_of (v : logical_value_t) : outcome Z :=
  match v_content v with C_num z => Ok z | _ => Fault OutOfBounds end.

Definition str_of (v : logical_value_t) : outcome bytes :=
  match v_content v with C_str s => Ok s | _ => Fault OutOfBounds end.

(** The logical types the code names. *)
Definition LT_NA : Z := 0.
Definition LT_BOOLEAN : Z := 10.
Definition LT_TINYINT : Z := 11.
Definition LT_SMALLINT : Z := 12.
Definition LT_INTEGER : Z := 13.
Definition LT_BIGINT : Z := 14.
Definition LT_DATE : Z := 16.
Definition LT_TIME : Z := 17.
Definition LT_TIMESTAMP : Z := 19.
Definition LT_TIMESTAMP_TZ : Z := 20.
Definition LT_FLOAT : Z := 23.
Definition LT_DOUBLE : Z := 24.
Definition LT_UTINYINT : Z := 27.
Definition LT_USMALLINT : Z := 28.
Definition LT_UINTEGER : Z := 29.
Definition LT_UBIGINT : Z := 30.
Definition LT_STRING : Z := 35.
Definition LT_ENUM : Z := 104.

(** ** Numbers *)

(** [sizeof] the C++ type of a physical number. *)
Definition num_size (p : physical_type) : option nat :=
  match p with
  | BOOL | INT8 | UINT8 => Some 1%nat
  | INT16 | UINT16 => Some 2%nat
  | INT32 | UINT32 | FLOAT => Some 4%nat
  | INT64 | UINT64 | DOUBLE => Some 8%nat
  | INT128 | UINT128 => Some 16%nat
  | _ => None
  end.

Definition is_signed (p : physical_type) : bool :=
  match p with INT8 | INT16 | INT32 | INT64 | INT128 => true | _ => false end.

(** The number [size] bytes hold. *)
Definition of_bits (signed : bool) (size : nat) (z : Z) : Z :=
  if signed && bool_decide (2 ^ (8 * Z.of_nat size - 1) <= z) then z - 2 ^ (8 * Z.of_nat size) else z.

(** ** Writing *)

Definition append_decimal_payload (v : logical_value_t) : outcome bytes :=
  match extension_ (v_type v) with
  | Some (Extension _ (DECIMAL width scale)) =>
      p ← decimal_storage_type width;
      z ← num_of v;
      match p with
      | INT16 => mret (write_le 1 width ++ write_le 1 scale ++ write_le 2 z)
      | INT32 => mret (write_le 1 width ++ write_le 1 scale ++ write_le 4 z)
      | INT64 => mret (write_le 1 width ++ write_le 1 scale ++ write_le 8 z)
      | INT128 => mret (write_le 1 width ++ write_le 1 scale ++ write_le 16 z)
      | _ => Fault (Throw 20)
      end
  | Some _ => Fault OutOfBounds
  | None => Fault NullDeref
  end.

Definition append_logical_value (v : logical_value_t) : outcome bytes :=
  let logical := type_ (v_type v) in
  if bool_decide (logical = LT_DECIMAL) then d ← append_decimal_payload v; mret (write_le 1 logical ++ d)
  else
    p ← to_physical_type (v_type v);
    match p with
    | NA => mret (write_le 1 logical)
    | BOOL => z ← num_of v; mret (write_le 1 logical ++ write_le 1 (if bool_decide (z = 0) then 0 else 1))
    | INT8 | UINT8 => z ← num_of v; mret (write_le 1 logical ++ write_le 1 z)
    | INT16 | UINT16 => z ← num_of v; mret (write_le 1 logical ++ write_le 2 z)
    | INT32 | UINT32 | FLOAT => z ← num_of v; mret (write_le 1 logical ++ write_le 4 z)
    | INT64 | UINT64 | DOUBLE => z ← num_of v; mret (write_le 1 logical ++ write_le 8 z)
    | STRING => s ← str_of v; mret (write_le 1 logical ++ write_le 4 (u32 (zlen s)) ++ s)
    | _ => Fault (Throw 21)
    end.

(** The key of the hash table is written by a second copy of the same code. *)
Definition encode_disk_hash_key (v : logical_value_t) : outcome bytes := append_logical_value v.

(** ** Reading *)

Definition take_le (size : nat) (inp : bytes) (pos : Z) : outcome (Z * Z) :=
  if bool_decide (zlen inp < pos + Z.of_nat size) then Fault (Throw 22)
  else z ← read_le size inp pos; mret (z, pos + Z.of_nat size).

(** A number of physical type [p]. *)
Definition take_num (p : physical_type) (size : nat) (t : complex_logical_type) (inp : bytes) (pos : Z) : outcome (logical_value_t * Z) :=
  '(z, pos) ← take_le size inp pos; mret (Value t (C_num (of_bits (is_signed p) size z)), pos).

Definition read_decimal_payload (inp : bytes) (pos : Z) : outcome (logical_value_t * Z) :=
  '(width, pos) ← take_le 1 inp pos;
  '(scale, pos) ← take_le 1 inp pos;
  t ← create_decimal width scale [];
  p ← to_physical_type t;
  match p with
  | INT16 => take_num INT16 2 t inp pos
  | INT32 => take_num INT32 4 t inp pos
  | INT64 => take_num INT64 8 t inp pos
  | INT128 => take_num INT128 16 t inp pos
  | _ => Fault (Throw 23)
  end.

(** Read a number when the logical type is one of [allowed]. *)
Definition take_as (allowed : list Z) (p : physical_type) (size : nat) (logical : Z) (inp : bytes) (pos : Z) :
    outcome (logical_value_t * Z) :=
  if bool_decide (logical ∈ allowed) then take_num p size (Complex logical None) inp pos else Fault (Throw 24).

Definition read_logical_value (inp : bytes) (pos : Z) : outcome (logical_value_t * Z) :=
  '(logical, pos) ← take_le 1 inp pos;
  if bool_decide (logical = LT_DECIMAL) then read_decimal_payload inp pos
  else
    match logical_to_physical logical with
    | NA => mret (Value (Complex LT_NA None) C_null, pos)
    | BOOL =>
        if bool_decide (logical = LT_BOOLEAN) then
          '(z, pos) ← take_le 1 inp pos;
          mret (Value (Complex LT_BOOLEAN None) (C_num (if bool_decide (z = 0) then 0 else 1)), pos)
        else Fault (Throw 24)
    | INT8 => take_as [LT_TINYINT] INT8 1 logical inp pos
    | UINT8 => take_as [LT_UTINYINT] UINT8 1 logical inp pos
    | INT16 => take_as [LT_SMALLINT] INT16 2 logical inp pos
    | UINT16 => take_as [LT_USMALLINT] UINT16 2 logical inp pos
    | INT32 => _ ← take_le 4 inp pos; take_as [LT_DATE; LT_INTEGER] INT32 4 logical inp pos
    | UINT32 => take_as [LT_UINTEGER] UINT32 4 logical inp pos
    | INT64 =>
        _ ← take_le 8 inp pos; take_as [LT_BIGINT; LT_TIME; LT_TIMESTAMP; LT_TIMESTAMP_TZ] INT64 8 logical inp pos
    | UINT64 => take_as [LT_UBIGINT] UINT64 8 logical inp pos
    | FLOAT => take_as [LT_FLOAT] FLOAT 4 logical inp pos
    | DOUBLE => take_as [LT_DOUBLE] DOUBLE 8 logical inp pos
    | STRING =>
        if bool_decide (logical = LT_STRING) then
          '(n, pos) ← take_le 4 inp pos;
          if bool_decide (zlen inp < pos + n) then Fault (Throw 25)
          else s ← read_bytes inp pos n; mret (Value (Complex LT_STRING None) (C_str s), pos + n)
        else Fault (Throw 24)
    | _ => Fault (Throw 21)
    end.

(** ** Casts of integers *)

(** [static_cast] to an integer of type [p]. *)
Definition to_integer (p : physical_type) (z : Z) : Z :=
  match num_size p with Some n => of_bits (is_signed p) n (z mod 2 ^ (8 * Z.of_nat n)) | None => z end.

(** [cast_callback_t] between the integer types and booleans. *)
Definition cast_callback (left right : physical_type) (z : Z) : Z :=
  if bool_decide (left = right) then z
  else if bool_decide (right = BOOL) then 1
  else if bool_decide (left = BOOL) then (if bool_decide (z = 0) then 1 else 0)
  else to_integer left z.

(** [cast_as] to the integer type [target], for integer values: types with an extension differ. *)
Definition cast_as_integer (v : logical_value_t) (target : Z) : outcome logical_value_t :=
  if bool_decide (type_ (v_type v) = target) then mret v
  else
    right ← to_physical_type (v_type v);
    z ← num_of v;
    mret (Value (Complex target None) (C_num (cast_callback (logical_to_physical target) right z))).

(** [normalize_hash_key]: integers become BIGINT or UBIGINT. *)
Definition normalize_hash_key (v : logical_value_t) : outcome logical_value_t :=
  let ty := type_ (v_type v) in
  if existsb (Z.eqb ty) [LT_TINYINT; LT_SMALLINT; LT_INTEGER; LT_BIGINT] then cast_as_integer v LT_BIGINT
  else if existsb (Z.eqb ty) [LT_UTINYINT; LT_USMALLINT; LT_UINTEGER; LT_UBIGINT] then cast_as_integer v LT_UBIGINT
  else mret v.

Definition key_bytes_for_hash (v : logical_value_t) : outcome bytes := v ← normalize_hash_key v; encode_disk_hash_key v.

(** ** Keys that can be indexed *)

Definition numeric_types : list (Z * physical_type) :=
  [(LT_TINYINT, INT8); (LT_UTINYINT, UINT8); (LT_SMALLINT, INT16); (LT_USMALLINT, UINT16); (LT_DATE, INT32); (LT_INTEGER, INT32);
   (LT_UINTEGER, UINT32); (LT_BIGINT, INT64); (LT_TIME, INT64); (LT_TIMESTAMP, INT64); (LT_TIMESTAMP_TZ, INT64); (LT_UBIGINT, UINT64);
   (LT_FLOAT, FLOAT); (LT_DOUBLE, DOUBLE)].

(** The range of a number of [size] bytes. *)
Definition num_ok (signed : bool) (size : nat) (z : Z) : Prop :=
  if signed then - 2 ^ (8 * Z.of_nat size - 1) <= z < 2 ^ (8 * Z.of_nat size - 1) else 0 <= z < 2 ^ (8 * Z.of_nat size).

Inductive value_ok : logical_value_t -> Prop :=
  | ok_null e : value_ok (Value (Complex LT_NA e) C_null)
  | ok_bool e (b : bool) : value_ok (Value (Complex LT_BOOLEAN e) (C_num (if b then 1 else 0)))
  | ok_num ty e p n z : (ty, p) ∈ numeric_types -> num_size p = Some n -> num_ok (is_signed p) n z -> value_ok (Value (Complex ty e) (C_num z))
  | ok_str e s : zlen s < 2 ^ 32 -> value_ok (Value (Complex LT_STRING e) (C_str s))
  | ok_decimal al w s p n z :
      0 <= w -> 0 <= s < 256 -> decimal_storage_type w = Ok p -> num_size p = Some n -> num_ok true n z ->
      value_ok (Value (Complex LT_DECIMAL (Some (Extension al (DECIMAL w s)))) (C_num z)).

(** The value without the alias of its column. *)
Definition plain (v : logical_value_t) : logical_value_t :=
  match v_type v with
  | Complex ty (Some (Extension _ (DECIMAL w s))) => if bool_decide (ty = LT_DECIMAL) then Value (Complex ty (Some (Extension [] (DECIMAL w s)))) (v_content v) else Value (Complex ty None) (v_content v)
  | Complex ty _ => Value (Complex ty None) (v_content v)
  end.

Lemma plain_other ty e c : ty <> LT_DECIMAL -> plain (Value (Complex ty e) c) = Value (Complex ty None) c.
Proof. intros H. unfold plain. cbn. destruct e as [[al [| | |]]|]; try done. by rewrite bool_decide_false. Qed.

Lemma of_bits_mod signed n z : (0 < n)%nat -> num_ok signed n z -> of_bits signed n (z mod 2 ^ (8 * Z.of_nat n)) = z.
Proof.
  intros Hn. unfold num_ok, of_bits. set (w := 8 * Z.of_nat n).
  assert (Hp : 2 ^ w = 2 * 2 ^ (w - 1)) by (rewrite <- Z.pow_succ_r by lia; f_equal; lia).
  assert (0 < 2 ^ (w - 1)) by (apply Z.pow_pos_nonneg; lia).
  destruct signed; cbn [andb].
  - intros Hz. destruct (decide (0 <= z)).
    + rewrite Z.mod_small by lia. rewrite bool_decide_false by lia. done.
    + rewrite <- (Z.mod_add z 1) by lia. rewrite Z.mod_small by lia. rewrite bool_decide_true by lia. lia.
  - intros Hz. by apply Z.mod_small.
Qed.

Lemma take_le_any l a n v c pos :
  l = a ++ write_le n v ++ c -> pos = zlen a -> take_le n l pos = Ok (v mod 2 ^ (8 * Z.of_nat n), pos + Z.of_nat n).
Proof.
  intros -> ->. unfold take_le. pose proof (zlen_nonneg c). rewrite bool_decide_false by len.
  by rewrite (read_le_any _ a n v c) by done.
Qed.

Lemma take_le_small l a n v c pos :
  l = a ++ write_le n v ++ c -> pos = zlen a -> 0 <= v < 2 ^ (8 * Z.of_nat n) -> take_le n l pos = Ok (v, pos + Z.of_nat n).
Proof. intros -> -> Hv. rewrite (take_le_any _ a n v c) by done. by rewrite Z.mod_small. Qed.

Lemma take_num_any p l a n v c t pos :
  l = a ++ write_le n v ++ c -> pos = zlen a -> (0 < n)%nat -> num_ok (is_signed p) n v ->
  take_num p n t l pos = Ok (Value t (C_num v), pos + Z.of_nat n).
Proof.
  intros Hl Hp Hn Hv. unfold take_num. rewrite (take_le_any _ a n v c) by done. cbn [mbind outcome_bind].
  by rewrite of_bits_mod by done.
Qed.

Lemma num_size_pos p n : num_size p = Some n -> (0 < n)%nat.
Proof. destruct p; cbn; intros [= <-]; lia. Qed.

Lemma numeric_types_spec ty p : (ty, p) ∈ numeric_types -> 0 <= ty < 256 /\ ty <> LT_DECIMAL /\ logical_to_physical ty = p.
Proof.
  intros Hin. unfold numeric_types in Hin. repeat (apply elem_of_cons in Hin as [[= -> ->]|Hin]; [done|]). by apply not_elem_of_nil in Hin.
Qed.

(** The bytes of a value whose content is a number. *)
Lemma append_num ty e p n z :
  (ty, p) ∈ numeric_types -> num_size p = Some n ->
  append_logical_value (Value (Complex ty e) (C_num z)) = Ok (write_le 1 ty ++ write_le n z).
Proof.
  intros Hin Hn. unfold numeric_types in Hin.
  repeat (apply elem_of_cons in Hin as [[= -> ->]|Hin]; [cbn in Hn; injection Hn as <-; reflexivity|]). by apply not_elem_of_nil in Hin.
Qed.

Lemma read_num ty e p n z a c :
  (ty, p) ∈ numeric_types -> num_size p = Some n -> num_ok (is_signed p) n z ->
  read_logical_value (a ++ (write_le 1 ty ++ write_le n z) ++ c) (zlen a) =
  Ok (plain (Value (Complex ty e) (C_num z)), zlen a + 1 + Z.of_nat n).
Proof.
  intros Hin Hn Hz. unfold read_logical_value.
  destruct (numeric_types_spec ty p Hin) as (Hty & Hnd & Hp).
  erewrite (take_le_small _ a 1 ty); [|by rewrite <- !app_assoc|done|cbn; lia]. cbn [mbind outcome_bind].
  rewrite bool_decide_false by done. rewrite Hp, plain_other by done.
  assert (Hskip : take_le n (a ++ (write_le 1 ty ++ write_le n z) ++ c) (zlen a + Z.of_nat 1) = Ok (z mod 2 ^ (8 * Z.of_nat n), zlen a + Z.of_nat 1 + Z.of_nat n)).
  { apply (take_le_any _ (a ++ write_le 1 ty) n z c); [by rewrite <- !app_assoc|len]. }
  assert (Htake : take_num p n (Complex ty None) (a ++ (write_le 1 ty ++ write_le n z) ++ c) (zlen a + Z.of_nat 1) =
                  Ok (Value (Complex ty None) (C_num z), zlen a + 1 + Z.of_nat n)).
  { apply (take_num_any p _ (a ++ write_le 1 ty) n z c); [by rewrite <- !app_assoc|len|by eapply num_size_pos|done]. }
  unfold numeric_types in Hin. clear Hnd Hty.
  repeat (apply elem_of_cons in Hin as [[= -> ->]|Hin];
    [cbn in Hn; injection Hn as <-; rewrite ?Hskip; cbn [mbind outcome_bind]; unfold take_as; rewrite bool_decide_true by (by vm_compute; set_solver); exact Htake|]).
  by apply not_elem_of_nil in Hin.
Qed.

(** ** Round trips *)

Ltac small_number := unfold LT_NA, LT_BOOLEAN, LT_STRING, LT_DECIMAL; cbn; lia.

Lemma decimal_storage_cases w p : decimal_storage_type w = Ok p -> w <= 38 /\ (p = INT16 \/ p = INT32 \/ p = INT64 \/ p = INT128).
Proof. unfold decimal_storage_type. repeat case_bool_decide; intros [= <-]; auto with lia. Qed.

Lemma append_decimal al w s p n z :
  decimal_storage_type w = Ok p -> num_size p = Some n ->
  append_logical_value (Value (Complex LT_DECIMAL (Some (Extension al (DECIMAL w s)))) (C_num z)) =
  Ok (write_le 1 LT_DECIMAL ++ write_le 1 w ++ write_le 1 s ++ write_le n z).
Proof.
  intros Hp Hn. unfold append_logical_value. cbn [type_ v_type]. rewrite bool_decide_true by done.
  unfold append_decimal_payload. cbn [extension_ v_type]. rewrite Hp. cbn [mbind outcome_bind num_of v_content].
  destruct (decimal_storage_cases w p Hp) as [_ [->|[->|[->| ->]]]]; cbn in Hn; by injection Hn as <-.
Qed.

Lemma read_decimal_value al w s p n z a c :
  0 <= w -> 0 <= s < 256 -> decimal_storage_type w = Ok p -> num_size p = Some n -> num_ok true n z ->
  read_logical_value (a ++ (write_le 1 LT_DECIMAL ++ write_le 1 w ++ write_le 1 s ++ write_le n z) ++ c) (zlen a) =
  Ok (plain (Value (Complex LT_DECIMAL (Some (Extension al (DECIMAL w s)))) (C_num z)), zlen a + 3 + Z.of_nat n).
Proof.
  intros Hw Hs Hp Hn Hz. destruct (decimal_storage_cases w p Hp) as [Hw38 Hcases]. unfold read_logical_value.
  erewrite (take_le_small _ a 1 LT_DECIMAL); [|by rewrite <- !app_assoc|done|small_number]. cbn [mbind outcome_bind].
  rewrite bool_decide_true by done. unfold read_decimal_payload.
  erewrite (take_le_small _ (a ++ write_le 1 LT_DECIMAL) 1 w); [|by rewrite <- !app_assoc|len|small_number]. cbn [mbind outcome_bind].
  erewrite (take_le_small _ ((a ++ write_le 1 LT_DECIMAL) ++ write_le 1 w) 1 s); [|by rewrite <- !app_assoc|len|small_number].
  cbn [mbind outcome_bind]. unfold create_decimal. rewrite Hp. cbn [mbind outcome_bind mret outcome_ret].
  assert (to_physical_type (Complex LT_DECIMAL (Some (Extension [] (DECIMAL w s)))) = Ok p) as -> by done. cbn [mbind outcome_bind].
  assert (Htake : forall q, is_signed q = true ->
    take_num q n (Complex LT_DECIMAL (Some (Extension [] (DECIMAL w s))))
      (a ++ (write_le 1 LT_DECIMAL ++ write_le 1 w ++ write_le 1 s ++ write_le n z) ++ c) (zlen a + Z.of_nat 1 + Z.of_nat 1 + Z.of_nat 1) =
    Ok (plain (Value (Complex LT_DECIMAL (Some (Extension al (DECIMAL w s)))) (C_num z)), zlen a + 3 + Z.of_nat n)).
  { intros q Hq. erewrite (take_num_any q _ (((a ++ write_le 1 LT_DECIMAL) ++ write_le 1 w) ++ write_le 1 s) n z c).
    - do 2 f_equal. lia.
    - by rewrite <- !app_assoc.
    - len.
    - by eapply num_size_pos.
    - by rewrite Hq. }
  destruct Hcases as [->|[->|[->| ->]]]; cbn in Hn; injection Hn as <-; by apply Htake.
Qed.

Lemma read_str e s a c :
  zlen s < 2 ^ 32 ->
  read_logical_value (a ++ (write_le 1 LT_STRING ++ write_le 4 (zlen s) ++ s) ++ c) (zlen a) =
  Ok (plain (Value (Complex LT_STRING e) (C_str s)), zlen a + 5 + zlen s).
Proof.
  intros Hs. pose proof (zlen_nonneg s). pose proof (zlen_nonneg c). unfold read_logical_value.
  erewrite (take_le_small _ a 1 LT_STRING); [|by rewrite <- !app_assoc|done|small_number]. cbn [mbind outcome_bind].
  rewrite bool_decide_false by done. change (logical_to_physical LT_STRING) with STRING. cbn iota. rewrite bool_decide_true by done.
  erewrite (take_le_small _ (a ++ write_le 1 LT_STRING) 4 (zlen s)); [|by rewrite <- !app_assoc|len|small_number]. cbn [mbind outcome_bind].
  rewrite bool_decide_false by len.
  erewrite (read_bytes_in _ ((a ++ write_le 1 LT_STRING) ++ write_le 4 (zlen s)) s c); [|by rewrite <- !app_assoc|len|done].
  cbn [mbind outcome_bind mret outcome_ret]. rewrite plain_other by done. do 2 f_equal. lia.
Qed.

(** A key is read back from what was written for it, without the alias of its column. *)
Lemma value_read_back v a c :
  value_ok v ->
  exists b, append_logical_value v = Ok b /\ read_logical_value (a ++ b ++ c) (zlen a) = Ok (plain v, zlen a + zlen b).
Proof.
  intros [e|e b|ty e p n z Hin Hn Hz|e s Hs|al w s p n z Hw Hs Hp Hn Hz].
  - exists (write_le 1 LT_NA). split; [done|]. unfold read_logical_value.
    rewrite (take_le_small _ a 1 LT_NA c) by (first [done | small_number]). cbn [mbind outcome_bind].
    rewrite bool_decide_false by done. rewrite plain_other by done. done.
  - exists (write_le 1 LT_BOOLEAN ++ write_le 1 (if b then 1 else 0)). split; [by destruct b|]. unfold read_logical_value.
    erewrite (take_le_small _ a 1 LT_BOOLEAN); [|by rewrite <- !app_assoc|done|small_number]. cbn [mbind outcome_bind].
    rewrite bool_decide_false by done. change (logical_to_physical LT_BOOLEAN) with BOOL. cbn iota. rewrite bool_decide_true by done.
    erewrite (take_le_small _ (a ++ write_le 1 LT_BOOLEAN) 1 (if b then 1 else 0) c); [|by rewrite <- !app_assoc|len|destruct b; small_number].
    cbn [mbind outcome_bind mret outcome_ret]. rewrite plain_other by done. len. rewrite Z.add_assoc. by destruct b.
  - exists (write_le 1 ty ++ write_le n z). split; [by eapply append_num|]. rewrite (read_num ty e p n z) by done. do 2 f_equal. len.
  - exists (write_le 1 LT_STRING ++ write_le 4 (zlen s) ++ s). pose proof (zlen_nonneg s). split.
    + unfold append_logical_value. cbn. rewrite wrap_small by (split; lia). done.
    + rewrite (read_str e) by done. do 2 f_equal. len.
  - exists (write_le 1 LT_DECIMAL ++ write_le 1 w ++ write_le 1 s ++ write_le n z). split; [by eapply append_decimal|].
    rewrite (read_decimal_value al w s p) by done. do 2 f_equal. len.
Qed.

(** ** The key of the hash table *)

Lemma cast_widen p n z : num_size p = Some n -> num_ok (is_signed p) n z -> to_integer p z = z.
Proof. intros Hn Hz. unfold to_integer. rewrite Hn. apply of_bits_mod; [by eapply num_size_pos|done]. Qed.

(** Normalising an indexable key gives an indexable key with the same number. *)
Lemma normalize_ok v : value_ok v -> exists v', normalize_hash_key v = Ok v' /\ value_ok v' /\ v_content v' = v_content v.
Proof.
  intros [e|e b|ty e p n z Hin Hn Hz|e s Hs|al w s p n z Hw Hs Hp Hn Hz];
    try (eexists; split; [reflexivity|split; [by econstructor|reflexivity]]).
  pose proof (ok_num ty e p n z Hin Hn Hz) as Hv. unfold numeric_types in Hin.
  assert (Hcast : forall target q, logical_to_physical target = q -> (target, q) ∈ numeric_types -> num_size q = Some 8%nat ->
    num_ok (is_signed q) 8 z -> logical_to_physical ty = p -> q <> BOOL -> p <> BOOL -> ty <> LT_DECIMAL ->
    exists v', cast_as_integer (Value (Complex ty e) (C_num z)) target = Ok v' /\ value_ok v' /\ v_content v' = C_num z).
  { intros target q Hq Hint Hsz Hzq Hty Hqb Hpb Hd. unfold cast_as_integer. cbn [type_ v_type]. case_bool_decide; [by eexists|].
    unfold to_physical_type. cbn [type_]. rewrite bool_decide_false by done. cbn [mbind outcome_bind num_of v_content].
    rewrite Hq, Hty. unfold cast_callback.
    assert (Hc : (if bool_decide (q = p) then z else if bool_decide (p = BOOL) then 1 else if bool_decide (q = BOOL) then
                  (if bool_decide (z = 0) then 1 else 0) else to_integer q z) = z).
    { case_bool_decide; [done|]. rewrite !bool_decide_false by done. by eapply cast_widen. }
    rewrite Hc. eexists. split_and!; [done| |done]. by eapply ok_num. }
  repeat (apply elem_of_cons in Hin as [[= -> ->]|Hin];
    [cbn in Hn; injection Hn as <-;
     first [ eexists; split; [reflexivity|split; [exact Hv|reflexivity]]
           | apply (Hcast LT_BIGINT INT64); try done; [unfold numeric_types; set_solver|unfold num_ok in *; cbn in *; lia]
           | apply (Hcast LT_UBIGINT UINT64); try done; [unfold numeric_types; set_solver|unfold num_ok in *; cbn in *; lia] ]|]).
  by apply not_elem_of_nil in Hin.
Qed.

Lemma key_bytes_ok v : value_ok v -> exists k, key_bytes_for_hash v = Ok k.
Proof.
  intros Hv. destruct (normalize_ok v Hv) as (v' & E & Hv' & _). unfold key_bytes_for_hash. rewrite E. cbn [mbind outcome_bind].
  destruct (value_read_back v' [] [] Hv') as (b & Hb & _). by exists b.
Qed.

Lemma plain_idem v : plain (plain v) = plain v.
Proof.
  destruct v as [[ty e] c]. unfold plain at 2 3. cbn. destruct e as [[al [| | |]]|]; try done.
  case_bool_decide as E; [|done]. unfold plain. cbn. by rewrite bool_decide_true.
Qed.

Lemma plain_ok v : value_ok v -> value_ok (plain v) /\ v_content (plain v) = v_content v /\ type_ (v_type (plain v)) = type_ (v_type v).
Proof.
  intros [e|e b|ty e p n z Hin Hn Hz|e s Hs|al w s p n z Hw Hs Hp Hn Hz].
  - rewrite plain_other by done. split_and!; [constructor|done|done].
  - rewrite plain_other by done. split_and!; [constructor|done|done].
  - rewrite plain_other by (by eapply numeric_types_spec). split_and!; [by eapply ok_num|done|done].
  - rewrite plain_other by done. split_and!; [by constructor|done|done].
  - unfold plain. cbn. rewrite bool_decide_true by done. split_and!; [by eapply ok_decimal|done|done].
Qed.

(** What is written depends on the type and the content, not on the alias. *)
Lemma append_plain v : value_ok v -> append_logical_value (plain v) = append_logical_value v.
Proof.
  intros [e|e b|ty e p n z Hin Hn Hz|e s Hs|al w s p n z Hw Hs Hp Hn Hz].
  - by rewrite plain_other.
  - by rewrite plain_other.
  - rewrite plain_other by (by eapply numeric_types_spec). by rewrite !(append_num ty _ p n).
  - by rewrite plain_other.
  - unfold plain. cbn [v_type v_content]. rewrite bool_decide_true by done. by rewrite !(append_decimal _ w s p n).
Qed.

Lemma cast_plain v target :
  value_ok v -> existsb (Z.eqb (type_ (v_type v))) [LT_TINYINT; LT_SMALLINT; LT_INTEGER; LT_BIGINT; LT_UTINYINT; LT_USMALLINT; LT_UINTEGER; LT_UBIGINT] = true ->
  plain <$> cast_as_integer (plain v) target = plain <$> cast_as_integer v target.
Proof.
  intros Hv Hty. destruct (plain_ok v Hv) as (_ & Hc & Ht). unfold cast_as_integer. rewrite Ht. case_bool_decide as E.
  - cbn. by rewrite plain_idem.
  - assert (Hnd : type_ (v_type v) <> LT_DECIMAL) by (intros Hd; rewrite Hd in Hty; done).
    unfold to_physical_type. rewrite Ht. rewrite bool_decide_false by done. cbn [mbind outcome_bind]. unfold num_of. by rewrite Hc.
Qed.

Lemma key_bytes_plain v : value_ok v -> key_bytes_for_hash (plain v) = key_bytes_for_hash v.
Proof.
  intros Hv. destruct (plain_ok v Hv) as (Hpv & Hc & Ht). destruct (normalize_ok v Hv) as (n & En & Hn & _).
  destruct (normalize_ok (plain v) Hpv) as (n' & En' & Hn' & _).
  assert (Hpn : plain n' = plain n).
  { assert (plain <$> normalize_hash_key (plain v) = plain <$> normalize_hash_key v) as E; [|rewrite En, En' in E; cbn in E; injection E as E; exact E].
    unfold normalize_hash_key. rewrite Ht. set (ty := type_ (v_type v)).
    destruct (existsb (Z.eqb ty) [LT_TINYINT; LT_SMALLINT; LT_INTEGER; LT_BIGINT]) eqn:E1.
    - apply cast_plain; [done|]. fold ty. cbn [existsb] in *. rewrite !orb_false_r in *. apply orb_true_iff in E1 as [->|E1]; [done|].
      destruct (ty =? LT_TINYINT), (ty =? LT_SMALLINT), (ty =? LT_INTEGER), (ty =? LT_BIGINT); done.
    - destruct (existsb (Z.eqb ty) [LT_UTINYINT; LT_USMALLINT; LT_UINTEGER; LT_UBIGINT]) eqn:E2.
      + apply cast_plain; [done|]. fold ty. cbn [existsb] in *. rewrite !orb_false_r in *.
        destruct (ty =? LT_UTINYINT), (ty =? LT_USMALLINT), (ty =? LT_UINTEGER), (ty =? LT_UBIGINT); try done;
          rewrite ?orb_true_r; done.
      + cbn. by rewrite plain_idem. }
  unfold key_bytes_for_hash. rewrite En, En'. cbn [mbind outcome_bind]. unfold encode_disk_hash_key.
  by rewrite <- (append_plain n' Hn'), <- (append_plain n Hn), Hpn.
Qed.

(** ** Theorems *)

(** C18: a key written into an index record is read back, wherever it stands in the record, with
    its type and content: nulls, booleans, all integer widths, dates and times, the bits of
    floating-point numbers, strings, and decimals with their width and scale. *)
Theorem index_key_round_trip v before after :
  value_ok v ->
  exists b, append_logical_value v = Ok b /\ read_logical_value (before ++ b ++ after) (zlen before) = Ok (plain v, zlen before + zlen b).
Proof. apply value_read_back. Qed.

Definition sample_decimal : logical_value_t := Value (Complex LT_DECIMAL (Some (Extension [Byte.x61] (DECIMAL 12 2)))) (C_num (-1234)).

Lemma sample_decimal_ok : value_ok sample_decimal.
Proof. apply (ok_decimal [Byte.x61] 12 2 INT64 8); [lia|lia|done|done|]. unfold num_ok. cbn. lia. Qed.

Lemma index_key_round_trip_witness :
  exists b, append_logical_value sample_decimal = Ok b /\
    read_logical_value ([Byte.x01; Byte.x02] ++ b ++ [Byte.x03]) (zlen [Byte.x01; Byte.x02]) =
    Ok (plain sample_decimal, zlen [Byte.x01; Byte.x02] + zlen b).
Proof. apply (index_key_round_trip sample_decimal [Byte.x01; Byte.x02] [Byte.x03] sample_decimal_ok). Defined.

(** Two indexable keys have the same bytes in the hash table exactly when they are the same
    value once integers are widened to BIGINT or UBIGINT: the index never mixes up two keys, and finds a
    key whatever the width of the integer it is asked with. *)
Theorem hash_key_identifies v1 v2 :
  value_ok v1 -> value_ok v2 ->
  exists n1 n2, normalize_hash_key v1 = Ok n1 /\ normalize_hash_key v2 = Ok n2 /\
    (key_bytes_for_hash v1 = key_bytes_for_hash v2 <-> plain n1 = plain n2).
Proof.
  intros H1 H2. destruct (normalize_ok v1 H1) as (n1 & E1 & Hn1 & _). destruct (normalize_ok v2 H2) as (n2 & E2 & Hn2 & _).
  exists n1, n2. split_and!; [done|done|]. unfold key_bytes_for_hash. rewrite E1, E2. cbn [mbind outcome_bind]. unfold encode_disk_hash_key. split.
  - destruct (value_read_back n1 [] [] Hn1) as (b1 & -> & R1), (value_read_back n2 [] [] Hn2) as (b2 & -> & R2).
    intros [= ->]. rewrite R1 in R2. by injection R2 as ->.
  - intros E. by rewrite <- (append_plain n1 Hn1), <- (append_plain n2 Hn2), E.
Qed.

Lemma hash_key_identifies_witness :
  exists n1 n2, normalize_hash_key (Value (Complex LT_INTEGER None) (C_num 5)) = Ok n1 /\
    normalize_hash_key (Value (Complex LT_BIGINT None) (C_num 5)) = Ok n2 /\
    (key_bytes_for_hash (Value (Complex LT_INTEGER None) (C_num 5)) = key_bytes_for_hash (Value (Complex LT_BIGINT None) (C_num 5)) <-> plain n1 = plain n2).
Proof.
  apply (hash_key_identifies (Value (Complex LT_INTEGER None) (C_num 5)) (Value (Complex LT_BIGINT None) (C_num 5))).
  - apply (ok_num LT_INTEGER None INT32 4); [unfold numeric_types; set_solver|done|unfold num_ok; cbn; lia].
  - apply (ok_num LT_BIGINT None INT64 8); [unfold numeric_types; set_solver|done|unfold num_ok; cbn; lia].
Defined.

(** An enum key is written, and reading what was written fails. *)
Lemma enum_key_unreadable e z :
  exists b, append_logical_value (Value (Complex LT_ENUM e) (C_num z)) = Ok b /\ read_logical_value b 0 = Fault (Throw 24).
Proof.
  exists (write_le 1 LT_ENUM ++ write_le 4 z). split; [done|]. unfold read_logical_value.
  rewrite (take_le_small _ [] 1 LT_ENUM (write_le 4 z)) by (first [done | unfold LT_ENUM; cbn; lia]). cbn [mbind outcome_bind].
  rewrite bool_decide_false by done. change (logical_to_physical LT_ENUM) with INT32. cbn iota.
  rewrite (take_le_any _ (write_le 1 LT_ENUM) 4 z []) by (first [by rewrite app_nil_r | done]). cbn [mbind outcome_bind].
  unfold take_as. rewrite bool_decide_false; [done|]. unfold LT_ENUM, LT_DATE, LT_INTEGER. set_solver.
Qed.

(** Casts between booleans and integers: every boolean becomes 1, and an integer becomes true
    exactly when it is 0. *)
Lemma cast_booleans p z :
  p <> BOOL -> cast_callback p BOOL z = 1 /\ cast_callback BOOL p z = (if bool_decide (z = 0) then 1 else 0).
Proof.
  intros Hp. unfold cast_callback. rewrite (bool_decide_false (p = BOOL)), (bool_decide_false (BOOL = p)), !(bool_decide_true (BOOL = BOOL)) by done. done.
Qed.
