(* ===== verification/Bitcask.v ===== *)
(** * The log-structured index on disk

    [services/index/bitcask_index_disk.cpp]: an index from keys to row ids kept as a log of
    snapshots and tombstones in numbered segment files, with a hash index of the last snapshot
    of every key, a transaction log replayed at start, and a background task that merges the
    segments that are no longer written.

    The directory is modelled by its content: the segment files by id (the name of a segment
    determines its id and back, [parse_segment_file_name]), the numbers the [CURRENT],
    [bitcask.merge] and [bitcask.txn.applied] files spell, and the bytes of the transaction log.
    [publishes] says whether a sidecar file can be replaced and [txn_log_opens] whether the
    transaction log can be opened; other file operations succeed. Every operation holds the
    mutex, so it is one step; a merge is three, two locked ones with an unlocked one between. *)

From S2P Require Import Prelude.
From S2P Require Import Bytes.
From S2P Require Import WalBinary.
From S2P Require Import WalWorker.
From S2P Require Import DiskHashTable.
From S2P Require Import HashStorage.
From S2P Require Import IndexCodec.
From coqutil Require Import Byte.
#[local] Open Scope Z_scope.

Module bitcask_index_disk.

(** ** Segment names *)

Definition segment_prefix : bytes := [Byte.x62; Byte.x69; Byte.x74; Byte.x63; Byte.x61; Byte.x73; Byte.x6b; Byte.x2e].
Definition segment_suffix : bytes := [Byte.x2e; Byte.x64; Byte.x61; Byte.x74; Byte.x61].
Definition segment_id_width : nat := 6.

(** A 64-bit number has at most twenty digits. *)
Definition segment_file_name (segment_id : Z) : bytes :=
  segment_prefix ++ pad segment_id_width (decimal_loop 20 segment_id) ++ segment_suffix.

Definition merge_temp_file_name (segment_id : Z) : bytes :=
  segment_file_name segment_id ++ [Byte.x2e; Byte.x6d; Byte.x65; Byte.x72; Byte.x67; Byte.x65].

(** [std::from_chars] on the whole string, for an unsigned 64-bit number. *)
Definition from_chars (s : bytes) : option Z :=
  if negb (bool_decide (s = [])) && forallb is_digit s && bool_decide (digits_value s < 2 ^ 64) then Some (digits_value s) else None.

Definition has_suffix (suffix fname : bytes) : bool := bool_decide (drop (length fname - length suffix) fname = suffix).

(** [substr] takes the rest of the string when the count of characters wraps around. *)
Definition parse_segment_id (filename : bytes) : option Z :=
  if negb (has_prefix segment_prefix filename) || negb (has_suffix segment_suffix filename) then None
  else
    let rest := drop (length segment_prefix) filename in
    from_chars (if bool_decide (length filename < length segment_prefix + length segment_suffix)%nat then rest
                else take (length filename - length segment_prefix - length segment_suffix) rest).

(** ** Records *)

Definition record_header_size : Z := 24.
Definition txn_header_size : Z := 32.
Definition txn_magic : Z := 0x314E5854.
Definition kind_value : Z := 1.
Definition kind_tombstone : Z := 2.
Definition regular_segment_id_start_ : Z := 2.

Definition serialize_payload (key : logical_value_t) (rows : list Z) : outcome bytes :=
  k ← append_logical_value key;
  mret (k ++ write_le 4 (u32 (zlen rows)) ++ (rows ≫= write_le 8)).

Fixpoint take_rows (n : nat) (payload : bytes) (pos : Z) : outcome (list Z) :=
  match n with
  | O => mret []
  | S n => '(row, pos) ← take_le 8 payload pos; rows ← take_rows n payload pos; mret (row :: rows)
  end.

Definition deserialize_payload (payload : bytes) : outcome (logical_value_t * list Z) :=
  '(key, pos) ← read_logical_value payload 0;
  '(n, pos) ← take_le 4 payload pos;
  rows ← take_rows (Z.to_nat n) payload pos;
  mret (key, rows).

(** The files of the directory. *)
Record files := Files {
  data : gmap Z bytes;
  CURRENT : option Z;
  merge_manifest : option (Z * list Z);
  txn_log : option bytes;
  txn_applied : option Z;
}.

Definition no_files : files := Files ∅ None None None None.

Definition with_data (fs : files) (d : gmap Z bytes) : files := Files d (CURRENT fs) (merge_manifest fs) (txn_log fs) (txn_applied fs).
Definition with_current (fs : files) (id : Z) : files := Files (data fs) (Some id) (merge_manifest fs) (txn_log fs) (txn_applied fs).
Definition with_manifest (fs : files) (m : option (Z * list Z)) : files := Files (data fs) (CURRENT fs) m (txn_log fs) (txn_applied fs).
Definition with_txn_log (fs : files) (log : bytes) : files := Files (data fs) (CURRENT fs) (merge_manifest fs) (Some log) (txn_applied fs).
Definition with_applied (fs : files) (off : Z) : files := Files (data fs) (CURRENT fs) (merge_manifest fs) (txn_log fs) (Some off).

Inductive sidecar := S_current (id : Z) | S_manifest (merged : Z) (removed : list Z) | S_applied (off : Z).

(** [core::error_code_t] of the errors the index returns. *)
Inductive error_code_t := index_create_fail.

Section bitcask.
Context `{HashStorage T} (crc32c : bytes -> Z) (publishes : sidecar -> bool) (txn_log_opens : bool).
(** The constructor's parameters. *)
Variables (flush_threshold_ segment_record_limit_ : Z).

Record counters := Counters {
  next_timestamp_ : Z;
  next_segment_id_ : Z;
  active_segment_id_ : Z;
  active_segment_records_ : Z;
}.

Record bulk_state := Bulk { bulk_mode_ : bool; bulk_rehash_guard_active_ : bool; bulk_prev_rehash_suppressed_ : bool }.

Record flush_state := Flush { dirty_ : bool; ops_since_flush_ : Z }.

(** [tasks_] counts the merges queued in the task executor. The active segment's handle is
    positioned at the end of the file. *)
Record t := Bitcask {
  files_ : files;
  hash_index_ : T;
  counters_ : counters;
  bulk_ : bulk_state;
  flush_ : flush_state;
  committed_txn_ids_ : gset Z;
  tasks_ : nat;
}.

Definition with_files (b : t) (fs : files) : t :=
  Bitcask fs (hash_index_ b) (counters_ b) (bulk_ b) (flush_ b) (committed_txn_ids_ b) (tasks_ b).
Definition with_hash (b : t) (tb : T) : t :=
  Bitcask (files_ b) tb (counters_ b) (bulk_ b) (flush_ b) (committed_txn_ids_ b) (tasks_ b).
Definition with_counters (b : t) (c : counters) : t :=
  Bitcask (files_ b) (hash_index_ b) c (bulk_ b) (flush_ b) (committed_txn_ids_ b) (tasks_ b).
Definition with_bulk (b : t) (k : bulk_state) : t :=
  Bitcask (files_ b) (hash_index_ b) (counters_ b) k (flush_ b) (committed_txn_ids_ b) (tasks_ b).
Definition with_flush (b : t) (f : flush_state) : t :=
  Bitcask (files_ b) (hash_index_ b) (counters_ b) (bulk_ b) f (committed_txn_ids_ b) (tasks_ b).
Definition with_tasks (b : t) (n : nat) : t :=
  Bitcask (files_ b) (hash_index_ b) (counters_ b) (bulk_ b) (flush_ b) (committed_txn_ids_ b) n.

Definition segments (b : t) : gmap Z bytes := data (files_ b).
Definition active (b : t) : Z := active_segment_id_ (counters_ b).
Definition set_segment (b : t) (id : Z) (f : bytes) : t := with_files b (with_data (files_ b) (<[id := f]> (segments b))).

Definition with_timestamp (b : t) (ts : Z) : t :=
  with_counters b (Counters ts (next_segment_id_ (counters_ b)) (active b) (active_segment_records_ (counters_ b))).

(** The header's bytes after the checksum; the padding is zero. *)
Definition record_body (kind timestamp : Z) (payload : bytes) : bytes :=
  write_le 1 kind ++ zeros 3 ++ write_le 8 (zlen payload) ++ write_le 8 timestamp.

(** What [write_record] appends: the checksum of the header extended by the payload. *)
Definition write_record (kind timestamp : Z) (payload : bytes) : bytes :=
  let body := record_body kind timestamp payload in
  write_le 4 (compute_crc crc32c (body ++ payload)) ++ body ++ payload.

Record record_header_t := RecordHeader { h_crc : Z; h_kind : Z; h_payload_size : Z; h_timestamp : Z }.

Definition read_record_header (header : bytes) : outcome record_header_t :=
  crc ← read_le 4 header 0;
  kind ← read_le 1 header 4;
  payload_size ← read_le 8 header 8;
  ts ← read_le 8 header 16;
  mret (RecordHeader crc kind payload_size ts).

(** [payload.resize] beyond what a string can hold throws. *)
Definition resize (n : Z) : outcome unit := if bool_decide (2 ^ 63 <= n) then Fault (Throw 30) else mret tt.

(** ** Reading records *)

Definition read_rows_at (segs : gmap Z bytes) (segment_id value_offset : Z) : outcome (option (logical_value_t * list Z)) :=
  match segs !! segment_id with
  | None => mret None
  | Some f =>
      if bool_decide (value_offset < record_header_size) then mret None
      else
        match read_bytes f (value_offset - record_header_size) record_header_size with
        | Fault _ => mret None
        | Ok raw =>
            header ← read_record_header raw;
            _ ← resize (h_payload_size header);
            match read_bytes f value_offset (h_payload_size header) with
            | Fault _ => mret None
            | Ok payload =>
                if negb (bool_decide (compute_crc crc32c (drop 4 raw ++ payload) = h_crc header)) then mret None
                else
                  '(key, rows) ← deserialize_payload payload;
                  mret (if bool_decide (h_kind header = kind_value) then Some (key, rows) else None)
            end
        end
  end.

Definition load_hash_key_at_unlocked (segs : gmap Z bytes) (segment_id value_offset : Z) : outcome (option bytes) :=
  r ← read_rows_at segs segment_id value_offset;
  match r with
  | Some (key, _) => kb ← key_bytes_for_hash key; mret (Some kb)
  | None => mret None
  end.

(** The installed loader. *)
Definition key_loader (b : t) : loader := load_hash_key_at_unlocked (segments b).

(** The loader after [set_full_key_loader(nullptr)]. *)
Definition no_loader (_ : t) : loader := fun _ _ => mret None.

Definition current_rows (b : t) (key : logical_value_t) : outcome (list Z) :=
  kb ← key_bytes_for_hash key;
  ref ← hs_get (key_loader b) (hash_index_ b) kb;
  match ref with
  | None => mret []
  | Some v =>
      r ← read_rows_at (segments b) (disk_hash_table.log_file_id v) (disk_hash_table.log_offset v);
      mret (match r with Some (_, rows) => rows | None => [] end)
  end.

Fixpoint erase_all_loop (ld : loader) (fuel : nat) (tb : T) (kb : bytes) : outcome T :=
  match fuel with
  | O => Fault OutOfFuel
  | S fuel =>
      '(erased, tb) ← hs_erase ld tb kb;
      if erased : bool then erase_all_loop ld fuel tb kb else mret tb
  end.

(** Every turn but the last removes an entry. *)
Definition erase_all_refs_for_key (ld : loader) (tb : T) (kb : bytes) : outcome T :=
  erase_all_loop ld (S (Z.to_nat (hs_size tb))) tb kb.

(** The value of a hash entry: the last row, as a signed number. *)
Definition row_value (rows : list Z) : Z := match last rows with Some r => s64 r | None => -1 end.

(** ** Flushing *)

Definition mark_operation_dirty (b : t) : t := with_flush b (Flush true (u64 (ops_since_flush_ (flush_ b) + 1))).
Definition reset_flush_state (b : t) : t := with_flush b (Flush false 0).
Definition should_flush (b : t) : bool := bool_decide (flush_threshold_ <= ops_since_flush_ (flush_ b)).
Definition force_flush_unlocked (b : t) : t := if dirty_ (flush_ b) then reset_flush_state b else b.
Definition flush_if_needed (b : t) : t := if bulk_mode_ (bulk_ b) then b else if should_flush b then force_flush_unlocked b else b.

(** ** The active segment *)

Definition write_current_segment_id (b : t) (id : Z) : outcome t :=
  if publishes (S_current id) then mret (with_files b (with_current (files_ b) id)) else Fault Abort.

(** [FILE_CREATE] creates the file when there is none. *)
Definition open_active_segment (b : t) : outcome t :=
  let b := match segments b !! active b with Some _ => b | None => set_segment b (active b) [] end in
  write_current_segment_id b (active b).

Definition rotate_active_segment (b : t) : outcome t :=
  let b := force_flush_unlocked b in
  let c := counters_ b in
  let b := with_counters b (Counters (next_timestamp_ c) (u64 (next_segment_id_ c + 1)) (next_segment_id_ c) 0) in
  b ← open_active_segment b;
  mret (with_tasks b (S (tasks_ b))).

Definition rotate_active_segment_if_needed (b : t) : outcome t :=
  if bulk_mode_ (bulk_ b) then mret b
  else if bool_decide (segment_record_limit_ <= active_segment_records_ (counters_ b)) then rotate_active_segment b
  else mret b.

(** Append a record to the active segment with the next timestamp; the offset it starts at. *)
Definition append_record (b : t) (kind : Z) (payload : bytes) : outcome (Z * t) :=
  f ← of_option NullDeref (segments b !! active b);
  let ts := u64 (next_timestamp_ (counters_ b) + 1) in
  mret (zlen f, with_timestamp (set_segment b (active b) (f ++ write_record kind ts payload)) ts).

Definition count_record (b : t) : t :=
  let c := counters_ b in
  with_counters b (Counters (next_timestamp_ c) (next_segment_id_ c) (active b) (u64 (active_segment_records_ c + 1))).

Definition append_snapshot (b : t) (key : logical_value_t) (rows : list Z) : outcome t :=
  b ← rotate_active_segment_if_needed b;
  payload ← serialize_payload key rows;
  '(offset, b) ← append_record b kind_value payload;
  kb ← key_bytes_for_hash key;
  tb ← erase_all_refs_for_key (key_loader b) (hash_index_ b) kb;
  '(_, tb) ← hs_put tb kb (row_value rows) (u32 (active b)) (offset + record_header_size);
  mret (count_record (with_hash b tb)).

Definition append_tombstone (b : t) (key : logical_value_t) : outcome t :=
  b ← rotate_active_segment_if_needed b;
  payload ← serialize_payload key [];
  '(_, b) ← append_record b kind_tombstone payload;
  kb ← key_bytes_for_hash key;
  tb ← erase_all_refs_for_key (key_loader b) (hash_index_ b) kb;
  mret (count_record (with_hash b tb)).

(** ** Operations *)

Definition find (b : t) (value : logical_value_t) : outcome (list Z) :=
  kb ← key_bytes_for_hash value;
  ref ← hs_get (key_loader b) (hash_index_ b) kb;
  match ref with
  | None => mret []
  | Some v =>
      r ← read_rows_at (segments b) (disk_hash_table.log_file_id v) (disk_hash_table.log_offset v);
      mret (match r with Some (_, rows) => rows | None => [] end)
  end.

(** Add the row when the key does not have it: [true] when a record was written. *)
Definition add_row (b : t) (key : logical_value_t) (value : Z) : outcome (bool * t) :=
  rows ← current_rows b key;
  if bool_decide (value ∈ rows) then mret (false, b)
  else b ← append_snapshot b key (rows ++ [value]); mret (true, mark_operation_dirty b).

Definition insert (b : t) (key : logical_value_t) (value : Z) : outcome t :=
  '(written, b) ← add_row b key value; mret (if written : bool then flush_if_needed b else b).

Definition insert_bulk_unchecked (b : t) (key : logical_value_t) (value : Z) : outcome t :=
  b ← append_snapshot b key [value]; mret (mark_operation_dirty b).

Definition remove (b : t) (key : logical_value_t) : outcome t :=
  kb ← key_bytes_for_hash key;
  ref ← hs_get (key_loader b) (hash_index_ b) kb;
  match ref with
  | None => mret b
  | Some _ => b ← append_tombstone b key; mret (flush_if_needed (mark_operation_dirty b))
  end.

(** Take the row from the key's rows: [true] when a record was written. *)
Definition drop_row (b : t) (key : logical_value_t) (row_id : Z) : outcome (bool * t) :=
  rows ← current_rows b key;
  let left := filter (fun r => r <> row_id) rows in
  if bool_decide (rows = []) || bool_decide (length left = length rows) then mret (false, b)
  else
    b ← (if bool_decide (left = []) then append_tombstone b key else append_snapshot b key left);
    mret (true, mark_operation_dirty b).

Definition remove_row (b : t) (key : logical_value_t) (row_id : Z) : outcome t :=
  '(written, b) ← drop_row b key row_id; mret (if written : bool then flush_if_needed b else b).

Definition force_flush (b : t) : t := force_flush_unlocked b.

(** The rows of every reference that can be read. *)
Definition entries_at (segs : gmap Z bytes) (v : disk_hash_table.value_ref_t) : outcome (list (logical_value_t * Z)) :=
  r ← read_rows_at segs (disk_hash_table.log_file_id v) (disk_hash_table.log_offset v);
  mret (match r with Some (key, rows) => (fun row => (key, row)) <$> rows | None => [] end).

Definition load_entries (b : t) : outcome (list (logical_value_t * Z)) :=
  vs ← hs_for_each (hash_index_ b);
  es ← mapM (entries_at (segments b)) vs;
  mret (concat es).

Definition suppress_rehash (b : t) (s : bool) : bool * t :=
  let '(prev, tb) := hs_suppress (hash_index_ b) s in (prev, with_hash b tb).

(** Restore the suppression of rehashing and rehash when it ends. *)
Definition restore_rehash (b : t) (prev : bool) : outcome t :=
  let '(_, b) := suppress_rehash b prev in
  if prev then mret b else '(_, tb) ← hs_trigger (hash_index_ b); mret (with_hash b tb).

Definition set_bulk_mode (b : t) (enabled : bool) : outcome t :=
  let k := bulk_ b in
  if enabled then
    if bulk_mode_ k then mret b
    else let '(prev, b) := suppress_rehash b true in mret (with_bulk b (Bulk true true prev))
  else
    b ← (if bulk_mode_ k && bulk_rehash_guard_active_ k then
           b ← restore_rehash b (bulk_prev_rehash_suppressed_ k);
           mret (with_bulk b (Bulk (bulk_mode_ k) false (bulk_prev_rehash_suppressed_ k)))
         else mret b);
    mret (with_bulk b (Bulk false (bulk_rehash_guard_active_ (bulk_ b)) (bulk_prev_rehash_suppressed_ (bulk_ b)))).

(** ** Loading *)

Definition collect_segments (fs : files) : list Z := merge_sort Z.le (map_to_list (data fs)).*1.

(** A manifest is obeyed when the merged segment is there, and removed when it is not. *)
Definition apply_merge_recovery_cleanup (fs : files) : files :=
  match merge_manifest fs with
  | None => fs
  | Some (merged, removed) =>
      match data fs !! merged with
      | None => with_manifest fs None
      | Some _ => with_data fs (foldr delete (data fs) removed)
      end
  end.

(** Replay one record into the hash index; [None] for a record of no known kind. *)
Definition replay (b : t) (id offset : Z) (header : record_header_t) (payload : bytes) : outcome (option t) :=
  '(key, rows) ← deserialize_payload payload;
  kb ← key_bytes_for_hash key;
  if bool_decide (h_kind header = kind_tombstone) then
    tb ← erase_all_refs_for_key (key_loader b) (hash_index_ b) kb; mret (Some (with_hash b tb))
  else if bool_decide (h_kind header = kind_value) then
    tb ← erase_all_refs_for_key (key_loader b) (hash_index_ b) kb;
    '(_, tb) ← hs_put tb kb (row_value rows) (u32 id) (offset + record_header_size);
    mret (Some (with_hash b tb))
  else mret None.

(** The records of a segment from [offset]: how many were replayed, and whether a checksum
    failed. *)
Fixpoint load_segment (fuel : nat) (b : t) (id : Z) (f : bytes) (offset count : Z) : outcome (t * Z * bool) :=
  match fuel with
  | O => Fault OutOfFuel
  | S fuel =>
      if negb (bool_decide (offset + record_header_size <= zlen f)) then mret (b, count, false)
      else
        raw ← read_bytes f offset record_header_size;
        header ← read_record_header raw;
        let payload_offset := offset + record_header_size in
        if bool_decide (zlen f < u64 (payload_offset + h_payload_size header)) then mret (b, count, false)
        else
          _ ← resize (h_payload_size header);
          payload ← read_bytes f payload_offset (h_payload_size header);
          if negb (bool_decide (compute_crc crc32c (drop 4 raw ++ payload) = h_crc header)) then mret (b, count, true)
          else
            r ← replay b id offset header payload;
            match r with
            | None => mret (b, count, false)
            | Some b =>
                load_segment fuel (with_timestamp b (Z.max (next_timestamp_ (counters_ b)) (h_timestamp header))) id f
                  (payload_offset + h_payload_size header) (count + 1)
            end
  end.

(** Every record takes at least its header. *)
Definition segment_fuel (f : bytes) : nat := S (length f).

(** The segments in order, with the record count of each. *)
Fixpoint load_segments (b : t) (ids : list Z) : outcome (t * list (Z * Z) * bool) :=
  match ids with
  | [] => mret (b, [], false)
  | id :: ids =>
      f ← of_option Abort (segments b !! id);
      '(b, count, corrupt) ← load_segment (segment_fuel f) b id f 0 0;
      if corrupt : bool then mret (b, [], true)
      else '(b, counts, corrupt) ← load_segments b ids; mret (b, (id, count) :: counts, corrupt)
  end.

(** The flag is [crc_failure_]. *)
Definition load_from_disk (b : t) : outcome (t * bool) :=
  let '(prev, b) := suppress_rehash b true in
  let b := with_files b (apply_merge_recovery_cleanup (files_ b)) in
  match collect_segments (files_ b) with
  | [] =>
      let c := counters_ b in
      b ← restore_rehash (with_counters b (Counters (next_timestamp_ c) (regular_segment_id_start_ + 1) regular_segment_id_start_
                                             (active_segment_records_ c))) prev;
      mret (b, false)
  | ids =>
      '(b, counts, corrupt) ← load_segments b ids;
      if corrupt : bool then mret ((suppress_rehash b prev).2, true)
      else
        let back := default (0, 0) (last counts) in
        let chosen := default back (list_find (fun p => Some p.1 = CURRENT (files_ b)) counts ≫= (fun q => Some q.2)) in
        let b := with_counters b (Counters (next_timestamp_ (counters_ b)) (u64 (back.1 + 1)) chosen.1 chosen.2) in
        b ← restore_rehash b prev;
        mret (b, false)
  end.

(** ** The transaction log *)

(** What [append_txn_record_unlocked] writes for a list of keys and rows. *)
Definition txn_payload (values : list (logical_value_t * Z)) : outcome bytes :=
  entries ← mapM (fun v => k ← append_logical_value v.1; mret (k ++ write_le 8 v.2)) values;
  mret (write_le 4 (u32 (zlen values)) ++ concat entries).

(** The header's bytes after the checksum. *)
Definition txn_body (txn_id op_kind : Z) (payload : bytes) : bytes :=
  write_le 8 txn_id ++ write_le 1 op_kind ++ zeros 7 ++ write_le 8 (zlen payload).

Definition txn_frame (txn_id op_kind : Z) (payload : bytes) : bytes :=
  let body := txn_body txn_id op_kind payload in
  write_le 4 txn_magic ++ write_le 4 (compute_crc crc32c (body ++ payload)) ++ body ++ payload.

Definition append_txn_record_unlocked (b : t) (txn_id op_kind : Z) (values : list (logical_value_t * Z)) :
    outcome (option error_code_t * t) :=
  payload ← txn_payload values;
  if negb txn_log_opens then mret (Some index_create_fail, b)
  else mret (None, with_files b (with_txn_log (files_ b) (default [] (txn_log (files_ b)) ++ txn_frame txn_id op_kind payload))).

Definition read_applied_log_offset (b : t) : Z := default 0 (txn_applied (files_ b)).

Definition write_applied_log_offset (b : t) (off : Z) : option error_code_t * t :=
  if publishes (S_applied off) then (None, with_files b (with_applied (files_ b) off)) else (Some index_create_fail, b).

(** Apply the entries of a frame one by one. *)
Fixpoint apply_entries (n : nat) (b : t) (op_kind : Z) (payload : bytes) (pos : Z) : outcome t :=
  match n with
  | O => mret b
  | S n =>
      '(key, pos) ← read_logical_value payload pos;
      '(row_id, pos) ← take_le 8 payload pos;
      b ← (if bool_decide (op_kind = 1) then insert b key row_id else remove_row b key row_id);
      apply_entries n b op_kind payload pos
  end.

Definition apply_frame (b : t) (txn_id op_kind : Z) (payload : bytes) : outcome t :=
  if bool_decide (txn_id ∈ committed_txn_ids_ b) then
    '(count, pos) ← take_le 4 payload 0;
    b ← apply_entries (Z.to_nat count) b op_kind payload pos;
    mret (force_flush_unlocked b)
  else mret b.

Fixpoint recover_loop (fuel : nat) (b : t) (log : bytes) (pos : Z) : outcome t :=
  match fuel with
  | O => Fault OutOfFuel
  | S fuel =>
      match read_bytes log pos txn_header_size with
      | Fault _ => mret b
      | Ok raw =>
          magic ← read_le 4 raw 0;
          if negb (bool_decide (magic = txn_magic)) then Fault Abort
          else
            crc ← read_le 4 raw 4;
            txn_id ← read_le 8 raw 8;
            op_kind ← read_le 1 raw 16;
            payload_size ← read_le 8 raw 24;
            _ ← resize payload_size;
            match read_bytes log (pos + txn_header_size) payload_size with
            | Fault _ => mret b
            | Ok payload =>
                if negb (bool_decide (compute_crc crc32c (drop 8 raw ++ payload) = crc)) then Fault Abort
                else if negb (bool_decide (op_kind = 1 \/ op_kind = 2)) then Fault Abort
                else
                  b ← apply_frame b txn_id op_kind payload;
                  let frame_end_offset := pos + txn_header_size + payload_size in
                  let '(err, b) := write_applied_log_offset b frame_end_offset in
                  match err with
                  | Some _ => Fault Abort
                  | None => recover_loop fuel b log frame_end_offset
                  end
            end
      end
  end.

Definition recover_txn_log_unlocked (b : t) : outcome t :=
  match txn_log (files_ b) with
  | None => mret b
  | Some log => recover_loop (S (length log)) b log (read_applied_log_offset b)
  end.

(** [apply] on every entry in turn. *)
Fixpoint for_values (apply : t -> logical_value_t -> Z -> outcome (bool * t)) (b : t) (values : list (logical_value_t * Z)) : outcome t :=
  match values with
  | [] => mret b
  | (key, row) :: values => '(_, b) ← apply b key row; for_values apply b values
  end.

Definition apply_txn (apply : t -> logical_value_t -> Z -> outcome (bool * t)) (b : t) (txn_id op_kind : Z)
    (values : list (logical_value_t * Z)) : outcome (option error_code_t * t) :=
  '(err, b) ← append_txn_record_unlocked b txn_id op_kind values;
  match err with
  | Some err => mret (Some err, b)
  | None =>
      let applied_offset := zlen (default [] (txn_log (files_ b))) in
      b ← for_values apply b values;
      mret (write_applied_log_offset (force_flush_unlocked b) applied_offset)
  end.

Definition apply_txn_inserts (b : t) (txn_id : Z) (values : list (logical_value_t * Z)) : outcome (option error_code_t * t) :=
  apply_txn add_row b txn_id 1 values.

Definition apply_txn_deletes (b : t) (txn_id : Z) (values : list (logical_value_t * Z)) : outcome (option error_code_t * t) :=
  apply_txn drop_row b txn_id 2 values.

(** ** Merging *)

Record merge_plan := Plan { p_merged : Z; p_removed : list Z; p_refs : list disk_hash_table.value_ref_t }.

(** The first locked part: which segments to merge, and the references into them. *)
Definition merge_begin (b : t) : outcome (option merge_plan * t) :=
  let frontier := active b in
  match filter (fun id => id < frontier) (collect_segments (files_ b)) with
  | [] => mret (None, b)
  | (front :: _) as immutable =>
      let '(prev, b) := suppress_rehash b true in
      let b := with_bulk b (Bulk (bulk_mode_ (bulk_ b)) (bulk_rehash_guard_active_ (bulk_ b)) prev) in
      vs ← hs_for_each (hash_index_ b);
      match filter (fun v => disk_hash_table.log_file_id v < u32 frontier) vs with
      | [] => mret (None, (suppress_rehash b prev).2)
      | refs => mret (Some (Plan (u64 (front - 1)) immutable refs), b)
      end
  end.

(** One entry of the [.meta] file. *)
Definition meta_entry (kb : bytes) (old_id old_off value new_off : Z) : bytes :=
  write_le 4 (u32 (zlen kb)) ++ kb ++ write_le 4 old_id ++ write_le 8 old_off ++ write_le 8 value ++ write_le 8 new_off.

(** The merged segment and the [.meta] file, record by record, with the number of records. *)
Fixpoint merge_records (b : t) (refs : list disk_hash_table.value_ref_t) (merged meta : bytes) (n : Z) : outcome (t * bytes * bytes * Z) :=
  match refs with
  | [] => mret (b, merged, meta, n)
  | v :: refs =>
      r ← read_rows_at (segments b) (disk_hash_table.log_file_id v) (disk_hash_table.log_offset v);
      match r with
      | None => merge_records b refs merged meta n
      | Some (key, rows) =>
          kb ← key_bytes_for_hash key;
          payload ← serialize_payload key rows;
          let ts := u64 (next_timestamp_ (counters_ b) + 1) in
          merge_records (with_timestamp b ts) refs (merged ++ write_record kind_value ts payload)
            (meta ++ meta_entry kb (disk_hash_table.log_file_id v) (disk_hash_table.log_offset v) (row_value rows)
                       (zlen merged + record_header_size))
            (u64 (n + 1))
      end
  end.

(** The part without the lock; [None] when nothing was built. *)
Definition merge_build (b : t) (plan : merge_plan) : outcome (option bytes * t) :=
  '(b, merged, meta, n) ← merge_records b (p_refs plan) [] [] 0;
  if bool_decide (n = 0) then mret (None, b)
  else if negb (publishes (S_manifest (p_merged plan) (p_removed plan))) then Fault Abort
  else mret (Some meta, set_segment (with_files b (with_manifest (files_ b) (Some (p_merged plan, p_removed plan)))) (p_merged plan) merged).

(** The loop over the [.meta] file: an entry whose reference has not changed moves to the merged
    segment. *)
Fixpoint merge_apply (ld : loader) (fuel : nat) (tb : T) (meta : bytes) (off merged_segment_id : Z) : outcome T :=
  match fuel with
  | O => Fault OutOfFuel
  | S fuel =>
      if negb (bool_decide (off < zlen meta)) then mret tb
      else
        match read_le 4 meta off with
        | Fault _ => mret tb
        | Ok key_size =>
            let off := off + 4 in
            match (kb ← read_bytes meta off key_size;
                   old_id ← read_le 4 meta (off + key_size);
                   old_off ← read_le 8 meta (off + key_size + 4);
                   value ← read_le 8 meta (off + key_size + 12);
                   new_off ← read_le 8 meta (off + key_size + 20);
                   mret (kb, old_id, old_off, s64 value, new_off)) with
            | Fault _ => mret tb
            | Ok (kb, old_id, old_off, value, new_off) =>
                let next := off + key_size + 28 in
                current ← hs_get ld tb kb;
                match current with
                | None => merge_apply ld fuel tb meta next merged_segment_id
                | Some v =>
                    if negb (bool_decide (disk_hash_table.log_file_id v = old_id /\ disk_hash_table.log_offset v = old_off)) then
                      merge_apply ld fuel tb meta next merged_segment_id
                    else
                      tb ← erase_all_refs_for_key ld tb kb;
                      '(_, tb) ← hs_put tb kb value (u32 merged_segment_id) new_off;
                      merge_apply ld fuel tb meta next merged_segment_id
                end
            end
        end
  end.

(** The second locked part. *)
Definition merge_finish (ld : t -> loader) (b : t) (plan : merge_plan) (built : option bytes) : outcome t :=
  match built with
  | None => restore_rehash b (bulk_prev_rehash_suppressed_ (bulk_ b))
  | Some meta =>
      tb ← merge_apply (ld b) (S (length meta)) (hash_index_ b) meta 0 (p_merged plan);
      let b := with_files (with_hash b tb) (with_data (files_ b) (foldr delete (segments b) (p_removed plan))) in
      restore_rehash b (bulk_prev_rehash_suppressed_ (bulk_ b))
  end.

(** The three parts without anything between them. *)
Definition merge_immutable_segments (ld : t -> loader) (b : t) : outcome t :=
  '(plan, b) ← merge_begin b;
  match plan with
  | None => mret b
  | Some plan => '(built, b) ← merge_build b plan; merge_finish ld b plan built
  end.

(** [stop] on the task executor: the worker ends when the queue is empty. *)
Fixpoint run_tasks (ld : t -> loader) (n : nat) (b : t) : outcome t :=
  match n with
  | O => mret (with_tasks b 0)
  | S n => b ← merge_immutable_segments ld b; run_tasks ld n b
  end.

Definition stop_tasks (ld : t -> loader) (b : t) : outcome t := run_tasks ld (tasks_ b) b.

(** ** Opening, closing, clearing *)

(** The instance before loading, on the files of the directory and the storage [tb]. *)
Definition fresh (fs : files) (tb : T) (committed : gset Z) : t :=
  Bitcask fs tb (Counters 0 regular_segment_id_start_ 0 0) (Bulk false false false) (Flush false 0) committed 0.

(** [None] is the error for a checksum failure. *)
Definition create (fs : files) (tb : T) (committed : gset Z) : outcome (option t) :=
  '(b, crc_failure) ← load_from_disk (fresh fs tb committed);
  if crc_failure : bool then mret None
  else b ← open_active_segment b; b ← recover_txn_log_unlocked b; mret (Some b).

(** The public constructor aborts instead. *)
Definition new (fs : files) (tb : T) (committed : gset Z) : outcome t :=
  r ← create fs tb committed; match r with Some b => mret b | None => Fault Abort end.

(** The destructor takes the loader away before the task executor is destroyed, which runs the
    merges still queued. *)
Definition close (b : t) : outcome (files * T) :=
  b ← stop_tasks no_loader (force_flush b); mret (files_ b, hash_index_ b).

(** Closing and opening again with the storage reopened. *)
Definition reopen (b : t) (committed : gset Z) : outcome (option t) :=
  '(fs, tb) ← close b; tb ← hs_reopen tb; create fs tb committed.

Definition clear (b : t) : outcome t :=
  b ← stop_tasks key_loader b;
  tb ← hs_clear (hash_index_ b);
  let k := bulk_ b in
  '(b, _) ← load_from_disk (Bitcask no_files tb (Counters 0 regular_segment_id_start_ 0 0)
                             (Bulk false (bulk_rehash_guard_active_ k) (bulk_prev_rehash_suppressed_ k)) (Flush false 0)
                             (committed_txn_ids_ b) 0);
  open_active_segment b.

(** The directory is removed. *)
Definition drop (b : t) : outcome files := _ ← stop_tasks key_loader b; mret no_files.

End bitcask.
End bitcask_index_disk.
