(* ===== verification/BitcaskLog.v ===== *)
(** * The log of the index

    A segment as a list of entries: what a record looks like in bytes, that the readers of
    records find in them what was written, and the index a log stands for, which maps the key bytes to the
    last snapshot of a key unless a tombstone follows it. *)

From S2P Require Import Prelude.
From S2P Require Import Bytes.
From S2P Require Import WalBinary.
From S2P Require Import WalWorker.
From S2P Require Import WalRecovery.
From S2P Require Import DiskHashTable.
From S2P Require Import DiskHashPage.
From S2P Require Import DiskHashSpec.
From S2P Require Import HashStorage.
From S2P Require Import IndexCodec.
From S2P Require Import Bitcask.
From coqutil Require Import Byte.
Import bitcask_index_disk.
#[local] Open Scope Z_scope.

(** ** Names of segments *)

Lemma forallb_digits ds : Forall (fun b => is_digit b = true) ds -> forallb is_digit ds = true.
Proof. induction 1 as [|b ds Hb _ IH]; [done|]. cbn. by rewrite Hb, IH. Qed.

Lemma pad_digits n ds : Forall (fun b => is_digit b = true) ds -> Forall (fun b => is_digit b = true) (pad n ds).
Proof. intros H. unfold pad. apply Forall_app. split; [|done]. by apply Forall_replicate. Qed.

(** The id read back from a segment's name is the id the name was made from. *)
Lemma parse_segment_file_name id : in_width 64 id -> parse_segment_id (segment_file_name id) = Some id.
Proof.
  intros Hid. unfold in_width in Hid. unfold parse_segment_id, segment_file_name. set (ds := pad _ _).
  assert (Hds : Forall (fun b => is_digit b = true) ds) by (apply pad_digits, decimal_digits; lia).
  assert (Hv : digits_value ds = id).
  { unfold ds, pad. rewrite digits_value_zeros. apply decimal_value. lia. }
  assert (Hne : ds <> []).
  { unfold ds, pad. intros [_ E]%app_eq_nil. revert E. apply decimal_nonempty. lia. }
  unfold has_prefix, has_suffix. rewrite take_app_length, bool_decide_true by done. cbn [negb orb].
  rewrite app_assoc. rewrite (drop_app_length' (segment_prefix ++ ds)) by (rewrite !length_app; lia). rewrite bool_decide_true by done. cbn [negb].
  rewrite bool_decide_false by (rewrite !length_app; lia). rewrite <- app_assoc, drop_app_length.
  rewrite (take_app_length' ds) by (rewrite !length_app; lia). unfold from_chars.
  rewrite bool_decide_false by done. rewrite forallb_digits by done. rewrite Hv, bool_decide_true by lia. done.
Qed.

(** The file a merge writes to is not taken for a segment. *)
Lemma merge_temp_no_segment id : parse_segment_id (merge_temp_file_name id) = None.
Proof.
  unfold parse_segment_id, merge_temp_file_name. set (n := segment_file_name id). set (s := [Byte.x2e; _; _; _; _; _]).
  replace (has_suffix segment_suffix (n ++ s)) with false; [by rewrite orb_true_r|]. symmetry. unfold has_suffix.
  apply bool_decide_eq_false. rewrite length_app. replace (length n + length s - length segment_suffix)%nat with (length n + 1)%nat by (cbn; lia).
  rewrite drop_app_add. done.
Qed.

(** ** Keys *)

Definition key_of (v : logical_value_t) : bytes := match key_bytes_for_hash v with Ok k => k | Fault _ => [] end.
Definition value_bytes (v : logical_value_t) : bytes := match append_logical_value v with Ok k => k | Fault _ => [] end.

(** An indexable key whose length in the hash table fits its field. *)
Definition key_ok (v : logical_value_t) : Prop := value_ok v /\ zlen (key_of v) < 2 ^ 32.

Lemma key_of_eq v : value_ok v -> key_bytes_for_hash v = Ok (key_of v).
Proof. intros Hv. unfold key_of. by destruct (key_bytes_ok v Hv) as [k ->]. Qed.

Lemma value_bytes_eq v : value_ok v -> append_logical_value v = Ok (value_bytes v).
Proof. intros Hv. unfold value_bytes. by destruct (value_read_back v [] [] Hv) as (b & -> & _). Qed.

Lemma key_of_plain v : value_ok v -> key_of (plain v) = key_of v.
Proof. intros Hv. unfold key_of. by rewrite key_bytes_plain. Qed.

Lemma key_ok_plain v : key_ok v -> key_ok (plain v).
Proof. intros [Hv Hk]. split; [by apply plain_ok|]. by rewrite key_of_plain. Qed.

Lemma value_bytes_plain v : value_ok v -> value_bytes (plain v) = value_bytes v.
Proof. intros Hv. unfold value_bytes. by rewrite append_plain. Qed.

Lemma num_size_le p n : num_size p = Some n -> (n <= 16)%nat.
Proof. destruct p; cbn; intros [= <-]; lia. Qed.

Lemma value_bytes_len v : value_ok v -> zlen (value_bytes v) <= 5 + 2 ^ 32.
Proof.
  intros Hv. unfold value_bytes. destruct Hv as [e|e b|ty e p n z Hin Hn Hz|e s Hs|al w s p n z Hw Hs Hp Hn Hz].
  - by vm_compute.
  - by destruct b; vm_compute.
  - rewrite (append_num ty e p n z) by done. pose proof (num_size_le p n Hn). len.
  - change (append_logical_value _) with (Ok (write_le 1 LT_STRING ++ write_le 4 (u32 (zlen s)) ++ s)).
    cbn iota. rewrite !zlen_app, !zlen_write_le. lia.
  - rewrite (append_decimal al w s p n z) by done. pose proof (num_size_le p n Hn). len.
Qed.

Lemma read_value_bytes v a c :
  value_ok v -> read_logical_value (a ++ value_bytes v ++ c) (zlen a) = Ok (plain v, zlen a + zlen (value_bytes v)).
Proof. intros Hv. unfold value_bytes. by destruct (value_read_back v a c Hv) as (b & -> & E). Qed.

(** ** Entries *)

Record entry := Entry { e_live : bool; e_ts : Z; e_key : logical_value_t; e_rows : list Z }.

Record entry_ok (e : entry) : Prop := {
  eo_key : key_ok (e_key e);
  eo_ts : in_width 64 (e_ts e);
  eo_rows : Forall (in_width 64) (e_rows e);
  eo_count : zlen (e_rows e) < 2 ^ 32;
}.

Definition rows_bytes (rows : list Z) : bytes := rows ≫= write_le 8.

Definition payload (e : entry) : bytes := value_bytes (e_key e) ++ write_le 4 (zlen (e_rows e)) ++ rows_bytes (e_rows e).

Definition kind_of (e : entry) : Z := if e_live e then kind_value else kind_tombstone.

Lemma zlen_rows_bytes rows : zlen (rows_bytes rows) = 8 * zlen rows.
Proof. unfold rows_bytes. induction rows as [|r rows IH]; [done|]. cbn [mbind list_bind]. rewrite zlen_app, zlen_write_le, zlen_cons, IH. lia. Qed.

Lemma serialize_entry e : entry_ok e -> serialize_payload (e_key e) (e_rows e) = Ok (payload e).
Proof.
  intros [[Hk _] _ _ Hc]. unfold serialize_payload. rewrite value_bytes_eq by done. cbn [mbind outcome_bind].
  rewrite wrap_small; [done|]. pose proof (zlen_nonneg (e_rows e)). split; lia.
Qed.

Lemma take_rows_bytes rows l a c pos :
  l = a ++ rows_bytes rows ++ c -> pos = zlen a -> Forall (in_width 64) rows -> take_rows (length rows) l pos = Ok rows.
Proof.
  revert a pos. induction rows as [|r rows IH]; intros a pos -> -> Hr; [done|]. apply Forall_cons in Hr as [Hr Hrs].
  cbn [length take_rows]. rewrite (take_le_small _ a 8 r (rows_bytes rows ++ c)); [|by unfold rows_bytes; cbn; rewrite <- !app_assoc|done|exact Hr].
  cbn [mbind outcome_bind]. rewrite (IH (a ++ write_le 8 r)); [done| |len|done]. unfold rows_bytes. cbn. by rewrite <- !app_assoc.
Qed.

Lemma deserialize_entry e : entry_ok e -> deserialize_payload (payload e) = Ok (plain (e_key e), e_rows e).
Proof.
  intros [[Hk _] _ Hr Hc]. pose proof (zlen_nonneg (e_rows e)). unfold deserialize_payload.
  pose proof (read_value_bytes (e_key e) [] (write_le 4 (zlen (e_rows e)) ++ rows_bytes (e_rows e)) Hk) as Hv. cbn [app] in Hv.
  unfold payload. rewrite zlen_nil in Hv. rewrite Hv. cbn [mbind outcome_bind].
  rewrite (take_le_small _ (value_bytes (e_key e)) 4 (zlen (e_rows e)) (rows_bytes (e_rows e))) by (try done; try lia; cbn; lia).
  cbn [mbind outcome_bind]. unfold zlen at 1. rewrite Nat2Z.id.
  rewrite (take_rows_bytes (e_rows e) _ (value_bytes (e_key e) ++ write_le 4 (zlen (e_rows e))) []);
    [done|by rewrite app_nil_r, <- !app_assoc|len|done].
Qed.

Lemma payload_len e : entry_ok e -> 0 <= zlen (payload e) <= 2 ^ 33 + 8 * zlen (e_rows e).
Proof.
  intros [[Hk _] _ _ _]. pose proof (value_bytes_len _ Hk). pose proof (zlen_nonneg (value_bytes (e_key e))).
  pose proof (zlen_nonneg (e_rows e)). unfold payload. rewrite !zlen_app, zlen_write_le, zlen_rows_bytes. lia.
Qed.

(** A segment of a log, which is a list of segments in order. *)
Abbreviation segment := (Z * list entry)%type.

Section log.
Context (crc32c : bytes -> Z).

Definition encode (e : entry) : bytes := write_record crc32c (kind_of e) (e_ts e) (payload e).

Definition log_bytes (es : list entry) : bytes := es ≫= encode.

Lemma log_bytes_app es es' : log_bytes (es ++ es') = log_bytes es ++ log_bytes es'.
Proof. apply bind_app. Qed.

Lemma log_bytes_single e : log_bytes [e] = encode e.
Proof. cbn. apply app_nil_r. Qed.

Lemma zlen_record_body kind ts p : zlen (record_body kind ts p) = 20.
Proof. unfold record_body. by rewrite !zlen_app, !zlen_write_le, zlen_zeros by lia. Qed.

Lemma zlen_write_record kind ts p : zlen (write_record crc32c kind ts p) = 24 + zlen p.
Proof. unfold write_record. rewrite !zlen_app, zlen_record_body, zlen_write_le. lia. Qed.

(** The header of a record. *)
Definition header_bytes (e : entry) : bytes :=
  write_le 4 (compute_crc crc32c (record_body (kind_of e) (e_ts e) (payload e) ++ payload e)) ++ record_body (kind_of e) (e_ts e) (payload e).

Definition header_of (e : entry) : record_header_t :=
  RecordHeader (compute_crc crc32c (record_body (kind_of e) (e_ts e) (payload e) ++ payload e)) (kind_of e) (zlen (payload e)) (e_ts e).

Lemma encode_header e : encode e = header_bytes e ++ payload e.
Proof. unfold encode, write_record, header_bytes. by rewrite <- app_assoc. Qed.

Lemma zlen_header_bytes e : zlen (header_bytes e) = record_header_size.
Proof. unfold header_bytes. by rewrite zlen_app, zlen_record_body, zlen_write_le. Qed.

Lemma read_header_bytes e : entry_ok e -> zlen (payload e) < 2 ^ 63 -> read_record_header (header_bytes e) = Ok (header_of e).
Proof.
  intros [_ Ht _ _] Hp. pose proof (zlen_nonneg (payload e)). unfold read_record_header, header_bytes, header_of, record_body.
  set (crc := compute_crc _ _). pose proof (compute_crc_width crc32c (record_body (kind_of e) (e_ts e) (payload e) ++ payload e)) as Hcrc.
  assert (Hk : 0 <= kind_of e < 2 ^ (8 * Z.of_nat 1)) by (unfold kind_of, kind_value, kind_tombstone; destruct (e_live e); cbn; lia).
  rewrite (read_le_in _ [] 4 crc (write_le 1 (kind_of e) ++ zeros 3 ++ write_le 8 (zlen (payload e)) ++ write_le 8 (e_ts e))); [|done|done|exact Hcrc].
  cbn [mbind outcome_bind].
  rewrite (read_le_in _ (write_le 4 crc) 1 (kind_of e) (zeros 3 ++ write_le 8 (zlen (payload e)) ++ write_le 8 (e_ts e))); [|done|len|exact Hk].
  cbn [mbind outcome_bind].
  rewrite (read_le_in _ (write_le 4 crc ++ write_le 1 (kind_of e) ++ zeros 3) 8 (zlen (payload e)) (write_le 8 (e_ts e)) 8);
    [|by rewrite <- !app_assoc|rewrite !zlen_app, !zlen_write_le, zlen_zeros by lia; done|cbn; lia].
  cbn [mbind outcome_bind].
  rewrite (read_le_in _ (write_le 4 crc ++ write_le 1 (kind_of e) ++ zeros 3 ++ write_le 8 (zlen (payload e))) 8 (e_ts e) [] 16);
    [done|by rewrite app_nil_r, <- !app_assoc|rewrite !zlen_app, !zlen_write_le, zlen_zeros by lia; done|exact Ht].
Qed.

Lemma header_bytes_crc e p : compute_crc crc32c (skipn 4 (header_bytes e) ++ p) = compute_crc crc32c (record_body (kind_of e) (e_ts e) (payload e) ++ p).
Proof.
  unfold header_bytes. by rewrite (drop_app_length' (write_le 4 _)) by (pose proof (zlen_write_le 4 (compute_crc crc32c (record_body (kind_of e) (e_ts e) (payload e) ++ payload e))); unfold zlen in *; lia).
Qed.

Lemma resize_ok n : n < 2 ^ 63 -> resize n = Ok tt.
Proof. intros H. unfold resize. by rewrite bool_decide_false by lia. Qed.

(** A record can be read wherever it stands. *)
Lemma read_rows_at_entry segs id f a c e off :
  segs !! id = Some f -> f = a ++ encode e ++ c -> off = zlen a + record_header_size -> entry_ok e -> zlen (payload e) < 2 ^ 63 ->
  read_rows_at crc32c segs id off = Ok (if e_live e then Some (plain (e_key e), e_rows e) else None).
Proof.
  intros Hf -> -> He Hp. pose proof (zlen_nonneg a). unfold read_rows_at. rewrite Hf. rewrite bool_decide_false by lia.
  replace (zlen a + record_header_size - record_header_size) with (zlen a) by lia. rewrite encode_header, <- app_assoc.
  rewrite (read_bytes_in _ a (header_bytes e) (payload e ++ c)) by (done || by rewrite zlen_header_bytes).
  rewrite read_header_bytes by done. cbn [mbind outcome_bind header_of h_payload_size h_crc h_kind].
  rewrite resize_ok by done. cbn [mbind outcome_bind].
  rewrite (read_bytes_in _ (a ++ header_bytes e) (payload e) c); [|by rewrite <- !app_assoc|by rewrite zlen_app, zlen_header_bytes|done].
  rewrite header_bytes_crc. rewrite bool_decide_true by done. cbn [negb]. rewrite deserialize_entry by done.
  cbn [mbind outcome_bind mret outcome_ret]. unfold kind_of, kind_value, kind_tombstone. by destruct (e_live e).
Qed.

(** ** Where entries stand *)

(** An entry with its segment and the offset of its payload. *)
Record slot := Slot { s_file : Z; s_off : Z; s_entry : entry }.

Definition slot_key (s : slot) : bytes := key_of (e_key (s_entry s)).

Fixpoint places (id off : Z) (es : list entry) : list slot :=
  match es with
  | [] => []
  | e :: es => Slot id (off + record_header_size) e :: places id (off + zlen (encode e)) es
  end.

Lemma places_app id off es es' : places id off (es ++ es') = places id off es ++ places id (off + zlen (log_bytes es)) es'.
Proof.
  revert off. induction es as [|e es IH]; intros off; cbn [app places]; [cbn; by rewrite Z.add_0_r|].
  rewrite IH. cbn [app]. do 3 f_equal. unfold log_bytes. cbn [mbind list_bind]. rewrite zlen_app. lia.
Qed.

Lemma places_file id off es s : s ∈ places id off es -> s_file s = id.
Proof. revert off. induction es as [|e es IH]; intros off; cbn; [by intros ?%not_elem_of_nil|]. intros [->|Hs]%elem_of_cons; [done|by eapply IH]. Qed.

(** The bytes around an entry of a segment. *)
Lemma places_split id es s :
  s ∈ places id 0 es -> exists a c, es = a ++ s_entry s :: c /\ s_file s = id /\ s_off s = zlen (log_bytes a) + record_header_size.
Proof.
  assert (Hgen : forall off, s ∈ places id off es -> exists a c, es = a ++ s_entry s :: c /\ s_file s = id /\ s_off s = off + zlen (log_bytes a) + record_header_size).
  2:{ intros Hs. destruct (Hgen 0 Hs) as (a & c & ? & ? & ?). exists a, c. split_and!; [done|done|lia]. }
  induction es as [|e es IH]; intros off; cbn [places]; [by intros ?%not_elem_of_nil|]. intros [->|Hs]%elem_of_cons.
  - exists [], es. cbn [s_file s_off s_entry app]. change (zlen (log_bytes [])) with 0. split_and!; [done|done|lia].
  - destruct (IH _ Hs) as (a & c & -> & Hf & Ho). exists (e :: a), c. split_and!; [done|done|].
    rewrite Ho. unfold log_bytes. cbn [mbind list_bind]. rewrite zlen_app. lia.
Qed.

Definition slots (L : list segment) : list slot := L ≫= (fun p => places p.1 0 p.2).

Lemma slots_log_app L L' : slots (L ++ L') = slots L ++ slots L'.
Proof. apply bind_app. Qed.

Lemma slots_single id es : slots [(id, es)] = places id 0 es.
Proof. cbn. apply app_nil_r. Qed.

Lemma elem_of_slots L s : s ∈ slots L <-> exists id es, (id, es) ∈ L /\ s ∈ places id 0 es.
Proof.
  unfold slots. rewrite list_elem_of_bind. split.
  - intros ([id es] & Hs & Hin). by exists id, es.
  - intros (id & es & Hin & Hs). by exists (id, es).
Qed.

(** The files of a log. *)
Definition disk_of (L : list segment) : gmap Z bytes := list_to_map ((fun p : segment => (p.1, log_bytes p.2)) <$> L).

(** ** The index of a log *)

Definition put_slot (I : gmap bytes slot) (s : slot) : gmap bytes slot :=
  if e_live (s_entry s) then <[slot_key s := s]> I else delete (slot_key s) I.

Definition index (I : gmap bytes slot) (ss : list slot) : gmap bytes slot := foldl put_slot I ss.

Lemma index_app I ss ss' : index I (ss ++ ss') = index (index I ss) ss'.
Proof. apply foldl_app. Qed.

(** The last entry of a key. *)
Definition last_for (k : bytes) (ss : list slot) : option slot := last (filter (fun s => slot_key s = k) ss).

Lemma last_for_app k ss ss' : last_for k (ss ++ ss') = match last_for k ss' with Some s => Some s | None => last_for k ss end.
Proof. unfold last_for. rewrite filter_app. by rewrite last_app. Qed.

Lemma last_for_key k ss s : last_for k ss = Some s -> slot_key s = k /\ s ∈ ss.
Proof. unfold last_for. intros Hs%last_Some_elem_of. by apply list_elem_of_filter in Hs. Qed.

Lemma last_for_none k ss : last_for k ss = None <-> forall s, s ∈ ss -> slot_key s <> k.
Proof.
  unfold last_for. rewrite last_None. split.
  - intros E s Hs Hk. assert (Hin : s ∈ filter (fun s => slot_key s = k) ss) by (by apply list_elem_of_filter). rewrite E in Hin. by apply not_elem_of_nil in Hin.
  - intros H. destruct (filter _ ss) as [|s l] eqn:E; [done|]. assert (Hin : s ∈ filter (fun s => slot_key s = k) ss) by (rewrite E; by left).
    apply list_elem_of_filter in Hin as [Hk Hs]. by destruct (H s Hs).
Qed.

(** A key's state after a log is that of its last entry. *)
Lemma index_lookup I ss k :
  index I ss !! k = match last_for k ss with Some s => if e_live (s_entry s) then Some s else None | None => I !! k end.
Proof.
  induction ss as [|s ss IH] using rev_ind; [done|]. rewrite index_app, last_for_app. cbn [index foldl]. unfold last_for at 1.
  rewrite filter_cons. unfold put_slot. destruct (decide (slot_key s = k)) as [<-|Hne]; cbn [filter last list_filter].
  - destruct (e_live (s_entry s)); [by rewrite lookup_insert_eq|by rewrite lookup_delete_eq].
  - fold (index I ss). destruct (e_live (s_entry s)); [by rewrite lookup_insert_ne|by rewrite lookup_delete_ne].
Qed.

Lemma index_key ss k s : index ∅ ss !! k = Some s -> slot_key s = k /\ s ∈ ss /\ e_live (s_entry s) = true.
Proof.
  rewrite index_lookup. destruct (last_for k ss) as [s'|] eqn:E; [|done]. destruct (e_live (s_entry s')) eqn:El; [|done].
  intros [= ->]. by apply last_for_key in E as [? ?].
Qed.

(** ** Logs on disk *)

(** The entry of a slot can be read from the files. *)
Definition stored (segs : gmap Z bytes) (s : slot) : Prop :=
  exists f a c, segs !! s_file s = Some f /\ f = a ++ encode (s_entry s) ++ c /\ s_off s = zlen a + record_header_size /\ entry_ok (s_entry s) /\ zlen (payload (s_entry s)) < 2 ^ 63.

Lemma stored_read segs s :
  stored segs s ->
  read_rows_at crc32c segs (s_file s) (s_off s) = Ok (if e_live (s_entry s) then Some (plain (e_key (s_entry s)), e_rows (s_entry s)) else None).
Proof. intros (f & a & c & Hf & E & Ho & He & Hp). by eapply read_rows_at_entry. Qed.

(** Files that only grow keep what is stored in them. *)
Lemma stored_grow segs segs' s :
  (forall id f, segs !! id = Some f -> exists more, segs' !! id = Some (f ++ more)) -> stored segs s -> stored segs' s.
Proof.
  intros Hg (f & a & c & Hf & -> & Ho & He & Hp). destruct (Hg _ _ Hf) as [more Hf']. exists ((a ++ encode (s_entry s) ++ c) ++ more), a, (c ++ more).
  split_and!; try done. by rewrite <- !app_assoc.
Qed.

End log.
