(* ===== verification/BitcaskSpec.v ===== *)
(** * The index as a map

    [wf n b L]: the files of the index [b] are the log [L], and its hash index holds the
    references of the index of [L]. [view L] is the map the index stands for, from key bytes to the
    key and its rows. Every write is shown to change the view as a map update and to only add to the log; [n] bounds the
    numbers of entries, segments and rows, so that no machine integer wraps. *)

From S2P Require Import Prelude.
From S2P Require Import Bytes.
From S2P Require Import DiskHashTable.
From S2P Require Import DiskHashPage.
From S2P Require Import DiskHashChain.
From S2P Require Import DiskHashSpec.
From S2P Require Import HashStorage.
From S2P Require Import IndexCodec.
From S2P Require Import Bitcask.
From S2P Require Import BitcaskLog.
Import bitcask_index_disk.
#[local] Open Scope Z_scope.

(** A page the file system refuses, or a sidecar that cannot be replaced. *)
Definition io_fault (publishes : sidecar -> bool) (e : fault) : Prop := refused e \/ (e = Abort /\ exists c, publishes c = false).

Lemma returns_io {A} publishes (m : outcome A) Q : returns refused m Q -> returns (io_fault publishes) m Q.
Proof. destruct m; cbn; [done|]. by left. Qed.

Lemma not_published {A} (publishes : sidecar -> bool) c (Q : A -> Prop) : publishes c = false -> returns (io_fault publishes) (Fault Abort) Q.
Proof. intros E. right. split; [done|]. by exists c. Qed.

(** The number of changes a log is considered for. *)
Definition limit : Z := 2 ^ 24.

(** ** References *)

Definition mkref (k : bytes) (s : slot) : ref := Ref k (row_value (e_rows (s_entry s))) (s_file s) (s_off s).

Definition refs_of (I : gmap bytes slot) : list ref := (fun p => mkref p.1 p.2) <$> map_to_list I.

Lemma refs_of_empty : refs_of ∅ = [].
Proof. unfold refs_of. by rewrite map_to_list_empty. Qed.

Lemma refs_of_insert I k s : I !! k = None -> refs_of (<[k := s]> I) ≡ₚ mkref k s :: refs_of I.
Proof. intros H. unfold refs_of. by rewrite map_to_list_insert. Qed.

Lemma refs_of_delete I k s : I !! k = Some s -> refs_of I ≡ₚ mkref k s :: refs_of (delete k I).
Proof. intros H. rewrite <- refs_of_insert by apply lookup_delete_eq. by rewrite insert_delete_id. Qed.

Lemma elem_of_refs I r : r ∈ refs_of I <-> exists k s, I !! k = Some s /\ r = mkref k s.
Proof.
  unfold refs_of. rewrite list_elem_of_fmap. split.
  - intros ([k s] & -> & Hin%elem_of_map_to_list). by exists k, s.
  - intros (k & s & Hs & ->). exists (k, s). split; [done|by apply elem_of_map_to_list].
Qed.

Lemma zlen_refs I : zlen (refs_of I) = Z.of_nat (size I).
Proof. unfold refs_of. rewrite zlen_fmap. unfold zlen. by rewrite length_map_to_list. Qed.

(** ** What a log stands for *)

Definition view_of (I : gmap bytes slot) : gmap bytes (logical_value_t * list Z) :=
  (fun s => (plain (e_key (s_entry s)), e_rows (s_entry s))) <$> I.

Definition view (crc32c : bytes -> Z) (L : list segment) : gmap bytes (logical_value_t * list Z) := view_of (index ∅ (slots crc32c L)).

Definition rows_of (M : gmap bytes (logical_value_t * list Z)) (key : logical_value_t) : list Z :=
  match M !! key_of key with Some (_, rows) => rows | None => [] end.

Definition imm (F : Z) (L : list segment) : list segment := filter (fun p => p.1 < F) L.
Definition rest (F : Z) (L : list segment) : list segment := filter (fun p => ~ p.1 < F) L.

Definition entry_in (n : Z) (e : entry) : Prop := entry_ok e /\ zlen (e_rows e) <= n.

Definition segment_in (n : Z) (p : segment) : Prop := 0 <= p.1 /\ Forall (entry_in n) p.2 /\ zlen p.2 <= n.

Lemma segment_in_mono n m p : n <= m -> segment_in n p -> segment_in m p.
Proof.
  intros Hnm (H0 & He & Hl). split_and!; [done| |lia]. eapply Forall_impl; [exact He|]. intros e [? ?]. split; [done|lia].
Qed.

Section spec.
Context {T : Type} {HS : HashStorage T} {HSO : HashStorageOk T} (crc32c : bytes -> Z) (publishes : sidecar -> bool) (txn_log_opens : bool).
Context (flush_threshold_ segment_record_limit_ : Z).

#[local] Abbreviation io_fault := (io_fault publishes).
#[local] Abbreviation t := (t (T := T)).
#[local] Abbreviation slots := (slots crc32c).
#[local] Abbreviation stored := (stored crc32c).
#[local] Abbreviation view := (view crc32c).
#[local] Abbreviation ld := (load_hash_key_at_unlocked crc32c).

(** ** The hash index of an index of slots *)

(** Every slot of the index can be read from the files. *)
Definition readable (segs : gmap Z bytes) (I : gmap bytes slot) : Prop :=
  forall k s, I !! k = Some s -> slot_key s = k /\ stored segs s /\ e_live (s_entry s) = true.

Lemma readable_delete segs I k : readable segs I -> readable segs (delete k I).
Proof. intros Hr k' s [_ Hs]%lookup_delete_Some. by apply Hr. Qed.

Lemma readable_grow segs segs' I :
  (forall id f, segs !! id = Some f -> exists more, segs' !! id = Some (f ++ more)) -> readable segs I -> readable segs' I.
Proof. intros Hg Hr k s Hs. destruct (Hr k s Hs) as (? & ? & ?). split_and!; [done|by eapply stored_grow|done]. Qed.

Lemma stored_load segs s : stored segs s -> e_live (s_entry s) = true -> ld segs (s_file s) (s_off s) = Ok (Some (slot_key s)).
Proof.
  intros Hs Hl. unfold load_hash_key_at_unlocked. rewrite (stored_read _ _ _ Hs), Hl. cbn [mbind outcome_bind].
  destruct Hs as (_ & _ & _ & _ & _ & _ & [[Hk _] _ _ _] & _).
  rewrite key_bytes_plain, key_of_eq by done. done.
Qed.

Lemma readable_loads segs I : readable segs I -> Forall (loads (ld segs)) (refs_of I).
Proof.
  intros Hr. apply Forall_forall. intros r (k & s & Hs & ->)%elem_of_refs _. destruct (Hr k s Hs) as (<- & Hst & Hl).
  by apply stored_load.
Qed.

Lemma hash_get segs tb I k :
  hs_holds tb (refs_of I) -> readable segs I -> hs_get (ld segs) tb k = Ok ((fun s => vref (mkref k s)) <$> I !! k).
Proof.
  intros Hh Hr. destruct (hs_get_ok (ld segs) tb _ k Hh (readable_loads _ _ Hr)) as ([v|] & -> & Hv).
  - destruct Hv as (r & (k' & s & Hs & ->)%elem_of_refs & Hk & ->). cbn in Hk. subst k'. by rewrite Hs.
  - destruct (I !! k) as [s|] eqn:Hs; [|done]. exfalso. eapply (Hv (mkref k s)); [|done]. apply elem_of_refs. by exists k, s.
Qed.

Lemma hash_erase_all segs tb I k :
  hs_holds tb (refs_of I) -> readable segs I ->
  returns refused (erase_all_refs_for_key (ld segs) tb k) (fun tb' => hs_holds tb' (refs_of (delete k I))).
Proof.
  intros Hh Hr. unfold erase_all_refs_for_key. rewrite (hs_size_ok _ _ Hh). rewrite zlen_refs. rewrite Nat2Z.id. cbn [erase_all_loop].
  eapply returns_bind; [apply (hs_erase_ok _ _ _ k Hh), readable_loads, Hr|]. intros [[|] tb1]; cbn [fst snd].
  - intros (m' & r & Hh1 & Hk & Hp).
    assert (Hin : r ∈ refs_of I) by (rewrite Hp; by left). apply elem_of_refs in Hin as (k' & s & Hs & ->). cbn in Hk. subst k'.
    rewrite (refs_of_delete I k s Hs) in Hp. apply Permutation_cons_inv in Hp.
    assert (Hh2 : hs_holds tb1 (refs_of (delete k I))) by (by eapply hs_holds_perm).
    destruct (size I) as [|n] eqn:En; [by rewrite (map_size_empty_inv I En) in Hs|]. cbn [erase_all_loop].
    eapply returns_bind; [apply (hs_erase_ok _ _ _ k Hh2), readable_loads, readable_delete, Hr|]. intros [[|] tb2]; cbn [fst snd]; [|by intros [? _]].
    intros (m'' & r & _ & Hk & Hp2). exfalso.
    assert (Hin : r ∈ refs_of (delete k I)) by (rewrite Hp2; by left). apply elem_of_refs in Hin as (k' & s' & Hs' & ->). cbn in Hk. subst k'.
    by rewrite lookup_delete_eq in Hs'.
  - intros [Hh1 Hno]. rewrite delete_id; [done|]. destruct (I !! k) as [s|] eqn:Hs; [|done]. exfalso.
    eapply (Hno (mkref k s)); [|done]. apply elem_of_refs. by exists k, s.
Qed.

(** What makes a slot a reference the hash index takes. *)
Record slot_ok (s : slot) : Prop := {
  so_file : in_width 32 (s_file s);
  so_off : in_width 64 (s_off s);
  so_entry : entry_ok (s_entry s);
}.

Lemma row_value_signed rows : Forall (in_width 64) rows -> in_signed64 (row_value rows).
Proof.
  intros Hr. unfold row_value. destruct (last rows) as [r|] eqn:E; [|unfold in_signed64; lia].
  apply last_Some_elem_of in E. rewrite Forall_forall in Hr. specialize (Hr r E). unfold in_width, in_signed64, s64 in *. case_bool_decide; lia.
Qed.

Lemma slot_ref_ok s : slot_ok s -> ref_ok (mkref (slot_key s) s).
Proof. intros [Hf Ho [[_ Hk] _ Hr _]]. split; cbn; [done|by apply row_value_signed|done|done]. Qed.

Lemma hash_put tb I s :
  hs_holds tb (refs_of (delete (slot_key s) I)) -> slot_ok s -> Z.of_nat (size I) + 1 < 2 ^ 64 ->
  returns refused (hs_put tb (slot_key s) (row_value (e_rows (s_entry s))) (s_file s) (s_off s))
    (fun p => hs_holds p.2 (refs_of (<[slot_key s := s]> I))).
Proof.
  intros Hh Hs Hn. eapply returns_mono; [apply (hs_put_ok tb _ (mkref (slot_key s) s) Hh (slot_ref_ok s Hs))|].
  - rewrite zlen_refs. assert (size (delete (slot_key s) I) <= size I)%nat; [|lia].
    rewrite map_size_delete. destruct (I !! slot_key s); cbn; lia.
  - intros p Hp. eapply hs_holds_perm; [|exact Hp]. rewrite <- insert_delete_eq. symmetry. apply refs_of_insert, lookup_delete_eq.
Qed.

Lemma size_put_slot I s : (size (put_slot I s) <= S (size I))%nat.
Proof. unfold put_slot. destruct (e_live (s_entry s)); [rewrite map_size_insert|rewrite map_size_delete]; destruct (I !! slot_key s); cbn; lia. Qed.

(** ** Files of a log *)

Lemma disk_of_lookup L id es : NoDup L.*1 -> (id, es) ∈ L -> disk_of crc32c L !! id = Some (log_bytes crc32c es).
Proof.
  intros Hnd Hin. unfold disk_of. apply elem_of_list_to_map_1.
  - rewrite <- list_fmap_compose. exact Hnd.
  - apply list_elem_of_fmap. by exists (id, es).
Qed.

Lemma disk_of_app L L' : disk_of crc32c (L ++ L') = disk_of crc32c L ∪ disk_of crc32c L'.
Proof. unfold disk_of. rewrite fmap_app. apply list_to_map_app. Qed.

Lemma disk_of_none L id : id ∉ L.*1 -> disk_of crc32c L !! id = None.
Proof. intros H1. unfold disk_of. apply not_elem_of_list_to_map_1. by rewrite <- list_fmap_compose. Qed.

Lemma sorted_nodup (l : list Z) : StronglySorted Z.lt l -> NoDup l.
Proof. induction 1 as [|x l _ IH Hx]; constructor; [|done]. intros Hin. rewrite Forall_forall in Hx. specialize (Hx x Hin). lia. Qed.

Lemma log_bytes_len n es : Forall (entry_in n) es -> zlen es <= n -> 0 <= n <= limit -> zlen (log_bytes crc32c es) <= zlen es * 2 ^ 34.
Proof.
  intros He _ Hn. unfold log_bytes. induction He as [|e es [He Hr] _ IH]; [done|]. cbn [mbind list_bind]. rewrite zlen_app, zlen_cons.
  fold (log_bytes crc32c es) in *. unfold encode. rewrite zlen_write_record. pose proof (payload_len e He) as Hp. unfold limit in Hn. lia.
Qed.

Lemma slots_stored n L :
  StronglySorted Z.lt L.*1 -> Forall (segment_in n) L -> Forall (fun id => id < 2 ^ 32) L.*1 -> 0 <= n <= limit ->
  forall s, s ∈ slots L -> stored (disk_of crc32c L) s /\ slot_ok s.
Proof.
  intros Hsort Hseg Hid Hn s (id & es & Hin & Hs)%elem_of_slots. apply places_split in Hs as (a & c & -> & Hf & Ho).
  rewrite Forall_forall in Hseg. destruct (Hseg _ Hin) as (H0 & He & Hl). cbn [fst snd] in *.
  pose proof (log_bytes_len n _ He Hl Hn) as Hlen. rewrite log_bytes_app, zlen_app in Hlen.
  apply Forall_app in He as [_ He]. apply Forall_cons in He as [[He Hr] _]. pose proof (payload_len _ He) as Hp.
  assert (Hid' : id < 2 ^ 32). { rewrite Forall_forall in Hid. apply Hid. apply list_elem_of_fmap. by exists (id, a ++ s_entry s :: c). }
  pose proof (zlen_nonneg (log_bytes crc32c a)). pose proof (zlen_nonneg (log_bytes crc32c (s_entry s :: c))). unfold limit in *. split.
  - exists (log_bytes crc32c (a ++ s_entry s :: c)), (log_bytes crc32c a), (log_bytes crc32c c). split_and!; [| |done|done|lia].
    + rewrite Hf. apply disk_of_lookup; [by apply sorted_nodup|done].
    + by rewrite log_bytes_app.
  - split; [split; lia| |done]. rewrite Ho. unfold record_header_size. split; lia.
Qed.

(** ** Well-formed indexes *)

Record wf (n : Z) (b : t) (L : list segment) : Prop := {
  wf_data : segments b = disk_of crc32c L;
  wf_sorted : StronglySorted Z.lt L.*1;
  wf_last : exists old es, L = old ++ [(active b, es)];
  wf_bound : active b <= n + 2;
  wf_segs : Forall (segment_in n) L;
  wf_next : next_segment_id_ (counters_ b) = active b + 1;
  wf_current : CURRENT (files_ b) = Some (active b);
  wf_hash : hs_holds (hash_index_ b) (refs_of (index ∅ (slots L)));
  wf_size : Z.of_nat (size (index ∅ (slots L))) <= n;
}.

Lemma wf_nonneg n b L : wf n b L -> 0 <= n.
Proof. intros W. pose proof (wf_size _ _ _ W). lia. Qed.

Lemma wf_mono n m b L : n <= m -> wf n b L -> wf m b L.
Proof.
  intros Hnm [W1 W2 W3 W4 W5 W6 W7 W8 W9]. split; try done; [lia| |lia].
  eapply Forall_impl; [exact W5|]. intros p. by apply segment_in_mono.
Qed.

Lemma sorted_last_max old (id : Z) (es : list entry) :
  StronglySorted Z.lt (old ++ [(id, es)]).*1 -> Forall (fun j => j < id) old.*1.
Proof.
  rewrite fmap_app. intros Hs. apply Forall_forall. intros j Hj.
  eapply (StronglySorted_app_1_elem_of Z.lt _ _ j id Hs Hj). cbn. by left.
Qed.

Lemma wf_ids n b L : wf n b L -> Forall (fun id => 0 <= id <= active b) L.*1.
Proof.
  intros W. destruct (wf_last _ _ _ W) as (old & es & ->). pose proof (sorted_last_max _ _ _ (wf_sorted _ _ _ W)) as Hm.
  pose proof (wf_segs _ _ _ W) as Hs. apply Forall_forall. intros id Hid. rewrite Forall_forall in Hm. rewrite Forall_forall in Hs.
  apply list_elem_of_fmap in Hid as (p & -> & Hp). destruct (Hs p Hp) as (H0 & _ & _). split; [done|].
  apply elem_of_app in Hp as [Hp|Hp%list_elem_of_singleton]; [|by subst p]. specialize (Hm p.1 ltac:(apply list_elem_of_fmap; by exists p)). lia.
Qed.

Lemma wf_slots n b L s : wf n b L -> n <= limit -> s ∈ slots L -> stored (segments b) s /\ slot_ok s.
Proof.
  intros W Hn Hs. pose proof (wf_nonneg _ _ _ W) as H0. rewrite (wf_data _ _ _ W).
  apply (slots_stored n); [apply W|apply W| |done|done]. eapply Forall_impl; [apply (wf_ids _ _ _ W)|].
  intros id Hid. cbn in Hid. pose proof (wf_bound _ _ _ W). unfold limit in *. lia.
Qed.

Lemma wf_readable n b L : wf n b L -> n <= limit -> readable (segments b) (index ∅ (slots L)).
Proof. intros W Hn k s Hs. apply index_key in Hs as (Hk & Hin & Hl). split_and!; [done| |done]. by eapply wf_slots. Qed.

(** What the other fields hold does not matter. *)
Lemma wf_same n b b' L :
  segments b' = segments b -> hash_index_ b' = hash_index_ b -> active b' = active b ->
  next_segment_id_ (counters_ b') = next_segment_id_ (counters_ b) -> CURRENT (files_ b') = CURRENT (files_ b) -> wf n b L -> wf n b' L.
Proof. intros E1 E2 E3 E4 E5 [W1 W2 W3 W4 W5 W6 W7 W8 W9]. split; rewrite ?E1, ?E2, ?E3, ?E4, ?E5; try done. Qed.

(** ** Reading *)

Lemma view_lookup L k : view L !! k = (fun s => (plain (e_key (s_entry s)), e_rows (s_entry s))) <$> index ∅ (slots L) !! k.
Proof. apply lookup_fmap. Qed.

Lemma get_rows n b L key :
  wf n b L -> n <= limit ->
  (ref ← hs_get (key_loader crc32c b) (hash_index_ b) (key_of key);
   match ref with
   | None => mret []
   | Some v =>
       r ← read_rows_at crc32c (segments b) (disk_hash_table.log_file_id v) (disk_hash_table.log_offset v);
       mret (match r with Some (_, rows) => rows | None => [] end)
   end) = Ok (rows_of (view L) key).
Proof.
  intros W Hn. unfold key_loader. rewrite (hash_get _ _ _ _ (wf_hash _ _ _ W) (wf_readable _ _ _ W Hn)). cbn [mbind outcome_bind].
  unfold rows_of. rewrite view_lookup. destruct (index ∅ (slots L) !! key_of key) as [s|] eqn:Hs; [|done].
  destruct (wf_readable _ _ _ W Hn _ _ Hs) as (_ & Hst & Hl). cbn [fmap option_fmap option_map vref mkref r_file r_off disk_hash_table.log_file_id disk_hash_table.log_offset].
  rewrite (stored_read _ _ _ Hst), Hl. done.
Qed.

Lemma current_rows_view n b L key : wf n b L -> n <= limit -> value_ok key -> current_rows crc32c b key = Ok (rows_of (view L) key).
Proof. intros W Hn Hk. unfold current_rows. rewrite key_of_eq by done. cbn [mbind outcome_bind]. by eapply get_rows. Qed.

Lemma find_view n b L key : wf n b L -> n <= limit -> value_ok key -> find crc32c b key = Ok (rows_of (view L) key).
Proof. intros W Hn Hk. unfold find. rewrite key_of_eq by done. cbn [mbind outcome_bind]. by eapply get_rows. Qed.

(** Every key and row of the view. *)
Definition entries (M : gmap bytes (logical_value_t * list Z)) : list (logical_value_t * Z) :=
  map_to_list M ≫= (fun p => (fun row => (p.2.1, row)) <$> p.2.2).

Lemma load_entries_view n b L : wf n b L -> n <= limit -> exists es, load_entries crc32c b = Ok es /\ es ≡ₚ entries (view L).
Proof.
  intros W Hn. destruct (hs_for_each_ok _ _ (wf_hash _ _ _ W)) as (vs & E & Hp). unfold load_entries. rewrite E. cbn [mbind outcome_bind].
  set (I := index ∅ (slots L)) in *. pose proof (wf_readable _ _ _ W Hn) as Hr. fold I in Hr.
  unfold refs_of in Hp. rewrite <- list_fmap_compose in Hp. apply Permutation_map_inv in Hp as (ps & Hvs & Hps).
  set (g := fun p : bytes * slot => (fun row => (plain (e_key (s_entry p.2)), row)) <$> e_rows (s_entry p.2)).
  assert (Hm : mapM (entries_at crc32c (segments b)) vs = Ok (g <$> ps)).
  { subst vs. apply mapM_ok. apply Forall2_fmap_l, Forall2_fmap_r, Forall_Forall2_diag, Forall_forall. intros [k s] Hin.
    rewrite <- Hps in Hin. apply elem_of_map_to_list in Hin. destruct (Hr _ _ Hin) as (_ & Hst & Hl).
    unfold entries_at. cbn. rewrite (stored_read _ _ _ Hst), Hl. done. }
  rewrite Hm. eexists. split; [done|]. unfold entries, BitcaskSpec.view, view_of. fold I.
  rewrite map_to_list_fmap, Hps. apply reflexive_eq. clear. induction ps as [|p ps IH]; [done|]. cbn in *. by rewrite IH.
Qed.

(** ** Writing *)

(** What a write keeps: the other files, and the log before any segment up to the active one; from
    there on entries are only added. *)
Record evolves (b : t) (L : list segment) (b' : t) (L' : list segment) : Prop := {
  ev_manifest : merge_manifest (files_ b') = merge_manifest (files_ b);
  ev_txn_log : txn_log (files_ b') = txn_log (files_ b);
  ev_applied : txn_applied (files_ b') = txn_applied (files_ b);
  ev_committed : committed_txn_ids_ b' = committed_txn_ids_ b;
  ev_active : active b <= active b';
  ev_imm F : F <= active b -> imm F L' = imm F L;
  ev_rest F : F <= active b -> exists more, slots (rest F L') = slots (rest F L) ++ more;
}.

Lemma evolves_trans b1 L1 b2 L2 b3 L3 : evolves b1 L1 b2 L2 -> evolves b2 L2 b3 L3 -> evolves b1 L1 b3 L3.
Proof.
  intros [A1 A2 A3 A4 A5 A6 A7] [B1 B2 B3 B4 B5 B6 B7]. split; try congruence; [lia| |].
  - intros F HF. rewrite B6 by lia. by apply A6.
  - intros F HF. destruct (B7 F ltac:(lia)) as [m2 ->], (A7 F HF) as [m1 ->]. exists (m1 ++ m2). by rewrite <- app_assoc.
Qed.

Lemma evolves_same b b' L :
  merge_manifest (files_ b') = merge_manifest (files_ b) -> txn_log (files_ b') = txn_log (files_ b) ->
  txn_applied (files_ b') = txn_applied (files_ b) -> committed_txn_ids_ b' = committed_txn_ids_ b -> active b' = active b -> evolves b L b' L.
Proof. intros. split; try done; [lia|]. intros F _. exists []. by rewrite app_nil_r. Qed.

Lemma disk_of_snoc L id es : id ∉ L.*1 -> disk_of crc32c (L ++ [(id, es)]) = <[id := log_bytes crc32c es]> (disk_of crc32c L).
Proof. intros Hid. unfold disk_of. rewrite fmap_app. apply list_to_map_snoc. by rewrite <- list_fmap_compose. Qed.

Lemma wf_last_fresh n b L old es : wf n b L -> L = old ++ [(active b, es)] -> active b ∉ old.*1.
Proof.
  intros W ->. pose proof (sorted_last_max _ _ _ (wf_sorted _ _ _ W)) as Hm. rewrite Forall_forall in Hm. intros Hin. specialize (Hm _ Hin). lia.
Qed.

Lemma imm_last F old a es : F <= a -> imm F (old ++ [(a, es)]) = imm F old.
Proof. intros HF. unfold imm. rewrite filter_app, filter_cons, decide_False by (cbn; lia). cbn. apply app_nil_r. Qed.

Lemma rest_last F old a es : F <= a -> rest F (old ++ [(a, es)]) = rest F old ++ [(a, es)].
Proof. intros HF. unfold rest. by rewrite filter_app, filter_cons, decide_True by (cbn; lia). Qed.

(** A new active segment. *)
Lemma rotate_wf n b L :
  wf n b L -> n + 1 <= limit ->
  returns io_fault (rotate_active_segment publishes b) (fun b' => exists L', wf (n + 1) b' L' /\ slots L' = slots L /\ evolves b L b' L').
Proof.
  intros W Hn. pose proof (wf_nonneg _ _ _ W) as H0. pose proof (wf_bound _ _ _ W) as Hb. pose proof (wf_ids _ _ _ W) as Hids. unfold limit in Hn.
  assert (Hact : 0 <= active b). { destruct (wf_last _ _ _ W) as (old & es & ->). pose proof (wf_segs _ _ _ W) as Hs. apply Forall_app in Hs as [_ Hs]. apply Forall_cons in Hs as [(? & _) _]. done. }
  assert (Hfresh : active b + 1 ∉ L.*1). { rewrite Forall_forall in Hids. intros Hin. specialize (Hids _ Hin). cbn in Hids. lia. }
  unfold rotate_active_segment. set (b0 := force_flush_unlocked b).
  assert (Hb0 : files_ b0 = files_ b /\ hash_index_ b0 = hash_index_ b /\ counters_ b0 = counters_ b /\ committed_txn_ids_ b0 = committed_txn_ids_ b).
  { unfold b0, force_flush_unlocked. by destruct (dirty_ (flush_ b)). }
  destruct Hb0 as (Hf & Hh & Hc & Hcm). unfold open_active_segment, segments, active. cbn [files_ with_counters counters_ active_segment_id_].
  rewrite Hf, Hc, (wf_next _ _ _ W). change (data (files_ b)) with (segments b). rewrite (wf_data _ _ _ W), disk_of_none by done.
  unfold write_current_segment_id. destruct (publishes _) eqn:Epub; [|by eapply not_published]. cbn [mbind outcome_bind mret outcome_ret returns].
  exists (L ++ [(active b + 1, [])]). split_and!.
  - split; cbn [segments files_ with_tasks with_files set_segment with_counters with_data with_current data CURRENT hash_index_ counters_ next_segment_id_ active active_segment_id_].
    + unfold segments. cbn. rewrite Hf. change (data (files_ b)) with (segments b). rewrite (wf_data _ _ _ W). by rewrite disk_of_snoc.
    + rewrite fmap_app. apply StronglySorted_app_2; [|apply W|by repeat constructor]. intros x y Hx ->%list_elem_of_singleton.
      rewrite Forall_forall in Hids. specialize (Hids x Hx). cbn in *. lia.
    + by exists L, [].
    + lia.
    + apply Forall_app. split; [eapply Forall_impl; [apply W|]; intros p; apply segment_in_mono; lia|]. repeat constructor; cbn; [lia|]. rewrite zlen_nil. lia.
    + rewrite wrap_small by (split; lia). lia.
    + done.
    + rewrite Hh, slots_log_app. cbn. rewrite app_nil_r. apply W.
    + rewrite slots_log_app. cbn. rewrite app_nil_r. pose proof (wf_size _ _ _ W). lia.
  - rewrite slots_log_app. cbn. apply app_nil_r.
  - split; cbn; rewrite ?Hf; try done; [unfold active in *; cbn; lia| |].
    + intros F HF. apply imm_last. lia.
    + intros F HF. exists []. rewrite rest_last by lia. by rewrite slots_log_app.
Qed.

Lemma rotate_if_needed_wf n b L :
  wf n b L -> n + 1 <= limit ->
  returns io_fault (rotate_active_segment_if_needed publishes segment_record_limit_ b) (fun b' =>
    exists L', wf (n + 1) b' L' /\ slots L' = slots L /\ evolves b L b' L').
Proof.
  intros W Hn. unfold rotate_active_segment_if_needed.
  assert (Hsame : exists L', wf (n + 1) b L' /\ slots L' = slots L /\ evolves b L b L').
  { exists L. split_and!; [eapply wf_mono; [|done]; lia|done|by apply evolves_same]. }
  destruct (bulk_mode_ (bulk_ b)); [done|]. case_bool_decide; [by apply rotate_wf|done].
Qed.

(** A record at the end of the active segment, before the hash index knows it. *)
Record appended (n : Z) (b : t) (L : list segment) (e : entry) (off : Z) (b1 : t) (L1 : list segment) : Prop := {
  ap_slots : slots L1 = slots L ++ [Slot (active b) (off + record_header_size) e];
  ap_active : active b1 = active b;
  ap_hash : hash_index_ b1 = hash_index_ b;
  ap_readable : readable (segments b1) (index ∅ (slots L));
  ap_slot : slot_ok (Slot (active b) (off + record_header_size) e);
  ap_wf tb : hs_holds tb (refs_of (index ∅ (slots L1))) -> wf (n + 1) (count_record (with_hash b1 tb)) L1;
  ap_evolves tb : evolves b L (count_record (with_hash b1 tb)) L1;
}.

Lemma append_record_wf n b L e :
  wf n b L -> entry_in (n + 1) e -> e_ts e = u64 (next_timestamp_ (counters_ b) + 1) -> n + 1 <= limit ->
  exists off b1 L1, append_record crc32c b (kind_of e) (payload e) = Ok (off, b1) /\ appended n b L e off b1 L1.
Proof.
  intros W He Hts Hn. pose proof (wf_nonneg _ _ _ W) as H0. pose proof (wf_last _ _ _ W) as (old & es & EL).
  pose proof (wf_last_fresh _ _ _ _ _ W EL) as Hfresh. pose proof (wf_sorted _ _ _ W) as Hsort.
  assert (Hsegs : segments b = <[active b := log_bytes crc32c es]> (disk_of crc32c old)) by (rewrite (wf_data _ _ _ W), EL; by apply disk_of_snoc).
  set (L1 := old ++ [(active b, es ++ [e])]).
  assert (Hd1 : disk_of crc32c L1 = <[active b := log_bytes crc32c es ++ encode crc32c e]> (segments b)).
  { unfold L1. rewrite disk_of_snoc by done. rewrite Hsegs, insert_insert_eq, log_bytes_app, log_bytes_single. done. }
  set (off := zlen (log_bytes crc32c es)).
  assert (Hsl : slots L1 = slots L ++ [Slot (active b) (off + record_header_size) e]).
  { unfold L1. rewrite EL, !slots_log_app, !slots_single, places_app, <- app_assoc. done. }
  assert (Hseg1 : Forall (segment_in (n + 1)) L1).
  { pose proof (wf_segs _ _ _ W) as Hs. rewrite EL in Hs. apply Forall_app in Hs as [Ho Hl]. apply Forall_cons in Hl as [(Hl0 & Hl1 & Hl2) _]. cbn [fst snd] in *.
    apply Forall_app. split; [eapply Forall_impl; [exact Ho|]; intros p; apply segment_in_mono; lia|]. constructor; [|done]. split_and!; [done| |cbn [snd]; rewrite zlen_app, zlen_cons, zlen_nil; lia].
    apply Forall_app. split; [|by constructor]. eapply Forall_impl; [exact Hl1|]. intros x [? ?]. split; [done|lia]. }
  assert (Hsort1 : StronglySorted Z.lt L1.*1). { rewrite EL in Hsort. unfold L1. by rewrite fmap_app in *. }
  assert (Hst : forall s, s ∈ slots L1 -> stored (disk_of crc32c L1) s /\ slot_ok s).
  { apply (slots_stored (n + 1)); [done|done| |lia]. pose proof (wf_ids _ _ _ W) as Hids. rewrite EL in Hids. unfold L1. rewrite fmap_app in *.
    eapply Forall_impl; [exact Hids|]. intros id Hid. cbn in Hid. pose proof (wf_bound _ _ _ W). unfold limit in *. lia. }
  exists off, (with_timestamp (set_segment b (active b) (log_bytes crc32c es ++ encode crc32c e)) (e_ts e)), L1. split.
  { unfold append_record. rewrite Hsegs, lookup_insert_eq. cbn [of_option mbind outcome_bind]. unfold encode. by rewrite Hts. }
  split; try done.
  - intros k s Hs. destruct (wf_readable _ _ _ W ltac:(lia) k s Hs) as (Hk & _ & Hl). split_and!; [done| |done].
    apply index_key in Hs as (_ & Hin & _). cbn. change (<[active b := _]> _) with (<[active b := log_bytes crc32c es ++ encode crc32c e]> (segments b)).
    rewrite <- Hd1. apply Hst. rewrite Hsl. apply elem_of_app. by left.
  - apply Hst. rewrite Hsl. apply elem_of_app. right. by left.
  - intros tb Htb. split; cbn; try done; try apply W.
    + by exists old, (es ++ [e]).
    + pose proof (wf_bound _ _ _ W). unfold active in *. cbn. lia.
    + rewrite Hsl, index_app. cbn. pose proof (size_put_slot (index ∅ (slots L)) (Slot (active b) (off + record_header_size) e)).
      pose proof (wf_size _ _ _ W). lia.
  - intros tb. split; cbn; try done.
    + intros F HF. rewrite EL. unfold L1. by rewrite !imm_last.
    + intros F HF. rewrite EL. unfold L1. rewrite !rest_last by done. rewrite !slots_log_app, !slots_single, places_app. eexists. by rewrite <- app_assoc.
Qed.

Lemma view_put L L1 s :
  slots L1 = slots L ++ [s] ->
  view L1 = if e_live (s_entry s) then <[slot_key s := (plain (e_key (s_entry s)), e_rows (s_entry s))]> (view L) else delete (slot_key s) (view L).
Proof.
  intros E. unfold BitcaskSpec.view, view_of. rewrite E, index_app. cbn. unfold put_slot.
  destruct (e_live (s_entry s)); [by rewrite fmap_insert|by rewrite fmap_delete].
Qed.

(** The entry the next append of [key] and [rows] writes. *)
Lemma next_entry_in (live : bool) n ts key rows :
  key_ok key -> Forall (in_width 64) rows -> zlen rows <= n -> n <= limit -> entry_in n (Entry live (u64 ts) key rows).
Proof. intros Hk Hr Hl Hn. unfold limit in Hn. split; [split; cbn; try done; [apply wrap_width; lia|lia]|done]. Qed.

Lemma append_snapshot_wf n b L key rows :
  wf n b L -> key_ok key -> Forall (in_width 64) rows -> zlen rows <= n + 2 -> n + 2 <= limit ->
  returns io_fault (append_snapshot crc32c publishes segment_record_limit_ b key rows) (fun b' =>
    exists L', wf (n + 2) b' L' /\ view L' = <[key_of key := (plain key, rows)]> (view L) /\ evolves b L b' L').
Proof.
  intros W Hk Hr Hl Hn. unfold append_snapshot. eapply returns_bind; [apply (rotate_if_needed_wf n b L W); lia|].
  intros b1 (L1 & W1 & Hs1 & E1). set (e := Entry true (u64 (next_timestamp_ (counters_ b1) + 1)) key rows).
  assert (He : entry_in (n + 1 + 1) e) by (apply next_entry_in; try done; lia).
  change (serialize_payload key rows) with (serialize_payload (e_key e) (e_rows e)). rewrite (serialize_entry e (proj1 He)). cbn [mbind outcome_bind].
  destruct (append_record_wf (n + 1) b1 L1 e W1 He eq_refl ltac:(lia)) as (off & b2 & L2 & Ha & A).
  change kind_value with (kind_of e) at 1. rewrite Ha. cbn [mbind outcome_bind].
  rewrite key_of_eq by apply Hk. cbn [mbind outcome_bind]. rewrite (ap_hash _ _ _ _ _ _ _ A).
  eapply returns_bind; [apply returns_io, (hash_erase_all _ _ (index ∅ (slots L1)) (key_of key)); [apply W1|apply A]|]. intros tb Htb.
  set (s := Slot (active b1) (off + record_header_size) e).
  assert (Hw : u32 (active b2) = s_file s) by (rewrite (ap_active _ _ _ _ _ _ _ A); apply wrap_small, (so_file _ (ap_slot _ _ _ _ _ _ _ A))).
  rewrite Hw. change rows with (e_rows (s_entry s)) at 1. change (key_of key) with (slot_key s) in *. change (off + record_header_size) with (s_off s).
  eapply returns_bind; [apply returns_io, (hash_put tb (index ∅ (slots L1)) s); [done|apply A|]|].
  { pose proof (wf_size _ _ _ W1). unfold limit in *. lia. }
  intros [u tb'] Htb'. cbn [fst snd] in Htb'. cbn [returns mret outcome_ret]. exists L2. split_and!.
  - replace (n + 2) with (n + 1 + 1) by lia. apply A. rewrite (ap_slots _ _ _ _ _ _ _ A), index_app. done.
  - rewrite (view_put L1 L2 s) by apply A. cbn [s s_entry e_live e]. unfold BitcaskSpec.view. by rewrite Hs1.
  - eapply evolves_trans; [exact E1|apply A].
Qed.

Lemma append_tombstone_wf n b L key :
  wf n b L -> key_ok key -> n + 2 <= limit ->
  returns io_fault (append_tombstone crc32c publishes segment_record_limit_ b key) (fun b' =>
    exists L', wf (n + 2) b' L' /\ view L' = delete (key_of key) (view L) /\ evolves b L b' L').
Proof.
  intros W Hk Hn. pose proof (wf_nonneg _ _ _ W). unfold append_tombstone. eapply returns_bind; [apply (rotate_if_needed_wf n b L W); lia|].
  intros b1 (L1 & W1 & Hs1 & E1). set (e := Entry false (u64 (next_timestamp_ (counters_ b1) + 1)) key []).
  assert (He : entry_in (n + 1 + 1) e) by (apply next_entry_in; try done; [rewrite zlen_nil; lia|lia]).
  change (serialize_payload key []) with (serialize_payload (e_key e) (e_rows e)). rewrite (serialize_entry e (proj1 He)). cbn [mbind outcome_bind].
  destruct (append_record_wf (n + 1) b1 L1 e W1 He eq_refl ltac:(lia)) as (off & b2 & L2 & Ha & A).
  change kind_tombstone with (kind_of e) at 1. rewrite Ha. cbn [mbind outcome_bind].
  rewrite key_of_eq by apply Hk. cbn [mbind outcome_bind]. rewrite (ap_hash _ _ _ _ _ _ _ A).
  eapply returns_bind; [apply returns_io, (hash_erase_all _ _ (index ∅ (slots L1)) (key_of key)); [apply W1|apply A]|]. intros tb Htb.
  cbn [returns mret outcome_ret]. exists L2. split_and!.
  - replace (n + 2) with (n + 1 + 1) by lia. apply A. rewrite (ap_slots _ _ _ _ _ _ _ A), index_app. done.
  - rewrite (view_put L1 L2 (Slot (active b1) (off + record_header_size) e)) by apply A. cbn [s_entry e_live e]. unfold BitcaskSpec.view. by rewrite Hs1.
  - eapply evolves_trans; [exact E1|apply A].
Qed.

End spec.
