(* ===== verification/BitcaskOps.v ===== *)
(** * The operations on the index, as updates of a map

    Insertions and removals of rows, bulk mode and the transaction log. A transaction is a frame
    of the log applied entry by entry; [logged b pending] says which frames of the log
    a restart will look at. *)

From S2P Require Import Prelude.
From S2P Require Import Bytes.
From S2P Require Import WalBinary.
From S2P Require Import DiskHashTable.
From S2P Require Import DiskHashPage.
From S2P Require Import DiskHashChain.
From S2P Require Import DiskHashSpec.
From S2P Require Import HashStorage.
From S2P Require Import IndexCodec.
From S2P Require Import Bitcask.
From S2P Require Import BitcaskLog.
From S2P Require Import BitcaskSpec.
Import bitcask_index_disk.
#[local] Open Scope Z_scope.

(** ** The map *)

Abbreviation index_map := (gmap bytes (logical_value_t * list Z)).

Definition m_add (M : index_map) (key : logical_value_t) (value : Z) : index_map :=
  if bool_decide (value ∈ rows_of M key) then M else <[key_of key := (plain key, rows_of M key ++ [value])]> M.

Definition m_drop (M : index_map) (key : logical_value_t) (row : Z) : index_map :=
  let left := filter (fun r => r <> row) (rows_of M key) in
  if bool_decide (row ∈ rows_of M key) then
    if bool_decide (left = []) then delete (key_of key) M else <[key_of key := (plain key, left)]> M
  else M.

Definition m_set (M : index_map) (key : logical_value_t) (value : Z) : index_map := <[key_of key := (plain key, [value])]> M.

Definition m_remove (M : index_map) (key : logical_value_t) : index_map := delete (key_of key) M.

(** What a transaction writes: a list of keys and rows added or removed. *)
Record frame := Frame { f_txn : Z; f_insert : bool; f_values : list (logical_value_t * Z) }.

Definition m_value (is_insert : bool) (M : index_map) (v : logical_value_t * Z) : index_map :=
  if is_insert then m_add M v.1 v.2 else m_drop M v.1 v.2.

Definition m_frame (M : index_map) (f : frame) : index_map := foldl (m_value (f_insert f)) M (f_values f).

Lemma rows_of_plain M key : value_ok key -> rows_of M (plain key) = rows_of M key.
Proof. intros Hk. unfold rows_of. by rewrite key_of_plain. Qed.

Lemma m_value_plain i M v : value_ok v.1 -> m_value i M (plain v.1, v.2) = m_value i M v.
Proof.
  intros Hk. unfold m_value, m_add, m_drop. cbn [fst snd]. by rewrite rows_of_plain, key_of_plain, plain_idem.
Qed.

Lemma filter_length_ne (row : Z) rows : length (filter (fun r => r <> row) rows) = length rows <-> row ∉ rows.
Proof.
  induction rows as [|r rows IH]; [split; [by intros _ ?%not_elem_of_nil|done]|]. rewrite filter_cons, not_elem_of_cons.
  pose proof (length_filter (fun r => r <> row) rows). case_decide as E; cbn [length].
  - rewrite <- IH. split; [intros [= ?]; by split|intros [? ?]; by f_equal].
  - split; [lia|]. intros [Hne _]. by destruct E.
Qed.

Section ops.
Context {T : Type} {HS : HashStorage T} {HSO : HashStorageOk T} (crc32c : bytes -> Z) (publishes : sidecar -> bool) (txn_log_opens : bool).
Context (flush_threshold_ segment_record_limit_ : Z).

#[local] Abbreviation io_fault := (io_fault publishes).
#[local] Abbreviation t := (t (T := T)).
#[local] Abbreviation slots := (slots crc32c).
#[local] Abbreviation view := (view crc32c).
#[local] Abbreviation wf := (wf crc32c).
#[local] Abbreviation evolves := (evolves crc32c).

(** An operation that takes the view [M] to [M'] and writes at most [w] times the unit. *)
Definition updates (n w : Z) (b : t) (L : list segment) (M' : index_map) (b' : t) : Prop :=
  exists L', wf (n + w) b' L' /\ view L' = M' /\ evolves b L b' L'.

Lemma updates_same n w b L b' :
  wf n b L -> 0 <= w -> files_ b' = files_ b -> hash_index_ b' = hash_index_ b -> counters_ b' = counters_ b ->
  committed_txn_ids_ b' = committed_txn_ids_ b -> updates n w b L (view L) b'.
Proof.
  intros W Hw Ef Eh Ec Ecm. exists L. split_and!; [|done|apply evolves_same; unfold active; by rewrite ?Ef, ?Ec].
  eapply wf_mono; [|eapply wf_same; [..|exact W]]; [lia|..]; unfold segments, active; by rewrite ?Ef, ?Ec, ?Eh.
Qed.

Lemma updates_refl n w b L : wf n b L -> 0 <= w -> updates n w b L (view L) b.
Proof. intros. by apply updates_same. Qed.

(** Fields outside the files, the counters and the hash index may change afterwards. *)
Lemma updates_after n w b L M b' b'' :
  updates n w b L M b' -> files_ b'' = files_ b' -> hash_index_ b'' = hash_index_ b' -> counters_ b'' = counters_ b' ->
  committed_txn_ids_ b'' = committed_txn_ids_ b' -> updates n w b L M b''.
Proof.
  intros (L' & W & Hv & E) Ef Eh Ec Ecm. destruct (updates_same (n + w) 0 b' L' b'' W ltac:(lia) Ef Eh Ec Ecm) as (L2 & W2 & Hv2 & E2).
  exists L2. split_and!; [by rewrite Z.add_0_r in W2|by rewrite Hv2|by eapply evolves_trans].
Qed.

Lemma updates_mono n w w' b L M b' : w <= w' -> updates n w b L M b' -> updates n w' b L M b'.
Proof. intros Hw (L' & W & Hv & E). exists L'. split_and!; [|done|done]. eapply wf_mono; [|done]. lia. Qed.

Lemma flush_if_needed_same (b : t) :
  files_ (flush_if_needed flush_threshold_ b) = files_ b /\ hash_index_ (flush_if_needed flush_threshold_ b) = hash_index_ b /\
  counters_ (flush_if_needed flush_threshold_ b) = counters_ b /\ committed_txn_ids_ (flush_if_needed flush_threshold_ b) = committed_txn_ids_ b.
Proof. unfold flush_if_needed, force_flush_unlocked. by repeat case_match. Qed.

Lemma force_flush_same (b : t) :
  files_ (force_flush_unlocked b) = files_ b /\ hash_index_ (force_flush_unlocked b) = hash_index_ b /\
  counters_ (force_flush_unlocked b) = counters_ b /\ committed_txn_ids_ (force_flush_unlocked b) = committed_txn_ids_ b.
Proof. unfold force_flush_unlocked. by case_match. Qed.

(** ** Rows *)

Lemma view_rows n b L key : wf n b L -> Forall (in_width 64) (rows_of (view L) key) /\ zlen (rows_of (view L) key) <= n.
Proof.
  intros W. pose proof (wf_nonneg _ _ _ _ W) as H0. unfold rows_of. rewrite view_lookup. destruct (index ∅ (slots L) !! key_of key) as [s|] eqn:E; cbn; [|by rewrite zlen_nil].
  apply index_key in E as (_ & Hin & _). apply elem_of_slots in Hin as (id & es & Hin & Hs). apply places_split in Hs as (a & c & -> & _).
  pose proof (wf_segs _ _ _ _ W) as Hsg. rewrite Forall_forall in Hsg. destruct (Hsg _ Hin) as (_ & He & _).
  apply Forall_app in He as [_ He]. by apply Forall_cons in He as [[[_ _ ? _] ?] _].
Qed.

Lemma add_row_wf n b L key value :
  wf n b L -> key_ok key -> in_width 64 value -> n + 2 <= limit ->
  returns io_fault (add_row crc32c publishes segment_record_limit_ b key value) (fun p => updates n 2 b L (m_add (view L) key value) p.2).
Proof.
  intros W Hk Hv Hn. destruct (view_rows n b L key W) as [Hr Hl]. unfold add_row.
  rewrite (current_rows_view _ n b L) by (done || lia || apply Hk). cbn [mbind outcome_bind]. unfold m_add.
  case_bool_decide; [by apply updates_refl|]. eapply returns_bind.
  - apply (append_snapshot_wf crc32c publishes segment_record_limit_ n b L key (rows_of (view L) key ++ [value]) W Hk); [|len|done].
    apply Forall_app. split; [done|by constructor].
  - intros b' (L' & W' & Hview & E). cbn. eapply (updates_after _ _ _ _ _ b'); try done. by exists L'.
Qed.

Lemma drop_row_wf n b L key row :
  wf n b L -> key_ok key -> n + 2 <= limit ->
  returns io_fault (drop_row crc32c publishes segment_record_limit_ b key row) (fun p => updates n 2 b L (m_drop (view L) key row) p.2).
Proof.
  intros W Hk Hn. destruct (view_rows n b L key W) as [Hr Hl]. unfold drop_row.
  rewrite (current_rows_view _ n b L) by (done || lia || apply Hk). cbn [mbind outcome_bind]. unfold m_drop. set (rows := rows_of (view L) key) in *.
  set (left := filter (fun r => r <> row) rows).
  assert (Hlen : zlen left <= zlen rows) by (unfold zlen, left; pose proof (length_filter (fun r => r <> row) rows); lia).
  assert (Hin : (bool_decide (rows = []) || bool_decide (length left = length rows)) = negb (bool_decide (row ∈ rows))).
  { destruct (decide (row ∈ rows)) as [Hi|Hi]; [rewrite (bool_decide_true (row ∈ rows)) by done|rewrite (bool_decide_false (row ∈ rows)) by done].
    - rewrite !bool_decide_false; [done| |by intros ->; apply not_elem_of_nil in Hi]. by intros ?%filter_length_ne.
    - rewrite (bool_decide_true (length left = _)) by (by apply filter_length_ne). apply orb_true_r. }
  rewrite Hin. clear Hin. case_bool_decide as Hi; cbn [negb]; [|by apply updates_refl].
  assert (Hw : forall m M', returns io_fault m (fun b' => exists L', wf (n + 2) b' L' /\ view L' = M' /\ evolves b L b' L') ->
    returns io_fault (b' ← m; mret (true, mark_operation_dirty b')) (fun p => updates n 2 b L M' p.2)).
  { intros m M' Hm. eapply returns_bind; [exact Hm|]. intros b' (L' & W' & Hview & E). cbn. eapply (updates_after _ _ _ _ _ b'); try done. by exists L'. }
  case_bool_decide; apply Hw; [by apply append_tombstone_wf|].
  apply (append_snapshot_wf crc32c publishes segment_record_limit_ n b L key left W Hk); [apply Forall_forall; intros r [_ Hin]%list_elem_of_filter; rewrite Forall_forall in Hr; by apply Hr|lia|done].
Qed.

Lemma insert_wf n b L key value :
  wf n b L -> key_ok key -> in_width 64 value -> n + 2 <= limit ->
  returns io_fault (insert crc32c publishes flush_threshold_ segment_record_limit_ b key value) (updates n 2 b L (m_add (view L) key value)).
Proof.
  intros W Hk Hv Hn. unfold insert. eapply returns_bind; [by apply add_row_wf|]. intros [w b'] U. cbn [snd] in U. destruct w; [|done].
  eapply updates_after; [exact U|..]; by destruct (flush_if_needed_same b') as (? & ? & ? & ?).
Qed.

Lemma remove_row_wf n b L key row :
  wf n b L -> key_ok key -> n + 2 <= limit ->
  returns io_fault (remove_row crc32c publishes flush_threshold_ segment_record_limit_ b key row) (updates n 2 b L (m_drop (view L) key row)).
Proof.
  intros W Hk Hn. unfold remove_row. eapply returns_bind; [by apply drop_row_wf|]. intros [w b'] U. cbn [snd] in U. destruct w; [|done].
  eapply updates_after; [exact U|..]; by destruct (flush_if_needed_same b') as (? & ? & ? & ?).
Qed.

Lemma insert_bulk_wf n b L key value :
  wf n b L -> key_ok key -> in_width 64 value -> n + 2 <= limit ->
  returns io_fault (insert_bulk_unchecked crc32c publishes segment_record_limit_ b key value) (updates n 2 b L (m_set (view L) key value)).
Proof.
  intros W Hk Hv Hn. pose proof (wf_nonneg _ _ _ _ W). unfold insert_bulk_unchecked. eapply returns_bind.
  - apply (append_snapshot_wf crc32c publishes segment_record_limit_ n b L key [value] W Hk); [by constructor|len|done].
  - intros b' (L' & W' & Hview & E). eapply (updates_after _ _ _ _ _ b'); try done. by exists L'.
Qed.

Lemma remove_wf n b L key :
  wf n b L -> key_ok key -> n + 2 <= limit ->
  returns io_fault (remove crc32c publishes flush_threshold_ segment_record_limit_ b key) (updates n 2 b L (m_remove (view L) key)).
Proof.
  intros W Hk Hn. unfold remove. rewrite key_of_eq by apply Hk. cbn [mbind outcome_bind]. unfold key_loader.
  rewrite (hash_get crc32c _ _ _ _ (wf_hash _ _ _ _ W) (wf_readable _ _ _ _ W ltac:(lia))). cbn [mbind outcome_bind]. unfold m_remove.
  destruct (index ∅ (slots L) !! key_of key) as [s|] eqn:E; cbn [fmap option_fmap option_map].
  - eapply returns_bind; [by apply append_tombstone_wf|]. intros b' (L' & W' & Hview & Ev).
    destruct (flush_if_needed_same (mark_operation_dirty b')) as (? & ? & ? & ?). eapply (updates_after _ _ _ _ _ b'); try done. by exists L'.
  - rewrite delete_id by (by rewrite view_lookup, E). by apply updates_refl.
Qed.

(** ** Rehashing on and off *)

Lemma wf_with_hash n b L tb : wf n b L -> hs_holds tb (refs_of (index ∅ (slots L))) -> wf n (with_hash b tb) L.
Proof. intros [W1 W2 W3 W4 W5 W6 W7 W8 W9] Htb. by split. Qed.

Lemma updates_hash n b L tb k f : wf n b L -> hs_holds tb (refs_of (index ∅ (slots L))) -> updates n 0 b L (view L) (with_bulk (with_flush (with_hash b tb) f) k).
Proof.
  intros W Htb. exists L. split_and!; [|done|by apply evolves_same]. rewrite Z.add_0_r. eapply wf_same; [..|by apply (wf_with_hash n b L tb)]; done.
Qed.

Lemma suppress_wf n b L s : wf n b L -> wf n (suppress_rehash b s).2 L.
Proof.
  intros W. unfold suppress_rehash. pose proof (hs_suppress_ok _ _ s (wf_hash _ _ _ _ W)) as Hs. destruct (hs_suppress (hash_index_ b) s) as [p tb].
  by apply wf_with_hash.
Qed.

Lemma suppress_same (b : t) s :
  files_ (suppress_rehash b s).2 = files_ b /\ counters_ (suppress_rehash b s).2 = counters_ b /\ bulk_ (suppress_rehash b s).2 = bulk_ b /\
  committed_txn_ids_ (suppress_rehash b s).2 = committed_txn_ids_ b /\ tasks_ (suppress_rehash b s).2 = tasks_ b.
Proof. unfold suppress_rehash. by destruct (hs_suppress (hash_index_ b) s). Qed.

(** Only the hash index has changed. *)
Definition rehashed (b b' : t) : Prop :=
  files_ b' = files_ b /\ counters_ b' = counters_ b /\ bulk_ b' = bulk_ b /\ committed_txn_ids_ b' = committed_txn_ids_ b /\ tasks_ b' = tasks_ b.

Lemma restore_rehash_holds (b : t) m prev :
  hs_holds (hash_index_ b) m -> returns io_fault (restore_rehash b prev) (fun b' => hs_holds (hash_index_ b') m /\ rehashed b b').
Proof.
  intros Hm. unfold restore_rehash, suppress_rehash. pose proof (hs_suppress_ok _ _ prev Hm) as Hs.
  destruct (hs_suppress (hash_index_ b) prev) as [p tb]. cbn [snd] in Hs. destruct prev; [by split|]. cbn [hash_index_ with_hash].
  eapply returns_bind; [apply returns_io, hs_trigger_ok, Hs|]. intros [c tb'] Htb. by split.
Qed.

Lemma restore_rehash_wf n b L prev : wf n b L -> returns io_fault (restore_rehash b prev) (fun b' => wf n b' L /\ rehashed b b').
Proof.
  intros W. eapply returns_mono; [apply restore_rehash_holds, W|]. intros b' [Hh (Hf & Hc & Hr)]. split; [|done].
  eapply wf_same; [..|by apply (wf_with_hash n b L (hash_index_ b'))]; unfold segments, active; by rewrite ?Hf, ?Hc.
Qed.

Lemma set_bulk_mode_wf n b L enabled : wf n b L -> returns io_fault (set_bulk_mode b enabled) (updates n 0 b L (view L)).
Proof.
  intros W. unfold set_bulk_mode. destruct enabled.
  - destruct (bulk_mode_ (bulk_ b)); [by apply updates_refl|]. unfold suppress_rehash.
    pose proof (hs_suppress_ok _ _ true (wf_hash _ _ _ _ W)) as Hs. destruct (hs_suppress (hash_index_ b) true) as [p tb].
    apply (updates_hash n b L tb _ (flush_ b)); done.
  - eapply returns_bind with (P := updates n 0 b L (view L)).
    + destruct (_ && _); [|by apply updates_refl]. eapply returns_bind; [by apply (restore_rehash_wf n b L)|]. intros b' [W' (Hf & Hc & Hb & Hcm & Ht)].
      exists L. split_and!; [rewrite Z.add_0_r; by eapply wf_same; [..|exact W']|done|]. apply evolves_same; unfold active; cbn; by rewrite ?Hf, ?Hc.
    + intros b' U. by eapply updates_after.
Qed.

(** ** The transaction log *)

Definition value_in (v : logical_value_t * Z) : Prop := key_ok v.1 /\ in_width 64 v.2.

Record frame_ok (f : frame) : Prop := {
  fo_txn : in_width 64 (f_txn f);
  fo_values : Forall value_in (f_values f);
  fo_count : zlen (f_values f) <= limit;
}.

Definition op_kind (f : frame) : Z := if f_insert f then 1 else 2.

Definition values_bytes (vs : list (logical_value_t * Z)) : bytes := vs ≫= (fun v => value_bytes v.1 ++ write_le 8 v.2).

Definition frame_payload (f : frame) : bytes := write_le 4 (zlen (f_values f)) ++ values_bytes (f_values f).

Definition frame_bytes (f : frame) : bytes := txn_frame crc32c (f_txn f) (op_kind f) (frame_payload f).

Definition frames_bytes (fs : list frame) : bytes := fs ≫= frame_bytes.

(** The frames after the applied offset. *)
Definition logged (fs : files) (pending : list frame) : Prop :=
  exists done, default [] (txn_log fs) = done ++ frames_bytes pending /\ default 0 (txn_applied fs) = zlen done /\ Forall frame_ok pending.

Lemma txn_payload_eq vs : Forall value_in vs -> zlen vs <= limit -> txn_payload vs = Ok (write_le 4 (zlen vs) ++ values_bytes vs).
Proof.
  intros Hv Hl. pose proof (zlen_nonneg vs). unfold limit in Hl. unfold txn_payload. rewrite (mapM_fmap _ (fun v => value_bytes v.1 ++ write_le 8 v.2)).
  - cbn [mbind outcome_bind mret outcome_ret]. rewrite wrap_small by (split; lia). do 2 f_equal. unfold values_bytes. clear.
    induction vs as [|v vs IH]; [done|]. cbn in *. by rewrite IH.
  - eapply Forall_impl; [exact Hv|]. intros v [[Hk _] _]. cbn. by rewrite value_bytes_eq.
Qed.

(** Apply each entry in turn. *)
Lemma for_values_wf (i : bool) vs n b L :
  wf n b L -> Forall value_in vs -> n + 2 * zlen vs <= limit ->
  returns io_fault (for_values (if i then add_row crc32c publishes segment_record_limit_ else drop_row crc32c publishes segment_record_limit_) b vs)
    (updates n (2 * zlen vs) b L (foldl (m_value i) (view L) vs)).
Proof.
  revert n b L. induction vs as [|[key row] vs IH]; intros n b L W Hv Hn; cbn [for_values foldl].
  { by apply updates_refl. }
  apply Forall_cons in Hv as [[Hk Hr] Hv]. cbn [fst snd] in Hk, Hr. pose proof (zlen_nonneg vs). rewrite zlen_cons in *.
  eapply returns_bind with (P := fun p => updates n 2 b L (m_value i (view L) (key, row)) p.2).
  - destruct i; [apply add_row_wf|apply drop_row_wf]; try done; lia.
  - intros [w b1] (L1 & W1 & Hview & E1). cbn [snd] in *. eapply returns_mono; [apply (IH (n + 2) b1 L1 W1 Hv); lia|].
    intros b2 (L2 & W2 & Hview2 & E2). exists L2. split_and!; [by replace (n + 2 * (zlen vs + 1)) with (n + 2 + 2 * zlen vs) by lia|by rewrite Hview2, Hview|].
    by eapply evolves_trans.
Qed.

(** What a transaction leaves: its frame applied, and pending only when the applied offset could not be
    written; when the log cannot be opened, nothing has changed. *)
Lemma apply_txn_wf n b L f pending :
  wf n b L -> logged (files_ b) pending -> frame_ok f -> n + 2 * zlen (f_values f) <= limit ->
  returns io_fault (if f_insert f then apply_txn_inserts crc32c publishes txn_log_opens segment_record_limit_ b (f_txn f) (f_values f)
                    else apply_txn_deletes crc32c publishes txn_log_opens segment_record_limit_ b (f_txn f) (f_values f))
    (fun p => if txn_log_opens then
       exists L', wf (n + 2 * zlen (f_values f)) p.2 L' /\ view L' = m_frame (view L) f /\
         merge_manifest (files_ p.2) = merge_manifest (files_ b) /\ active b <= active p.2 /\
         (forall F, F <= active b -> imm F L' = imm F L) /\ (forall F, F <= active b -> exists more, slots (rest F L') = slots (rest F L) ++ more) /\
         logged (files_ p.2) (match p.1 with None => [] | Some _ => pending ++ [f] end)
     else p = (Some index_create_fail, b)).
Proof.
  intros W (done & Hlog & Happ & Hpend) [Hf Hv Hc] Hn.
  assert (Happly : (if f_insert f then apply_txn_inserts crc32c publishes txn_log_opens segment_record_limit_ b (f_txn f) (f_values f)
                    else apply_txn_deletes crc32c publishes txn_log_opens segment_record_limit_ b (f_txn f) (f_values f)) =
                   apply_txn crc32c publishes txn_log_opens
                     (if f_insert f then add_row crc32c publishes segment_record_limit_ else drop_row crc32c publishes segment_record_limit_)
                     b (f_txn f) (op_kind f) (f_values f)) by (unfold op_kind; by destruct (f_insert f)).
  rewrite Happly. unfold apply_txn, append_txn_record_unlocked. rewrite txn_payload_eq by done. cbn [mbind outcome_bind].
  destruct txn_log_opens; cbn [negb]; [|done]. cbn [mbind outcome_bind mret outcome_ret].
  set (b0 := with_files b _). assert (W0 : wf n b0 L) by (by eapply wf_same; [..|exact W]).
  eapply returns_bind; [apply (for_values_wf (f_insert f) (f_values f) n b0 L W0 Hv Hn)|]. intros b1 (L1 & W1 & Hview & [E1 E2 E3 E4 E5 E6 E7]).
  destruct (force_flush_same b1) as (Ff & Fh & Fc & Fm). set (b2 := force_flush_unlocked b1) in *.
  assert (W2 : wf (n + 2 * zlen (f_values f)) b2 L1) by (eapply wf_same; [..|exact W1]; unfold segments, active; by rewrite ?Ff, ?Fc).
  assert (Hlog2 : default [] (txn_log (files_ b2)) = done ++ frames_bytes (pending ++ [f])).
  { rewrite Ff, E2. cbn. rewrite Hlog, <- app_assoc. f_equal. unfold frames_bytes. rewrite bind_app. cbn. by rewrite app_nil_r. }
  assert (Hact : active b2 = active b1) by (unfold active; by rewrite Fc).
  cbn [returns]. unfold write_applied_log_offset. change (default [] (txn_log (files_ b0))) with (default [] (txn_log (files_ b)) ++ frame_bytes f).
  destruct (publishes _); cbn [fst snd]; exists L1.
  - split_and!; [by eapply wf_same; [..|exact W2]|done|by cbn; rewrite Ff, E1|change (active b <= active b2); rewrite Hact; apply E5|apply E6|apply E7|].
    exists (done ++ frames_bytes (pending ++ [f])). split_and!; [cbn; by rewrite Hlog2, app_nil_r| |done]. cbn. rewrite Hlog. f_equal.
    rewrite <- app_assoc. f_equal. unfold frames_bytes. rewrite bind_app. cbn. by rewrite app_nil_r.
  - cbn [fst snd]. split_and!; [done|done|by rewrite Ff, E1|rewrite Hact; apply E5|apply E6|apply E7|]. exists done. split_and!; [done|by rewrite Ff, E3|].
    apply Forall_app. split; [done|]. constructor; [by split|done].
Qed.

(** *** Replaying the log *)

Lemma zlen_txn_frame txn op p : zlen (txn_frame crc32c txn op p) = 32 + zlen p.
Proof. unfold txn_frame, txn_body. rewrite !zlen_app, !zlen_write_le, zlen_zeros by lia. lia. Qed.

(** The entries of a frame read back and applied. *)
Lemma apply_entries_wf vs n b L i a l :
  wf n b L -> Forall value_in vs -> n + 2 * zlen vs <= limit -> l = a ++ values_bytes vs ->
  returns io_fault (apply_entries crc32c publishes flush_threshold_ segment_record_limit_ (length vs) b (if i : bool then 1 else 2) l (zlen a))
    (updates n (2 * zlen vs) b L (foldl (m_value i) (view L) vs)).
Proof.
  revert n b L a l. induction vs as [|[key row] vs IH]; intros n b L a l W Hv Hn ->; cbn [length apply_entries foldl].
  { by apply updates_refl. }
  apply Forall_cons in Hv as [[Hk Hr] Hv]. cbn [fst snd] in Hk, Hr. pose proof (zlen_nonneg vs). rewrite zlen_cons in *. pose proof (key_ok_plain _ Hk) as Hpk.
  unfold values_bytes. cbn [mbind list_bind fst snd]. fold (values_bytes vs). rewrite <- (app_assoc (value_bytes key)).
  rewrite (read_value_bytes key a (write_le 8 row ++ values_bytes vs)) by apply Hk. cbn [mbind outcome_bind].
  rewrite (take_le_small _ (a ++ value_bytes key) 8 row (values_bytes vs)); [|by rewrite <- !app_assoc|by rewrite zlen_app|exact Hr]. cbn [mbind outcome_bind].
  eapply returns_bind with (P := updates n 2 b L (m_value i (view L) (key, row))).
  - rewrite <- (m_value_plain i (view L) (key, row)) by apply Hk. cbn [fst snd].
    destruct i; [rewrite bool_decide_true by done; apply insert_wf|rewrite bool_decide_false by done; apply remove_row_wf]; try done; lia.
  - intros b1 (L1 & W1 & Hview & E1). replace (zlen a + zlen (value_bytes key) + Z.of_nat 8) with (zlen (a ++ value_bytes key ++ write_le 8 row)) by len.
    eapply returns_mono; [apply (IH (n + 2) b1 L1 (a ++ value_bytes key ++ write_le 8 row) _ W1 Hv); [lia|by rewrite <- !app_assoc]|].
    intros b2 (L2 & W2 & Hview2 & E2). exists L2. split_and!; [by replace (n + 2 * (zlen vs + 1)) with (n + 2 + 2 * zlen vs) by lia|by rewrite Hview2, Hview|].
    by eapply evolves_trans.
Qed.

Lemma apply_frame_wf n b L f :
  wf n b L -> frame_ok f -> n + 2 * zlen (f_values f) <= limit ->
  returns io_fault (apply_frame crc32c publishes flush_threshold_ segment_record_limit_ b (f_txn f) (op_kind f) (frame_payload f))
    (updates n (2 * zlen (f_values f)) b L (if bool_decide (f_txn f ∈ committed_txn_ids_ b) then m_frame (view L) f else view L)).
Proof.
  intros W [Hf Hv Hc] Hn. pose proof (zlen_nonneg (f_values f)). unfold apply_frame. case_bool_decide; [|apply updates_refl; [done|lia]].
  unfold frame_payload. unfold limit in Hc.
  rewrite (take_le_small _ [] 4 (zlen (f_values f)) (values_bytes (f_values f))); [|done|done|cbn; lia]. cbn [mbind outcome_bind].
  eapply returns_bind.
  - unfold zlen at 1. rewrite Nat2Z.id. replace (0 + Z.of_nat 4) with (zlen (write_le 4 (zlen (f_values f)))) by len.
    by apply (apply_entries_wf (f_values f) n b L (f_insert f) (write_le 4 (zlen (f_values f)))).
  - intros b1 U. eapply updates_after; [exact U|..]; by destruct (force_flush_same b1) as (? & ? & ? & ?).
Qed.

(** The weight of a list of frames. *)
Fixpoint weight (fs : list frame) : Z := match fs with [] => 0 | f :: fs => 2 * zlen (f_values f) + weight fs end.

Lemma weight_nonneg fs : 0 <= weight fs.
Proof. induction fs as [|f fs IH]; cbn; [lia|]. pose proof (zlen_nonneg (f_values f)). lia. Qed.

Lemma weight_app fs fs' : weight (fs ++ fs') = weight fs + weight fs'.
Proof. induction fs as [|f fs IH]; cbn; lia. Qed.

Definition m_frames (committed : gset Z) (M : index_map) (fs : list frame) : index_map :=
  foldl (fun M f => if bool_decide (f_txn f ∈ committed) then m_frame M f else M) M fs.

Lemma values_bytes_len vs : Forall value_in vs -> zlen (values_bytes vs) <= zlen vs * 2 ^ 33.
Proof.
  intros Hv. induction Hv as [|v vs [[Hk _] _] _ IH]; [done|]. unfold values_bytes in *. cbn [mbind list_bind]. rewrite zlen_app, zlen_app, zlen_write_le, zlen_cons.
  pose proof (value_bytes_len _ Hk). lia.
Qed.

(** The fields of a frame's header. *)
Lemma frame_header f :
  frame_ok f ->
  exists raw, frame_bytes f = raw ++ frame_payload f /\ zlen raw = 32 /\ read_le 4 raw 0 = Ok txn_magic /\
    read_le 4 raw 4 = Ok (compute_crc crc32c (skipn 8 raw ++ frame_payload f)) /\ read_le 8 raw 8 = Ok (f_txn f) /\
    read_le 1 raw 16 = Ok (op_kind f) /\ read_le 8 raw 24 = Ok (zlen (frame_payload f)) /\ zlen (frame_payload f) < 2 ^ 63.
Proof.
  intros [Hf Hv Hc]. pose proof (values_bytes_len _ Hv) as Hl. pose proof (zlen_nonneg (values_bytes (f_values f))). unfold limit in Hc.
  assert (Hp : 0 <= zlen (frame_payload f) < 2 ^ 63) by (unfold frame_payload; rewrite zlen_app, zlen_write_le; lia).
  unfold frame_bytes, txn_frame. set (p := frame_payload f) in *. set (body := txn_body (f_txn f) (op_kind f) p). set (crc := compute_crc crc32c (body ++ p)).
  assert (Hcrc : in_width 32 crc) by apply compute_crc_width.
  assert (Hop : 0 <= op_kind f < 2 ^ (8 * Z.of_nat 1)) by (unfold op_kind; destruct (f_insert f); cbn; lia).
  exists (write_le 4 txn_magic ++ write_le 4 crc ++ body). unfold body, txn_body. split_and!.
  - by rewrite <- !app_assoc.
  - rewrite !zlen_app, !zlen_write_le, zlen_zeros by lia. done.
  - by apply (read_le_in _ [] 4 txn_magic (write_le 4 crc ++ write_le 8 (f_txn f) ++ write_le 1 (op_kind f) ++ zeros 7 ++ write_le 8 (zlen p))).
  - rewrite (read_le_in _ (write_le 4 txn_magic) 4 crc (write_le 8 (f_txn f) ++ write_le 1 (op_kind f) ++ zeros 7 ++ write_le 8 (zlen p)) 4); [|done|by rewrite zlen_write_le|exact Hcrc].
    rewrite app_assoc, (drop_app_length' (write_le 4 txn_magic ++ write_le 4 crc)); [done|]. pose proof (zlen_write_le 4 crc). pose proof (zlen_write_le 4 txn_magic). rewrite length_app. unfold zlen in *. lia.
  - apply (read_le_in _ (write_le 4 txn_magic ++ write_le 4 crc) 8 (f_txn f) (write_le 1 (op_kind f) ++ zeros 7 ++ write_le 8 (zlen p)) 8);
      [by rewrite <- !app_assoc|by rewrite zlen_app, !zlen_write_le|exact Hf].
  - apply (read_le_in _ (write_le 4 txn_magic ++ write_le 4 crc ++ write_le 8 (f_txn f)) 1 (op_kind f) (zeros 7 ++ write_le 8 (zlen p)) 16);
      [by rewrite <- !app_assoc|by rewrite !zlen_app, !zlen_write_le|exact Hop].
  - apply (read_le_in _ (write_le 4 txn_magic ++ write_le 4 crc ++ write_le 8 (f_txn f) ++ write_le 1 (op_kind f) ++ zeros 7) 8 (zlen p) [] 24);
      [by rewrite app_nil_r, <- !app_assoc|by rewrite !zlen_app, !zlen_write_le, zlen_zeros by lia|cbn; lia].
  - apply Hp.
Qed.

Lemma recover_loop_wf fs fuel n b L done log :
  wf n b L -> Forall frame_ok fs -> n + weight fs <= limit -> log = done ++ frames_bytes fs -> (length fs < fuel)%nat ->
  txn_log (files_ b) = Some log -> default 0 (txn_applied (files_ b)) = zlen done ->
  returns io_fault (recover_loop crc32c publishes flush_threshold_ segment_record_limit_ fuel b log (zlen done)) (fun b' =>
    exists L', wf (n + weight fs) b' L' /\ view L' = m_frames (committed_txn_ids_ b) (view L) fs /\
      merge_manifest (files_ b') = merge_manifest (files_ b) /\ logged (files_ b') [] /\ active b <= active b' /\
      (forall F, F <= active b -> imm F L' = imm F L)).
Proof.
  revert fuel n b L done log. induction fs as [|f fs IH]; intros fuel n b L done log W Hfs Hn -> Hfuel Hlog Happ; (destruct fuel as [|fuel]; [lia|]); cbn [recover_loop].
  - cbn [frames_bytes mbind list_bind weight m_frames foldl] in *. rewrite app_nil_r. unfold read_bytes, txn_header_size. rewrite bool_decide_false by lia.
    exists L. split_and!; [by rewrite Z.add_0_r|done|done| |done|done]. exists done. rewrite Hlog. cbn. by rewrite app_nil_r.
  - apply Forall_cons in Hfs as [Hf Hfs]. cbn [weight length] in *. pose proof (weight_nonneg fs). pose proof (zlen_nonneg (f_values f)).
    destruct (frame_header f Hf) as (raw & Ef & Hraw & R0 & R4 & R8 & R16 & R24 & Hp).
    assert (Elog : done ++ frames_bytes (f :: fs) = done ++ raw ++ frame_payload f ++ frames_bytes fs).
    { unfold frames_bytes. cbn [mbind list_bind]. rewrite Ef. by rewrite <- !app_assoc. }
    rewrite Elog. rewrite (read_bytes_in _ done raw (frame_payload f ++ frames_bytes fs)) by done.
    rewrite R0. cbn [mbind outcome_bind]. rewrite bool_decide_true by done. cbn [negb]. rewrite R4, R8, R16, R24. cbn [mbind outcome_bind].
    rewrite resize_ok by done. cbn [mbind outcome_bind].
    rewrite (read_bytes_in _ (done ++ raw) (frame_payload f) (frames_bytes fs)); [|by rewrite <- app_assoc|by rewrite zlen_app, Hraw|done].
    rewrite bool_decide_true by done. cbn [negb]. rewrite bool_decide_true by (unfold op_kind; destruct (f_insert f); auto). cbn [negb].
    eapply returns_bind; [apply (apply_frame_wf n b L f W Hf); lia|]. intros b1 (L1 & W1 & Hview & [E1 E2 E3 E4 E5 E6 E7]).
    unfold write_applied_log_offset. destruct (publishes _) eqn:Epub; [|by eapply not_published].
    replace (zlen done + txn_header_size + zlen (frame_payload f)) with (zlen (done ++ raw ++ frame_payload f)) by (rewrite !zlen_app, Hraw; unfold txn_header_size; lia).
    eapply returns_mono; [apply (IH fuel (n + 2 * zlen (f_values f)) _ L1 (done ++ raw ++ frame_payload f) _); try done|].
    + by eapply wf_same; [..|exact W1].
    + lia.
    + by rewrite <- !app_assoc.
    + lia.
    + cbn. by rewrite E2, Hlog, Elog.
    + intros b2 (L2 & W2 & Hv2 & Hm2 & Hl2 & Ha2 & Hi2). change (active (with_files b1 _)) with (active b1) in Ha2, Hi2.
      exists L2. split_and!; [by replace (n + (2 * zlen (f_values f) + weight fs)) with (n + 2 * zlen (f_values f) + weight fs) by lia| |by rewrite Hm2; cbn|done|lia|].
      * rewrite Hv2. unfold m_frames. cbn [foldl committed_txn_ids_ with_files]. by rewrite Hview, E4.
      * intros F HF. rewrite Hi2 by lia. by apply E6.
Qed.

Lemma length_frames_bytes fs : (length fs <= length (frames_bytes fs))%nat.
Proof.
  induction fs as [|f fs IH]; [done|]. unfold frames_bytes in *. cbn [mbind list_bind length]. rewrite length_app.
  pose proof (zlen_txn_frame (f_txn f) (op_kind f) (frame_payload f)) as Hl. fold (frame_bytes f) in Hl. pose proof (zlen_nonneg (frame_payload f)). unfold zlen in *. lia.
Qed.

(** A restart applies the pending frames of committed transactions, in order, and no frame stays
    pending. *)
Lemma recover_txn_log_wf n b L pending :
  wf n b L -> logged (files_ b) pending -> n + weight pending <= limit ->
  returns io_fault (recover_txn_log_unlocked crc32c publishes flush_threshold_ segment_record_limit_ b) (fun b' =>
    exists L', wf (n + weight pending) b' L' /\ view L' = m_frames (committed_txn_ids_ b) (view L) pending /\
      merge_manifest (files_ b') = merge_manifest (files_ b) /\ logged (files_ b') [] /\ active b <= active b' /\
      (forall F, F <= active b -> imm F L' = imm F L)).
Proof.
  intros W (done & Hlog & Happ & Hok) Hn. unfold recover_txn_log_unlocked, read_applied_log_offset. destruct (txn_log (files_ b)) as [log|] eqn:E; cbn in Hlog.
  - rewrite Happ. apply (recover_loop_wf pending _ n b L done log); try done. pose proof (length_frames_bytes pending). rewrite Hlog, length_app. lia.
  - destruct pending as [|f fs]; cbn [weight m_frames foldl].
    + exists L. split_and!; [by rewrite Z.add_0_r|done|done| |done|done]. exists done. by rewrite E.
    + exfalso. symmetry in Hlog. apply app_eq_nil in Hlog as [_ Hlog]. pose proof (length_frames_bytes (f :: fs)) as Hl. rewrite Hlog in Hl. cbn in Hl. lia.
Qed.

End ops.
