(* ===== verification/BitcaskOpen.v ===== *)
(** * Loading, opening and clearing the index

    Loading replays every segment in order into a hash index that still has the references of the
    last run, and ends with the references of the log; the constructor then goes on with the
    active segment and the pending frames of the transaction log. *)

From S2P Require Import Prelude.
From S2P Require Import Bytes.
From S2P Require Import DiskHashTable.
From S2P Require Import DiskHashPage.
From S2P Require Import DiskHashChain.
From S2P Require Import DiskHashSpec.
From S2P Require Import HashStorage.
From S2P Require Import IndexCodec.
From S2P Require Import Bitcask.
From S2P Require Import BitcaskLog.
From S2P Require Import BitcaskSpec.
From S2P Require Import BitcaskOps.
Import bitcask_index_disk.
#[local] Open Scope Z_scope.

Section opening.
Context {T : Type} {HS : HashStorage T} {HSO : HashStorageOk T} (crc32c : bytes -> Z) (publishes : sidecar -> bool).
Context (flush_threshold_ segment_record_limit_ : Z).

#[local] Abbreviation io_fault := (io_fault publishes).
#[local] Abbreviation t := (t (T := T)).
#[local] Abbreviation slots := (slots crc32c).
#[local] Abbreviation places := (places crc32c).
#[local] Abbreviation stored := (stored crc32c).
#[local] Abbreviation view := (view crc32c).
#[local] Abbreviation wf := (wf crc32c).
#[local] Abbreviation log_bytes := (log_bytes crc32c).
#[local] Abbreviation disk_of := (disk_of crc32c).
#[local] Abbreviation readable := (readable crc32c).
#[local] Abbreviation logged := (logged crc32c).

(** ** Replaying *)

(** Only the hash index and the last timestamp have changed. *)
Record reloaded (b b' : t) : Prop := {
  re_files : files_ b' = files_ b;
  re_bulk : bulk_ b' = bulk_ b;
  re_flush : flush_ b' = flush_ b;
  re_committed : committed_txn_ids_ b' = committed_txn_ids_ b;
  re_tasks : tasks_ b' = tasks_ b;
}.

Lemma reloaded_trans b1 b2 b3 : reloaded b1 b2 -> reloaded b2 b3 -> reloaded b1 b3.
Proof. intros [] []. split; congruence. Qed.

Lemma readable_put segs I s : readable segs I -> stored segs s -> readable segs (put_slot I s).
Proof.
  intros Hr Hs k s'. unfold put_slot. destruct (e_live (s_entry s)) eqn:El.
  - rewrite lookup_insert_Some. intros [[<- <-]|[_ Hs']]; [done|by apply Hr].
  - intros [_ Hs']%lookup_delete_Some. by apply Hr.
Qed.

Lemma size_index I ss : (size (index I ss) <= size I + length ss)%nat.
Proof.
  revert I. induction ss as [|s ss IH]; intros I; cbn [index foldl length]; [lia|]. fold (index (put_slot I s) ss).
  pose proof (IH (put_slot I s)). pose proof (size_put_slot I s). lia.
Qed.

Lemma length_places id off es : length (places id off es) = length es.
Proof. revert off. induction es as [|e es IH]; intros off; cbn; [done|]. by rewrite IH. Qed.

(** One record. *)
Lemma replay_entry b I id off e :
  hs_holds (hash_index_ b) (refs_of I) -> readable (segments b) I -> slot_ok (Slot id (off + record_header_size) e) -> Z.of_nat (size I) + 1 < 2 ^ 64 ->
  returns refused (replay crc32c b id off (header_of crc32c e) (payload e)) (fun r =>
    exists tb, r = Some (with_hash b tb) /\ hs_holds tb (refs_of (put_slot I (Slot id (off + record_header_size) e)))).
Proof.
  intros Hh Hr Hs Hn. pose proof Hs as [Hf Ho He]. cbn [s_file s_off s_entry] in *. unfold replay. rewrite deserialize_entry by done. cbn [mbind outcome_bind].
  destruct (eo_key _ He) as [Hk _]. rewrite key_bytes_plain, key_of_eq by done. cbn [mbind outcome_bind header_of h_kind]. unfold kind_of, key_loader, put_slot.
  cbn [s_entry]. change (slot_key (Slot id (off + record_header_size) e)) with (key_of (e_key e)). destruct (e_live e).
  - rewrite bool_decide_false, bool_decide_true by done.
    eapply returns_bind; [by apply (hash_erase_all crc32c (segments b) _ I (key_of (e_key e)))|]. intros tb Htb.
    rewrite wrap_small by done. eapply returns_bind; [apply (hash_put tb I (Slot id (off + record_header_size) e)); done|].
    intros [u tb'] Htb'. by exists tb'.
  - rewrite bool_decide_true by done. eapply returns_bind; [by apply (hash_erase_all crc32c (segments b) _ I (key_of (e_key e)))|]. intros tb Htb. by exists tb.
Qed.

Lemma log_bytes_snoc_len a e : zlen (log_bytes (a ++ [e])) = zlen (log_bytes a) + record_header_size + zlen (payload e).
Proof. rewrite log_bytes_app, zlen_app, log_bytes_single, encode_header, zlen_app, zlen_header_bytes. lia. Qed.

(** The records of a segment from a record on. *)
Lemma load_segment_wf es a fuel b I id count :
  hs_holds (hash_index_ b) (refs_of I) -> readable (segments b) I ->
  Forall (fun s => stored (segments b) s /\ slot_ok s) (places id (zlen (log_bytes a)) es) -> Forall entry_ok es ->
  Z.of_nat (size I) + zlen es < 2 ^ 64 -> zlen (log_bytes (a ++ es)) < 2 ^ 63 -> (length es < fuel)%nat ->
  returns refused (load_segment crc32c fuel b id (log_bytes (a ++ es)) (zlen (log_bytes a)) count) (fun r =>
    exists b', r = (b', count + zlen es, false) /\ hs_holds (hash_index_ b') (refs_of (index I (places id (zlen (log_bytes a)) es))) /\ reloaded b b').
Proof.
  revert a fuel b I count. induction es as [|e es IH]; intros a fuel b I count Hh Hr Hst Hok Hn Hlen Hfuel; (destruct fuel as [|fuel]; [lia|]); cbn [load_segment].
  - rewrite app_nil_r. unfold record_header_size. rewrite bool_decide_false by lia. cbn [negb]. exists b. rewrite zlen_nil, Z.add_0_r. by split_and!.
  - apply Forall_cons in Hok as [He Hok]. cbn [places] in Hst. apply Forall_cons in Hst as [[Hs1 Hs2] Hst]. rewrite zlen_cons in *. cbn [length] in Hfuel.
    pose proof (payload_len e He) as Hp. pose proof (zlen_nonneg (log_bytes a)) as Ha. pose proof (zlen_nonneg es).
    assert (Ef : log_bytes (a ++ e :: es) = log_bytes a ++ header_bytes crc32c e ++ payload e ++ log_bytes es).
    { rewrite log_bytes_app. unfold BitcaskLog.log_bytes at 2. cbn [mbind list_bind]. rewrite encode_header, <- app_assoc. done. }
    assert (Hl : zlen (log_bytes (a ++ e :: es)) = zlen (log_bytes a) + record_header_size + zlen (payload e) + zlen (log_bytes es)).
    { rewrite Ef, !zlen_app, zlen_header_bytes. lia. }
    pose proof (zlen_nonneg (log_bytes es)). unfold record_header_size in Hl. rewrite bool_decide_true by (unfold record_header_size; lia). cbn [negb].
    rewrite (read_bytes_in _ (log_bytes a) (header_bytes crc32c e) (payload e ++ log_bytes es)); [|done|done|by rewrite zlen_header_bytes]. cbn [mbind outcome_bind].
    rewrite read_header_bytes by (done || lia). cbn [mbind outcome_bind header_of h_payload_size h_crc].
    rewrite wrap_small by (unfold record_header_size; split; lia). rewrite bool_decide_false by (unfold record_header_size; lia).
    rewrite resize_ok by lia. cbn [mbind outcome_bind].
    rewrite (read_bytes_in _ (log_bytes a ++ header_bytes crc32c e) (payload e) (log_bytes es)); [|by rewrite Ef, <- app_assoc|by rewrite zlen_app, zlen_header_bytes|done].
    cbn [mbind outcome_bind]. rewrite header_bytes_crc, bool_decide_true by done. cbn [negb].
    eapply returns_bind; [apply (replay_entry b I id (zlen (log_bytes a)) e); try done; lia|]. intros r (tb & -> & Htb).
    set (b1 := with_timestamp _ _). set (s := Slot id (zlen (log_bytes a) + record_header_size) e) in *.
    assert (Ea : a ++ e :: es = (a ++ [e]) ++ es) by (by rewrite <- app_assoc).
    assert (Eo : zlen (log_bytes (a ++ [e])) = zlen (log_bytes a) + record_header_size + zlen (payload e)) by apply log_bytes_snoc_len.
    rewrite <- Eo. rewrite Ea in *.
    assert (Epl : zlen (log_bytes a) + zlen (encode crc32c e) = zlen (log_bytes (a ++ [e]))).
    { rewrite Eo. unfold encode. rewrite zlen_write_record. unfold record_header_size. lia. }
    rewrite Epl in Hst. eapply returns_mono; [apply (IH (a ++ [e]) fuel b1 (put_slot I s) (count + 1)); try done|].
    + by apply readable_put.
    + pose proof (size_put_slot I s). lia.
    + lia.
    + intros r (b' & -> & Hh' & Hre). exists b'. split_and!; [by replace (count + (zlen es + 1)) with (count + 1 + zlen es) by lia| |].
      * cbn [places index foldl]. rewrite Epl. done.
      * eapply reloaded_trans; [|exact Hre]. done.
Qed.

(** The segments in order. *)
Lemma load_segments_wf n L b I :
  hs_holds (hash_index_ b) (refs_of I) -> readable (segments b) I -> Forall (fun s => stored (segments b) s /\ slot_ok s) (slots L) ->
  Forall (segment_in n) L -> n <= limit -> Forall (fun p => segments b !! p.1 = Some (log_bytes p.2)) L ->
  Z.of_nat (size I) + zlen (slots L) < 2 ^ 64 ->
  returns refused (load_segments crc32c b L.*1) (fun r =>
    exists b', r = (b', (fun p => (p.1, zlen p.2)) <$> L, false) /\ hs_holds (hash_index_ b') (refs_of (index I (slots L))) /\ reloaded b b').
Proof.
  revert b I. induction L as [|[id es] L IH]; intros b I Hh Hr Hst Hseg Hn Hf Hsz; cbn [fmap list_fmap load_segments fst].
  { by exists b. }
  apply Forall_cons in Hseg as [(H0 & He & Hl) Hseg]. apply Forall_cons in Hf as [Hf1 Hf]. cbn [fst snd] in *. rewrite Hf1. cbn [of_option mbind outcome_bind].
  assert (Esl : slots ((id, es) :: L) = places id 0 es ++ slots L) by done. rewrite Esl in *. apply Forall_app in Hst as [Hst1 Hst]. rewrite zlen_app in Hsz.
  pose proof (zlen_nonneg (slots L)). pose proof (zlen_nonneg es) as Hes0. assert (Hlp : zlen (places id 0 es) = zlen es) by (unfold zlen; by rewrite length_places).
  eapply returns_bind.
  - apply (load_segment_wf es [] _ b I id 0); try done.
    + eapply Forall_impl; [exact He|]. by intros e [? _].
    + lia.
    + cbn [app]. pose proof (log_bytes_len crc32c n es He Hl ltac:(lia)). unfold limit in *. lia.
    + unfold segment_fuel. pose proof (length_places id 0 es). enough (length es <= length (log_bytes es))%nat by lia. clear.
      induction es as [|e es IH]; [done|]. unfold BitcaskLog.log_bytes in *. cbn [mbind list_bind length]. rewrite length_app.
      assert (1 <= length (encode crc32c e))%nat; [|lia]. pose proof (zlen_write_record crc32c (kind_of e) (e_ts e) (payload e)) as Hw. fold (encode crc32c e) in Hw.
      pose proof (zlen_nonneg (payload e)). unfold zlen in *. lia.
  - intros r (b1 & -> & Hh1 & Hre). cbn [app] in Hh1. change (zlen (log_bytes [])) with 0 in Hh1.
    assert (Hsg : segments b1 = segments b) by (unfold segments; by rewrite (re_files _ _ Hre)).
    eapply returns_bind.
    + apply (IH b1 (index I (places id 0 es))); try done; rewrite ?Hsg; try done.
      * clear - Hr Hst1. revert I Hr Hst1. generalize (places id 0 es). intros ss. induction ss as [|s ss IHs]; intros I Hr Hst; [done|].
        apply Forall_cons in Hst as [[Hs _] Hst]. cbn [index foldl]. apply IHs; [by apply readable_put|done].
      * pose proof (size_index I (places id 0 es)) as Hsi. rewrite length_places in Hsi. unfold zlen in *. lia.
    + intros r (b' & -> & Hh' & Hre'). exists b'. split_and!; [done|by rewrite index_app|by eapply reloaded_trans].
Qed.

(** ** The files of a well-formed index *)

(** A manifest names only segments that are gone for good. *)
Definition manifest_ok (fs : files) (L : list segment) (a : Z) : Prop :=
  forall m rm id, merge_manifest fs = Some (m, rm) -> id ∈ rm -> id ∉ L.*1 /\ id < a.

(** What is left on disk when the index is closed. *)
Record on_disk (n : Z) (fs : files) (L : list segment) (a : Z) : Prop := {
  od_data : data fs = disk_of L;
  od_sorted : StronglySorted Z.lt L.*1;
  od_last : exists old es, L = old ++ [(a, es)];
  od_bound : a <= n + 2;
  od_segs : Forall (segment_in n) L;
  od_current : CURRENT fs = Some a;
  od_manifest : manifest_ok fs L a;
  od_size : Z.of_nat (size (index ∅ (slots L))) <= n;
}.

Lemma wf_on_disk n b L : wf n b L -> manifest_ok (files_ b) L (active b) -> on_disk n (files_ b) L (active b).
Proof. intros [W1 W2 W3 W4 W5 W6 W7 W8 W9] Hm. by split. Qed.

Lemma manifest_grow fs L L' a a' :
  manifest_ok fs L a -> a <= a' -> imm a L' = imm a L -> manifest_ok fs L' a'.
Proof.
  intros Hm Ha Hi m rm id E Hid. destruct (Hm m rm id E Hid) as [Hn Hlt]. split; [|lia]. intros Hin. apply Hn.
  apply list_elem_of_fmap in Hin as (p & -> & Hp). assert (Hp' : p ∈ imm a L') by (by apply list_elem_of_filter). rewrite Hi in Hp'.
  apply list_elem_of_filter in Hp' as [_ Hp']. apply list_elem_of_fmap. by exists p.
Qed.

Lemma delete_absent (d : gmap Z bytes) rm : (forall id, id ∈ rm -> d !! id = None) -> foldr delete d rm = d.
Proof.
  induction rm as [|id rm IH]; intros Hrm; [done|]. cbn. rewrite IH by (intros j Hj; apply Hrm; by right). apply delete_id, Hrm. by left.
Qed.

Lemma cleanup_same fs L a :
  data fs = disk_of L -> manifest_ok fs L a ->
  let fs' := apply_merge_recovery_cleanup fs in
  data fs' = data fs /\ CURRENT fs' = CURRENT fs /\ txn_log fs' = txn_log fs /\ txn_applied fs' = txn_applied fs /\
  (merge_manifest fs' = merge_manifest fs \/ merge_manifest fs' = None).
Proof.
  intros Hd Hm. unfold apply_merge_recovery_cleanup. destruct (merge_manifest fs) as [[m rm]|] eqn:E; [|cbn zeta; rewrite E; split_and!; auto].
  destruct (data fs !! m); cbn; [|split_and!; auto]. rewrite E. split_and!; auto. apply delete_absent. intros id Hid. rewrite Hd.
  apply disk_of_none. by eapply Hm.
Qed.

Lemma collect_segments_sorted L fs : data fs = disk_of L -> StronglySorted Z.lt L.*1 -> collect_segments fs = L.*1.
Proof.
  intros Hd Hs. unfold collect_segments. apply (StronglySorted_unique Z.le).
  - apply StronglySorted_merge_sort; apply _.
  - clear Hd. induction Hs as [|x l _ IH Hx]; constructor; [done|]. eapply Forall_impl; [exact Hx|]. cbn. lia.
  - rewrite merge_sort_Permutation, Hd. unfold BitcaskLog.disk_of. rewrite map_to_list_to_map; rewrite <- list_fmap_compose; [done|by apply sorted_nodup].
Qed.

Lemma zlen_slots_bound n L a : StronglySorted Z.lt L.*1 -> Forall (segment_in n) L -> Forall (fun id => 0 <= id <= a) L.*1 -> 0 <= a -> 0 <= n -> zlen (slots L) <= (a + 1) * n.
Proof.
  intros Hs Hseg Hids Ha Hn.
  assert (Hlen : zlen (slots L) <= zlen L * n).
  { clear - Hseg. induction Hseg as [|[id es] L (_ & _ & Hl) _ IH]; [done|]. change (slots ((id, es) :: L)) with (places id 0 es ++ slots L).
    rewrite zlen_app, zlen_cons. cbn [snd] in Hl. replace (zlen (places id 0 es)) with (zlen es) by (unfold zlen; by rewrite length_places). lia. }
  assert (HL : zlen L <= a + 1).
  { assert (Hsub : L.*1 ⊆+ seqZ 0 (a + 1)).
    { apply NoDup_submseteq; [by apply sorted_nodup|]. intros x Hx. rewrite Forall_forall in Hids. specialize (Hids x Hx). cbn in Hids. apply elem_of_seqZ. lia. }
    apply submseteq_length in Hsub. rewrite length_seqZ, length_fmap in Hsub. unfold zlen. lia. }
  pose proof (zlen_nonneg L). nia.
Qed.
Lemma on_disk_ids n fs L a : on_disk n fs L a -> Forall (fun id => 0 <= id <= a) L.*1 /\ 0 <= a.
Proof.
  intros [O1 O2 (old & es & ->) O4 O5 O6 O7 O8]. pose proof (sorted_last_max _ _ _ O2) as Hm. rewrite Forall_forall in Hm. rewrite Forall_forall in O5.
  assert (Ha : 0 <= a) by (apply (O5 (a, es)), elem_of_app; right; by left). split; [|done]. apply Forall_forall. intros id (p & -> & Hp)%list_elem_of_fmap.
  destruct (O5 p Hp) as (H0 & _). split; [done|]. apply elem_of_app in Hp as [Hp|Hp%list_elem_of_singleton]; [|by subst p].
  specialize (Hm p.1 ltac:(apply list_elem_of_fmap; by exists p)). lia.
Qed.

Lemma on_disk_files n fs L a : on_disk n fs L a -> Forall (fun p => data fs !! p.1 = Some (log_bytes p.2)) L.
Proof.
  intros O. apply Forall_forall. intros [id es] Hin. rewrite (od_data _ _ _ _ O). apply disk_of_lookup; [apply sorted_nodup, O|done].
Qed.

(** ** Loading *)

Lemma chosen_last (L old : list segment) es (a : Z) :
  L = old ++ [(a, es)] -> a ∉ old.*1 ->
  let counts := (fun p : segment => (p.1, zlen p.2)) <$> L in
  last counts = Some (a, zlen es) /\ (list_find (fun p => Some p.1 = Some a) counts ≫= (fun q => Some q.2)) = Some (a, zlen es).
Proof.
  intros -> Hn. cbn zeta. rewrite fmap_app. split; [by rewrite last_app|].
  rewrite list_find_app_r; [cbn; by rewrite decide_True|]. apply list_find_None. apply Forall_forall. intros p (q & -> & Hq)%list_elem_of_fmap [= E].
  apply Hn. apply list_elem_of_fmap. exists q. cbn in E. by rewrite E.
Qed.

(** A hash index that may be behind the log: its references are into the log, and no more is known. *)
Definition behind (I : gmap bytes slot) (L : list segment) : Prop :=
  forall k s, I !! k = Some s -> slot_key s = k /\ s ∈ slots L /\ e_live (s_entry s) = true.

Lemma behind_index L : behind (index ∅ (slots L)) L.
Proof. intros k s Hs. by apply index_key in Hs. Qed.

Lemma behind_empty L : behind ∅ L.
Proof. intros k s Hs. by rewrite lookup_empty in Hs. Qed.

(** Replaying the log brings it up to date. *)
Lemma index_behind I L : behind I L -> index I (slots L) = index ∅ (slots L).
Proof.
  intros Hb. apply map_eq. intros k. rewrite !index_lookup. destruct (last_for k (slots L)) eqn:E; [done|]. rewrite lookup_empty.
  destruct (I !! k) as [s|] eqn:EI; [|done]. destruct (Hb k s EI) as (Hk & Hin & _). by destruct (proj1 (last_for_none k _) E s Hin).
Qed.

Lemma size_behind I L : behind I L -> Z.of_nat (size I) <= zlen (slots L).
Proof.
  intros Hb. unfold zlen. apply inj_le. rewrite <- length_map_to_list, <- (length_fmap fst), <- (length_fmap slot_key).
  apply submseteq_length, NoDup_submseteq; [apply NoDup_fst_map_to_list|]. intros k ([k' s] & -> & Hs%elem_of_map_to_list)%list_elem_of_fmap.
  destruct (Hb k' s Hs) as (<- & Hin & _). apply list_elem_of_fmap. by exists s.
Qed.

(** A well-formed directory loads: the log is the index again. *)
Lemma load_from_disk_wf n (b0 : t) L a I :
  on_disk n (files_ b0) L a -> n <= limit -> hs_holds (hash_index_ b0) (refs_of I) -> behind I L ->
  returns io_fault (load_from_disk crc32c b0) (fun r =>
    r.2 = false /\ wf n r.1 L /\ active r.1 = a /\ manifest_ok (files_ r.1) L a /\
    txn_log (files_ r.1) = txn_log (files_ b0) /\ txn_applied (files_ r.1) = txn_applied (files_ b0) /\
    committed_txn_ids_ r.1 = committed_txn_ids_ b0 /\ tasks_ r.1 = tasks_ b0).
Proof.
  intros O Hn Hh Hbh. pose proof (on_disk_ids _ _ _ _ O) as [Hids Ha]. pose proof O as [O1 O2 O3 O4 O5 O6 O7 O8]. destruct O3 as (old & es & EL).
  assert (Hn0 : 0 <= n) by lia.
  unfold load_from_disk, suppress_rehash. pose proof (hs_suppress_ok _ _ true Hh) as Hsup. destruct (hs_suppress (hash_index_ b0) true) as [prev tb]. cbn [snd] in Hsup.
  set (fs' := apply_merge_recovery_cleanup (files_ b0)). destruct (cleanup_same _ _ _ O1 O7) as (C1 & C2 & C3 & C4 & C5). fold fs' in C1, C2, C3, C4, C5.
  cbn [files_ with_hash with_files]. fold fs'. rewrite (collect_segments_sorted L) by (by rewrite ?C1).
  assert (Hne : L.*1 <> []) by (rewrite EL, fmap_app; intros [_ ?]%app_eq_nil; done).
  set (b1 := with_files (with_hash b0 tb) fs').
  assert (Hst : forall s, s ∈ slots L -> stored (disk_of L) s /\ slot_ok s).
  { apply (slots_stored crc32c n); [done|done| |lia]. eapply Forall_impl; [exact Hids|]. intros id Hid. cbn in Hid. unfold limit in *. lia. }
  assert (Hsg : segments b1 = disk_of L) by (unfold segments; cbn; by rewrite C1).
  pose proof (zlen_slots_bound n L a O2 O5 Hids Ha Hn0) as Hsl.
  assert (Hload : returns io_fault (load_segments crc32c b1 L.*1) (fun r =>
    exists b', r = (b', (fun p => (p.1, zlen p.2)) <$> L, false) /\ hs_holds (hash_index_ b') (refs_of (index ∅ (slots L))) /\ reloaded b1 b')).
  { rewrite <- (index_behind I L Hbh). apply returns_io, (load_segments_wf n); try done; rewrite ?Hsg.
    - intros k s Hs. destruct (Hbh k s Hs) as (Hk & Hin & Hl). split_and!; [done|by apply Hst|done].
    - apply Forall_forall. exact Hst.
    - apply Forall_forall. intros [id es'] Hin. cbn. apply disk_of_lookup; [by apply sorted_nodup|done].
    - pose proof (size_behind I L Hbh). unfold limit in *. nia. }
  destruct L.*1 as [|id0 ids] eqn:Eids; [done|]. rewrite <- Eids in *. clear Hne.
  eapply returns_bind; [exact Hload|]. intros r (b' & -> & Hh' & Hre).
  destruct (chosen_last L old es a EL) as [Hl Hf].
  { rewrite EL in O2. apply sorted_last_max in O2. rewrite Forall_forall in O2. intros Hin. specialize (O2 a Hin). lia. }
  rewrite Hl. cbn [default id].
  assert (Hcur : CURRENT (files_ b') = Some a) by (rewrite (re_files _ _ Hre); cbn; by rewrite C2).
  rewrite Hcur, Hf. cbn [default id fst snd]. rewrite wrap_small by (unfold limit in *; split; lia).
  eapply returns_bind; [by apply (restore_rehash_holds publishes _ (refs_of (index ∅ (slots L))))|]. intros b2 (Hh2 & Hf2 & Hc2 & _ & Hcm2 & Ht2).
  cbn [returns mret outcome_ret fst snd]. cbn [files_ with_counters] in Hf2. cbn [counters_ with_counters] in Hc2.
  assert (Hact : active b2 = a) by (unfold active; by rewrite Hc2).
  assert (Hfs : files_ b2 = fs') by (by rewrite Hf2, (re_files _ _ Hre)).
  split_and!; try done.
  - split; rewrite ?Hact; try done; [unfold segments; by rewrite Hfs, C1|by exists old, es|by rewrite Hc2|by rewrite Hfs, C2].
  - rewrite Hfs. intros m rm id E Hid. destruct C5 as [C5|C5]; rewrite C5 in E; [by eapply O7|done].
  - by rewrite Hfs, C3.
  - by rewrite Hfs, C4.
  - rewrite Hcm2. cbn. by rewrite (re_committed _ _ Hre).
  - rewrite Ht2. cbn. by rewrite (re_tasks _ _ Hre).
Qed.
(** ** The active segment *)

Lemma open_active_wf n b L :
  wf n b L -> returns io_fault (open_active_segment publishes b) (fun b' =>
    wf n b' L /\ active b' = active b /\ txn_log (files_ b') = txn_log (files_ b) /\ txn_applied (files_ b') = txn_applied (files_ b) /\
    merge_manifest (files_ b') = merge_manifest (files_ b) /\ committed_txn_ids_ b' = committed_txn_ids_ b /\ tasks_ b' = tasks_ b).
Proof.
  intros W. unfold open_active_segment. destruct (wf_last _ _ _ _ W) as (old & es & EL).
  assert (Hs : segments b !! active b = Some (log_bytes es)).
  { rewrite (wf_data _ _ _ _ W), EL. apply disk_of_lookup; [rewrite <- EL; apply sorted_nodup, W|]. apply elem_of_app. right. by left. }
  rewrite Hs. unfold write_current_segment_id. destruct (publishes _) eqn:Epub; [|by eapply not_published]. cbn [returns mret outcome_ret]. split_and!; try done.
  destruct W as [W1 W2 W3 W4 W5 W6 W7 W8 W9]. by split.
Qed.

(** ** The constructor *)

(** What an opened index is: well formed, with nothing pending and a manifest that has been obeyed. *)
Definition opened (lo n : Z) (M : index_map) (b : t) : Prop :=
  (exists L, wf n b L /\ view L = M /\ manifest_ok (files_ b) L (active b) /\ Forall (Z.le lo) L.*1) /\ logged (files_ b) [].

(** Segments that are added come after the active one. *)
Lemma ids_grow lo n b L (L' : list segment) : wf n b L -> imm (active b) L' = imm (active b) L -> Forall (Z.le lo) L.*1 -> Forall (Z.le lo) L'.*1.
Proof.
  intros W Hi Hk. rewrite Forall_forall in Hk. apply Forall_forall. intros id Hid. apply list_elem_of_fmap in Hid as (p & -> & Hp).
  destruct (decide (p.1 < active b)) as [Hlt|Hge].
  - apply Hk. assert (Hin : p ∈ imm (active b) L') by (by apply list_elem_of_filter). rewrite Hi in Hin. apply list_elem_of_filter in Hin as [_ Hin].
    apply list_elem_of_fmap. by exists p.
  - assert (Ha : active b ∈ L.*1). { destruct (wf_last _ _ _ _ W) as (old & es & ->). rewrite fmap_app. apply elem_of_app. right. by left. }
    specialize (Hk _ Ha). lia.
Qed.

(** A directory in good order opens: its log with the pending frames of the committed
    transactions applied. *)
Lemma create_wf lo n fs tb committed L a I pending :
  on_disk n fs L a -> Forall (Z.le lo) L.*1 -> hs_holds tb (refs_of I) -> behind I L -> logged fs pending -> n + weight pending <= limit ->
  returns io_fault (create crc32c publishes flush_threshold_ segment_record_limit_ fs tb committed) (fun r =>
    exists b, r = Some b /\ opened lo (n + weight pending) (m_frames committed (view L) pending) b).
Proof.
  intros O Hlo Hh Hbh Hlog Hn. pose proof (weight_nonneg pending) as Hw. unfold create. eapply returns_bind; [apply (load_from_disk_wf n (fresh fs tb committed) L a I O ltac:(lia) Hh Hbh)|].
  intros [b crc] (Hcrc & W & Ha & Hm & Ht & Hap & Hc & Htk). cbn [fst snd] in *. subst crc. cbn [fresh files_ committed_txn_ids_] in *.
  eapply returns_bind; [by apply (open_active_wf n b L)|]. intros b1 (W1 & A1 & T1 & P1 & M1 & C1 & _).
  eapply returns_bind; [apply (recover_txn_log_wf crc32c publishes flush_threshold_ segment_record_limit_ n b1 L pending W1); [|done]|].
  { destruct Hlog as (done & H1 & H2 & H3). exists done. by rewrite T1, P1, Ht, Hap. }
  intros b2 (L2 & W2 & Hv & Hm2 & Hl2 & Ha2 & Hi2). exists b2. split; [done|]. rewrite C1, Hc in Hv. split.
  - exists L2. split_and!; [done|done| |eapply (ids_grow lo n b1 L L2 W1); [by apply Hi2|done]]. eapply (manifest_grow _ L L2 (active b1)); [|done|by apply Hi2].
    intros m rm id E Hid. rewrite A1, Ha. apply (Hm m rm); [|done]. by rewrite <- M1, <- Hm2.
  - done.
Qed.

(** Loading an empty directory. *)
Lemma load_empty (b : t) :
  files_ b = no_files -> hs_holds (hash_index_ b) [] ->
  returns io_fault ('(b, _) ← load_from_disk crc32c b; open_active_segment publishes b) (fun b' => opened 2 0 ∅ b' /\ txn_log (files_ b') = None).
Proof.
  intros Hf Hh. unfold load_from_disk, suppress_rehash. pose proof (hs_suppress_ok _ _ true Hh) as Hsup.
  destruct (hs_suppress (hash_index_ b) true) as [prev tb]. cbn [snd] in Hsup. cbn [files_ with_hash with_files]. rewrite Hf.
  change (apply_merge_recovery_cleanup no_files) with no_files. change (collect_segments no_files) with (@nil Z). cbn iota.
  eapply returns_bind with (P := fun p : t * bool => files_ p.1 = no_files /\ hs_holds (hash_index_ p.1) [] /\ active p.1 = 2 /\ next_segment_id_ (counters_ p.1) = 3).
  - eapply returns_bind; [by apply (restore_rehash_holds publishes _ [])|]. intros b1 (Hh1 & Hf1 & Hc1 & _). cbn. unfold active. by rewrite Hf1, Hc1.
  - intros [b1 f] (Hf1 & Hh1 & Ha & Hn). cbn [fst snd] in *. unfold open_active_segment, segments. rewrite Hf1, Ha. cbn [data no_files].
    rewrite lookup_empty. unfold write_current_segment_id. destruct (publishes _) eqn:Epub; [|by eapply not_published]. cbn [returns mret outcome_ret]. split; [|cbn; by rewrite Hf1]. split.
    + exists [(2, [])]. split_and!; [|done|intros m rm id E; cbn in E; by rewrite Hf1 in E|by repeat constructor].
      assert (Ha2 : active_segment_id_ (counters_ b1) = 2) by exact Ha. split; unfold segments, active; cbn; rewrite ?Hf1, ?Ha2, ?Hn; try done.
      * unfold segments. by rewrite Hf1.
      * repeat constructor.
      * by exists [], [].
      * constructor; [|done]. split_and!; [done|constructor|done].
    + exists []. cbn. by rewrite Hf1.
Qed.

(** A new index is empty. *)
Lemma create_empty tb committed :
  hs_holds tb [] ->
  returns io_fault (create crc32c publishes flush_threshold_ segment_record_limit_ no_files tb committed) (fun r => exists b, r = Some b /\ opened 2 0 ∅ b).
Proof.
  intros Hh. pose proof (load_empty (fresh no_files tb committed) eq_refl Hh) as Hl. unfold create.
  assert (Hcrc : returns (fun _ => True) (load_from_disk crc32c (fresh no_files tb committed)) (fun p => p.2 = false)).
  { unfold load_from_disk, suppress_rehash. destruct (hs_suppress _ true) as [prev tb']. change (collect_segments (files_ _)) with (@nil Z). cbn iota.
    by destruct (restore_rehash _ prev). }
  destruct (load_from_disk crc32c (fresh no_files tb committed)) as [[b crc]|e]; cbn [mbind outcome_bind] in *; [|done].
  cbn in Hcrc. subst crc. eapply returns_bind; [exact Hl|]. intros b1 [Ho Ht]. unfold recover_txn_log_unlocked. rewrite Ht. cbn. by exists b1.
Qed.

(** ** Closing, reopening and clearing, with no merge queued *)

Lemma reopen_wf lo n b L committed pending :
  wf n b L -> Forall (Z.le lo) L.*1 -> manifest_ok (files_ b) L (active b) -> logged (files_ b) pending -> n + weight pending <= limit -> tasks_ b = 0%nat ->
  returns io_fault (reopen crc32c publishes flush_threshold_ segment_record_limit_ b committed) (fun r =>
    exists b', r = Some b' /\ opened lo (n + weight pending) (m_frames committed (view L) pending) b').
Proof.
  intros W Hlo Hm Hlog Hn Ht. pose proof (weight_nonneg pending). unfold reopen, close, stop_tasks, force_flush. destruct (force_flush_same b) as (Ff & Fh & Fc & Fm).
  assert (Htk : tasks_ (force_flush_unlocked b) = 0%nat) by (unfold force_flush_unlocked; by destruct (dirty_ (flush_ b))). rewrite Htk. cbn [run_tasks mbind outcome_bind mret outcome_ret files_ hash_index_ with_tasks].
  rewrite Ff, Fh. eapply returns_bind; [apply returns_io, hs_reopen_ok; [apply W|]|].
  { rewrite zlen_refs. pose proof (wf_size _ _ _ _ W). unfold limit in *. split; lia. }
  intros tb Htb. apply (create_wf lo n (files_ b) tb committed L (active b) (index ∅ (slots L)) pending); [by apply wf_on_disk|done|done|apply behind_index|done|done].
Qed.

Lemma clear_wf n b L :
  wf n b L -> tasks_ b = 0%nat -> returns io_fault (clear crc32c publishes b) (opened 2 0 ∅).
Proof.
  intros W Ht. unfold clear, stop_tasks. rewrite Ht. cbn [run_tasks mbind outcome_bind mret outcome_ret hash_index_ with_tasks bulk_ committed_txn_ids_].
  eapply returns_bind; [apply returns_io, (hs_clear_ok _ _ (wf_hash _ _ _ _ W))|]. intros tb Htb. eapply returns_mono; [by apply load_empty|]. by intros b' [? _].
Qed.
End opening.
