(* ===== verification/BitcaskMerge.v ===== *)
(** * Merging segments

    A merge takes the references into the segments before the active one, copies their
    entries to a new segment without holding the lock, and moves the references that have not
    changed meanwhile before it removes the old segments. The invariants of the two
    intermediate states are kept by every write in between, and the whole leaves the view of the
    index as it was. *)

From S2P Require Import Prelude.
From S2P Require Import Bytes.
From S2P Require Import DiskHashTable.
From S2P Require Import DiskHashPage.
From S2P Require Import DiskHashChain.
From S2P Require Import DiskHashSpec.
From S2P Require Import HashStorage.
From S2P Require Import IndexCodec.
From S2P Require Import Bitcask.
From S2P Require Import BitcaskLog.
From S2P Require Import BitcaskSpec.
From S2P Require Import BitcaskOps.
From S2P Require Import BitcaskOpen.
Import bitcask_index_disk.
#[local] Open Scope Z_scope.

(** ** The log before and from a segment on *)

Lemma filter_all {A} (P : A -> Prop) `{forall x, Decision (P x)} l : Forall P l -> filter P l = l.
Proof. induction 1 as [|x l Hx _ IH]; [done|]. rewrite filter_cons, decide_True by done. by rewrite IH. Qed.

Lemma filter_none {A} (P : A -> Prop) `{forall x, Decision (P x)} l : Forall (fun x => ~ P x) l -> filter P l = [].
Proof. induction 1 as [|x l Hx _ IH]; [done|]. by rewrite filter_cons, decide_False. Qed.

Lemma imm_rest F (L : list segment) : StronglySorted Z.lt L.*1 -> L = imm F L ++ rest F L.
Proof.
  intros Hs. induction L as [|p L IH]; [done|]. cbn in Hs. apply StronglySorted_inv in Hs as [Hs Hp]. unfold imm, rest in *. rewrite !filter_cons.
  destruct (decide (p.1 < F)) as [Hlt|Hge].
  - rewrite decide_False by (intros H; by apply H). cbn. by rewrite <- IH.
  - rewrite decide_True by done. rewrite Forall_fmap in Hp.
    rewrite filter_none by (eapply Forall_impl; [exact Hp|]; cbn; lia). cbn. f_equal. symmetry. apply filter_all.
    eapply Forall_impl; [exact Hp|]. cbn. lia.
Qed.

Lemma imm_below F (L : list segment) : Forall (fun p => p.1 < F) (imm F L).
Proof. apply Forall_forall. by intros p [? _]%list_elem_of_filter. Qed.

Lemma rest_above F (L : list segment) : Forall (fun p => F <= p.1) (rest F L).
Proof. apply Forall_forall. intros p [Hp _]%list_elem_of_filter. lia. Qed.

Lemma imm_split F (old R : list segment) : Forall (fun p => p.1 < F) old -> Forall (fun p => F <= p.1) R -> imm F (old ++ R) = old /\ rest F (old ++ R) = R.
Proof.
  intros Ho HR. unfold imm, rest. rewrite !filter_app, (filter_all _ old), (filter_none _ R), (filter_none _ old), (filter_all _ R); try done.
  - by rewrite app_nil_r.
  - eapply Forall_impl; [exact HR|]. cbn. lia.
  - eapply Forall_impl; [exact Ho|]. cbn. lia.
  - eapply Forall_impl; [exact HR|]. cbn. lia.
Qed.

Section merge.
Context {T : Type} {HS : HashStorage T} {HSO : HashStorageOk T} (crc32c : bytes -> Z) (publishes : sidecar -> bool).

#[local] Abbreviation io_fault := (io_fault publishes).
#[local] Abbreviation t := (t (T := T)).
#[local] Abbreviation slots := (slots crc32c).
#[local] Abbreviation places := (places crc32c).
#[local] Abbreviation stored := (stored crc32c).
#[local] Abbreviation view := (view crc32c).
#[local] Abbreviation wf := (wf crc32c).
#[local] Abbreviation log_bytes := (log_bytes crc32c).
#[local] Abbreviation disk_of := (disk_of crc32c).
#[local] Abbreviation readable := (readable crc32c).
#[local] Abbreviation evolves := (evolves crc32c).

Lemma slots_file_below F (old : list segment) s : Forall (fun p => p.1 < F) old -> s ∈ slots old -> s_file s < F.
Proof.
  intros Ho (id & es & Hin & Hs)%elem_of_slots. apply places_file in Hs as ->. rewrite Forall_forall in Ho. by apply (Ho (id, es)).
Qed.

Lemma slots_file_above F (R : list segment) s : Forall (fun p => F <= p.1) R -> s ∈ slots R -> F <= s_file s.
Proof.
  intros Ho (id & es & Hin & Hs)%elem_of_slots. apply places_file in Hs as ->. rewrite Forall_forall in Ho. by apply (Ho (id, es)).
Qed.

(** ** The plan *)

(** [P] are the references taken, [old] the segments to merge and [R] the log from the frontier
    on, which may grow: a key without an entry in [R] is in the plan exactly as the old segments have it. *)
Record planned (n F : Z) (P : gmap bytes slot) (plan : merge_plan) (old R : list segment) : Prop := {
  pl_old : Forall (fun p => p.1 < F) old;
  pl_above : Forall (fun p => F <= p.1) R;
  pl_refs : p_refs plan ≡ₚ vref <$> refs_of P;
  pl_nonempty : P <> ∅;
  pl_size : Z.of_nat (size P) <= n;
  pl_removed : p_removed plan = old.*1;
  pl_merged : exists front, head old.*1 = Some front /\ p_merged plan = front - 1 /\ 1 <= front;
  pl_sub k s : P !! k = Some s -> index ∅ (slots old) !! k = Some s;
  pl_rest k : last_for k (slots R) = None -> P !! k = index ∅ (slots old) !! k;
}.

Lemma planned_grow n m F P plan old R R' :
  planned n F P plan old R -> n <= m -> Forall (fun p => F <= p.1) R' -> (exists more, slots R' = slots R ++ more) -> planned m F P plan old R'.
Proof.
  intros [P1 P2 P3 P4 P5 P6 P7 P8 P9] Hm HR' [more E]. split; try done; [lia|]. intros k Hk. apply P9. rewrite E, last_for_app in Hk.
  by destruct (last_for k more).
Qed.

Lemma filter_refs (F : Z) (I : gmap bytes slot) :
  filter (fun v => disk_hash_table.log_file_id v < F) (vref <$> refs_of I) ≡ₚ vref <$> refs_of (filter (fun p => s_file p.2 < F) I).
Proof.
  unfold refs_of. rewrite map_filter_alt, map_to_list_to_map.
  - generalize (map_to_list I). intros l. induction l as [|p l IH]; [done|]. rewrite !fmap_cons, !filter_cons.
    change (disk_hash_table.log_file_id (vref (mkref p.1 p.2))) with (s_file p.2). case_decide; [|done]. cbn. by rewrite IH.
  - apply (NoDup_fmap_fst _); [|apply NoDup_filter, NoDup_map_to_list].
    intros k x y [_ Hx]%list_elem_of_filter [_ Hy]%list_elem_of_filter. apply elem_of_map_to_list in Hx, Hy. congruence.
Qed.

Lemma plan_of_index n (F : Z) plan (L : list segment) front :
  StronglySorted Z.lt L.*1 -> Z.of_nat (size (index ∅ (slots L))) <= n ->
  let P := filter (fun p => s_file p.2 < F) (index ∅ (slots L)) in
  P <> ∅ -> p_refs plan ≡ₚ vref <$> refs_of P -> p_removed plan = (imm F L).*1 -> head (imm F L).*1 = Some front -> p_merged plan = front - 1 -> 1 <= front ->
  planned n F P plan (imm F L) (rest F L).
Proof.
  intros Hs Hn P Hne Hrefs Hrm Hhd Hm Hf.
  assert (EI : forall k, index ∅ (slots L) !! k = match last_for k (slots (rest F L)) with Some s => if e_live (s_entry s) then Some s else None | None => index ∅ (slots (imm F L)) !! k end).
  { intros k. rewrite (imm_rest F L Hs) at 1. rewrite slots_log_app, index_app. apply index_lookup. }
  split; try done.
  - apply imm_below.
  - apply rest_above.
  - assert (size P <= size (index ∅ (slots L)))%nat; [|lia]. apply map_subseteq_size, map_filter_subseteq.
  - by exists front.
  - intros k s Hk. apply map_lookup_filter_Some in Hk as [Hk Hlt]. cbn in Hlt. rewrite EI in Hk. destruct (last_for k (slots (rest F L))) as [s'|] eqn:E; [|done].
    destruct (e_live (s_entry s')); [|done]. injection Hk as ->. apply last_for_key in E as [_ Hin]. pose proof (slots_file_above F _ _ (rest_above F L) Hin). lia.
  - intros k Hk. pose proof (EI k) as E. rewrite Hk in E. unfold P. destruct (index ∅ (slots (imm F L)) !! k) as [s|] eqn:Ei.
    + apply map_lookup_filter_Some. split; [done|]. cbn. apply index_key in Ei as (_ & Hin & _). eapply slots_file_below; [apply imm_below|done].
    + apply map_lookup_filter_None. by left.
Qed.

(** Nothing but the hash index and the memory of bulk mode changes. *)
Definition same_files (b b' : t) : Prop := files_ b' = files_ b /\ counters_ b' = counters_ b /\ committed_txn_ids_ b' = committed_txn_ids_ b /\ tasks_ b' = tasks_ b.

Lemma wf_same_files n b b' L : wf n b L -> same_files b b' -> hs_holds (hash_index_ b') (refs_of (index ∅ (slots L))) -> wf n b' L.
Proof. intros [W1 W2 W3 W4 W5 W6 W7 W8 W9] (Hf & Hc & _) Hh. split; unfold segments, active in *; rewrite ?Hf, ?Hc; done. Qed.

(** The first locked part, when no segment has the id 0. *)
Lemma merge_begin_wf n b L :
  wf n b L -> n <= limit -> Forall (Z.le 1) L.*1 ->
  exists r, merge_begin b = Ok r /\ wf n r.2 L /\ same_files b r.2 /\
    match r.1 with None => True | Some plan => exists P, planned n (active b) P plan (imm (active b) L) (rest (active b) L) end.
Proof.
  intros W Hn H1. pose proof (wf_ids _ _ _ _ W) as Hids. unfold merge_begin. set (F := active b).
  rewrite (collect_segments_sorted crc32c L) by (done || apply W).
  assert (Eimm : filter (fun id => id < F) L.*1 = (imm F L).*1). { unfold imm. clear. induction L as [|p L IH]; [done|]. rewrite fmap_cons, !filter_cons. case_decide; cbn; by rewrite ?IH. }
  rewrite Eimm. destruct (imm F L).*1 as [|front immutable] eqn:Ei.
  { exists (None, b). split_and!; try done. }
  unfold suppress_rehash. pose proof (hs_suppress_ok _ _ true (wf_hash _ _ _ _ W)) as Hs. destruct (hs_suppress (hash_index_ b) true) as [prev tb]. cbn [snd] in Hs.
  set (b1 := with_bulk _ _). assert (W1 : wf n b1 L) by (by eapply wf_same_files).
  destruct (hs_for_each_ok tb _ Hs) as (vs & Ev & Hp). cbn [hash_index_ b1 with_bulk with_hash]. rewrite Ev. cbn [mbind outcome_bind].
  assert (HF : u32 F = F). { apply wrap_small. pose proof (wf_bound _ _ _ _ W). assert (0 <= F) by (destruct (wf_last _ _ _ _ W) as (old & es & ->); pose proof (wf_segs _ _ _ _ W) as Hsg; apply Forall_app in Hsg as [_ Hsg]; by apply Forall_cons in Hsg as [(? & _) _]). unfold limit in *. unfold F in *. split; lia. }
  rewrite HF. assert (Hf : filter (fun v => disk_hash_table.log_file_id v < F) vs ≡ₚ vref <$> refs_of (filter (fun p => s_file p.2 < F) (index ∅ (slots L)))) by (rewrite Hp; apply filter_refs).
  destruct (filter _ vs) as [|v refs] eqn:Er.
  - eexists. split; [done|]. cbn [fst snd]. pose proof (hs_suppress_ok _ _ prev (wf_hash _ _ _ _ W1)) as Hs2. cbn [hash_index_ b1 with_bulk with_hash] in *.
    destruct (hs_suppress tb prev) as [p2 tb2]. split_and!; [by eapply wf_same_files|done|done].
  - eexists. split; [done|]. cbn [fst snd]. split_and!; [done|done|]. eexists.
    assert (H1f : 1 <= front). { rewrite Forall_forall in H1. apply H1. assert (Hin : front ∈ (imm F L).*1) by (rewrite Ei; by left). apply list_elem_of_fmap in Hin as (p & -> & [_ Hp']%list_elem_of_filter). apply list_elem_of_fmap. by exists p. }
    apply (plan_of_index n F _ L front); try done; try apply W.
    + intros E. rewrite E, refs_of_empty in Hf. apply Permutation_nil_r in Hf. done.
    + by rewrite Ei.
    + cbn. apply wrap_small. assert (front < F). { assert (Hin : front ∈ (imm F L).*1) by (rewrite Ei; by left). apply list_elem_of_fmap in Hin as (p & -> & [? _]%list_elem_of_filter). done. }
      pose proof (wf_bound _ _ _ _ W). unfold limit, F in *. split; lia.
Qed.
(** ** Copying the entries *)

(** A reference of the plan and the slot of its copy. *)
Abbreviation item := ((bytes * slot) * slot)%type.

Definition meta_bytes (items : list item) : bytes :=
  items ≫= (fun it => meta_entry it.1.1 (s_file it.1.2) (s_off it.1.2) (row_value (e_rows (s_entry it.1.2))) (s_off it.2)).

Definition copy_of (p : bytes * slot) (e : entry) : Prop :=
  e_live e = true /\ e_key e = plain (e_key (s_entry p.2)) /\ e_rows e = e_rows (s_entry p.2) /\ entry_ok e.

(** Only the last timestamp has changed. *)
Record stamped (b b' : t) : Prop := {
  sm_files : files_ b' = files_ b;
  sm_hash : hash_index_ b' = hash_index_ b;
  sm_active : active b' = active b;
  sm_next : next_segment_id_ (counters_ b') = next_segment_id_ (counters_ b);
  sm_bulk : bulk_ b' = bulk_ b;
  sm_committed : committed_txn_ids_ b' = committed_txn_ids_ b;
  sm_tasks : tasks_ b' = tasks_ b;
}.

Lemma stamped_trans b1 b2 b3 : stamped b1 b2 -> stamped b2 b3 -> stamped b1 b3.
Proof. intros [] []. split; congruence. Qed.

Definition readable_item (segs : gmap Z bytes) (p : bytes * slot) : Prop := slot_key p.2 = p.1 /\ stored segs p.2 /\ e_live (s_entry p.2) = true.

Lemma merge_records_wf id ps b merged meta c :
  Forall (readable_item (segments b)) ps -> 0 <= c -> c + zlen ps < 2 ^ 64 ->
  exists b' mes, merge_records crc32c b ((fun p => vref (mkref p.1 p.2)) <$> ps) merged meta c =
      Ok (b', merged ++ log_bytes mes, meta ++ meta_bytes (zip ps (places id (zlen merged) mes)), c + zlen ps) /\
    stamped b b' /\ Forall2 copy_of ps mes.
Proof.
  revert b merged meta c. induction ps as [|[k s] ps IH]; intros b merged meta c Hps Hc Hlen; cbn [fmap list_fmap merge_records].
  { exists b, []. cbn. rewrite !app_nil_r, Z.add_0_r. done. }
  apply Forall_cons in Hps as [(Hk & Hst & Hl) Hps]. cbn [fst snd] in *. rewrite zlen_cons in *. pose proof (zlen_nonneg ps).
  cbn [vref mkref r_file r_off disk_hash_table.log_file_id disk_hash_table.log_offset]. rewrite (stored_read _ _ _ Hst), Hl. cbn [mbind outcome_bind].
  assert (He : entry_ok (s_entry s)) by (by destruct Hst as (_ & _ & _ & _ & _ & _ & ? & _)). pose proof He as [Hkey Hts Hr Hcnt].
  rewrite key_bytes_plain, key_of_eq by apply Hkey. cbn [mbind outcome_bind]. change (key_of (e_key (s_entry s))) with (slot_key s). rewrite Hk.
  set (ts := u64 (next_timestamp_ (counters_ b) + 1)). set (e := Entry true ts (plain (e_key (s_entry s))) (e_rows (s_entry s))).
  assert (Hoe : entry_ok e) by (split; [by apply key_ok_plain|apply wrap_width; lia|done|done]).
  change (serialize_payload _ _) with (serialize_payload (e_key e) (e_rows e)). rewrite serialize_entry by done. cbn [mbind outcome_bind].
  change (write_record crc32c kind_value ts (payload e)) with (encode crc32c e).
  rewrite wrap_small by (split; lia).
  destruct (IH (with_timestamp b ts) (merged ++ encode crc32c e)
              (meta ++ meta_entry k (s_file s) (s_off s) (row_value (e_rows (s_entry s))) (zlen merged + record_header_size)) (c + 1) Hps ltac:(lia) ltac:(lia))
    as (b' & mes & E & Hb & Hc').
  exists b', (e :: mes). split_and!; [|eapply stamped_trans; [|exact Hb]; done|by constructor].
  rewrite E. replace (c + 1 + zlen ps) with (c + (zlen ps + 1)) by lia. rewrite <- (app_assoc merged), <- (app_assoc meta).
  unfold BitcaskLog.log_bytes, meta_bytes. cbn [BitcaskLog.places zip zip_with mbind list_bind fst snd s_off]. by rewrite zlen_app.
Qed.

(** ** Moving the references *)

Definition repoint (I : gmap bytes slot) (it : item) : gmap bytes slot :=
  match I !! it.1.1 with
  | Some c => if bool_decide (s_file c = s_file it.1.2 /\ s_off c = s_off it.1.2) then <[it.1.1 := it.2]> I else I
  | None => I
  end.

Record item_ok (segs : gmap Z bytes) (it : item) : Prop := {
  it_key : slot_key it.2 = it.1.1;
  it_len : zlen it.1.1 < 2 ^ 32;
  it_old : slot_ok it.1.2;
  it_new : slot_ok it.2;
  it_stored : stored segs it.2;
  it_live : e_live (s_entry it.2) = true;
  it_rows : e_rows (s_entry it.2) = e_rows (s_entry it.1.2);
}.

Lemma readable_repoint segs I it : readable segs I -> item_ok segs it -> readable segs (repoint I it).
Proof.
  intros Hr [Hk _ _ _ Hst Hl _]. unfold repoint. destruct (I !! it.1.1) as [c|]; [|done]. case_bool_decide; [|done].
  intros k s. rewrite lookup_insert_Some. intros [[<- <-]|[_ Hs]]; [done|by apply Hr].
Qed.

Lemma size_repoint I it : size (repoint I it) = size I.
Proof. unfold repoint. destruct (I !! it.1.1) as [c|] eqn:E; [|done]. case_bool_decide; [|done]. by rewrite map_size_insert, E. Qed.

(** One entry of the [.meta] file. *)
Lemma read_meta_entry l a c k fid off v noff :
  l = a ++ meta_entry k fid off v noff ++ c -> zlen k < 2 ^ 32 -> in_width 32 fid -> in_width 64 off -> in_signed64 v -> in_width 64 noff ->
  read_le 4 l (zlen a) = Ok (zlen k) /\ read_bytes l (zlen a + 4) (zlen k) = Ok k /\ read_le 4 l (zlen a + 4 + zlen k) = Ok fid /\
  read_le 8 l (zlen a + 4 + zlen k + 4) = Ok off /\ read_le 8 l (zlen a + 4 + zlen k + 12) = Ok (v mod 2 ^ 64) /\
  read_le 8 l (zlen a + 4 + zlen k + 20) = Ok noff.
Proof.
  intros -> Hk Hf Ho Hv Hn. pose proof (zlen_nonneg k). unfold meta_entry. rewrite wrap_small by (split; lia). rewrite <- !app_assoc. split_and!.
  - by apply (read_le_in _ a 4 (zlen k) (k ++ write_le 4 fid ++ write_le 8 off ++ write_le 8 v ++ write_le 8 noff ++ c)).
  - apply (read_bytes_in _ (a ++ write_le 4 (zlen k)) k (write_le 4 fid ++ write_le 8 off ++ write_le 8 v ++ write_le 8 noff ++ c)); [by rewrite <- !app_assoc|len|done].
  - apply (read_le_in _ (a ++ write_le 4 (zlen k) ++ k) 4 fid (write_le 8 off ++ write_le 8 v ++ write_le 8 noff ++ c)); [by rewrite <- !app_assoc|len|exact Hf].
  - apply (read_le_in _ (a ++ write_le 4 (zlen k) ++ k ++ write_le 4 fid) 8 off (write_le 8 v ++ write_le 8 noff ++ c)); [by rewrite <- !app_assoc|len|exact Ho].
  - apply (read_le_any _ (a ++ write_le 4 (zlen k) ++ k ++ write_le 4 fid ++ write_le 8 off) 8 v (write_le 8 noff ++ c)); [by rewrite <- !app_assoc|len].
  - apply (read_le_in _ (a ++ write_le 4 (zlen k) ++ k ++ write_le 4 fid ++ write_le 8 off ++ write_le 8 v) 8 noff c); [by rewrite <- !app_assoc|len|exact Hn].
Qed.

Lemma zlen_meta_entry k fid off v noff : zlen (meta_entry k fid off v noff) = 4 + zlen k + 28.
Proof. unfold meta_entry. rewrite !zlen_app, !zlen_write_le. lia. Qed.

Lemma merge_apply_wf items segs a l fuel tb I merged :
  hs_holds tb (refs_of I) -> readable segs I -> Forall (item_ok segs) items -> Forall (fun it => s_file it.2 = u32 merged) items ->
  l = a ++ meta_bytes items -> (length items < fuel)%nat -> Z.of_nat (size I) + 1 < 2 ^ 64 ->
  returns refused (merge_apply (load_hash_key_at_unlocked crc32c segs) fuel tb l (zlen a) merged) (fun tb' => hs_holds tb' (refs_of (foldl repoint I items))).
Proof.
  revert a l fuel tb I. induction items as [|[[k s] s'] items IH]; intros a l fuel tb I Hh Hr Hok Hm -> Hfuel Hn; (destruct fuel as [|fuel]; [lia|]); cbn [merge_apply foldl].
  { cbn [meta_bytes mbind list_bind]. rewrite app_nil_r, bool_decide_false by lia. done. }
  apply Forall_cons in Hok as [Hit Hok]. apply Forall_cons in Hm as [Hm1 Hm]. pose proof Hit as [Hk Hlen [So1 So2 So3] [Sn1 Sn2 Sn3] Hst Hl Hrows]. cbn [fst snd] in *.
  set (l := a ++ meta_bytes _). set (v := row_value (e_rows (s_entry s))).
  assert (El : l = a ++ meta_entry k (s_file s) (s_off s) v (s_off s') ++ meta_bytes items) by done.
  pose proof (zlen_meta_entry k (s_file s) (s_off s) v (s_off s')) as Hlm. pose proof (zlen_nonneg k). pose proof (zlen_nonneg (meta_bytes items)).
  destruct (read_meta_entry l a (meta_bytes items) k (s_file s) (s_off s) v (s_off s') El Hlen So1 So2 ltac:(apply row_value_signed, So3) Sn2) as (R1 & R2 & R3 & R4 & R5 & R6).
  rewrite bool_decide_true by (rewrite El, !zlen_app, Hlm; lia). cbn [negb]. rewrite R1, R2. cbn [mbind outcome_bind]. rewrite R3. cbn [mbind outcome_bind].
  rewrite R4. cbn [mbind outcome_bind]. rewrite R5. cbn [mbind outcome_bind]. rewrite R6. cbn [mbind outcome_bind mret outcome_ret].
  rewrite s64_mod by apply row_value_signed, So3. rewrite (hash_get crc32c segs tb I k Hh Hr). cbn [mbind outcome_bind].
  assert (Enext : zlen a + 4 + zlen k + 28 = zlen (a ++ meta_entry k (s_file s) (s_off s) v (s_off s'))) by (rewrite zlen_app, Hlm; lia).
  assert (Hgo : forall tb1 I1, hs_holds tb1 (refs_of I1) -> I1 = repoint I (k, s, s') ->
    returns refused (merge_apply (load_hash_key_at_unlocked crc32c segs) fuel tb1 l (zlen a + 4 + zlen k + 28) merged) (fun tb' => hs_holds tb' (refs_of (foldl repoint (repoint I (k, s, s')) items)))).
  { intros tb1 I1 Hh1 ->. rewrite Enext. apply IH; try done; [by apply readable_repoint|by rewrite El, <- app_assoc|cbn [length] in Hfuel; lia|by rewrite size_repoint]. }
  unfold repoint in Hgo. cbn [fst snd] in Hgo. destruct (I !! k) as [c|] eqn:Ec; cbn [fmap option_fmap option_map vref mkref r_file r_off disk_hash_table.log_file_id disk_hash_table.log_offset];
    [|unfold repoint; cbn [fst snd]; rewrite Ec; by eapply Hgo].
  unfold repoint. cbn [fst snd]. rewrite Ec. case_bool_decide; cbn [negb]; [|by eapply Hgo].
  eapply returns_bind; [by apply (hash_erase_all crc32c segs tb I k)|]. intros tb1 Htb1. rewrite <- Hm1. unfold v. rewrite <- Hrows. rewrite <- Hk in *.
  eapply returns_bind; [by apply (hash_put tb1 I s')|]. intros [u tb2] Htb2. by eapply Hgo.
Qed.
(** ** The merged segment *)

Record built (n F : Z) (P : gmap bytes slot) (plan : merge_plan) (old R : list segment) (mes : list entry) (meta : bytes) : Prop := {
  bu_plan : planned n F P plan old R;
  bu_meta : exists ps, ps ≡ₚ map_to_list P /\ Forall2 copy_of ps mes /\ meta = meta_bytes (zip ps (places (p_merged plan) 0 mes));
}.

Lemma built_grow n m F P plan old R R' mes meta :
  built n F P plan old R mes meta -> n <= m -> Forall (fun p => F <= p.1) R' -> (exists more, slots R' = slots R ++ more) -> built m F P plan old R' mes meta.
Proof. intros [B1 B2] Hm HR' Hmore. split; [by eapply planned_grow|done]. Qed.

Lemma zip_places ps m off mes :
  Forall2 copy_of ps mes ->
  (zip ps (places m off mes)).*1 = ps /\ Forall (fun it => it.2 ∈ places m off mes /\ copy_of it.1 (s_entry it.2)) (zip ps (places m off mes)).
Proof.
  intros H. revert off. induction H as [|p e ps mes Hc _ IH]; intros off; cbn; [done|]. destruct (IH (off + zlen (encode crc32c e))) as [E Hall]. split.
  - by rewrite E.
  - constructor; [split; [by left|done]|]. eapply Forall_impl; [exact Hall|]. intros it [? ?]. split; [by right|done].
Qed.

Lemma copies_keys ps m off mes :
  Forall2 copy_of ps mes -> Forall (fun p => slot_key p.2 = p.1 /\ value_ok (e_key (s_entry p.2))) ps -> slot_key <$> places m off mes = ps.*1.
Proof.
  intros H Hk. revert off. induction H as [|p e ps mes (_ & Ek & _) _ IH]; intros off; cbn; [done|]. apply Forall_cons in Hk as [[Hk Hv] Hks].
  rewrite IH by done. f_equal. unfold slot_key in *. cbn. by rewrite Ek, key_of_plain.
Qed.

(** The plan's references as a list. *)
Lemma plan_list n F P plan old R :
  planned n F P plan old R ->
  exists ps, p_refs plan = (fun p => vref (mkref p.1 p.2)) <$> ps /\ ps ≡ₚ map_to_list P.
Proof.
  intros Hp. pose proof (pl_refs _ _ _ _ _ _ Hp) as Hr. unfold refs_of in Hr. rewrite <- list_fmap_compose in Hr. apply Permutation_map_inv in Hr as (ps & E & Hps).
  exists ps. by split.
Qed.

Lemma plan_slot n F P plan old R k s :
  planned n F P plan old R -> P !! k = Some s -> slot_key s = k /\ s ∈ slots old /\ e_live (s_entry s) = true.
Proof. intros Hp Hk. apply (pl_sub _ _ _ _ _ _ Hp) in Hk. by apply index_key in Hk. Qed.

Lemma plan_items n F P plan old R ps :
  planned n F P plan old R -> ps ≡ₚ map_to_list P -> Forall (fun p => P !! p.1 = Some p.2 /\ slot_key p.2 = p.1 /\ p.2 ∈ slots old /\ e_live (s_entry p.2) = true) ps.
Proof.
  intros Hp Hps. apply Forall_forall. intros [k s] Hin. rewrite Hps in Hin. apply elem_of_map_to_list in Hin. split; [done|]. by eapply plan_slot.
Qed.

Lemma plan_nodup P (ps : list (bytes * slot)) : ps ≡ₚ map_to_list P -> NoDup ps.*1.
Proof. intros Hps. rewrite Hps. apply NoDup_fst_map_to_list. Qed.

Lemma last_for_unique (ss : list slot) s : NoDup (slot_key <$> ss) -> s ∈ ss -> last_for (slot_key s) ss = Some s.
Proof.
  intros Hnd Hin. destruct (last_for (slot_key s) ss) as [s'|] eqn:E.
  - apply last_for_key in E as [Hk Hin']. f_equal. apply list_elem_of_lookup in Hin as [i Hi], Hin' as [j Hj].
    assert (i = j) as ->; [|congruence]. eapply (NoDup_lookup (slot_key <$> ss) i j (slot_key s) Hnd); rewrite list_lookup_fmap; [by rewrite Hi|rewrite Hj; cbn; by f_equal].
  - by destruct (proj1 (last_for_none _ _) E s Hin).
Qed.

(** The index of a segment of copies is the plan with every slot replaced by its copy. *)
Lemma copies_last n F P plan old R ps mes m k :
  planned n F P plan old R -> ps ≡ₚ map_to_list P -> Forall2 copy_of ps mes -> Forall (fun s => value_ok (e_key (s_entry s))) (slots old) ->
  match last_for k (places m 0 mes) with
  | Some s' => exists s, (k, s, s') ∈ zip ps (places m 0 mes) /\ P !! k = Some s
  | None => P !! k = None
  end.
Proof.
  intros Hp Hps Hc Hv. pose proof (plan_items _ _ _ _ _ _ _ Hp Hps) as Hit.
  assert (Hk : Forall (fun p => slot_key p.2 = p.1 /\ value_ok (e_key (s_entry p.2))) ps).
  { eapply Forall_impl; [exact Hit|]. intros p (_ & ? & Hin & _). split; [done|]. rewrite Forall_forall in Hv. by apply Hv. }
  pose proof (copies_keys ps m 0 mes Hc Hk) as Ek. destruct (zip_places ps m 0 mes Hc) as [Ez Hz].
  assert (Ez2 : (zip ps (places m 0 mes)).*2 = places m 0 mes).
  { apply snd_zip. rewrite length_places. by rewrite (Forall2_length _ _ _ Hc). }
  destruct (last_for k (places m 0 mes)) as [s'|] eqn:E.
  - apply last_for_key in E as [Hks Hin]. rewrite <- Ez2 in Hin. apply list_elem_of_fmap in Hin as ([[k' s] s''] & -> & Hin). cbn [snd] in Hks.
    assert (Hps' : (k', s) ∈ ps) by (rewrite <- Ez; apply list_elem_of_fmap; by exists (k', s, s'')).
    rewrite Forall_forall in Hz. destruct (Hz _ Hin) as [_ (_ & Eky & _)]. cbn [fst snd] in Eky.
    rewrite Forall_forall in Hk. destruct (Hk _ Hps') as [Hk1 Hv1]. cbn [fst snd] in *.
    assert (k' = k) as ->. { rewrite <- Hks, <- Hk1. unfold slot_key. by rewrite Eky, key_of_plain. }
    exists s. split; [done|]. rewrite Forall_forall in Hit. by apply (Hit (k, s)).
  - destruct (P !! k) as [s|] eqn:HP; [|done]. exfalso. assert (Hin : (k, s) ∈ ps) by (rewrite Hps; by apply elem_of_map_to_list).
    assert (Hin' : k ∈ slot_key <$> places m 0 mes) by (rewrite Ek; apply list_elem_of_fmap; by exists (k, s)).
    apply list_elem_of_fmap in Hin' as (s' & -> & Hs'). by eapply (proj1 (last_for_none _ _) E).
Qed.

Lemma wf_values n b L s : wf n b L -> n <= limit -> s ∈ slots L -> value_ok (e_key (s_entry s)).
Proof. intros W Hn Hs. destruct (wf_slots _ _ _ _ _ W Hn Hs) as [_ [_ _ [[? _] _ _ _]]]. done. Qed.

(** Copies before the log they were taken from do not change its index. *)
Lemma index_with_copies n F P plan old R ps mes m :
  planned n F P plan old R -> ps ≡ₚ map_to_list P -> Forall2 copy_of ps mes -> Forall (fun s => value_ok (e_key (s_entry s))) (slots old) ->
  index ∅ (slots ((m, mes) :: old ++ R)) = index ∅ (slots (old ++ R)).
Proof.
  intros Hp Hps Hc Hv. apply map_eq. intros k. change (slots ((m, mes) :: old ++ R)) with (places m 0 mes ++ slots (old ++ R)).
  rewrite !index_lookup, last_for_app. destruct (last_for k (slots (old ++ R))) as [s|] eqn:E; [done|].
  pose proof (copies_last _ _ _ _ _ _ ps mes m k Hp Hps Hc Hv) as Hl. destruct (last_for k (places m 0 mes)) as [s'|]; [|done].
  destruct Hl as (s & _ & HP). exfalso. destruct (plan_slot _ _ _ _ _ _ _ _ Hp HP) as (Hk & Hin & _).
  eapply (proj1 (last_for_none _ _) E s); [|done]. rewrite slots_log_app. apply elem_of_app. by left.
Qed.

Lemma plan_front n F P plan (L : list segment) :
  StronglySorted Z.lt L.*1 -> planned n F P plan (imm F L) (rest F L) -> 0 <= p_merged plan < F /\ Forall (fun id => p_merged plan < id) L.*1.
Proof.
  intros Hs Hp. destruct (pl_merged _ _ _ _ _ _ Hp) as (front & Hh & -> & H1). pose proof (imm_rest F L Hs) as EL.
  destruct (imm F L) as [|[id es] old] eqn:Ei; [done|]. cbn in Hh. injection Hh as ->.
  pose proof (pl_old _ _ _ _ _ _ Hp) as Ho. apply Forall_cons in Ho as [Ho _]. cbn in Ho. split; [lia|]. rewrite EL in Hs |- *. cbn in Hs |- *.
  apply StronglySorted_inv in Hs as [_ Hs]. constructor; [lia|]. eapply Forall_impl; [exact Hs|]. cbn. lia.
Qed.
(** ** The three parts *)

(** Files other than the segments and the manifest, and the place of the next write. *)
Record unmoved (b b' : t) : Prop := {
  un_log : txn_log (files_ b') = txn_log (files_ b);
  un_applied : txn_applied (files_ b') = txn_applied (files_ b);
  un_active : active b' = active b;
  un_tasks : tasks_ b' = tasks_ b;
}.

Lemma copies_in n P (old : list segment) ps mes :
  ps ≡ₚ map_to_list P -> Forall2 copy_of ps mes -> Z.of_nat (size P) <= n -> Forall (fun p => zlen (e_rows (s_entry p.2)) <= n) ps ->
  Forall (entry_in n) mes /\ zlen mes <= n.
Proof.
  intros Hps Hc Hn Hr. split.
  - clear Hps Hn. induction Hc as [|p e ps mes (_ & _ & Er & He) _ IH]; [done|]. apply Forall_cons in Hr as [Hr Hrs]. constructor; [|by apply IH].
    split; [done|]. by rewrite Er.
  - unfold zlen. rewrite <- (Forall2_length _ _ _ Hc), (Permutation_length Hps), length_map_to_list. lia.
Qed.

Lemma wf_rows n b L s : wf n b L -> s ∈ slots L -> zlen (e_rows (s_entry s)) <= n.
Proof.
  intros W (id & es & Hin & Hs)%elem_of_slots. apply places_split in Hs as (a & c & -> & _). pose proof (wf_segs _ _ _ _ W) as Hsg.
  rewrite Forall_forall in Hsg. destruct (Hsg _ Hin) as (_ & He & _). apply Forall_app in He as [_ He]. by apply Forall_cons in He as [[_ ?] _].
Qed.

(** The part without the lock builds the merged segment from what the plan names. *)
Lemma merge_build_wf n b L F P plan :
  wf n b L -> n <= limit -> planned n F P plan (imm F L) (rest F L) ->
  returns io_fault (merge_build crc32c publishes b plan) (fun r =>
    exists mes meta, r.1 = Some meta /\ wf n r.2 ((p_merged plan, mes) :: L) /\ built n F P plan (imm F L) (rest F L) mes meta /\
      index ∅ (slots ((p_merged plan, mes) :: L)) = index ∅ (slots L) /\
      imm F ((p_merged plan, mes) :: L) = (p_merged plan, mes) :: imm F L /\ rest F ((p_merged plan, mes) :: L) = rest F L /\
      merge_manifest (files_ r.2) = Some (p_merged plan, (imm F L).*1) /\ unmoved b r.2).
Proof.
  intros W Hn Hp. pose proof (wf_sorted _ _ _ _ W) as Hs. destruct (plan_front _ _ _ _ _ Hs Hp) as [Hm Hlt]. pose proof (imm_rest F L Hs) as EL.
  destruct (plan_list _ _ _ _ _ _ Hp) as (ps & Er & Hps). pose proof (plan_items _ _ _ _ _ _ _ Hp Hps) as Hit. pose proof (pl_size _ _ _ _ _ _ Hp) as Hsz.
  assert (Hin : forall s, s ∈ slots (imm F L) -> s ∈ slots L) by (intros s Hi; rewrite EL, slots_log_app; apply elem_of_app; by left).
  assert (Hlen : zlen ps = Z.of_nat (size P)) by (unfold zlen; by rewrite (Permutation_length Hps), length_map_to_list).
  unfold merge_build. rewrite Er. destruct (merge_records_wf (p_merged plan) ps b [] [] 0) as (b1 & mes & E & Hb1 & Hc).
  { eapply Forall_impl; [exact Hit|]. intros p (_ & Hk & Hi & Hl). split_and!; [done| |done]. by eapply wf_slots, Hin. }
  { lia. }
  { unfold limit in *. lia. }
  rewrite E. cbn [mbind outcome_bind app]. rewrite bool_decide_false.
  2:{ pose proof (pl_nonempty _ _ _ _ _ _ Hp) as Hne. intros Hz. apply Hne, map_size_empty_iff. lia. }
  destruct (publishes _) eqn:Epub; cbn [negb]; [|by eapply not_published]. cbn [returns mret outcome_ret fst snd]. change (zlen []) with 0. exists mes. eexists. split; [done|].
  assert (Hval : Forall (fun s => value_ok (e_key (s_entry s))) (slots (imm F L))) by (apply Forall_forall; intros s Hi; by eapply wf_values, Hin).
  assert (Hidx : index ∅ (slots ((p_merged plan, mes) :: L)) = index ∅ (slots L)).
  { rewrite EL at 1. rewrite (index_with_copies n F P plan (imm F L) (rest F L) ps) by done. by rewrite <- EL. }
  destruct (copies_in n P (imm F L) ps mes Hps Hc Hsz) as [He Hl]; [eapply Forall_impl; [exact Hit|]; intros p (_ & _ & Hi & _); by eapply wf_rows, Hin|].
  destruct Hb1 as [B1 B2 B3 B4 B5 B6 B7].
  assert (Hh2 : hs_holds (hash_index_ b) (refs_of (index ∅ (slots ((p_merged plan, mes) :: L))))) by (rewrite Hidx; apply W).
  assert (Hs2 : Z.of_nat (size (index ∅ (slots ((p_merged plan, mes) :: L)))) <= n) by (rewrite Hidx; apply W). split_and!.
  - destruct W as [W1 W2 W3 W4 W5 W6 W7 W8 W9]. split; unfold segments, active in *; cbn; rewrite ?B1, ?B2, ?B3, ?B4; try done.
    + by rewrite W1.
    + constructor; done.
    + destruct W3 as (old & es & ->). by exists ((p_merged plan, mes) :: old), es.
    + constructor; [split_and!; [cbn; lia|done|done]|done].
  - split; [done|]. exists ps. done.
  - done.
  - unfold imm. rewrite filter_cons, decide_True by (cbn; lia). done.
  - unfold rest. rewrite filter_cons, decide_False by (cbn; lia). done.
  - cbn. by rewrite (pl_removed _ _ _ _ _ _ Hp).
  - split; cbn; by rewrite ?B1, ?B3, ?B7.
Qed.

Lemma foldr_delete_lookup (d : gmap Z bytes) ids id : foldr delete d ids !! id = if bool_decide (id ∈ ids) then None else d !! id.
Proof.
  induction ids as [|j ids IH]; [done|]. cbn. destruct (decide (j = id)) as [->|Hne].
  - rewrite lookup_delete_eq, bool_decide_true by (by left). done.
  - rewrite lookup_delete_ne by done. rewrite IH. rewrite (bool_decide_ext (id ∈ j :: ids) (id ∈ ids)); [done|]. rewrite elem_of_cons. naive_solver.
Qed.

Lemma disk_of_remove m mes (old R : list segment) :
  m ∉ old.*1 -> (forall id, id ∈ old.*1 -> id ∉ R.*1) ->
  foldr delete (disk_of ((m, mes) :: old ++ R)) old.*1 = disk_of ((m, mes) :: R).
Proof.
  intros Hm Hd. apply map_eq. intros id. rewrite foldr_delete_lookup. change ((m, mes) :: old ++ R) with ([(m, mes)] ++ old ++ R). change ((m, mes) :: R) with ([(m, mes)] ++ R).
  rewrite !disk_of_app. rewrite !lookup_union. case_bool_decide as Hin.
  - rewrite (disk_of_none crc32c [(m, mes)]) by (cbn; intros ->%list_elem_of_singleton; done). rewrite (disk_of_none crc32c R) by auto. done.
  - rewrite (disk_of_none crc32c old) by done. by destruct (disk_of [(m, mes)] !! id), (disk_of R !! id).
Qed.

(** Moving the references of the plan makes the index of the merged log. *)
Lemma foldl_repoint_other I items k : k ∉ (fst <$> items).*1 -> foldl repoint I items !! k = I !! k.
Proof.
  revert I. induction items as [|it items IH]; intros I Hk; [done|]. cbn in *. apply not_elem_of_cons in Hk as [Hne Hk]. rewrite IH by done.
  unfold repoint. destruct (I !! it.1.1); [|done]. case_bool_decide; [|done]. by rewrite lookup_insert_ne.
Qed.

Lemma foldl_repoint_key I items k s s' :
  NoDup (fst <$> items).*1 -> (k, s, s') ∈ items ->
  foldl repoint I items !! k = match I !! k with Some c => if bool_decide (s_file c = s_file s /\ s_off c = s_off s) then Some s' else Some c | None => None end.
Proof.
  revert I. induction items as [|it items IH]; intros I Hnd Hin; [by apply not_elem_of_nil in Hin|]. cbn in Hnd. apply NoDup_cons in Hnd as [Hno Hnd].
  cbn [foldl]. apply elem_of_cons in Hin as [<-|Hin].
  - rewrite foldl_repoint_other by done. unfold repoint. cbn [fst snd]. destruct (I !! k) as [c|] eqn:E; [|done].
    case_bool_decide; [by rewrite lookup_insert_eq|done].
  - rewrite IH by done. assert (Hne : it.1.1 <> k).
    { intros Heq. apply Hno. rewrite Heq. apply list_elem_of_fmap. exists (k, s). split; [done|]. apply list_elem_of_fmap. by exists (k, s, s'). }
    unfold repoint. destruct (I !! it.1.1); [|done]. case_bool_decide; [|done]. by rewrite lookup_insert_ne.
Qed.

Lemma repoint_index n F P plan old R ps mes m :
  planned n F P plan old R -> ps ≡ₚ map_to_list P -> Forall2 copy_of ps mes -> Forall (fun s => value_ok (e_key (s_entry s))) (slots old) ->
  Forall (fun s' => e_live (s_entry s') = true) (places m 0 mes) ->
  foldl repoint (index ∅ (slots (old ++ R))) (zip ps (places m 0 mes)) = index ∅ (slots ((m, mes) :: R)).
Proof.
  intros Hp Hps Hc Hv Hlive. apply map_eq. intros k. change (slots ((m, mes) :: R)) with (places m 0 mes ++ slots R). rewrite index_app, (index_lookup _ (slots R)).
  pose proof (copies_last _ _ _ _ _ _ ps mes m k Hp Hps Hc Hv) as Hl. destruct (zip_places ps m 0 mes Hc) as [Ez Hz].
  assert (Hnd : NoDup (fst <$> zip ps (places m 0 mes)).*1) by (rewrite Ez; by eapply plan_nodup).
  assert (EI : index ∅ (slots (old ++ R)) !! k = match last_for k (slots R) with Some s => if e_live (s_entry s) then Some s else None | None => index ∅ (slots old) !! k end)
    by (rewrite slots_log_app, index_app; apply index_lookup).
  rewrite (index_lookup ∅ (places m 0 mes)). destruct (last_for k (places m 0 mes)) as [s'|] eqn:Em.
  - destruct Hl as (s & Hin & HP). rewrite (foldl_repoint_key _ _ _ _ _ Hnd Hin), EI. destruct (last_for k (slots R)) as [r|] eqn:ER.
    + destruct (e_live (s_entry r)); [|done]. rewrite bool_decide_false; [done|]. intros [Hf _].
      destruct (plan_slot _ _ _ _ _ _ _ _ Hp HP) as (_ & Hso & _). pose proof (slots_file_below F _ _ (pl_old _ _ _ _ _ _ Hp) Hso).
      apply last_for_key in ER as [_ Hr]. pose proof (slots_file_above F _ _ (pl_above _ _ _ _ _ _ Hp) Hr). lia.
    + rewrite (pl_sub _ _ _ _ _ _ Hp _ _ HP), bool_decide_true by done. apply last_for_key in Em as [_ Em]. rewrite Forall_forall in Hlive. by rewrite Hlive.
  - assert (Hko : k ∉ (fst <$> zip ps (places m 0 mes)).*1).
    { rewrite Ez. intros Hin. apply list_elem_of_fmap in Hin as ([k' s] & -> & Hin). rewrite Hps in Hin. apply elem_of_map_to_list in Hin. cbn in *. congruence. }
    rewrite foldl_repoint_other by done. rewrite EI. destruct (last_for k (slots R)) eqn:ER; [done|]. by rewrite <- (pl_rest _ _ _ _ _ _ Hp k ER), Hl.
Qed.
(** And the same keys and rows. *)
Lemma view_merged n F P plan old R ps mes m :
  planned n F P plan old R -> ps ≡ₚ map_to_list P -> Forall2 copy_of ps mes -> Forall (fun s => value_ok (e_key (s_entry s))) (slots old) ->
  view ((m, mes) :: R) = view (old ++ R).
Proof.
  intros Hp Hps Hc Hv. apply map_eq. intros k. rewrite !view_lookup. change (slots ((m, mes) :: R)) with (places m 0 mes ++ slots R).
  rewrite slots_log_app, !index_app, !(index_lookup _ (slots R)). destruct (last_for k (slots R)) eqn:ER; [done|].
  rewrite <- (pl_rest _ _ _ _ _ _ Hp k ER). rewrite index_lookup. pose proof (copies_last _ _ _ _ _ _ ps mes m k Hp Hps Hc Hv) as Hl.
  destruct (last_for k (places m 0 mes)) as [s'|]; [|by rewrite Hl]. destruct Hl as (s & Hin & ->). destruct (zip_places ps m 0 mes Hc) as [_ Hz].
  rewrite Forall_forall in Hz. destruct (Hz _ Hin) as [_ (El & Ek & Er & _)]. cbn [fst snd] in *. rewrite El. cbn. by rewrite Ek, Er, plain_idem.
Qed.

Lemma items_ok n b L m mes old R F P plan ps :
  wf n b L -> n <= limit -> L = ((m, mes) :: old) ++ R -> planned n F P plan old R -> ps ≡ₚ map_to_list P -> Forall2 copy_of ps mes ->
  Forall (item_ok (segments b)) (zip ps (places m 0 mes)) /\ Forall (fun it => s_file it.2 = u32 m) (zip ps (places m 0 mes)).
Proof.
  intros W Hn EL Hp Hps Hc. destruct (zip_places ps m 0 mes Hc) as [Ez Hz]. pose proof (plan_items _ _ _ _ _ _ _ Hp Hps) as Hit.
  assert (Hnew : forall s, s ∈ places m 0 mes -> stored (segments b) s /\ slot_ok s).
  { intros s Hs. eapply wf_slots; [done|done|]. rewrite EL. change (slots (((m, mes) :: old) ++ R)) with (places m 0 mes ++ slots (old ++ R)). apply elem_of_app. by left. }
  assert (Hold : forall s, s ∈ slots old -> stored (segments b) s /\ slot_ok s).
  { intros s Hs. eapply wf_slots; [done|done|]. rewrite EL. change (slots (((m, mes) :: old) ++ R)) with (places m 0 mes ++ slots (old ++ R)). apply elem_of_app. right. rewrite slots_log_app. apply elem_of_app. by left. }
  rewrite Forall_forall in Hz. rewrite Forall_forall in Hit.
  assert (Hall : forall it, it ∈ zip ps (places m 0 mes) -> item_ok (segments b) it /\ s_file it.2 = u32 m).
  { intros [[k s] s'] Hin. destruct (Hz _ Hin) as [Hs' (El & Ek & Er & He)]. cbn [fst snd] in *.
    assert (Hps' : (k, s) ∈ ps) by (rewrite <- Ez; apply list_elem_of_fmap; by exists (k, s, s')).
    destruct (Hit _ Hps') as (_ & Hk & Hso & _). cbn [fst snd] in *. destruct (Hold s Hso) as [_ Hsok]. destruct (Hnew s' Hs') as [Hst' Hsok'].
    pose proof (so_entry _ Hsok) as [[Hv Hkl] _ _ _]. split.
    - split; cbn [fst snd]; try done; [unfold slot_key in *; by rewrite Ek, key_of_plain|by rewrite <- Hk].
    - pose proof (places_file _ _ _ _ _ Hs') as Hf. rewrite <- Hf. symmetry. apply wrap_small, Hsok'. }
  split; apply Forall_forall; intros it Hin; by apply Hall.
Qed.

(** The second locked part ends the merge: the view is the one before it, whatever was written since the plan was made. *)
Lemma merge_finish_wf n b L F P plan old R mes meta :
  wf n b L -> n <= limit -> F <= active b -> imm F L = (p_merged plan, mes) :: old -> rest F L = R -> built n F P plan old R mes meta ->
  returns io_fault (merge_finish (key_loader crc32c) b plan (Some meta)) (fun b' =>
    wf n b' ((p_merged plan, mes) :: R) /\ view ((p_merged plan, mes) :: R) = view L /\
    merge_manifest (files_ b') = merge_manifest (files_ b) /\ unmoved b b').
Proof.
  intros W Hn HF Ei ER [Hp (ps & Hps & Hc & ->)]. pose proof (wf_sorted _ _ _ _ W) as Hs. pose proof (imm_rest F L Hs) as EL. rewrite Ei, ER in EL. set (m := p_merged plan) in *.
  assert (Hval : Forall (fun s => value_ok (e_key (s_entry s))) (slots old)).
  { apply Forall_forall. intros s Hi. eapply wf_values; [done|done|]. rewrite EL. change (slots (((m, mes) :: old) ++ R)) with (places m 0 mes ++ slots (old ++ R)). apply elem_of_app. right. rewrite slots_log_app. apply elem_of_app. by left. }
  assert (Hidx : index ∅ (slots L) = index ∅ (slots (old ++ R))) by (rewrite EL; by apply (index_with_copies n F P plan old R ps)).
  destruct (items_ok n b L m mes old R F P plan ps W Hn EL Hp Hps Hc) as [Hok Hfile].
  assert (Hlive : Forall (fun s' => e_live (s_entry s') = true) (places m 0 mes)).
  { clear - Hc. revert Hc. generalize 0. intros off Hc. revert off. induction Hc as [|p e ps mes (El & _) _ IH]; intros off; cbn; constructor; [done|apply IH]. }
  pose proof (wf_size _ _ _ _ W) as Hsz. unfold merge_finish. eapply returns_bind.
  - apply returns_io. unfold key_loader. apply (merge_apply_wf (zip ps (places m 0 mes)) (segments b) [] _ _ _ (index ∅ (slots L))); try done.
    + apply W.
    + by eapply wf_readable.
    + unfold meta_bytes. generalize (zip ps (places m 0 mes)). intros its. clear. induction its as [|it its IH]; [cbn; lia|]. cbn [mbind list_bind length]. rewrite length_app.
      pose proof (zlen_meta_entry it.1.1 (s_file it.1.2) (s_off it.1.2) (row_value (e_rows (s_entry it.1.2))) (s_off it.2)) as Hl. pose proof (zlen_nonneg it.1.1). unfold zlen in *. lia.
    + unfold limit in *. lia.
  - intros tb Htb. rewrite Hidx in Htb. rewrite (repoint_index n F P plan old R ps mes m) in Htb by done.
    rewrite EL in Hs. cbn in Hs. apply StronglySorted_inv in Hs as [Hs Hm]. rewrite fmap_app in Hs, Hm. apply Forall_app in Hm as [Hmo HmR]. pose proof (StronglySorted_app_1_r _ _ _ Hs) as HsR.
    set (b1 := with_files _ _). assert (W1 : wf n b1 ((m, mes) :: R)).
    { destruct W as [W1 W2 W3 W4 W5 W6 W7 W8 W9]. destruct W3 as (old' & es & Eold). split; try done.
      - cbn. rewrite W1, (pl_removed _ _ _ _ _ _ Hp), EL. apply disk_of_remove.
        + rewrite Forall_forall in Hmo. intros Hin. specialize (Hmo m Hin). lia.
        + intros id Ho HR'. pose proof (StronglySorted_app_1_elem_of _ _ _ id id Hs Ho HR'). lia.
      - cbn. by constructor.
      - change (active b1) with (active b). exists ((m, mes) :: rest F old'), es. rewrite <- ER, Eold, rest_last by done. done.
      - rewrite EL in W5. apply Forall_app in W5 as [W5 W5R]. apply Forall_cons in W5 as [W5 _]. by constructor.
      - rewrite <- (repoint_index n F P plan old R ps mes m) by done. rewrite Hidx in Hsz. clear - Hsz. revert Hsz. generalize (index ∅ (slots (old ++ R))), (zip ps (places m 0 mes)).
        intros I its. revert I. induction its as [|it its IH]; intros I HI; [done|]. cbn. apply IH. by rewrite size_repoint. }
    eapply returns_mono; [by apply (restore_rehash_wf crc32c publishes n b1 ((m, mes) :: R))|]. intros b2 [W2 (Hf & Hcn & _ & _ & Ht)].
    split_and!; [done| |by rewrite Hf|split; unfold active; by rewrite ?Hf, ?Hcn, ?Ht].
    rewrite (view_merged n F P plan old R ps mes m) by done. unfold BitcaskSpec.view. by rewrite Hidx.
Qed.

(** A merge without segment 0 among the segments leaves the view as it is. *)
Lemma merge_wf n b L :
  wf n b L -> n <= limit -> Forall (Z.le 1) L.*1 ->
  returns io_fault (merge_immutable_segments crc32c publishes (key_loader crc32c) b) (fun b' => exists L', wf n b' L' /\ view L' = view L).
Proof.
  intros W Hn H1. unfold merge_immutable_segments. destruct (merge_begin_wf n b L W Hn H1) as ([plan b1] & -> & W1 & (_ & Hc & _) & Hplan). cbn [mbind outcome_bind fst snd] in *.
  destruct plan as [plan|]; [|by exists L]. destruct Hplan as [P Hp].
  eapply returns_bind; [by apply (merge_build_wf n b1 L (active b) P plan)|]. intros [built b2] (mes & meta & Eb & W2 & Hb & Hidx & Hi & Hr & _ & [_ _ Ha _]). cbn [fst snd] in *. subst built.
  eapply returns_mono; [apply (merge_finish_wf n b2 ((p_merged plan, mes) :: L) (active b) P plan (imm (active b) L) (rest (active b) L) mes meta); try done|].
  - rewrite Ha. unfold active. by rewrite Hc.
  - intros b3 (W3 & Hv & _). exists ((p_merged plan, mes) :: rest (active b) L). split; [done|]. rewrite Hv. unfold BitcaskSpec.view. by rewrite Hidx.
Qed.
End merge.
