(* ===== verification/BitcaskTheorems.v ===== *)
(** * What the log-structured index guarantees

    Every run of operations, restarts and merges interleaved with writes included, is a run of a map from
    keys to row ids; a restart applies exactly the frames of committed transactions that were
    not applied before. *)

From S2P Require Import Prelude.
From S2P Require Import Bytes.
From S2P Require Import DataChunkBinary.
From S2P Require Import DiskHashTable.
From S2P Require Import DiskHashPage.
From S2P Require Import DiskHashChain.
From S2P Require Import DiskHashSpec.
From S2P Require Import DiskHashOpen.
From S2P Require Import DiskHashTheorems.
From S2P Require Import HashStorage.
From S2P Require Import IndexCodec.
From S2P Require Import Bitcask.
From S2P Require Import BitcaskLog.
From S2P Require Import BitcaskSpec.
From S2P Require Import BitcaskOps.
From S2P Require Import BitcaskOpen.
From S2P Require Import BitcaskMerge.
Import bitcask_index_disk.
#[local] Open Scope Z_scope.

(** ** Operations *)

Inductive iop :=
  | o_insert (key : logical_value_t) (row : Z)
  | o_insert_bulk (key : logical_value_t) (row : Z)
  | o_remove (key : logical_value_t)
  | o_remove_row (key : logical_value_t) (row : Z)
  | o_find (key : logical_value_t)
  | o_load_entries
  | o_flush
  | o_bulk (enabled : bool)
  | o_txn (f : frame)
  | o_merge_begin
  | o_merge_build
  | o_merge_finish
  | o_reopen (committed : gset Z)
  | o_clear.

Inductive iresult :=
  | r_unit
  | r_rows (rows : list Z)
  | r_entries (es : list (logical_value_t * Z))
  | r_error (err : option error_code_t)
  | r_busy.

(** The map and the frames a restart would look at. [r_busy]: closing and clearing wait for the
    task executor to be idle. *)
Inductive istep (txn_log_opens : bool) : index_map * list frame -> iop -> iresult -> index_map * list frame -> Prop :=
  | i_insert M pd key row : istep txn_log_opens (M, pd) (o_insert key row) r_unit (m_add M key row, pd)
  | i_insert_bulk M pd key row : istep txn_log_opens (M, pd) (o_insert_bulk key row) r_unit (m_set M key row, pd)
  | i_remove M pd key : istep txn_log_opens (M, pd) (o_remove key) r_unit (m_remove M key, pd)
  | i_remove_row M pd key row : istep txn_log_opens (M, pd) (o_remove_row key row) r_unit (m_drop M key row, pd)
  | i_find M pd key : istep txn_log_opens (M, pd) (o_find key) (r_rows (rows_of M key)) (M, pd)
  | i_load_entries M pd es : es ≡ₚ entries M -> istep txn_log_opens (M, pd) o_load_entries (r_entries es) (M, pd)
  | i_flush M pd : istep txn_log_opens (M, pd) o_flush r_unit (M, pd)
  | i_bulk M pd e : istep txn_log_opens (M, pd) (o_bulk e) r_unit (M, pd)
  | i_txn M pd f : txn_log_opens = true -> istep txn_log_opens (M, pd) (o_txn f) (r_error None) (m_frame M f, [])
  | i_txn_unmarked M pd f : txn_log_opens = true -> istep txn_log_opens (M, pd) (o_txn f) (r_error (Some index_create_fail)) (m_frame M f, pd ++ [f])
  | i_txn_failed M pd f : txn_log_opens = false -> istep txn_log_opens (M, pd) (o_txn f) (r_error (Some index_create_fail)) (M, pd)
  | i_merge M pd o : o = o_merge_begin \/ o = o_merge_build \/ o = o_merge_finish -> istep txn_log_opens (M, pd) o r_unit (M, pd)
  | i_reopen M pd committed : istep txn_log_opens (M, pd) (o_reopen committed) r_unit (m_frames committed M pd, [])
  | i_clear M pd : istep txn_log_opens (M, pd) o_clear r_unit (∅, [])
  | i_busy M pd o : (exists c, o = o_reopen c) \/ o = o_clear -> istep txn_log_opens (M, pd) o r_busy (M, pd).

Inductive isteps (txn_log_opens : bool) : index_map * list frame -> list iop -> list iresult -> index_map * list frame -> Prop :=
  | isteps_nil a : isteps txn_log_opens a [] [] a
  | isteps_cons a o r a' os rs a'' : istep txn_log_opens a o r a' -> isteps txn_log_opens a' os rs a'' -> isteps txn_log_opens a (o :: os) (r :: rs) a''.

(** Where the background merge is. *)
Inductive merge_phase := Idle | Planned (plan : merge_plan) | Built (plan : merge_plan) (meta : option bytes).

Section runs.
Context {T : Type} {HS : HashStorage T} (crc32c : bytes -> Z) (publishes : sidecar -> bool) (txn_log_opens : bool).
Context (flush_threshold_ segment_record_limit_ : Z).

#[local] Abbreviation t := (t (T := T)).

Record sys := Sys { s_index : t; s_phase : merge_phase }.

(** The worker takes a queued merge and goes through its three parts; other operations run between
    them. *)
Definition exec_merge (s : sys) (o : iop) : outcome sys :=
  match s_phase s, o with
  | Idle, o_merge_begin =>
      match tasks_ (s_index s) with
      | O => mret s
      | S n => '(plan, b) ← merge_begin (with_tasks (s_index s) n); mret (Sys b (match plan with Some plan => Planned plan | None => Idle end))
      end
  | Planned plan, o_merge_build => '(built, b) ← merge_build crc32c publishes (s_index s) plan; mret (Sys b (Built plan built))
  | Built plan built, o_merge_finish => b ← merge_finish (key_loader crc32c) (s_index s) plan built; mret (Sys b Idle)
  | _, _ => mret s
  end.

Definition is_idle (s : sys) : bool := match s_phase s, tasks_ (s_index s) with Idle, O => true | _, _ => false end.

Definition exec_index (s : sys) (o : iop) : outcome (iresult * sys) :=
  let b := s_index s in
  let ret (m : outcome t) := b ← m; mret (r_unit, Sys b (s_phase s)) in
  match o with
  | o_insert key row => ret (insert crc32c publishes flush_threshold_ segment_record_limit_ b key row)
  | o_insert_bulk key row => ret (insert_bulk_unchecked crc32c publishes segment_record_limit_ b key row)
  | o_remove key => ret (remove crc32c publishes flush_threshold_ segment_record_limit_ b key)
  | o_remove_row key row => ret (remove_row crc32c publishes flush_threshold_ segment_record_limit_ b key row)
  | o_find key => rows ← find crc32c b key; mret (r_rows rows, s)
  | o_load_entries => es ← load_entries crc32c b; mret (r_entries es, s)
  | o_flush => ret (mret (force_flush b))
  | o_bulk enabled => ret (set_bulk_mode b enabled)
  | o_txn f =>
      '(err, b) ← (if f_insert f then apply_txn_inserts crc32c publishes txn_log_opens segment_record_limit_ b (f_txn f) (f_values f)
                   else apply_txn_deletes crc32c publishes txn_log_opens segment_record_limit_ b (f_txn f) (f_values f));
      mret (r_error err, Sys b (s_phase s))
  | o_merge_begin | o_merge_build | o_merge_finish => s ← exec_merge s o; mret (r_unit, s)
  | o_reopen committed =>
      if is_idle s then
        r ← reopen crc32c publishes flush_threshold_ segment_record_limit_ b committed;
        match r with Some b => mret (r_unit, Sys b Idle) | None => Fault Abort end
      else mret (r_busy, s)
  | o_clear => if is_idle s then b ← clear crc32c publishes b; mret (r_unit, Sys b Idle) else mret (r_busy, s)
  end.

Fixpoint run_index (s : sys) (os : list iop) : outcome (list iresult * sys) :=
  match os with
  | [] => mret ([], s)
  | o :: os => '(r, s) ← exec_index s o; '(rs, s) ← run_index s os; mret (r :: rs, s)
  end.
End runs.

Arguments Sys {_} _ _.
Arguments s_index {_} _.
Arguments s_phase {_} _.

Definition iop_ok (o : iop) : Prop :=
  match o with
  | o_insert key row | o_insert_bulk key row => key_ok key /\ in_width 64 row
  | o_remove key | o_remove_row key _ => key_ok key
  | o_find key => value_ok key
  | o_txn f => frame_ok f
  | _ => True
  end.

(** What an operation can add to the log, now and at the next restart. *)
Definition cost (o : iop) : Z :=
  match o with
  | o_insert _ _ | o_insert_bulk _ _ | o_remove _ | o_remove_row _ _ => 2
  | o_txn f => 4 * zlen (f_values f)
  | _ => 0
  end.

Fixpoint costs (os : list iop) : Z := match os with [] => 0 | o :: os => cost o + costs os end.

Definition merges (o : iop) : Z := match o with o_merge_begin => 1 | _ => 0 end.

Fixpoint merge_count (os : list iop) : Z := match os with [] => 0 | o :: os => merges o + merge_count os end.

Lemma cost_nonneg o : 0 <= cost o.
Proof. destruct o; cbn; try lia. pose proof (zlen_nonneg (f_values f)). lia. Qed.

Lemma costs_nonneg os : 0 <= costs os.
Proof. induction os as [|o os IH]; cbn; [lia|]. pose proof (cost_nonneg o). lia. Qed.

Lemma merge_count_nonneg os : 0 <= merge_count os.
Proof. induction os as [|o os IH]; cbn; [lia|]. destruct o; cbn; lia. Qed.

Section refinement.
Context {T : Type} {HS : HashStorage T} {HSO : HashStorageOk T} (crc32c : bytes -> Z) (publishes : sidecar -> bool) (txn_log_opens : bool).
Context (flush_threshold_ segment_record_limit_ : Z).

#[local] Abbreviation io_fault := (io_fault publishes).
#[local] Abbreviation t := (t (T := T)).
#[local] Abbreviation slots := (slots crc32c).
#[local] Abbreviation view := (view crc32c).
#[local] Abbreviation wf := (wf crc32c).
#[local] Abbreviation logged := (logged crc32c).
#[local] Abbreviation exec := (exec_index crc32c publishes txn_log_opens flush_threshold_ segment_record_limit_).

(** ** The invariant of a run *)

(** What holds of the background merge; [k] merges have begun. *)
Definition phase_ok (n k : Z) (b : t) (L : list segment) (ph : merge_phase) : Prop :=
  match ph with
  | Idle => manifest_ok (files_ b) L (active b)
  | Planned plan =>
      manifest_ok (files_ b) L (active b) /\ 2 - k <= p_merged plan /\
      exists F P, F <= active b /\ planned crc32c n F P plan (imm F L) (rest F L)
  | Built plan built =>
      exists F P old mes meta, built = Some meta /\ F <= active b /\ imm F L = (p_merged plan, mes) :: old /\
        BitcaskMerge.built crc32c n F P plan old (rest F L) mes meta /\ merge_manifest (files_ b) = Some (p_merged plan, old.*1)
  end.

Record sys_ok (N k : Z) (s : sys (T := T)) (M : index_map) (pd : list frame) : Prop := {
  sy_state : exists n L, n + weight pd <= N /\ wf n (s_index s) L /\ view L = M /\ Forall (Z.le (2 - k)) L.*1 /\ phase_ok n k (s_index s) L (s_phase s);
  sy_log : logged (files_ (s_index s)) pd;
}.

(** What an operation keeps for the merge in the background. *)
Record after (b : t) (L : list segment) (b' : t) (L' : list segment) : Prop := {
  af_manifest : merge_manifest (files_ b') = merge_manifest (files_ b);
  af_active : active b <= active b';
  af_imm F : F <= active b -> imm F L' = imm F L;
  af_rest F : F <= active b -> exists more, slots (rest F L') = slots (rest F L) ++ more;
}.

Lemma evolves_after b L b' L' : evolves crc32c b L b' L' -> after b L b' L'.
Proof. by intros [E1 E2 E3 E4 E5 E6 E7]. Qed.

Lemma after_refl b b' L : merge_manifest (files_ b') = merge_manifest (files_ b) -> active b' = active b -> after b L b' L.
Proof. intros Hm Ha. split; [done|lia|done|]. intros F _. exists []. by rewrite app_nil_r. Qed.

Lemma phase_after n n' k b L b' L' ph : phase_ok n k b L ph -> n <= n' -> after b L b' L' -> phase_ok n' k b' L' ph.
Proof.
  intros Hph Hn [Hm Ha Hi Hr].
  assert (Hman : manifest_ok (files_ b) L (active b) -> manifest_ok (files_ b') L' (active b')).
  { intros H. eapply (manifest_grow _ L L' (active b)); [|done|by apply Hi]. intros m rm id E. apply (H m rm). by rewrite <- Hm. }
  destruct ph as [|plan|plan built]; cbn [phase_ok] in *.
  - by apply Hman.
  - destruct Hph as (H1 & H2 & F & P & HF & Hp). split_and!; [by apply Hman|done|]. exists F, P. split; [lia|]. rewrite (Hi F HF).
    eapply planned_grow; [done|done|apply rest_above|by apply Hr].
  - destruct Hph as (F & P & old & mes & meta & -> & HF & Ei & Hb & Hmf). exists F, P, old, mes, meta. split_and!; [done|lia|by rewrite (Hi F HF)| |by rewrite Hm].
    eapply built_grow; [done|done|apply rest_above|by apply Hr].
Qed.

Lemma ids_after n n' k b L b' L' : wf n b L -> wf n' b' L' -> after b L b' L' -> Forall (Z.le (2 - k)) L.*1 -> Forall (Z.le (2 - k)) L'.*1.
Proof. intros W _ A. eapply (ids_grow crc32c); [done|]. by apply (af_imm _ _ _ _ A). Qed.

(** A write keeps the invariant with the view it leads to. *)
Lemma sys_updates N k s M pd w M' b' :
  (exists n L, n + weight pd <= N /\ wf n (s_index s) L /\ view L = M /\ Forall (Z.le (2 - k)) L.*1 /\ phase_ok n k (s_index s) L (s_phase s) /\
     updates crc32c n w (s_index s) L M' b') ->
  logged (files_ (s_index s)) pd -> 0 <= w -> sys_ok (N + w) k (Sys b' (s_phase s)) M' pd.
Proof.
  intros (n & L & HN & W & Hv & Hk & Hph & (L' & W' & Hv' & E)) Hlog Hw. pose proof (evolves_after _ _ _ _ E) as A. split; cbn [s_index s_phase].
  - exists (n + w), L'. split_and!; [lia|done|done|exact (ids_after n (n + w) k _ L _ L' W W' A Hk)|]. eapply phase_after; [done|lia|done].
  - destruct Hlog as (done & H1 & H2 & H3). exists done. by rewrite (ev_txn_log _ _ _ _ _ E), (ev_applied _ _ _ _ _ E).
Qed.
Lemma sys_mono N N' k k' s M pd : N <= N' -> k <= k' -> sys_ok N k s M pd -> sys_ok N' k' s M pd.
Proof.
  intros HN Hk [(n & L & Hn & W & Hv & Hids & Hph) Hlog]. split; [|done]. exists n, L. split_and!; [lia|done|done| |].
  - eapply Forall_impl; [exact Hids|]. intros id. lia.
  - destruct (s_phase s) as [|plan|plan built]; [done| |done]. destruct Hph as (H1 & H2 & H3). split_and!; [done|lia|done].
Qed.

(** ** The steps *)

Lemma exec_writes N k s M pd w M' (m : outcome t) :
  sys_ok N k s M pd -> 0 <= w ->
  (forall n L, n + weight pd <= N -> wf n (s_index s) L -> view L = M -> returns io_fault m (updates crc32c n w (s_index s) L M')) ->
  returns io_fault (b ← m; mret (r_unit, Sys b (s_phase s))) (fun p => p.1 = r_unit /\ sys_ok (N + w) k p.2 M' pd).
Proof.
  intros [(n & L & Hn & W & Hv & Hids & Hph) Hlog] Hw Hm. eapply returns_bind; [by apply (Hm n L)|]. intros b' U. split; [done|].
  eapply sys_updates; [|done|done]. exists n, L. by split_and!.
Qed.

Lemma merge_begin_step N k s M pd :
  sys_ok N k s M pd -> N <= limit -> k < 2 -> s_phase s = Idle ->
  returns io_fault (exec_merge crc32c publishes s o_merge_begin) (fun s' => sys_ok N (k + 1) s' M pd).
Proof.
  intros Hs HN Hk Hph. pose proof Hs as [(n & L & Hn & W & Hv & Hids & Hp) Hlog]. rewrite Hph in Hp. unfold exec_merge. rewrite Hph.
  destruct (tasks_ (s_index s)) as [|n0] eqn:Et; [eapply sys_mono; [| |done]; lia|]. pose proof (weight_nonneg pd).
  set (b := with_tasks (s_index s) n0). assert (Wb : wf n b L) by (by eapply wf_same; [..|exact W]).
  destruct (merge_begin_wf crc32c n b L Wb ltac:(lia)) as ([plan b1] & E & W1 & (Hf & Hc & _) & Hplan).
  { eapply Forall_impl; [exact Hids|]. cbn. lia. }
  rewrite E. cbn [mbind outcome_bind returns mret outcome_ret fst snd] in *. split; cbn [s_index s_phase]; [|by rewrite Hf].
  assert (Ha : active b1 = active (s_index s)) by (unfold active; by rewrite Hc).
  exists n, L. split_and!; [done|done|done|eapply Forall_impl; [exact Hids|]; cbn; lia|]. destruct plan as [plan|]; cbn [phase_ok]; rewrite Ha, Hf; [|done].
  destruct Hplan as [P Hpl]. change (active b) with (active (s_index s)) in Hpl. destruct (pl_merged _ _ _ _ _ _ _ Hpl) as (front & Hh & Em & _).
  split_and!; [done| |exists (active (s_index s)), P; by split]. rewrite Em.
  assert (Hin : front ∈ L.*1). { apply head_Some_elem_of in Hh. apply list_elem_of_fmap in Hh as (p & -> & [_ Hin]%list_elem_of_filter). apply list_elem_of_fmap. by exists p. }
  rewrite Forall_forall in Hids. specialize (Hids _ Hin). lia.
Qed.

Lemma merge_build_step N k s M pd plan :
  sys_ok N k s M pd -> N <= limit -> s_phase s = Planned plan ->
  returns io_fault (exec_merge crc32c publishes s o_merge_build) (fun s' => sys_ok N k s' M pd).
Proof.
  intros [(n & L & Hn & W & Hv & Hids & Hp) Hlog] HN Hph. rewrite Hph in Hp. destruct Hp as (Hman & Hm & F & P & HF & Hpl). unfold exec_merge. rewrite Hph.
  pose proof (weight_nonneg pd). eapply returns_bind; [by apply (merge_build_wf crc32c publishes n (s_index s) L F P plan W ltac:(lia))|].
  intros [built b1] (mes & meta & Eb & W1 & Hb & Hidx & Hi & Hr & Hmf & [U1 U2 U3 U4]). cbn [fst snd] in *. split; cbn [s_index s_phase].
  - exists n, ((p_merged plan, mes) :: L). split_and!; [done|done|unfold BitcaskSpec.view; by rewrite Hidx|by constructor|].
    exists F, P, (imm F L), mes, meta. split_and!; [done|by rewrite U3|done|by rewrite Hr|done].
  - destruct Hlog as (done & H1 & H2 & H3). exists done. by rewrite U1, U2.
Qed.

Lemma merge_finish_step N k s M pd plan built :
  sys_ok N k s M pd -> N <= limit -> s_phase s = Built plan built ->
  returns io_fault (exec_merge crc32c publishes s o_merge_finish) (fun s' => sys_ok N k s' M pd).
Proof.
  intros [(n & L & Hn & W & Hv & Hids & Hp) Hlog] HN Hph. rewrite Hph in Hp. destruct Hp as (F & P & old & mes & meta & -> & HF & Ei & Hb & Hmf). unfold exec_merge. rewrite Hph.
  pose proof (weight_nonneg pd). pose proof (wf_sorted _ _ _ _ W) as Hs. pose proof (imm_rest F L Hs) as EL. rewrite Ei in EL.
  eapply returns_bind; [by apply (merge_finish_wf crc32c publishes n (s_index s) L F P plan old (rest F L) mes meta W ltac:(lia) HF)|].
  intros b1 (W1 & Hv1 & Hm1 & [U1 U2 U3 U4]). split; cbn [s_index s_phase].
  - exists n, ((p_merged plan, mes) :: rest F L). split_and!; [done|done|by rewrite Hv1| |].
    + rewrite EL in Hids. cbn in Hids. apply Forall_cons in Hids as [H1 Hids]. rewrite fmap_app in Hids. apply Forall_app in Hids as [_ Hids]. by constructor.
    + cbn [phase_ok]. rewrite U3. intros m rm id E Hid. rewrite Hm1, Hmf in E. injection E as <- <-.
      pose proof (pl_old _ _ _ _ _ _ _ (bu_plan _ _ _ _ _ _ _ _ _ Hb)) as Hold. apply list_elem_of_fmap in Hid as (p & -> & Hp). rewrite Forall_forall in Hold. specialize (Hold p Hp). cbn in Hold.
      split; [|lia]. cbn. intros [E|Hin]%elem_of_cons.
      * rewrite EL in Hs. cbn in Hs. apply StronglySorted_inv in Hs as [_ Hs]. rewrite fmap_app in Hs. apply Forall_app in Hs as [Hs _]. rewrite Forall_fmap, Forall_forall in Hs.
        specialize (Hs p Hp). cbn in Hs. lia.
      * apply list_elem_of_fmap in Hin as (q & E & Hq). pose proof (rest_above F L) as Hab. rewrite Forall_forall in Hab. specialize (Hab q Hq). cbn in Hab. lia.
  - destruct Hlog as (done & H1 & H2 & H3). exists done. by rewrite U1, U2.
Qed.

Lemma exec_merge_step N k s M pd o :
  sys_ok N k s M pd -> N <= limit -> k + merges o <= 2 ->
  returns io_fault (exec_merge crc32c publishes s o) (fun s' => sys_ok N (k + merges o) s' M pd).
Proof.
  intros Hs HN Hk.
  assert (Hskip : returns io_fault (mret s : outcome sys) (fun s' => sys_ok N (k + merges o) s' M pd)).
  { eapply sys_mono; [| |exact Hs]; [lia|]. destruct o; cbn; lia. }
  destruct (s_phase s) as [|plan|plan built] eqn:Hph; unfold exec_merge; rewrite Hph.
  - destruct o; try exact Hskip. cbn [merges] in *. pose proof (merge_begin_step N k s M pd Hs HN ltac:(lia) Hph) as Hm. unfold exec_merge in Hm. by rewrite Hph in Hm.
  - destruct o; try exact Hskip. cbn [merges] in *. rewrite Z.add_0_r. pose proof (merge_build_step N k s M pd plan Hs HN Hph) as Hm. unfold exec_merge in Hm. by rewrite Hph in Hm.
  - destruct o; try exact Hskip. cbn [merges] in *. rewrite Z.add_0_r. pose proof (merge_finish_step N k s M pd plan built Hs HN Hph) as Hm. unfold exec_merge in Hm. by rewrite Hph in Hm.
Qed.

(** A transaction. *)
Lemma exec_txn_step N k s M pd f :
  sys_ok N k s M pd -> frame_ok f -> N + 4 * zlen (f_values f) <= limit ->
  returns io_fault (exec s (o_txn f)) (fun p => exists M' pd', istep txn_log_opens (M, pd) (o_txn f) p.1 (M', pd') /\ sys_ok (N + 4 * zlen (f_values f)) k p.2 M' pd').
Proof.
  intros Hs Hf HN. pose proof Hs as [(n & L & Hn & W & Hv & Hids & Hph) Hlog]. pose proof (weight_nonneg pd). pose proof (zlen_nonneg (f_values f)). cbn [exec_index].
  eapply returns_bind; [apply (apply_txn_wf crc32c publishes txn_log_opens segment_record_limit_ n (s_index s) L f pd W Hlog Hf); lia|].
  intros [err b'] Hpost. cbn [fst snd] in Hpost. destruct txn_log_opens eqn:Eo.
  - destruct Hpost as (L' & W' & Hv' & Hm & Ha & Hi & Hr & Hlog'). assert (A : after (s_index s) L b' L') by done.
    cbn [returns mret outcome_ret fst snd]. exists (m_frame M f), (match err with None => [] | Some _ => pd ++ [f] end). split.
    + destruct err as [[]|]; by constructor.
    + split; [|done]. exists (n + 2 * zlen (f_values f)), L'. cbn [s_index s_phase]. split_and!; [|done|by rewrite Hv', Hv|exact (ids_after _ _ k _ L _ L' W W' A Hids)|].
      * destruct err; [rewrite weight_app; cbn [weight]|cbn [weight]]; lia.
      * eapply phase_after; [done|lia|done].
  - injection Hpost as -> ->. cbn [returns mret outcome_ret fst snd]. exists M, pd. split; [by constructor|]. destruct s. eapply sys_mono; [| |exact Hs]; lia.
Qed.

(** Closing and opening again, and clearing. *)
Lemma opened_sys N k M b : opened crc32c (2 - k) N M b -> sys_ok N k (Sys b Idle) M [].
Proof.
  intros [(L & W & Hv & Hm & Hids) Hlog]. split; [|done]. exists N, L. cbn [weight s_index s_phase phase_ok]. split_and!; [lia|done|done|done|done].
Qed.

Lemma is_idle_true (s : sys (T := T)) : is_idle s = true -> s_phase s = Idle /\ tasks_ (s_index s) = 0%nat.
Proof. unfold is_idle. destruct (s_phase s); [|done|done]. by destruct (tasks_ (s_index s)). Qed.

Lemma exec_reopen_step N k s M pd committed :
  sys_ok N k s M pd -> N <= limit ->
  returns io_fault (exec s (o_reopen committed)) (fun p => exists M' pd', istep txn_log_opens (M, pd) (o_reopen committed) p.1 (M', pd') /\ sys_ok N k p.2 M' pd').
Proof.
  intros Hs HN. pose proof Hs as [(n & L & Hn & W & Hv & Hids & Hph) Hlog]. cbn [exec_index]. destruct (is_idle s) eqn:Ei.
  - apply is_idle_true in Ei as [Ep Et]. rewrite Ep in Hph.
    eapply returns_bind; [apply (reopen_wf crc32c publishes flush_threshold_ segment_record_limit_ (2 - k) n (s_index s) L committed pd W Hids Hph Hlog ltac:(lia) Et)|].
    intros r (b' & -> & Ho). exists (m_frames committed M pd), []. split; [constructor|]. rewrite Hv in Ho. eapply sys_mono; [| |apply opened_sys, Ho]; lia.
  - exists M, pd. split; [constructor; left; by exists committed|done].
Qed.

Lemma exec_clear_step N k s M pd :
  sys_ok N k s M pd -> 0 <= N -> 0 <= k ->
  returns io_fault (exec s o_clear) (fun p => exists M' pd', istep txn_log_opens (M, pd) o_clear p.1 (M', pd') /\ sys_ok N k p.2 M' pd').
Proof.
  intros Hs HN Hk. pose proof Hs as [(n & L & Hn & W & Hv & Hids & Hph) Hlog]. cbn [exec_index]. destruct (is_idle s) eqn:Ei.
  - apply is_idle_true in Ei as [_ Et]. eapply returns_bind; [by apply (clear_wf crc32c publishes n (s_index s) L W)|]. intros b' Ho. exists ∅, []. split; [constructor|].
    eapply sys_mono; [| |apply (opened_sys 0 0 ∅ b'), Ho]; lia.
  - exists M, pd. split; [constructor; by right|done].
Qed.

(** Every operation is a step of the map. *)
Lemma exec_index_step N k s M pd o :
  sys_ok N k s M pd -> iop_ok o -> 0 <= N -> 0 <= k -> N + cost o <= limit -> k + merges o <= 2 ->
  returns io_fault (exec s o) (fun p => exists M' pd', istep txn_log_opens (M, pd) o p.1 (M', pd') /\ sys_ok (N + cost o) (k + merges o) p.2 M' pd').
Proof.
  intros Hs Hok H0 Hk0 HN Hk. pose proof Hs as [(n & L & Hn & W & Hv & Hids & Hph) Hlog]. pose proof (weight_nonneg pd). pose proof (cost_nonneg o).
  assert (Hwrite : forall w M' m, 0 <= w -> w = cost o -> merges o = 0 -> istep txn_log_opens (M, pd) o r_unit (M', pd) ->
    (forall n L, n + weight pd <= N -> wf n (s_index s) L -> view L = M -> returns io_fault m (updates crc32c n w (s_index s) L M')) ->
    returns io_fault (b ← m; mret (r_unit, Sys b (s_phase s))) (fun p => exists M' pd', istep txn_log_opens (M, pd) o p.1 (M', pd') /\ sys_ok (N + cost o) (k + merges o) p.2 M' pd')).
  { intros w M' m Hw -> Hmo Hst Hm. eapply returns_mono; [by apply (exec_writes N k s M pd (cost o) M' m)|]. intros [r s'] [-> Hs']. exists M', pd. rewrite Hmo, Z.add_0_r. by split. }
  assert (Hsame : forall r, merges o = 0 -> cost o = 0 -> istep txn_log_opens (M, pd) o r (M, pd) ->
    returns io_fault (mret (r, s) : outcome (iresult * sys)) (fun p => exists M' pd', istep txn_log_opens (M, pd) o p.1 (M', pd') /\ sys_ok (N + cost o) (k + merges o) p.2 M' pd')).
  { intros r -> -> Hst. exists M, pd. rewrite !Z.add_0_r. by split. }
  assert (Hmerge : cost o = 0 -> istep txn_log_opens (M, pd) o r_unit (M, pd) ->
    returns io_fault (s ← exec_merge crc32c publishes s o; mret (r_unit, s)) (fun p => exists M' pd', istep txn_log_opens (M, pd) o p.1 (M', pd') /\ sys_ok (N + cost o) (k + merges o) p.2 M' pd')).
  { intros Hc Hst. eapply returns_bind; [apply (exec_merge_step N k s M pd o Hs); lia|]. intros s' Hs'. exists M, pd. rewrite Hc, Z.add_0_r. by split. }
  destruct o as [key row|key row|key|key row|key| | |e|f| | | |c|]; cbn [exec_index iop_ok cost merges] in *; rewrite ?Z.add_0_r in *.
  - destruct Hok. apply (Hwrite 2 (m_add M key row)); [lia|done|done|constructor|]. intros n' L' Hn' W' <-. apply insert_wf; [done|done|done|lia].
  - destruct Hok. apply (Hwrite 2 (m_set M key row)); [lia|done|done|constructor|]. intros n' L' Hn' W' <-. apply insert_bulk_wf; [done|done|done|lia].
  - apply (Hwrite 2 (m_remove M key)); [lia|done|done|constructor|]. intros n' L' Hn' W' <-. apply remove_wf; [done|done|lia].
  - apply (Hwrite 2 (m_drop M key row)); [lia|done|done|constructor|]. intros n' L' Hn' W' <-. apply remove_row_wf; [done|done|lia].
  - rewrite (find_view crc32c n (s_index s) L key W) by (done || lia). rewrite Hv. apply (Hsame (r_rows (rows_of M key))); [done|done|constructor].
  - destruct (load_entries_view crc32c n (s_index s) L W ltac:(lia)) as (es & -> & Hp). rewrite Hv in Hp. apply (Hsame (r_entries es)); [done|done|by constructor].
  - apply (Hwrite 0 M); [lia|done|done|constructor|]. intros n' L' Hn' W' <-. apply updates_same; [done|lia|apply force_flush_same..].
  - apply (Hwrite 0 M); [lia|done|done|constructor|]. intros n' L' Hn' W' <-. by apply set_bulk_mode_wf.
  - by apply exec_txn_step.
  - apply Hmerge; [done|constructor; auto].
  - apply Hmerge; [done|constructor; auto].
  - apply Hmerge; [done|constructor; auto].
  - by apply exec_reopen_step.
  - by apply exec_clear_step.
Qed.

Lemma run_index_refines os N k s M pd :
  sys_ok N k s M pd -> Forall iop_ok os -> 0 <= N -> 0 <= k -> N + costs os <= limit -> k + merge_count os <= 2 ->
  returns io_fault (run_index crc32c publishes txn_log_opens flush_threshold_ segment_record_limit_ s os) (fun p =>
    exists M' pd', isteps txn_log_opens (M, pd) os p.1 (M', pd') /\ sys_ok (N + costs os) (k + merge_count os) p.2 M' pd').
Proof.
  revert N k s M pd. induction os as [|o os IH]; intros N k s M pd Hs Hok H0 Hk0 HN Hk; cbn [run_index costs merge_count] in *.
  { exists M, pd. rewrite !Z.add_0_r. split; [constructor|done]. }
  apply Forall_cons in Hok as [Ho Hok]. pose proof (costs_nonneg os). pose proof (merge_count_nonneg os). pose proof (cost_nonneg o). assert (0 <= merges o) by (destruct o; cbn; lia).
  eapply returns_bind; [apply (exec_index_step N k s M pd o Hs Ho H0 Hk0); lia|]. intros [r s1] (M1 & pd1 & Hst & Hs1). cbn [fst snd] in *.
  eapply returns_bind; [apply (IH (N + cost o) (k + merges o) s1 M1 pd1 Hs1 Hok); lia|]. intros [rs s2] (M2 & pd2 & Hst2 & Hs2). cbn [fst snd] in *.
  exists M2, pd2. split; [by econstructor|]. by rewrite !Z.add_assoc.
Qed.
End refinement.

(** ** The index is a map *)


(** [absl::ComputeCrc32c], bit by bit. *)
Definition crc32c_bit (c : Z) : Z := if Z.odd c then Z.lxor (Z.shiftr c 1) 0x82F63B78 else Z.shiftr c 1.

Definition crc32c_byte (c : Z) (b : Byte.byte) : Z := Nat.iter 8 crc32c_bit (Z.lxor c (Z.of_N (Byte.to_N b))).

Definition castagnoli (data : bytes) : Z := Z.lxor (foldl crc32c_byte 0xFFFFFFFF data) 0xFFFFFFFF.

(** The check value of the algorithm: the digits from 1 to 9. *)
Lemma castagnoli_check : castagnoli [Byte.x31; Byte.x32; Byte.x33; Byte.x34; Byte.x35; Byte.x36; Byte.x37; Byte.x38; Byte.x39] = 0xE3069283.
Proof. by vm_compute. Qed.

Definition bigint (z : Z) : logical_value_t := Value (Complex LT_BIGINT None) (C_num z).
Definition integer (z : Z) : logical_value_t := Value (Complex LT_INTEGER None) (C_num z).

Lemma bigint_ok z : - 2 ^ 63 <= z < 2 ^ 63 -> key_ok (bigint z).
Proof.
  intros Hz. split; [by apply (ok_num LT_BIGINT None INT64 8); [vm_compute; set_solver|done|]|].
  vm_compute. done.
Qed.

Lemma integer_ok z : - 2 ^ 31 <= z < 2 ^ 31 -> key_ok (integer z).
Proof.
  intros Hz. split; [by apply (ok_num LT_INTEGER None INT32 4); [vm_compute; set_solver|done|]|].
  vm_compute. done.
Qed.

Ltac sample_ok :=
  lazymatch goal with
  | |- True => exact I
  | |- key_ok (bigint _) => apply bigint_ok; lia
  | |- key_ok (integer _) => apply integer_ok; lia
  | |- value_ok (bigint _) => apply bigint_ok; lia
  | |- in_width _ _ => unfold in_width; cbn; lia
  | |- zlen _ <= _ => by vm_compute
  | |- _ /\ _ => split; sample_ok
  | |- value_in _ => split; cbn [fst snd]; sample_ok
  | |- frame_ok _ => split; cbn [f_txn f_values]; sample_ok
  | |- iop_ok _ => cbn [iop_ok]; sample_ok
  | |- Forall _ (_ :: _) => apply Forall_cons; split; sample_ok
  | |- Forall _ [] => apply Forall_nil; exact I
  end.

(** An empty hash table of one bucket. *)
Definition empty_table : disk_hash_table.t :=
  match disk_hash_table.new all_pages [] [] 1 7 with Ok tb => tb | Fault _ => disk_hash_table.Table [] [] (disk_hash_table.Header 0 0 0 0 0 0) 0 false false end.

#[local] Instance page_storage : HashStorage disk_hash_table.t := table_storage all_pages 7.
#[local] Instance page_storage_ok : @HashStorageOk disk_hash_table.t page_storage := table_storage_ok all_pages 7 all_pages_limit ltac:(done).

Lemma empty_table_holds : hs_holds empty_table [].
Proof.
  unfold empty_table. pose proof (new_empty all_pages all_pages_limit 7 [] 1 ltac:(done)) as Hnew.
  destruct (disk_hash_table.new all_pages [] [] 1 7) as [tb|e] eqn:E; [|by vm_compute in E].
  destruct Hnew as [[bk H] _]. exists 7, bk. split; [unfold in_width; lia|exact H].
Qed.

(** Every sidecar can be replaced. *)
Definition published (_ : sidecar) : bool := true.

(** Two keys, a merge with a write in its middle, a restart and a transaction; two records to a
    segment. *)
Definition index_ops : list iop :=
  [o_insert (bigint 5) 1; o_insert (integer 5) 2; o_insert (bigint 6) 3; o_merge_begin; o_merge_build; o_remove_row (bigint 5) 1; o_merge_finish;
   o_find (bigint 5); o_reopen ∅; o_txn (Frame 9 true [(bigint 7, 4)]); o_load_entries].


(** ** Restarts *)

(** Nothing is left to do for an entry. *)
Definition settled (i : bool) (M : index_map) (v : logical_value_t * Z) : Prop := if i then v.2 ∈ rows_of M v.1 else v.2 ∉ rows_of M v.1.

Lemma settled_value i M v : settled i M v -> m_value i M v = M.
Proof. unfold settled, m_value, m_add, m_drop. destruct i; intros H; [by rewrite bool_decide_true|by rewrite bool_decide_false]. Qed.

Lemma settled_here i M v : settled i (m_value i M v) v.
Proof.
  destruct v as [key row]. unfold settled, m_value, m_add, m_drop. cbn [fst snd]. destruct i; case_bool_decide as E; try done.
  - unfold rows_of at 1. rewrite lookup_insert_eq. apply elem_of_app. right. by left.
  - case_bool_decide as El; unfold rows_of at 1; [rewrite lookup_delete_eq; apply not_elem_of_nil|]. rewrite lookup_insert_eq. intros [Hne _]%list_elem_of_filter. done.
Qed.

Lemma settled_keeps i M v w : settled i M v -> settled i (m_value i M w) v.
Proof.
  destruct v as [key row], w as [key' row']. unfold settled, m_value, m_add, m_drop. cbn [fst snd]. destruct i; intros H; case_bool_decide as E; try done.
  - unfold rows_of at 1. destruct (decide (key_of key' = key_of key)) as [Hk|Hne]; [|by rewrite lookup_insert_ne].
    rewrite Hk, lookup_insert_eq. apply elem_of_app. left. unfold rows_of in *. by rewrite Hk.
  - destruct (decide (key_of key' = key_of key)) as [Hk|Hne]; case_bool_decide as El; unfold rows_of at 1; rewrite ?Hk.
    + rewrite lookup_delete_eq. apply not_elem_of_nil.
    + rewrite lookup_insert_eq. intros [_ Hin]%list_elem_of_filter. apply H. unfold rows_of in *. by rewrite <- Hk.
    + by rewrite lookup_delete_ne.
    + by rewrite lookup_insert_ne.
Qed.

Lemma settled_all i M vs : Forall (settled i (foldl (m_value i) M vs)) vs.
Proof.
  revert M. induction vs as [|v vs IH]; intros M; [by apply Forall_nil|]. apply Forall_cons. split; [|apply IH]. cbn [foldl].
  generalize (settled_here i M v). generalize (m_value i M v). clear IH. induction vs as [|w vs IH]; intros M' H; [done|]. cbn [foldl]. by apply IH, settled_keeps.
Qed.

Lemma settled_fold i M vs : Forall (settled i M) vs -> foldl (m_value i) M vs = M.
Proof. induction 1 as [|v vs Hv _ IH]; [done|]. cbn [foldl]. by rewrite settled_value. Qed.

(** Applying a frame of which a part has been applied applies the rest. *)
Lemma frame_again M f j : m_frame (foldl (m_value (f_insert f)) M (take j (f_values f))) f = m_frame M f.
Proof.
  unfold m_frame. rewrite <- (take_drop j (f_values f)) at 2 3. rewrite !foldl_app. by rewrite (settled_fold _ _ (take j (f_values f))) by apply settled_all.
Qed.


(** A crash after the first of two rows, with the hash index lost. *)
Definition torn_frame : frame := Frame 9 true [(bigint 7, 4); (bigint 8, 5)].
Definition torn_log : list segment := [(2, [Entry true 1 (bigint 7) [4]])].
Definition torn_files : files := Files (disk_of castagnoli torn_log) (Some 2) None (Some (frames_bytes castagnoli [torn_frame])) None.

Lemma torn_on_disk : on_disk castagnoli 2 torn_files torn_log 2.
Proof.
  split.
  - done.
  - by repeat constructor.
  - by exists [], [Entry true 1 (bigint 7) [4]].
  - lia.
  - apply Forall_singleton. split_and!; [done| |done]. apply Forall_singleton. split; [|done]. split; cbn; [by apply bigint_ok|done| |done].
    by apply Forall_singleton.
  - done.
  - intros m rm id. done.
  - by vm_compute.
Qed.

Lemma torn_logged : logged castagnoli torn_files [torn_frame].
Proof. exists []. split_and!; [done|done|]. unfold torn_frame. sample_ok. Qed.

Lemma torn_view : view castagnoli torn_log = foldl (m_value true) ∅ (take 1 (f_values torn_frame)).
Proof. unfold view, view_of, torn_log. rewrite slots_single. cbn [places index foldl]. unfold put_slot. cbn [s_entry e_live]. by rewrite fmap_insert, fmap_empty. Qed.

