(* ===== verification/BitcaskFailures.v ===== *)
(** * Where the log-structured index loses or keeps what it should not

    A third merge loses rows, rows of a transaction that never committed survive a restart, and a
    record torn by a crash makes the directory unreadable once another record is written after it. *)

From S2P Require Import Prelude.
From S2P Require Import Bytes.
From S2P Require Import DataChunkBinary.
From S2P Require Import DiskHashTable.
From S2P Require Import DiskHashTheorems.
From S2P Require Import HashStorage.
From S2P Require Import IndexCodec.
From S2P Require Import Bitcask.
From S2P Require Import BitcaskLog.
From S2P Require Import BitcaskSpec.
From S2P Require Import BitcaskOps.
From S2P Require Import BitcaskOpen.
From S2P Require Import BitcaskMerge.
From S2P Require Import BitcaskTheorems.
Import bitcask_index_disk.
#[local] Open Scope Z_scope.

#[local] Instance page_storage : HashStorage disk_hash_table.t := table_storage all_pages 7.
#[local] Instance page_storage_ok : @HashStorageOk disk_hash_table.t page_storage := table_storage_ok all_pages 7 all_pages_limit ltac:(done).

(** A merge from beginning to end. *)
Definition whole_merge : list iop := [o_merge_begin; o_merge_build; o_merge_finish].

(** The results of the lookups. *)
Definition found (rs : list iresult) : list (list Z) := omap (fun r => match r with r_rows rows => Some rows | _ => None end) rs.

(** With one record to a segment, the third merge of an index puts the merged records into a segment
    whose number is 0 - 1, which does not fit the 32 bits of a reference: the rows of the keys merged so far, found before the
    merge, are not found after it. *)
Theorem third_merge_loses_rows :
  let ops := [o_insert (bigint 1) 10; o_insert (bigint 2) 20] ++ whole_merge ++ [o_insert (bigint 3) 30] ++ whole_merge ++
             [o_insert (bigint 4) 40; o_find (bigint 1)] ++ whole_merge ++ [o_find (bigint 1); o_find (bigint 4)] in
  (fun p => (found p.1, collect_segments (files_ (s_index p.2)))) <$>
    (b ← new castagnoli published 1000 1 no_files empty_table ∅; run_index castagnoli published true 1000 1 (Sys b Idle) ops) =
  Ok ([[10]; []; [40]], [5; 2 ^ 64 - 1]).
Proof. by vm_compute. Qed.

(** The active segment when a crash leaves the first [k] bytes of the second of two records. *)
Definition torn_segment (k : nat) : files :=
  let first := encode castagnoli (Entry true 1 (bigint 1) [10]) in
  let second := encode castagnoli (Entry true 2 (bigint 2) [20]) in
  Files {[2 := first ++ take k second]} (Some 2) None None None.

(** Open the directory, look the first record up, insert a row under a third key, restart, and look both up: [None] when
    the restart reports an error. *)
Definition after_torn (k : nat) : outcome (list Z * option (list Z * list Z)) :=
  b ← new castagnoli published 1000 1000 (torn_segment k) (ListTable [] false) ∅;
  before ← find castagnoli b (bigint 1);
  b ← insert castagnoli published 1000 1000 b (bigint 3) 30;
  r ← reopen castagnoli published 1000 1000 b ∅;
  match r with
  | None => mret (before, None)
  | Some b => rows1 ← find castagnoli b (bigint 1); rows3 ← find castagnoli b (bigint 3); mret (before, Some (rows1, rows3))
  end.

(** When a crash leaves a record torn anywhere after its payload size, the directory opens and
    finds the records before it; the next record is appended behind the torn one, and from then on opening
    the directory reports corruption: the row inserted after the crash and those before it are out of reach. *)
Theorem torn_tail_blocks_open (k : nat) : (16 <= k < 45)%nat -> after_torn k = Ok ([10], None).
Proof.
  intros Hk. assert (Hall : Forall (fun k => after_torn k = Ok ([10], None)) (seq 16 29)).
  { apply (Forall_fmap_ext after_torn (fun _ => Ok ([10], None))). by vm_compute. }
  rewrite Forall_forall in Hall. apply Hall, elem_of_seq. lia.
Qed.

Lemma torn_tail_blocks_open_witness : (16 <= 30 < 45)%nat /\ after_torn 30 = Ok ([10], None).
Proof. split; [lia|]. apply (torn_tail_blocks_open 30). lia. Defined.

(** ** Transactions that do not commit *)

Section quiet.
Context {T : Type} {HS : HashStorage T} (crc32c : bytes -> Z) (publishes : sidecar -> bool) (txn_log_opens : bool).
Context (flush_threshold_ segment_record_limit_ : Z).

#[local] Abbreviation t := (t (T := T)).

Definition records (b : t) : Z := active_segment_records_ (counters_ b).

(** At most [k] records were added to the active segment, and no merge was queued. *)
Definition quiet (k : Z) (b b' : t) : Prop := tasks_ b' = tasks_ b /\ 0 <= records b' <= records b + k.

Abbreviation total m Q := (returns (fun _ => True) m Q).

Lemma total_bind {A B} (m : outcome A) (f : A -> outcome B) Q : (forall a, total (f a) Q) -> total (m ≫= f) Q.
Proof. destruct m; cbn; auto. Qed.

Lemma quiet_count b : 0 <= records b -> quiet 1 b (count_record b).
Proof.
  intros H. split; [done|]. unfold records, count_record. cbn. pose proof (Z.mod_le (records b + 1) (2 ^ 64) ltac:(lia) ltac:(lia)).
  pose proof (Z.mod_pos_bound (records b + 1) (2 ^ 64) ltac:(lia)). unfold wrap, records in *. lia.
Qed.

Lemma no_rotation b : records b < segment_record_limit_ -> rotate_active_segment_if_needed publishes segment_record_limit_ b = Ok b.
Proof. intros H. unfold rotate_active_segment_if_needed. rewrite bool_decide_false by (unfold records in H; lia). by destruct (bulk_mode_ _). Qed.

Lemma append_snapshot_quiet b key rows :
  0 <= records b < segment_record_limit_ -> total (append_snapshot crc32c publishes segment_record_limit_ b key rows) (quiet 1 b).
Proof.
  intros H. unfold append_snapshot. rewrite no_rotation by lia. cbn [mbind outcome_bind]. apply total_bind. intros payload.
  unfold append_record. destruct (segments b !! active b) as [f|]; [|done]. cbn [of_option mbind outcome_bind mret outcome_ret].
  apply total_bind. intros kb. apply total_bind. intros tb. apply total_bind. intros [_ tb']. cbn [returns mret outcome_ret].
  match goal with |- quiet 1 _ (count_record ?b2) => exact (quiet_count b2 (proj1 H)) end.
Qed.

Lemma add_row_quiet b key row :
  0 <= records b < segment_record_limit_ -> total (add_row crc32c publishes segment_record_limit_ b key row) (fun p => quiet 1 b p.2).
Proof.
  intros H. unfold add_row. apply total_bind. intros rows. case_bool_decide; [split; [done|cbn; lia]|].
  eapply returns_bind; [by apply append_snapshot_quiet|]. by intros b'.
Qed.

Lemma for_values_quiet values b :
  0 <= records b -> records b + zlen values <= segment_record_limit_ ->
  total (for_values (add_row crc32c publishes segment_record_limit_) b values) (quiet (zlen values) b).
Proof.
  revert b. induction values as [|[key row] values IH]; intros b H0 H; cbn [for_values]; [split; [done|change (zlen (@nil (logical_value_t * Z))) with 0; lia]|].
  rewrite zlen_cons in H. pose proof (zlen_nonneg values). eapply returns_bind; [apply add_row_quiet; lia|].
  intros [w b1] [Ht Hr]. cbn [snd] in *. eapply returns_mono; [apply IH; lia|]. intros b2 [Ht2 Hr2]. split; [by rewrite Ht2|]. rewrite zlen_cons. lia.
Qed.

Lemma apply_txn_quiet b txn_id values :
  0 <= records b -> records b + zlen values <= segment_record_limit_ ->
  total (apply_txn_inserts crc32c publishes txn_log_opens segment_record_limit_ b txn_id values) (fun p => tasks_ p.2 = tasks_ b).
Proof.
  intros H0 H. unfold apply_txn_inserts, apply_txn, append_txn_record_unlocked. destruct (txn_payload values) as [payload|]; [|done].
  cbn [mbind outcome_bind]. destruct txn_log_opens; [|done]. cbn [negb mret outcome_ret mbind outcome_bind].
  eapply returns_bind; [by apply for_values_quiet|]. intros b' [Ht _]. unfold write_applied_log_offset, force_flush_unlocked.
  destruct (dirty_ _), (publishes _); exact Ht.
Qed.

(** A new index has nothing queued. *)
Lemma new_quiet tb committed :
  total (new crc32c publishes flush_threshold_ segment_record_limit_ no_files tb committed) (fun b => tasks_ b = 0%nat /\ records b = 0).
Proof.
  unfold new, create, load_from_disk, suppress_rehash. cbn [fresh hash_index_]. destruct (hs_suppress tb true) as [prev tb1].
  cbn [files_ with_hash with_files fresh]. change (apply_merge_recovery_cleanup no_files) with no_files. change (collect_segments no_files) with (@nil Z). cbn iota.
  unfold restore_rehash, suppress_rehash. cbn [hash_index_ with_hash with_files with_counters counters_ fresh]. destruct (hs_suppress tb1 prev) as [prev2 tb2].
  destruct prev; [|cbn; destruct (hs_trigger tb2) as [[g tb3]|]; [|done]]; cbn; unfold open_active_segment, write_current_segment_id; cbn; by destruct (publishes _).
Qed.
End quiet.

Lemma returns_and {A} (E E' : fault -> Prop) (m : outcome A) P Q : returns E m P -> returns E' m Q -> returns E m (fun a => P a /\ Q a).
Proof. destruct m; cbn; auto. Qed.

(** A row a frame inserts is in the map afterwards. *)
Lemma frame_rows M f key row : f_insert f = true -> (key, row) ∈ f_values f -> row ∈ rows_of (m_frame M f) key.
Proof.
  intros Hi Hin. pose proof (settled_all true M (f_values f)) as Hs. rewrite Forall_forall in Hs. unfold m_frame. rewrite Hi. by apply (Hs (key, row)).
Qed.

(** The rows an index was given by a transaction that never committed are found after a restart,
    although the transaction log is replayed for committed transactions only. *)
Theorem uncommitted_rows_survive_restart {T : Type} {HS : HashStorage T} {HSO : HashStorageOk T} crc32c publishes flush_threshold_
    segment_record_limit_ (tb : T) txn_id values committed key row :
  hs_holds tb [] -> in_width 64 txn_id -> Forall value_in values -> 4 * zlen values <= limit -> zlen values <= segment_record_limit_ ->
  txn_id ∉ committed -> (key, row) ∈ values ->
  returns (io_fault publishes)
    (b ← new crc32c publishes flush_threshold_ segment_record_limit_ no_files tb ∅;
     '(_, b) ← apply_txn_inserts crc32c publishes true segment_record_limit_ b txn_id values;
     r ← reopen crc32c publishes flush_threshold_ segment_record_limit_ b committed;
     match r with Some b => find crc32c b key | None => Fault Abort end)
    (fun rows => row ∈ rows).
Proof.
  intros Hh Ht Hv Hl Hseg Hnc Hin. set (f := Frame txn_id true values). pose proof (zlen_nonneg values).
  assert (Hf : frame_ok f) by (split; cbn; [done|done|lia]). unfold new.
  eapply returns_bind with (P := fun b => opened crc32c 2 0 ∅ b /\ (tasks_ b = 0%nat /\ records b = 0)).
  { eapply returns_and; [|apply new_quiet]. eapply returns_bind; [by apply create_empty|]. intros r (b & -> & Ho). exact Ho. }
  intros b [[(L & W & Hview & Hm & Hids) Hlog] [Htk Hrec]].
  pose proof (apply_txn_wf crc32c publishes true segment_record_limit_ 0 b L f [] W Hlog Hf ltac:(cbn; lia)) as Happ. cbn [f_insert f f_txn f_values] in Happ.
  pose proof (apply_txn_quiet crc32c publishes true segment_record_limit_ b txn_id values ltac:(lia) ltac:(lia)) as Hq.
  eapply returns_bind; [exact (returns_and _ _ _ _ _ Happ Hq)|]. intros [err b1] [(L1 & W1 & Hv1 & Hm1 & Ha1 & Hi1 & _ & Hlog1) Htk1]. cbn [fst snd] in *.
  set (pd := match err with None => [] | Some _ => [f] end) in *. assert (Hw : weight pd <= 2 * zlen values) by (destruct err; cbn; lia).
  eapply returns_bind.
  - eapply (reopen_wf crc32c publishes flush_threshold_ segment_record_limit_ 2 _ b1 L1 committed pd W1).
    + by apply (ids_grow crc32c 2 0 b L L1 W); [apply Hi1|].
    + eapply (manifest_grow _ L L1 (active b)); [|done|by apply Hi1]. intros m rm id E Hid. apply (Hm m rm); [by rewrite <- Hm1|done].
    + exact Hlog1.
    + lia.
    + by rewrite Htk1.
  - intros r (b2 & -> & (L2 & W2 & Hv2 & _) & _). rewrite (find_view crc32c _ b2 L2 key W2).
    + cbn [returns]. rewrite Hv2. replace (m_frames committed (view crc32c L1) pd) with (view crc32c L1).
      * rewrite Hv1. by apply (frame_rows _ f).
      * destruct err; [|done]. cbn. by rewrite bool_decide_false.
    + lia.
    + rewrite Forall_forall in Hv. apply (Hv _ Hin).
Qed.

Lemma uncommitted_rows_survive_restart_witness :
  let m := b ← new castagnoli published 1000 1000 no_files empty_table ∅;
           '(_, b) ← apply_txn_inserts castagnoli published true 1000 b 9 [(bigint 7, 4)];
           r ← reopen castagnoli published 1000 1000 b {[5]};
           match r with Some b => find castagnoli b (bigint 7) | None => Fault Abort end in
  returns (io_fault published) m (fun rows => 4 ∈ rows) /\ m = Ok [4].
Proof.
  split; [|by vm_compute].
  apply (uncommitted_rows_survive_restart castagnoli published 1000 1000 empty_table 9 [(bigint 7, 4)] {[5]} (bigint 7) 4 empty_table_holds).
  - done.
  - sample_ok.
  - by vm_compute.
  - by vm_compute.
  - by apply not_elem_of_singleton.
  - by left.
Defined.
