(* ===== verification/MemoryIndex.v ===== *)
(** * In-memory indexes

    [components/index/]: versioned index entries, the ordered and the hashed in-memory index with
    their bookkeeping of pending transactions, and the search that filters entries by visibility.
    [absl::btree_multimap] and [std::unordered_multimap] are the sequence of their elements in
    iteration order; the class [Multimap] says when keys are equivalent and where an element is put. *)

From S2P Require Import Prelude.
From S2P Require Import Visibility.
#[local] Open Scope Z_scope.

Module index.

(** ** Entries *)

Record index_value_t := IndexValue { row_index : Z; insert_id : Z; delete_id : Z }.

Definition index_entry_visible (e : index_value_t) (start_time txn_id : Z) : bool :=
  if bool_decide (txn_id = 0) && bool_decide (start_time = 0) then
    bool_decide (insert_id e < TRANSACTION_ID_START) &&
    (bool_decide (delete_id e = NOT_DELETED_ID) || bool_decide (TRANSACTION_ID_START <= delete_id e))
  else
    let inserted := bool_decide (insert_id e < start_time) || bool_decide (insert_id e = txn_id) in
    let deleted :=
      (bool_decide (delete_id e < start_time) && bool_decide (delete_id e < TRANSACTION_ID_START)) || bool_decide (delete_id e = txn_id) in
    inserted && negb deleted.

(** [index_value_t(row_index)]. *)
Definition plain_value (row : Z) : index_value_t := IndexValue row 0 NOT_DELETED_ID.

Definition set_insert (id : Z) (e : index_value_t) : index_value_t := IndexValue (row_index e) id (delete_id e).
Definition set_delete (id : Z) (e : index_value_t) : index_value_t := IndexValue (row_index e) (insert_id e) id.

(** ** What every index offers *)

Inductive compare_type :=
| cmp_invalid | cmp_eq | cmp_ne | cmp_gt | cmp_lt | cmp_gte | cmp_lte | cmp_regex | cmp_any | cmp_all
| cmp_union_and | cmp_union_or | cmp_union_not | cmp_all_true | cmp_all_false | cmp_is_null | cmp_is_not_null.

(** The virtual methods a search calls. A range is the values it spans; a bound splits all values
    at the iterator it returns. [find] may change the index: one implementation keeps its last
    result, and iterates over it. *)
Class Index (I K : Type) := {
  find_impl : I -> K -> outcome (I * list index_value_t);
  lower_bound_impl : I -> K -> outcome (list index_value_t * list index_value_t);
  upper_bound_impl : I -> K -> outcome (list index_value_t * list index_value_t);
  all_impl : I -> list index_value_t;
}.

Section search.
Context {I K : Type} `{Index I K}.

Definition rows_where (P : index_value_t -> bool) (l : list index_value_t) : list Z := row_index <$> filter P l.

(** The inner loop of [ne]. *)
Definition in_range (range : list index_value_t) (e : index_value_t) : bool := existsb (fun r => bool_decide (row_index r = row_index e)) range.

(** Both overloads, which differ in the entries they let through. *)
Definition search_with (vis : index_value_t -> bool) (s : I) (compare : compare_type) (value : K) : outcome (I * list Z) :=
  match compare with
  | cmp_eq => '(s, range) ← find_impl s value; mret (s, rows_where vis range)
  | cmp_lt => '(before, _) ← lower_bound_impl s value; mret (s, rows_where vis before)
  | cmp_lte => '(before, _) ← upper_bound_impl s value; mret (s, rows_where vis before)
  | cmp_gt => '(_, after) ← upper_bound_impl s value; mret (s, rows_where vis after)
  | cmp_gte => '(_, after) ← lower_bound_impl s value; mret (s, rows_where vis after)
  | cmp_ne => '(s, range) ← find_impl s value; mret (s, rows_where (fun e => vis e && negb (in_range range e)) (all_impl s))
  | _ => mret (s, [])
  end.

Definition search_all : I -> compare_type -> K -> outcome (I * list Z) := search_with (fun _ => true).

Definition search (s : I) (compare : compare_type) (value : K) (start_time txn_id : Z) : outcome (I * list Z) :=
  search_with (fun e => index_entry_visible e start_time txn_id) s compare value.

End search.
End index.
Import index.

(** ** Containers *)

(** The elements in iteration order. *)
Abbreviation elements K := (list (K * index_value_t)).

Class Multimap (K : Type) := {
  mm_equiv : K -> K -> bool;
  mm_emplace : K -> index_value_t -> elements K -> elements K;
}.

Class MultimapOk (K : Type) `{Multimap K} := {
  mm_equiv_refl k : mm_equiv k k = true;
  mm_equiv_sym k k' : mm_equiv k k' = true -> mm_equiv k' k = true;
  mm_equiv_trans k k' k'' : mm_equiv k k' = true -> mm_equiv k' k'' = true -> mm_equiv k k'' = true;
  mm_emplace_perm k v l : mm_emplace k v l ≡ₚ (k, v) :: l;
}.

(** Change the first element with [P]. *)
Fixpoint update_first {A} (P : A -> bool) (f : A -> A) (l : list A) : option (list A) :=
  match l with
  | [] => None
  | e :: l => if P e then Some (f e :: l) else cons e <$> update_first P f l
  end.

(** Erase the first element with [P]. *)
Fixpoint erase_first {A} (P : A -> bool) (l : list A) : option (list A) :=
  match l with
  | [] => None
  | e :: l => if P e then Some l else cons e <$> erase_first P l
  end.

Module versions.
Section versions.
Context {K : Type} `{Multimap K}.

(** [storage_] and the rows each transaction has inserted and deleted. *)
Record t := Versions {
  storage_ : elements K;
  pending_inserts_ : gmap Z (list (K * Z));
  pending_deletes_ : gmap Z (list (K * Z));
}.

Definition empty : t := Versions [] ∅ ∅.

(** The element of [equal_range(key)] the loops look for. *)
Definition inserted_by (txn_id : Z) (key : K) (row : Z) (e : K * index_value_t) : bool :=
  mm_equiv key e.1 && bool_decide (row_index e.2 = row) && bool_decide (insert_id e.2 = txn_id).
Definition deleted_by (txn_id : Z) (key : K) (row : Z) (e : K * index_value_t) : bool :=
  mm_equiv key e.1 && bool_decide (row_index e.2 = row) && bool_decide (delete_id e.2 = txn_id).

Definition on_value (f : index_value_t -> index_value_t) (e : K * index_value_t) : K * index_value_t := (e.1, f e.2).

Definition push (m : gmap Z (list (K * Z))) (txn_id : Z) (p : K * Z) : gmap Z (list (K * Z)) := <[txn_id := default [] (m !! txn_id) ++ [p]]> m.

Definition emplace (s : t) (key : K) (value : index_value_t) : t := Versions (mm_emplace key value (storage_ s)) (pending_inserts_ s) (pending_deletes_ s).

Definition remove (s : t) (key : K) : t :=
  Versions (default (storage_ s) (erase_first (fun e => mm_equiv key e.1) (storage_ s))) (pending_inserts_ s) (pending_deletes_ s).

Definition insert_txn (s : t) (key : K) (row txn_id : Z) : t :=
  Versions (mm_emplace key (IndexValue row txn_id NOT_DELETED_ID) (storage_ s)) (push (pending_inserts_ s) txn_id (key, row)) (pending_deletes_ s).

Definition mark_delete (s : t) (key : K) (row txn_id : Z) : t :=
  match update_first (deleted_by NOT_DELETED_ID key row) (on_value (set_delete txn_id)) (storage_ s) with
  | Some l => Versions l (pending_inserts_ s) (push (pending_deletes_ s) txn_id (key, row))
  | None => s
  end.

(** The loop over a transaction's pending list: [step] on the first element each entry names. *)
Fixpoint for_pending (step : K -> Z -> elements K -> option (elements K)) (p : list (K * Z)) (l : elements K) : elements K :=
  match p with
  | [] => l
  | (key, row) :: p => for_pending step p (default l (step key row l))
  end.

Definition commit_insert (s : t) (txn_id commit_id : Z) : t :=
  match pending_inserts_ s !! txn_id with
  | None => s
  | Some p =>
      Versions (for_pending (fun key row => update_first (inserted_by txn_id key row) (on_value (set_insert commit_id))) p (storage_ s))
        (delete txn_id (pending_inserts_ s)) (pending_deletes_ s)
  end.

Definition commit_delete (s : t) (txn_id commit_id : Z) : t :=
  match pending_deletes_ s !! txn_id with
  | None => s
  | Some p =>
      Versions (for_pending (fun key row => update_first (deleted_by txn_id key row) (on_value (set_delete commit_id))) p (storage_ s))
        (pending_inserts_ s) (delete txn_id (pending_deletes_ s))
  end.

Definition revert_insert (s : t) (txn_id : Z) : t :=
  match pending_inserts_ s !! txn_id with
  | None => s
  | Some p =>
      Versions (for_pending (fun key row => erase_first (inserted_by txn_id key row)) p (storage_ s))
        (delete txn_id (pending_inserts_ s)) (pending_deletes_ s)
  end.

Definition revert_delete (s : t) (txn_id : Z) : t :=
  match pending_deletes_ s !! txn_id with
  | None => s
  | Some p =>
      Versions (for_pending (fun key row => update_first (deleted_by txn_id key row) (on_value (set_delete NOT_DELETED_ID))) p (storage_ s))
        (pending_inserts_ s) (delete txn_id (pending_deletes_ s))
  end.

Definition cleanup_versions (s : t) (lowest_active : Z) : t :=
  Versions (filter (fun e => ~ (delete_id e.2 < lowest_active /\ delete_id e.2 < TRANSACTION_ID_START)) (storage_ s))
    (pending_inserts_ s)
    (filter (fun p => ~ (p.1 < lowest_active /\ p.1 < TRANSACTION_ID_START)) (pending_deletes_ s)).

(** What [for_each_pending_insert] and [for_each_pending_delete] visit. *)
Definition pending_insert_list (s : t) (txn_id : Z) : list (K * Z) := default [] (pending_inserts_ s !! txn_id).
Definition pending_delete_list (s : t) (txn_id : Z) : list (K * Z) := default [] (pending_deletes_ s !! txn_id).

Definition clean_memory_to_new_elements (s : t) : t := empty.

Definition equal_range (s : t) (key : K) : elements K := filter (fun e => mm_equiv key e.1) (storage_ s).

End versions.
End versions.
Arguments versions.t : clear implicits.

(** ** Keys

    What an index asks of values: their type, casts, and comparisons. *)

Class Key (K T : Type) := {
  key_type : K -> T;
  type_na : T;
  cast_as : K -> T -> K;
  key_lt : K -> K -> bool;
  type_eq_dec :: EqDecision T;
}.

(** ** The ordered index *)

Module single_field_index.
Section single_field_index.
Context {K T : Type} `{Key K T} `{Multimap K}.

Record t := Make { base : versions.t K; stored_type_ : T }.

Definition empty : t := Make versions.empty type_na.

Definition type_for (s : t) (key : K) : T := if bool_decide (stored_type_ s = type_na) then key_type key else stored_type_ s.

Definition insert_impl (s : t) (key : K) (value : index_value_t) : t :=
  let ty := type_for s key in Make (versions.emplace (base s) (cast_as key ty) value) ty.

Definition remove_impl (s : t) (key : K) : t := Make (versions.remove (base s) (cast_as key (stored_type_ s))) (stored_type_ s).

Definition insert_txn_impl (s : t) (key : K) (row txn_id : Z) : t :=
  let ty := type_for s key in Make (versions.insert_txn (base s) (cast_as key ty) row txn_id) ty.

Definition mark_delete_impl (s : t) (key : K) (row txn_id : Z) : t :=
  Make (versions.mark_delete (base s) (cast_as key (stored_type_ s)) row txn_id) (stored_type_ s).

Definition commit_insert_impl (s : t) (txn_id commit_id : Z) : t := Make (versions.commit_insert (base s) txn_id commit_id) (stored_type_ s).
Definition commit_delete_impl (s : t) (txn_id commit_id : Z) : t := Make (versions.commit_delete (base s) txn_id commit_id) (stored_type_ s).
Definition revert_insert_impl (s : t) (txn_id : Z) : t := Make (versions.revert_insert (base s) txn_id) (stored_type_ s).
Definition revert_delete_impl (s : t) (txn_id : Z) : t := Make (versions.revert_delete (base s) txn_id) (stored_type_ s).
Definition cleanup_versions_impl (s : t) (lowest_active : Z) : t := Make (versions.cleanup_versions (base s) lowest_active) (stored_type_ s).
Definition for_each_pending_insert_impl (s : t) (txn_id : Z) : list (K * Z) := versions.pending_insert_list (base s) txn_id.
Definition for_each_pending_delete_impl (s : t) (txn_id : Z) : list (K * Z) := versions.pending_delete_list (base s) txn_id.
Definition clean_memory_to_new_elements_impl (s : t) : t := Make versions.empty (stored_type_ s).

Definition find (s : t) (value : K) : list index_value_t := snd <$> versions.equal_range (base s) (cast_as value (stored_type_ s)).

(** The elements before the first one [P] fails on, and the rest. *)
Fixpoint split_while {A} (P : A -> bool) (l : list A) : list A * list A :=
  match l with
  | [] => ([], [])
  | e :: l => if P e then let '(before, after) := split_while P l in (e :: before, after) else ([], e :: l)
  end.

Definition values_split (P : K -> bool) (s : t) : list index_value_t * list index_value_t :=
  prod_map (fmap snd) (fmap snd) (split_while (fun e => P e.1) (versions.storage_ (base s))).

Definition lower_bound (s : t) (value : K) : list index_value_t * list index_value_t :=
  let v := cast_as value (stored_type_ s) in values_split (fun k => key_lt k v) s.

Definition upper_bound (s : t) (value : K) : list index_value_t * list index_value_t :=
  let v := cast_as value (stored_type_ s) in values_split (fun k => negb (key_lt v k)) s.

#[global] Instance single_field_index : Index t K := {|
  find_impl s v := mret (s, find s v);
  lower_bound_impl s v := mret (lower_bound s v);
  upper_bound_impl s v := mret (upper_bound s v);
  all_impl s := snd <$> versions.storage_ (base s);
|}.

End single_field_index.
Arguments t : clear implicits.
End single_field_index.

(** ** The hashed index *)

Module hash_single_field_index.
Section hash_single_field_index.
Context {K : Type} `{Multimap K}.

Definition t : Type := versions.t K.

Definition insert_impl (s : t) (key : K) (value : index_value_t) : t := versions.emplace s key value.
Definition remove_impl (s : t) (key : K) : t := versions.remove s key.
Definition insert_txn_impl (s : t) (key : K) (row txn_id : Z) : t := versions.insert_txn s key row txn_id.
Definition mark_delete_impl (s : t) (key : K) (row txn_id : Z) : t := versions.mark_delete s key row txn_id.
Definition commit_insert_impl (s : t) (txn_id commit_id : Z) : t := versions.commit_insert s txn_id commit_id.
Definition commit_delete_impl (s : t) (txn_id commit_id : Z) : t := versions.commit_delete s txn_id commit_id.
Definition revert_insert_impl (s : t) (txn_id : Z) : t := versions.revert_insert s txn_id.
Definition revert_delete_impl (s : t) (txn_id : Z) : t := versions.revert_delete s txn_id.
Definition cleanup_versions_impl (s : t) (lowest_active : Z) : t := versions.cleanup_versions s lowest_active.
Definition for_each_pending_insert_impl (s : t) (txn_id : Z) : list (K * Z) := versions.pending_insert_list s txn_id.
Definition for_each_pending_delete_impl (s : t) (txn_id : Z) : list (K * Z) := versions.pending_delete_list s txn_id.
Definition clean_memory_to_new_elements_impl (s : t) : t := versions.clean_memory_to_new_elements s.
Definition find (s : t) (value : K) : list index_value_t := snd <$> versions.equal_range s value.

#[global] Instance hash_single_field_index : Index t K := {|
  find_impl s v := mret (s, find s v);
  lower_bound_impl _ _ := Fault (Throw 31);
  upper_bound_impl _ _ := Fault (Throw 31);
  all_impl s := snd <$> versions.storage_ s;
|}.

End hash_single_field_index.
Arguments t : clear implicits.
End hash_single_field_index.
