(* ===== verification/MemoryIndexTheorems.v ===== *)
(** * What the in-memory indexes guarantee

    The pending lists of an index are an optimisation: committing or reverting a transaction through
    them is a pass over the whole index. Every run of operations is thus a run of a multiset of
    versioned entries; an aborted transaction leaves no trace; searches of the ordered index select
    by key; and the entries a reader sees are those the table shows it, as long as no commit was in
    flight when it began. *)

From S2P Require Import Prelude.
From S2P Require Import Visibility.
From S2P Require Import TransactionManager.
From S2P Require Import MemoryIndex.
Import index versions.
#[local] Open Scope Z_scope.

(** ** Counting *)

Definition countb {A} (P : A -> bool) (l : list A) : nat := length (filter (fun x => P x = true) l).

Lemma countb_nil {A} (P : A -> bool) : countb P [] = 0%nat.
Proof. done. Qed.

Lemma countb_cons {A} (P : A -> bool) x l : countb P (x :: l) = ((if P x then 1 else 0) + countb P l)%nat.
Proof. unfold countb. rewrite filter_cons. by destruct (P x). Qed.

Lemma countb_app {A} (P : A -> bool) l k : countb P (l ++ k) = (countb P l + countb P k)%nat.
Proof. unfold countb. by rewrite filter_app, length_app. Qed.

#[global] Instance countb_perm {A} (P : A -> bool) : Proper ((≡ₚ) ==> eq) (countb P).
Proof. intros l k E. unfold countb. by rewrite E. Qed.

Lemma countb_ext {A} (P Q : A -> bool) l : (forall x, x ∈ l -> P x = Q x) -> countb P l = countb Q l.
Proof.
  induction l as [|x l IH]; intros H; [done|]. rewrite !countb_cons, (H x) by set_solver. f_equal. apply IH. set_solver.
Qed.

Lemma countb_zero {A} (P : A -> bool) l x : countb P l = 0%nat -> x ∈ l -> P x = false.
Proof.
  induction l as [|y l IH]; [set_solver|]. rewrite countb_cons. destruct (P y) eqn:E; [lia|].
  intros H [->|Hx]%elem_of_cons; [done|]. by apply IH.
Qed.

Lemma countb_none {A} (P : A -> bool) l : (forall x, x ∈ l -> P x = false) -> countb P l = 0%nat.
Proof. induction l as [|x l IH]; intros H; [done|]. rewrite countb_cons, (H x), IH by set_solver. done. Qed.

Lemma countb_pos {A} (P : A -> bool) l : (0 < countb P l)%nat -> exists x, x ∈ l /\ P x = true.
Proof.
  induction l as [|x l IH]; [cbn; lia|]. rewrite countb_cons. destruct (P x) eqn:E; [exists x; set_solver|].
  intros (y & Hy & HP)%IH. exists y. set_solver.
Qed.

Lemma countb_filter {A} (P : A -> bool) (Q : A -> Prop) `{!forall x, Decision (Q x)} l : (countb P (filter Q l) <= countb P l)%nat.
Proof. induction l as [|x l IH]; [done|]. rewrite filter_cons, !countb_cons. case_decide; rewrite ?countb_cons; lia. Qed.

Lemma countb_map {A} (P Q : A -> bool) f l : (forall x, x ∈ l -> P (f x) = Q x) -> countb P (f <$> l) = countb Q l.
Proof.
  induction l as [|x l IH]; intros H; [done|]. rewrite fmap_cons, !countb_cons, (H x) by set_solver. f_equal. apply IH. set_solver.
Qed.

(** ** Changing the first element

    Both loops of the index replace the first element with [P] by none or one element. *)

Fixpoint act_first {A} (P : A -> bool) (act : A -> list A) (l : list A) : option (list A) :=
  match l with
  | [] => None
  | e :: l => if P e then Some (act e ++ l) else cons e <$> act_first P act l
  end.

Lemma update_first_act {A} (P : A -> bool) f l : update_first P f l = act_first P (fun e => [f e]) l.
Proof. induction l as [|e l IH]; cbn; [done|]. by rewrite IH. Qed.

Lemma erase_first_act {A} (P : A -> bool) l : erase_first P l = act_first P (fun _ => []) l.
Proof. induction l as [|e l IH]; cbn; [done|]. by rewrite IH. Qed.

Lemma act_first_None {A} (P : A -> bool) act l : act_first P act l = None -> forall e, e ∈ l -> P e = false.
Proof.
  induction l as [|e l IH]; cbn; [set_solver|]. destruct (P e) eqn:E; [done|].
  intros H%fmap_None x [->|Hx]%elem_of_cons; [done|]. by apply IH.
Qed.

Lemma act_first_Some {A} (P : A -> bool) act l l' :
  act_first P act l = Some l' ->
  exists l1 e l2, l = l1 ++ e :: l2 /\ l' = l1 ++ act e ++ l2 /\ P e = true.
Proof.
  revert l'. induction l as [|e l IH]; cbn; [done|]. intros l'. destruct (P e) eqn:E.
  - intros [= <-]. by exists [], e, l.
  - intros (k & (l1 & x & l2 & -> & -> & Hx)%IH & ->)%fmap_Some. by exists (e :: l1), x, l2.
Qed.

(** ** The loop over a pending list is a pass over the index *)

Section pending.
Context {K : Type} {mm : Multimap K} {mm_ok : MultimapOk K}.
Implicit Types (l : elements K) (p : list (K * Z)) (e : K * index_value_t) (key : K) (row txn_id : Z).

(** An entry of a pending list names the elements with key and row. *)
Definition names (key : K) (row : Z) (q : K * Z) : bool := mm_equiv key q.1 && bool_decide (row = q.2).

(** The elements with an id, of which [M key row] are those with key and row. *)
Definition matches (has : K * index_value_t -> bool) (key : K) (row : Z) (e : K * index_value_t) : bool :=
  mm_equiv key e.1 && bool_decide (row_index e.2 = row) && has e.

Definition covered (has : K * index_value_t -> bool) (l : elements K) (p : list (K * Z)) : Prop :=
  forall key row, (countb (matches has key row) l <= countb (names key row) p)%nat.

Lemma equiv_class key k k' : mm_equiv k k' = true -> mm_equiv key k = mm_equiv key k'.
Proof.
  intros H. destruct (mm_equiv key k) eqn:E1, (mm_equiv key k') eqn:E2; try done.
  - rewrite (mm_equiv_trans key k k') in E2; done.
  - rewrite (mm_equiv_trans key k' k) in E1; [done|done|]. by apply mm_equiv_sym.
Qed.

Lemma covered_none has l : covered has l [] -> forall e, e ∈ l -> has e = false.
Proof.
  intros H e He. specialize (H e.1 (row_index e.2)). rewrite countb_nil in H.
  assert (Hz : matches has e.1 (row_index e.2) e = false) by (eapply countb_zero; [|done]; lia).
  unfold matches in Hz. rewrite mm_equiv_refl, bool_decide_true in Hz by done. done.
Qed.

(** What the pass does to an element. *)
Definition pass (has : K * index_value_t -> bool) (act : K * index_value_t -> elements K) (e : K * index_value_t) : elements K :=
  if has e then act e else [e].

Lemma pass_settled has act l : (forall e, e ∈ l -> has e = false) -> l ≫= pass has act = l.
Proof.
  induction l as [|e l IH]; intros H; [done|]. rewrite bind_cons, IH by set_solver. unfold pass. by rewrite (H e) by set_solver.
Qed.

Lemma countb_settled has key row l : (forall e, e ∈ l -> has e = false) -> countb (matches has key row) l = 0%nat.
Proof. intros H. apply countb_none. intros e He. unfold matches. by rewrite (H e He), andb_false_r. Qed.

Lemma names_class key row k r e : names key row (k, r) = true -> forall has, matches has key row e = matches has k r e.
Proof.
  unfold names, matches. cbn. intros [H1 ->%bool_decide_eq_true]%andb_prop has. do 2 f_equal.
  destruct (mm_equiv key e.1) eqn:E1, (mm_equiv k e.1) eqn:E2; try done.
  - rewrite (mm_equiv_trans k key e.1) in E2; [done|by apply mm_equiv_sym|done].
  - rewrite (mm_equiv_trans key k e.1) in E1; done.
Qed.

Lemma matches_class has k r key row e : matches has k r e = true -> matches has key row e = names key row (k, r).
Proof.
  unfold matches, names. intros [[H1 H2%bool_decide_eq_true]%andb_prop H3]%andb_prop. cbn.
  rewrite H3, andb_true_r, (equiv_class key k e.1 H1), H2. f_equal. by apply bool_decide_ext.
Qed.

Lemma matches_has has k r e : matches has k r e = true -> has e = true.
Proof. by intros [_ ?]%andb_prop. Qed.

Lemma for_pending_act has act p l :
  covered has l p -> (forall e x, x ∈ act e -> has x = false) ->
  for_pending (fun key row => act_first (matches has key row) act) p l = l ≫= pass has act.
Proof.
  intros Hc Ha. revert l Hc. induction p as [|[k r] p IH]; intros l Hc; cbn [for_pending].
  - by rewrite pass_settled by by apply covered_none.
  - destruct (act_first (matches has k r) act l) as [l'|] eqn:E; cbn [default from_option id]; unfold id.
    + apply act_first_Some in E as (l1 & e & l2 & -> & -> & He). rewrite IH.
      * rewrite !bind_app, bind_cons. rewrite (pass_settled has act (act e)) by apply Ha.
        assert (pass has act e = act e) as -> by (unfold pass; by rewrite (matches_has _ _ _ _ He)). done.
      * intros key row. specialize (Hc key row). revert Hc. rewrite !countb_app, !countb_cons.
        rewrite (countb_settled has key row (act e)), (matches_class has k r key row e He) by (done || apply Ha). lia.
    + pose proof (act_first_None _ _ _ E) as Hn. apply IH. intros key row. specialize (Hc key row).
      rewrite countb_cons in Hc. destruct (names key row (k, r)) eqn:En; [|done].
      rewrite (countb_ext _ (matches has k r)) by (intros; by apply names_class).
      rewrite countb_none by done. lia.
Qed.

End pending.

(** ** The index as a multiset of versioned entries *)

(** The ids pending stamps carry: the ids of transactions and, in an index that is rebuilt from its
    table ([zero]), 0. In an index loaded from its B+ tree the entries carry 0 without being pending. *)
Definition is_txn (zero : bool) (id : Z) : Prop := (zero = true /\ id = 0) \/ TRANSACTION_ID_START <= id < NOT_DELETED_ID.

#[global] Instance is_txn_dec zero id : Decision (is_txn zero id).
Proof. unfold is_txn. apply _. Defined.

Lemma not_deleted_no_txn zero : ~ is_txn zero NOT_DELETED_ID.
Proof. unfold is_txn. pose proof id_bounds. lia. Qed.

Section refinement.
Context {K : Type} {mm : Multimap K} {mm_ok : MultimapOk K} (zero : bool).
Implicit Types (l : elements K) (e : K * index_value_t) (key : K) (row : Z).

Inductive op :=
| OEmplace (key : K) (value : index_value_t)
| ORemove (key : K)
| OInsertTxn (key : K) (row txn_id : Z)
| OMarkDelete (key : K) (row txn_id : Z)
| OCommitInsert (txn_id commit_id : Z)
| OCommitDelete (txn_id commit_id : Z)
| ORevertInsert (txn_id : Z)
| ORevertDelete (txn_id : Z)
| OCleanup (lowest_active : Z)
| OClean.

Definition exec (s : versions.t K) (o : op) : versions.t K :=
  match o with
  | OEmplace k v => emplace s k v
  | ORemove k => remove s k
  | OInsertTxn k r t => insert_txn s k r t
  | OMarkDelete k r t => mark_delete s k r t
  | OCommitInsert t c => commit_insert s t c
  | OCommitDelete t c => commit_delete s t c
  | ORevertInsert t => revert_insert s t
  | ORevertDelete t => revert_delete s t
  | OCleanup low => cleanup_versions s low
  | OClean => clean_memory_to_new_elements s
  end.

#[local] Abbreviation is_txn := (is_txn zero).
#[local] Abbreviation not_deleted_no_txn := (not_deleted_no_txn zero).

(** Commits and reverts are for transactions; commit ids are no transaction ids. *)
Definition op_ok (o : op) : Prop :=
  match o with
  | OEmplace _ v => ~ is_txn (insert_id v) /\ ~ is_txn (delete_id v)
  | OCommitInsert t c | OCommitDelete t c => is_txn t /\ ~ is_txn c
  | ORevertInsert t | ORevertDelete t => is_txn t
  | _ => True
  end.

#[global] Instance op_ok_dec o : Decision (op_ok o).
Proof. destruct o; cbn; apply _. Defined.

Definition restamp_insert (t c : Z) (e : K * index_value_t) : K * index_value_t :=
  if bool_decide (insert_id e.2 = t) then on_value (set_insert c) e else e.
Definition restamp_delete (t c : Z) (e : K * index_value_t) : K * index_value_t :=
  if bool_decide (delete_id e.2 = t) then on_value (set_delete c) e else e.

(** What an operation does to the entries, in any order. *)
Inductive entries_step : op -> elements K -> elements K -> Prop :=
| es_emplace k v l l' : l' ≡ₚ (k, v) :: l -> entries_step (OEmplace k v) l l'
| es_remove k e l l' : mm_equiv k e.1 = true -> l ≡ₚ e :: l' -> entries_step (ORemove k) l l'
| es_remove_none k l l' : (forall e, e ∈ l -> mm_equiv k e.1 = false) -> l' ≡ₚ l -> entries_step (ORemove k) l l'
| es_insert k r t l l' : l' ≡ₚ (k, IndexValue r t NOT_DELETED_ID) :: l -> entries_step (OInsertTxn k r t) l l'
| es_delete k r t e l1 l l' :
    deleted_by NOT_DELETED_ID k r e = true -> l ≡ₚ e :: l1 -> l' ≡ₚ on_value (set_delete t) e :: l1 -> entries_step (OMarkDelete k r t) l l'
| es_delete_none k r t l l' :
    (forall e, e ∈ l -> deleted_by NOT_DELETED_ID k r e = false) -> l' ≡ₚ l -> entries_step (OMarkDelete k r t) l l'
| es_commit_insert t c l l' : l' ≡ₚ restamp_insert t c <$> l -> entries_step (OCommitInsert t c) l l'
| es_commit_delete t c l l' : l' ≡ₚ restamp_delete t c <$> l -> entries_step (OCommitDelete t c) l l'
| es_revert_insert t l l' : l' ≡ₚ filter (fun e => insert_id e.2 <> t) l -> entries_step (ORevertInsert t) l l'
| es_revert_delete t l l' : l' ≡ₚ restamp_delete t NOT_DELETED_ID <$> l -> entries_step (ORevertDelete t) l l'
| es_cleanup low l l' :
    l' ≡ₚ filter (fun e => ~ (delete_id e.2 < low /\ delete_id e.2 < TRANSACTION_ID_START)) l -> entries_step (OCleanup low) l l'
| es_clean l l' : l' = [] -> entries_step OClean l l'.

Fixpoint entries_run (os : list op) (l l' : elements K) : Prop :=
  match os with
  | [] => l' ≡ₚ l
  | o :: os => exists k, entries_step o l k /\ entries_run os k l'
  end.

Definition run (s : versions.t K) (os : list op) : versions.t K := foldl exec s os.

(** Every element with a pending stamp is in the list of its transaction. *)
Definition inserted (t : Z) (e : K * index_value_t) : bool := bool_decide (insert_id e.2 = t).
Definition deleted (t : Z) (e : K * index_value_t) : bool := bool_decide (delete_id e.2 = t).

Record tracked (s : versions.t K) : Prop := {
  tr_inserts t : is_txn t -> covered (inserted t) (storage_ s) (pending_insert_list s t);
  tr_deletes t : is_txn t -> covered (deleted t) (storage_ s) (pending_delete_list s t);
}.

Lemma covered_perm has l l' p : l ≡ₚ l' -> covered has l p -> covered has l' p.
Proof. intros E H key row. by rewrite <- E. Qed.

Lemma covered_settled has l p : (forall e, e ∈ l -> has e = false) -> covered has l p.
Proof. intros H key row. rewrite countb_settled by done. lia. Qed.

Lemma covered_filter has (Q : K * index_value_t -> Prop) `{!forall e, Decision (Q e)} l p : covered has l p -> covered has (filter Q l) p.
Proof. intros Hc key row. etrans; [apply countb_filter|apply Hc]. Qed.

Lemma covered_cons_off has e l p : has e = false -> covered has l p -> covered has (e :: l) p.
Proof. intros He H key row. rewrite countb_cons. unfold matches at 1. rewrite He, andb_false_r. apply H. Qed.

Lemma covered_cons_tail has e l p : covered has (e :: l) p -> covered has l p.
Proof. intros H key row. specialize (H key row). rewrite countb_cons in H. lia. Qed.

Lemma covered_push has key row e l p :
  mm_equiv key e.1 = true -> row_index e.2 = row -> covered has l p -> covered has (e :: l) (p ++ [(key, row)]).
Proof.
  intros He Hr Hc k r. rewrite countb_cons, countb_app, (countb_cons _ (key, _)), countb_nil. specialize (Hc k r).
  enough ((if matches has k r e then 1 else 0) <= (if names k r (key, row) then 1 else 0))%nat by lia.
  unfold matches, names. cbn. rewrite <- (equiv_class k key e.1 He), Hr.
  destruct (mm_equiv k key), (has e); cbn; repeat case_bool_decide; cbn; try lia; congruence.
Qed.

Lemma covered_swap has e e' l p :
  e'.1 = e.1 -> row_index e'.2 = row_index e.2 -> has e' = has e -> covered has (e :: l) p -> covered has (e' :: l) p.
Proof. intros E1 E2 E3 H key row. specialize (H key row). rewrite countb_cons in *. unfold matches at 1. by rewrite E1, E2, E3. Qed.

(** A pass that changes only other marks. *)
Lemma covered_map has f l p :
  (forall e, (f e).1 = e.1 /\ row_index (f e).2 = row_index e.2 /\ has (f e) = has e) -> covered has l p -> covered has (f <$> l) p.
Proof.
  intros Hf H key row. rewrite (countb_map _ (matches has key row)); [apply H|].
  intros e _. destruct (Hf e) as (E1 & E2 & E3). unfold matches. by rewrite E1, E2, E3.
Qed.

(** ** The operations *)

Lemma pass_map has (f : K * index_value_t -> K * index_value_t) l : l ≫= pass has (fun e => [f e]) = (fun e => if has e then f e else e) <$> l.
Proof. induction l as [|e l IH]; [done|]. rewrite bind_cons, fmap_cons, IH. unfold pass. by destruct (has e). Qed.

Lemma pass_filter (P : K * index_value_t -> Prop) `{!forall e, Decision (P e)} l :
  l ≫= pass (fun e => bool_decide (P e)) (fun _ => []) = filter (fun e => ~ P e) l.
Proof.
  induction l as [|e l IH]; [done|]. rewrite bind_cons, filter_cons, IH. unfold pass.
  case_bool_decide; [rewrite decide_False by tauto|rewrite decide_True by tauto]; done.
Qed.

Lemma for_pending_ext f g p l : (forall k r x, f k r x = g k r x) -> for_pending f p l = for_pending (K := K) g p l.
Proof. intros E. revert l. induction p as [|[k r] p IH]; intros l; cbn; [done|]. by rewrite E, IH. Qed.

(** A commit or revert through a pending list [q]: the list of a transaction that has none is empty. *)
Lemma pending_update has f q l :
  covered has l (default [] q) -> (forall e, has (f e) = false) ->
  match q with None => l | Some p => for_pending (fun key row => update_first (matches has key row) f) p l end =
  (fun e => if has e then f e else e) <$> l.
Proof.
  intros Hc Hf. rewrite <- pass_map. destruct q as [p|]; cbn in Hc.
  - rewrite <- (for_pending_act has (fun e => [f e]) p l Hc) by (intros e x ->%list_elem_of_singleton; apply Hf).
    apply for_pending_ext. intros. apply update_first_act.
  - by rewrite pass_settled by by apply covered_none.
Qed.

Lemma pending_erase has q l :
  covered has l (default [] q) ->
  match q with None => l | Some p => for_pending (fun key row => erase_first (matches has key row)) p l end = l ≫= pass has (fun _ => []).
Proof.
  intros Hc. destruct q as [p|]; cbn in Hc.
  - rewrite <- (for_pending_act has (fun _ => []) p l Hc) by (intros; set_solver).
    apply for_pending_ext. intros. apply erase_first_act.
  - by rewrite pass_settled by by apply covered_none.
Qed.

Lemma commit_insert_storage s t c :
  tracked s -> is_txn t -> ~ is_txn c -> storage_ (commit_insert s t c) = restamp_insert t c <$> storage_ s.
Proof.
  intros Ht Hx Hc. pose proof (tr_inserts s Ht t Hx) as Hp. unfold pending_insert_list in Hp.
  transitivity ((fun e => if inserted t e then on_value (set_insert c) e else e) <$> storage_ s); [|by apply list_fmap_ext].
  rewrite <- (pending_update (inserted t) _ _ _ Hp).
  - unfold commit_insert. by destruct (pending_inserts_ s !! t).
  - intros e. apply bool_decide_eq_false. cbn. congruence.
Qed.

Lemma commit_delete_storage s t c :
  tracked s -> is_txn t -> ~ is_txn c -> storage_ (commit_delete s t c) = restamp_delete t c <$> storage_ s.
Proof.
  intros Ht Hx Hc. pose proof (tr_deletes s Ht t Hx) as Hp. unfold pending_delete_list in Hp.
  transitivity ((fun e => if deleted t e then on_value (set_delete c) e else e) <$> storage_ s); [|by apply list_fmap_ext].
  rewrite <- (pending_update (deleted t) _ _ _ Hp).
  - unfold commit_delete. by destruct (pending_deletes_ s !! t).
  - intros e. apply bool_decide_eq_false. cbn. congruence.
Qed.

Lemma revert_delete_commit s t : revert_delete s t = commit_delete s t NOT_DELETED_ID.
Proof. done. Qed.

Lemma revert_insert_storage s t : tracked s -> is_txn t -> storage_ (revert_insert s t) = filter (fun e => insert_id e.2 <> t) (storage_ s).
Proof.
  intros Ht Hx. pose proof (tr_inserts s Ht t Hx) as Hp. unfold pending_insert_list in Hp.
  transitivity (storage_ s ≫= pass (inserted t) (fun _ => [])); [|apply (pass_filter (fun e => insert_id e.2 = t))].
  rewrite <- (pending_erase (inserted t) _ _ Hp).
  unfold revert_insert. by destruct (pending_inserts_ s !! t).
Qed.

(** The pending lists after an operation. *)
Lemma pending_list_erase (m : gmap Z (list (K * Z))) t t' : default [] (delete t m !! t') = if bool_decide (t = t') then [] else default [] (m !! t').
Proof. case_bool_decide as E; [subst; by rewrite lookup_delete_eq|by rewrite lookup_delete_ne]. Qed.

Lemma pending_list_push (m : gmap Z (list (K * Z))) t q t' :
  default [] (push m t q !! t') = if bool_decide (t = t') then default [] (m !! t') ++ [q] else default [] (m !! t').
Proof. unfold push. case_bool_decide as E; [subst; by rewrite lookup_insert_eq|by rewrite lookup_insert_ne]. Qed.

Lemma commit_insert_pending s t c :
  pending_delete_list (commit_insert s t c) = pending_delete_list s /\
  forall t', pending_insert_list (commit_insert s t c) t' = if bool_decide (t = t') then [] else pending_insert_list s t'.
Proof.
  unfold commit_insert, pending_insert_list. destruct (pending_inserts_ s !! t) eqn:E; cbn; split; try done; intros t'.
  - apply pending_list_erase.
  - case_bool_decide; [subst; by rewrite E|done].
Qed.

Lemma commit_delete_pending s t c :
  pending_insert_list (commit_delete s t c) = pending_insert_list s /\
  forall t', pending_delete_list (commit_delete s t c) t' = if bool_decide (t = t') then [] else pending_delete_list s t'.
Proof.
  unfold commit_delete, pending_delete_list. destruct (pending_deletes_ s !! t) eqn:E; cbn; split; try done; intros t'.
  - apply pending_list_erase.
  - case_bool_decide; [subst; by rewrite E|done].
Qed.

Lemma revert_insert_pending s t :
  pending_delete_list (revert_insert s t) = pending_delete_list s /\
  forall t', pending_insert_list (revert_insert s t) t' = if bool_decide (t = t') then [] else pending_insert_list s t'.
Proof.
  unfold revert_insert, pending_insert_list. destruct (pending_inserts_ s !! t) eqn:E; cbn; split; try done; intros t'.
  - apply pending_list_erase.
  - case_bool_decide; [subst; by rewrite E|done].
Qed.

Lemma restamp_insert_marks t c t' e :
  is_txn t' -> ~ is_txn c -> inserted t' (restamp_insert t c e) = if bool_decide (t = t') then false else inserted t' e.
Proof.
  intros Hx Hc. assert (c <> t') by congruence. unfold restamp_insert, inserted.
  repeat (case_bool_decide; cbn in * ); subst; congruence.
Qed.

Lemma restamp_delete_marks t c t' e :
  is_txn t' -> ~ is_txn c -> deleted t' (restamp_delete t c e) = if bool_decide (t = t') then false else deleted t' e.
Proof.
  intros Hx Hc. assert (c <> t') by congruence. unfold restamp_delete, deleted.
  repeat (case_bool_decide; cbn in * ); subst; congruence.
Qed.

Lemma covered_restamp_insert t c t' l p :
  is_txn t' -> ~ is_txn c -> covered (inserted t') l p -> covered (inserted t') (restamp_insert t c <$> l) (if bool_decide (t = t') then [] else p).
Proof.
  intros Hx Hc H. case_bool_decide as E.
  - apply covered_settled. intros e (e0 & -> & _)%list_elem_of_fmap. rewrite restamp_insert_marks by done. by rewrite bool_decide_true.
  - apply covered_map; [|done]. intros e. rewrite restamp_insert_marks, bool_decide_false by done.
    unfold restamp_insert. by case_bool_decide.
Qed.

Lemma covered_restamp_delete t c t' l p :
  is_txn t' -> ~ is_txn c -> covered (deleted t') l p -> covered (deleted t') (restamp_delete t c <$> l) (if bool_decide (t = t') then [] else p).
Proof.
  intros Hx Hc H. case_bool_decide as E.
  - apply covered_settled. intros e (e0 & -> & _)%list_elem_of_fmap. rewrite restamp_delete_marks by done. by rewrite bool_decide_true.
  - apply covered_map; [|done]. intros e. rewrite restamp_delete_marks, bool_decide_false by done.
    unfold restamp_delete. by case_bool_decide.
Qed.

Lemma tracked_commit_insert s t c : tracked s -> is_txn t -> ~ is_txn c -> tracked (commit_insert s t c).
Proof.
  intros Ht Hx Hc. destruct (commit_insert_pending s t c) as [Hd Hi].
  split; intros t' Hx'; rewrite (commit_insert_storage s t c) by done; rewrite ?Hd, ?Hi.
  - apply covered_restamp_insert; [done..|by apply Ht].
  - apply covered_map; [|by apply Ht]. intros e. unfold restamp_insert. by case_bool_decide.
Qed.

Lemma tracked_commit_delete s t c : tracked s -> is_txn t -> ~ is_txn c -> tracked (commit_delete s t c).
Proof.
  intros Ht Hx Hc. destruct (commit_delete_pending s t c) as [Hd Hi].
  split; intros t' Hx'; rewrite (commit_delete_storage s t c) by done; rewrite ?Hd, ?Hi.
  - apply covered_map; [|by apply Ht]. intros e. unfold restamp_delete. by case_bool_decide.
  - apply covered_restamp_delete; [done..|by apply Ht].
Qed.

Lemma tracked_revert_insert s t : tracked s -> is_txn t -> tracked (revert_insert s t).
Proof.
  intros Ht Hx. destruct (revert_insert_pending s t) as [Hd Hi].
  split; intros t' Hx'; rewrite (revert_insert_storage s t) by done; rewrite ?Hd, ?Hi.
  - case_bool_decide; [subst|by apply covered_filter, Ht]. apply covered_settled.
    intros e [He _]%list_elem_of_filter. by apply bool_decide_eq_false.
  - by apply covered_filter, Ht.
Qed.

Lemma tracked_insert_txn s k r t : tracked s -> tracked (insert_txn s k r t).
Proof.
  intros Ht. split; intros t' Hx'; cbn [insert_txn storage_]; (eapply covered_perm; [symmetry; apply mm_emplace_perm|]).
  - unfold pending_insert_list. cbn [pending_inserts_ insert_txn]. rewrite pending_list_push. case_bool_decide.
    + apply covered_push; [apply mm_equiv_refl|done|by apply Ht].
    + apply covered_cons_off; [by apply bool_decide_eq_false|by apply Ht].
  - apply covered_cons_off; [|by apply Ht]. apply bool_decide_eq_false. cbn. intros E. apply not_deleted_no_txn. by rewrite E.
Qed.

Lemma tracked_emplace s k v : tracked s -> ~ is_txn (insert_id v) -> ~ is_txn (delete_id v) -> tracked (emplace s k v).
Proof.
  intros Ht Hi Hd. split; intros t' Hx'; cbn [emplace storage_]; (eapply covered_perm; [symmetry; apply mm_emplace_perm|]);
    (apply covered_cons_off; [apply bool_decide_eq_false; cbn; congruence|by apply Ht]).
Qed.

(** [mark_delete] stamps one entry that is not deleted, if there is one. *)
Lemma mark_delete_cases s k r t :
  (mark_delete s k r t = s /\ forall e, e ∈ storage_ s -> deleted_by NOT_DELETED_ID k r e = false) \/
  (exists e l, storage_ s ≡ₚ e :: l /\ storage_ (mark_delete s k r t) ≡ₚ on_value (set_delete t) e :: l /\
     deleted_by NOT_DELETED_ID k r e = true /\ pending_inserts_ (mark_delete s k r t) = pending_inserts_ s /\
     pending_deletes_ (mark_delete s k r t) = push (pending_deletes_ s) t (k, r)).
Proof.
  unfold mark_delete. rewrite update_first_act. destruct (act_first _ _ _) as [l'|] eqn:E.
  - right. apply act_first_Some in E as (l1 & e & l2 & -> & -> & He). exists e, (l1 ++ l2). cbn.
    split_and!; [solve_Permutation|solve_Permutation|done..].
  - left. split; [done|]. by eapply act_first_None.
Qed.

Lemma tracked_mark_delete s k r t : tracked s -> tracked (mark_delete s k r t).
Proof.
  intros Ht. destruct (mark_delete_cases s k r t) as [[-> _]|(e & l & E & E' & He & Hpi & Hpd)]; [done|].
  split; intros t' Hx'; (eapply covered_perm; [symmetry; exact E'|]).
  - unfold pending_insert_list. rewrite Hpi. eapply (covered_swap _ e); [done..|]. eapply covered_perm; [exact E|by apply Ht].
  - unfold pending_delete_list. rewrite Hpd, pending_list_push.
    assert (Hl : covered (deleted t') l (pending_delete_list s t')) by (eapply covered_cons_tail, covered_perm; [exact E|by apply Ht]).
    case_bool_decide; [|apply covered_cons_off; [by apply bool_decide_eq_false|done]].
    unfold deleted_by in He. apply andb_prop in He as [[H1 H2%bool_decide_eq_true]%andb_prop _]. by apply covered_push.
Qed.

Lemma remove_cases s k :
  (remove s k = s /\ forall e, e ∈ storage_ s -> mm_equiv k e.1 = false) \/
  (exists e, storage_ s ≡ₚ e :: storage_ (remove s k) /\ mm_equiv k e.1 = true /\
     pending_inserts_ (remove s k) = pending_inserts_ s /\ pending_deletes_ (remove s k) = pending_deletes_ s).
Proof.
  unfold remove. rewrite erase_first_act. destruct (act_first _ _ _) as [l'|] eqn:E; cbn.
  - right. apply act_first_Some in E as (l1 & e & l2 & -> & -> & He). exists e. cbn. split_and!; [solve_Permutation|done..].
  - left. split; [by destruct s|]. by eapply act_first_None.
Qed.

Lemma tracked_remove s k : tracked s -> tracked (remove s k).
Proof.
  intros Ht. destruct (remove_cases s k) as [[-> _]|(e & E & _ & Hpi & Hpd)]; [done|].
  split; intros t' Hx'; unfold pending_insert_list, pending_delete_list; rewrite ?Hpi, ?Hpd;
    (eapply covered_cons_tail, covered_perm; [exact E|by apply Ht]).
Qed.

Lemma tracked_cleanup s low : tracked s -> tracked (cleanup_versions s low).
Proof.
  intros Ht. split; intros t Hx; cbn [cleanup_versions storage_]; [by apply covered_filter, Ht|].
  destruct (decide (t < low /\ t < TRANSACTION_ID_START)) as [Hlow|Hlow].
  - apply covered_settled. intros e [He _]%list_elem_of_filter. apply bool_decide_eq_false. intros E. by rewrite E in He.
  - assert (pending_delete_list (cleanup_versions s low) t = pending_delete_list s t) as ->; [|by apply covered_filter, Ht].
    unfold pending_delete_list. cbn. rewrite map_lookup_filter. destruct (pending_deletes_ s !! t); [|done]. cbn. by rewrite option_guard_True.
Qed.

Lemma tracked_empty : tracked empty.
Proof. split; intros t _; apply covered_settled; cbn; set_solver. Qed.

Lemma exec_entries s o : tracked s -> op_ok o -> tracked (exec s o) /\ entries_step o (storage_ s) (storage_ (exec s o)).
Proof.
  intros Ht. destruct o as [k v|k|k r t|k r t|t c|t c|t|t|low|]; cbn [exec op_ok].
  - intros [Hi Hd]. split; [by apply tracked_emplace|]. constructor. apply mm_emplace_perm.
  - intros _. split; [by apply tracked_remove|]. destruct (remove_cases s k) as [[-> Hn]|(e & E & He & _)].
    + by apply es_remove_none.
    + by eapply es_remove.
  - intros _. split; [by apply tracked_insert_txn|]. constructor. apply mm_emplace_perm.
  - intros _. split; [by apply tracked_mark_delete|]. destruct (mark_delete_cases s k r t) as [[-> Hn]|(e & l & E & E' & He & _)].
    + by apply es_delete_none.
    + by eapply es_delete.
  - intros [Hx Hc]. split; [by apply tracked_commit_insert|]. constructor. by rewrite commit_insert_storage.
  - intros [Hx Hc]. split; [by apply tracked_commit_delete|]. constructor. by rewrite commit_delete_storage.
  - intros Hx. split; [by apply tracked_revert_insert|]. constructor. by rewrite revert_insert_storage.
  - intros Hx. pose proof not_deleted_no_txn. rewrite revert_delete_commit. split; [by apply tracked_commit_delete|].
    constructor. by rewrite commit_delete_storage.
  - intros _. split; [by apply tracked_cleanup|]. by constructor.
  - intros _. split; [apply tracked_empty|]. by constructor.
Qed.

Lemma run_entries s os : tracked s -> Forall op_ok os -> tracked (run s os) /\ entries_run os (storage_ s) (storage_ (run s os)).
Proof.
  intros Ht Hos. revert s Ht. induction Hos as [|o os Ho _ IH]; intros s Ht; cbn [run foldl]; [by split; [|cbn]|].
  destruct (exec_entries s o Ht Ho) as [Ht' Hs]. destruct (IH _ Ht') as [H1 H2]. split; [done|]. by exists (storage_ (exec s o)).
Qed.

End refinement.

(** ** The ordered index *)

(** Keys ordered by [std::less], and a container sorted by it. *)
Class KeyOrder (K T : Type) `{Key K T} {mm : Multimap K} : Prop := {
  key_lt_irrefl a : key_lt a a = false;
  key_lt_trans a b c : key_lt a b = true -> key_lt b c = true -> key_lt a c = true;
  key_lt_cotrans a b c : key_lt a c = true -> key_lt a b = true \/ key_lt b c = true;
  mm_equiv_lt a b : mm_equiv a b = negb (key_lt a b) && negb (key_lt b a);
  mm_emplace_sorted k v l :
    StronglySorted (fun a b => key_lt b a = false) l.*1 -> StronglySorted (fun a b => key_lt b a = false) (mm_emplace k v l).*1;
}.

Lemma act_first_sublist {A B} (f : A -> B) (P : A -> bool) act l l' :
  (forall e, f <$> act e `sublist_of` [f e]) -> act_first P act l = Some l' -> f <$> l' `sublist_of` f <$> l.
Proof.
  intros Ha (l1 & e & l2 & -> & -> & _)%act_first_Some. rewrite !fmap_app, fmap_cons. apply sublist_app; [done|].
  apply (sublist_app _ [f e]); [apply Ha|done].
Qed.

Lemma StronglySorted_sublist {A} (R : A -> A -> Prop) l k : k `sublist_of` l -> StronglySorted R l -> StronglySorted R k.
Proof.
  induction 1 as [|x k l Hs IH|x k l Hs IH]; [done| |]; intros [Hl Hx]%StronglySorted_inv; [|by apply IH].
  constructor; [by apply IH|]. eapply Forall_forall. intros y Hy. rewrite Forall_forall in Hx. apply Hx. by eapply elem_of_sublist.
Qed.

Section ordered.
Context {K T : Type} {key : Key K T} {mm : Multimap K} {ord : KeyOrder K T}.
Implicit Types (l : elements K) (v k : K).

Definition sorted (l : elements K) : Prop := StronglySorted (fun a b => key_lt b a = false) l.*1.

Lemma for_pending_sublist step p l :
  (forall k r l l', step k r l = Some l' -> l'.*1 `sublist_of` l.*1) -> (for_pending step p l).*1 `sublist_of` l.*1.
Proof.
  intros Hs. revert l. induction p as [|[k r] p IH]; intros l; cbn [for_pending]; [done|].
  etrans; [apply IH|]. destruct (step k r l) eqn:E; cbn; [by eapply Hs|done].
Qed.

Lemma update_sublist P (f : index_value_t -> index_value_t) l l' : update_first P (on_value f) l = Some l' -> l'.*1 `sublist_of` l.*1.
Proof. rewrite update_first_act. by apply act_first_sublist. Qed.

Lemma erase_sublist P l l' : erase_first P l = Some l' -> l'.*1 `sublist_of` l.*1.
Proof. rewrite erase_first_act. apply act_first_sublist. intros e. apply sublist_nil_l. Qed.

(** Only insertions add keys, and they put them where they belong. *)
Lemma exec_sorted s o : sorted (storage_ s) -> sorted (storage_ (exec s o)).
Proof.
  intros Hs. destruct o; cbn [exec]; try (by apply mm_emplace_sorted); try (eapply StronglySorted_sublist; [|exact Hs]).
  - unfold remove. cbn. destruct (erase_first _ _) eqn:E; cbn; [by eapply erase_sublist|done].
  - unfold mark_delete. destruct (update_first _ _ _) eqn:E; cbn; [by eapply update_sublist|done].
  - unfold commit_insert. case_match; [|done]. apply for_pending_sublist. intros *. apply update_sublist.
  - unfold commit_delete. case_match; [|done]. apply for_pending_sublist. intros *. apply update_sublist.
  - unfold revert_insert. case_match; [|done]. apply for_pending_sublist. intros *. apply erase_sublist.
  - unfold revert_delete. case_match; [|done]. apply for_pending_sublist. intros *. apply update_sublist.
  - cbn. apply fmap_sublist, sublist_filter.
  - cbn. apply sublist_nil_l.
Qed.

(** The same operations through the index, which casts keys to the type of its first key. *)
Definition index_exec (s : single_field_index.t K T) (o : op) : single_field_index.t K T :=
  match o with
  | OEmplace k v => single_field_index.insert_impl s k v
  | ORemove k => single_field_index.remove_impl s k
  | OInsertTxn k r t => single_field_index.insert_txn_impl s k r t
  | OMarkDelete k r t => single_field_index.mark_delete_impl s k r t
  | OCommitInsert t c => single_field_index.commit_insert_impl s t c
  | OCommitDelete t c => single_field_index.commit_delete_impl s t c
  | ORevertInsert t => single_field_index.revert_insert_impl s t
  | ORevertDelete t => single_field_index.revert_delete_impl s t
  | OCleanup low => single_field_index.cleanup_versions_impl s low
  | OClean => single_field_index.clean_memory_to_new_elements_impl s
  end.

Definition index_run (s : single_field_index.t K T) (os : list op) : single_field_index.t K T := foldl index_exec s os.

Lemma index_exec_base s o : exists o', single_field_index.base (index_exec s o) = exec (single_field_index.base s) o' /\ (forall zero, op_ok zero o -> op_ok zero o').
Proof.
  destruct o as [k v|k|k r t|k r t|t c|t c|t|t|low|]; cbn;
    [eexists (OEmplace _ v)|eexists (ORemove _)|eexists (OInsertTxn _ r t)|eexists (OMarkDelete _ r t)|exists (OCommitInsert t c)|
     exists (OCommitDelete t c)|exists (ORevertInsert t)|exists (ORevertDelete t)|exists (OCleanup low)|exists OClean]; by split.
Qed.

Lemma index_run_sorted s os : sorted (storage_ (single_field_index.base s)) -> sorted (storage_ (single_field_index.base (index_run s os))).
Proof.
  revert s. induction os as [|o os IH]; intros s Hs; [done|]. apply IH. destruct (index_exec_base s o) as (o' & -> & _). by apply exec_sorted.
Qed.

(** ** Bounds split a sorted index *)

Lemma split_while_filter {A} (P : A -> bool) (l : list A) :
  StronglySorted (fun a b => P b = true -> P a = true) l ->
  single_field_index.split_while P l = (filter (fun e => P e = true) l, filter (fun e => P e = false) l).
Proof.
  induction 1 as [|e l Hl IH He]; [done|]. cbn [single_field_index.split_while]. rewrite !filter_cons. destruct (P e) eqn:E.
  - by rewrite IH.
  - rewrite decide_False, decide_True by done. assert (Hn : Forall (fun x => P x = false) l).
    { eapply Forall_impl; [exact He|]. intros x Hx. apply not_true_is_false. intros Ex. by specialize (Hx Ex). }
    clear -Hn. f_equal; [|f_equal]; (induction Hn as [|x l Hx _ IH]; [done|]); rewrite filter_cons; case_decide; congruence.
Qed.

Lemma sorted_downward (P : K -> bool) l :
  (forall a b, key_lt b a = false -> P b = true -> P a = true) -> sorted l -> StronglySorted (fun a b => P b.1 = true -> P a.1 = true) l.
Proof.
  intros HP. induction l as [|e l IH]; intros Hs; [constructor|]. unfold sorted in Hs. rewrite fmap_cons in Hs. apply StronglySorted_inv in Hs as [Hs He].
  constructor; [by apply IH|]. rewrite Forall_fmap in He. eapply Forall_impl; [exact He|]. cbn. intros x Hx. by apply HP.
Qed.

Lemma below_downward v a b : key_lt b a = false -> key_lt b v = true -> key_lt a v = true.
Proof. intros Hba Hb. destruct (key_lt_cotrans b a v Hb) as [?|?]; congruence. Qed.

Lemma not_above_downward v a b : key_lt b a = false -> negb (key_lt v b) = true -> negb (key_lt v a) = true.
Proof.
  intros Hba Hb%negb_true_iff. apply negb_true_iff. destruct (key_lt v a) eqn:E; [|done].
  destruct (key_lt_cotrans v b a E); congruence.
Qed.

(** What a comparison asks of an element of the index. *)
Definition selected (l : elements K) (compare : compare_type) (v : K) (e : K * index_value_t) : bool :=
  match compare with
  | cmp_eq => mm_equiv v e.1
  | cmp_lt => key_lt e.1 v
  | cmp_lte => negb (key_lt v e.1)
  | cmp_gt => key_lt v e.1
  | cmp_gte => negb (key_lt e.1 v)
  | cmp_ne => negb (existsb (fun x => mm_equiv v x.1 && bool_decide (row_index x.2 = row_index e.2)) l)
  | _ => false
  end.

Lemma rows_where_fmap (vis : index_value_t -> bool) (Q : K * index_value_t -> bool) l :
  rows_where vis (snd <$> filter (fun e => Q e = true) l) = (fun e => row_index e.2) <$> filter (fun e => vis e.2 && Q e = true) l.
Proof.
  unfold rows_where. induction l as [|e l IH]; [done|]. rewrite !filter_cons. destruct (Q e).
  - rewrite decide_True by done. rewrite fmap_cons, filter_cons. destruct (vis e.2); cbn [andb].
    + rewrite !decide_True by done. by rewrite !fmap_cons, IH.
    + rewrite !decide_False by (cbn; tauto || done). by rewrite IH.
  - rewrite !decide_False by (rewrite ?andb_false_r; done). by rewrite IH.
Qed.

Lemma existsb_filter {A} (P Q : A -> bool) (l : list A) : existsb Q (filter (fun e => P e = true) l) = existsb (fun e => P e && Q e) l.
Proof.
  induction l as [|e l IH]; [done|]. rewrite filter_cons. cbn [existsb]. rewrite <- IH.
  destruct (P e); [by rewrite decide_True|by rewrite decide_False].
Qed.

Lemma existsb_fmap {A B} (Q : B -> bool) (f : A -> B) (l : list A) : existsb Q (f <$> l) = existsb (fun e => Q (f e)) l.
Proof. induction l as [|e l IH]; [done|]. cbn. by rewrite IH. Qed.

(** The reference: a filter over the whole index. *)
Definition reference_search (vis : index_value_t -> bool) (s : single_field_index.t K T) (compare : compare_type) (value : K) : list Z :=
  let l := storage_ (single_field_index.base s) in
  (fun e => row_index e.2) <$> filter (fun e => vis e.2 && selected l compare (cast_as value (single_field_index.stored_type_ s)) e = true) l.

Lemma bool_filter_ext {A} (P Q : A -> bool) (l : list A) : (forall e, P e = Q e) -> filter (fun e => P e = true) l = filter (fun e => Q e = true) l.
Proof. intros E. apply list_filter_iff. intros e. by rewrite E. Qed.

Lemma negb_filter {A} (P : A -> bool) (l : list A) : filter (fun e => P e = false) l = filter (fun e => negb (P e) = true) l.
Proof. apply list_filter_iff. intros e. by rewrite negb_true_iff. Qed.

Lemma filter_always {A} (l : list A) : filter (fun _ => true = true) l = l.
Proof. induction l as [|e l IH]; [done|]. rewrite filter_cons, decide_True by done. by rewrite IH. Qed.

Lemma filter_never {A} (l : list A) : filter (fun _ => false = true) l = [].
Proof. induction l as [|e l IH]; [done|]. by rewrite filter_cons, decide_False. Qed.

Section bounds.
Context (s : single_field_index.t K T) (value : K).
#[local] Abbreviation l := (storage_ (single_field_index.base s)).
#[local] Abbreviation v := (cast_as value (single_field_index.stored_type_ s)).
#[local] Abbreviation pick P := (snd <$> filter (fun e : K * index_value_t => P e.1 = true) l).
Hypothesis Hs : sorted l.

Lemma lower_bound_sorted : single_field_index.lower_bound s value = (pick (fun k => key_lt k v), pick (fun k => negb (key_lt k v))).
Proof.
  unfold single_field_index.lower_bound, single_field_index.values_split.
  rewrite split_while_filter by (apply (sorted_downward (fun k => key_lt k v)); [apply below_downward|done]). cbn. by rewrite negb_filter.
Qed.

Lemma upper_bound_sorted : single_field_index.upper_bound s value = (pick (fun k => negb (key_lt v k)), pick (fun k => key_lt v k)).
Proof.
  unfold single_field_index.upper_bound, single_field_index.values_split.
  rewrite split_while_filter by (apply (sorted_downward (fun k => negb (key_lt v k))); [apply not_above_downward|done]). cbn.
  do 2 f_equal. apply list_filter_iff. intros e. by rewrite negb_false_iff.
Qed.

Lemma find_pick : single_field_index.find s value = pick (mm_equiv v).
Proof. unfold single_field_index.find, equal_range. f_equal. apply list_filter_iff. intros e. by destruct (mm_equiv _ _). Qed.

Lemma rows_where_all (P : index_value_t -> bool) : rows_where P (snd <$> l) = (fun e => row_index e.2) <$> filter (fun e => P e.2 = true) l.
Proof.
  transitivity (rows_where P (snd <$> filter (fun _ => true = true) l)).
  - by rewrite filter_always.
  - rewrite (rows_where_fmap P (fun _ => true)). f_equal. apply bool_filter_ext. intros e. by rewrite andb_true_r.
Qed.

Lemma none_selected (P : K * index_value_t -> bool) : filter (fun e => P e && false = true) l = [].
Proof. rewrite (bool_filter_ext _ (fun _ => false)) by (intros; apply andb_false_r). apply filter_never. Qed.

Lemma search_sorted vis compare : search_with vis s compare value = Ok (s, reference_search vis s compare value).
Proof.
  unfold reference_search.
  destruct compare; cbn [search_with single_field_index.single_field_index find_impl lower_bound_impl upper_bound_impl all_impl selected];
    rewrite ?lower_bound_sorted, ?upper_bound_sorted, ?find_pick; cbn [mbind outcome_bind mret outcome_ret fst snd];
    rewrite ?rows_where_fmap, ?(none_selected (fun e => vis e.2)); try done.
  rewrite rows_where_all. do 3 f_equal. apply bool_filter_ext. intros e. f_equal. unfold in_range.
  by rewrite existsb_fmap, (existsb_filter (fun e => mm_equiv v e.1)).
Qed.

End bounds.
End ordered.

(** ** Undoing a transaction *)

Section undo.
Context {K : Type} {mm : Multimap K} {mm_ok : MultimapOk K}.
Implicit Types (l : elements K) (s : versions.t K).

Definition undo (t : Z) (l : elements K) : elements K := restamp_delete t NOT_DELETED_ID <$> filter (fun e => insert_id e.2 <> t) l.

#[local] Instance undo_perm t : Proper ((≡ₚ) ==> (≡ₚ)) (undo t).
Proof. intros l k E. unfold undo. by rewrite E. Qed.

Lemma undo_cons t e l : undo t (e :: l) = if bool_decide (insert_id e.2 = t) then undo t l else restamp_delete t NOT_DELETED_ID e :: undo t l.
Proof.
  unfold undo. rewrite filter_cons. case_bool_decide; [by rewrite decide_False by tauto|by rewrite decide_True by tauto].
Qed.

Lemma undo_fresh t l : (forall e, e ∈ l -> insert_id e.2 <> t /\ delete_id e.2 <> t) -> undo t l = l.
Proof.
  induction l as [|e l IH]; intros H; [done|]. destruct (H e) as [Hi Hd]; [set_solver|].
  rewrite undo_cons, bool_decide_false, IH by set_solver. unfold restamp_delete. by rewrite bool_decide_false.
Qed.

(** The operations of one transaction. *)
Definition writes_of (t : Z) (o : @op K) : Prop :=
  match o with OInsertTxn _ _ t' | OMarkDelete _ _ t' => t' = t | _ => False end.

Lemma undo_exec zero t s o : is_txn zero t -> writes_of t o -> undo t (storage_ (exec s o)) ≡ₚ undo t (storage_ s).
Proof.
  intros Hx Ho. assert (Hn : t <> NOT_DELETED_ID) by (pose proof (not_deleted_no_txn zero); congruence).
  destruct o as [| |k r t'|k r t'| | | | | |]; try done; cbn in Ho; subst t'; cbn [exec].
  - cbn [storage_ insert_txn]. rewrite mm_emplace_perm, undo_cons. by rewrite bool_decide_true.
  - destruct (mark_delete_cases s k r t) as [[-> _]|(e & l & E & E' & He & _)]; [done|]. rewrite E, E', !undo_cons. cbn.
    apply andb_prop in He as [_ He%bool_decide_eq_true]. case_bool_decide; [done|].
    assert (restamp_delete t NOT_DELETED_ID (on_value (set_delete t) e) = restamp_delete t NOT_DELETED_ID e) as ->; [|done].
    destruct e as [k' [r' i d]]. cbn in He. subst d. unfold restamp_delete. cbn. rewrite bool_decide_true, bool_decide_false by congruence. done.
Qed.

Lemma undo_run zero t s os : is_txn zero t -> Forall (writes_of t) os -> undo t (storage_ (run s os)) ≡ₚ undo t (storage_ s).
Proof.
  intros Hx Hos. revert s. induction Hos as [|o os Ho _ IH]; intros s; [done|]. cbn [run foldl]. etrans; [apply IH|by eapply undo_exec].
Qed.

Lemma writes_ok zero t os : Forall (writes_of t) os -> Forall (op_ok zero) os.
Proof. intros H. eapply Forall_impl; [exact H|]. by intros []. Qed.

End undo.

(** ** Stamps and snapshots *)

(** The ids index entries carry while the manager is at [w]: 0, commit ids, and ids of transactions
    and the mark of live entries, which lie above all commit ids. *)
Definition stamp (w : world) (id : Z) : Prop := id = 0 \/ known w id \/ TRANSACTION_ID_START <= id.

Section snapshot.
Context (w : world) (s : Z) (w' : world).
Hypothesis Hw : reachable w.
Hypothesis Hroom : clock_room (mgr w).
Hypothesis Hnone : find_transaction (mgr w) s = None.
Hypothesis Hsteps : steps (World (begin_transaction (mgr w) s).2 (allocated w) (published w) (recovered w)) w'.
#[local] Abbreviation d := (data (begin_transaction (mgr w) s).1).

Lemma begin_reader :
  transaction_id d = next_transaction_id_ (mgr w) /\ start_time d = current_timestamp_ (mgr w) /\
  snapshot_horizon d = published_horizon_ (mgr w) /\ in_flight_snapshot d = in_flight_commits_ (mgr w).
Proof. unfold find_transaction in Hnone. unfold begin_transaction. by rewrite Hnone. Qed.

Lemma begin_bounds : inv w /\ 1 <= start_time d < TRANSACTION_ID_START /\ TRANSACTION_ID_START <= transaction_id d < NOT_DELETED_ID.
Proof.
  destruct begin_reader as (-> & -> & _). apply reachable_inv in Hw as Hi. pose proof (inv_clock w Hi). pose proof (inv_next w Hi).
  split; [done|]. lia.
Qed.

Lemma begin_steps : steps w w'.
Proof. eapply rtc_l; [by apply (step_begin w s)|exact Hsteps]. Qed.

(** A commit is below the start time of the reader exactly when it was known when the reader began. *)
Lemma known_start c : known w' c -> c < start_time d <-> known w c.
Proof.
  intros Hc. destruct begin_bounds as (Hi & _). destruct begin_reader as (_ & -> & _).
  pose proof (steps_later _ _ Hi begin_steps) as Hl. split; [|intros Hk; by apply (known_bounds w)].
  unfold known in *. rewrite (lt_recovered _ _ Hl) in Hc. destruct Hc as [Hc|]; [|by right].
  destruct (lt_new _ _ Hl c Hc); [by left|lia].
Qed.

Lemma stamp_seen id : stamp w' id -> id ∉ in_flight_commits_ (mgr w) -> use_inserted_version d id = true <-> id < start_time d \/ id = transaction_id d.
Proof.
  intros Hst Hnf. destruct begin_bounds as (Hi & Hb & Ht). destruct begin_reader as (_ & Ess & Hh & Hif). pose proof id_bounds.
  pose proof (inv_clock w Hi). pose proof (inv_recovered w Hi).
  destruct Hst as [->|[Hk|Hge]].
  - rewrite use_inserted_version_spec by (unfold snapshot_wf; rewrite Hif; apply Hi). unfold covers, self_write. rewrite Hh, Hif.
    assert (0 ∉ in_flight_commits_ (mgr w)) by done. naive_solver lia.
  - rewrite (snapshot_exact w w' d Hi begin_steps Hh Hif ltac:(right; lia) id Hk), (known_start id Hk).
    pose proof (known_bounds w' id (steps_inv _ _ begin_steps Hi) Hk). pose proof (inv_clock w' (steps_inv _ _ begin_steps Hi)).
    unfold known, is_published. rewrite (inv_allocated w Hi). naive_solver lia.
  - rewrite use_inserted_version_spec by (unfold snapshot_wf; rewrite Hif; apply Hi). unfold covers, self_write. naive_solver lia.
Qed.

(** Entries whose stamps were not in flight when the reader began. *)
Lemma entry_agrees e :
  stamp w' (insert_id e) -> stamp w' (delete_id e) ->
  insert_id e ∉ in_flight_commits_ (mgr w) -> delete_id e ∉ in_flight_commits_ (mgr w) ->
  index_entry_visible e (start_time d) (transaction_id d) = use_inserted_version d (insert_id e) && use_deleted_version d (delete_id e).
Proof.
  intros Hi Hd Hif Hdf. destruct begin_bounds as (_ & Hb & Ht). pose proof id_bounds.
  unfold index_entry_visible, use_deleted_version. rewrite (bool_decide_false (transaction_id d = 0)) by lia. cbn [andb].
  f_equal; [|f_equal]; apply eq_true_iff_eq; rewrite stamp_seen by done; rewrite ?orb_true_iff, ?andb_true_iff, !bool_decide_eq_true; lia.
Qed.

(** A commit in flight when the reader began: the index already shows it, the table does not. *)
Lemma in_flight_disagrees c :
  c ∈ in_flight_commits_ (mgr w) -> 0 < c < start_time d /\ c < TRANSACTION_ID_START /\ use_inserted_version d c = false.
Proof.
  intros Hc. destruct begin_bounds as (Hi & Hb & Ht). destruct begin_reader as (_ & Ess & Hh & Hif).
  assert (Ha : c ∈ allocated w) by (apply (inv_allocated w Hi); by left).
  pose proof (inv_range w Hi c Ha). pose proof (inv_recovered w Hi). pose proof (inv_clock w Hi). rewrite Ess in *.
  split_and!; [lia..|]. apply not_true_is_false. rewrite use_inserted_version_spec by (unfold snapshot_wf; rewrite Hif; apply Hi).
  unfold covers, self_write. rewrite Hif. naive_solver lia.
Qed.

End snapshot.

(** ** Rebuilding an index *)

Section rebuild.
Context {K : Type} {mm : Multimap K} {mm_ok : MultimapOk K}.

(** [repopulate_table] inserts the rows of a table under transaction id 0. *)
Definition rebuild (rows : list (K * Z)) : versions.t K := run empty ((fun q => OInsertTxn q.1 q.2 0) <$> rows).

Definition rebuilt_entry (q : K * Z) : K * index_value_t := (q.1, IndexValue q.2 0 NOT_DELETED_ID).

Lemma rebuild_from s rows : storage_ (run s ((fun q => OInsertTxn q.1 q.2 0) <$> rows)) ≡ₚ storage_ s ++ (rebuilt_entry <$> rows).
Proof.
  revert s. induction rows as [|q rows IH]; intros s; [by rewrite app_nil_r|]. rewrite fmap_cons. cbn [run foldl].
  etrans; [apply IH|]. cbn [exec insert_txn storage_]. rewrite mm_emplace_perm, fmap_cons. solve_Permutation.
Qed.

Lemma rebuild_storage rows : storage_ (rebuild rows) ≡ₚ rebuilt_entry <$> rows.
Proof. apply (rebuild_from empty). Qed.

Lemma rebuild_tracked rows : tracked true (rebuild rows).
Proof. apply (run_entries true empty); [apply tracked_empty|]. apply Forall_fmap, Forall_true. done. Qed.

(** The next commit of any transaction flips the pending list of id 0 with it. *)
Lemma rebuild_committed rows t c :
  is_txn true t -> ~ is_txn true c -> t <> 0 ->
  storage_ (commit_insert (commit_insert (rebuild rows) t c) 0 c) ≡ₚ (fun q => (q.1, IndexValue q.2 c NOT_DELETED_ID)) <$> rows.
Proof.
  intros Ht Hc Hn. pose proof (rebuild_tracked rows) as Htr.
  rewrite (commit_insert_storage true), (commit_insert_storage true); [|done..| |by left|done]; [|by apply tracked_commit_insert].
  rewrite rebuild_storage, <- !list_fmap_compose. apply eq_subrelation; [apply _|]. apply list_fmap_ext. intros _ q _. cbn.
  unfold restamp_insert, rebuilt_entry. cbn. rewrite (bool_decide_false (0 = t)) by done. cbn. done.
Qed.

Lemma hash_search_eq (s : hash_single_field_index.t K) key start reader :
  search s cmp_eq key start reader =
  Ok (s, (fun e => row_index e.2) <$> filter (fun e => index_entry_visible e.2 start reader && mm_equiv key e.1 = true) (storage_ s)).
Proof.
  rewrite <- (rows_where_fmap (fun e => index_entry_visible e start reader) (fun e => mm_equiv key e.1)).
  cbn [search search_with find_impl hash_single_field_index.hash_single_field_index mbind outcome_bind mret outcome_ret].
  unfold hash_single_field_index.find, equal_range. do 4 f_equal. apply list_filter_iff. intros e. by destruct (mm_equiv _ _).
Qed.

(** Entries with one insert stamp are found by all or none. *)
Lemma stamped_rows id start reader key (rows : list (K * Z)) l :
  l ≡ₚ (fun q => (q.1, IndexValue q.2 id NOT_DELETED_ID)) <$> rows ->
  (fun e => row_index e.2) <$> filter (fun e => index_entry_visible e.2 start reader && mm_equiv key e.1 = true) l ≡ₚ
  if index_entry_visible (IndexValue 0 id NOT_DELETED_ID) start reader then (filter (fun q => mm_equiv key q.1 = true) rows).*2 else [].
Proof.
  intros ->. induction rows as [|q rows IH]; [by case_match|]. rewrite fmap_cons, !filter_cons.
  change (index_entry_visible (q.1, IndexValue q.2 id NOT_DELETED_ID).2 start reader) with (index_entry_visible (IndexValue 0 id NOT_DELETED_ID) start reader).
  destruct (index_entry_visible (IndexValue 0 id NOT_DELETED_ID) start reader); cbn [andb fst].
  - case_decide; rewrite ?fmap_cons, IH; done.
  - by rewrite decide_False by done.
Qed.

End rebuild.

(** ** Theorems *)

(** C9: the in-memory indexes refine a multiset of versioned entries. In every run of inserts,
    removals, transactional inserts and deletes, commits, reverts, cleanups and clearings, each
    operation changes the entries as its contract says: a commit or revert through the pending list of
    a transaction, which looks at [k] entries, restamps or drops exactly the entries of that
    transaction in the whole index. And every entry with a pending stamp is in the list that is sent to
    the index on disk. *)
Theorem memory_index_refines {K} `{MultimapOk K} zero (os : list op) :
  Forall (op_ok zero) os ->
  entries_run os [] (storage_ (run empty os)) /\
  forall t e, is_txn zero t -> e ∈ storage_ (run empty os) -> insert_id e.2 = t ->
    exists q, q ∈ pending_insert_list (run empty os) t /\ mm_equiv e.1 q.1 = true /\ row_index e.2 = q.2.
Proof.
  intros Hos. destruct (run_entries zero empty os (tracked_empty zero) Hos) as [Ht Hr]. split; [done|]. intros t e Hx He Hi.
  pose proof (tr_inserts _ _ Ht t Hx e.1 (row_index e.2)) as Hc. set (p := pending_insert_list _ t) in *.
  destruct (countb_pos (names e.1 (row_index e.2)) p) as (q & Hq & [H1 H2%bool_decide_eq_true]%andb_prop); [|by exists q].
  destruct (countb (names _ _) p) eqn:E; [|lia].
  assert (Hz : matches (inserted t) e.1 (row_index e.2) e = false) by (eapply countb_zero; [|exact He]; lia).
  unfold matches, inserted in Hz. by rewrite mm_equiv_refl, !bool_decide_true in Hz.
Qed.


(** C31: aborting leaves no trace. Whatever entries a transaction added and marked as deleted,
    reverting its inserts and deletes gives back the entries from before it began, and empties its
    pending lists. *)
Theorem abort_leaves_no_trace {K} `{MultimapOk K} zero (before writes : list op) t :
  Forall (op_ok zero) before -> is_txn zero t -> Forall (writes_of t) writes ->
  (forall e, e ∈ storage_ (run empty before) -> insert_id e.2 <> t /\ delete_id e.2 <> t) ->
  let s := revert_delete (revert_insert (run (run empty before) writes) t) t in
  storage_ s ≡ₚ storage_ (run empty before) /\ pending_insert_list s t = [] /\ pending_delete_list s t = [].
Proof.
  intros Hb Hx Hw Hf. cbn zeta. rewrite revert_delete_commit. set (s0 := run empty before) in *.
  destruct (run_entries zero empty before (tracked_empty zero) Hb) as [Ht0 _]. fold s0 in Ht0.
  destruct (run_entries zero s0 writes Ht0 (writes_ok zero t writes Hw)) as [Ht1 _]. set (s1 := run s0 writes) in *.
  pose proof (tracked_revert_insert zero s1 t Ht1 Hx) as Ht2. split_and!.
  - rewrite (commit_delete_storage zero), (revert_insert_storage zero) by (done || apply not_deleted_no_txn).
    fold (undo t (storage_ s1)). unfold s1. rewrite (undo_run zero t s0 writes) by done. by rewrite undo_fresh.
  - rewrite (proj1 (commit_delete_pending _ t _)), (proj2 (revert_insert_pending s1 t)). by rewrite bool_decide_true.
  - rewrite (proj2 (commit_delete_pending _ t _)). by rewrite bool_decide_true.
Qed.

(** C33: the index and the table agree. A transaction sees an index entry exactly when the table's rule
    shows it the row with these stamps, in every later state, unless one of the stamps is a commit
    that was in flight when the transaction began. *)
Theorem index_visibility_agrees w s w' e :
  reachable w -> clock_room (mgr w) -> find_transaction (mgr w) s = None ->
  steps (World (begin_transaction (mgr w) s).2 (allocated w) (published w) (recovered w)) w' ->
  stamp w' (insert_id e) -> stamp w' (delete_id e) ->
  insert_id e ∉ in_flight_commits_ (mgr w) -> delete_id e ∉ in_flight_commits_ (mgr w) ->
  let d := data (begin_transaction (mgr w) s).1 in
  index_entry_visible e (start_time d) (transaction_id d) = use_inserted_version d (insert_id e) && use_deleted_version d (delete_id e).
Proof. intros. by eapply entry_agrees. Qed.

(** They disagree on every commit in flight. A transaction that begins between the commit and the
    publication of another one finds its inserted rows through the index although the table hides
    them, and misses the rows it deleted although the table still shows them. *)
Theorem index_misjudges_in_flight w s c row :
  reachable w -> clock_room (mgr w) -> find_transaction (mgr w) s = None -> c ∈ in_flight_commits_ (mgr w) ->
  let d := data (begin_transaction (mgr w) s).1 in
  (index_entry_visible (IndexValue row c NOT_DELETED_ID) (start_time d) (transaction_id d) = true /\ use_inserted_version d c = false) /\
  (index_entry_visible (IndexValue row 0 c) (start_time d) (transaction_id d) = false /\ use_deleted_version d c = true).
Proof.
  intros Hw Hroom Hnone Hc. cbn zeta. destruct (begin_bounds w s Hw Hnone) as (_ & Hb & Ht). pose proof id_bounds.
  destruct (in_flight_disagrees w s Hw Hnone c Hc) as (H1 & H2 & H3). unfold use_deleted_version. rewrite H3.
  unfold index_entry_visible. cbn [insert_id delete_id].
  split; split; try done; repeat (case_bool_decide; try lia); done.
Qed.

(** A rebuilt index forgets its rows for running transactions. Rebuilding stores rows under
    transaction id 0, visible to all; the next commit of any transaction stamps all of them with its
    commit id, so every transaction that began earlier no longer finds any of them. *)
Theorem rebuilt_rows_vanish {K} `{MultimapOk K} (rows : list (K * Z)) key start reader t c :
  is_txn true t -> t <> 0 -> 0 < start <= c -> c < TRANSACTION_ID_START -> TRANSACTION_ID_START <= reader < NOT_DELETED_ID ->
  let s := rebuild rows in
  let s' := hash_single_field_index.commit_insert_impl (hash_single_field_index.commit_insert_impl s t c) 0 c in
  (exists found, search (I := hash_single_field_index.t K) s cmp_eq key start reader = Ok (s, found) /\
     found ≡ₚ (filter (fun q => mm_equiv key q.1 = true) rows).*2) /\
  search (I := hash_single_field_index.t K) s' cmp_eq key start reader = Ok (s', []).
Proof.
  intros Hx Hn Hc Hlt Hr. cbn zeta. pose proof id_bounds. assert (~ is_txn true c) by (unfold is_txn; lia). rewrite !hash_search_eq.
  assert (Hvis : forall id, 0 <= id < TRANSACTION_ID_START ->
    index_entry_visible (IndexValue 0 id NOT_DELETED_ID) start reader = bool_decide (id < start)).
  { intros id Hid. unfold index_entry_visible. cbn. repeat (case_bool_decide; try lia); done. }
  split.
  - eexists. split; [done|]. rewrite (stamped_rows 0 _ _ _ rows) by apply rebuild_storage. by rewrite Hvis, bool_decide_true by lia.
  - do 2 f_equal. apply Permutation_nil_r. rewrite (stamped_rows c _ _ _ rows) by by apply rebuild_committed.
    by rewrite Hvis, bool_decide_false by lia.
Qed.

(** ** Examples *)

(** Numbers as keys, inserted behind the equal ones. *)
#[local] Instance z_key : Key Z bool := {| key_type _ := true; type_na := false; cast_as k _ := k; key_lt := Z.ltb |}.

Fixpoint insert_behind (k : Z) (v : index_value_t) (l : elements Z) : elements Z :=
  match l with
  | [] => [(k, v)]
  | e :: l => if Z.ltb k e.1 then (k, v) :: e :: l else e :: insert_behind k v l
  end.

#[local] Instance z_multimap : Multimap Z := {| mm_equiv a b := negb (Z.ltb a b) && negb (Z.ltb b a); mm_emplace := insert_behind |}.

Lemma insert_behind_perm k v l : insert_behind k v l ≡ₚ (k, v) :: l.
Proof. induction l as [|e l IH]; cbn; [done|]. destruct (Z.ltb k e.1); [done|]. rewrite IH. solve_Permutation. Qed.

Lemma z_equiv a b : mm_equiv a b = true <-> a = b.
Proof. cbn. rewrite andb_true_iff, !negb_true_iff, !Z.ltb_ge. lia. Qed.

#[local] Instance z_multimap_ok : MultimapOk Z.
Proof.
  split; [intros k|intros k k'|intros k k' k''|intros; apply insert_behind_perm]; rewrite !z_equiv; congruence.
Qed.

#[local] Instance z_order : KeyOrder Z bool.
Proof.
  split; try done; cbn.
  - intros a. apply Z.ltb_irrefl.
  - intros a b c. rewrite !Z.ltb_lt. lia.
  - intros a b c. rewrite !Z.ltb_lt. lia.
  - intros k v l. induction l as [|e l IH]; cbn; intros Hs; [repeat constructor|]. apply StronglySorted_inv in Hs as [Hl He].
    destruct (Z.ltb k e.1) eqn:E.
    + apply Z.ltb_lt in E. constructor; [by constructor|]. constructor; [apply Z.ltb_ge; cbn; lia|]. eapply Forall_impl; [exact He|]. cbn.
      intros x. rewrite !Z.ltb_ge. lia.
    + constructor; [by apply IH|]. apply Z.ltb_ge in E.
      assert (Hp : (insert_behind k v l).*1 ≡ₚ k :: l.*1) by (by rewrite insert_behind_perm). rewrite Hp. constructor; [by apply Z.ltb_ge|done].
Qed.

Definition txn1 : Z := TRANSACTION_ID_START + 1.
Definition txn2 : Z := TRANSACTION_ID_START + 2.

(** Two rows committed, a third inserted and one deleted by a second transaction. *)
Definition history : list (@op Z) := [OInsertTxn 20 0 txn1; OInsertTxn 10 1 txn1; OCommitInsert txn1 4].
Definition writes : list (@op Z) := [OInsertTxn 15 2 txn2; OMarkDelete 20 0 txn2; OMarkDelete 15 2 txn2].

Ltac decided := apply (bool_decide_unpack _); vm_compute; exact I.

Lemma memory_index_refines_witness : exists e, e ∈ storage_ (run empty (history ++ writes)) /\ insert_id e.2 = txn2 /\
  exists q, q ∈ pending_insert_list (run empty (history ++ writes)) txn2 /\ mm_equiv e.1 q.1 = true /\ row_index e.2 = q.2.
Proof.
  exists (15, IndexValue 2 txn2 txn2). assert (He : (15, IndexValue 2 txn2 txn2) ∈ storage_ (run empty (history ++ writes))).
  { vm_compute. repeat constructor. }
  split_and!; [done|done|]. apply (memory_index_refines true (history ++ writes)); [decided|decided|done|done].
Defined.


Lemma abort_leaves_no_trace_witness :
  storage_ (revert_delete (revert_insert (run (run empty history) writes) txn2) txn2) ≡ₚ [(10, IndexValue 1 4 NOT_DELETED_ID); (20, IndexValue 0 4 NOT_DELETED_ID)].
Proof.
  etrans; [apply (abort_leaves_no_trace true history writes txn2); [decided|decided|by repeat constructor|]|vm_compute; reflexivity].
  apply Forall_forall. vm_compute. repeat constructor; discriminate.
Defined.

(** One commit published, one in flight, one transaction running. *)
Definition in_flight_ops : list operation := [OBegin 1; OCommit 1; OPublish 2; OBegin 1; OCommit 1; OBegin 2].
Definition in_flight_world : world := default fresh_world (exec_all fresh_world in_flight_ops).
Definition reader_world : world :=
  World (begin_transaction (mgr in_flight_world) 3).2 (allocated in_flight_world) (published in_flight_world) (recovered in_flight_world).

Lemma in_flight_world_reachable : reachable in_flight_world.
Proof. apply (exec_all_reachable in_flight_ops). vm_compute. reflexivity. Qed.

Lemma index_visibility_agrees_witness :
  let d := data (begin_transaction (mgr in_flight_world) 3).1 in
  index_entry_visible (IndexValue 5 2 NOT_DELETED_ID) (start_time d) (transaction_id d) = true /\
  use_inserted_version d 2 && use_deleted_version d NOT_DELETED_ID = true.
Proof.
  cbn zeta. split; [|vm_compute; reflexivity].
  etrans; [apply (index_visibility_agrees in_flight_world 3 reader_world (IndexValue 5 2 NOT_DELETED_ID)); [apply in_flight_world_reachable|decided|vm_compute; reflexivity|apply rtc_refl| | |decided|decided]|vm_compute; reflexivity].
  - right; left; left. decided.
  - right; right. vm_compute. discriminate.
Defined.

Lemma index_misjudges_in_flight_witness :
  let d := data (begin_transaction (mgr in_flight_world) 3).1 in
  index_entry_visible (IndexValue 5 0 4) (start_time d) (transaction_id d) = false /\ use_deleted_version d 4 = true.
Proof. apply (index_misjudges_in_flight in_flight_world 3 4 5); [apply in_flight_world_reachable|decided|vm_compute; reflexivity|decided]. Defined.

Lemma rebuilt_rows_vanish_witness :
  let s := rebuild [(10, 0); (20, 1)] in
  let s' := hash_single_field_index.commit_insert_impl (hash_single_field_index.commit_insert_impl s txn1 7) 0 7 in
  search (I := hash_single_field_index.t Z) s cmp_eq 20 5 txn2 = Ok (s, [1]) /\ search (I := hash_single_field_index.t Z) s' cmp_eq 20 5 txn2 = Ok (s', []).
Proof. cbn zeta. split; [vm_compute; reflexivity|]. apply (rebuilt_rows_vanish [(10, 0); (20, 1)] 20 5 txn2 txn1 7); [decided|decided|done|done|done]. Defined.
