(* ===== verification/HashedIndex.v ===== *)
(** * The hashed index over its files

    [components/index/disk_hash_single_field_index.cpp], the index object that answers lookups of a
    hashed index from the hash table on disk and the rows of running transactions, and
    [services/index/index_agent_disk.cpp], the agent that applies committed rows to the
    log-structured index behind it. Both hold the same hash table: the index object reads what the
    agent's index wrote. The agents of ordered indexes, which write a B+ tree, are not modelled. *)

From S2P Require Import Prelude.
From S2P Require Import Visibility.
From S2P Require Import Bytes.
From S2P Require Import DataChunkBinary.
From S2P Require Import DiskHashTable.
From S2P Require Import DiskHashSpec.
From S2P Require Import HashStorage.
From S2P Require Import IndexCodec.
From S2P Require Import Bitcask.
From S2P Require Import MemoryIndex.
Import index.
#[local] Open Scope Z_scope.

Module disk_hash_single_field_index.

Abbreviation pending_txn_map_t := (gmap Z (list (bytes * Z))).

Section disk_hash_single_field_index.
Context {T : Type} {HS : HashStorage T}.

(** The key loader installed in the table, and the order in which an [unordered_map] is visited. *)
Context (load : loader) (visit : pending_txn_map_t -> list (Z * list (bytes * Z))).

Record t := Make {
  disk_table_ : T;
  scratch_results_ : list index_value_t;
  pending_inserts_ : pending_txn_map_t;
  pending_deletes_ : pending_txn_map_t;
}.

Definition new (storage : T) : t := Make storage [] ∅ ∅.

Definition with_scratch (s : t) (r : list index_value_t) : t := Make (disk_table_ s) r (pending_inserts_ s) (pending_deletes_ s).
Definition with_inserts (s : t) (m : pending_txn_map_t) : t := Make (disk_table_ s) (scratch_results_ s) m (pending_deletes_ s).
Definition with_deletes (s : t) (m : pending_txn_map_t) : t := Make (disk_table_ s) (scratch_results_ s) (pending_inserts_ s) m.

Definition normalize_key (key : logical_value_t) : outcome logical_value_t :=
  let ty := type_ (v_type key) in
  if existsb (Z.eqb ty) [LT_TINYINT; LT_SMALLINT; LT_INTEGER; LT_BIGINT] then cast_as_integer key LT_BIGINT
  else if existsb (Z.eqb ty) [LT_UTINYINT; LT_USMALLINT; LT_UINTEGER; LT_UBIGINT] then cast_as_integer key LT_UBIGINT
  else mret key.

Definition encode_key (key : logical_value_t) : outcome bytes := normalized ← normalize_key key; encode_disk_hash_key normalized.

Definition decode_key (encoded : bytes) : outcome logical_value_t := '(v, _) ← read_logical_value encoded 0; mret v.

(** The rows of [m] pending for a key, with their transactions. *)
Definition pending_for (m : pending_txn_map_t) (encoded : bytes) : list (Z * Z) :=
  p ← visit m; q ← p.2; if bool_decide (q.1 = encoded) then [(p.1, q.2)] else [].

Definition mark_pending (results : list index_value_t) (p : Z * Z) : list index_value_t :=
  default results (update_first (fun e => bool_decide (row_index e = p.2) && bool_decide (delete_id e = NOT_DELETED_ID)) (set_delete p.1) results).

Definition find (s : t) (value : logical_value_t) : outcome (t * list index_value_t) :=
  encoded ← encode_key value;
  values ← hs_get_all load (disk_table_ s) encoded;
  let stored := (fun v => IndexValue (disk_hash_table.value v) 0 NOT_DELETED_ID) <$> values in
  let inserted := (fun p => IndexValue p.2 p.1 NOT_DELETED_ID) <$> pending_for (pending_inserts_ s) encoded in
  let results := foldl mark_pending (stored ++ inserted) (pending_for (pending_deletes_ s) encoded) in
  mret (with_scratch s results, results).

(** Iteration runs over the last result. *)
#[global] Instance disk_hash_single_field_index : Index t logical_value_t := {|
  find_impl := find;
  lower_bound_impl _ _ := Fault (Throw 31);
  upper_bound_impl _ _ := Fault (Throw 31);
  all_impl := scratch_results_;
|}.

Definition insert_impl (s : t) (key : logical_value_t) (value : index_value_t) : t := s.
Definition remove_impl (s : t) (key : logical_value_t) : t := s.

Definition push (m : pending_txn_map_t) (txn_id : Z) (q : bytes * Z) : pending_txn_map_t := <[txn_id := default [] (m !! txn_id) ++ [q]]> m.

Definition insert_txn_impl (s : t) (key : logical_value_t) (row txn_id : Z) : outcome t :=
  encoded ← encode_key key; mret (with_inserts s (push (pending_inserts_ s) txn_id (encoded, row))).

Definition mark_delete_impl (s : t) (key : logical_value_t) (row txn_id : Z) : outcome t :=
  encoded ← encode_key key; mret (with_deletes s (push (pending_deletes_ s) txn_id (encoded, row))).

Definition commit_insert_impl (s : t) (txn_id commit_id : Z) : t := with_inserts s (delete txn_id (pending_inserts_ s)).
Definition commit_delete_impl (s : t) (txn_id commit_id : Z) : t := with_deletes s (delete txn_id (pending_deletes_ s)).
Definition revert_insert_impl (s : t) (txn_id : Z) : t := with_inserts s (delete txn_id (pending_inserts_ s)).
Definition revert_delete_impl (s : t) (txn_id : Z) : t := with_deletes s (delete txn_id (pending_deletes_ s)).
Definition cleanup_versions_impl (s : t) (lowest_active : Z) : t := s.

Definition decode_row (q : bytes * Z) : outcome (logical_value_t * Z) := key ← decode_key q.1; mret (key, q.2).

(** What the callback is called with. *)
Definition for_each_pending_insert_impl (s : t) (txn_id : Z) : outcome (list (logical_value_t * Z)) :=
  mapM decode_row (default [] (pending_inserts_ s !! txn_id)).
Definition for_each_pending_delete_impl (s : t) (txn_id : Z) : outcome (list (logical_value_t * Z)) :=
  mapM decode_row (default [] (pending_deletes_ s !! txn_id)).

Definition clean_memory_to_new_elements_impl (s : t) : t := Make (disk_table_ s) [] ∅ ∅.

End disk_hash_single_field_index.
Arguments t : clear implicits.
End disk_hash_single_field_index.

(** ** The agent *)

Module index_agent_disk.
Import bitcask_index_disk.
Section index_agent_disk.
Context {T : Type} {HS : HashStorage T} (crc32c : bytes -> Z) (publishes : sidecar -> bool) (txn_log_opens : bool).
Context (flush_threshold_ segment_record_limit_ : Z).

#[local] Abbreviation bitcask := (bitcask_index_disk.t (T := T)).

Record t := Agent { index_disk_ : bitcask; is_dropped_ : bool }.

Definition with_index (a : t) (b : bitcask) : t := Agent b (is_dropped_ a).

(** The files are removed; the agent stays. *)
Definition drop (a : t) : outcome t := fs ← bitcask_index_disk.drop crc32c publishes (index_disk_ a); mret (Agent (with_files (index_disk_ a) fs) true).

Definition clear (a : t) : outcome t :=
  if is_dropped_ a then mret a else b ← bitcask_index_disk.clear crc32c publishes (index_disk_ a); mret (with_index a b).

Fixpoint insert_bulk (b : bitcask) (values : list (logical_value_t * Z)) : outcome bitcask :=
  match values with
  | [] => mret b
  | (key, row_id) :: values => b ← insert_bulk_unchecked crc32c publishes segment_record_limit_ b key row_id; insert_bulk b values
  end.

(** The guard ends the bulk mode after the flush. *)
Definition insert_many (a : t) (txn_id : Z) (values : list (logical_value_t * Z)) : outcome (option error_code_t * t) :=
  if negb (bool_decide (txn_id = 0)) then
    '(err, b) ← apply_txn_inserts crc32c publishes txn_log_opens segment_record_limit_ (index_disk_ a) txn_id values;
    mret (err, with_index a b)
  else
    b ← set_bulk_mode (index_disk_ a) true;
    b ← insert_bulk b values;
    b ← set_bulk_mode (bitcask_index_disk.force_flush b) false;
    mret (None, with_index a b).

Fixpoint remove_rows (b : bitcask) (values : list (logical_value_t * Z)) : outcome bitcask :=
  match values with
  | [] => mret b
  | (key, row_id) :: values => b ← remove_row crc32c publishes flush_threshold_ segment_record_limit_ b key row_id; remove_rows b values
  end.

Definition remove_many (a : t) (txn_id : Z) (values : list (logical_value_t * Z)) : outcome (option error_code_t * t) :=
  if negb (bool_decide (txn_id = 0)) then
    '(err, b) ← apply_txn_deletes crc32c publishes txn_log_opens segment_record_limit_ (index_disk_ a) txn_id values;
    mret (err, with_index a b)
  else
    b ← remove_rows (index_disk_ a) values;
    mret (None, with_index a (bitcask_index_disk.force_flush b)).

Definition force_flush (a : t) : t := if is_dropped_ a then a else with_index a (bitcask_index_disk.force_flush (index_disk_ a)).

End index_agent_disk.
Arguments t : clear implicits.
End index_agent_disk.
