(* ===== verification/HashedIndexTheorems.v ===== *)
(** * What lookups of a hashed index find

    After any run of the log-structured index, a lookup through the index object finds one row per key
    on disk, the last one added, whatever rows the log has for it; rows inserted again at start come on
    top. Rebuilding the files of an index keeps one row per key. *)

From S2P Require Import Prelude.
From S2P Require Import Visibility.
From S2P Require Import TransactionManager.
From S2P Require Import Bytes.
From S2P Require Import DataChunkBinary.
From S2P Require Import DiskHashTable.
From S2P Require Import DiskHashSpec.
From S2P Require Import DiskHashTheorems.
From S2P Require Import HashStorage.
From S2P Require Import IndexCodec.
From S2P Require Import Bitcask.
From S2P Require Import BitcaskLog.
From S2P Require Import BitcaskSpec.
From S2P Require Import BitcaskOps.
From S2P Require Import BitcaskOpen.
From S2P Require Import BitcaskMerge.
From S2P Require Import BitcaskTheorems.
From S2P Require Import MemoryIndex.
From S2P Require Import HashedIndex.
Import index bitcask_index_disk.
#[local] Open Scope Z_scope.

Module facade := disk_hash_single_field_index.
Module agent := index_agent_disk.

(** ** References of a key *)

Lemma no_refs_with_key I k : I !! k = None -> with_key k (refs_of I) = [].
Proof.
  intros E. unfold with_key. destruct (filter _ _) as [|r l] eqn:Ef; [done|]. exfalso.
  assert (Hr : r ∈ r :: l) by set_solver. rewrite <- Ef in Hr. apply list_elem_of_filter in Hr as [Hk (k' & s' & Hs & ->)%elem_of_refs].
  cbn in Hk. congruence.
Qed.

Lemma refs_with_key I k : with_key k (refs_of I) ≡ₚ match I !! k with Some s => [mkref k s] | None => [] end.
Proof.
  destruct (I !! k) as [s|] eqn:E; [|by rewrite no_refs_with_key].
  unfold with_key. rewrite (refs_of_delete I k s E), filter_cons, decide_True by done.
  fold (with_key k (refs_of (delete k I))). by rewrite no_refs_with_key by apply lookup_delete_eq.
Qed.

(** The key bytes of both sides are the same. *)
Lemma encode_key_hash key : facade.encode_key key = key_bytes_for_hash key.
Proof. done. Qed.

(** ** Lookups *)

(** The row the hash table has for a key. *)
Definition last_row (M : index_map) (key : logical_value_t) : list Z :=
  match M !! key_of key with Some (_, rows) => [row_value rows] | None => [] end.

(** The index object when rows have been inserted under transaction id 0, as at start. *)
Fixpoint reinsert {T : Type} (s : facade.t T) (rows : list (logical_value_t * Z)) : outcome (facade.t T) :=
  match rows with
  | [] => mret s
  | (key, row) :: rows => s ← facade.insert_txn_impl s key row 0; reinsert s rows
  end.

Definition rows_with_key (rows : list (logical_value_t * Z)) (key : logical_value_t) : list Z :=
  (filter (fun q => key_of q.1 = key_of key) rows).*2.

Section lookups.
Context {T : Type} {HS : HashStorage T} {HSO : HashStorageOk T} (crc32c : bytes -> Z).
Context (visit : facade.pending_txn_map_t -> list (Z * list (bytes * Z))) (Hvisit : forall m, visit m ≡ₚ map_to_list m).

Lemma reinsert_pending (s : facade.t T) rows :
  Forall (fun q => value_ok q.1) rows ->
  exists m, reinsert s rows = Ok (facade.with_inserts s m) /\
    default [] (m !! 0) = default [] (facade.pending_inserts_ s !! 0) ++ ((fun q => (key_of q.1, q.2)) <$> rows) /\
    delete 0 m = delete 0 (facade.pending_inserts_ s).
Proof.
  intros Hr. revert s. induction Hr as [|[key row] rows Hk _ IH]; intros s; cbn [reinsert].
  { exists (facade.pending_inserts_ s). rewrite app_nil_r. by destruct s. }
  unfold facade.insert_txn_impl. rewrite encode_key_hash, key_of_eq by done. cbn [mbind outcome_bind mret outcome_ret].
  destruct (IH (facade.with_inserts s (facade.push (facade.pending_inserts_ s) 0 (key_of key, row)))) as (m & E & Hm & Hd).
  exists m. split_and!; [by rewrite E| |].
  - rewrite Hm. cbn. unfold facade.push. rewrite lookup_insert_eq. cbn. by rewrite <- app_assoc.
  - rewrite Hd. cbn. unfold facade.push. by rewrite delete_insert_eq.
Qed.

Lemma bind_if {A B} (P : A -> Prop) `{!forall x, Decision (P x)} (f : A -> B) (l : list A) :
  l ≫= (fun x => if bool_decide (P x) then [f x] else []) = f <$> filter P l.
Proof.
  induction l as [|x l IH]; [done|]. rewrite bind_cons, filter_cons, IH.
  case_bool_decide; [rewrite decide_True by done|rewrite decide_False by done]; done.
Qed.

Lemma pending_for_zero m k :
  delete 0 m = ∅ -> facade.pending_for visit m k = (fun q => (0, q.2)) <$> filter (fun q => q.1 = k) (default [] (m !! 0)).
Proof.
  intros Hm. unfold facade.pending_for. pose proof (Hvisit m) as Hv. destruct (m !! 0) as [l|] eqn:E.
  - assert (m = {[ 0 := l ]}) as Em by (rewrite <- (insert_delete_id m 0 l E), Hm; apply insert_empty).
    rewrite Em, map_to_list_singleton in Hv. apply Permutation_singleton_r in Hv. rewrite Em, Hv.
    rewrite bind_cons, app_nil_r. apply (bind_if (fun q => q.1 = k)).
  - rewrite fin_maps.delete_id in Hm by done. subst m. rewrite map_to_list_empty in Hv. apply Permutation_nil_r in Hv. by rewrite Hv.
Qed.

(** The table of an index with log [L] has for a key the last of its rows. *)
Lemma get_all_last n b L key :
  wf crc32c n b L -> n <= limit ->
  exists vs, hs_get_all (key_loader crc32c b) (hash_index_ b) (key_of key) = Ok vs /\
    disk_hash_table.value <$> vs = last_row (view crc32c L) key.
Proof.
  intros W Hn. pose proof (wf_hash _ _ _ _ W) as Hh.
  destruct (hs_get_all_ok (key_loader crc32c b) (hash_index_ b) _ (key_of key) Hh) as (vs & E & Hp).
  { apply readable_loads. by eapply wf_readable. }
  exists vs. split; [done|]. rewrite refs_with_key in Hp. unfold last_row. rewrite view_lookup.
  destruct (index ∅ (slots crc32c L) !! key_of key) as [s|]; cbn in Hp |- *.
  - apply Permutation_singleton_r in Hp. by rewrite Hp.
  - apply Permutation_nil_r in Hp. by rewrite Hp.
Qed.

Lemma plain_visible start reader (rows : list Z) :
  0 < start -> TRANSACTION_ID_START <= reader < NOT_DELETED_ID ->
  rows_where (fun e => index_entry_visible e start reader) (plain_value <$> rows) = rows.
Proof.
  intros Hs Ht. unfold rows_where. pose proof id_bounds. induction rows as [|r rows IH]; [done|]. rewrite fmap_cons, filter_cons, decide_True.
  - by rewrite fmap_cons, IH.
  - apply Is_true_true. unfold index_entry_visible. cbn. repeat (case_bool_decide; try lia); done.
Qed.

Lemma rows_reinserted rows key :
  (fun p => IndexValue p.2 p.1 NOT_DELETED_ID) <$> ((fun q => (0, q.2)) <$> filter (fun q => q.1 = key_of key) ((fun q : logical_value_t * Z => (key_of q.1, q.2)) <$> rows)) =
  plain_value <$> rows_with_key rows key.
Proof.
  unfold rows_with_key. rewrite <- !list_fmap_compose. induction rows as [|q rows IH]; [done|]. rewrite fmap_cons, !filter_cons. cbn [fst].
  destruct (decide (key_of q.1 = key_of key)); [rewrite !fmap_cons, IH|]; done.
Qed.

Lemma lookup_rows n b L rows key start reader :
  wf crc32c n b L -> n <= limit -> Forall (fun q => value_ok q.1) rows -> value_ok key -> 0 < start -> TRANSACTION_ID_START <= reader < NOT_DELETED_ID ->
  exists s s', reinsert (facade.new (hash_index_ b)) rows = Ok s /\
    search (H := facade.disk_hash_single_field_index (key_loader crc32c b) visit) s cmp_eq key start reader =
    Ok (s', last_row (view crc32c L) key ++ rows_with_key rows key).
Proof.
  intros W Hn Hr Hk Hs Ht. destruct (reinsert_pending (facade.new (hash_index_ b)) rows Hr) as (m & E & Hm & Hd).
  destruct (get_all_last n b L key W Hn) as (vs & Ev & Hvs).
  eexists _, _. split; [exact E|]. cbn [search search_with find_impl facade.disk_hash_single_field_index].
  unfold facade.find. rewrite encode_key_hash, key_of_eq by done.
  cbn [mbind outcome_bind facade.disk_table_ facade.with_inserts facade.new facade.pending_inserts_ facade.pending_deletes_].
  rewrite Ev. cbn [mbind outcome_bind mret outcome_ret].
  rewrite (pending_for_zero m) by done. rewrite (pending_for_zero ∅) by done. rewrite Hm.
  rewrite lookup_empty. change (facade.pending_inserts_ (facade.new (hash_index_ b)) !! 0) with (@None (list (bytes * Z))).
  cbn [default from_option id app]. rewrite filter_nil, fmap_nil. cbn [foldl]. rewrite rows_reinserted.
  assert ((fun v => IndexValue (disk_hash_table.value v) 0 NOT_DELETED_ID) <$> vs = plain_value <$> last_row (view crc32c L) key) as ->
    by (rewrite <- Hvs, <- list_fmap_compose; done).
  rewrite <- fmap_app. by rewrite plain_visible.
Qed.

End lookups.

(** ** Rebuilding *)

Lemma returns_ret_inv {A B} E (m : outcome A) (f : A -> B) Q : returns E (a ← m; mret (f a)) Q -> returns E m (fun a => Q (f a)).
Proof. by destruct m. Qed.

Section rebuild_files.
Context {T : Type} {HS : HashStorage T} {HSO : HashStorageOk T} (crc32c : bytes -> Z) (publishes : sidecar -> bool) (txn_log_opens : bool).
Context (flush_threshold_ segment_record_limit_ : Z).
#[local] Abbreviation sys_ok := (sys_ok crc32c).
#[local] Abbreviation exec_step := (exec_index_step crc32c publishes txn_log_opens flush_threshold_ segment_record_limit_).

Lemma bulk_mode_sys N k b ph M pd e :
  sys_ok N k (Sys b ph) M pd -> 0 <= N <= limit -> 0 <= k <= 2 ->
  returns (io_fault publishes) (set_bulk_mode (T := T) b e) (fun b' => sys_ok N k (Sys b' ph) M pd).
Proof.
  intros Hs HN Hk. pose proof (exec_step N k (Sys b ph) M pd (o_bulk e) Hs) as H1. cbn [exec_index iop_ok cost merges s_index s_phase] in H1.
  eapply returns_mono; [apply (returns_ret_inv _ _ (fun b => (r_unit, Sys b ph))), H1; (done || lia)|].
  intros b' (M' & pd' & Hst & Hs'). inversion Hst; subst; [|naive_solver..].
  cbn in Hs'. by rewrite !Z.add_0_r in Hs'.
Qed.

Lemma flush_sys N k b ph M pd :
  sys_ok N k (Sys b ph) M pd -> 0 <= N <= limit -> 0 <= k <= 2 -> sys_ok N k (Sys (T := T) (force_flush b) ph) M pd.
Proof.
  intros Hs HN Hk. pose proof (exec_step N k (Sys b ph) M pd o_flush Hs) as H. cbn in H. rewrite !Z.add_0_r in H.
  destruct H as (M' & pd' & Hst & Hs'); [done|lia..|]. inversion Hst; subst; [done|naive_solver..].
Qed.

Lemma insert_bulk_sys values N k b ph M pd :
  sys_ok N k (Sys b ph) M pd -> Forall (fun q => key_ok q.1 /\ in_width 64 q.2) values -> 0 <= N -> N + 2 * zlen values <= limit -> 0 <= k <= 2 ->
  returns (io_fault publishes) (agent.insert_bulk (T := T) crc32c publishes segment_record_limit_ b values)
    (fun b' => sys_ok (N + 2 * zlen values) k (Sys b' ph) (foldl (fun M q => m_set M q.1 q.2) M values) pd).
Proof.
  intros Hs Hv. revert N b M Hs. induction Hv as [|[key row] values Hq _ IH]; intros N b M Hs HN Hl Hk; cbn [agent.insert_bulk foldl].
  { by rewrite Z.add_0_r. }
  rewrite zlen_cons in *. pose proof (zlen_nonneg values).
  pose proof (exec_step N k (Sys b ph) M pd (o_insert_bulk key row) Hs) as H1. cbn [exec_index iop_ok cost merges s_index s_phase] in H1.
  eapply returns_bind; [apply (returns_ret_inv _ _ (fun b => (r_unit, Sys b ph))), H1; (done || lia)|].
  intros b' (M' & pd' & Hst & Hs'). inversion Hst; subst; [|naive_solver..].
  cbn in Hs'. rewrite Z.add_0_r in Hs'. replace (N + 2 * (zlen values + 1)) with (N + 2 + 2 * zlen values) by lia. apply IH; [done|lia..].
Qed.

Lemma set_rows values M key :
  rows_of (foldl (fun M q => m_set M q.1 q.2) M values) key =
  match last (rows_with_key values key) with Some row => [row] | None => rows_of M key end.
Proof.
  revert M. induction values as [|[k r] values IH] using rev_ind; intros M; [done|]. rewrite foldl_snoc. cbn [fst snd].
  unfold rows_with_key. rewrite filter_app, fmap_app, filter_cons, filter_nil. cbn [fst]. unfold m_set, rows_of at 1.
  destruct (decide (key_of k = key_of key)) as [E|E].
  - rewrite E, lookup_insert_eq, fmap_cons, fmap_nil. by rewrite last_snoc.
  - rewrite lookup_insert_ne by done. rewrite fmap_nil, app_nil_r. apply IH.
Qed.

Lemma rebuild_sys N k s M pd values :
  sys_ok N k s M pd -> is_idle s = true -> Forall (fun q => key_ok q.1 /\ in_width 64 q.2) values ->
  0 <= N -> N + 2 * zlen values <= limit -> 0 <= k <= 2 ->
  returns (io_fault publishes)
    (a ← agent.clear crc32c publishes (agent.Agent (T := T) (s_index s) false);
     agent.insert_many crc32c publishes txn_log_opens segment_record_limit_ a 0 values)
    (fun p => p.1 = None /\ sys_ok (N + 2 * zlen values) k (Sys (agent.index_disk_ p.2) Idle) (foldl (fun M q => m_set M q.1 q.2) ∅ values) []).
Proof.
  intros Hs Hi Hv HN Hl Hk. pose proof (zlen_nonneg values). cbn [agent.clear agent.is_dropped_ agent.index_disk_].
  eapply (returns_bind _ _ _ (fun a => sys_ok N k (Sys (agent.index_disk_ a) Idle) ∅ [])).
  { eapply returns_bind; [|intros b Hb; exact Hb]. pose proof (exec_step N k s M pd o_clear Hs) as H1. cbn [exec_index] in H1. rewrite Hi in H1.
    eapply returns_mono; [apply (returns_ret_inv _ _ (fun b => (r_unit, Sys b Idle))), H1; cbn; (done || lia)|]. cbn. rewrite !Z.add_0_r.
    intros b (M' & pd' & Hst & Hs'). inversion Hst; subst; [naive_solver|done]. }
  intros a Ha. unfold agent.insert_many. rewrite bool_decide_true by done. cbn [negb].
  eapply returns_bind; [by apply (bulk_mode_sys N k _ Idle ∅ []); [|lia|lia]|]. intros b1 H1.
  eapply returns_bind; [by apply (insert_bulk_sys values N k b1 Idle ∅ [])|]. intros b2 H2.
  eapply returns_bind; [eapply (bulk_mode_sys (N + 2 * zlen values) k); [apply flush_sys; [exact H2|lia|lia]|lia|lia]|]. intros b3 H3.
  by split.
Qed.

End rebuild_files.

(** ** Theorems *)


(** Rebuilding the files of a hashed index keeps one row per key. Whatever the index held, after the
    agent clears it and inserts the rows of the table without a transaction, a lookup on disk
    finds exactly the last of the rows with the key. *)
Theorem rebuild_keeps_one_row {T : Type} {HS : HashStorage T} {HSO : HashStorageOk T} crc32c publishes txn_log_opens flush_threshold_
    segment_record_limit_ (tb : T) committed os values key :
  hs_holds tb [] -> Forall iop_ok os -> merge_count os <= 2 -> Forall (fun q => key_ok q.1 /\ in_width 64 q.2) values ->
  costs os + 2 * zlen values <= limit -> value_ok key ->
  returns (io_fault publishes)
    (b ← new crc32c publishes flush_threshold_ segment_record_limit_ no_files tb committed;
     '(_, s) ← run_index crc32c publishes txn_log_opens flush_threshold_ segment_record_limit_ (Sys b Idle) os;
     if is_idle s then
       a ← agent.clear crc32c publishes (agent.Agent (s_index s) false);
       '(err, a) ← agent.insert_many crc32c publishes txn_log_opens segment_record_limit_ a 0 values;
       rows ← find crc32c (agent.index_disk_ a) key;
       mret (Some (err, rows))
     else mret None)
    (fun r => r = None \/ r = Some (None, option_list (last (rows_with_key values key)))).
Proof.
  intros Hh Hok Hm Hv Hc Hk. pose proof (zlen_nonneg values). pose proof (costs_nonneg os). pose proof (merge_count_nonneg os). eapply returns_bind.
  { eapply returns_bind; [by apply create_empty|]. intros r (b & -> & Ho). exact Ho. }
  intros b Ho. eapply returns_bind.
  { apply (run_index_refines crc32c publishes txn_log_opens flush_threshold_ segment_record_limit_ os 0 0 _ ∅ []); [apply opened_sys, Ho|done|lia..]. }
  intros [rs s] (M & pd & _ & Hs). cbn [fst snd] in Hs. destruct (is_idle s) eqn:Ei; [|by left].
  pose proof (rebuild_sys crc32c publishes txn_log_opens flush_threshold_ segment_record_limit_ (0 + costs os) (0 + merge_count os) s M pd values Hs Ei Hv ltac:(lia) ltac:(lia) ltac:(lia)) as Hre.
  destruct (agent.clear _ _ _) as [a|e]; [|exact Hre]. cbn [mbind outcome_bind] in Hre |- *.
  eapply returns_bind; [exact Hre|]. intros [err a'] [He [(n & L & Hn & W & Hvw & _) _]]. cbn [fst snd s_index weight] in *. subst err.
  rewrite (find_view crc32c n _ L key W) by (done || lia). rewrite Hvw, set_rows. right. cbn. by destruct (last _).
Qed.

(** ** Examples *)

(** Three rows, two of them with one key. *)
Definition lookup_ops : list iop := [o_insert (bigint 5) 1; o_insert (bigint 5) 2; o_insert (bigint 6) 3; o_find (bigint 5)].

Definition txn9 : Z := TRANSACTION_ID_START + 9.


Definition table_rows : list (logical_value_t * Z) := [(bigint 5, 10); (bigint 6, 11); (bigint 5, 12)].

Lemma rebuild_keeps_one_row_witness :
  let m := b ← new castagnoli published 1000 10 no_files (ListTable [] false) ∅;
           '(_, s) ← run_index castagnoli published true 1000 10 (Sys b Idle) lookup_ops;
           if is_idle s then
             a ← agent.clear castagnoli published (agent.Agent (s_index s) false);
             '(err, a) ← agent.insert_many castagnoli published true 10 a 0 table_rows;
             rows ← find castagnoli (agent.index_disk_ a) (bigint 5);
             mret (Some (err, rows))
           else mret None in
  returns (io_fault published) m (fun r => r = None \/ r = Some (None, option_list (last (rows_with_key table_rows (bigint 5))))) /\
  m = Ok (Some (None, [12])).
Proof.
  split; [|by vm_compute].
  apply (rebuild_keeps_one_row castagnoli published true 1000 10 (ListTable [] false) ∅ lookup_ops table_rows (bigint 5)).
  - exact (Permutation_refl []).
  - unfold lookup_ops. sample_ok.
  - by vm_compute.
  - unfold table_rows. repeat (constructor; [split; [by apply bigint_ok|by vm_compute]|]). constructor.
  - by vm_compute.
  - by apply bigint_ok.
Defined.
