(* ===== verification/IndexEngine.v ===== *)
(** * The indexes of a table

    [components/index/index_engine.cpp]: the list of the indexes of a table with its maps by columns, by
    id, by name and by the address of the disk agent, the changes of rows and transactions fanned out
    to the indexes, and the part of [services/index/manager_index.cpp] that creates and drops indexes in
    it. An index is an object at an address of the heap; an address that is no longer in the list
    has been freed. *)

From stdpp Require Import strings.
From S2P Require Import Prelude.
From S2P Require Import MemoryIndex.
#[local] Open Scope Z_scope.

(** A column name as [key_t] has it: the parts of a path. *)
Abbreviation key_t := (list string).
Abbreviation keys_base_storage_t := (list key_t).

Inductive index_type := it_single | it_composite | it_multikey | it_hashed | it_wildcard | it_no_valid.

#[global] Instance index_type_eq_dec : EqDecision index_type.
Proof. solve_decision. Defined.

(** The parts of the path with slashes between them. *)
Definition as_string (k : key_t) : string := String.concat "/" k.

(** What the engine asks of an index object over values [V]. *)
Class IndexObject (I V : Type) := {
  io_insert : I -> V -> Z -> Z -> outcome I;
  io_mark_delete : I -> V -> Z -> Z -> outcome I;
  io_commit_insert : I -> Z -> Z -> I;
  io_commit_delete : I -> Z -> Z -> I;
  io_revert_insert : I -> Z -> I;
  io_revert_delete : I -> Z -> I;
  io_cleanup : I -> Z -> I;
  io_pending_inserts : I -> Z -> outcome (list (V * Z));
  io_pending_deletes : I -> Z -> outcome (list (V * Z));
}.

(** The indexes in memory as objects of the engine. *)
#[global] Instance ordered_object {K T} `{Key K T} `{Multimap K} : IndexObject (single_field_index.t K T) K := {|
  io_insert s k r t := mret (single_field_index.insert_txn_impl s k r t);
  io_mark_delete s k r t := mret (single_field_index.mark_delete_impl s k r t);
  io_commit_insert := single_field_index.commit_insert_impl;
  io_commit_delete := single_field_index.commit_delete_impl;
  io_revert_insert := single_field_index.revert_insert_impl;
  io_revert_delete := single_field_index.revert_delete_impl;
  io_cleanup := single_field_index.cleanup_versions_impl;
  io_pending_inserts s t := mret (single_field_index.for_each_pending_insert_impl s t);
  io_pending_deletes s t := mret (single_field_index.for_each_pending_delete_impl s t);
|}.

#[global] Instance hashed_object {K} `{Multimap K} : IndexObject (hash_single_field_index.t K) K := {|
  io_insert s k r t := mret (hash_single_field_index.insert_txn_impl s k r t);
  io_mark_delete s k r t := mret (hash_single_field_index.mark_delete_impl s k r t);
  io_commit_insert := hash_single_field_index.commit_insert_impl;
  io_commit_delete := hash_single_field_index.commit_delete_impl;
  io_revert_insert := hash_single_field_index.revert_insert_impl;
  io_revert_delete := hash_single_field_index.revert_delete_impl;
  io_cleanup := hash_single_field_index.cleanup_versions_impl;
  io_pending_inserts s t := mret (hash_single_field_index.for_each_pending_insert_impl s t);
  io_pending_deletes s t := mret (hash_single_field_index.for_each_pending_delete_impl s t);
|}.

Module index_engine.
Section index_engine.
Context {I V : Type} `{IndexObject I V}.

(** The address of an agent; [None] is the empty address. *)
Record index_t := Index {
  name : string;
  type : index_type;
  keys_ : keys_base_storage_t;
  disk_agent_ : option Z;
  object : I;
}.

Definition is_disk (i : index_t) : bool := bool_decide (disk_agent_ i <> None).
Definition with_agent (i : index_t) (a : option Z) : index_t := Index (name i) (type i) (keys_ i) a (object i).
Definition with_object (i : index_t) (o : I) : index_t := Index (name i) (type i) (keys_ i) (disk_agent_ i) o.

(** Addresses of indexes are numbers. *)
Record t := Engine {
  mapper_ : gmap keys_base_storage_t Z;
  index_to_mapper_ : gmap Z Z;
  index_to_address_ : gmap Z Z;
  index_to_name_ : gmap string Z;
  storage_ : list (Z * index_t);
}.

Definition empty : t := Engine ∅ ∅ ∅ ∅ [].

Definition with_storage (e : t) (l : list (Z * index_t)) : t :=
  Engine (mapper_ e) (index_to_mapper_ e) (index_to_address_ e) (index_to_name_ e) l.

(** [emplace] keeps what is there. *)
Definition emplace {K} `{Countable K} (k : K) (p : Z) (m : gmap K Z) : gmap K Z := match m !! k with Some _ => m | None => <[k := p]> m end.

(** The index at an address; a freed one cannot be used. *)
Definition deref (e : t) (p : Z) : outcome index_t := of_option NullDeref (snd <$> find (fun q => bool_decide (q.1 = p)) (storage_ e)).

(** [ptr] is where the new index was allocated. *)
Definition add_index (e : t) (keys : keys_base_storage_t) (ptr : Z) (index : index_t) : Z * t :=
  let new_id := Z.of_nat (size (index_to_mapper_ e)) in
  (u32 new_id,
   Engine (emplace keys ptr (mapper_ e)) (emplace (u32 new_id) ptr (index_to_mapper_ e)) (index_to_address_ e)
     (emplace (name index) ptr (index_to_name_ e)) (storage_ e ++ [(ptr, index)])).

Definition add_disk_agent (e : t) (id address : Z) : outcome t :=
  p ← of_option OutOfBounds (index_to_mapper_ e !! id);
  mret (Engine (mapper_ e) (index_to_mapper_ e) (emplace address p (index_to_address_ e)) (index_to_name_ e) (storage_ e)).

Definition drop_index (e : t) (p : Z) : outcome t :=
  i ← deref e p;
  mret (Engine (delete (keys_ i) (mapper_ e)) (index_to_mapper_ e)
          (match disk_agent_ i with Some a => delete a (index_to_address_ e) | None => index_to_address_ e end)
          (delete (name i) (index_to_name_ e)) (filter (fun q => q.1 <> p) (storage_ e))).

Definition matching_id (e : t) (id : Z) : outcome Z := of_option OutOfBounds (index_to_mapper_ e !! id).
Definition size (e : t) : Z := Z.of_nat (stdpp.base.size (mapper_ e)).
Definition matching_keys (e : t) (query : keys_base_storage_t) : option Z := mapper_ e !! query.
Definition matching_type (e : t) (query : keys_base_storage_t) (ty : index_type) : option Z :=
  fst <$> find (fun q => bool_decide (type q.2 = ty) && bool_decide (keys_ q.2 = query)) (storage_ e).
Definition matching_address (e : t) (address : Z) : option Z := index_to_address_ e !! address.
Definition matching_name (e : t) (n : string) : option Z := index_to_name_ e !! n.
Definition has_index (e : t) (n : string) : bool := bool_decide (matching_name e n <> None).

(** ** Rows *)

(** A chunk as the engine reads it: columns with an alias and values. *)
Record data_chunk_t := Chunk { columns : list (string * list V) }.

Definition is_match_column (i : index_t) (chunk : data_chunk_t) : bool :=
  forallb (fun k => existsb (fun c => bool_decide (c.1 = as_string k)) (columns chunk)) (keys_ i).

(** [null] is the value returned when no column matches. *)
Definition get_value_by_index (null : V) (i : index_t) (chunk : data_chunk_t) (row : Z) : outcome V :=
  match keys_ i with
  | [] => mret null
  | k :: _ =>
      match find (fun c => bool_decide (c.1 = as_string k)) (columns chunk) with
      | Some c => of_option OutOfBounds (c.2 !!z row)
      | None => mret null
      end
  end.

Definition for_all (f : index_t -> outcome index_t) (e : t) : outcome t :=
  l ← mapM (fun q => i ← f q.2; mret (q.1, i)) (storage_ e); mret (with_storage e l).

Definition on_row (null : V) (f : I -> V -> Z -> Z -> outcome I) (e : t) (chunk : data_chunk_t) (chunk_row storage_row txn_id : Z) : outcome t :=
  for_all (fun i =>
    if is_match_column i chunk then key ← get_value_by_index null i chunk chunk_row; o ← f (object i) key storage_row txn_id; mret (with_object i o)
    else mret i) e.

Definition insert_row (null : V) := on_row null io_insert.
Definition mark_delete_row (null : V) := on_row null io_mark_delete.

Definition on_objects (f : I -> I) (e : t) : t := with_storage e ((fun q => (q.1, with_object q.2 (f (object q.2)))) <$> storage_ e).

Definition commit_insert (e : t) (txn_id commit_id : Z) : t := on_objects (fun o => io_commit_insert o txn_id commit_id) e.
Definition commit_delete (e : t) (txn_id commit_id : Z) : t := on_objects (fun o => io_commit_delete o txn_id commit_id) e.
Definition revert_insert (e : t) (txn_id : Z) : t := on_objects (fun o => io_revert_insert o txn_id) e.
Definition revert_delete (e : t) (txn_id : Z) : t := on_objects (fun o => io_revert_delete o txn_id) e.
Definition cleanup_versions (e : t) (lowest_active : Z) : t := on_objects (fun o => io_cleanup o lowest_active) e.

Definition all_indexed_descriptions (e : t) : list (keys_base_storage_t * index_type) := (fun q => (keys_ q.2, type q.2)) <$> storage_ e.
Definition indexes (e : t) : list string := (fun q => name q.2) <$> storage_ e.

(** What the callbacks are called with: the agent, the key and the row. *)
Definition for_each_disk_op (null : V) (e : t) (chunk : data_chunk_t) (row : Z) : outcome (list (Z * V)) :=
  ls ← mapM (fun q =>
    match disk_agent_ q.2 with
    | Some a => if is_match_column q.2 chunk then key ← get_value_by_index null q.2 chunk row; mret [(a, key)] else mret []
    | None => mret []
    end) (storage_ e);
  mret (concat ls).

Definition pending_disk (pending : I -> outcome (list (V * Z))) (e : t) : outcome (list (Z * V * Z)) :=
  ls ← mapM (fun q =>
    match disk_agent_ q.2 with
    | Some a => rows ← pending (object q.2); mret ((fun r => (a, r.1, r.2)) <$> rows)
    | None => mret []
    end) (storage_ e);
  mret (concat ls).

Definition for_each_pending_disk_insert (e : t) (txn_id : Z) : outcome (list (Z * V * Z)) := pending_disk (fun o => io_pending_inserts o txn_id) e.
Definition for_each_pending_disk_delete (e : t) (txn_id : Z) : outcome (list (Z * V * Z)) := pending_disk (fun o => io_pending_deletes o txn_id) e.

(** ** Creating and dropping *)

Definition set_agent_at (e : t) (p a : Z) : t :=
  with_storage e ((fun q => if bool_decide (q.1 = p) then (q.1, with_agent q.2 (Some a)) else q) <$> storage_ e).

(** [set_disk_agent] by id. *)
Definition set_disk_agent (e : t) (id agent : Z) : outcome t :=
  p ← matching_id e id; _ ← deref e p; add_disk_agent (set_agent_at e p agent) id agent.

(** [manager_index_t::create_index] from the registration on: the index is looked up by its columns to
    be linked with its agent. *)
Definition link_agent (e : t) (keys : keys_base_storage_t) (id agent : Z) : outcome t :=
  match matching_keys e keys with
  | Some p => _ ← deref e p; add_disk_agent (set_agent_at e p agent) id agent
  | None => mret e
  end.

(** An index of that name is refused. *)
Definition create_index (e : t) (index : index_t) (ptr agent : Z) : outcome (option Z * t) :=
  if has_index e (name index) then mret (None, e)
  else
    let '(id, e) := add_index e (keys_ index) ptr index in
    e ← link_agent e (keys_ index) id agent; mret (Some id, e).

(** [manager_index_t::drop_index]: the agent that is told to remove its files, and the engine. *)
Definition drop_named (e : t) (n : string) : outcome (option Z * t) :=
  match matching_name e n with
  | None => mret (None, e)
  | Some p => i ← deref e p; e ← drop_index e p; mret (disk_agent_ i, e)
  end.

End index_engine.
Arguments t : clear implicits.
Arguments index_t : clear implicits.
End index_engine.

Import index_engine.

(** ** Live indexes *)

Section live.
Context {I V : Type} {obj : IndexObject I V}.
#[local] Abbreviation t := (t I).
#[local] Abbreviation index_t := (index_t I).
Implicit Types (e : t) (i : index_t) (p : Z).

(** Creating allocates at an address no live index has. *)
Inductive reachable_engine : t -> Prop :=
| re_empty : reachable_engine empty
| re_create e i p a r e' : reachable_engine e -> p ∉ (storage_ e).*1 -> create_index e i p a = Ok (r, e') -> reachable_engine e'
| re_drop e n r e' : reachable_engine e -> drop_named e n = Ok (r, e') -> reachable_engine e'.

Record engine_inv (e : t) : Prop := {
  ei_nodup : NoDup (storage_ e).*1;
  ei_names n p : index_to_name_ e !! n = Some p <-> exists i, (p, i) ∈ storage_ e /\ name i = n;
  ei_keys ks p : mapper_ e !! ks = Some p -> exists i, (p, i) ∈ storage_ e /\ keys_ i = ks;
}.

Lemma lookup_emplace {K} `{Countable K} (k : K) (p : Z) (m : gmap K Z) k' :
  emplace k p m !! k' = if bool_decide (k = k' /\ m !! k' = None) then Some p else m !! k'.
Proof.
  unfold emplace. destruct (m !! k) eqn:E.
  - rewrite bool_decide_false; [done|]. intros [<- Hn]. congruence.
  - destruct (decide (k = k')) as [<-|Hne].
    + rewrite lookup_insert_eq. by rewrite bool_decide_true.
    + rewrite lookup_insert_ne by done. rewrite bool_decide_false; [done|]. by intros [? _].
Qed.

Lemma find_first {A} (l : list (Z * A)) p (i : A) : NoDup l.*1 -> (p, i) ∈ l -> find (fun q => bool_decide (q.1 = p)) l = Some (p, i).
Proof.
  induction l as [|[p' i'] l IH]; [set_solver|]. rewrite fmap_cons. cbn [find fst]. intros [Hn Hl]%NoDup_cons [[= <- <-]|Hin]%elem_of_cons.
  - by rewrite bool_decide_true.
  - rewrite bool_decide_false; [by apply IH|]. intros ->. apply Hn. apply list_elem_of_fmap. by exists (p, i).
Qed.

Lemma deref_live e p i : NoDup (storage_ e).*1 -> (p, i) ∈ storage_ e -> deref e p = Ok i.
Proof. intros Hn Hi. unfold deref. by rewrite (find_first _ p i). Qed.

Lemma set_agent_keeps e p a :
  (storage_ (set_agent_at e p a)).*1 = (storage_ e).*1 /\
  forall (P : index_t -> Prop), (forall i a, P (with_agent i a) <-> P i) ->
    forall q, (exists i, (q, i) ∈ storage_ (set_agent_at e p a) /\ P i) <-> exists i, (q, i) ∈ storage_ e /\ P i.
Proof.
  cbn. split.
  - rewrite <- list_fmap_compose. apply list_fmap_ext. intros _ [q i] _. cbn. by case_bool_decide.
  - intros P HP q. split.
    + intros (i & ([q' i'] & E & Hin)%list_elem_of_fmap & Hi). cbn in E. case_bool_decide; injection E as -> ->; exists i'; [by rewrite HP in Hi|done].
    + intros (i & Hin & Hi). exists (if bool_decide (q = p) then with_agent i (Some a) else i). split.
      * apply list_elem_of_fmap. exists (q, i). cbn. by case_bool_decide.
      * case_bool_decide; [by rewrite HP|done].
Qed.

(** Linking changes nothing but agents. *)
Lemma set_agent_inv e p a : engine_inv e -> engine_inv (set_agent_at e p a).
Proof.
  intros [H1 H2 H3]. destruct (set_agent_keeps e p a) as [Ek EP]. split.
  - by rewrite Ek.
  - intros n q. rewrite (EP (fun i => name i = n)) by done. apply H2.
  - intros ks q Hq. apply (EP (fun i => keys_ i = ks)); [done|]. by apply H3.
Qed.

Lemma add_index_inv e i p :
  engine_inv e -> p ∉ (storage_ e).*1 -> has_index e (name i) = false -> engine_inv (add_index e (keys_ i) p i).2.
Proof.
  intros [H1 H2 H3] Hp Hn. apply bool_decide_eq_false in Hn. assert (Hno : index_to_name_ e !! name i = None) by (destruct (index_to_name_ e !! name i) eqn:E; [|done]; exfalso; apply Hn; unfold matching_name; by rewrite E).
  split; cbn.
  - rewrite fmap_app. apply NoDup_app. split_and!; [done|set_solver|apply NoDup_singleton].
  - intros n q. rewrite lookup_emplace. setoid_rewrite elem_of_app. setoid_rewrite list_elem_of_singleton. case_bool_decide as E.
    + destruct E as [<- _]. split; [intros [= <-]; exists i; auto|]. intros (j & [Hj|[= -> ->]] & Hjn); [|done].
      assert (Hs : index_to_name_ e !! name i = Some q) by (apply H2; by exists j). congruence.
    + rewrite H2. split; [intros (j & Hj & Hjn); exists j; auto|]. intros (j & [Hj|[= -> ->]] & Hjn); [by exists j|]. subst n. exfalso. by apply E.
  - intros ks q. rewrite lookup_emplace. case_bool_decide as E.
    + intros [= <-]. exists i. split; [|by destruct E]. apply elem_of_app. right. by apply list_elem_of_singleton.
    + intros (j & Hj & Hjk)%H3. exists j. split; [|done]. apply elem_of_app. by left.
Qed.

Lemma drop_index_inv e p i : engine_inv e -> (p, i) ∈ storage_ e -> exists e', drop_index e p = Ok e' /\ engine_inv e'.
Proof.
  intros [H1 H2 H3] Hi. unfold drop_index. rewrite (deref_live e p i) by done. cbn [mbind outcome_bind mret outcome_ret]. eexists. split; [done|].
  assert (Huniq : forall q j, (q, j) ∈ storage_ e -> name j = name i -> q = p).
  { intros q j Hq Hn. assert (A1 : index_to_name_ e !! name i = Some q) by (apply H2; by exists j).
    assert (A2 : index_to_name_ e !! name i = Some p) by (apply H2; by exists i). congruence. }
  assert (Hsame : forall j, (p, j) ∈ storage_ e -> j = i).
  { intros j Hj. pose proof (deref_live e p j H1 Hj) as E1. rewrite (deref_live e p i H1 Hi) in E1. by injection E1. }
  split; cbn.
  - eapply sublist_NoDup; [exact H1|]. apply fmap_sublist, sublist_filter.
  - intros n q. rewrite lookup_delete_Some, H2. setoid_rewrite list_elem_of_filter. cbn. split.
    + intros [Hne (j & Hj & <-)]. exists j. split_and!; [|done|done]. intros ->. apply Hne. by rewrite (Hsame j Hj).
    + intros (j & [Hne Hj] & <-). split; [|by exists j]. intros E. apply Hne. by apply (Huniq q j).
  - intros ks q [Hne (j & Hj & <-)%H3]%lookup_delete_Some. exists j. split; [|done]. apply list_elem_of_filter. split; [|done].
    cbn. intros ->. apply Hne. by rewrite (Hsame j Hj).
Qed.

(** A new index: the one its columns find gets the agent. *)
Lemma create_index_new e i p a :
  engine_inv e -> p ∉ (storage_ e).*1 -> has_index e (name i) = false ->
  let e1 := (add_index e (keys_ i) p i).2 in
  exists id e', create_index e i p a = Ok (Some id, e') /\
    storage_ e' = storage_ (set_agent_at e1 (default p (mapper_ e !! keys_ i)) a) /\
    mapper_ e' = mapper_ e1 /\ index_to_name_ e' = index_to_name_ e1.
Proof.
  intros He Hp Hn. cbn zeta. unfold create_index. rewrite Hn. pose proof (add_index_inv e i p He Hp Hn) as Hi.
  assert (Hk : mapper_ (add_index e (keys_ i) p i).2 !! keys_ i = Some (default p (mapper_ e !! keys_ i))).
  { cbn. rewrite lookup_emplace. destruct (mapper_ e !! keys_ i); [by rewrite bool_decide_false by naive_solver|by rewrite bool_decide_true]. }
  destruct (add_index e (keys_ i) p i) as [id e1] eqn:E. cbn [snd] in *.
  unfold link_agent, matching_keys. rewrite Hk. destruct (ei_keys _ Hi _ _ Hk) as (j & Hj & _). rewrite (deref_live e1 _ j) by (done || apply Hi).
  cbn [mbind outcome_bind]. unfold add_disk_agent. assert (Hid : exists x, index_to_mapper_ e1 !! id = Some x).
  { unfold add_index in E. injection E as <- <-. cbn. rewrite lookup_emplace. case_bool_decide as Hd; [by eexists|].
    destruct (index_to_mapper_ e !! _) eqn:Ex; [by eexists|]. exfalso. by apply Hd. }
  destruct Hid as [x Hx]. cbn [set_agent_at with_storage index_to_mapper_]. rewrite Hx. cbn [of_option mbind outcome_bind mret outcome_ret].
  eexists _, _. split; [done|]. by split_and!.
Qed.

Lemma create_index_inv e i p a : engine_inv e -> p ∉ (storage_ e).*1 -> exists r e', create_index e i p a = Ok (r, e') /\ engine_inv e'.
Proof.
  intros He Hp. destruct (has_index e (name i)) eqn:Hn; [exists None, e; unfold create_index; by rewrite Hn|].
  destruct (create_index_new e i p a He Hp Hn) as (id & e' & E & Es & Em & En). exists (Some id), e'. split; [done|].
  destruct (set_agent_inv _ (default p (mapper_ e !! keys_ i)) a (add_index_inv e i p He Hp Hn)) as [A1 A2 A3].
  split; rewrite ?Es, ?Em, ?En; [exact A1|exact A2|exact A3].
Qed.

(** Where agents end up. *)
Lemma deref_set_agent e p a q i : NoDup (storage_ e).*1 -> (q, i) ∈ storage_ e ->
  deref (set_agent_at e p a) q = Ok (if bool_decide (q = p) then with_agent i (Some a) else i).
Proof.
  intros Hn Hi. apply deref_live; [by rewrite (proj1 (set_agent_keeps e p a))|]. cbn. apply list_elem_of_fmap. exists (q, i). cbn. by case_bool_decide.
Qed.

Lemma deref_storage e e' q : storage_ e = storage_ e' -> deref e q = deref e' q.
Proof. unfold deref. by intros ->. Qed.

Lemma drop_named_inv e n : engine_inv e -> exists r e', drop_named e n = Ok (r, e') /\ engine_inv e'.
Proof.
  intros He. unfold drop_named, matching_name. destruct (index_to_name_ e !! n) as [p|] eqn:E; [|by exists None, e].
  apply (ei_names _ He) in E as (i & Hi & _). rewrite (deref_live e p i) by (done || apply He). cbn [mbind outcome_bind].
  destruct (drop_index_inv e p i He Hi) as (e' & -> & He'). by eexists _, e'.
Qed.

Lemma reachable_engine_inv e : reachable_engine e -> engine_inv e.
Proof.
  induction 1 as [|e i p a r e' _ IH Hp E|e n r e' _ IH E].
  - split; cbn; [constructor|set_solver|done].
  - destruct (create_index_inv e i p a IH Hp) as (r1 & e1 & E1 & He1). congruence.
  - destruct (drop_named_inv e n IH) as (r1 & e1 & E1 & He1). congruence.
Qed.

End live.

(** ** Theorems *)

(** C32: the maps of an engine agree with its list. After any creation and dropping of indexes, a name
    finds exactly the live index of that name, columns find only live indexes on these columns, and
    creating and dropping succeed: no freed index is ever used. *)
Theorem engine_names_live {I V} {obj : IndexObject I V} (e : index_engine.t I) :
  reachable_engine e ->
  (forall n p, matching_name e n = Some p <-> exists i, deref e p = Ok i /\ name i = n) /\
  (forall ks p, matching_keys e ks = Some p -> exists i, deref e p = Ok i /\ keys_ i = ks) /\
  (forall i p a, p ∉ (storage_ e).*1 -> exists r e', create_index e i p a = Ok (r, e')) /\
  (forall n, exists r e', drop_named e n = Ok (r, e') /\ matching_name e' n = None).
Proof.
  intros He%reachable_engine_inv.
  assert (Hd : forall p i, deref e p = Ok i <-> (p, i) ∈ storage_ e).
  { intros p i. split; [|by apply deref_live, He]. unfold deref. destruct (find _ _) as [[q j]|] eqn:E; [|done].
    apply find_some in E as [Hin Hq%bool_decide_eq_true]. cbn in *. intros [= ->]. subst q. by apply list_elem_of_In. }
  split_and!.
  - intros n p. setoid_rewrite Hd. apply (ei_names _ He).
  - intros ks p Hk. setoid_rewrite Hd. by apply (ei_keys _ He).
  - intros i p a Hp. destruct (create_index_inv e i p a He Hp) as (r & e' & E & _). by exists r, e'.
  - intros n. destruct (drop_named_inv e n He) as (r & e' & E & _). exists r, e'. split; [done|]. revert E. unfold drop_named, matching_name.
    destruct (index_to_name_ e !! n) as [p|] eqn:En; [|by intros [= _ <-]].
    apply (ei_names _ He) in En as (i & Hi & <-). rewrite (deref_live e p i) by (done || apply He). unfold drop_index.
    rewrite (deref_live e p i) by (done || apply He). cbn. intros [= _ <-]. apply lookup_delete_eq.
Qed.

(** A second index on the same columns takes over the first one's agent. The new index is looked up
    by its columns when its agent is linked, which finds the older one: that one now writes to the
    files of the new one, the new one has no agent, and dropping the older one removes the new
    one's files. *)
Theorem second_index_takes_agent {I V} {obj : IndexObject I V} (e : index_engine.t I) (i1 i2 : index_t I) p1 p2 a1 a2 :
  reachable_engine e -> matching_keys e (keys_ i1) = None -> keys_ i2 = keys_ i1 ->
  has_index e (name i1) = false -> has_index e (name i2) = false -> name i1 <> name i2 ->
  p1 ∉ (storage_ e).*1 -> p2 ∉ (storage_ e).*1 -> p1 <> p2 ->
  exists r1 e1 r2 e2 e3, create_index e i1 p1 a1 = Ok (r1, e1) /\ create_index e1 i2 p2 a2 = Ok (r2, e2) /\
    deref e1 p1 = Ok (with_agent i1 (Some a1)) /\
    deref e2 p1 = Ok (with_agent i1 (Some a2)) /\ deref e2 p2 = Ok i2 /\ drop_named e2 (name i1) = Ok (Some a2, e3).
Proof.
  intros He%reachable_engine_inv Hk Hks Hn1 Hn2 Hne Hp1 Hp2 Hp. unfold matching_keys in Hk.
  destruct (create_index_new e i1 p1 a1 He Hp1 Hn1) as (id1 & e1 & E1 & Es1 & Em1 & En1). rewrite Hk in Es1. cbn [default from_option id] in Es1.
  destruct (create_index_inv e i1 p1 a1 He Hp1) as (r1' & e1' & E1' & He1). rewrite E1 in E1'. injection E1' as _ <-.
  assert (Hs1 : (p1, with_agent i1 (Some a1)) ∈ storage_ e1).
  { rewrite Es1. cbn. apply list_elem_of_fmap. exists (p1, i1). cbn. rewrite bool_decide_true by done. split; [done|]. apply elem_of_app. right. by apply list_elem_of_singleton. }
  assert (Hk1 : mapper_ e1 !! keys_ i2 = Some p1) by (rewrite Em1, Hks; cbn; rewrite lookup_emplace; by rewrite bool_decide_true).
  assert (Hp2' : p2 ∉ (storage_ e1).*1).
  { rewrite Es1. rewrite (proj1 (set_agent_keeps (add_index e (keys_ i1) p1 i1).2 p1 a1)). cbn. rewrite fmap_app. set_solver. }
  assert (Hn2' : has_index e1 (name i2) = false).
  { unfold has_index, matching_name in *. rewrite En1. cbn. rewrite lookup_emplace. rewrite (bool_decide_false (_ /\ _)) by naive_solver. exact Hn2. }
  destruct (create_index_new e1 i2 p2 a2 He1 Hp2' Hn2') as (id2 & e2 & E2 & Es2 & Em2 & En2). rewrite Hk1 in Es2. cbn [default from_option id] in Es2.
  destruct (create_index_inv e1 i2 p2 a2 He1 Hp2') as (r2' & e2' & E2' & He2). rewrite E2 in E2'. injection E2' as _ <-.
  assert (Hnd : NoDup (storage_ (add_index e1 (keys_ i2) p2 i2).2).*1) by apply (add_index_inv e1 i2 p2 He1 Hp2' Hn2').
  assert (D1 : deref e2 p1 = Ok (with_agent i1 (Some a2))).
  { rewrite (deref_storage _ (set_agent_at (add_index e1 (keys_ i2) p2 i2).2 p1 a2)) by exact Es2.
    rewrite (deref_set_agent _ _ _ _ (with_agent i1 (Some a1))); [by rewrite bool_decide_true|done|]. cbn. apply elem_of_app. by left. }
  assert (D2 : deref e2 p2 = Ok i2).
  { rewrite (deref_storage _ (set_agent_at (add_index e1 (keys_ i2) p2 i2).2 p1 a2)) by exact Es2.
    rewrite (deref_set_agent _ _ _ _ i2); [by rewrite bool_decide_false|done|]. cbn. apply elem_of_app. right. by apply list_elem_of_singleton. }
  destruct (drop_named_inv e2 (name i1) He2) as (r3 & e3 & E3 & _).
  exists (Some id1), e1, (Some id2), e2, e3. split_and!; [done|done|by apply deref_live; [apply He1|]|done|done|]. rewrite E3. do 2 f_equal.
  revert E3. unfold drop_named. assert (matching_name e2 (name i1) = Some p1) as ->.
  { apply (ei_names _ He2). exists (with_agent i1 (Some a2)). split; [|done]. rewrite Es2. cbn. apply list_elem_of_fmap. exists (p1, with_agent i1 (Some a1)).
    cbn. rewrite bool_decide_true by done. split; [done|]. apply elem_of_app. by left. }
  rewrite D1. cbn. destruct (drop_index e2 p1); [|done]. cbn. by intros [= <- _].
Qed.

(** ** Examples *)

(** Index objects without content. *)
#[local] Instance unit_object : IndexObject unit Z := {|
  io_insert s _ _ _ := mret s; io_mark_delete s _ _ _ := mret s; io_commit_insert s _ _ := s; io_commit_delete s _ _ := s;
  io_revert_insert s _ := s; io_revert_delete s _ := s; io_cleanup s _ := s; io_pending_inserts _ _ := mret []; io_pending_deletes _ _ := mret [];
|}.

Definition by_id : index_t unit := Index "by_id" it_single [["id"]] None ()%string.
Definition by_id_hash : index_t unit := Index "by_id_hash" it_hashed [["id"]] None ()%string.

Definition first_engine : index_engine.t unit := match create_index empty by_id 100 7 with Ok (_, e) => e | Fault _ => empty end.

Lemma engine_names_live_witness :
  exists e : index_engine.t unit, reachable_engine e /\ matching_name e "by_id" = Some 100 /\ exists i, deref e 100 = Ok i /\ name i = "by_id"%string.
Proof.
  assert (He : reachable_engine first_engine).
  { apply (re_create empty by_id 100 7 (Some 0)); [apply re_empty|apply not_elem_of_nil|]. vm_compute. reflexivity. }
  exists first_engine. split; [exact He|]. split; [vm_compute; reflexivity|]. apply (engine_names_live first_engine He). vm_compute. reflexivity.
Defined.

Lemma second_index_takes_agent_witness :
  exists r1 e1 r2 e2 e3, create_index empty by_id 100 7 = Ok (r1, e1) /\ create_index e1 by_id_hash 200 8 = Ok (r2, e2) /\
    deref e1 100 = Ok (with_agent by_id (Some 7)) /\
    deref e2 100 = Ok (with_agent by_id (Some 8)) /\ deref e2 200 = Ok by_id_hash /\ drop_named e2 (name by_id) = Ok (Some 8, e3).
Proof.
  apply (second_index_takes_agent empty by_id by_id_hash 100 200 7 8); try done; try (apply not_elem_of_nil); try apply re_empty.
Defined.
