(* ===== verification/Dates.v ===== *)
(** * Dates, times and intervals

    [core/date/date_types.hpp] and [core/date/date_cast.hpp]: the calendar of [std::chrono] that dates
    are converted through, the splitting of timestamps, months added to dates, comparisons, and the
    casts between the types. A date is its days and a timestamp its microseconds from 2000-01-01.
    Overflow of a 64-bit count is [Undefined]; a conversion to 32 bits wraps. *)

From S2P Require Import Prelude.
From S2P Require Import Bytes.
#[local] Open Scope Z_scope.

(** ** The Gregorian calendar *)

Record year_month_day := Ymd { year : Z; month : Z; day : Z }.

#[global] Instance year_month_day_eq_dec : EqDecision year_month_day.
Proof. solve_decision. Defined.

Definition is_leap (y : Z) : bool := Z.eqb (y mod 4) 0 && (negb (Z.eqb (y mod 100) 0) || Z.eqb (y mod 400) 0).

Definition last_day (y m : Z) : Z :=
  if Z.eqb m 2 then (if is_leap y then 29 else 28)
  else if existsb (Z.eqb m) [4; 6; 9; 11] then 30 else 31.

(** [year_month_day::ok], for years [std::chrono::year] can hold. *)
Definition ymd_ok (d : year_month_day) : bool :=
  bool_decide (1 <= month d <= 12) && bool_decide (1 <= day d <= last_day (year d) (month d)).

(** [year_month_day{sys_days}] and back: days from 1970-01-01, in years that begin in March. *)
Definition civil_from_days (z : Z) : year_month_day :=
  let z := z + 719468 in
  let era := z / 146097 in
  let doe := z mod 146097 in
  let yoe := (doe - doe / 1460 + doe / 36524 - doe / 146096) / 365 in
  let doy := doe - (365 * yoe + yoe / 4 - yoe / 100) in
  let mp := (5 * doy + 2) / 153 in
  let m := if mp <? 10 then mp + 3 else mp - 9 in
  Ymd (yoe + era * 400 + (if m <=? 2 then 1 else 0)) m (doy - (153 * mp + 2) / 5 + 1).

Definition days_from_civil (d : year_month_day) : Z :=
  let y := if month d <=? 2 then year d - 1 else year d in
  let yoe := y mod 400 in
  let mp := if 2 <? month d then month d - 3 else month d + 9 in
  let doy := (153 * mp + 2) / 5 + day d - 1 in
  let doe := yoe * 365 + yoe / 4 - yoe / 100 + doy in
  y / 400 * 146097 + doe - 719468.

(** What [std::chrono::year] can hold. *)
Definition year_ok (y : Z) : bool := bool_decide (-32767 <= y <= 32767).

Definition pg_epoch : Z := days_from_civil (Ymd 2000 1 1).

(** ** Counts *)

Definition day_us : Z := 86400000000.

(** A 64-bit count. *)
Definition count64 (z : Z) : outcome Z := if bool_decide (in_signed64 z) then Ok z else Fault Undefined.

(** [static_cast] to a 32-bit count. *)
Definition count32 (z : Z) : Z := (z + 2 ^ 31) mod 2 ^ 32 - 2 ^ 31.

Definition in_signed32 (z : Z) : Prop := - 2 ^ 31 <= z < 2 ^ 31.

#[global] Instance in_signed32_dec z : Decision (in_signed32 z).
Proof. unfold in_signed32. apply _. Defined.

(** Arithmetic of a 32-bit count. *)
Definition count32_ub (z : Z) : outcome Z := if bool_decide (in_signed32 z) then Ok z else Fault Undefined.

Record interval_t := Interval { i_time : Z; i_day : Z; i_month : Z }.
Record timetz_t := Timetz { tz_time : Z; tz_zone : Z }.

(** [duration_cast] of days, seconds and months to microseconds. *)
Definition days_us (d : Z) : outcome Z := count64 (d * day_us).
Definition seconds_us (s : Z) : Z := s * 1000000.
Definition month_us : Z := 2629746 * 1000000.

Definition to_sys_days (d : Z) : Z := pg_epoch + d.
Definition from_sys_days (sd : Z) : Z := count32 (sd - pg_epoch).

(** Whole days and microseconds of the day; [duration_cast] rounds towards zero. *)
Definition split_timestamp (us : Z) : outcome (Z * Z) :=
  let d := count32 (Z.quot us day_us) in
  whole ← days_us d;
  tod ← count64 (us - whole);
  if bool_decide (tod < 0) then tod ← count64 (tod + day_us); mret (count32 (d - 1), tod) else mret (d, tod).

(** [year_month_day + months]. *)
Definition add_months (d : year_month_day) (n : Z) : year_month_day :=
  let dm := month d - 1 + n in Ymd (year d + dm / 12) (dm mod 12 + 1) (day d).

Definition apply_months (sd month_count : Z) : outcome Z :=
  let d := civil_from_days sd in
  let d' := add_months d month_count in
  if negb (year_ok (year d)) || negb (year_ok (year d')) then Fault Undefined
  else mret (days_from_civil (if ymd_ok d' then d' else Ymd (year d') (month d') (last_day (year d') (month d')))).

Definition from_sys_days_us (sd tod : Z) : outcome Z := whole ← days_us (sd - pg_epoch); count64 (whole + tod).

(** ** Comparisons *)

Definition timetz_utc (t : timetz_t) : outcome Z := count64 (tz_time t - seconds_us (tz_zone t)).
Definition timetz_eq (a b : timetz_t) : outcome bool := x ← timetz_utc a; y ← timetz_utc b; mret (bool_decide (x = y)).
Definition timetz_lt (a b : timetz_t) : outcome bool := x ← timetz_utc a; y ← timetz_utc b; mret (bool_decide (x < y)).

Definition interval_total (i : interval_t) : outcome Z :=
  d ← days_us (i_day i);
  s ← count64 (i_time i + d);
  m ← count64 (i_month i * month_us);
  count64 (s + m).
Definition interval_eq (a b : interval_t) : outcome bool := x ← interval_total a; y ← interval_total b; mret (bool_decide (x = y)).
Definition interval_lt (a b : interval_t) : outcome bool := x ← interval_total a; y ← interval_total b; mret (bool_decide (x < y)).

(** ** Casts *)

Definition date_to_timestamp (d : Z) : outcome Z := days_us d.
Definition date_to_timestamptz (d : Z) : outcome Z := days_us d.
Definition timestamp_to_date (ts : Z) : outcome Z := fst <$> split_timestamp ts.
Definition timestamp_to_time (ts : Z) : outcome Z := snd <$> split_timestamp ts.
Definition timestamp_to_timestamptz (ts session_tz : Z) : outcome Z := count64 (ts - seconds_us session_tz).
Definition timestamptz_to_timestamp (ts session_tz : Z) : outcome Z := count64 (ts + seconds_us session_tz).
Definition timestamptz_to_date (ts session_tz : Z) : outcome Z := local ← timestamptz_to_timestamp ts session_tz; timestamp_to_date local.
Definition timestamptz_to_time (ts session_tz : Z) : outcome Z := local ← timestamptz_to_timestamp ts session_tz; timestamp_to_time local.
Definition timestamptz_to_timetz (ts session_tz : Z) : outcome timetz_t :=
  t ← timestamptz_to_time ts session_tz; mret (Timetz t session_tz).
Definition time_to_timetz (t session_tz : Z) : timetz_t := Timetz t session_tz.
Definition timetz_to_time (t : timetz_t) : Z := tz_time t.

(** ** Arithmetic, from [logical_value_t::sum] and [subtract] *)

(** The days of a date or timestamp moved by the months and days of an interval. *)
Definition move_days (sd months days : Z) : outcome Z := sd ← (if bool_decide (months = 0) then mret sd else apply_months sd months); mret (sd + days).

Definition date_plus_interval (d : Z) (i : interval_t) : outcome Z := sd ← move_days (to_sys_days d) (i_month i) (i_day i); mret (from_sys_days sd).
Definition date_minus_interval (d : Z) (i : interval_t) : outcome Z := m ← count32_ub (- i_month i); sd ← move_days (to_sys_days d) m (- i_day i); mret (from_sys_days sd).

Definition timestamp_plus_interval (ts : Z) (i : interval_t) : outcome Z :=
  '(d, tod) ← split_timestamp ts;
  sd ← move_days (to_sys_days d) (i_month i) (i_day i);
  tod ← count64 (tod + i_time i);
  from_sys_days_us sd tod.
Definition timestamp_minus_interval (ts : Z) (i : interval_t) : outcome Z :=
  '(d, tod) ← split_timestamp ts;
  m ← count32_ub (- i_month i);
  sd ← move_days (to_sys_days d) m (- i_day i);
  tod ← count64 (tod - i_time i);
  from_sys_days_us sd tod.

(** Times of day wrap around; the remainder of C++ has the sign of the dividend. *)
Definition wrap_day (z : Z) : outcome Z := z ← count64 z; let r := Z.rem z day_us in mret (if bool_decide (r < 0) then r + day_us else r).
Definition time_plus_interval (t : Z) (i : interval_t) : outcome Z := wrap_day (t + i_time i).
Definition time_minus_interval (t : Z) (i : interval_t) : outcome Z := wrap_day (t - i_time i).
Definition timetz_plus_interval (t : timetz_t) (i : interval_t) : outcome timetz_t := r ← wrap_day (tz_time t + i_time i); mret (Timetz r (tz_zone t)).
Definition timetz_minus_interval (t : timetz_t) (i : interval_t) : outcome timetz_t := r ← wrap_day (tz_time t - i_time i); mret (Timetz r (tz_zone t)).

Definition interval_plus (a b : interval_t) : outcome interval_t :=
  t ← count64 (i_time a + i_time b); d ← count32_ub (i_day a + i_day b); m ← count32_ub (i_month a + i_month b); mret (Interval t d m).
Definition interval_minus (a b : interval_t) : outcome interval_t :=
  t ← count64 (i_time a - i_time b); d ← count32_ub (i_day a - i_day b); m ← count32_ub (i_month a - i_month b); mret (Interval t d m).

Definition date_minus_date (a b : Z) : outcome interval_t := d ← count32_ub (a - b); mret (Interval 0 d 0).
Definition timestamp_minus_timestamp (a b : Z) : outcome interval_t := t ← count64 (a - b); mret (Interval t 0 0).
Definition time_minus_time (a b : Z) : outcome interval_t := t ← count64 (a - b); mret (Interval t 0 0).
Definition timetz_minus_timetz (a b : timetz_t) : outcome interval_t :=
  x ← timetz_utc a; y ← timetz_utc b; t ← count64 (x - y); mret (Interval t 0 0).

(** ** The calendar *)

Definition next_day (d : year_month_day) : year_month_day :=
  if bool_decide (day d < last_day (year d) (month d)) then Ymd (year d) (month d) (day d + 1)
  else if bool_decide (month d < 12) then Ymd (year d) (month d + 1) 1
  else Ymd (year d + 1) 1 1.

(** Bounded checks by computation. *)
Fixpoint check_up (P : Z -> bool) (n : nat) (z : Z) : bool := match n with O => true | S n => if P z then check_up P n (z + 1) else false end.

Lemma check_up_sound P n z x : check_up P n z = true -> z <= x < z + Z.of_nat n -> P x = true.
Proof.
  revert z. induction n as [|n IH]; intros z; [lia|]. cbn [check_up]. destruct (P z) eqn:E; [|done]. intros Hc Hx.
  destruct (decide (x = z)) as [->|]; [done|]. apply (IH (z + 1)); [done|lia].
Qed.

(** *** Years of an era, from March to February *)

(** The year of a day of the era, and the days before a year. *)
Definition yoe_of (doe : Z) : Z := (doe - doe / 1460 + doe / 36524 - doe / 146096) / 365.
Definition year_start (y : Z) : Z := 365 * y + y / 4 - y / 100 + y / 400.

Definition year_checks (y : Z) : bool :=
  (yoe_of (year_start y) =? y) && (yoe_of (year_start (y + 1) - 1) =? y) &&
  (year_start (y + 1) - year_start y =? (if is_leap (y + 1) then 366 else 365)) && (0 <=? year_start y) && (year_start (y + 1) <=? 146097).

Lemma years_checked : check_up year_checks 400 0 = true.
Proof. vm_compute. reflexivity. Qed.

Lemma yoe_monotone a b : 0 <= a -> a <= b -> yoe_of a <= yoe_of b.
Proof.
  intros Ha. revert b. apply (Zlt_lower_bound_ind _ a). intros b IH Hb. destruct (decide (a = b)) as [->|]; [done|].
  etrans; [apply (IH (b - 1)); lia|]. unfold yoe_of. apply Z.div_le_mono; [done|].
  replace 146096 with (36524 * 4) by done. rewrite <- !Z.div_div by done.
  set (p := b - 1). replace b with (p + 1) by (unfold p; lia). assert (0 <= p) by (unfold p; lia).
  pose proof (Z.div_mod p 1460 ltac:(done)). pose proof (Z.div_mod (p + 1) 1460 ltac:(done)).
  pose proof (Z.mod_pos_bound p 1460 ltac:(done)). pose proof (Z.mod_pos_bound (p + 1) 1460 ltac:(done)).
  pose proof (Z.div_mod p 36524 ltac:(done)). pose proof (Z.div_mod (p + 1) 36524 ltac:(done)).
  pose proof (Z.mod_pos_bound p 36524 ltac:(done)). pose proof (Z.mod_pos_bound (p + 1) 36524 ltac:(done)).
  set (q := p / 36524) in *. set (q' := (p + 1) / 36524) in *.
  pose proof (Z.div_mod q 4 ltac:(done)). pose proof (Z.div_mod q' 4 ltac:(done)).
  pose proof (Z.mod_pos_bound q 4 ltac:(done)). pose proof (Z.mod_pos_bound q' 4 ltac:(done)). lia.
Qed.

Lemma year_checked y :
  0 <= y < 400 ->
  yoe_of (year_start y) = y /\ yoe_of (year_start (y + 1) - 1) = y /\ year_start (y + 1) - year_start y = (if is_leap (y + 1) then 366 else 365) /\
  0 <= year_start y /\ year_start (y + 1) <= 146097.
Proof.
  intros Hy. pose proof (check_up_sound _ _ _ y years_checked ltac:(lia)) as Hc. unfold year_checks in Hc.
  rewrite !andb_true_iff in Hc. lia.
Qed.

(** Every day is in the year the formula finds, and only in that one. *)
Lemma yoe_unique y doe : 0 <= y < 400 -> year_start y <= doe < year_start (y + 1) -> yoe_of doe = y.
Proof.
  intros Hy Hd. destruct (year_checked y Hy) as (H1 & H2 & _ & H0 & _).
  pose proof (yoe_monotone (year_start y) doe ltac:(lia) ltac:(lia)). pose proof (yoe_monotone doe (year_start (y + 1) - 1) ltac:(lia) ltac:(lia)). lia.
Qed.

Lemma year_exists n doe : 0 <= doe < year_start (Z.of_nat n) -> exists y, 0 <= y < Z.of_nat n /\ year_start y <= doe < year_start (y + 1).
Proof.
  induction n as [|n IH]; intros Hd; [by destruct Hd; change (year_start (Z.of_nat 0)) with 0 in *; lia|].
  destruct (decide (doe < year_start (Z.of_nat n))) as [Hlt|Hge].
  - destruct IH as (y & Hy & Hys); [lia|]. exists y. split; [lia|done].
  - exists (Z.of_nat n). split; [lia|]. replace (Z.of_nat n + 1) with (Z.of_nat (S n)) by lia. lia.
Qed.

Lemma yoe_spec doe :
  0 <= doe < 146097 ->
  let y := yoe_of doe in 0 <= y < 400 /\ 0 <= doe - year_start y /\ doe - year_start y < (if is_leap (y + 1) then 366 else 365).
Proof.
  intros Hd. destruct (year_exists 400 doe) as (y & Hy & Hs); [change (year_start (Z.of_nat 400)) with 146097; lia|]. cbn zeta. rewrite (yoe_unique y doe) by (lia || done).
  destruct (year_checked y ltac:(lia)) as (_ & _ & H3 & _). split_and!; lia.
Qed.

(** *** Days of a year *)

Definition month_of (doy : Z) : Z := let mp := (5 * doy + 2) / 153 in if mp <? 10 then mp + 3 else mp - 9.
Definition day_of (doy : Z) : Z := doy - (153 * ((5 * doy + 2) / 153) + 2) / 5 + 1.

(** The day of the year of a month and day. *)
Definition doy_of (m d : Z) : Z := let mp := if 2 <? m then m - 3 else m + 9 in (153 * mp + 2) / 5 + d - 1.

(** [doy] 365 is February 29th; other days exist in every year. *)
Definition doy_checks (doy : Z) : bool :=
  let m := month_of doy in
  let d := day_of doy in
  (1 <=? m) && (m <=? 12) && (1 <=? d) && (doy_of m d =? doy) &&
  (if doy =? 365 then (m =? 2) && (d =? 29)
   else (d <=? last_day 1 m) &&
     (if doy =? 364 then (m =? 2) && (d =? 28)
      else (if d <? last_day 1 m then (month_of (doy + 1) =? m) && (day_of (doy + 1) =? d + 1)
            else (day_of (doy + 1) =? 1) && negb (m =? 2) && (month_of (doy + 1) =? (if m =? 12 then 1 else m + 1))))).

Lemma doys_checked : check_up doy_checks 366 0 = true.
Proof. vm_compute. reflexivity. Qed.

(** The months and days of a leap year. *)
Definition month_checks (n : Z) : bool :=
  let m := n / 31 + 1 in
  let d := n mod 31 + 1 in
  (last_day 0 m <? d) || ((month_of (doy_of m d) =? m) && (day_of (doy_of m d) =? d) && (0 <=? doy_of m d) && (doy_of m d <=? (if last_day 1 m <? d then 365 else 364))).

Lemma months_checked : check_up month_checks 372 0 = true.
Proof. vm_compute. reflexivity. Qed.

Lemma doy_checked doy :
  0 <= doy < 366 ->
  1 <= month_of doy <= 12 /\ 1 <= day_of doy /\ doy_of (month_of doy) (day_of doy) = doy /\
  (doy = 365 -> month_of doy = 2 /\ day_of doy = 29) /\ (doy = 364 -> month_of doy = 2 /\ day_of doy = 28) /\
  (doy < 365 -> day_of doy <= last_day 1 (month_of doy)) /\
  (doy < 364 ->
   (day_of doy < last_day 1 (month_of doy) /\ month_of (doy + 1) = month_of doy /\ day_of (doy + 1) = day_of doy + 1) \/
   (day_of doy = last_day 1 (month_of doy) /\ month_of doy <> 2 /\ day_of (doy + 1) = 1 /\ month_of (doy + 1) = if month_of doy =? 12 then 1 else month_of doy + 1)).
Proof.
  intros Hd. pose proof (check_up_sound _ _ _ doy doys_checked ltac:(lia)) as Hc. unfold doy_checks in Hc.
  repeat (apply andb_prop in Hc; destruct Hc as [Hc ?]). destruct (doy =? 365) eqn:E1; [|destruct (doy =? 364) eqn:E2; [|destruct (_ <? _) eqn:E3]];
    repeat match goal with H : _ && _ = true |- _ => apply andb_prop in H as [? ?] | H : negb _ = true |- _ => apply negb_true_iff in H end;
    split_and!; lia.
Qed.

Lemma last_day_common y m : m <> 2 -> last_day y m = last_day 1 m.
Proof. intros Hm. unfold last_day. by rewrite (proj2 (Z.eqb_neq m 2) Hm). Qed.

Lemma last_day_bounds y m : last_day 1 m <= last_day y m <= last_day 0 m /\ last_day 0 m <= 31.
Proof. unfold last_day. change (is_leap 1) with false. change (is_leap 0) with true. destruct (m =? 2) eqn:E; [destruct (is_leap y); lia|]. destruct (existsb _ _); lia. Qed.

Lemma month_checked m d : 1 <= m <= 12 -> 1 <= d <= last_day 0 m -> month_of (doy_of m d) = m /\ day_of (doy_of m d) = d /\ 0 <= doy_of m d <= (if last_day 1 m <? d then 365 else 364).
Proof.
  intros Hm Hd. pose proof (last_day_bounds 0 m). pose proof (check_up_sound _ _ _ ((m - 1) * 31 + (d - 1)) months_checked ltac:(lia)) as Hc.
  unfold month_checks in Hc. rewrite (Z.div_add_l (m - 1) 31 (d - 1)), (Z.div_small (d - 1) 31), (Z.add_comm (_ * 31)), Z.mod_add, Z.mod_small in Hc by lia.
  replace (m - 1 + 0 + 1) with m in Hc by lia. replace (d - 1 + 1) with d in Hc by lia. lia.
Qed.

(** *** The calendar *)

Lemma civil_unfold z :
  let era := (z + 719468) / 146097 in
  let doe := (z + 719468) mod 146097 in
  let doy := doe - year_start (yoe_of doe) in
  civil_from_days z = Ymd (yoe_of doe + era * 400 + (if month_of doy <=? 2 then 1 else 0)) (month_of doy) (day_of doy).
Proof.
  cbn zeta. pose proof (Z.mod_pos_bound (z + 719468) 146097 ltac:(lia)) as Hd. pose proof (yoe_spec _ Hd) as (Hy & _).
  unfold year_start. by rewrite (Z.div_small (yoe_of _) 400), Z.add_0_r by done.
Qed.

Lemma is_leap_period y n : is_leap (y + n * 400) = is_leap y.
Proof.
  unfold is_leap. rewrite Z.mod_add by lia. replace (n * 400) with (n * 100 * 4) at 1 by lia. rewrite Z.mod_add by lia.
  replace (n * 400) with (n * 4 * 100) by lia. by rewrite Z.mod_add by lia.
Qed.

(** A day of the calendar as an era, a year of it and a day of that year. *)
Lemma civil_parts z :
  exists era y doy, z = era * 146097 + year_start y + doy - 719468 /\ 0 <= y < 400 /\ 0 <= doy < (if is_leap (y + 1) then 366 else 365) /\
    civil_from_days z = Ymd (y + era * 400 + (if month_of doy <=? 2 then 1 else 0)) (month_of doy) (day_of doy).
Proof.
  rewrite civil_unfold. pose proof (Z.mod_pos_bound (z + 719468) 146097 ltac:(lia)) as Hd. pose proof (yoe_spec _ Hd) as (Hy & H0 & H1).
  eexists _, _, _. split_and!; [|apply Hy|apply Hy|apply H0|apply H1|reflexivity]. pose proof (Z.div_mod (z + 719468) 146097 ltac:(lia)). lia.
Qed.

Lemma civil_of_parts era y doy :
  0 <= y < 400 -> 0 <= doy < (if is_leap (y + 1) then 366 else 365) ->
  civil_from_days (era * 146097 + year_start y + doy - 719468) = Ymd (y + era * 400 + (if month_of doy <=? 2 then 1 else 0)) (month_of doy) (day_of doy).
Proof.
  intros Hy Hd. destruct (year_checked y Hy) as (_ & _ & H3 & H0 & H4).
  rewrite civil_unfold. replace (era * 146097 + year_start y + doy - 719468 + 719468) with (year_start y + doy + era * 146097) by lia.
  rewrite Z.div_add, Z.mod_add, (Z.div_small _ 146097), (Z.mod_small _ 146097), Z.add_0_l by lia.
  rewrite (yoe_unique y) by lia. by replace (year_start y + doy - year_start y) with doy by lia.
Qed.

Lemma days_of_parts era y m d :
  0 <= y < 400 -> days_from_civil (Ymd (y + era * 400 + (if m <=? 2 then 1 else 0)) m d) = era * 146097 + year_start y + doy_of m d - 719468.
Proof.
  intros Hy. unfold days_from_civil. cbn [month year day]. replace (if m <=? 2 then _ else _) with (y + era * 400) by (destruct (m <=? 2); lia).
  rewrite Z.div_add, Z.mod_add, Z.div_small, Z.mod_small by lia. unfold year_start, doy_of. rewrite (Z.div_small y 400) by lia. lia.
Qed.

Lemma ymd_parts dt :
  exists era y, 0 <= y < 400 /\ dt = Ymd (y + era * 400 + (if month dt <=? 2 then 1 else 0)) (month dt) (day dt).
Proof.
  destruct dt as [yr m d]. cbn [month day year]. set (x := if m <=? 2 then yr - 1 else yr). exists (x / 400), (x mod 400).
  pose proof (Z.mod_pos_bound x 400 ltac:(lia)). split; [done|]. f_equal. pose proof (Z.div_mod x 400 ltac:(lia)). unfold x in *. destruct (m <=? 2); lia.
Qed.

(** February 29th is a day of the years whose following calendar year is a leap year. *)
Lemma last_day_doy era y m :
  last_day (y + era * 400 + (if m <=? 2 then 1 else 0)) m = (if m =? 2 then (if is_leap (y + 1) then 29 else 28) else last_day 1 m).
Proof.
  destruct (m =? 2) eqn:E; [|apply last_day_common; lia]. apply Z.eqb_eq in E as ->. change (2 <=? 2) with true. cbn match.
  unfold last_day. rewrite Z.eqb_refl. replace (y + era * 400 + 1) with (y + 1 + era * 400) by lia. by rewrite is_leap_period.
Qed.

Lemma civil_ok z : ymd_ok (civil_from_days z) = true.
Proof.
  destruct (civil_parts z) as (era & y & doy & -> & Hy & Hd & ->). destruct (doy_checked doy ltac:(destruct (is_leap _); lia)) as (Hm & H1 & _ & H365 & H364 & Hle & _).
  unfold ymd_ok. cbn [month day year]. rewrite !bool_decide_true; [done| |lia]. split; [done|]. rewrite last_day_doy.
  destruct (decide (doy = 365)) as [->|]; [|specialize (Hle ltac:(destruct (is_leap _); lia)); destruct (month_of doy =? 2) eqn:E; [apply Z.eqb_eq in E; rewrite E in Hle|]].
  - destruct H365 as [-> ->]; [done|]. destruct (is_leap _); [done|lia].
  - change (last_day 1 2) with 28 in Hle. destruct (is_leap _); lia.
  - done.
Qed.

Lemma days_of_civil z : days_from_civil (civil_from_days z) = z.
Proof.
  destruct (civil_parts z) as (era & y & doy & -> & Hy & Hd & ->). rewrite days_of_parts by done.
  by destruct (doy_checked doy ltac:(destruct (is_leap _); lia)) as (_ & _ & -> & _).
Qed.

Lemma civil_of_days dt : ymd_ok dt = true -> civil_from_days (days_from_civil dt) = dt.
Proof.
  destruct (ymd_parts dt) as (era & y & Hy & ->). unfold ymd_ok. cbn [month day year]. generalize (month dt) (day dt). intros m d.
  intros [Hm%bool_decide_eq_true Hd%bool_decide_eq_true]%andb_prop. rewrite last_day_doy in Hd. rewrite days_of_parts by done.
  pose proof (last_day_bounds 1 m). destruct (month_checked m d) as (Em & Ed & Hdoy); [done|destruct (m =? 2) eqn:E; [apply Z.eqb_eq in E as ->; change (last_day 0 2) with 29; destruct (is_leap (y + 1)); lia|lia]|].
  rewrite civil_of_parts; [by rewrite Em, Ed|done|].
  destruct (m =? 2) eqn:E; [apply Z.eqb_eq in E as E'; rewrite E' in *; change (last_day 1 2) with 28 in *|]; destruct (is_leap _); destruct (_ <? _) eqn:E2; lia.
Qed.

(** The first of March follows the last day of the year before. *)
Lemma civil_next_year era y :
  0 <= y < 400 -> civil_from_days (era * 146097 + year_start (y + 1) - 719468) = Ymd (y + 1 + era * 400) 3 1.
Proof.
  intros Hy. destruct (decide (y = 399)) as [->|].
  - change (year_start (399 + 1)) with 146097. replace (era * 146097 + 146097 - 719468) with ((era + 1) * 146097 + year_start 0 + 0 - 719468) by (change (year_start 0) with 0; lia).
    rewrite civil_of_parts by (change (is_leap (0 + 1)) with false; lia). change (month_of 0) with 3. change (day_of 0) with 1. f_equal. change (3 <=? 2) with false. cbn match. lia.
  - replace (era * 146097 + year_start (y + 1) - 719468) with (era * 146097 + year_start (y + 1) + 0 - 719468) by lia.
    rewrite civil_of_parts by (destruct (is_leap (y + 1 + 1)); lia). change (month_of 0) with 3. change (day_of 0) with 1. f_equal. change (3 <=? 2) with false. cbn match. lia.
Qed.

Lemma civil_next z : civil_from_days (z + 1) = next_day (civil_from_days z).
Proof.
  destruct (civil_parts z) as (era & y & doy & -> & Hy & Hd & ->). destruct (doy_checked doy ltac:(destruct (is_leap _); lia)) as (Hm & H1 & _ & H365 & H364 & Hle & Hn).
  destruct (year_checked y Hy) as (_ & _ & Hlen & _). unfold next_day. cbn [month day year]. rewrite last_day_doy.
  destruct (decide (doy + 1 = if is_leap (y + 1) then 366 else 365)) as [He|Hne].
  - replace (_ + 1) with (era * 146097 + year_start (y + 1) - 719468) by lia. rewrite civil_next_year by done.
    assert (month_of doy = 2 /\ day_of doy = if is_leap (y + 1) then 29 else 28) as [-> ->] by (destruct (is_leap _); [apply H365|apply H364]; lia).
    rewrite bool_decide_false, bool_decide_true by (cbn; lia). cbn. f_equal; lia.
  - replace (era * 146097 + year_start y + doy - 719468 + 1) with (era * 146097 + year_start y + (doy + 1) - 719468) by lia.
    rewrite civil_of_parts by (done || lia). destruct (decide (doy = 364)) as [->|].
    + destruct H364 as [-> ->]; [done|]. destruct (is_leap (y + 1)) eqn:E; [|lia]. change (month_of (364 + 1)) with 2. change (day_of (364 + 1)) with 29. done.
    + destruct (Hn ltac:(destruct (is_leap _); lia)) as [(Hlt & -> & ->)|(He & H2 & -> & ->)].
      * rewrite bool_decide_true; [done|]. destruct (month_of doy =? 2) eqn:E; [|done]. apply Z.eqb_eq in E. rewrite E in Hlt. change (last_day 1 2) with 28 in Hlt. destruct (is_leap _); lia.
      * rewrite (proj2 (Z.eqb_neq _ 2) H2), bool_decide_false by lia. destruct (month_of doy =? 12) eqn:E.
        -- rewrite bool_decide_false by lia. apply Z.eqb_eq in E as ->. cbn. f_equal; lia.
        -- rewrite bool_decide_true by lia. f_equal. destruct (month_of doy <=? 2) eqn:E1, (month_of doy + 1 <=? 2) eqn:E2; lia.
Qed.
