(* ===== verification/DatesTheorems.v ===== *)
(** * Theorems on dates, times and intervals

    Timestamps split into a day and a time of the day, months are added by the calendar, the
    arithmetic with intervals is undone by the opposite interval, and where the comparison of
    intervals and the casts through a time zone do not do what is expected of them. *)

From S2P Require Import Prelude.
From S2P Require Import Bytes.
From S2P Require Import Dates.
#[local] Open Scope Z_scope.

(** ** Counts in range *)

Lemma count64_in z : in_signed64 z -> count64 z = Ok z.
Proof. intros Hz. unfold count64. by rewrite bool_decide_true. Qed.

Lemma count64_ok z r : count64 z = Ok r -> in_signed64 z /\ r = z.
Proof. unfold count64. case_bool_decide; [|done]. by intros [= ->]. Qed.

Lemma count32_in z : in_signed32 z -> count32 z = z.
Proof. unfold in_signed32, count32. intros Hz. rewrite Z.mod_small by lia. lia. Qed.

Lemma count32_ub_in z : in_signed32 z -> count32_ub z = Ok z.
Proof. intros Hz. unfold count32_ub. by rewrite bool_decide_true. Qed.

Lemma split_timestamp_floor us : in_signed64 us -> split_timestamp us = Ok (us / day_us, us mod day_us).
Proof.
  unfold in_signed64, split_timestamp. intros Hus. pose proof (Z.quot_rem' us day_us) as Hqr. pose proof (Z.rem_bound_abs us day_us ltac:(done)) as Hb.
  pose proof (Z.rem_nonneg us day_us ltac:(done)). pose proof (Z.rem_nonpos us day_us ltac:(done)).
  change day_us with 86400000000 in *. set (q := Z.quot us 86400000000) in *. set (r := Z.rem us 86400000000) in *. clearbody q r. change (Z.abs 86400000000) with 86400000000 in Hb.
  assert (Hq : -106751992 < q < 106751992) by lia. rewrite (count32_in q) by (unfold in_signed32; lia).
  unfold days_us. change day_us with 86400000000. rewrite (count64_in (q * _)) by (unfold in_signed64; lia). cbn [mbind outcome_bind].
  rewrite (count64_in (us - _)) by (unfold in_signed64; lia). cbn [mbind outcome_bind]. case_bool_decide.
  - rewrite (count64_in (_ + _)) by (unfold in_signed64; lia). cbn [mbind outcome_bind]. rewrite (count32_in (q - 1)) by (unfold in_signed32; lia).
    rewrite (Z.div_unique us 86400000000 (q - 1) (r + 86400000000)), <- (Z.mod_unique us 86400000000 (q - 1) (r + 86400000000)) by lia.
    f_equal; f_equal; lia.
  - rewrite <- (Z.div_unique us 86400000000 q r), <- (Z.mod_unique us 86400000000 q r) by lia. f_equal; f_equal; lia.
Qed.

(** The date and the time of every 64-bit timestamp are found without overflow, also before the
    epoch: the time is within a day and the two add up to the timestamp. The date cast back is
    midnight of the day, except for the first day of the range, whose midnight is not in it. *)
Theorem timestamp_parts ts :
  in_signed64 ts ->
  exists d t, timestamp_to_date ts = Ok d /\ timestamp_to_time ts = Ok t /\ in_signed32 d /\ 0 <= t < day_us /\ d * day_us + t = ts /\
    date_to_timestamp d = (if bool_decide (d < -106751991) then Fault Undefined else Ok (ts - t)).
Proof.
  intros Hts. unfold timestamp_to_date, timestamp_to_time. rewrite split_timestamp_floor by done. exists (ts / day_us), (ts mod day_us).
  pose proof (Z.div_mod ts day_us ltac:(done)). pose proof (Z.mod_pos_bound ts day_us ltac:(done)). unfold in_signed64, in_signed32, date_to_timestamp, days_us, count64, in_signed64 in *.
  change day_us with 86400000000 in *. split_and!; try done; try lia. repeat case_bool_decide; try done; try lia. f_equal. lia.
Qed.

Lemma timestamp_parts_witness :
  exists d t, timestamp_to_date (- 2 ^ 63) = Ok d /\ timestamp_to_time (- 2 ^ 63) = Ok t /\ in_signed32 d /\ 0 <= t < day_us /\ d * day_us + t = - 2 ^ 63 /\
    date_to_timestamp d = (if bool_decide (d < -106751991) then Fault Undefined else Ok (- 2 ^ 63 - t)).
Proof. apply timestamp_parts. vm_compute. intuition discriminate. Defined.

(** ** Months *)

Definition month_index (d : year_month_day) : Z := year d * 12 + month d - 1.
Definition of_index (k d : Z) : year_month_day := Ymd (k / 12) (k mod 12 + 1) d.
Definition clamp (d : year_month_day) : year_month_day := Ymd (year d) (month d) (Z.min (day d) (last_day (year d) (month d))).

Lemma add_months_index d n : add_months d n = of_index (month_index d + n) (day d).
Proof.
  unfold add_months, of_index, month_index. replace (year d * 12 + month d - 1 + n) with (month d - 1 + n + year d * 12) by lia.
  rewrite Z.div_add, Z.mod_add by lia. f_equal. lia.
Qed.

Lemma last_day_range y m : 28 <= last_day y m <= 31.
Proof. unfold last_day. destruct (m =? 2); [destruct (is_leap y); lia|]. destruct (existsb _ _); lia. Qed.

Lemma clamp_ok k d : 1 <= d -> ymd_ok (clamp (of_index k d)) = true.
Proof.
  intros Hd. unfold clamp, of_index, ymd_ok. cbn [year month day]. pose proof (Z.mod_pos_bound k 12 ltac:(lia)).
  pose proof (last_day_range (k / 12) (k mod 12 + 1)). rewrite !bool_decide_true by lia. done.
Qed.

Lemma days_next d : ymd_ok d = true -> days_from_civil (next_day d) = days_from_civil d + 1.
Proof. intros Hd. rewrite <- (civil_of_days d Hd) at 1. by rewrite <- civil_next, days_of_civil. Qed.

(** Days of a month follow each other. *)
Lemma days_in_month y m a b : days_from_civil (Ymd y m b) = days_from_civil (Ymd y m a) + (b - a).
Proof. unfold days_from_civil. cbn [year month day]. lia. Qed.

(** The date [n] months away from a day. *)
Definition shifted (n sd : Z) : Z := days_from_civil (clamp (add_months (civil_from_days sd) n)).

Lemma civil_day sd : 1 <= day (civil_from_days sd) <= last_day (year (civil_from_days sd)) (month (civil_from_days sd)) /\ 1 <= month (civil_from_days sd) <= 12.
Proof. pose proof (civil_ok sd) as H. unfold ymd_ok in H. apply andb_prop in H as [?%bool_decide_eq_true ?%bool_decide_eq_true]. done. Qed.

Lemma apply_months_shifted sd n :
  year_ok (year (civil_from_days sd)) = true -> year_ok (year (add_months (civil_from_days sd) n)) = true -> apply_months sd n = Ok (shifted n sd).
Proof.
  intros H1 H2. unfold apply_months, shifted. rewrite H1, H2. cbn [negb orb]. f_equal. f_equal. rewrite add_months_index.
  pose proof (civil_day sd) as [Hd _]. unfold ymd_ok, clamp, of_index. cbn [year month day]. set (k := month_index _ + n).
  pose proof (Z.mod_pos_bound k 12 ltac:(lia)). rewrite (bool_decide_true (1 <= k mod 12 + 1 <= 12)) by lia. cbn [andb].
  case_bool_decide; f_equal; lia.
Qed.

Lemma apply_months_value sd n r : apply_months sd n = Ok r -> r = shifted n sd.
Proof.
  destruct (year_ok (year (civil_from_days sd))) eqn:E1, (year_ok (year (add_months (civil_from_days sd) n))) eqn:E2.
  1: rewrite apply_months_shifted by done; by intros [= ->].
  all: unfold apply_months; rewrite E1, ?E2; cbn [negb orb]; discriminate.
Qed.

Lemma civil_shifted sd n :
  let d := civil_from_days sd in
  let d' := civil_from_days (shifted n sd) in
  month_index d' = month_index d + n /\ day d' = Z.min (day d) (last_day (year d') (month d')).
Proof.
  cbn zeta. unfold shifted. rewrite add_months_index. pose proof (civil_day sd) as [Hd _]. rewrite civil_of_days by (apply clamp_ok; lia).
  unfold clamp, of_index, month_index. cbn [year month day]. set (k := _ + n). pose proof (Z.div_mod k 12 ltac:(lia)). split; [lia|done].
Qed.

(** The first of a month follows the last day of the month before. *)
Lemma next_month k : next_day (of_index k (last_day (k / 12) (k mod 12 + 1))) = of_index (k + 1) 1.
Proof.
  unfold next_day, of_index. cbn [year month day]. rewrite bool_decide_false by lia. pose proof (Z.mod_pos_bound k 12 ltac:(lia)). pose proof (Z.div_mod k 12 ltac:(lia)).
  case_bool_decide.
  - rewrite <- (Z.div_unique (k + 1) 12 (k / 12) (k mod 12 + 1)), <- (Z.mod_unique (k + 1) 12 (k / 12) (k mod 12 + 1)) by lia. done.
  - rewrite <- (Z.div_unique (k + 1) 12 (k / 12 + 1) 0), <- (Z.mod_unique (k + 1) 12 (k / 12 + 1) 0) by lia. done.
Qed.

(** Every day of a month is before the first of the next one. *)
Lemma clamp_before_next k d : days_from_civil (clamp (of_index k d)) < days_from_civil (clamp (of_index (k + 1) 1)).
Proof.
  assert (clamp (of_index (k + 1) 1) = of_index (k + 1) 1) as ->.
  { unfold clamp, of_index. cbn [year month day]. f_equal. pose proof (last_day_range ((k + 1) / 12) ((k + 1) mod 12 + 1)). lia. }
  assert (Hl : ymd_ok (of_index k (last_day (k / 12) (k mod 12 + 1))) = true).
  { pose proof (clamp_ok k 31 ltac:(lia)) as Hc. unfold clamp, of_index in *. cbn [year month day] in Hc. by rewrite Z.min_r in Hc by apply last_day_range. }
  rewrite <- next_month, days_next by done. unfold clamp, of_index. cbn [year month day].
  rewrite (days_in_month _ _ (Z.min d (last_day (k / 12) (k mod 12 + 1))) (last_day _ _)). lia.
Qed.

Lemma next_day_cases d :
  1 <= month d <= 12 ->
  (next_day d = Ymd (year d) (month d) (day d + 1)) \/ (month_index (next_day d) = month_index d + 1 /\ day (next_day d) = 1).
Proof.
  intros Hm. unfold next_day. case_bool_decide; [by left|right]. case_bool_decide; unfold month_index; cbn [year month day]; lia.
Qed.

Lemma shifted_step n sd : shifted n sd <= shifted n (sd + 1).
Proof.
  unfold shifted. rewrite civil_next, !add_months_index. pose proof (civil_day sd) as [Hd Hm]. set (d := civil_from_days sd) in *.
  destruct (next_day_cases d Hm) as [->|[-> ->]].
  - change (month_index (Ymd (year d) (month d) (day d + 1))) with (month_index d). cbn [day]. unfold clamp, of_index. cbn [year month day].
    rewrite (days_in_month _ _ (Z.min (day d) (last_day ((month_index d + n) / 12) ((month_index d + n) mod 12 + 1))) (Z.min (day d + 1) _)). lia.
  - replace (month_index d + 1 + n) with (month_index d + n + 1) by lia. apply Z.lt_le_incl, clamp_before_next.
Qed.

Lemma shifted_monotone n a b : a <= b -> shifted n a <= shifted n b.
Proof.
  revert b. apply (Zlt_lower_bound_ind _ a). intros b IH Hb. destruct (decide (a = b)) as [->|]; [done|].
  etrans; [apply (IH (b - 1)); lia|]. replace b with (b - 1 + 1) at 2 by lia. apply shifted_step.
Qed.

(** C34: adding months to a day moves it by exactly that many months of the calendar and keeps the
    day of the month, or takes the last day of the month where the month is too short; a later day
    is never moved before an earlier one. *)
Theorem apply_months_by_calendar sd n :
  year_ok (year (civil_from_days sd)) = true -> year_ok (year (add_months (civil_from_days sd) n)) = true ->
  exists r, apply_months sd n = Ok r /\
    month_index (civil_from_days r) = month_index (civil_from_days sd) + n /\
    day (civil_from_days r) = Z.min (day (civil_from_days sd)) (last_day (year (civil_from_days r)) (month (civil_from_days r))) /\
    (forall sd' r', sd <= sd' -> apply_months sd' n = Ok r' -> r <= r').
Proof.
  intros H1 H2. exists (shifted n sd). pose proof (civil_shifted sd n) as [Hi Hd]. split_and!; [by apply apply_months_shifted|done..|].
  intros sd' r' Hle ->%apply_months_value. by apply shifted_monotone.
Qed.

(** January 31st of 2024 and a month is February 29th. *)
Lemma apply_months_by_calendar_witness :
  exists r, apply_months (days_from_civil (Ymd 2024 1 31)) 1 = Ok r /\ civil_from_days r = Ymd 2024 2 29 /\
    (forall sd' r', days_from_civil (Ymd 2024 1 31) <= sd' -> apply_months sd' 1 = Ok r' -> r <= r').
Proof.
  destruct (apply_months_by_calendar (days_from_civil (Ymd 2024 1 31)) 1) as (r & Hr & _ & _ & Hm); [vm_compute; reflexivity..|].
  exists r. split_and!; [done| |done]. apply (f_equal (fun o => match o with Ok x => civil_from_days x | _ => Ymd 0 0 0 end)) in Hr. rewrite <- Hr. vm_compute. reflexivity.
Defined.

(** ** Intervals *)

#[local] Ltac counted := repeat (rewrite count64_in by (unfold in_signed64 in *; lia); cbn [mbind outcome_bind]).

Lemma from_sys_days_us_in d tod :
  in_signed64 (d * day_us) -> in_signed64 (d * day_us + tod) -> from_sys_days_us (to_sys_days d) tod = Ok (d * day_us + tod).
Proof.
  intros H1 H2. unfold from_sys_days_us, days_us, to_sys_days. replace (pg_epoch + d - pg_epoch) with d by lia. by rewrite count64_in; cbn [mbind outcome_bind]; rewrite ?count64_in.
Qed.

Lemma move_days_only sd d : move_days sd 0 d = Ok (sd + d).
Proof. done. Qed.

(** Moving by days and a time only adds to the count. *)
Lemma timestamp_plus_days ts t d :
  Z.abs ts <= 2 ^ 61 -> Z.abs t <= 2 ^ 60 -> Z.abs (d * day_us) <= 2 ^ 60 -> timestamp_plus_interval ts (Interval t d 0) = Ok (ts + d * day_us + t).
Proof.
  intros Hts Ht Hd. unfold timestamp_plus_interval. rewrite split_timestamp_floor by (unfold in_signed64; lia). cbn [mbind outcome_bind i_month i_day i_time]. rewrite move_days_only. cbn [mbind outcome_bind].
  pose proof (Z.div_mod ts day_us ltac:(done)). pose proof (Z.mod_pos_bound ts day_us ltac:(done)). change day_us with 86400000000 in *. counted.
  replace (to_sys_days (ts / 86400000000) + d) with (to_sys_days (ts / 86400000000 + d)) by (unfold to_sys_days; lia).
  rewrite from_sys_days_us_in by (unfold in_signed64; change day_us with 86400000000; lia). change day_us with 86400000000. f_equal. lia.
Qed.

Lemma timestamp_minus_days ts t d :
  Z.abs ts <= 2 ^ 62 -> Z.abs t <= 2 ^ 60 -> Z.abs (d * day_us) <= 2 ^ 60 -> timestamp_minus_interval ts (Interval t d 0) = Ok (ts - d * day_us - t).
Proof.
  intros Hts Ht Hd. unfold timestamp_minus_interval. rewrite split_timestamp_floor by (unfold in_signed64; lia). cbn [mbind outcome_bind i_month i_day i_time].
  change (count32_ub (- 0)) with (@Ok Z 0). cbn [mbind outcome_bind]. rewrite move_days_only. cbn [mbind outcome_bind].
  pose proof (Z.div_mod ts day_us ltac:(done)). pose proof (Z.mod_pos_bound ts day_us ltac:(done)). change day_us with 86400000000 in *. counted.
  replace (to_sys_days (ts / 86400000000) + - d) with (to_sys_days (ts / 86400000000 - d)) by (unfold to_sys_days; lia).
  rewrite from_sys_days_us_in by (unfold in_signed64; change day_us with 86400000000; lia). change day_us with 86400000000. f_equal. lia.
Qed.

(** An interval of days and time, each within 36,000 years, moves a timestamp by exactly its
    length, before and after the epoch; subtracting the interval gives the timestamp back, and the
    difference of the two timestamps is the length. *)
Theorem timestamp_interval_round_trip ts t d :
  Z.abs ts <= 2 ^ 60 -> Z.abs t <= 2 ^ 60 -> Z.abs (d * day_us) <= 2 ^ 60 ->
  exists r, timestamp_plus_interval ts (Interval t d 0) = Ok r /\ timestamp_minus_interval r (Interval t d 0) = Ok ts /\
    timestamp_minus_timestamp r ts = Ok (Interval (d * day_us + t) 0 0).
Proof.
  intros Hts Ht Hd. exists (ts + d * day_us + t). split_and!; [apply timestamp_plus_days; lia|rewrite timestamp_minus_days by lia; f_equal; lia|].
  unfold timestamp_minus_timestamp. rewrite count64_in by (unfold in_signed64; lia). cbn. by replace (ts + d * day_us + t - ts) with (d * day_us + t) by lia.
Qed.

Lemma timestamp_interval_round_trip_witness :
  exists r, timestamp_plus_interval (-1) (Interval (3 * 3600000000) 40 0) = Ok r /\ timestamp_minus_interval r (Interval (3 * 3600000000) 40 0) = Ok (-1) /\
    timestamp_minus_timestamp r (-1) = Ok (Interval (40 * day_us + 3 * 3600000000) 0 0).
Proof. apply timestamp_interval_round_trip; vm_compute; discriminate. Defined.

(** Months are not undone: a day after January 29th of a common year, moved a month forward and
    back, is January 28th. *)
Theorem months_not_undone y d :
  year_ok y = true -> is_leap y = false -> 29 <= d <= 31 ->
  exists r, apply_months (days_from_civil (Ymd y 1 d)) 1 = Ok r /\ apply_months r (-1) = Ok (days_from_civil (Ymd y 1 28)).
Proof.
  intros Hy Hl Hd. assert (Hc : civil_from_days (days_from_civil (Ymd y 1 d)) = Ymd y 1 d).
  { apply civil_of_days. unfold ymd_ok. cbn [year month day]. rewrite !bool_decide_true; [done|change (last_day y 1) with 31; lia|lia]. }
  assert (Hf : civil_from_days (days_from_civil (Ymd y 2 28)) = Ymd y 2 28).
  { apply civil_of_days. unfold ymd_ok. cbn [year month day]. rewrite !bool_decide_true; [done|change (last_day y 2) with (if is_leap y then 29 else 28); rewrite Hl; lia|lia]. }
  assert (H1 : add_months (Ymd y 1 d) 1 = Ymd y 2 d) by (unfold add_months; cbn [year month day]; f_equal; apply Z.add_0_r).
  assert (H2 : add_months (Ymd y 2 28) (-1) = Ymd y 1 28) by (unfold add_months; cbn [year month day]; f_equal; apply Z.add_0_r).
  exists (days_from_civil (Ymd y 2 28)). rewrite !apply_months_shifted; rewrite ?Hc, ?Hf, ?H1, ?H2; try done.
  unfold shifted. rewrite Hc, Hf, H1, H2. unfold clamp. cbn [year month day].
  change (last_day y 2) with (if is_leap y then 29 else 28). rewrite Hl. by replace (Z.min d 28) with 28 by lia.
Qed.

Lemma months_not_undone_witness :
  exists r, apply_months (days_from_civil (Ymd 2023 1 31)) 1 = Ok r /\ apply_months r (-1) = Ok (days_from_civil (Ymd 2023 1 28)).
Proof. apply months_not_undone; [reflexivity..|lia]. Defined.

(** ** Times of day *)

Lemma wrap_day_in z : in_signed64 z -> wrap_day z = Ok (z mod day_us).
Proof.
  intros Hz. unfold wrap_day. rewrite count64_in by done. cbn [mbind outcome_bind]. f_equal. pose proof (Z.quot_rem' z day_us). pose proof (Z.rem_bound_abs z day_us ltac:(done)).
  change day_us with 86400000000 in *. generalize dependent (Z.rem z 86400000000). intros r Hqr Hr. case_bool_decide.
  - apply (Z.mod_unique z 86400000000 (Z.quot z 86400000000 - 1)); lia.
  - apply (Z.mod_unique z 86400000000 (Z.quot z 86400000000)); lia.
Qed.

(** A time of day moved by an interval stays a time of day, going around midnight in both
    directions, and the interval subtracted again gives it back. *)
Theorem time_wraps_around t i :
  0 <= t < day_us -> Z.abs (i_time i) <= 2 ^ 62 ->
  exists r, time_plus_interval t i = Ok r /\ 0 <= r < day_us /\ (r - t - i_time i) mod day_us = 0 /\ time_minus_interval r i = Ok t.
Proof.
  intros Ht Hi. exists ((t + i_time i) mod day_us). pose proof (Z.mod_pos_bound (t + i_time i) day_us ltac:(done)) as Hb. unfold time_plus_interval, time_minus_interval.
  split_and!; [apply wrap_day_in; unfold in_signed64, day_us in *; lia|lia..| |].
  - rewrite <- Z.sub_add_distr, Zminus_mod_idemp_l. by replace (t + i_time i - (t + i_time i)) with 0 by lia.
  - rewrite wrap_day_in by (unfold in_signed64, day_us in *; lia). rewrite Zminus_mod_idemp_l. replace (t + i_time i - i_time i) with t by lia. by rewrite Z.mod_small.
Qed.

Lemma time_wraps_around_witness :
  exists r, time_plus_interval 3600000000 (Interval (-7200000000) 0 0) = Ok r /\ 0 <= r < day_us /\ (r - 3600000000 - -7200000000) mod day_us = 0 /\
    time_minus_interval r (Interval (-7200000000) 0 0) = Ok 3600000000.
Proof. apply (time_wraps_around 3600000000 (Interval (-7200000000) 0 0)); vm_compute; intuition discriminate. Defined.

(** ** Time zones and the length of a month *)

(** A date cast to a timestamp with time zone is midnight UTC, and cast back is the date of the
    session's zone: west of Greenwich every date comes back as the day before. *)
Theorem date_lost_in_zone d tz :
  Z.abs d <= 10 ^ 8 -> Z.abs tz < 86400 ->
  exists ts, date_to_timestamptz d = Ok ts /\ timestamptz_to_date ts tz = Ok (if bool_decide (tz < 0) then d - 1 else d) /\
    (ts ← timestamp_to_timestamptz ts tz; timestamptz_to_date ts tz) = Ok d.
Proof.
  intros Hd Htz. exists (d * day_us). unfold date_to_timestamptz, days_us, timestamptz_to_date, timestamptz_to_timestamp, timestamp_to_timestamptz, timestamp_to_date, seconds_us.
  change day_us with 86400000000. counted. replace (d * 86400000000 - tz * 1000000 + tz * 1000000) with (d * 86400000000) by lia.
  split_and!; [done| |]; rewrite split_timestamp_floor by (unfold in_signed64; lia); change day_us with 86400000000; cbn [fmap outcome_fmap fst]; f_equal.
  - rewrite (Z.add_comm (d * _)), Z.div_add by done. case_bool_decide.
    + rewrite <- (Z.div_unique (tz * 1000000) 86400000000 (-1) (tz * 1000000 + 86400000000)) by lia. lia.
    + rewrite (Z.div_small (tz * 1000000)) by lia. lia.
  - by rewrite Z.div_mul.
Qed.

Lemma date_lost_in_zone_witness :
  exists ts, date_to_timestamptz 9000 = Ok ts /\ timestamptz_to_date ts (-18000) = Ok 8999 /\ (ts ← timestamp_to_timestamptz ts (-18000); timestamptz_to_date ts (-18000)) = Ok 9000.
Proof. apply (date_lost_in_zone 9000 (-18000)); [vm_compute; discriminate|vm_compute; reflexivity]. Defined.

(** Intervals are ordered by a month of 30.436875 days: any number of months, up to 8,000
    years, is longer than 30 days each and shorter than 31, and equal to neither. *)
Theorem month_not_thirty_days n :
  0 < n <= 100000 ->
  interval_eq (Interval 0 0 n) (Interval 0 (30 * n) 0) = Ok false /\ interval_lt (Interval 0 (30 * n) 0) (Interval 0 0 n) = Ok true /\
  interval_lt (Interval 0 0 n) (Interval 0 (31 * n) 0) = Ok true.
Proof.
  intros Hn. unfold interval_eq, interval_lt, interval_total, days_us. cbn [i_time i_day i_month]. change day_us with 86400000000. change month_us with 2629746000000. counted.
  rewrite bool_decide_false, !bool_decide_true by lia. done.
Qed.

Lemma month_not_thirty_days_witness :
  interval_eq (Interval 0 0 1) (Interval 0 (30 * 1) 0) = Ok false /\ interval_lt (Interval 0 (30 * 1) 0) (Interval 0 0 1) = Ok true /\
  interval_lt (Interval 0 0 1) (Interval 0 (31 * 1) 0) = Ok true.
Proof. apply month_not_thirty_days. lia. Defined.
