(* ===== verification/DateParse.v ===== *)
(** * Parsing of dates, times and intervals

    [core/date/date_parse.hpp]. A [string_view] with a position is the characters from the position
    on; a parser returns what it read and the rest. [std::from_chars] reads an optional minus sign
    and all the digits that follow, and fails when there are none or the number does not fit. Where
    the arithmetic of the source overflows the result is [Undefined]. *)

From S2P Require Import Prelude.
From S2P Require Import Bytes.
From S2P Require Import Dates.
From stdpp Require Import strings.
From Stdlib Require Import Ascii.
#[local] Open Scope Z_scope.

Abbreviation chars := (list ascii).

Definition text (s : string) : chars := String.list_ascii_of_string s.

Definition code (c : ascii) : Z := Z.of_N (N_of_ascii c).
Definition is_digit (c : ascii) : bool := bool_decide (48 <= code c <= 57).
Definition digit (c : ascii) : Z := code c - 48.
Definition digit_char (n : Z) : ascii := ascii_of_N (Z.to_N (48 + n)).

(** The rest after a value that may be missing. *)
Definition attempt {A B} (m : outcome (option A)) (k : A -> outcome (option B)) : outcome (option B) :=
  r ← m; match r with Some a => k a | None => mret None end.

Notation "'given' p := e 'in' k" := (attempt e (fun p => k)) (at level 200, p pattern, e at level 100, k at level 200) : otter_scope.

(** ** Numbers *)

Fixpoint digits_value (acc : Z) (s : chars) : Z := match s with [] => acc | c :: s => digits_value (acc * 10 + digit c) s end.

Fixpoint span_digits (s : chars) : chars * chars :=
  match s with
  | c :: s' => if is_digit c then let '(ds, r) := span_digits s' in (c :: ds, r) else ([], s)
  | [] => ([], [])
  end.

(** [std::from_chars] into an [int]. *)
Definition from_chars (s : chars) : option (Z * chars) :=
  let '(sign, s) := match s with c :: s' => if bool_decide (c = "-"%char) then (-1, s') else (1, s) | [] => (1, s) end in
  let '(ds, r) := span_digits s in
  let v := sign * digits_value 0 ds in
  if bool_decide (ds = []) then None else if bool_decide (in_signed32 v) then Some (v, r) else None.

Definition parse_digits (width : nat) (s : chars) : option (Z * chars) :=
  if bool_decide (length s < width)%nat then None
  else match from_chars (take width s) with Some (v, []) => Some (v, drop width s) | _ => None end.

Definition parse_1or2 (s : chars) : option (Z * chars) := match s with [] => None | _ => from_chars s end.

Definition parse_uint (s : chars) : option (Z * chars) :=
  match s with c :: _ => if is_digit c then from_chars s else None | [] => None end.

Definition expect (c : ascii) (s : chars) : option chars :=
  match s with c' :: s => if bool_decide (c' = c) then Some s else None | [] => None end.

(** ** Parts *)

Fixpoint read_frac (frac : Z) (ds : chars) : outcome Z :=
  match ds with [] => mret frac | c :: ds => frac ← count64 (frac * 10); frac ← count64 (frac + digit c); read_frac frac ds end.

Fixpoint pad_frac (frac : Z) (n : nat) : outcome Z := match n with O => mret frac | S n => frac ← count64 (frac * 10); pad_frac frac n end.
Fixpoint cut_frac (frac : Z) (n : nat) : Z := match n with O => frac | S n => cut_frac (Z.quot frac 10) n end.

(** [.ffffff] as microseconds, zero when there is none. *)
Definition parse_frac_us (s : chars) : outcome (Z * chars) :=
  match expect "."%char s with
  | None => mret (0, s)
  | Some s =>
      let '(ds, r) := span_digits s in
      if bool_decide (ds = []) then mret (0, r)
      else
        frac ← read_frac 0 ds;
        frac ← pad_frac frac (6 - length ds);
        mret (cut_frac frac (length ds - 6), r)
  end.

Definition parse_tz_offset (s : chars) : outcome (Z * chars) :=
  match s with
  | sign :: s' =>
      if bool_decide (sign = "+"%char) || bool_decide (sign = "-"%char) then
        match parse_1or2 s' with
        | None => mret (0, s')
        | Some (hh, r) =>
            let r := default r (expect ":"%char r) in
            let '(mm, r) := match r with c :: _ => if is_digit c then default (0, r) (parse_1or2 r) else (0, r) | [] => (0, r) end in
            h ← count32_ub (hh * 3600);
            m ← count32_ub (mm * 60);
            secs ← count32_ub (h + m);
            zone ← (if bool_decide (sign = "+"%char) then mret secs else count32_ub (- secs));
            mret (zone, r)
        end
      else mret (0, s)
  | [] => mret (0, s)
  end.

Definition parse_time_us (s : chars) : outcome (option (Z * chars)) :=
  given (hh, s) := mret (parse_1or2 s) in
  given s := mret (expect ":"%char s) in
  given (mm, s) := mret (parse_1or2 s) in
  given s := mret (expect ":"%char s) in
  given (ss, s) := mret (parse_1or2 s) in
  '(frac, s) ← parse_frac_us s;
  us ← count64 ((hh * 3600 + mm * 60 + ss) * 1000000);
  total ← count64 (us + frac);
  mret (Some (total, s)).

Definition try_keyword (s kw : chars) : option chars :=
  if bool_decide (length s < length kw)%nat then None
  else if negb (bool_decide (take (length kw) s = kw)) then None
  else let s := drop (length kw) s in Some (default s (expect "s"%char s)).

(** ** Dates and timestamps *)

(** [YYYY-MM-DD]. *)
Definition parse_ymd (s : chars) : option (Z * Z * Z * chars) :=
  '(y, s) ← parse_digits 4 s;
  s ← expect "-"%char s;
  '(m, s) ← parse_1or2 s;
  s ← expect "-"%char s;
  '(d, s) ← parse_1or2 s;
  Some (y, m, d, s).

(** The fields of [year_month_day] keep a month and a day in 8 bits. *)
Definition ymd_of (y m d : Z) : year_month_day := Ymd y (m mod 256) (d mod 256).

Definition parse_date (s : chars) : outcome (option Z) :=
  given (y, m, d, _) := mret (parse_ymd s) in
  let ymd := ymd_of y m d in
  if negb (ymd_ok ymd) then mret None else mret (Some (from_sys_days (days_from_civil ymd))).

Definition parse_time (s : chars) : outcome (option Z) := given (us, _) := parse_time_us s in mret (Some us).

Definition parse_timetz (s : chars) : outcome (option timetz_t) :=
  given (us, s) := parse_time_us s in
  '(zone, _) ← parse_tz_offset s;
  mret (Some (Timetz us zone)).

(** A blank or a [T] between date and time. *)
Definition separator (s : chars) : option chars :=
  match s with c :: s => if bool_decide (c = " "%char) || bool_decide (c = "T"%char) then Some s else None | [] => None end.

Definition parse_timestamp (s : chars) : outcome (option Z) :=
  given (y, mo, d, s) := mret (parse_ymd s) in
  given s := mret (separator s) in
  given (time_us, _) := parse_time_us s in
  let ymd := ymd_of y mo d in
  if negb (ymd_ok ymd) then mret None
  else date_us ← days_us (days_from_civil ymd - pg_epoch); ts ← count64 (date_us + time_us); mret (Some ts).

Definition parse_timestamptz (s : chars) : outcome (option Z) :=
  given (y, mo, d, s) := mret (parse_ymd s) in
  given s := mret (separator s) in
  given (time_us, s) := parse_time_us s in
  '(zone, _) ← parse_tz_offset s;
  let ymd := ymd_of y mo d in
  if negb (ymd_ok ymd) then mret None
  else
    date_us ← days_us (days_from_civil ymd - pg_epoch);
    local_us ← count64 (date_us + time_us);
    ts ← count64 (local_us - seconds_us zone);
    mret (Some ts).

(** ** Intervals *)

Fixpoint skip_blanks (s : chars) : chars := match s with c :: s' => if bool_decide (c = " "%char) then skip_blanks s' else s | [] => s end.

(** The first of the keywords that matches. *)
Fixpoint keyword (s : chars) (kws : list string) : option chars :=
  match kws with [] => None | kw :: kws => match try_keyword s (text kw) with Some s => Some s | None => keyword s kws end end.

Definition add_months32 (i : interval_t) (n : Z) : outcome interval_t := m ← count32_ub (i_month i + n); mret (Interval (i_time i) (i_day i) m).
Definition add_days32 (i : interval_t) (n : Z) : outcome interval_t := d ← count32_ub (i_day i + n); mret (Interval (i_time i) d (i_month i)).
Definition add_time64 (i : interval_t) (us : Z) : outcome interval_t := t ← count64 (i_time i + us); mret (Interval t (i_day i) (i_month i)).

(** One number and its unit. *)
Definition read_unit (i : interval_t) (val : Z) (s : chars) : outcome (option (interval_t * chars)) :=
  if keyword s ["year"; "yr"] is Some s then n ← count32_ub (val * 12); i ← add_months32 i n; mret (Some (i, s))
  else if keyword s ["month"; "mon"] is Some s then i ← add_months32 i val; mret (Some (i, s))
  else if keyword s ["week"] is Some s then n ← count32_ub (val * 7); i ← add_days32 i n; mret (Some (i, s))
  else if keyword s ["day"] is Some s then i ← add_days32 i val; mret (Some (i, s))
  else if keyword s ["hour"] is Some s then us ← count64 (val * 3600 * 1000000); i ← add_time64 i us; mret (Some (i, s))
  else if keyword s ["minute"; "min"] is Some s then us ← count64 (val * 60 * 1000000); i ← add_time64 i us; mret (Some (i, s))
  else if keyword s ["second"; "sec"] is Some s then
    us ← count64 (val * 1000000);
    i ← add_time64 i us;
    '(frac, s) ← parse_frac_us s;
    i ← add_time64 i frac;
    mret (Some (i, s))
  else mret None.

(** The loop; every round reads a digit, so the length of the text bounds the rounds. *)
Fixpoint read_units (fuel : nat) (i : interval_t) (parsed_any : bool) (s : chars) : outcome (option interval_t) :=
  match fuel with
  | O => Fault OutOfFuel
  | S fuel =>
      let s := skip_blanks s in
      let finish := mret (if parsed_any then Some i else None) in
      match parse_uint s with
      | None => finish
      | Some (val, s') =>
          let s' := skip_blanks s' in
          if expect ":"%char s' is Some _ then given (us, _) := parse_time_us s in i ← add_time64 i us; mret (Some i)
          else given (i, s') := read_unit i val s' in read_units fuel i true s'
      end
  end.

Definition parse_interval (s : chars) : outcome (option interval_t) := read_units (S (length s)) (Interval 0 0 0) false s.
