(* ===== verification/DateParseTheorems.v ===== *)
(** * Theorems on the parsing of dates, times and intervals

    Dates, timestamps and intervals written in their standard form are read back, whatever follows
    them; every date read is a date of the calendar; and reading an interval always ends. *)

From S2P Require Import Prelude.
From S2P Require Import Bytes.
From S2P Require Import Dates.
From S2P Require Import DatesTheorems.
From S2P Require Import DateParse.
From stdpp Require Import strings.
From Stdlib Require Import Ascii.
#[local] Open Scope Z_scope.

(** ** Numbers *)

(** [n] in [w] digits. *)
Fixpoint render (w : nat) (n : Z) : chars := match w with O => [] | S w => render w (n / 10) ++ [digit_char (n mod 10)] end.

(** Nothing follows that would be read as part of a number. *)
Definition number_ends (r : chars) : bool := match r with c :: _ => negb (is_digit c) | [] => true end.

Lemma code_digit_char n : 0 <= n < 10 -> code (digit_char n) = 48 + n.
Proof. intros Hn. unfold code, digit_char. rewrite N_ascii_embedding by lia. lia. Qed.

Lemma render_digits w n : Forall (fun c => is_digit c = true) (render w n).
Proof.
  revert n. induction w as [|w IH]; intros n; [constructor|]. cbn [render]. apply Forall_app. split; [apply IH|]. constructor; [|constructor].
  pose proof (Z.mod_pos_bound n 10 ltac:(lia)). unfold is_digit. rewrite code_digit_char by lia. apply bool_decide_true. lia.
Qed.

Lemma render_length w n : length (render w n) = w.
Proof. revert n. induction w as [|w IH]; intros n; [done|]. cbn [render]. rewrite length_app, IH. cbn. lia. Qed.

Lemma digits_value_app acc a b : digits_value acc (a ++ b) = digits_value (digits_value acc a) b.
Proof. revert acc. induction a as [|c a IH]; intros acc; [done|apply IH]. Qed.

Lemma render_value w n : 0 <= n < 10 ^ Z.of_nat w -> digits_value 0 (render w n) = n.
Proof.
  revert n. induction w as [|w IH]; intros n Hn; [cbn in *; lia|]. rewrite Nat2Z.inj_succ, Z.pow_succ_r in Hn by lia. cbn [render].
  pose proof (Z.div_mod n 10 ltac:(lia)). pose proof (Z.mod_pos_bound n 10 ltac:(lia)).
  rewrite digits_value_app, IH by nia. cbn [digits_value]. unfold digit. rewrite code_digit_char by lia. lia.
Qed.

Lemma span_digits_app ds r : Forall (fun c => is_digit c = true) ds -> number_ends r = true -> span_digits (ds ++ r) = (ds, r).
Proof.
  intros Hds Hr. induction Hds as [|c ds Hc _ IH]; [destruct r as [|c r]; [done|]|]; cbn in *; [|by rewrite Hc, IH].
  by apply negb_true_iff in Hr as ->.
Qed.

Lemma digit_not_minus c : is_digit c = true -> c <> "-"%char.
Proof. by intros Hc ->. Qed.

(** A number of at least one digit is read back. *)
Lemma from_chars_render w n r :
  0 <= n < 10 ^ Z.of_nat (S w) -> in_signed32 n -> number_ends r = true -> from_chars (render (S w) n ++ r) = Some (n, r).
Proof.
  intros Hn H32 Hr. pose proof (render_digits (S w) n) as Hd. pose proof (render_length (S w) n) as Hl. pose proof (render_value _ _ Hn) as Hv.
  generalize dependent (render (S w) n). intros ds Hd Hl Hv. destruct ds as [|c ds]; [done|]. unfold from_chars. cbn [app].
  rewrite bool_decide_false by (apply digit_not_minus; by inversion Hd). change (c :: ds ++ r) with ((c :: ds) ++ r).
  rewrite span_digits_app by done. cbv beta iota zeta. rewrite Hv, Z.mul_1_l. by rewrite bool_decide_false, bool_decide_true by done.
Qed.

Lemma parse_1or2_render w n r :
  0 <= n < 10 ^ Z.of_nat (S w) -> in_signed32 n -> number_ends r = true -> parse_1or2 (render (S w) n ++ r) = Some (n, r).
Proof.
  intros Hn H32 Hr. rewrite <- (from_chars_render w n r) by done. unfold parse_1or2. destruct (render (S w) n ++ r) eqn:E; [|done].
  apply app_eq_nil in E as [E _]. pose proof (render_length (S w) n) as Hl. by rewrite E in Hl.
Qed.

Lemma parse_uint_render w n r :
  0 <= n < 10 ^ Z.of_nat (S w) -> in_signed32 n -> number_ends r = true -> parse_uint (render (S w) n ++ r) = Some (n, r).
Proof.
  intros Hn H32 Hr. rewrite <- (from_chars_render w n r) by done. unfold parse_uint. pose proof (render_digits (S w) n) as Hd. pose proof (render_length (S w) n) as Hl.
  destruct (render (S w) n) as [|c ds]; [done|]. cbn [app]. inversion Hd as [|? ? Hc]. by rewrite Hc.
Qed.

Lemma parse_digits_render w n r :
  0 <= n < 10 ^ Z.of_nat (S w) -> in_signed32 n -> parse_digits (S w) (render (S w) n ++ r) = Some (n, r).
Proof.
  intros Hn H32. unfold parse_digits. rewrite bool_decide_false by (rewrite length_app, render_length; lia).
  rewrite take_app_length', drop_app_length' by (by rewrite render_length). rewrite <- (app_nil_r (render (S w) n)).
  by rewrite from_chars_render.
Qed.

Lemma expect_cons c s : expect c (c :: s) = Some s.
Proof. unfold expect. by rewrite bool_decide_true. Qed.

(** ** Dates *)

Definition date_text (dt : year_month_day) : chars := render 4 (year dt) ++ "-"%char :: render 2 (month dt) ++ "-"%char :: render 2 (day dt).

(** Dates with a year of four digits. *)
Definition four_digits (dt : year_month_day) : Prop := ymd_ok dt = true /\ 0 <= year dt <= 9999.

Lemma ymd_ok_bounds dt : ymd_ok dt = true -> 1 <= month dt <= 12 /\ 1 <= day dt <= 31.
Proof.
  unfold ymd_ok. intros [Hm%bool_decide_eq_true Hd%bool_decide_eq_true]%andb_prop. pose proof (last_day_range (year dt) (month dt)). lia.
Qed.

Lemma parse_ymd_text dt r : four_digits dt -> number_ends r = true -> parse_ymd (date_text dt ++ r) = Some (year dt, month dt, day dt, r).
Proof.
  intros [Hok%ymd_ok_bounds Hy] Hr. unfold parse_ymd, date_text. rewrite <- !app_assoc. rewrite parse_digits_render by (unfold in_signed32; lia). cbn [mbind option_bind].
  cbn [app]. rewrite expect_cons. cbn [mbind option_bind]. rewrite <- app_assoc, parse_1or2_render by (done || unfold in_signed32; lia). cbn [mbind option_bind app].
  rewrite expect_cons. cbn [mbind option_bind]. by rewrite parse_1or2_render by (done || unfold in_signed32; lia).
Qed.

Lemma ymd_of_ok dt : ymd_ok dt = true -> ymd_of (year dt) (month dt) (day dt) = dt.
Proof. intros Hok%ymd_ok_bounds. unfold ymd_of. rewrite !Z.mod_small by lia. by destruct dt. Qed.

Lemma days_bounds dt : ymd_ok dt = true -> -1000 <= year dt <= 9999 -> -2000000 <= days_from_civil dt <= 4000000.
Proof.
  intros Hok%ymd_ok_bounds Hy. unfold days_from_civil. set (y := if month dt <=? 2 then year dt - 1 else year dt). set (mp := if 2 <? month dt then month dt - 3 else month dt + 9).
  assert (-1001 <= y <= 9999) by (unfold y; destruct (_ <=? _); lia). assert (0 <= mp <= 11) by (unfold mp; destruct (2 <? month dt) eqn:E; lia). clearbody y mp.
  assert (0 <= (153 * mp + 2) / 5 <= 400) by (split; [apply Z.div_pos; lia|apply Z.div_le_upper_bound; lia]).
  assert (-3 <= y / 400 <= 25) by (split; [apply Z.div_le_lower_bound; lia|apply Z.div_le_upper_bound; lia]).
  pose proof (Z.mod_pos_bound y 400 ltac:(lia)). assert (0 <= y mod 400 / 4 <= 100) by (split; [apply Z.div_pos; lia|apply Z.div_le_upper_bound; lia]).
  assert (0 <= y mod 400 / 100 <= 4) by (split; [apply Z.div_pos; lia|apply Z.div_le_upper_bound; lia]). lia.
Qed.

Lemma from_sys_days_date dt : ymd_ok dt = true -> -1000 <= year dt <= 9999 -> to_sys_days (from_sys_days (days_from_civil dt)) = days_from_civil dt.
Proof.
  intros Hok Hy. pose proof (days_bounds dt Hok Hy). unfold from_sys_days, to_sys_days. change pg_epoch with 10957.
  rewrite count32_in by (unfold in_signed32; lia). lia.
Qed.

(** A date written as [YYYY-MM-DD] is read as that day, and whatever follows it is ignored as
    long as it does not start with a digit. *)
Theorem date_text_read dt r :
  four_digits dt -> number_ends r = true -> exists v, parse_date (date_text dt ++ r) = Ok (Some v) /\ civil_from_days (to_sys_days v) = dt.
Proof.
  intros Hdt Hr. destruct Hdt as [Hok Hy] eqn:E. clear E. unfold parse_date. rewrite parse_ymd_text by done. cbn [mret outcome_ret attempt mbind outcome_bind].
  rewrite ymd_of_ok, Hok by done. cbn [negb]. eexists. split; [done|]. rewrite from_sys_days_date by (done || lia). by apply civil_of_days.
Qed.

Lemma date_text_read_witness :
  exists v, parse_date (text "2024-02-29 and more") = Ok (Some v) /\ civil_from_days (to_sys_days v) = Ymd 2024 2 29.
Proof. apply (date_text_read (Ymd 2024 2 29) (text " and more")); [split; [reflexivity|cbn; lia]|reflexivity]. Defined.

(** ** What is accepted *)

Lemma span_digits_length s : (length (span_digits s).1 <= length s)%nat.
Proof. induction s as [|c s IH]; [done|]. cbn. destruct (is_digit c); [|cbn; lia]. destruct (span_digits s) as [ds r]. cbn in *. lia. Qed.

Lemma span_digits_all s : Forall (fun c => is_digit c = true) (span_digits s).1.
Proof. induction s as [|c s IH]; [done|]. cbn. destruct (is_digit c) eqn:E; [|done]. destruct (span_digits s) as [ds r]. by constructor. Qed.

Lemma digits_value_bounds ds acc :
  Forall (fun c => is_digit c = true) ds -> 0 <= acc -> acc * 10 ^ Z.of_nat (length ds) <= digits_value acc ds < (acc + 1) * 10 ^ Z.of_nat (length ds).
Proof.
  intros Hds. revert acc. induction Hds as [|c ds Hc _ IH]; intros acc Ha; [cbn; lia|].
  unfold is_digit in Hc. apply bool_decide_eq_true in Hc. cbn [length digits_value]. rewrite Nat2Z.inj_succ, Z.pow_succ_r by lia.
  specialize (IH (acc * 10 + digit c)). unfold digit in *. specialize (IH ltac:(lia)). set (p := 10 ^ Z.of_nat (length ds)) in *. assert (0 < p) by (apply Z.pow_pos_nonneg; lia). nia.
Qed.

Lemma from_chars_bounds s v r : from_chars s = Some (v, r) -> - 10 ^ Z.of_nat (length s - 1) < v < 10 ^ Z.of_nat (length s).
Proof.
  unfold from_chars. destruct s as [|c s]; [done|].
  assert (Hb : forall l, 0 <= digits_value 0 (span_digits l).1 < 10 ^ Z.of_nat (length l)).
  { intros l. pose proof (digits_value_bounds _ 0 (span_digits_all l) ltac:(lia)). pose proof (span_digits_length l).
    assert (10 ^ Z.of_nat (length (span_digits l).1) <= 10 ^ Z.of_nat (length l)) by (apply Z.pow_le_mono_r; lia). lia. }
  assert (0 < 10 ^ Z.of_nat (length s)) by (apply Z.pow_pos_nonneg; lia). replace (length (c :: s) - 1)%nat with (length s) by (cbn; lia).
  case_bool_decide.
  - specialize (Hb s). destruct (span_digits s) as [ds r'] eqn:E. cbn [fst] in Hb. repeat case_bool_decide; try done. intros [= <- <-].
    assert (0 < 10 ^ Z.of_nat (length (c :: s))) by (apply Z.pow_pos_nonneg; lia). lia.
  - specialize (Hb (c :: s)). destruct (span_digits (c :: s)) as [ds r'] eqn:E. cbn [fst] in Hb. repeat case_bool_decide; try done. intros [= <- <-]. lia.
Qed.

Lemma parse_digits_bounds s y r : parse_digits 4 s = Some (y, r) -> -1000 < y < 10000.
Proof.
  unfold parse_digits. case_bool_decide as Hl; [done|]. destruct (from_chars (take 4 s)) as [[v [|? ?]]|] eqn:E; [|done..]. intros [= -> _].
  apply from_chars_bounds in E. rewrite length_take in E. replace (4 `min` length s)%nat with 4%nat in E by lia. cbn in E. lia.
Qed.

(** Whatever text is accepted as a date, the result is a day of the calendar, with a year of at
    most four digits, and reading a date never faults. *)
Theorem parsed_date_in_calendar s :
  exists o, parse_date s = Ok o /\ (forall v, o = Some v -> ymd_ok (civil_from_days (to_sys_days v)) = true /\ -999 <= year (civil_from_days (to_sys_days v)) <= 9999).
Proof.
  unfold parse_date. destruct (parse_ymd s) as [[[[y m] d] r]|] eqn:E; [|by exists None]. cbn [mret outcome_ret attempt mbind outcome_bind].
  destruct (ymd_ok (ymd_of y m d)) eqn:Hok; cbn [negb]; [|by exists None]. eexists. split; [done|]. intros v [= <-].
  assert (Hy : -1000 < y < 10000).
  { unfold parse_ymd in E. destruct (parse_digits 4 s) as [[y' r']|] eqn:E1; [|done]. cbn [mbind option_bind] in E. destruct (expect _ r') as [s1|]; [|done]. cbn [mbind option_bind] in E.
    destruct (parse_1or2 s1) as [[m' s2]|]; [|done]. cbn [mbind option_bind] in E. destruct (expect _ s2) as [s3|]; [|done]. cbn [mbind option_bind] in E.
    destruct (parse_1or2 s3) as [[d' s4]|]; [|done]. cbn in E. injection E as -> -> -> ->. by eapply parse_digits_bounds. }
  rewrite from_sys_days_date, civil_of_days by (done || cbn; lia). split; [done|]. cbn [ymd_of year]. lia.
Qed.

(** ** Times *)

(** Hours, minutes and seconds of any number of digits. *)
Definition time_text (w : nat) (hh mm ss : Z) : chars := render (S w) hh ++ ":"%char :: render (S w) mm ++ ":"%char :: render (S w) ss.

(** The microseconds of a fraction of [w] digits. *)
Definition frac_us (w : nat) (f : Z) : Z := if bool_decide (w <= 6)%nat then f * 10 ^ (6 - Z.of_nat w) else f / 10 ^ (Z.of_nat w - 6).

Lemma read_frac_value acc ds : Forall (fun c => is_digit c = true) ds -> 0 <= acc -> digits_value acc ds < 2 ^ 63 -> read_frac acc ds = Ok (digits_value acc ds).
Proof.
  intros Hds. revert acc. induction Hds as [|c ds Hc Hds IH]; intros acc Ha Hv; [done|]. cbn [read_frac digits_value] in *.
  pose proof Hc as Hc'. unfold is_digit in Hc'. apply bool_decide_eq_true in Hc'. assert (0 <= digit c) by (unfold digit; lia).
  pose proof (digits_value_bounds ds (acc * 10 + digit c) Hds ltac:(lia)). assert (1 <= 10 ^ Z.of_nat (length ds)) by (pose proof (Z.pow_pos_nonneg 10 (Z.of_nat (length ds))); lia).
  rewrite count64_in by (unfold in_signed64; nia). cbn [mbind outcome_bind]. rewrite count64_in by (unfold in_signed64; nia). apply IH; [lia|done].
Qed.

Lemma pad_frac_value f n : 0 <= f -> f * 10 ^ Z.of_nat n < 2 ^ 63 -> pad_frac f n = Ok (f * 10 ^ Z.of_nat n).
Proof.
  revert f. induction n as [|n IH]; intros f Hf Hn; [cbn; f_equal; lia|]. rewrite Nat2Z.inj_succ, Z.pow_succ_r in * by lia.
  assert (1 <= 10 ^ Z.of_nat n) by (pose proof (Z.pow_pos_nonneg 10 (Z.of_nat n)); lia). cbn [pad_frac].
  rewrite count64_in by (unfold in_signed64; nia). cbn [mbind outcome_bind]. rewrite IH by nia. f_equal. lia.
Qed.

Lemma cut_frac_value f n : 0 <= f -> cut_frac f n = f / 10 ^ Z.of_nat n.
Proof.
  revert f. induction n as [|n IH]; intros f Hf; [cbn; by rewrite Z.div_1_r|]. cbn [cut_frac]. rewrite Z.quot_div_nonneg by lia.
  rewrite IH by (apply Z.div_pos; lia). rewrite Z.div_div by (try apply Z.pow_pos_nonneg; lia). f_equal. rewrite Nat2Z.inj_succ, Z.pow_succ_r; lia.
Qed.

Lemma parse_frac_render w f r :
  (w < 18)%nat -> 0 <= f < 10 ^ Z.of_nat (S w) -> number_ends r = true -> parse_frac_us ("."%char :: render (S w) f ++ r) = Ok (frac_us (S w) f, r).
Proof.
  intros Hw Hf Hr. unfold parse_frac_us. rewrite expect_cons, span_digits_app by (done || apply render_digits).
  rewrite bool_decide_false by (intros E; pose proof (render_length (S w) f) as Hl; by rewrite E in Hl). rewrite !render_length.
  assert (10 ^ Z.of_nat (S w) <= 10 ^ 18) by (apply Z.pow_le_mono_r; lia). change (10 ^ 18) with 1000000000000000000 in *.
  rewrite read_frac_value by (try apply render_digits; rewrite ?render_value by lia; lia). rewrite render_value by lia. cbn [mbind outcome_bind].
  assert (Hp : f * 10 ^ Z.of_nat (6 - S w) < 2 ^ 63).
  { assert (10 ^ Z.of_nat (S w) * 10 ^ Z.of_nat (6 - S w) <= 10 ^ 18) by (rewrite <- Z.pow_add_r by lia; apply Z.pow_le_mono_r; lia).
    pose proof (Z.pow_pos_nonneg 10 (Z.of_nat (6 - S w))). change (10 ^ 18) with 1000000000000000000 in *. nia. }
  rewrite pad_frac_value by lia. cbn [mbind outcome_bind]. rewrite cut_frac_value by (apply Z.mul_nonneg_nonneg; [lia|apply Z.pow_nonneg; lia]).
  unfold frac_us. do 2 f_equal. case_bool_decide.
  - replace (S w - 6)%nat with 0%nat by lia. rewrite Z.div_1_r. do 2 f_equal. lia.
  - replace (6 - S w)%nat with 0%nat by lia. rewrite Z.mul_1_r. do 2 f_equal. lia.
Qed.

Lemma parse_frac_none r : match r with c :: _ => c <> "."%char | [] => True end -> parse_frac_us r = Ok (0, r).
Proof. intros Hr. unfold parse_frac_us, expect. destruct r as [|c r]; [done|]. by rewrite bool_decide_false. Qed.

(** What may follow a time without a fraction. *)
Definition time_ends (r : chars) : bool := match r with c :: _ => negb (is_digit c) && negb (bool_decide (c = "."%char)) | [] => true end.

Lemma time_ends_spec r : time_ends r = true -> number_ends r = true /\ match r with c :: _ => c <> "."%char | [] => True end.
Proof. destruct r as [|c r]; [done|]. cbn. intros [-> H%negb_true_iff%bool_decide_eq_false]%andb_prop. done. Qed.

(** Fields that fit the digits they are written with. *)
Definition fits (w : nat) (n : Z) : Prop := 0 <= n < 10 ^ Z.of_nat (S w) /\ in_signed32 n.

(** The time with the fraction that follows it read by [parse_frac_us]. *)
Lemma parse_time_render w hh mm ss s frac r :
  fits w hh -> fits w mm -> fits w ss -> number_ends s = true -> parse_frac_us s = Ok (frac, r) -> 0 <= frac < 10 ^ 18 ->
  parse_time_us (time_text w hh mm ss ++ s) = Ok (Some ((hh * 3600 + mm * 60 + ss) * 1000000 + frac, r)).
Proof.
  intros [Hh Hh'] [Hm Hm'] [Hs Hs'] Hn Hf Hb. unfold parse_time_us, time_text. rewrite <- !app_assoc. rewrite parse_1or2_render by done.
  cbn [mret outcome_ret attempt mbind outcome_bind app]. rewrite expect_cons. cbn [mbind outcome_bind]. rewrite <- app_assoc, parse_1or2_render by done.
  cbn [mbind outcome_bind app]. rewrite expect_cons. cbn [mbind outcome_bind]. rewrite parse_1or2_render by done.
  cbn [mbind outcome_bind]. rewrite Hf. cbn [mbind outcome_bind]. unfold in_signed32 in *. change (10 ^ 18) with 1000000000000000000 in *.
  rewrite count64_in by (unfold in_signed64; lia). cbn [mbind outcome_bind]. by rewrite count64_in by (unfold in_signed64; lia).
Qed.

(** A time has no range: hours, minutes and seconds of any number of digits are added up, and
    anything after them is ignored, so that texts such as [25:61:61] are read as times past the end
    of the day. *)
Theorem time_text_unchecked w hh mm ss r :
  fits w hh -> fits w mm -> fits w ss -> time_ends r = true -> parse_time (time_text w hh mm ss ++ r) = Ok (Some ((hh * 3600 + mm * 60 + ss) * 1000000)).
Proof.
  intros Hh Hm Hs [Hn Hr]%time_ends_spec. unfold parse_time. rewrite (parse_time_render w hh mm ss r 0 r); try done; [|by apply parse_frac_none]. cbn. by rewrite Z.add_0_r.
Qed.

Lemma time_text_unchecked_witness : exists t, parse_time (text "25:61:61 o'clock") = Ok (Some t) /\ day_us < t.
Proof.
  eexists. split; [apply (time_text_unchecked 1 25 61 61 (text " o'clock")); [unfold fits, in_signed32; cbn; lia..|reflexivity]|]. vm_compute. reflexivity.
Defined.

(** ** Timestamps *)

(** A time of the day with microseconds. *)
Definition clock_text (hh mm ss f : Z) : chars := time_text 1 hh mm ss ++ "."%char :: render 6 f.
Definition clock_us (hh mm ss f : Z) : Z := (hh * 3600 + mm * 60 + ss) * 1000000 + f.
Definition clock_ok (hh mm ss f : Z) : Prop := 0 <= hh < 24 /\ 0 <= mm < 60 /\ 0 <= ss < 60 /\ 0 <= f < 1000000.
Definition sep_ok (c : ascii) : Prop := c = " "%char \/ c = "T"%char.

Lemma parse_clock hh mm ss f r : clock_ok hh mm ss f -> number_ends r = true -> parse_time_us (clock_text hh mm ss f ++ r) = Ok (Some (clock_us hh mm ss f, r)).
Proof.
  intros (Hh & Hm & Hs & Hf) Hr. unfold clock_text. rewrite <- app_assoc. cbn [app]. apply parse_time_render; try (unfold fits, in_signed32; cbn; lia); [done|].
  rewrite parse_frac_render by (done || lia). f_equal. f_equal. unfold frac_us. rewrite bool_decide_true by lia. cbn. lia.
Qed.

Lemma separator_ok c s : sep_ok c -> separator (c :: s) = Some s.
Proof. by intros [->| ->]. Qed.

Lemma clock_bounds hh mm ss f : clock_ok hh mm ss f -> 0 <= clock_us hh mm ss f < day_us.
Proof. unfold clock_ok, clock_us, day_us. lia. Qed.

(** The timestamp of a date and a time of the day. *)
Definition instant (dt : year_month_day) (us : Z) : Z := (days_from_civil dt - pg_epoch) * day_us + us.

Lemma instant_counts dt us : four_digits dt -> 0 <= us < day_us -> Z.abs ((days_from_civil dt - pg_epoch) * day_us) < 2 ^ 60 /\ Z.abs (instant dt us) < 2 ^ 60.
Proof. intros [Hok Hy] Hus. pose proof (days_bounds dt Hok ltac:(lia)). unfold instant. change pg_epoch with 10957. change day_us with 86400000000 in *. lia. Qed.

Lemma instant_parts dt us :
  four_digits dt -> 0 <= us < day_us -> exists d, timestamp_to_date (instant dt us) = Ok d /\ civil_from_days (to_sys_days d) = dt /\ timestamp_to_time (instant dt us) = Ok us.
Proof.
  intros Hdt Hus. pose proof (instant_counts dt us Hdt Hus) as [_ Hi]. unfold timestamp_to_date, timestamp_to_time.
  rewrite split_timestamp_floor by (unfold in_signed64; lia). unfold instant in *.
  rewrite (Z.add_comm _ us), Z.div_add, Z.mod_add, Z.div_small, Z.mod_small by done. eexists. split_and!; [done| |done].
  cbn [fst]. unfold to_sys_days. replace (pg_epoch + (0 + (days_from_civil dt - pg_epoch))) with (days_from_civil dt) by lia. apply civil_of_days, Hdt.
Qed.



(** A zone as hours and minutes east or west of Greenwich. *)
Definition zone_text (east : bool) (zh zm : Z) : chars := (if east then "+" else "-")%char :: render 2 zh ++ ":"%char :: render 2 zm.
Definition zone_seconds (east : bool) (zh zm : Z) : Z := if east then zh * 3600 + zm * 60 else - (zh * 3600 + zm * 60).

Lemma parse_zone east zh zm r :
  0 <= zh < 100 -> 0 <= zm < 100 -> number_ends r = true -> parse_tz_offset (zone_text east zh zm ++ r) = Ok (zone_seconds east zh zm, r).
Proof.
  intros Hh Hm Hr. unfold parse_tz_offset, zone_text. cbn [app]. replace (bool_decide _ || bool_decide _) with true by (by destruct east). rewrite <- app_assoc, parse_1or2_render by (done || unfold in_signed32; lia).
  cbn [app]. rewrite expect_cons. cbn [default from_option id].
  pose proof (render_digits 2 zm) as Hd. pose proof (render_length 2 zm) as Hl. pose proof (parse_1or2_render 1 zm r ltac:(cbn; lia) ltac:(unfold in_signed32; lia) Hr) as Hp.
  destruct (render 2 zm) as [|c ds]; [done|]. cbn [app] in *. inversion Hd as [|? ? Hc]. rewrite Hc, Hp. cbn [default from_option id].
  do 3 (rewrite count32_ub_in by (unfold in_signed32; lia); cbn [mbind outcome_bind]). destruct east; [done|].
  rewrite bool_decide_false by done. by rewrite count32_ub_in by (unfold in_signed32; lia).
Qed.

(** A timestamp with a time zone is read as the instant in UTC: cast to the zone it was written
    in it shows the date and the time written. *)
Theorem timestamptz_text_read dt c hh mm ss f east zh zm :
  four_digits dt -> sep_ok c -> clock_ok hh mm ss f -> 0 <= zh < 100 -> 0 <= zm < 100 ->
  exists ts d, parse_timestamptz (date_text dt ++ c :: clock_text hh mm ss f ++ zone_text east zh zm) = Ok (Some ts) /\
    timestamptz_to_date ts (zone_seconds east zh zm) = Ok d /\ civil_from_days (to_sys_days d) = dt /\ timestamptz_to_time ts (zone_seconds east zh zm) = Ok (clock_us hh mm ss f).
Proof.
  intros Hdt Hc Hk Hzh Hzm. pose proof (clock_bounds _ _ _ _ Hk) as Hus. pose proof (instant_counts dt _ Hdt Hus) as [Hd Hi].
  destruct (instant_parts dt _ Hdt Hus) as (d & H1 & H2 & H3). set (local := instant dt (clock_us hh mm ss f)) in *. set (zone := zone_seconds east zh zm).
  assert (Hz : Z.abs (seconds_us zone) < 2 ^ 60) by (unfold zone, seconds_us, zone_seconds; destruct east; lia).
  exists (local - seconds_us zone), d. unfold timestamptz_to_date, timestamptz_to_time, timestamptz_to_timestamp.
  replace (local - seconds_us zone + seconds_us zone) with local by lia. change (2 ^ 60) with 1152921504606846976 in *.
  rewrite !count64_in by (unfold in_signed64; lia). cbn [attempt mbind outcome_bind]. split_and!; [|done..].
  unfold parse_timestamptz. rewrite parse_ymd_text by (done || by destruct Hc as [->| ->]). cbn [mret outcome_ret attempt mbind outcome_bind].
  rewrite separator_ok by done. cbn [attempt mbind outcome_bind]. rewrite parse_clock by (done || by destruct east). cbn [attempt mbind outcome_bind].
  rewrite <- (app_nil_r (zone_text _ _ _)), parse_zone by done. cbn [attempt mbind outcome_bind]. rewrite ymd_of_ok by apply Hdt. rewrite (proj1 Hdt). cbn [negb].
  unfold days_us. rewrite count64_in by (unfold in_signed64; lia). cbn [attempt mbind outcome_bind]. fold (instant dt (clock_us hh mm ss f)). fold local zone.
  rewrite count64_in by (unfold in_signed64; lia). cbn [attempt mbind outcome_bind]. by rewrite count64_in by (unfold in_signed64; lia).
Qed.

Lemma timestamptz_text_read_witness :
  exists ts d, parse_timestamptz (text "2024-03-10 01:30:00.500000-05:30") = Ok (Some ts) /\ timestamptz_to_date ts (-19800) = Ok d /\ civil_from_days (to_sys_days d) = Ymd 2024 3 10 /\
    timestamptz_to_time ts (-19800) = Ok (clock_us 1 30 0 500000).
Proof.
  apply (timestamptz_text_read (Ymd 2024 3 10) " "%char 1 30 0 500000 false 5 30); [split; [reflexivity|cbn; lia]|by left|unfold clock_ok; lia|lia|lia].
Defined.

(** ** Intervals *)

(** What one of a unit adds. *)
Inductive unit_size := Months (n : Z) | Days (n : Z) | Micros (n : Z).

Definition units : list (string * unit_size) :=
  [("year", Months 12); ("yr", Months 12); ("month", Months 1); ("mon", Months 1); ("week", Days 7); ("day", Days 1);
   ("hour", Micros 3600000000); ("minute", Micros 60000000); ("min", Micros 60000000); ("second", Micros 1000000); ("sec", Micros 1000000)].

Definition months_in (u : unit_size) : Z := match u with Months n => n | _ => 0 end.
Definition days_in (u : unit_size) : Z := match u with Days n => n | _ => 0 end.
Definition micros_in (u : unit_size) : Z := match u with Micros n => n | _ => 0 end.

(** A number of [width] digits and more, its unit and the plural. *)
Record item := Item { it_width : nat; it_num : Z; it_word : string; it_size : unit_size; it_plural : bool }.

Definition item_ok (t : item) : Prop := fits (it_width t) (it_num t) /\ (it_word t, it_size t) ∈ units.
Definition word_text (t : item) : chars := text (it_word t) ++ (if it_plural t then ["s"%char] else []).
Definition item_text (t : item) : chars := render (S (it_width t)) (it_num t) ++ " "%char :: word_text t ++ [" "%char].

Definition add_item (i : interval_t) (t : item) : interval_t :=
  Interval (i_time i + it_num t * micros_in (it_size t)) (i_day i + it_num t * days_in (it_size t)) (i_month i + it_num t * months_in (it_size t)).

Definition in_ranges (i : interval_t) : Prop := 0 <= i_time i < 2 ^ 63 /\ 0 <= i_day i < 2 ^ 31 /\ 0 <= i_month i < 2 ^ 31.

(** Two texts differ where both have a character. *)
Fixpoint clash (a b : chars) : bool :=
  match a, b with x :: a, y :: b => negb (bool_decide (x = y)) || clash a b | _, _ => false end.

Lemma clash_keyword a kw s : clash a kw = true -> try_keyword (a ++ s) kw = None.
Proof.
  intros Hc. unfold try_keyword. case_bool_decide; [done|]. rewrite (bool_decide_false (take _ _ = kw)); [done|].
  clear H. revert kw Hc. induction a as [|x a IH]; intros [|y kw] Hc; cbn in *; try done. intros [= -> Ht].
  rewrite bool_decide_true in Hc by done. by apply (IH kw).
Qed.

Lemma hit_keyword kw s : try_keyword (kw ++ s) kw = Some (default s (expect "s"%char s)).
Proof.
  unfold try_keyword. rewrite bool_decide_false by (rewrite length_app; lia). rewrite take_app_length, drop_app_length. by rewrite bool_decide_true.
Qed.

Lemma hit_word kw (plural : bool) s : try_keyword (text kw ++ (if plural then ["s"%char] else []) ++ " "%char :: s) (text kw) = Some (" "%char :: s).
Proof. rewrite hit_keyword. by destruct plural. Qed.

(** A unit whose words all clash is not the one. *)
Lemma keyword_clash a kws s : forallb (fun kw => clash a (text kw)) kws = true -> keyword (a ++ s) kws = None.
Proof. induction kws as [|kw kws IH]; [done|]. cbn. intros [Hc Hf]%andb_prop. by rewrite clash_keyword, IH. Qed.

Lemma keyword_first kw (plural : bool) kws s : keyword (text kw ++ (if plural then ["s"%char] else []) ++ " "%char :: s) (kw :: kws) = Some (" "%char :: s).
Proof. cbn [keyword]. by rewrite hit_word. Qed.

Lemma keyword_second kw' kw (plural : bool) s :
  clash (text kw ++ (if plural then ["s"%char] else []) ++ [" "%char]) (text kw') = true ->
  keyword (text kw ++ (if plural then ["s"%char] else []) ++ " "%char :: s) [kw'; kw] = Some (" "%char :: s).
Proof.
  intros Hc. cbn [keyword]. rewrite hit_word. replace (text kw ++ (if plural then ["s"%char] else []) ++ " "%char :: s)
    with ((text kw ++ (if plural then ["s"%char] else []) ++ [" "%char]) ++ s) by (by rewrite <- !app_assoc). by rewrite clash_keyword.
Qed.

Lemma keyword_miss kw (plural : bool) kws s :
  forallb (fun kw' => clash (text kw ++ (if plural then ["s"%char] else []) ++ [" "%char]) (text kw')) kws = true ->
  keyword (text kw ++ (if plural then ["s"%char] else []) ++ " "%char :: s) kws = None.
Proof.
  intros Hc. replace (text kw ++ (if plural then ["s"%char] else []) ++ " "%char :: s)
    with ((text kw ++ (if plural then ["s"%char] else []) ++ [" "%char]) ++ s) by (by rewrite <- !app_assoc). by apply keyword_clash.
Qed.

#[local] Ltac find_unit plural :=
  repeat first [rewrite keyword_miss by (destruct plural; reflexivity) | rewrite keyword_first | rewrite keyword_second by (destruct plural; reflexivity)].

#[local] Ltac count_unit := repeat (first [rewrite count32_ub_in by (unfold in_signed32; lia) | rewrite count64_in by (unfold in_signed64; lia)]; cbn [mret outcome_ret mbind outcome_bind i_time i_day i_month]).

Lemma read_unit_item i t s :
  item_ok t -> in_ranges i -> in_ranges (add_item i t) -> read_unit i (it_num t) (word_text t ++ " "%char :: s) = Ok (Some (add_item i t, " "%char :: s)).
Proof.
  destruct t as [w n kw u plural]. intros [[Hn Hn'] Hin] (Ht & Hd & Hm) (Ht' & Hd' & Hm'). cbn [it_width it_num it_word it_size add_item i_time i_day i_month] in *.
  unfold word_text. cbn [it_word it_plural]. rewrite <- app_assoc. unfold read_unit. unfold in_signed32 in Hn'. unfold units in Hin. rewrite !elem_of_cons in Hin.
  repeat destruct Hin as [[= -> ->]|Hin]; [..|by apply elem_of_nil in Hin]; find_unit plural; unfold add_months32, add_days32, add_time64;
    cbn [months_in days_in micros_in] in *; count_unit; rewrite ?parse_frac_none by done; cbn [mret outcome_ret mbind outcome_bind]; count_unit;
    unfold add_item; cbn [it_num it_size months_in days_in micros_in]; do 3 f_equal; f_equal; lia.
Qed.

(** All the items, and their sum. *)
Definition items_text (ts : list item) : chars := concat (item_text <$> ts).
Definition add_items (i : interval_t) (ts : list item) : interval_t := foldl add_item i ts.

Lemma add_item_grows i t : item_ok t -> i_time i <= i_time (add_item i t) /\ i_day i <= i_day (add_item i t) /\ i_month i <= i_month (add_item i t).
Proof.
  destruct t as [w n kw u plural]. intros [[Hn _] Hin]. cbn [it_width it_num it_word it_size add_item i_time i_day i_month] in *.
  unfold units in Hin. rewrite !elem_of_cons in Hin. repeat destruct Hin as [[= -> ->]|Hin]; [..|by apply elem_of_nil in Hin]; cbn [months_in days_in micros_in]; lia.
Qed.

Lemma add_items_grows i ts : Forall item_ok ts -> i_time i <= i_time (add_items i ts) /\ i_day i <= i_day (add_items i ts) /\ i_month i <= i_month (add_items i ts).
Proof.
  intros Hts. revert i. induction Hts as [|t ts Ht _ IH]; intros i; [cbn; lia|]. pose proof (add_item_grows i t Ht). specialize (IH (add_item i t)).
  change (add_items i (t :: ts)) with (add_items (add_item i t) ts). lia.
Qed.

(** Reading goes on after the blank that ends an item. *)
Lemma read_units_item fuel i p t s :
  item_ok t -> in_ranges i -> in_ranges (add_item i t) ->
  read_units (S fuel) i p (" "%char :: item_text t ++ s) = read_units fuel (add_item i t) true (" "%char :: s) /\
  read_units (S fuel) i p (item_text t ++ s) = read_units fuel (add_item i t) true (" "%char :: s).
Proof.
  intros Ht Hi Hi'. pose proof (read_unit_item i t s Ht Hi Hi') as Hu.
  assert (Hw : exists c w, word_text t = c :: w /\ c <> " "%char /\ c <> ":"%char).
  { destruct t as [w n kw u plural]. destruct Ht as [_ Hin]. unfold word_text. cbn [it_word it_size it_plural] in *. unfold units in Hin. rewrite !elem_of_cons in Hin.
    repeat destruct Hin as [[= -> ->]|Hin]; [..|by apply elem_of_nil in Hin]; eexists _, _; (split; [reflexivity|done]). }
  destruct Hw as (c & w & Hw & Hc1 & Hc2). destruct (proj1 Ht) as [Hn Hn'].
  assert (Hx : skip_blanks (item_text t ++ s) = item_text t ++ s).
  { unfold item_text. pose proof (render_digits (S (it_width t)) (it_num t)) as Hd. pose proof (render_length (S (it_width t)) (it_num t)) as Hl.
    destruct (render _ _) as [|x ds]; [done|]. inversion Hd as [|? ? Hx]. cbn. rewrite bool_decide_false; [done|]. by intros ->. }
  assert (Hp : parse_uint (item_text t ++ s) = Some (it_num t, " "%char :: word_text t ++ " "%char :: s)).
  { unfold item_text. rewrite <- app_assoc. cbn [app]. rewrite <- app_assoc. by apply parse_uint_render. }
  assert (Hs : skip_blanks (" "%char :: word_text t ++ " "%char :: s) = word_text t ++ " "%char :: s).
  { rewrite Hw. cbn [app]. change (skip_blanks (" "%char :: c :: w ++ " "%char :: s)) with (skip_blanks (c :: w ++ " "%char :: s)). cbn. by rewrite bool_decide_false. }
  assert (He : expect ":"%char (word_text t ++ " "%char :: s) = None) by (rewrite Hw; cbn; by rewrite bool_decide_false).
  cbn [read_units]. change (skip_blanks (" "%char :: item_text t ++ s)) with (skip_blanks (item_text t ++ s)). rewrite Hx, Hp. cbv beta iota zeta.
  rewrite Hs, He, Hu. cbn [attempt mbind outcome_bind]. done.
Qed.

Lemma read_units_blank fuel i p : read_units (S fuel) i p [" "%char] = Ok (if p then Some i else None).
Proof. done. Qed.

Lemma read_units_items fuel i ts :
  (length ts < fuel)%nat -> Forall item_ok ts -> in_ranges i -> in_ranges (add_items i ts) -> read_units fuel i true (" "%char :: items_text ts) = Ok (Some (add_items i ts)).
Proof.
  intros Hf Hts. revert fuel i Hf. induction Hts as [|t ts Ht Hts IH]; intros fuel i Hf Hi Hi'; [destruct fuel; [cbn in Hf; lia|done]|].
  destruct fuel as [|fuel]; [cbn in Hf; lia|]. change (add_items i (t :: ts)) with (add_items (add_item i t) ts) in *.
  change (items_text (t :: ts)) with (item_text t ++ items_text ts). pose proof (add_item_grows i t Ht). pose proof (add_items_grows (add_item i t) ts Hts).
  assert (Hm : in_ranges (add_item i t)) by (unfold in_ranges in *; lia). rewrite (proj1 (read_units_item fuel i true t (items_text ts) Ht Hi Hm)). apply IH; [cbn in Hf; lia|done..].
Qed.



(** ** Reading an interval ends *)

Definition fuelled {A} (m : outcome A) : Prop := m <> Fault OutOfFuel.

Lemma fuelled_ret {A} (a : A) : fuelled (mret a).
Proof. discriminate. Qed.

Lemma fuelled_bind {A B} (m : outcome A) (k : A -> outcome B) : fuelled m -> (forall a, m = Ok a -> fuelled (k a)) -> fuelled (m ≫= k).
Proof. destruct m as [a|f]; cbn; [auto|]. intros Hm _ [= ->]. by apply Hm. Qed.

Lemma fuelled_attempt {A B} (m : outcome (option A)) (k : A -> outcome (option B)) : fuelled m -> (forall a, m = Ok (Some a) -> fuelled (k a)) -> fuelled (attempt m k).
Proof. intros Hm Hk. apply fuelled_bind; [done|]. intros [a|] Ha; [by apply Hk|apply fuelled_ret]. Qed.

Lemma fuelled_count64 z : fuelled (count64 z).
Proof. unfold count64. by case_bool_decide. Qed.

Lemma fuelled_count32 z : fuelled (count32_ub z).
Proof. unfold count32_ub. by case_bool_decide. Qed.

Create HintDb fuel.
#[local] Hint Resolve fuelled_ret fuelled_count64 fuelled_count32 : fuel.

#[local] Ltac fuelled_step :=
  first [apply fuelled_bind; [|intros ? ?] | apply fuelled_attempt; [|intros ? ?] | progress (auto with fuel) | case_match].

Lemma fuelled_frac s : fuelled (parse_frac_us s).
Proof.
  unfold parse_frac_us. destruct (expect _ _) as [s'|]; [|apply fuelled_ret]. destruct (span_digits s') as [ds r]. case_bool_decide; [apply fuelled_ret|].
  assert (Hr : forall acc, fuelled (read_frac acc ds)) by (clear; induction ds as [|c ds IH]; intros acc; cbn [read_frac]; repeat fuelled_step).
  assert (Hp : forall n acc, fuelled (pad_frac acc n)) by (clear; induction n as [|n IH]; intros acc; cbn [pad_frac]; repeat fuelled_step).
  repeat fuelled_step.
Qed.
#[local] Hint Resolve fuelled_frac : fuel.

Lemma fuelled_time s : fuelled (parse_time_us s).
Proof. unfold parse_time_us. repeat fuelled_step. Qed.
#[local] Hint Resolve fuelled_time : fuel.

(** *** Lengths *)

Lemma expect_length c s s' : expect c s = Some s' -> (length s' < length s)%nat.
Proof. destruct s as [|x s]; [done|]. cbn. case_bool_decide; [|done]. intros [= ->]. lia. Qed.

Lemma skip_blanks_length s : (length (skip_blanks s) <= length s)%nat.
Proof. induction s as [|c s IH]; [done|]. cbn. case_bool_decide; cbn; lia. Qed.

Lemma span_digits_rest s : length s = (length (span_digits s).1 + length (span_digits s).2)%nat.
Proof. induction s as [|c s IH]; [done|]. cbn. destruct (is_digit c); [|done]. destruct (span_digits s) as [ds r]. cbn in *. lia. Qed.

Lemma parse_uint_length s v s' : parse_uint s = Some (v, s') -> (length s' < length s)%nat.
Proof.
  unfold parse_uint, from_chars. destruct s as [|c s]; [done|]. destruct (is_digit c) eqn:Hc; [|done]. rewrite bool_decide_false by (by apply digit_not_minus).
  pose proof (span_digits_rest (c :: s)) as Hl. destruct (span_digits (c :: s)) as [ds r] eqn:E. cbn [fst snd] in Hl. repeat case_bool_decide; try done. intros [= <- <-].
  destruct ds; [done|]. cbn in *. lia.
Qed.

Lemma try_keyword_length s kw s' : try_keyword s kw = Some s' -> (length s' <= length s)%nat.
Proof.
  unfold try_keyword. case_bool_decide; [done|]. destruct (negb _); [done|]. intros [= <-]. pose proof (length_drop s (length kw)).
  destruct (expect _ (drop (length kw) s)) eqn:E; cbn; [apply expect_length in E|]; lia.
Qed.

Lemma keyword_length s kws s' : keyword s kws = Some s' -> (length s' <= length s)%nat.
Proof. induction kws as [|kw kws IH]; [done|]. cbn. destruct (try_keyword _ _) eqn:E; [intros [= <-]; by eapply try_keyword_length|done]. Qed.

Lemma parse_frac_length s v s' : parse_frac_us s = Ok (v, s') -> (length s' <= length s)%nat.
Proof.
  unfold parse_frac_us. destruct (expect _ s) as [s1|] eqn:E; [|by intros [= _ ->]]. apply expect_length in E. pose proof (span_digits_rest s1) as Hl.
  destruct (span_digits s1) as [ds r]. cbn [fst snd] in Hl. case_bool_decide; [intros [= _ <-]; lia|].
  destruct (read_frac _ _); [|done]. cbn [mbind outcome_bind]. destruct (pad_frac _ _); [|done]. intros [= _ <-]. lia.
Qed.

Lemma read_unit_ends i val s : fuelled (read_unit i val s) /\ (forall i' s', read_unit i val s = Ok (Some (i', s')) -> (length s' <= length s)%nat).
Proof.
  unfold read_unit, add_months32, add_days32, add_time64. split; [repeat fuelled_step|]. intros i' s'.
  repeat (destruct (keyword s _) as [s1|] eqn:E; [apply keyword_length in E|clear E]); [..|done];
    repeat (match goal with |- context [count32_ub ?z] => destruct (count32_ub z); [|done] | |- context [count64 ?z] => destruct (count64 z); [|done] end; cbn [mret outcome_ret mbind outcome_bind i_time i_day i_month]);
    try (intros [= _ <-]; lia).
  destruct (parse_frac_us s1) as [[frac s2]|] eqn:Ef; [|done]. apply parse_frac_length in Ef. cbn [mbind outcome_bind].
  destruct (count64 _); [|done]. intros [= _ <-]. lia.
Qed.

(** Reading an interval ends for every text: each number makes the rest of the text shorter. *)
Theorem parse_interval_ends s : parse_interval s <> Fault OutOfFuel.
Proof.
  unfold parse_interval. enough (H : forall fuel i p s, (length s < fuel)%nat -> fuelled (read_units fuel i p s)) by (apply H; lia). clear s.
  induction fuel as [|fuel IH]; intros i p s Hs; [lia|]. cbn [read_units]. pose proof (skip_blanks_length s).
  destruct (parse_uint (skip_blanks s)) as [[v s1]|] eqn:Ep; [|apply fuelled_ret]. apply parse_uint_length in Ep. pose proof (skip_blanks_length s1).
  destruct (expect _ _); [unfold add_time64; repeat fuelled_step|]. destruct (read_unit_ends i v (skip_blanks s1)) as [Hf Hl].
  apply fuelled_attempt; [done|]. intros [i' s2] Hu. apply IH. specialize (Hl _ _ Hu). lia.
Qed.
