(* ===== verification/TimeZonesTheorems.v ===== *)
(** * Theorems on time zones

    Every name of the table but one gets the offset the table gives it, every offset is less than
    fifteen hours, and an offset printed is read back. *)

From S2P Require Import Prelude.
From S2P Require Import Bytes.
From S2P Require Import Dates.
From S2P Require Import DatesTheorems.
From S2P Require Import DateParse.
From S2P Require Import DateParseTheorems.
From S2P Require Import TimeZones.
From stdpp Require Import strings gmap.
From Stdlib Require Import Ascii.
#[local] Open Scope Z_scope.

(** An entry that another entry with the same key hides. *)
Definition shadowed (e : string * Z) : Prop := e = ("pacific/apia", 46800).

#[global] Instance shadowed_dec e : Decision (shadowed e).
Proof. unfold shadowed. apply _. Defined.

Definition entry_checks (e : string * Z) : bool :=
  bool_decide (shadowed e) || bool_decide (timezone_to_offset (text e.1) = Ok (Some e.2)).

Lemma entries_checked : forallb entry_checks timezone_entries = true.
Proof. vm_compute. reflexivity. Qed.

(** Every entry of the table of time zones is found under its name, also the names that begin
    like an offset, except that [pacific/apia] is listed twice: it has the offset of the first
    entry, twelve hours west, and not the thirteen hours east of the second. *)
Theorem timezone_names_found e :
  e ∈ timezone_entries ->
  (~ shadowed e -> timezone_to_offset (text e.1) = Ok (Some e.2)) /\ (shadowed e -> timezone_to_offset (text e.1) = Ok (Some (-43200))).
Proof.
  intros He. pose proof entries_checked as Hc. rewrite forallb_forall in Hc. specialize (Hc e (proj1 (list_elem_of_In _ _) He)). unfold entry_checks in Hc.
  split; [|intros ->; vm_compute; reflexivity]. intros Hs. rewrite (bool_decide_false _ Hs) in Hc. by apply bool_decide_eq_true in Hc.
Qed.

Lemma timezone_names_found_witness : ("pacific/apia", 46800) ∈ timezone_entries /\ timezone_to_offset (text "pacific/apia") = Ok (Some (-43200)).
Proof.
  assert (H : ("pacific/apia", 46800) ∈ timezone_entries) by (apply (bool_decide_unpack _); vm_compute; exact I).
  split; [exact H|]. apply (timezone_names_found ("pacific/apia", 46800) H). reflexivity.
Defined.

(** ** Bounds *)

(** What a zone's offset is: whole minutes, less than fifteen hours. *)
Definition offset_ok (off : Z) : Prop := Z.abs off < 15 * 3600 /\ off mod 60 = 0.

#[global] Instance offset_ok_dec off : Decision (offset_ok off).
Proof. unfold offset_ok. apply _. Defined.

Lemma offset_digits_nonneg s acc v : 0 <= acc -> offset_digits acc s = Ok (Some v) -> 0 <= v.
Proof.
  revert acc. induction s as [|c s IH]; intros acc Ha; cbn [offset_digits]; [by intros [= <-]|]. destruct (is_digit c) eqn:Hc; cbn [negb]; [|done].
  unfold count32_ub. case_bool_decide; [|done]. cbn [mbind outcome_bind]. case_bool_decide; [|done]. cbn [mbind outcome_bind]. apply IH.
  unfold is_digit in Hc. apply bool_decide_eq_true in Hc. unfold digit. lia.
Qed.

Lemma fixed_offset_ok s off : parse_fixed_offset s = Ok (Some off) -> offset_ok off.
Proof.
  unfold parse_fixed_offset. destruct (_ || _); [by intros [= <-]|]. destruct (if is_utc s then _ else _) as [|c rest]; [done|].
  destruct (_ || _); [|done]. case_bool_decide; [done|]. destruct (split_colon rest) as [hs ms].
  destruct (offset_digits 0 hs) as [[h|]|] eqn:Eh; [|done..]. cbn [attempt mbind outcome_bind]. destruct (offset_digits 0 ms) as [[m|]|] eqn:Em; [|done..]. cbn [attempt mbind outcome_bind].
  apply offset_digits_nonneg in Eh, Em; [|done..]. case_bool_decide; [done|]. case_bool_decide; [done|]. cbn [orb]. intros [= <-]. unfold offset_ok.
  replace (_ * (h * 3600 + m * 60)) with ((if bool_decide (c = "+"%char) then 1 else -1) * (h * 60 + m) * 60) by lia.
  rewrite Z.mod_mul by done. case_bool_decide; lia.
Qed.

Lemma table_offsets_ok : map_Forall (fun _ off => offset_ok off) TIMEZONE_MAP.
Proof.
  intros k off Hk. apply elem_of_list_to_map_2 in Hk. revert k off Hk.
  enough (H : Forall (fun e => offset_ok e.2) timezone_entries) by (intros k off Hk; by apply (proj1 (Forall_forall _ _) H (k, off))).
  apply (bool_decide_unpack _). vm_compute. exact I.
Qed.

Lemma timezone_offset_ok name off : timezone_to_offset name = Ok (Some off) -> offset_ok off.
Proof.
  assert (Hp : forall b parsed, (if b : bool then parse_fixed_offset name else mret None) = Ok (Some parsed) -> offset_ok parsed) by (intros [] parsed; [apply fixed_offset_ok|discriminate]).
  unfold timezone_to_offset. destruct (if _ : bool then _ else _) as [[o|]|] eqn:E; cbn [mret outcome_ret mbind outcome_bind]; [|..|discriminate].
  - intros [= <-]. by apply (Hp _ _ E).
  - pose proof (table_offsets_ok (String.string_of_list_ascii name)) as Ht. revert Ht. generalize (TIMEZONE_MAP !! String.string_of_list_ascii name). intros l Ht [= ->]. by apply Ht.
Qed.

(** Whatever name is accepted, the session's offset is a whole number of minutes and less than
    fifteen hours, and a refused name leaves the session as it was. *)
Theorem session_offset_bounded s name ok s' :
  offset_ok (timezone_offset s) -> set_timezone s name = Ok (ok, s') -> offset_ok (timezone_offset s') /\ (ok = false -> s' = s) /\ (ok = true -> timezone_name s' = name).
Proof.
  intros Hs. unfold set_timezone. destruct (timezone_to_offset name) as [[off|]|] eqn:E; cbn [mret outcome_ret mbind outcome_bind]; [..|discriminate].
  - intros H. injection H as <- <-. split_and!; [by apply (timezone_offset_ok name)|discriminate|reflexivity].
  - intros H. injection H as <- <-. split_and!; [done|reflexivity|discriminate].
Qed.

Lemma session_offset_bounded_witness :
  exists s', set_timezone session_catalog_init (text "asia/kolkata") = Ok (true, s') /\ offset_ok (timezone_offset s') /\ timezone_offset s' = 19800.
Proof.
  eexists. split; [vm_compute; reflexivity|]. split; [|reflexivity].
  apply (session_offset_bounded session_catalog_init (text "asia/kolkata") true _); [apply (bool_decide_unpack _); vm_compute; exact I|vm_compute; reflexivity].
Defined.

(** ** Printing *)

Lemma print_02d_render n : 0 <= n < 100 -> print_02d n = render 2 n.
Proof.
  intros Hn. pose proof (Z.div_mod n 10 ltac:(lia)). pose proof (Z.mod_pos_bound n 10 ltac:(lia)). unfold print_02d. cbn [print_digits render app]. case_bool_decide.
  - rewrite (Z.div_small n 10) by lia. done.
  - rewrite (bool_decide_true (n / 10 < 10)) by lia. done.
Qed.

Lemma offset_digits_value acc ds :
  Forall (fun c => is_digit c = true) ds -> 0 <= acc -> digits_value acc ds < 2 ^ 31 -> offset_digits acc ds = Ok (Some (digits_value acc ds)).
Proof.
  intros Hds. revert acc. induction Hds as [|c ds Hc Hds IH]; intros acc Ha Hv; [done|]. cbn [offset_digits digits_value] in *. rewrite Hc. cbn [negb].
  pose proof Hc as Hc'. unfold is_digit in Hc'. apply bool_decide_eq_true in Hc'. assert (0 <= digit c) by (unfold digit; lia).
  pose proof (digits_value_bounds ds (acc * 10 + digit c) Hds ltac:(lia)). assert (1 <= 10 ^ Z.of_nat (length ds)) by (pose proof (Z.pow_pos_nonneg 10 (Z.of_nat (length ds))); lia).
  rewrite count32_ub_in by (unfold in_signed32; nia). cbn [mbind outcome_bind]. rewrite count32_ub_in by (unfold in_signed32; nia). apply IH; [lia|done].
Qed.

Lemma split_colon_digits ds r : Forall (fun c => is_digit c = true) ds -> split_colon (ds ++ ":"%char :: r) = (ds, r).
Proof. induction 1 as [|c ds Hc _ IH]; [done|]. cbn. rewrite bool_decide_false by (by intros ->). by rewrite IH. Qed.

Lemma tolower_digits ds : Forall (fun c => is_digit c = true) ds -> tolower <$> ds = ds.
Proof.
  induction 1 as [|c ds Hc _ IH]; [done|]. rewrite fmap_cons, IH. f_equal. unfold is_digit in Hc. apply bool_decide_eq_true in Hc. unfold tolower. by rewrite bool_decide_false by lia.
Qed.

Lemma fixed_offset_render (east : bool) h m :
  0 <= h <= 14 -> 0 <= m <= 59 ->
  timezone_to_offset (text "utc" ++ (if east then "+" else "-")%char :: render 2 h ++ ":"%char :: render 2 m) = Ok (Some ((if east then 1 else -1) * (h * 3600 + m * 60))).
Proof.
  intros Hh Hm. assert (Hp : parse_fixed_offset (text "utc" ++ (if east then "+" else "-")%char :: render 2 h ++ ":"%char :: render 2 m) = Ok (Some ((if east then 1 else -1) * (h * 3600 + m * 60)))).
  { unfold parse_fixed_offset. rewrite !bool_decide_false by (by destruct east). cbn [orb]. unfold is_utc. rewrite take_app_length' by done. cbn [bool_decide orb]. rewrite drop_app_length' by done.
    rewrite bool_decide_true by done. cbn [orb]. replace (bool_decide _ || bool_decide _) with true by (by destruct east).
    rewrite bool_decide_false by (intros E; apply (f_equal length) in E; by rewrite length_app, render_length in E). rewrite split_colon_digits by apply render_digits.
    rewrite !offset_digits_value, !render_value by (try apply render_digits; rewrite ?render_value by (cbn; lia); cbn; lia). cbn [attempt mbind outcome_bind].
    rewrite !(bool_decide_false (_ < _)) by lia. by destruct east. }
  unfold timezone_to_offset. rewrite Hp. by destruct east.
Qed.

(** The name printed for an offset below fifteen hours, given back in lower case as
    [SET TIMEZONE] does, is accepted and is the offset rounded towards zero to whole minutes. *)
Theorem timezone_print_parse off :
  Z.abs off < 15 * 3600 -> exists name, format_timezone off = Ok name /\ timezone_to_offset (tolower <$> name) = Ok (Some (Z.quot off 60 * 60)).
Proof.
  intros Hoff. unfold format_timezone. case_bool_decide as H0; [subst off; by exists (text "UTC")|]. rewrite count32_ub_in by (unfold in_signed32; lia). cbn [mbind outcome_bind].
  eexists. split; [done|]. set (a := Z.abs off). pose proof (Z.div_mod a 3600 ltac:(lia)). pose proof (Z.mod_pos_bound a 3600 ltac:(lia)).
  pose proof (Z.div_mod (a mod 3600) 60 ltac:(lia)). pose proof (Z.mod_pos_bound (a mod 3600) 60 ltac:(lia)). set (h := a / 3600) in *. set (m := a mod 3600 / 60) in *.
  assert (0 <= h <= 14) by lia. assert (0 <= m <= 59) by lia. rewrite !print_02d_render by lia. rewrite fmap_app, fmap_cons, fmap_app, fmap_cons.
  rewrite (tolower_digits (render 2 h)), (tolower_digits (render 2 m)) by apply render_digits. change (tolower <$> text "UTC") with (text "utc"). change (tolower ":"%char) with ":"%char.
  replace (tolower (if bool_decide (0 < off) then "+" else "-")%char) with (if bool_decide (0 < off) then "+" else "-")%char by (by case_bool_decide).
  rewrite fixed_offset_render by done. do 2 f_equal. assert (Hq : Z.quot a 60 = h * 60 + m).
  { rewrite Z.quot_div_nonneg by lia. symmetry. apply (Z.div_unique a 60 _ (a mod 3600 mod 60)); lia. }
  case_bool_decide.
  - replace off with a by (unfold a; lia). rewrite Hq. lia.
  - replace off with (- a) by (unfold a; lia). rewrite Z.quot_opp_l, Hq by done. lia.
Qed.

Lemma timezone_print_parse_witness : exists name, format_timezone (-12600) = Ok name /\ timezone_to_offset (tolower <$> name) = Ok (Some (-12600)).
Proof. apply (timezone_print_parse (-12600)). reflexivity. Defined.
