(* ===== verification/LogicalValue.v ===== *)
(** * Arithmetic and comparison of values

    [sum], [subtract], [mult], [divide], [modulus] and the comparisons of
    [components/types/logical_value.cpp], with the promotion of types of [components/types/types.hpp].
    A [logical_type] is its byte. Narrow integers are computed as [int], signed overflow and division
    by zero are [Undefined], and the bits of an address read as a number are [Undefined] too.

    What the machine does with floating-point numbers, given by their bits, and what [absl] does with
    128-bit integers are parameters. *)

From S2P Require Import Prelude.
From S2P Require Import Bytes.
From S2P Require Import DataChunkBinary.
From S2P Require Import WalWorker.
From S2P Require Import IndexCodec.
From S2P Require Import Dates.
#[local] Open Scope Z_scope.

Definition LT_HUGEINT : Z := 15.
Definition LT_TIME_TZ : Z := 18.
Definition LT_INTERVAL : Z := 21.
Definition LT_UHUGEINT : Z := 31.
Definition LT_POINTER : Z := 51.

(** ** Types *)

Definition one_of (ty : Z) (l : list Z) : bool := existsb (Z.eqb ty) l.

Definition is_numeric (ty : Z) : bool :=
  one_of ty [LT_BOOLEAN; LT_UTINYINT; LT_TINYINT; LT_USMALLINT; LT_SMALLINT; LT_UINTEGER; LT_INTEGER; LT_UBIGINT; LT_BIGINT; LT_UHUGEINT; LT_HUGEINT; LT_FLOAT; LT_DOUBLE].
Definition is_signed_type (ty : Z) : bool := one_of ty [LT_TINYINT; LT_SMALLINT; LT_INTEGER; LT_BIGINT; LT_HUGEINT; LT_FLOAT; LT_DOUBLE].
Definition is_unsigned_type (ty : Z) : bool := one_of ty [LT_BOOLEAN; LT_UTINYINT; LT_USMALLINT; LT_UINTEGER; LT_UBIGINT; LT_UHUGEINT].
Definition is_duration (ty : Z) : bool := one_of ty [LT_DATE; LT_TIME; LT_TIME_TZ; LT_TIMESTAMP; LT_TIMESTAMP_TZ; LT_INTERVAL].
Definition is_temporal (ty : Z) : bool := one_of ty [LT_DATE; LT_TIME; LT_TIME_TZ; LT_TIMESTAMP; LT_TIMESTAMP_TZ].

Definition signage_difference : Z := LT_UTINYINT - LT_TINYINT.

Definition promote_type (t1 t2 : Z) : Z :=
  if Z.eqb t1 t2 then t1
  else if negb (is_numeric t1 && is_numeric t2) && negb (is_duration t1 && is_duration t2) then LT_NA
  else if eqb (is_signed_type t1) (is_signed_type t2) || eqb (is_unsigned_type t1) (is_unsigned_type t2) then Z.max t1 t2
  else if is_signed_type t1 then Z.max t1 (wrap 8 (t2 - signage_difference))
  else Z.max (wrap 8 (t1 - signage_difference)) t2.

Inductive arithmetic_op := op_add | op_subtract | op_multiply | op_divide | op_mod.

#[global] Instance arithmetic_op_eq_dec : EqDecision arithmetic_op.
Proof. solve_decision. Defined.

Definition arithmetic_result_type (lhs rhs : Z) (op : arithmetic_op) : Z :=
  let additive := bool_decide (op = op_add \/ op = op_subtract) in
  let scaling := bool_decide (op = op_multiply \/ op = op_divide) in
  if is_numeric lhs && is_numeric rhs then promote_type lhs rhs
  else if additive && (is_temporal lhs && Z.eqb rhs LT_INTERVAL) then lhs
  else if additive && (bool_decide (op = op_add) && (Z.eqb lhs LT_INTERVAL && is_temporal rhs)) then rhs
  else if additive && (Z.eqb lhs LT_INTERVAL && Z.eqb rhs LT_INTERVAL) then LT_INTERVAL
  else if additive && (bool_decide (op = op_subtract) && (is_temporal lhs && is_temporal rhs)) then LT_INTERVAL
  else if scaling && (Z.eqb lhs LT_INTERVAL && is_numeric rhs) then LT_INTERVAL
  else if scaling && (bool_decide (op = op_multiply) && (is_numeric lhs && Z.eqb rhs LT_INTERVAL)) then LT_INTERVAL
  else LT_NA.

(** ** Values *)

(** A number stands for the numeric types, dates, times and timestamps; floating-point numbers are
    their bits. [VEmpty] is a value of a composite type whose list of parts is empty. *)
Inductive value :=
| VNull
| VNum (ty z : Z)
| VStr (s : bytes)
| VDecimal (wide : bool) (z : Z)
| VTimetz (t : timetz_t)
| VInterval (i : interval_t)
| VEmpty (ty : Z).

Definition type_of (v : value) : Z :=
  match v with
  | VNull => LT_NA
  | VNum ty _ | VEmpty ty => ty
  | VStr _ => LT_STRING
  | VDecimal _ _ => LT_DECIMAL
  | VTimetz _ => LT_TIME_TZ
  | VInterval _ => LT_INTERVAL
  end.

Definition is_null (v : value) : bool := Z.eqb (type_of v) LT_NA.

(** [logical_value_t(resource, type)]. *)
Definition default_value (ty : Z) : value :=
  if Z.eqb ty LT_NA then VNull
  else if Z.eqb ty LT_STRING then VStr []
  else if one_of ty [LT_TIME_TZ; LT_INTERVAL] then VEmpty ty
  else VNum ty 0.

Definition interval_of (v : value) : outcome interval_t := match v with VInterval i => Ok i | VEmpty _ => Fault OutOfBounds | _ => Fault Undefined end.
Definition timetz_of (v : value) : outcome timetz_t := match v with VTimetz t => Ok t | VEmpty _ => Fault OutOfBounds | _ => Fault Undefined end.

(** The number stored, read as a number of physical type [p]; null reads as [T{}]. *)
Definition number_of (p : physical_type) (v : value) : outcome Z :=
  match v with VNull => Ok 0 | VNum _ z => Ok (to_integer p z) | VDecimal false z => Ok (to_integer p z) | _ => Fault Undefined end.

Definition is_float (p : physical_type) : bool := match p with FLOAT | DOUBLE => true | _ => false end.
Definition is_wide (p : physical_type) : bool := match p with INT128 | UINT128 => true | _ => false end.

(** The type of [T op T] in C++. *)
Definition promoted (p : physical_type) : physical_type := match p with BOOL | INT8 | UINT8 | INT16 | UINT16 => INT32 | p => p end.

Definition to_logical (p : physical_type) : Z :=
  match p with
  | INT32 => LT_INTEGER | UINT32 => LT_UINTEGER | INT64 => LT_BIGINT | UINT64 => LT_UBIGINT
  | INT128 => LT_HUGEINT | UINT128 => LT_UHUGEINT | FLOAT => LT_FLOAT | DOUBLE => LT_DOUBLE
  | _ => LT_NA
  end.

#[global] Instance num_ok_dec signed n z : Decision (num_ok signed n z).
Proof. unfold num_ok. destruct signed; apply _. Defined.

(** The operation on integers of type [q], which is at least [int]. *)
Definition integer_op (q : physical_type) (op : arithmetic_op) (a b : Z) : outcome Z :=
  let n := default 4%nat (num_size q) in
  let fit z := if is_signed q then (if bool_decide (num_ok true n z) then Ok z else Fault Undefined) else Ok (z mod 2 ^ (8 * Z.of_nat n)) in
  match op with
  | op_add => fit (a + b)
  | op_subtract => fit (a - b)
  | op_multiply => fit (a * b)
  | op_divide => if Z.eqb b 0 then Fault Undefined else fit (Z.quot a b)
  | op_mod => if Z.eqb b 0 then Fault Undefined else _ ← fit (Z.quot a b); Ok (Z.rem a b)
  end.

(** ** The machine *)

Class Machine := {
  float_op : physical_type -> arithmetic_op -> Z -> Z -> Z;
  float_lt : physical_type -> Z -> Z -> bool;
  float_eq : physical_type -> Z -> Z -> bool;
  float_cast : physical_type -> physical_type -> Z -> outcome Z;
  wide_op : physical_type -> arithmetic_op -> Z -> Z -> outcome Z;
  as_double : Z -> Z -> Z;
  scale_round : arithmetic_op -> Z -> Z -> outcome Z;
}.

Section values.
Context `{Machine}.

(** [cast_callback_t]: to 128 bits through 64 bits. *)
Definition cast_number (left right : physical_type) (z : Z) : outcome Z :=
  if bool_decide (left = right) then Ok z
  else if bool_decide (right = BOOL) then (if is_float left then float_cast left right 1 else Ok 1)
  else if is_float left || is_float right then float_cast left right z
  else if bool_decide (left = BOOL) then Ok (if Z.eqb z 0 then 1 else 0)
  else if bool_decide (left = INT128) then Ok (to_integer INT64 z)
  else if bool_decide (left = UINT128) then Ok (to_integer UINT64 z)
  else Ok (to_integer left z).

(** [cast_as] of a number to the type [target]; a type that is not numeric gives null. *)
Definition cast_value (v : value) (target : Z) : outcome value :=
  if Z.eqb (type_of v) target then Ok v
  else if is_numeric target then
    match v with
    | VNum ty z => z ← cast_number (logical_to_physical target) (logical_to_physical ty) z; Ok (VNum target z)
    | _ => Fault Undefined
    end
  else Ok VNull.

(** ** Arithmetic *)

(** The template [op]. *)
Definition op_values (op : arithmetic_op) (p : physical_type) (v1 v2 : value) : outcome value :=
  a ← number_of p v1;
  b ← number_of p v2;
  let q := promoted p in
  z ← (if is_float q then Ok (float_op q op a b) else if is_wide q then wide_op q op a b else integer_op q op a b);
  Ok (VNum (to_logical q) z).

(** The physical type of the [switch] of an operation; [modulus] has no floating-point case. *)
Definition switch_type (op : arithmetic_op) (ty : Z) : option physical_type :=
  let p := logical_to_physical ty in
  if is_numeric ty && negb (bool_decide (op = op_mod) && is_float p) then Some p else None.

Definition num_value (ty : Z) (m : outcome Z) : outcome value := z ← m; Ok (VNum ty z).
Definition interval_value (m : outcome interval_t) : outcome value := i ← m; Ok (VInterval i).
Definition timetz_value (m : outcome timetz_t) : outcome value := t ← m; Ok (VTimetz t).

(** A temporal value and an interval; [None] when there is no such case. *)
Definition shift_value (op : arithmetic_op) (v i : value) : option (outcome value) :=
  let plus := bool_decide (op = op_add) in
  let ty := type_of v in
  if negb (Z.eqb (type_of i) LT_INTERVAL) then None
  else if Z.eqb ty LT_DATE then
    Some (d ← number_of INT32 v; i ← interval_of i; num_value LT_DATE (if plus then date_plus_interval d i else date_minus_interval d i))
  else if one_of ty [LT_TIMESTAMP; LT_TIMESTAMP_TZ] then
    Some (ts ← number_of INT64 v; i ← interval_of i; num_value ty (if plus then timestamp_plus_interval ts i else timestamp_minus_interval ts i))
  else if Z.eqb ty LT_TIME then
    Some (t ← number_of INT64 v; i ← interval_of i; num_value LT_TIME (if plus then time_plus_interval t i else time_minus_interval t i))
  else if Z.eqb ty LT_TIME_TZ then
    Some (t ← timetz_of v; i ← interval_of i; timetz_value (if plus then timetz_plus_interval t i else timetz_minus_interval t i))
  else if Z.eqb ty LT_INTERVAL then
    Some (a ← interval_of v; b ← interval_of i; interval_value (if plus then interval_plus a b else interval_minus a b))
  else None.

Definition temporal_sum (v1 v2 : value) : outcome value :=
  match shift_value op_add v1 v2 with
  | Some r => r
  | None => match shift_value op_add v2 v1 with Some r => r | None => Fault (Throw 41) end
  end.

(** The difference of two temporal values. *)
Definition temporal_difference (v1 v2 : value) : outcome value :=
  let t1 := type_of v1 in
  let t2 := type_of v2 in
  let stamp ty := one_of ty [LT_TIMESTAMP; LT_TIMESTAMP_TZ] in
  match shift_value op_subtract v1 v2 with
  | Some r => r
  | None =>
      if Z.eqb t1 LT_DATE && Z.eqb t2 LT_DATE then a ← number_of INT32 v1; b ← number_of INT32 v2; interval_value (date_minus_date a b)
      else if stamp t1 && stamp t2 then a ← number_of INT64 v1; b ← number_of INT64 v2; interval_value (timestamp_minus_timestamp a b)
      else if Z.eqb t1 LT_TIME && Z.eqb t2 LT_TIME then a ← number_of INT64 v1; b ← number_of INT64 v2; interval_value (time_minus_time a b)
      else if Z.eqb t1 LT_TIME_TZ && Z.eqb t2 LT_TIME_TZ then a ← timetz_of v1; b ← timetz_of v2; interval_value (timetz_minus_timetz a b)
      else Fault (Throw 42)
  end.

(** An interval multiplied or divided by a number. *)
Definition scale_interval (op : arithmetic_op) (v1 v2 : value) : outcome value :=
  i ← interval_of v1;
  f ← (match v2 with VNum ty z => Ok (if one_of ty [LT_BOOLEAN; LT_HUGEINT; LT_UHUGEINT] then 0 else as_double ty z) | _ => Fault Undefined end);
  t ← scale_round op (i_time i) f;
  d ← scale_round op (i_day i) f;
  m ← scale_round op (i_month i) f;
  Ok (VInterval (Interval t (count32 d) (count32 m))).

(** ** Comparison *)

Definition value_eq (v1 v2 : value) : outcome bool :=
  match v1, v2 with
  | VNull, _ => Ok true
  | VStr a, VStr b => Ok (bool_decide (a = b))
  | VDecimal true a, VDecimal _ b => Ok (Z.eqb a b)
  | VDecimal false a, VDecimal _ b => Ok (Z.eqb (u64 a) (u64 b))
  | (VTimetz _ | VEmpty 18), _ => a ← timetz_of v1; b ← timetz_of v2; timetz_eq a b
  | (VInterval _ | VEmpty 21), _ => a ← interval_of v1; b ← interval_of v2; interval_eq a b
  | VNum ty a, (VNum _ _ | VNull) =>
      let b := match v2 with VNum _ b => b | _ => 0 end in
      if one_of ty [LT_BOOLEAN; LT_TINYINT; LT_SMALLINT; LT_INTEGER; LT_BIGINT; LT_UTINYINT; LT_USMALLINT; LT_UINTEGER; LT_UBIGINT; LT_POINTER; LT_ENUM;
                    LT_DATE; LT_TIME; LT_TIMESTAMP; LT_TIMESTAMP_TZ] then Ok (Z.eqb (u64 a) (u64 b))
      else if one_of ty [LT_FLOAT; LT_DOUBLE] then Ok (float_eq (logical_to_physical ty) a b)
      else Ok false
  | _, _ => Fault Undefined
  end.

Definition value_lt (v1 v2 : value) : outcome bool :=
  match v1, v2 with
  | VStr a, VStr b => Ok (negb (lex_leb b a))
  | VDecimal true a, VDecimal _ b => Ok (Z.ltb a b)
  | VDecimal false a, VDecimal _ b => Ok (Z.ltb (u64 a) (u64 b))
  | (VTimetz _ | VEmpty 18), _ => a ← timetz_of v1; b ← timetz_of v2; timetz_lt a b
  | (VInterval _ | VEmpty 21), _ => a ← interval_of v1; b ← interval_of v2; interval_lt a b
  | VNum ty a, (VNum _ _ | VNull) =>
      let b := match v2 with VNum _ b => b | _ => 0 end in
      let p := logical_to_physical ty in
      if one_of ty [LT_BOOLEAN; LT_TINYINT; LT_SMALLINT; LT_INTEGER; LT_BIGINT; LT_UTINYINT; LT_USMALLINT; LT_UINTEGER; LT_UBIGINT;
                    LT_DATE; LT_TIME; LT_TIMESTAMP; LT_TIMESTAMP_TZ] then Ok (Z.ltb (to_integer p a) (to_integer p b))
      else if one_of ty [LT_FLOAT; LT_DOUBLE] then Ok (float_lt p a b)
      else Ok false
  | VNull, _ => Ok false
  | _, _ => Fault Undefined
  end.

Inductive compare_t := less | equals | more.

Definition compare (v1 v2 : value) : outcome compare_t :=
  eq ← value_eq v1 v2;
  if eq : bool then Ok equals else lt ← value_lt v1 v2; Ok (if lt : bool then less else more).

(** ** The operations *)

(** Operands of one type. *)
Definition same_type (op : arithmetic_op) (v1 v2 : value) : outcome value :=
  if is_null v1 && is_null v2 then Ok v1
  else
    zero ← (if bool_decide (op = op_divide) && negb (is_null v2) then value_eq v2 (default_value (type_of v2)) else Ok false);
    if zero : bool then Ok (default_value (if is_null v1 then type_of v2 else type_of v1))
    else
      let ty := if is_null v1 then type_of v2 else type_of v1 in
      match switch_type op ty with
      | Some p => op_values op p v1 v2
      | None =>
          match op with
          | op_add => if Z.eqb ty LT_STRING then Fault (Throw 40) else temporal_sum v1 v2
          | op_subtract => temporal_difference v1 v2
          | op_multiply =>
              if Z.eqb (type_of v1) LT_INTERVAL && is_numeric (type_of v2) then scale_interval op v1 v2
              else if is_numeric (type_of v1) && Z.eqb (type_of v2) LT_INTERVAL then scale_interval op v2 v1
              else Fault (Throw 43)
          | op_divide => if Z.eqb (type_of v1) LT_INTERVAL && is_numeric (type_of v2) then scale_interval op v1 v2 else Fault (Throw 44)
          | op_mod => Fault (Throw 45)
          end
      end.

(** Operands of two numeric types are cast to the promoted type; [divide] looks for zero before. *)
Definition arithmetic (op : arithmetic_op) (v1 v2 : value) : outcome value :=
  if is_null v1 && is_null v2 then Ok v1
  else
    zero ← (if bool_decide (op = op_divide) && negb (is_null v2) then value_eq v2 (default_value (type_of v2)) else Ok false);
    if zero : bool then Ok (default_value (if is_null v1 then type_of v2 else type_of v1))
    else if negb (is_null v1) && negb (is_null v2) && negb (Z.eqb (type_of v1) (type_of v2)) && is_numeric (type_of v1) && is_numeric (type_of v2) then
      let ty := promote_type (type_of v1) (type_of v2) in
      c1 ← cast_value v1 ty;
      c2 ← cast_value v2 ty;
      same_type op c1 c2
    else same_type op v1 v2.

Definition sum : value -> value -> outcome value := arithmetic op_add.
Definition subtract : value -> value -> outcome value := arithmetic op_subtract.
Definition mult : value -> value -> outcome value := arithmetic op_multiply.
Definition divide : value -> value -> outcome value := arithmetic op_divide.
Definition modulus : value -> value -> outcome value := arithmetic op_mod.

End values.
