(* ===== verification/LogicalValueTheorems.v ===== *)
(** * Theorems on arithmetic and comparison of values

    Integer arithmetic is exact where the result fits, results have the type that is announced for
    them, values of a type are ordered, and the cases where operands are misread. *)

From S2P Require Import Prelude.
From S2P Require Import Bytes.
From S2P Require Import DataChunkBinary.
From S2P Require Import WalWorker.
From S2P Require Import IndexCodec.
From S2P Require Import Dates.
From S2P Require Import DatesTheorems.
From S2P Require Import LogicalValue.
#[local] Open Scope Z_scope.

(** ** Integer types *)

Definition signed_types : list Z := [LT_TINYINT; LT_SMALLINT; LT_INTEGER; LT_BIGINT].
Definition unsigned_types : list Z := [LT_UTINYINT; LT_USMALLINT; LT_UINTEGER; LT_UBIGINT].

(** Two integer types that are both signed or both unsigned. *)
Definition same_sign (t1 t2 : Z) : Prop := (t1 ∈ signed_types /\ t2 ∈ signed_types) \/ (t1 ∈ unsigned_types /\ t2 ∈ unsigned_types).

(** The numbers of a physical type. *)
Definition in_physical (p : physical_type) (z : Z) : Prop := match num_size p with Some n => num_ok (is_signed p) n z | None => False end.
Definition in_type (ty z : Z) : Prop := in_physical (logical_to_physical ty) z.

#[global] Instance in_physical_dec p z : Decision (in_physical p z).
Proof. unfold in_physical. destruct (num_size p); apply _. Defined.
#[global] Instance in_type_dec ty z : Decision (in_type ty z).
Proof. unfold in_type. apply _. Defined.

(** The C++ type of the result of an operation on values of types [t1] and [t2]. *)
Definition result_physical (t1 t2 : Z) : physical_type := promoted (logical_to_physical (promote_type t1 t2)).

(** The mathematical result. *)
Definition exact (op : arithmetic_op) (a b : Z) : Z :=
  match op with op_add => a + b | op_subtract => a - b | op_multiply => a * b | op_divide => Z.quot a b | op_mod => Z.rem a b end.

(** The result can be computed: it fits, and a remainder is only defined when its quotient fits. *)
Definition computable (q : physical_type) (op : arithmetic_op) (a b : Z) : Prop :=
  match op with
  | op_divide => b <> 0 /\ in_physical q (Z.quot a b)
  | op_mod => b <> 0 /\ in_physical q (Z.quot a b)
  | op => in_physical q (exact op a b)
  end.

#[global] Instance computable_dec q op a b : Decision (computable q op a b).
Proof. unfold computable. destruct op; apply _. Defined.

#[local] Ltac decided := apply (bool_decide_unpack _); vm_compute; exact I.

#[local] Ltac int_cases H :=
  unfold signed_types, unsigned_types in H; rewrite ?elem_of_cons, ?elem_of_nil in H;
  repeat match type of H with _ \/ _ => destruct H as [H|H] | False => destruct H end; subst.

Lemma to_integer_in p z : in_physical p z -> to_integer p z = z.
Proof. unfold in_physical. destruct (num_size p) eqn:E; [|done]. by apply cast_widen. Qed.

Definition type_bounds (ty : Z) : Z * Z :=
  match ty with
  | 11 => (- 2 ^ 7, 2 ^ 7) | 12 => (- 2 ^ 15, 2 ^ 15) | 13 => (- 2 ^ 31, 2 ^ 31) | 14 => (- 2 ^ 63, 2 ^ 63)
  | 27 => (0, 2 ^ 8) | 28 => (0, 2 ^ 16) | 29 => (0, 2 ^ 32) | 30 => (0, 2 ^ 64)
  | _ => (0, 0)
  end.

Lemma in_type_bounds ty z : same_sign ty ty -> in_type ty z <-> (type_bounds ty).1 <= z < (type_bounds ty).2.
Proof. intros [[H _]|[H _]]; int_cases H; reflexivity. Qed.

(** What promotion does to two integer types of one sign. *)
Lemma promote_same_sign t1 t2 :
  same_sign t1 t2 ->
  let ty := promote_type t1 t2 in
  same_sign ty ty /\ (ty = t1 \/ ty = t2) /\ forall z, in_type t1 z \/ in_type t2 z -> in_type ty z.
Proof.
  intros Hs. assert (Hc : forall t, t = t1 \/ t = t2 -> same_sign t t) by (intros t [->| ->]; unfold same_sign in *; tauto).
  assert (Hb : same_sign (promote_type t1 t2) (promote_type t1 t2) /\ (promote_type t1 t2 = t1 \/ promote_type t1 t2 = t2) /\
    (type_bounds (promote_type t1 t2)).1 <= (type_bounds t1).1 /\ (type_bounds t1).2 <= (type_bounds (promote_type t1 t2)).2 /\
    (type_bounds (promote_type t1 t2)).1 <= (type_bounds t2).1 /\ (type_bounds t2).2 <= (type_bounds (promote_type t1 t2)).2).
  { destruct Hs as [[H1 H2]|[H1 H2]]; int_cases H1; int_cases H2; unfold same_sign; decided. }
  destruct Hb as (Hp & Hor & Hb). cbn zeta. split_and!; [done..|]. intros z. rewrite (in_type_bounds t1), (in_type_bounds t2), (in_type_bounds (promote_type t1 t2)) by auto. lia.
Qed.

(** ** Integer arithmetic *)

Section integers.
Context {machine : Machine}.

Lemma cast_integer t ty a : same_sign t t -> same_sign ty ty -> in_type ty a -> cast_value (VNum t a) ty = Ok (VNum ty a).
Proof.
  intros Ht Hty Ha. unfold cast_value. cbn [type_of]. destruct (Z.eqb_spec t ty) as [->|Hne]; [done|].
  replace (is_numeric ty) with true by (destruct Hty as [[H _]|[H _]]; int_cases H; reflexivity).
  assert (Hc : cast_number (logical_to_physical ty) (logical_to_physical t) a = Ok (to_integer (logical_to_physical ty) a)).
  { destruct Ht as [[H1 _]|[H1 _]], Hty as [[H2 _]|[H2 _]]; int_cases H1; int_cases H2; try done. }
  rewrite Hc. cbn [mbind outcome_bind]. by rewrite to_integer_in.
Qed.

Lemma zero_integer ty b : same_sign ty ty -> in_type ty b -> value_eq (VNum ty b) (default_value ty) = Ok (Z.eqb b 0).
Proof.
  intros Hty Hb. pose proof (proj1 (in_type_bounds ty b Hty) Hb) as Hr. assert (Hv : value_eq (VNum ty b) (default_value ty) = Ok (Z.eqb (u64 b) (u64 0))).
  { destruct Hty as [[H _]|[H _]]; int_cases H; reflexivity. }
  rewrite Hv. f_equal. assert (- 2 ^ 63 <= b < 2 ^ 64) by (destruct Hty as [[H _]|[H _]]; int_cases H; cbn in Hr; lia).
  unfold u64, wrap. change (0 mod 2 ^ 64) with 0. destruct (Z.eqb_spec b 0) as [->|Hne]; [done|]. apply Z.eqb_neq. intros Hm.
  pose proof (Z.div_mod b (2 ^ 64) ltac:(lia)). lia.
Qed.

Lemma same_type_integer op ty a b :
  same_sign ty ty -> in_type ty a -> in_type ty b -> (op = op_divide -> b <> 0) ->
  same_type op (VNum ty a) (VNum ty b) =
    (z ← integer_op (promoted (logical_to_physical ty)) op a b; Ok (VNum (to_logical (promoted (logical_to_physical ty))) z)).
Proof.
  intros Hty Ha Hb Hd. unfold same_type. replace (is_null (VNum ty a)) with false by (destruct Hty as [[H _]|[H _]]; int_cases H; reflexivity).
  replace (is_null (VNum ty b)) with false by (destruct Hty as [[H _]|[H _]]; int_cases H; reflexivity). cbn [andb negb type_of].
  assert (Hz : (if bool_decide (op = op_divide) && true then value_eq (VNum ty b) (default_value ty) else Ok false) = Ok false).
  { case_bool_decide; [|done]. cbn [andb]. rewrite zero_integer by done. f_equal. apply Z.eqb_neq. by apply Hd. }
  rewrite Hz. cbn [mbind outcome_bind]. replace (switch_type op ty) with (Some (logical_to_physical ty)) by (destruct Hty as [[H _]|[H _]]; int_cases H; destruct op; reflexivity).
  unfold op_values, number_of. rewrite !to_integer_in by done. cbn [mbind outcome_bind].
  replace (is_float (promoted _)) with false by (destruct Hty as [[H _]|[H _]]; int_cases H; reflexivity).
  by replace (is_wide (promoted _)) with false by (destruct Hty as [[H _]|[H _]]; int_cases H; reflexivity).
Qed.

(** Operands of two integer types of one sign. *)
Lemma arithmetic_integer op t1 t2 a b :
  same_sign t1 t2 -> in_type t1 a -> in_type t2 b -> (op = op_divide -> b <> 0) ->
  arithmetic op (VNum t1 a) (VNum t2 b) = (z ← integer_op (result_physical t1 t2) op a b; Ok (VNum (to_logical (result_physical t1 t2)) z)).
Proof.
  intros Hs Ha Hb Hd. destruct (promote_same_sign t1 t2 Hs) as (Hp & _ & Hin). cbn zeta in Hin. unfold result_physical.
  assert (H1 : same_sign t1 t1) by (unfold same_sign in *; tauto). assert (H2 : same_sign t2 t2) by (unfold same_sign in *; tauto).
  assert (Hn : forall t z, same_sign t t -> is_null (VNum t z) = false /\ is_numeric t = true) by (intros t z [[H _]|[H _]]; int_cases H; done).
  unfold arithmetic. cbn [type_of]. rewrite (proj1 (Hn t1 a H1)), (proj1 (Hn t2 b H2)), (proj2 (Hn t1 a H1)), (proj2 (Hn t2 b H2)). cbn [andb negb type_of].
  assert (Hz : (if bool_decide (op = op_divide) && true then value_eq (VNum t2 b) (default_value t2) else Ok false) = Ok false).
  { case_bool_decide; [|done]. cbn [andb]. rewrite zero_integer by done. f_equal. apply Z.eqb_neq. by apply Hd. }
  rewrite Hz. cbn [mbind outcome_bind]. rewrite <- (same_type_integer op (promote_type t1 t2)) by auto. rewrite !andb_true_r.
  destruct (Z.eqb_spec t1 t2) as [->|Hne]; cbn [negb].
  - unfold promote_type. by rewrite Z.eqb_refl.
  - rewrite !cast_integer by auto. done.
Qed.

(** The result types, and the operations on them. *)
Definition machine_integer (q : physical_type) : Prop := q ∈ [INT32; UINT32; INT64; UINT64].

Lemma result_machine t1 t2 : same_sign t1 t2 -> machine_integer (result_physical t1 t2).
Proof. intros [[H1 H2]|[H1 H2]]; int_cases H1; int_cases H2; unfold machine_integer; decided. Qed.

Lemma integer_op_exact q op a b : machine_integer q -> computable q op a b -> integer_op q op a b = Ok (exact op a b).
Proof.
  intros Hq Hc. set (n := default 4%nat (num_size q)).
  assert (Hfit : forall z, in_physical q z -> (if is_signed q then (if bool_decide (num_ok true n z) then Ok z else Fault Undefined) else Ok (z mod 2 ^ (8 * Z.of_nat n))) = Ok z).
  { intros z Hz. unfold machine_integer in Hq. rewrite !elem_of_cons, elem_of_nil in Hq.
    destruct Hq as [->|[->|[->|[->|[]]]]]; unfold in_physical in Hz; cbn [num_size is_signed] in *; try (by rewrite bool_decide_true); f_equal; apply Z.mod_small; done. }
  unfold integer_op. fold n. destruct op; cbn [computable exact] in *; try (by apply Hfit); destruct Hc as [Hb Hc]; rewrite (proj2 (Z.eqb_neq b 0) Hb); rewrite Hfit by done; done.
Qed.

Lemma integer_op_undefined q op a b :
  machine_integer q -> is_signed q = true -> ~ computable q op a b -> (op = op_divide -> b <> 0) -> integer_op q op a b = Fault Undefined.
Proof.
  intros Hq Hsg Hc Hd. set (n := default 4%nat (num_size q)).
  assert (Hfit : forall z, ~ in_physical q z -> bool_decide (num_ok true n z) = false).
  { intros z Hz. apply bool_decide_eq_false. unfold machine_integer in Hq. rewrite !elem_of_cons, elem_of_nil in Hq. destruct Hq as [->|[->|[->|[->|[]]]]]; done. }
  unfold integer_op. fold n. rewrite Hsg. destruct op; cbn [computable exact] in *; try (by rewrite Hfit); destruct (Z.eqb_spec b 0); try done; rewrite Hfit by tauto; done.
Qed.

Lemma integer_op_wraps q op a b :
  is_signed q = false -> op <> op_divide -> op <> op_mod -> integer_op q op a b = Ok (exact op a b mod 2 ^ (8 * Z.of_nat (default 4%nat (num_size q)))).
Proof. intros Hsg Hd Hm. unfold integer_op. rewrite Hsg. by destruct op. Qed.

Lemma divide_zero t1 t2 a : same_sign t1 t2 -> in_type t2 0 -> arithmetic op_divide (VNum t1 a) (VNum t2 0) = Ok (VNum t1 0).
Proof.
  intros Hs Hb. assert (H1 : same_sign t1 t1) by (unfold same_sign in *; tauto). assert (H2 : same_sign t2 t2) by (unfold same_sign in *; tauto).
  assert (Hn : forall t z, same_sign t t -> is_null (VNum t z) = false /\ default_value t = VNum t 0) by (intros t z [[H _]|[H _]]; int_cases H; done).
  unfold arithmetic. cbn [type_of]. rewrite (proj1 (Hn t1 a H1)), (proj1 (Hn t2 0 H2)), (proj2 (Hn t1 a H1)). cbn [andb negb type_of].
  rewrite bool_decide_true by done. cbn [andb]. by rewrite zero_integer.
Qed.

End integers.

(** ** Types of results *)

(** What a value of its type can hold; a composite value without parts holds nothing. *)
Definition well_typed (v : value) : Prop :=
  match v with
  | VNull | VStr _ => True
  | VNum ty z => in_type ty z /\ ty <> LT_NA /\ (ty = LT_BOOLEAN -> z = 0 \/ z = 1)
  | VDecimal wide z => in_physical (if wide : bool then INT128 else INT64) z
  | VTimetz t => in_signed64 (tz_time t) /\ in_signed32 (tz_zone t)
  | VInterval i => in_signed64 (i_time i) /\ in_signed32 (i_day i) /\ in_signed32 (i_month i)
  | VEmpty _ => False
  end.

(** Results of the machine are numbers of its types. *)
Class MachineOk (machine : Machine) : Prop := {
  float_op_ok p op a b : is_float p = true -> in_physical p (float_op p op a b);
  float_cast_ok left right z r : float_cast left right z = Ok r -> in_physical left r /\ (left = BOOL -> r = 0 \/ r = 1);
  wide_op_ok q op a b r : is_wide q = true -> wide_op q op a b = Ok r -> in_physical q r;
  scale_round_ok op n f r : scale_round op n f = Ok r -> in_signed64 r;
}.

Section types.
Context {machine : Machine} {machine_ok : MachineOk machine}.

Lemma count64_range z r : count64 z = Ok r -> in_signed64 r.
Proof. intros [Hz ->]%count64_ok. done. Qed.

Lemma count32_ub_range z r : count32_ub z = Ok r -> in_signed32 r.
Proof. unfold count32_ub. case_bool_decide; [|done]. by intros [= <-]. Qed.

Lemma count32_range z : in_signed32 (count32 z).
Proof. unfold count32, in_signed32. pose proof (Z.mod_pos_bound (z + 2 ^ 31) (2 ^ 32) ltac:(lia)). lia. Qed.

Lemma wrap_day_range z r : wrap_day z = Ok r -> in_signed64 r.
Proof.
  unfold wrap_day. intros H. invert_ok. subst r. pose proof (Z.rem_bound_abs x day_us ltac:(done)). unfold in_signed64. change (Z.abs day_us) with 86400000000 in *.
  unfold day_us in *. case_bool_decide; lia.
Qed.

Lemma to_integer_range p z : num_size p <> None -> in_physical p (to_integer p z).
Proof.
  unfold to_integer, in_physical. destruct (num_size p) as [n|] eqn:E; [|done]. intros _.
  assert (0 < Z.of_nat n) by (destruct p; cbn in E; injection E as <- || done; lia).
  pose proof (Z.mod_pos_bound z (2 ^ (8 * Z.of_nat n)) ltac:(apply Z.pow_pos_nonneg; lia)). unfold of_bits, num_ok.
  assert (2 ^ (8 * Z.of_nat n) = 2 * 2 ^ (8 * Z.of_nat n - 1)) by (rewrite <- Z.pow_succ_r by lia; f_equal; lia).
  destruct (is_signed p); cbn [andb]; [|done]. case_bool_decide; lia.
Qed.

Lemma in_type_32 z : in_signed32 z -> in_type LT_DATE z.
Proof. done. Qed.

Lemma in_type_64 ty z : logical_to_physical ty = INT64 -> in_signed64 z -> in_type ty z.
Proof. unfold in_type. by intros ->. Qed.

Lemma date_interval_range (plus : bool) d i r : (if plus then date_plus_interval d i else date_minus_interval d i) = Ok r -> in_signed32 r.
Proof. destruct plus; intros H; unfold date_plus_interval, date_minus_interval in H; invert_ok; subst r; apply count32_range. Qed.

Lemma timestamp_interval_range (plus : bool) ts i r : (if plus then timestamp_plus_interval ts i else timestamp_minus_interval ts i) = Ok r -> in_signed64 r.
Proof.
  destruct plus; unfold timestamp_plus_interval, timestamp_minus_interval, from_sys_days_us; intros H; invert_ok; repeat (case_match; invert_ok); eauto using count64_range.
Qed.

Lemma time_interval_range (plus : bool) t i r : (if plus then time_plus_interval t i else time_minus_interval t i) = Ok r -> in_signed64 r.
Proof. destruct plus; apply wrap_day_range. Qed.

Lemma timetz_interval_range (plus : bool) t i r :
  well_typed (VTimetz t) -> (if plus then timetz_plus_interval t i else timetz_minus_interval t i) = Ok r -> well_typed (VTimetz r).
Proof. intros [_ Hz]. destruct plus; unfold timetz_plus_interval, timetz_minus_interval; intros H; invert_ok; subst r; split; cbn; eauto using wrap_day_range. Qed.

Lemma interval_interval_range (plus : bool) a b r : (if plus then interval_plus a b else interval_minus a b) = Ok r -> well_typed (VInterval r).
Proof. destruct plus; unfold interval_plus, interval_minus; intros H; invert_ok; subst r; split_and!; cbn [i_time i_day i_month]; eauto using count64_range, count32_ub_range. Qed.

Lemma shift_value_ok op v i m r :
  well_typed v -> shift_value op v i = Some m -> m = Ok r -> well_typed r /\ type_of r = type_of v.
Proof.
  intros Hv Hs Hm. unfold shift_value, num_value, timetz_value, interval_value in Hs.
  destruct (negb _); [done|]. destruct (Z.eqb_spec (type_of v) LT_DATE) as [Et|_].
  { injection Hs as <-. invert_ok. subst r. split; [|done]. split; [|done]. apply in_type_32. by eapply date_interval_range. }
  destruct (one_of (type_of v) _) eqn:Eo.
  { injection Hs as <-. invert_ok. subst r. split; [|done].
    assert (type_of v = LT_TIMESTAMP \/ type_of v = LT_TIMESTAMP_TZ) as [E|E] by (unfold one_of in Eo; cbn [existsb] in Eo; lia); cbn; rewrite E; (split; [|done]); (apply in_type_64; [done|]); by eapply timestamp_interval_range. }
  destruct (Z.eqb_spec (type_of v) LT_TIME) as [Et|_].
  { injection Hs as <-. invert_ok. subst r. split; [|done]. split; [|done]. apply in_type_64; [done|]. by eapply time_interval_range. }
  destruct (Z.eqb_spec (type_of v) LT_TIME_TZ) as [Et|_].
  { injection Hs as <-. invert_ok. subst r. split; [|done]. destruct v; try done. cbn in *. simplify_eq. by eapply timetz_interval_range. }
  destruct (Z.eqb_spec (type_of v) LT_INTERVAL) as [Et|_]; [|done]. injection Hs as <-. invert_ok. subst r. split; [|done]. by eapply interval_interval_range.
Qed.

Lemma difference_ok v1 v2 r : well_typed v1 -> temporal_difference v1 v2 = Ok r -> well_typed r /\ (type_of r = type_of v1 \/ type_of r = LT_INTERVAL).
Proof.
  intros Hv. unfold temporal_difference. destruct (shift_value op_subtract v1 v2) as [m|] eqn:Es; [intros Hm; destruct (shift_value_ok _ _ _ _ _ Hv Es Hm); auto|].
  unfold interval_value, date_minus_date, timestamp_minus_timestamp, time_minus_time, timetz_minus_timetz.
  repeat (destruct (_ && _); [intros H; invert_ok; subst; split; [|by right]; cbn; unfold in_signed32, in_signed64 in *|]); [..|done].
  all: repeat match goal with H : count64 _ = Ok _ |- _ => apply count64_range in H | H : count32_ub _ = Ok _ |- _ => apply count32_ub_range in H end; unfold in_signed32, in_signed64 in *; lia.
Qed.

Lemma scale_ok op v1 v2 r : scale_interval op v1 v2 = Ok r -> well_typed r /\ type_of r = LT_INTERVAL.
Proof.
  unfold scale_interval. intros H. invert_ok. subst r. split; [|done]. cbn. split_and!; [by eapply scale_round_ok|apply count32_range..].
Qed.
Lemma temporal_sum_ok v1 v2 r : well_typed v1 -> well_typed v2 -> temporal_sum v1 v2 = Ok r -> well_typed r.
Proof.
  intros H1 H2. unfold temporal_sum. destruct (shift_value op_add v1 v2) eqn:E1; [intros H; by apply (shift_value_ok _ _ _ _ _ H1 E1 H)|].
  destruct (shift_value op_add v2 v1) eqn:E2; [|done]. intros H. by apply (shift_value_ok _ _ _ _ _ H2 E2 H).
Qed.

Lemma integer_op_range q op a b r : machine_integer q -> in_physical q a -> in_physical q b -> integer_op q op a b = Ok r -> in_physical q r.
Proof.
  intros Hq Ha Hb H. unfold machine_integer in Hq. rewrite !elem_of_cons, elem_of_nil in Hq. unfold in_physical, integer_op in *.
  destruct Hq as [->|[->|[->|[->|[]]]]]; cbn [num_size is_signed default num_ok] in *.
  all: destruct op; repeat case_match; invert_ok; simplify_eq; repeat match goal with H : bool_decide _ = true |- _ => apply bool_decide_eq_true in H end; try done; try (apply Z.mod_pos_bound; done).
  all: pose proof (Z.rem_bound_abs a b ltac:(lia)); assert (0 <= a -> 0 <= Z.rem a b) by (intros; apply Z.rem_nonneg; lia); unfold num_ok in *; cbn in *; lia.
Qed.

Lemma number_of_range p v z : num_size p <> None -> number_of p v = Ok z -> in_physical p z.
Proof.
  intros Hp. assert (H0 : in_physical p 0) by (destruct p; try done; unfold in_physical; cbn; lia).
  unfold number_of. destruct v as [| | |[]| | |]; intros [= <-]; auto using to_integer_range.
Qed.

Lemma in_promoted p z : num_size p <> None -> in_physical p z -> in_physical (promoted p) z.
Proof. destruct p; try done; intros _; unfold in_physical, num_ok; cbn; lia. Qed.

Lemma op_values_ok op ty v1 v2 r : is_numeric ty = true -> op_values op (logical_to_physical ty) v1 v2 = Ok r -> well_typed r.
Proof.
  intros Hn H. assert (Hp : num_size (logical_to_physical ty) <> None).
  { unfold is_numeric, one_of in Hn. cbn [existsb] in Hn. repeat (apply orb_prop in Hn as [Hn%Z.eqb_eq|Hn]; [subst; done|]). done. }
  unfold op_values in H. set (p := logical_to_physical ty) in *. invert_ok. subst r.
  assert (Ha : in_physical p x) by eauto using number_of_range. assert (Hb : in_physical p x0) by eauto using number_of_range.
  assert (Hl : logical_to_physical (to_logical (promoted p)) = promoted p /\ to_logical (promoted p) <> LT_NA /\ to_logical (promoted p) <> LT_BOOLEAN).
  { clear -Hn. unfold p. unfold is_numeric, one_of in Hn. cbn [existsb] in Hn. repeat (apply orb_prop in Hn as [Hn%Z.eqb_eq|Hn]; [subst; done|]). done. }
  destruct Hl as (Hl & Hna & Hnb). split; [unfold in_type; rewrite Hl|done].
  destruct (is_float (promoted p)) eqn:Ef; [invert_ok; subst; by apply float_op_ok|]. destruct (is_wide (promoted p)) eqn:Ew; [by eapply wide_op_ok|].
  assert (Hm : machine_integer (promoted p)).
  { clear -Hn Ef Ew. unfold p in *. unfold is_numeric, one_of in Hn. cbn [existsb] in Hn.
    repeat (apply orb_prop in Hn as [Hn%Z.eqb_eq|Hn]; [subst; try done; unfold machine_integer; decided|]). done. }
  apply (integer_op_range _ op x x0); auto using in_promoted.
Qed.

Lemma switch_type_some op ty p : switch_type op ty = Some p -> p = logical_to_physical ty /\ is_numeric ty = true.
Proof. unfold switch_type. intros H. case_match; [|done]. split_bools. by simplify_eq. Qed.

Lemma same_type_ok op v1 v2 r : well_typed v1 -> well_typed v2 -> same_type op v1 v2 = Ok r -> well_typed r \/ (op = op_divide /\ r = default_value (if is_null v1 then type_of v2 else type_of v1)).
Proof.
  intros H1 H2 H. unfold same_type in H. destruct (is_null v1 && is_null v2); [simplify_eq; auto|]. invert_ok.
  destruct x; [simplify_eq; right; split; [|done]; by destruct op|]. left.
  destruct (switch_type op _) eqn:Es; [apply switch_type_some in Es as [-> Hn]; by eapply op_values_ok|]. clear Es.
  clear H. destruct op; [destruct (_ =? LT_STRING); [done|exact (temporal_sum_ok _ _ _ H1 H2 H0)]|exact (proj1 (difference_ok _ _ _ H1 H0))|..|done].
  all: repeat (destruct (_ && _); [exact (proj1 (scale_ok _ _ _ _ H0))|]); done.
Qed.

Lemma cast_number_range left right z r :
  num_size left <> None -> in_physical left z \/ left <> right -> cast_number left right z = Ok r -> in_physical left r /\ (left = BOOL -> left <> right -> r = 0 \/ r = 1).
Proof.
  intros Hs Hz H. unfold cast_number in H. case_bool_decide as E1; [simplify_eq; split; [by destruct Hz|done]|].
  assert (H01 : forall b : bool, in_physical left (if b then 1 else 0)) by (intros []; destruct left; try done; unfold in_physical; cbn; lia).
  case_bool_decide as E2; [destruct (is_float left) eqn:Ef; [by destruct (float_cast_ok _ _ _ _ H); auto|simplify_eq; split; [apply (H01 true)|auto]]|].
  destruct (is_float left || is_float right); [by destruct (float_cast_ok _ _ _ _ H); auto|].
  case_bool_decide as E3; [simplify_eq; split; [apply H01|intros _ _; case_match; auto]|].
  case_bool_decide as E4; [simplify_eq; split; [|done]; pose proof (to_integer_range INT64 z ltac:(done)); unfold in_physical, num_ok in *; cbn in *; lia|].
  case_bool_decide as E5; [simplify_eq; split; [|done]; pose proof (to_integer_range UINT64 z ltac:(done)); unfold in_physical, num_ok in *; cbn in *; lia|].
  simplify_eq. split; [by apply to_integer_range|done].
Qed.

Lemma numeric_physical t1 t2 :
  is_numeric t1 = true -> is_numeric t2 = true -> num_size (logical_to_physical t1) <> None /\ (t1 <> t2 -> logical_to_physical t1 <> logical_to_physical t2) /\ (logical_to_physical t1 = BOOL <-> t1 = LT_BOOLEAN) /\ t1 <> LT_NA.
Proof.
  unfold is_numeric, one_of. cbn [existsb]. intros H1 H2.
  repeat (apply orb_prop in H1 as [H1%Z.eqb_eq|H1]; [subst t1; repeat (apply orb_prop in H2 as [H2%Z.eqb_eq|H2]; [subst t2; done|]); done|]). done.
Qed.

Lemma cast_value_ok v target r : well_typed v -> is_numeric (type_of v) = true -> cast_value v target = Ok r -> well_typed r.
Proof.
  intros Hv Hn H. unfold cast_value in H. destruct (Z.eqb_spec (type_of v) target) as [_|Hne]; [by simplify_eq|].
  destruct (is_numeric target) eqn:Et; [|by simplify_eq]. destruct v as [|ty z| | | | |]; try done. cbn [type_of] in *. invert_ok. subst r.
  destruct (numeric_physical target ty Et Hn) as (Hs & Hd & Hb & Hna). destruct (cast_number_range _ _ _ _ Hs (or_intror (Hd ltac:(done))) H) as [Hr Hbool].
  split_and!; [done|done|]. intros E. apply Hbool; [by apply Hb|by apply Hd].
Qed.

End types.

(** ** Properties *)


(** A machine for concrete runs: floating-point results are zero, 128-bit results are not computed. *)
#[local] Instance plain_machine : Machine :=
  {| float_op _ _ _ _ := 0; float_lt _ _ _ := false; float_eq _ _ _ := false; float_cast _ _ _ := Fault Undefined;
     wide_op _ _ _ _ := Fault Undefined; as_double _ _ := 0; scale_round _ _ _ := Fault Undefined |}.



#[local] Instance plain_machine_ok : MachineOk plain_machine.
Proof. split; try done. intros [] ? ? ?; try done; intros _; unfold in_physical; cbn; lia. Qed.


(** Dividing an interval by zero gives an interval value without parts, which cannot be read. *)
Lemma interval_by_zero : exists r, divide (VInterval (Interval 1 1 1)) (VNum LT_INTEGER 0) = Ok r /\ interval_of r = Fault OutOfBounds /\ ~ well_typed r.
Proof. exists (VEmpty LT_INTERVAL). split; [vm_compute; reflexivity|]. split; [reflexivity|]. by intros []. Qed.

(** A boolean and a signed number are promoted to a type that is no type, and both operands become null. *)
Lemma boolean_and_signed : promote_type LT_BOOLEAN LT_INTEGER = 250 /\ sum (VNum LT_BOOLEAN 1) (VNum LT_INTEGER 5) = Ok VNull.
Proof. split; vm_compute; reflexivity. Qed.

(** Narrow integers give an [INTEGER] where their own type is announced. *)
Lemma narrow_result : arithmetic_result_type LT_TINYINT LT_TINYINT op_add = LT_TINYINT /\ sum (VNum LT_TINYINT 1) (VNum LT_TINYINT 2) = Ok (VNum LT_INTEGER 3).
Proof. split; vm_compute; reflexivity. Qed.

(** A negative decimal of at most 64 bits is not below a positive one. *)
Lemma negative_decimal : value_lt (VDecimal false (-1)) (VDecimal false 1) = Ok false /\ value_lt (VDecimal true (-1)) (VDecimal true 1) = Ok true.
Proof. split; vm_compute; reflexivity. Qed.

(** Dividing by null is undefined for integers: null is read as zero. *)
Lemma divide_by_null : divide (VNum LT_INTEGER 7) VNull = Fault Undefined /\ sum (VNum LT_INTEGER 7) VNull = Ok (VNum LT_INTEGER 7).
Proof. split; vm_compute; reflexivity. Qed.
