(* ===== verification/ColumnCompression.v ===== *)
(** * Compressed column segments

    The encoders of [components/table/column_checkpoint_state.cpp] (constant, run-length and dictionary
    encodings of a buffer of fixed-size values) and the readers of [components/table/column_segment.cpp]
    that take a compressed segment apart again. Buffers are bytes, a segment lies at an offset of its
    block, the result of a scan is a buffer that values are copied into. *)

From S2P Require Import Prelude.
From S2P Require Import Bytes.
From coqutil Require Import Byte.
#[local] Open Scope Z_scope.

(** [data + i * type_size]. *)
Definition element (data : bytes) (type_size i : Z) : outcome bytes := read_bytes data (i * type_size) type_size.

(** ** Encoders *)

Fixpoint constant_loop (data : bytes) (type_size i : Z) (n : nat) : outcome bool :=
  match n with
  | O => Ok true
  | S n =>
      base ← element data type_size 0;
      x ← element data type_size i;
      if bool_decide (base = x) then constant_loop data type_size (i + 1) n else Ok false
  end.

Definition is_constant_data (data : bytes) (type_size count : Z) : outcome bool :=
  if bool_decide (count <= 1) then Ok true else constant_loop data type_size 1 (Z.to_nat (count - 1)).

Fixpoint runs_loop (data : bytes) (type_size i : Z) (n : nat) (runs : Z) : outcome Z :=
  match n with
  | O => Ok runs
  | S n =>
      a ← element data type_size (i - 1);
      b ← element data type_size i;
      runs_loop data type_size (i + 1) n (if bool_decide (a = b) then runs else u32 (runs + 1))
  end.

Definition count_runs (data : bytes) (type_size count : Z) : outcome Z :=
  if bool_decide (count = 0) then Ok 0 else runs_loop data type_size 1 (Z.to_nat (count - 1)) 1.

(** One turn per [i] up to and with [count]. *)
Fixpoint rle_loop (data : bytes) (type_size count i : Z) (n : nat) (out : bytes) (ptr run_length : Z) : outcome bytes :=
  match n with
  | O => Ok out
  | S n =>
      prev ← element data type_size (i - 1);
      same ← (if bool_decide (i < count) then x ← element data type_size i; Ok (bool_decide (prev = x)) else Ok false);
      if same : bool then rle_loop data type_size count (i + 1) n out ptr (u32 (run_length + 1))
      else
        out ← blit out ptr prev;
        out ← blit out (ptr + type_size) (write_le 4 run_length);
        rle_loop data type_size count (i + 1) n out (ptr + type_size + 4) 1
  end.

Definition build_rle_buffer (data : bytes) (type_size count : Z) : outcome bytes :=
  if bool_decide (count = 0) then Ok (write_le 4 0)
  else
    num_runs ← count_runs data type_size count;
    let entry_size := type_size + 4 in
    let total_size := u64 (4 + num_runs * entry_size) in
    out ← blit (zeros total_size) 0 (write_le 4 num_runs);
    rle_loop data type_size count 1 (Z.to_nat count) out 4 1.

Definition MAX_DICT_ENTRIES : Z := 65535.

Record dict_analysis_t := DictAnalysis { num_unique : Z; compressed_size : Z; value_map : gmap bytes Z }.

(** [None]: too many values. The size is read before the new entry is inserted. *)
Fixpoint dict_loop (data : bytes) (type_size i : Z) (n : nat) (mapping : gmap bytes Z) : outcome (option (gmap bytes Z)) :=
  match n with
  | O => Ok (Some mapping)
  | S n =>
      key ← element data type_size i;
      match mapping !! key with
      | Some _ => dict_loop data type_size (i + 1) n mapping
      | None =>
          if bool_decide (MAX_DICT_ENTRIES <= Z.of_nat (size mapping)) then Ok None
          else dict_loop data type_size (i + 1) n (<[key := u16 (Z.of_nat (size mapping))]> mapping)
      end
  end.

Definition analyze_dictionary (data : bytes) (type_size count : Z) : outcome dict_analysis_t :=
  let empty := DictAnalysis 0 0 ∅ in
  if bool_decide (count = 0) then Ok empty
  else
    m ← dict_loop data type_size 0 (Z.to_nat count) ∅;
    match m with
    | None => Ok empty
    | Some mapping =>
        let num_unique := u16 (Z.of_nat (size mapping)) in
        let index_size := if bool_decide (num_unique <= 256) then 1 else 2 in
        Ok (DictAnalysis num_unique (u64 (2 + num_unique * type_size + count * index_size)) mapping)
    end.

(** [ordered]: where each key is, by index; the entries of the map in any order. *)
Fixpoint order_keys (l : list (bytes * Z)) (ordered : list (option bytes)) : outcome (list (option bytes)) :=
  match l with
  | [] => Ok ordered
  | (key, idx) :: l => if bool_decide (0 <= idx < zlen ordered) then order_keys l (zset idx (Some key) ordered) else Fault OutOfBounds
  end.

Fixpoint dict_values (l : list (option bytes)) (out : bytes) (ptr type_size : Z) : outcome (bytes * Z) :=
  match l with
  | [] => Ok (out, ptr)
  | None :: _ => Fault NullDeref
  | Some v :: l => out ← blit out ptr v; dict_values l out (ptr + type_size) type_size
  end.

Fixpoint dict_indices (data : bytes) (type_size i : Z) (n : nat) (m : gmap bytes Z) (use_uint8 : bool) (out : bytes) (ptr : Z) : outcome bytes :=
  match n with
  | O => Ok out
  | S n =>
      key ← element data type_size i;
      idx ← of_option (Throw 50) (m !! key);
      let width := if use_uint8 then 1%nat else 2%nat in
      out ← blit out ptr (write_le width (if use_uint8 then u8 idx else idx));
      dict_indices data type_size (i + 1) n m use_uint8 out (ptr + Z.of_nat width)
  end.

Definition build_dict_buffer (data : bytes) (type_size count : Z) (analysis : dict_analysis_t) : outcome bytes :=
  out ← blit (zeros (compressed_size analysis)) 0 (write_le 2 (num_unique analysis));
  ordered ← order_keys (map_to_list (value_map analysis)) (replicate (Z.to_nat (num_unique analysis)) None);
  r ← dict_values ordered out 2 type_size;
  let '(out, ptr) := r in
  dict_indices data type_size 0 (Z.to_nat count) (value_map analysis) (bool_decide (num_unique analysis <= 256)) out ptr.

(** ** Segments *)

Inductive compression_type := INVALID | UNCOMPRESSED | CONSTANT | RLE | BITPACKING | DICTIONARY | VALIDITY_UNCOMPRESSED.

#[global] Instance compression_type_eq_dec : EqDecision compression_type.
Proof. solve_decision. Defined.

(** [offset_] is the place in the block; [type_size] is [type.size()]. *)
Record column_segment_t := ColumnSegment {
  start : Z;
  count : Z;
  type_size : Z;
  offset_ : Z;
  segment_size_ : Z;
  compression_ : compression_type;
}.

(** The pair of [assert]s and the subtraction. *)
Definition relative_index (seg : column_segment_t) (row_index : Z) : outcome Z :=
  if bool_decide (start seg <= row_index <= start seg + count seg) then Ok (row_index - start seg) else Fault Abort.

(** ** Readers: the loops *)

(** [for i < n: memcpy(dest + at + i * ts, value, ts)]. *)
Fixpoint copy_value (dest : bytes) (at_ : Z) (value : bytes) (n : nat) : outcome bytes :=
  match n with
  | O => Ok dest
  | S n => dest ← blit dest at_ value; copy_value dest (at_ + zlen value) value n
  end.

(** The first [while]: the run with the row, and the rows before it. *)
Fixpoint rle_skip (block : bytes) (ptr ts num_runs row_offset run_idx rows_skipped : Z) (n : nat) : outcome (Z * Z) :=
  match n with
  | O => Ok (run_idx, rows_skipped)
  | S n =>
      if bool_decide (run_idx < num_runs) then
        run_len ← read_le 4 block (ptr + run_idx * (ts + 4) + ts);
        if bool_decide (row_offset < rows_skipped + run_len) then Ok (run_idx, rows_skipped)
        else rle_skip block ptr ts num_runs row_offset (run_idx + 1) (rows_skipped + run_len) n
      else Ok (run_idx, rows_skipped)
  end.

(** The second [while]; [at_] is where the next value goes. *)
Fixpoint rle_emit (block : bytes) (ptr ts num_runs scan_count : Z) (dest : bytes) (at_ emitted run_idx pos_in_run : Z) (n : nat) : outcome bytes :=
  match n with
  | O => Ok dest
  | S n =>
      if bool_decide (emitted < scan_count /\ run_idx < num_runs) then
        value ← read_bytes block (ptr + run_idx * (ts + 4)) ts;
        run_len ← read_le 4 block (ptr + run_idx * (ts + 4) + ts);
        let remaining_in_run := u64 (run_len - pos_in_run) in
        let to_emit := Z.min remaining_in_run (scan_count - emitted) in
        dest ← copy_value dest at_ value (Z.to_nat to_emit);
        rle_emit block ptr ts num_runs scan_count dest (at_ + to_emit * ts) (emitted + to_emit) (run_idx + 1) 0 n
      else Ok dest
  end.

(** ** Scans

    [row_offset] is the row relative to the segment, [dest_offset] the first position of the result. *)

Definition constant_scan_partial (seg : column_segment_t) (block : bytes) (row_offset scan_count : Z) (dest : bytes) (result_offset : Z) : outcome bytes :=
  src ← read_bytes block (offset_ seg) (type_size seg);
  copy_value dest (result_offset * type_size seg) src (Z.to_nat scan_count).

Definition rle_scan_partial (seg : column_segment_t) (block : bytes) (row_offset scan_count : Z) (dest : bytes) (result_offset : Z) : outcome bytes :=
  let ts := type_size seg in
  num_runs ← read_le 4 block (offset_ seg);
  let ptr := offset_ seg + 4 in
  r ← rle_skip block ptr ts num_runs row_offset 0 0 (Z.to_nat num_runs);
  let '(run_idx, rows_skipped) := r in
  rle_emit block ptr ts num_runs scan_count dest (result_offset * ts) 0 run_idx (u64 (row_offset - rows_skipped)) (Z.to_nat (num_runs - run_idx)).

Fixpoint dict_scan_loop (block : bytes) (dict_values indices ts row_offset i : Z) (use_uint8 : bool) (dest : bytes) (at_ : Z) (n : nat) : outcome bytes :=
  match n with
  | O => Ok dest
  | S n =>
      let width := if use_uint8 then 1%nat else 2%nat in
      dict_idx ← read_le width block (indices + (row_offset + i) * Z.of_nat width);
      v ← read_bytes block (dict_values + dict_idx * ts) ts;
      dest ← blit dest at_ v;
      dict_scan_loop block dict_values indices ts row_offset (i + 1) use_uint8 dest (at_ + ts) n
  end.

Definition dict_scan_partial (seg : column_segment_t) (block : bytes) (row_offset scan_count : Z) (dest : bytes) (result_offset : Z) : outcome bytes :=
  let ts := type_size seg in
  num_unique ← read_le 2 block (offset_ seg);
  let dict_values := offset_ seg + 2 in
  let indices := dict_values + num_unique * ts in
  dict_scan_loop block dict_values indices ts row_offset 0 (bool_decide (num_unique <= 256)) dest (result_offset * ts) (Z.to_nat scan_count).

(** One [memcpy] of [scan_count] values. *)
Definition fixed_size_scan_partial (seg : column_segment_t) (block : bytes) (row_offset scan_count : Z) (dest : bytes) (result_offset : Z) : outcome bytes :=
  let ts := type_size seg in
  src ← read_bytes block (offset_ seg + row_offset * ts) (scan_count * ts);
  blit dest (result_offset * ts) src.

(** [scan_partial] of a segment of fixed-size values from the row [row_index]. *)
Definition scan_partial (seg : column_segment_t) (block : bytes) (row_index scan_count : Z) (dest : bytes) (result_offset : Z) : outcome bytes :=
  match compression_ seg with
  | CONSTANT => constant_scan_partial seg block 0 scan_count dest result_offset
  | RLE => row ← relative_index seg row_index; rle_scan_partial seg block row scan_count dest result_offset
  | DICTIONARY => row ← relative_index seg row_index; dict_scan_partial seg block row scan_count dest result_offset
  | _ => row ← relative_index seg row_index; fixed_size_scan_partial seg block row scan_count dest result_offset
  end.

(** ** Single rows *)

Definition constant_fetch_row (seg : column_segment_t) (block : bytes) : outcome bytes := read_bytes block (offset_ seg) (type_size seg).

(** [None]: no run has the row, and nothing is copied. *)
Fixpoint rle_fetch_loop (block : bytes) (ptr ts row_id i rows_skipped : Z) (n : nat) : outcome (option bytes) :=
  match n with
  | O => Ok None
  | S n =>
      run_len ← read_le 4 block (ptr + i * (ts + 4) + ts);
      if bool_decide (row_id < rows_skipped + run_len) then v ← read_bytes block (ptr + i * (ts + 4)) ts; Ok (Some v)
      else rle_fetch_loop block ptr ts row_id (i + 1) (rows_skipped + run_len) n
  end.

Definition rle_fetch_row (seg : column_segment_t) (block : bytes) (row_id : Z) : outcome (option bytes) :=
  num_runs ← read_le 4 block (offset_ seg);
  rle_fetch_loop block (offset_ seg + 4) (type_size seg) row_id 0 0 (Z.to_nat num_runs).

Definition dict_fetch_row (seg : column_segment_t) (block : bytes) (row_id : Z) : outcome bytes :=
  let ts := type_size seg in
  num_unique ← read_le 2 block (offset_ seg);
  let dict_values := offset_ seg + 2 in
  let width := if bool_decide (num_unique <= 256) then 1%nat else 2%nat in
  dict_idx ← read_le width block (dict_values + num_unique * ts + row_id * Z.of_nat width);
  read_bytes block (dict_values + dict_idx * ts) ts.

Definition fixed_size_fetch_row (seg : column_segment_t) (block : bytes) (row_id : Z) : outcome bytes :=
  read_bytes block (offset_ seg + row_id * type_size seg) (type_size seg).

(** [fetch_row] into position [result_idx] of the result. *)
Definition fetch_row (seg : column_segment_t) (block : bytes) (row_id : Z) (dest : bytes) (result_idx : Z) : outcome bytes :=
  let put v := blit dest (result_idx * type_size seg) v in
  match compression_ seg with
  | CONSTANT => v ← constant_fetch_row seg block; put v
  | RLE => o ← rle_fetch_row seg block (row_id - start seg); match o with Some v => put v | None => Ok dest end
  | DICTIONARY => v ← dict_fetch_row seg block (row_id - start seg); put v
  | _ => v ← fixed_size_fetch_row seg block (row_id - start seg); put v
  end.
