(* ===== verification/ColumnCompressionTheorems.v ===== *)
(** * Compressed segments read back as written

    What the encoders of [ColumnCompression] store and what its readers find there: the scans and the
    single-row reads return the values that were encoded, for the constant, the run-length and the
    dictionary encoding, wherever the segment lies in its block. *)

From S2P Require Import Prelude.
From S2P Require Import Bytes.
From S2P Require Import ColumnCompression.
From coqutil Require Import Byte Word.LittleEndianList.
#[local] Open Scope Z_scope.

(** ** Values in a buffer *)

(** [data] starts with the values [vals], [ts] bytes each. *)
Definition holds (data : bytes) (ts : Z) (vals : list bytes) : Prop :=
  forall i v, vals !! i = Some v -> element data ts (Z.of_nat i) = Ok v.

(** The bytes [bs] lie at [off]. *)
Definition stored (block : bytes) (off : Z) (bs : bytes) : Prop := exists pre post, block = pre ++ bs ++ post /\ off = zlen pre.

Lemma stored_bytes_read block off bs : stored block off bs -> read_bytes block off (zlen bs) = Ok bs.
Proof. intros (pre & post & -> & ->). by apply read_bytes_mid. Qed.

Lemma read_stored block off n bs : read_bytes block off n = Ok bs -> stored block off bs.
Proof.
  unfold read_bytes. case_bool_decide as H; [|done]. intros [= <-]. exists (take (Z.to_nat off) block), (drop (Z.to_nat n) (drop (Z.to_nat off) block)).
  split; [by rewrite !take_drop|]. unfold zlen in *. rewrite length_take. lia.
Qed.

Lemma stored_app block off a b : stored block off (a ++ b) -> stored block off a /\ stored block (off + zlen a) b.
Proof.
  intros (pre & post & -> & ->). split; [exists pre, (b ++ post); by rewrite <- app_assoc|]. exists (pre ++ a), post. by rewrite zlen_app, <- !app_assoc.
Qed.

Lemma stored_le n block off v : stored block off (write_le n v) -> 0 <= v < 2 ^ (8 * Z.of_nat n) -> read_le n block off = Ok v.
Proof. intros (pre & post & -> & ->) Hv. by apply read_le_at. Qed.

Lemma blit_nil dst off : 0 <= off <= zlen dst -> blit dst off [] = Ok dst.
Proof.
  intros H. unfold blit. change (zlen []) with 0. rewrite Z.add_0_r. rewrite bool_decide_true by lia. cbn. by rewrite take_drop.
Qed.

Lemma blit_start b c b' : zlen b = zlen b' -> blit (b ++ c) 0 b' = Ok (b' ++ c).
Proof. intros H. by apply (blit_mid [] b c b'). Qed.

Lemma blit_ok dst off src : 0 <= off -> off + zlen src <= zlen dst -> exists d, blit dst off src = Ok d /\ zlen d = zlen dst.
Proof.
  intros H1 H2. destruct (blit dst off src) as [d|] eqn:E; [eauto using zlen_blit|]. unfold blit in E. by rewrite bool_decide_true in E by lia.
Qed.

(** Values of one size, one after the other. *)
Lemma zlen_concat ts (l : list bytes) : Forall (fun v => zlen v = ts) l -> zlen (concat l) = zlen l * ts.
Proof. induction 1 as [|v l Hv _ IH]; [done|]. cbn. rewrite zlen_app, zlen_cons. lia. Qed.

Lemma stored_nth block off ts (l : list bytes) i v :
  Forall (fun v => zlen v = ts) l -> stored block off (concat l) -> l !! i = Some v -> read_bytes block (off + Z.of_nat i * ts) ts = Ok v.
Proof.
  intros Hl Hs Hi. destruct (list_elem_of_split_length _ _ _ Hi) as (l1 & l2 & -> & ->). rewrite concat_app in Hs. cbn in Hs.
  apply Forall_app in Hl as [Hl1 Hl2]. apply Forall_cons in Hl2 as [Hv _].
  apply stored_app in Hs as [_ Hs]. apply stored_app in Hs as [Hs _]. rewrite (zlen_concat ts) in Hs by done. apply stored_bytes_read in Hs. by rewrite Hv in Hs.
Qed.

Lemma holds_size data ts vals : holds data ts vals -> Forall (fun v => zlen v = ts) vals.
Proof. intros H. apply Forall_lookup. intros i v Hi%H. by eapply read_bytes_zlen. Qed.

Lemma holds_middle data ts pre v l : holds data ts (pre ++ v :: l) -> element data ts (zlen pre) = Ok v.
Proof. intros H. apply (H (length pre)). by apply list_lookup_middle. Qed.

(** A buffer that holds values starts with their bytes. *)
Lemma holds_stored data ts vals : holds data ts vals -> stored data 0 (concat vals).
Proof.
  intros H. pose proof (holds_size _ _ _ H) as Hsz. induction vals as [|v vals IH] using rev_ind; [exists [], data; done|].
  destruct IH as (pre & post & Hd & Hp).
  - intros i w Hi. apply H. by apply lookup_app_l_Some.
  - by apply Forall_app in Hsz as [? _].
  - destruct pre; [|rewrite zlen_cons in Hp; pose proof (zlen_nonneg pre); lia]. cbn in Hd.
    assert (Hv : element data ts (zlen vals) = Ok v) by (apply (H (length vals)); rewrite lookup_app_r, Nat.sub_diag by lia; done).
    apply Forall_app in Hsz as [Hsz _]. unfold element in Hv. rewrite Hd, read_bytes_skip in Hv by (rewrite (zlen_concat ts) by done; lia).
    rewrite (zlen_concat ts), Z.sub_diag in Hv by done. destruct (read_stored _ _ _ _ Hv) as (p & q & Hpq & Hp0).
    destruct p; [|rewrite zlen_cons in Hp0; pose proof (zlen_nonneg p); lia]. cbn in Hpq. subst post. rewrite concat_app. cbn. rewrite app_nil_r.
    exists [], q. split; [|done]. by rewrite Hd, <- app_assoc.
Qed.

(** ** The constant encoding *)

Lemma constant_loop_spec data ts v pre l :
  holds data ts (v :: pre ++ l) -> constant_loop data ts (1 + zlen pre) (length l) = Ok (bool_decide (Forall (eq v) l)).
Proof.
  revert pre. induction l as [|x l IH]; intros pre H; [done|]. cbn [length constant_loop].
  pose proof (H 0%nat v eq_refl) as H0. change (Z.of_nat 0) with 0 in H0. rewrite H0. cbn [mbind outcome_bind]. replace (1 + zlen pre) with (Z.of_nat (S (length pre))) by (unfold zlen; lia).
  rewrite (H (S (length pre)) x) by (by apply (list_lookup_middle (v :: pre))). cbn [mbind outcome_bind].
  destruct (decide (v = x)) as [<-|Hx]; [rewrite (bool_decide_true (v = v)) by done|rewrite (bool_decide_false (v = x)) by done].
  - replace (Z.of_nat (S (length pre)) + 1) with (1 + zlen (pre ++ [v])) by (rewrite zlen_app; unfold zlen; cbn; lia).
    rewrite IH by (by rewrite <- app_assoc). f_equal. apply bool_decide_ext. rewrite Forall_cons. naive_solver.
  - rewrite bool_decide_false; [done|]. rewrite Forall_cons. naive_solver.
Qed.

Lemma is_constant_data_spec data ts v l : holds data ts (v :: l) -> is_constant_data data ts (zlen (v :: l)) = Ok (bool_decide (Forall (eq v) l)).
Proof.
  intros H. unfold is_constant_data. rewrite zlen_cons.
  destruct (decide (zlen l + 1 <= 1)) as [Hc|Hc]; [rewrite (bool_decide_true (zlen l + 1 <= 1)) by done|rewrite (bool_decide_false (zlen l + 1 <= 1)) by done].
  - destruct l as [|x l]; [done|]. rewrite zlen_cons in Hc. pose proof (zlen_nonneg l). lia.
  - replace (Z.to_nat (zlen l + 1 - 1)) with (length l) by (unfold zlen; lia). apply (constant_loop_spec data ts v [] l H).
Qed.

(** ** Runs *)

(** The runs of [l] after [k] values [v]. *)
Fixpoint group (v : bytes) (k : Z) (l : list bytes) : list (bytes * Z) :=
  match l with
  | [] => [(v, k)]
  | x :: l => if bool_decide (v = x) then group v (k + 1) l else (v, k) :: group x 1 l
  end.

Definition expand (rs : list (bytes * Z)) : list bytes := concat (map (fun r => replicate (Z.to_nat r.2) r.1) rs).
Definition entries (rs : list (bytes * Z)) : bytes := concat (map (fun r => r.1 ++ write_le 4 r.2) rs).
Definition total (rs : list (bytes * Z)) : Z := zlen (expand rs).

Definition runs_ok (ts : Z) (rs : list (bytes * Z)) : Prop := Forall (fun r => zlen r.1 = ts /\ 1 <= r.2 < 2 ^ 32) rs.

Lemma expand_group v k l : 0 <= k -> expand (group v k l) = replicate (Z.to_nat k) v ++ l.
Proof.
  revert v k. induction l as [|x l IH]; intros v k Hk; cbn [group].
  - unfold expand. cbn. by rewrite app_nil_r.
  - case_bool_decide as Hx.
    + subst x. rewrite IH by lia. replace (Z.to_nat (k + 1)) with (S (Z.to_nat k)) by lia. by rewrite replicate_S_end, <- app_assoc.
    + unfold expand in *. cbn [map concat fst snd]. by rewrite IH by lia.
Qed.

Lemma length_group v k k' l : length (group v k l) = length (group v k' l).
Proof. revert v k k'. induction l as [|x l IH]; intros v k k'; cbn [group]; [done|]. case_bool_decide; [apply IH|done]. Qed.

Lemma length_group_pos v k l : (1 <= length (group v k l) <= S (length l))%nat.
Proof.
  revert v k. induction l as [|x l IH]; intros v k; cbn [group length]; [lia|]. case_bool_decide; [specialize (IH v (k + 1)); lia|].
  cbn [length]. specialize (IH x 1). lia.
Qed.

Lemma group_ok ts v k l : Forall (fun v => zlen v = ts) (v :: l) -> 1 <= k -> k + zlen l < 2 ^ 32 -> runs_ok ts (group v k l).
Proof.
  revert v k. induction l as [|x l IH]; intros v k Hl Hk Hb; cbn [group]; rewrite ?zlen_cons, ?zlen_nil in *.
  - constructor; [|constructor]. apply Forall_cons in Hl as [? _]. cbn. lia.
  - pose proof (zlen_nonneg l). apply Forall_cons in Hl as [Hv Hl]. case_bool_decide as Hx; [subst; apply IH; [done|lia..]|].
    constructor; [cbn; lia|]. apply IH; [done|lia..].
Qed.

Lemma total_app a b : total (a ++ b) = total a + total b.
Proof. unfold total, expand. by rewrite map_app, concat_app, zlen_app. Qed.

Lemma total_cons v k rs : 0 <= k -> total ((v, k) :: rs) = k + total rs.
Proof. intros Hk. unfold total, expand. cbn. rewrite zlen_app, zlen_replicate by done. done. Qed.

Lemma total_nonneg rs : 0 <= total rs.
Proof. apply zlen_nonneg. Qed.

Lemma zlen_entries ts rs : runs_ok ts rs -> zlen (entries rs) = zlen rs * (ts + 4).
Proof.
  induction 1 as [|[v k] rs [Hv _] _ IH]; [done|]. unfold entries in *. cbn in *. rewrite !zlen_app, zlen_write_le, zlen_cons, IH. lia.
Qed.

(** What [count_runs] counts. *)
Lemma runs_loop_spec data ts pre v l r :
  holds data ts (pre ++ v :: l) -> 0 <= r -> r + zlen l < 2 ^ 32 ->
  runs_loop data ts (zlen pre + 1) (length l) r = Ok (r + Z.of_nat (length (group v 1 l)) - 1).
Proof.
  revert pre v r. induction l as [|x l IH]; intros pre v r H Hr Hb; cbn [length runs_loop]; [cbn; f_equal; lia|].
  replace (zlen pre + 1 - 1) with (Z.of_nat (length pre)) by (unfold zlen; lia). rewrite (H (length pre) v) by (by apply list_lookup_middle).
  replace (zlen pre + 1) with (Z.of_nat (length (pre ++ [v]))) by (rewrite length_app; unfold zlen; cbn; lia).
  assert (H' : holds data ts ((pre ++ [v]) ++ x :: l)) by (by rewrite <- app_assoc).
  rewrite (H' _ x) by (by apply list_lookup_middle). cbn [mbind outcome_bind]. rewrite zlen_cons in Hb. pose proof (zlen_nonneg l).
  fold (zlen (pre ++ [v])). cbn [group]. destruct (decide (v = x)) as [<-|Hx].
  - rewrite !(bool_decide_true (v = v)) by done. rewrite (IH _ v) by (done || lia). by rewrite (length_group v (1 + 1) 1).
  - rewrite !(bool_decide_false (v = x)) by done. rewrite (IH _ x); [|done|rewrite wrap_small by (unfold in_width; lia); lia..].
    rewrite wrap_small by (unfold in_width; lia). cbn [length]. f_equal. lia.
Qed.

Lemma count_runs_spec data ts v l :
  holds data ts (v :: l) -> zlen l + 1 < 2 ^ 32 -> count_runs data ts (zlen (v :: l)) = Ok (zlen (group v 1 l)).
Proof.
  intros H Hb. unfold count_runs. rewrite zlen_cons. pose proof (zlen_nonneg l). rewrite bool_decide_false by lia.
  replace (Z.to_nat (zlen l + 1 - 1)) with (length l) by (unfold zlen; lia).
  pose proof (runs_loop_spec data ts [] v l 1 H ltac:(lia) ltac:(lia)) as Hl. change (zlen [] + 1) with 1 in Hl. rewrite Hl. f_equal. unfold zlen. lia.
Qed.

(** ** The run-length encoding *)

Lemma rle_loop_spec data ts pre v k l a b :
  holds data ts (pre ++ v :: l) -> 1 <= k -> k + zlen l < 2 ^ 32 -> zlen b = zlen (entries (group v k l)) ->
  rle_loop data ts (zlen (pre ++ v :: l)) (zlen pre + 1) (S (length l)) (a ++ b) (zlen a) k = Ok (a ++ entries (group v k l)).
Proof.
  revert pre v k a b. induction l as [|x l IH]; intros pre v k a b H Hk Hb Hz; cbn [rle_loop]; pose proof (holds_size _ _ _ H) as Hsz;
    apply Forall_app in Hsz as [_ Hsz]; apply Forall_cons in Hsz as [Hv _]; subst ts.
  all: replace (zlen pre + 1 - 1) with (Z.of_nat (length pre)) by (unfold zlen; lia); rewrite (H (length pre) v) by (by apply list_lookup_middle); cbn [mbind outcome_bind].
  - rewrite bool_decide_false by (rewrite zlen_app, zlen_cons, zlen_nil; lia). cbn [mbind outcome_bind].
    unfold entries in *. cbn [group map concat fst snd] in *. rewrite app_nil_r in *. rewrite <- (app_nil_r b).
    pose proof (blit_app (a ++ b ++ []) (zlen a) v (write_le 4 k)) as Hblit. rewrite (blit_mid a b [] (v ++ write_le 4 k)) in Hblit by done.
    destruct (blit _ _ v) as [d|]; cbn [mbind outcome_bind] in *; [|done]. rewrite Hblit. cbn [mbind outcome_bind]. by rewrite app_nil_r.
  - assert (H' : holds data (zlen v) ((pre ++ [v]) ++ x :: l)) by (by rewrite <- app_assoc).
    assert (Hi : Z.of_nat (length (pre ++ [v])) = zlen pre + 1) by (rewrite length_app; unfold zlen; cbn; lia). pose proof (zlen_nonneg l).
    rewrite bool_decide_true by (rewrite zlen_app, !zlen_cons; lia). rewrite <- Hi, (H' _ x) by (by apply list_lookup_middle). cbn [mbind outcome_bind].
    rewrite zlen_cons in Hb. replace (pre ++ v :: x :: l) with ((pre ++ [v]) ++ x :: l) by (by rewrite <- app_assoc). fold (zlen (pre ++ [v])). cbn [group] in *.
    destruct (decide (v = x)) as [<-|Hx].
    + rewrite !(bool_decide_true (v = v)) in * by done. rewrite wrap_small by (unfold in_width; lia). apply IH; [done|lia|lia|done].
    + rewrite !(bool_decide_false (v = x)) in * by done. change (entries ((v, k) :: group x 1 l)) with ((v ++ write_le 4 k) ++ entries (group x 1 l)) in *.
      rewrite zlen_app in Hz. pose proof (zlen_nonneg (entries (group x 1 l))). pose proof (zlen_nonneg (v ++ write_le 4 k)).
      set (m := Z.to_nat (zlen (v ++ write_le 4 k))). assert (Hb1 : zlen (take m b) = zlen (v ++ write_le 4 k)) by (unfold zlen in *; rewrite length_take; lia).
      rewrite <- (take_drop m b). pose proof (blit_app (a ++ take m b ++ drop m b) (zlen a) v (write_le 4 k)) as Hblit. rewrite (blit_mid a (take m b) (drop m b) (v ++ write_le 4 k)) in Hblit by done.
      destruct (blit _ _ v) as [d|]; cbn [mbind outcome_bind] in *; [|done]. rewrite Hblit. cbn [mbind outcome_bind].
      replace (zlen a + zlen v + 4) with (zlen (a ++ v ++ write_le 4 k)) by (rewrite !zlen_app, zlen_write_le; lia).
      rewrite !app_assoc, <- (app_assoc a v), (app_assoc a). rewrite IH; [by rewrite <- !app_assoc|done|lia|lia|].
      unfold zlen in *. rewrite length_drop. lia.
Qed.

(** The buffer: the number of runs and the runs. *)
Definition rle_bytes (rs : list (bytes * Z)) : bytes := write_le 4 (zlen rs) ++ entries rs.

Lemma build_rle_buffer_spec data ts v l :
  holds data ts (v :: l) -> zlen l + 1 < 2 ^ 32 -> ts < 2 ^ 31 -> build_rle_buffer data ts (zlen (v :: l)) = Ok (rle_bytes (group v 1 l)).
Proof.
  intros H Hb Hts. pose proof (zlen_nonneg l). pose proof (holds_size _ _ _ H) as Hsz. assert (Hv : zlen v = ts) by (by apply Forall_cons in Hsz as [? _]).
  pose proof (length_group_pos v 1 l) as Hg. pose proof (group_ok ts v 1 l Hsz ltac:(lia) ltac:(lia)) as Hok.
  unfold build_rle_buffer. rewrite bool_decide_false by (rewrite zlen_cons; lia). rewrite count_runs_spec by done. cbn [mbind outcome_bind].
  set (rs := group v 1 l) in *. assert (Hn : 0 <= zlen rs < 2 ^ 32) by (unfold zlen in *; lia). pose proof (zlen_nonneg v).
  assert (Hz : 4 + zlen rs * (ts + 4) = zlen (rle_bytes rs)) by (unfold rle_bytes; rewrite zlen_app, (zlen_entries ts), zlen_write_le by done; lia).
  rewrite wrap_small by (unfold in_width; nia). rewrite Hz. unfold rle_bytes at 1. rewrite zlen_app, zlen_write_le.
  set (z := zeros _). assert (Hzz : zlen z = 4 + zlen (entries rs)) by (unfold z; rewrite zlen_zeros by (pose proof (zlen_nonneg (entries rs)); lia); lia).
  rewrite <- (take_drop 4 z). pose proof (zlen_nonneg (entries rs)). assert (Ht : zlen (take 4 z) = 4) by (unfold zlen in *; rewrite length_take; lia).
  rewrite blit_start by (by rewrite zlen_write_le). cbn [mbind outcome_bind].
  replace (Z.to_nat (zlen (v :: l))) with (S (length l)) by (rewrite zlen_cons; unfold zlen; lia).
  pose proof (rle_loop_spec data ts [] v 1 l (write_le 4 (zlen rs)) (drop 4 z) H) as Hloop. cbn [app] in Hloop. rewrite zlen_write_le in Hloop. apply Hloop; [lia|lia|].
  fold rs. unfold zlen in *. rewrite length_drop. lia.
Qed.

(** ** Copies *)

Lemma concat_replicate_zlen (v : bytes) n : zlen (concat (replicate n v)) = Z.of_nat n * zlen v.
Proof. rewrite (zlen_concat (zlen v)) by (by apply Forall_replicate). unfold zlen at 1. by rewrite length_replicate. Qed.

Lemma copy_value_spec dest at_ v n :
  0 <= at_ -> at_ + Z.of_nat n * zlen v <= zlen dest -> copy_value dest at_ v n = blit dest at_ (concat (replicate n v)).
Proof.
  revert dest at_. induction n as [|n IH]; intros dest at_ Hat Hroom; cbn [copy_value replicate concat].
  - rewrite blit_nil by lia. done.
  - pose proof (zlen_nonneg v). destruct (blit_ok dest at_ v) as (d & Hd & Hzd); [lia|lia|]. rewrite Hd. cbn [mbind outcome_bind]. rewrite IH by lia.
    rewrite <- blit_app, Hd. done.
Qed.

(** ** Reading runs *)

Section rle_read.
Context (block : bytes) (off ts : Z) (rs : list (bytes * Z)).
Context (Hst : stored block off (rle_bytes rs)) (Hok : runs_ok ts rs) (Hlen : zlen rs < 2 ^ 32).

Lemma rle_count : read_le 4 block off = Ok (zlen rs).
Proof. apply stored_le; [by apply stored_app in Hst as [? _]|]. pose proof (zlen_nonneg rs). done. Qed.

Lemma rle_entry pre v k rest :
  rs = pre ++ (v, k) :: rest ->
  read_bytes block (off + 4 + zlen pre * (ts + 4)) ts = Ok v /\ read_le 4 block (off + 4 + zlen pre * (ts + 4) + ts) = Ok k.
Proof.
  intros E. pose proof Hok as Ho. rewrite E in Ho. apply Forall_app in Ho as [Hpre Ho]. apply Forall_cons in Ho as [[Hv Hk] _]. cbn in Hv, Hk.
  apply stored_app in Hst as [_ Hs]. rewrite zlen_write_le, E in Hs. unfold entries in Hs. rewrite map_app, concat_app in Hs. cbn [map concat fst snd] in Hs.
  apply stored_app in Hs as [_ Hs]. apply stored_app in Hs as [Hs _]. fold (entries pre) in Hs. rewrite (zlen_entries ts) in Hs by done. change (Z.of_nat 4) with 4 in Hs.
  apply stored_app in Hs as [Hs1 Hs2]. rewrite Hv in Hs2. apply stored_bytes_read in Hs1. rewrite Hv in Hs1. split; [done|]. apply stored_le; [done|]. change (8 * Z.of_nat 4) with 32. lia.
Qed.

Lemma runs_pos pre rest : rs = pre ++ rest -> runs_ok ts pre /\ runs_ok ts rest.
Proof. intros E. pose proof Hok as Ho. rewrite E in Ho. by apply Forall_app in Ho. Qed.

Lemma rle_skip_spec row rest pre :
  rs = pre ++ rest -> total pre <= row < total rs ->
  exists rs1 v k rs2, rs = rs1 ++ (v, k) :: rs2 /\ total rs1 <= row < total rs1 + k /\
    rle_skip block (off + 4) ts (zlen rs) row (zlen pre) (total pre) (length rest) = Ok (zlen rs1, total rs1).
Proof.
  revert pre. induction rest as [|[v k] rest IH]; intros pre E Hrow; [rewrite E, app_nil_r in Hrow; lia|].
  cbn [length rle_skip]. destruct (rle_entry pre v k rest E) as [_ Hk]. destruct (runs_pos pre _ E) as [_ Hr]. apply Forall_cons in Hr as [[_ Hk1] _]. cbn in Hk1.
  rewrite bool_decide_true by (rewrite E, zlen_app, zlen_cons; pose proof (zlen_nonneg rest); lia). rewrite Hk. cbn [mbind outcome_bind].
  case_bool_decide as Hc; [exists pre, v, k, rest; split_and!; [done|lia|lia|done]|].
  destruct (IH (pre ++ [(v, k)])) as (rs1 & v1 & k1 & rs2 & E1 & H1 & H2); [by rewrite <- app_assoc|rewrite total_app, total_cons by lia; change (total []) with 0; lia|].
  exists rs1, v1, k1, rs2. split_and!; [done|lia|lia|]. rewrite total_app, total_cons, zlen_app in H2 by lia. change (total []) with 0 in H2. change (zlen [(v, k)]) with 1 in H2. by rewrite Z.add_0_r in H2.
Qed.

Lemma rle_emit_spec n dest at_ emitted pos pre rest :
  rs = pre ++ rest -> 0 <= pos -> (forall v k r, rest = (v, k) :: r -> pos < k) -> 0 <= emitted <= n -> n - emitted <= zlen (drop (Z.to_nat pos) (expand rest)) ->
  0 <= at_ -> at_ + (n - emitted) * ts <= zlen dest -> 0 <= ts ->
  rle_emit block (off + 4) ts (zlen rs) n dest at_ emitted (zlen pre) pos (length rest) =
    blit dest at_ (concat (take (Z.to_nat (n - emitted)) (drop (Z.to_nat pos) (expand rest)))).
Proof.
  revert dest at_ emitted pos pre. induction rest as [|[v k] rest IH]; intros dest at_ emitted pos pre E Hpos Hlt Hem Hn Hat Hroom Hts; cbn [length rle_emit].
  { unfold expand in *. cbn in *. rewrite drop_nil in *. rewrite take_nil. cbn in *. change (zlen []) with 0 in Hn. rewrite blit_nil by nia. done. }
  specialize (Hlt v k rest eq_refl). destruct (runs_pos pre _ E) as [_ Hr]. apply Forall_cons in Hr as [[Hv Hk1] Hr]. cbn in Hv, Hk1.
  destruct (decide (emitted = n)) as [->|Hne].
  { rewrite bool_decide_false by lia. rewrite Z.sub_diag in *. cbn. rewrite blit_nil by lia. done. }
  rewrite bool_decide_true by (rewrite E, zlen_app, zlen_cons; pose proof (zlen_nonneg rest); lia).
  destruct (rle_entry pre v k rest E) as [-> ->]. cbn [mbind outcome_bind]. rewrite wrap_small by (unfold in_width; lia).
  change (expand ((v, k) :: rest)) with (replicate (Z.to_nat k) v ++ expand rest) in *.
  rewrite drop_app_le, drop_replicate in * by (rewrite length_replicate; lia). replace (Z.to_nat k - Z.to_nat pos)%nat with (Z.to_nat (k - pos)) in * by lia.
  set (m := Z.min (k - pos) (n - emitted)).
  assert (Hroom' : at_ + m * ts <= zlen dest) by (unfold m; nia).
  rewrite copy_value_spec by (try lia; rewrite Hv, Z2Nat.id by (unfold m; lia); lia).
  destruct (blit_ok dest at_ (concat (replicate (Z.to_nat m) v))) as (d & Hd & Hzd); [lia|rewrite concat_replicate_zlen, Hv, Z2Nat.id by (unfold m; lia); lia|].
  rewrite Hd. cbn [mbind outcome_bind]. replace (zlen pre + 1) with (zlen (pre ++ [(v, k)])) by (rewrite zlen_app; done).
  rewrite zlen_app, zlen_replicate in Hn by lia.
  rewrite IH; [|by rewrite <- app_assoc|lia| |unfold m; lia| |nia|rewrite Hzd; unfold m; nia|done].
  - rewrite drop_0. replace (at_ + m * ts) with (at_ + zlen (concat (replicate (Z.to_nat m) v))) by (rewrite concat_replicate_zlen, Hv, Z2Nat.id by (unfold m; lia); lia).
    change (blit d ?x ?y) with ((fun d => blit d x y) d). transitivity (blit dest at_ (concat (replicate (Z.to_nat m) v)) ≫= fun d => blit d (at_ + zlen (concat (replicate (Z.to_nat m) v))) (concat (take (Z.to_nat (n - (emitted + m))) (expand rest)))); [by rewrite Hd|].
    rewrite blit_app, <- concat_app. do 2 f_equal. rewrite take_app, take_replicate, length_replicate. f_equal; [f_equal; unfold m; lia|]. f_equal. unfold m. lia.
  - intros v' k' r ->. apply Forall_cons in Hr as [[_ ?] _]. cbn in *. lia.
  - rewrite drop_0. pose proof (zlen_nonneg (expand rest)). unfold m. lia.
Qed.

End rle_read.

(** ** Segments that read back *)

(** Reads of single rows and scans of any range of rows return the values. *)
Definition reads_back (seg : column_segment_t) (block : bytes) (vals : list bytes) : Prop :=
  (forall i v dest idx, vals !! i = Some v -> fetch_row seg block (start seg + Z.of_nat i) dest idx = blit dest (idx * type_size seg) v) /\
  (forall row n dest ro, (row < length vals)%nat -> (row + n <= length vals)%nat -> 0 <= ro -> (ro + Z.of_nat n) * type_size seg <= zlen dest ->
     scan_partial seg block (start seg + Z.of_nat row) (Z.of_nat n) dest ro = blit dest (ro * type_size seg) (concat (take n (drop row vals)))).

Lemma relative_row seg row : Z.of_nat row <= count seg -> relative_index seg (start seg + Z.of_nat row) = Ok (Z.of_nat row).
Proof. intros H. unfold relative_index. rewrite bool_decide_true by lia. f_equal. lia. Qed.

Lemma constant_reads_back seg block v n :
  compression_ seg = CONSTANT -> zlen v = type_size seg -> stored block (offset_ seg) v -> reads_back seg block (replicate n v).
Proof.
  intros Hc Hv Hs. apply stored_bytes_read in Hs. rewrite Hv in Hs. split.
  - intros i w dest idx [-> _]%lookup_replicate. unfold fetch_row. rewrite Hc. unfold constant_fetch_row. by rewrite Hs.
  - intros row m dest ro Hr Hm Hro Hroom. rewrite length_replicate in *. unfold scan_partial. rewrite Hc. unfold constant_scan_partial. rewrite Hs. cbn [mbind outcome_bind].
    rewrite Nat2Z.id. pose proof (zlen_nonneg v). rewrite copy_value_spec by (rewrite ?Hv; nia). rewrite drop_replicate, take_replicate. do 4 f_equal. lia.
Qed.

Lemma rle_fetch_spec block off ts rs row rest pre i v :
  stored block off (rle_bytes rs) -> runs_ok ts rs -> zlen rs < 2 ^ 32 -> rs = pre ++ rest -> row = total pre + Z.of_nat i -> expand rest !! i = Some v ->
  rle_fetch_loop block (off + 4) ts row (zlen pre) (total pre) (length rest) = Ok (Some v).
Proof.
  intros Hst Hok Hlen. revert pre i. induction rest as [|[w k] rest IH]; intros pre i E Hrow Hi; [done|]. cbn [length rle_fetch_loop].
  destruct (rle_entry block off ts rs Hst Hok pre w k rest E) as [Hw Hk]. destruct (runs_pos ts rs Hok pre _ E) as [_ Hr]. apply Forall_cons in Hr as [[_ Hk1] _]. cbn in Hk1.
  rewrite Hk. cbn [mbind outcome_bind]. change (expand ((w, k) :: rest)) with (replicate (Z.to_nat k) w ++ expand rest) in Hi.
  case_bool_decide as Hc.
  - rewrite Hw. cbn [mbind outcome_bind]. rewrite lookup_app_l in Hi by (rewrite length_replicate; lia). by apply lookup_replicate in Hi as [-> _].
  - replace (zlen pre + 1) with (zlen (pre ++ [(w, k)])) by (rewrite zlen_app; done).
    replace (total pre + k) with (total (pre ++ [(w, k)])) by (rewrite total_app, total_cons by lia; change (total []) with 0; lia).
    rewrite lookup_app_r, length_replicate in Hi by (rewrite length_replicate; lia). apply (IH _ (i - Z.to_nat k)%nat); [by rewrite <- app_assoc| |done].
    rewrite total_app, total_cons by lia. change (total []) with 0. lia.
Qed.

Lemma rle_reads_back seg block rs :
  compression_ seg = RLE -> 0 <= type_size seg -> count seg = total rs -> stored block (offset_ seg) (rle_bytes rs) -> runs_ok (type_size seg) rs -> zlen rs < 2 ^ 32 -> total rs < 2 ^ 64 ->
  reads_back seg block (expand rs).
Proof.
  intros Hc Hts Hcount Hst Hok Hlen Htot. split.
  - intros i v dest idx Hi. unfold fetch_row. rewrite Hc. unfold rle_fetch_row. rewrite (rle_count _ _ _ Hst Hlen). cbn [mbind outcome_bind].
    replace (start seg + Z.of_nat i - start seg) with (Z.of_nat i) by lia. replace (Z.to_nat (zlen rs)) with (length rs) by (unfold zlen; lia).
    pose proof (rle_fetch_spec block (offset_ seg) (type_size seg) rs (Z.of_nat i) rs [] i v Hst Hok Hlen eq_refl) as Hf. change (total []) with 0 in Hf. change (zlen []) with 0 in Hf.
    rewrite Hf by (done || lia). done.
  - intros row n dest ro Hr Hn Hro Hroom. unfold scan_partial. rewrite Hc. assert (Hrow : Z.of_nat row < total rs) by (unfold total, zlen; lia).
    rewrite relative_row by lia. cbn [mbind outcome_bind]. unfold rle_scan_partial. rewrite (rle_count _ _ _ Hst Hlen). cbn [mbind outcome_bind].
    destruct (rle_skip_spec block (offset_ seg) (type_size seg) rs Hst Hok (Z.of_nat row) rs [] eq_refl) as (rs1 & v & k & rs2 & E & Hb & Hs); [change (total []) with 0; lia|].
    change (total []) with 0 in Hs. change (zlen []) with 0 in Hs. replace (Z.to_nat (zlen rs)) with (length rs) by (unfold zlen; lia). rewrite Hs. cbn [mbind outcome_bind].
    pose proof (total_nonneg rs1). rewrite wrap_small by (unfold in_width; lia).
    replace (Z.to_nat (zlen rs - zlen rs1)) with (length ((v, k) :: rs2)) by (rewrite E, zlen_app; unfold zlen; lia).
    assert (Hx : expand rs = expand rs1 ++ expand ((v, k) :: rs2)) by (by rewrite E; unfold expand; rewrite map_app, concat_app).
    assert (Hd : drop (Z.to_nat (Z.of_nat row - total rs1)) (expand ((v, k) :: rs2)) = drop row (expand rs)).
    { rewrite Hx, drop_app_ge by (unfold total, zlen in *; lia). f_equal. unfold total, zlen in *. lia. }
    rewrite (rle_emit_spec block (offset_ seg) (type_size seg) rs Hst Hok); [| done|lia| |lia| |nia|nia|done].
    + rewrite Hd. rewrite Z.sub_0_r, Nat2Z.id. done.
    + intros v' k' r [= <- <- <-]. lia.
    + rewrite Hd. unfold zlen. rewrite length_drop. lia.
Qed.

(** ** The dictionary *)

(** The map sends each of the distinct values [ks] to its position. *)
Definition indexes (m : gmap bytes Z) (ks : list bytes) : Prop :=
  NoDup ks /\ size m = length ks /\ forall key i, m !! key = Some i <-> ks !!z i = Some key.

Lemma indexes_empty : indexes ∅ [].
Proof.
  split; [constructor|]. split; [apply map_size_empty|]. intros key i. rewrite lookup_empty. unfold zget. by case_bool_decide.
Qed.

Lemma zget_app_end {A} (l : list A) x i y : (l ++ [x]) !!z i = Some y <-> l !!z i = Some y \/ (i = zlen l /\ x = y).
Proof.
  rewrite !zget_Some, lookup_app. destruct (l !! Z.to_nat i) eqn:E.
  - pose proof (lookup_lt_Some _ _ _ E). unfold zlen. naive_solver lia.
  - apply lookup_ge_None in E. unfold zlen. destruct (Z.to_nat i - length l)%nat eqn:e; cbn; naive_solver lia.
Qed.

Lemma indexes_insert m ks key : indexes m ks -> m !! key = None -> indexes (<[key := zlen ks]> m) (ks ++ [key]).
Proof.
  intros (Hnd & Hsz & Hm) Hk.
  assert (Hni : key ∉ ks).
  { intros [i Hi]%list_elem_of_lookup. assert (ks !!z Z.of_nat i = Some key) as Hz%Hm by (apply zget_Some; rewrite Nat2Z.id; split; [lia|done]). congruence. }
  split; [apply NoDup_app; split_and!; [done|set_solver|apply NoDup_singleton]|]. split; [rewrite map_size_insert_None, Hsz, length_app by done; cbn; lia|].
  intros key' i. rewrite zget_app_end, lookup_insert. case_decide as Hd.
  - subst key'. split; [intros [= <-]; by right|]. intros [Hz%Hm|[-> _]]; [congruence|done].
  - rewrite Hm. naive_solver.
Qed.

Lemma dict_loop_spec data ts vals pre m ks :
  holds data ts (pre ++ vals) -> indexes m ks -> zlen ks <= MAX_DICT_ENTRIES -> Forall (fun v => v ∈ ks) pre -> Forall (fun v => zlen v = ts) ks ->
  exists o, dict_loop data ts (zlen pre) (length vals) m = Ok o /\
    match o with
    | None => True
    | Some r => exists ks', indexes r ks' /\ zlen ks' <= MAX_DICT_ENTRIES /\ Forall (fun v => v ∈ ks') (pre ++ vals) /\ Forall (fun v => zlen v = ts) ks'
    end.
Proof.
  revert pre m ks. induction vals as [|v vals IH]; intros pre m ks H Hm Hb Hpre Hts; cbn [length dict_loop].
  { exists (Some m). split; [done|]. exists ks. by rewrite app_nil_r. }
  pose proof (holds_size _ _ _ H) as Hsv. apply Forall_app in Hsv as [_ Hsv]. apply Forall_cons in Hsv as [Hsv _].
  rewrite (holds_middle _ _ _ _ _ H). cbn [mbind outcome_bind].
  replace (zlen pre + 1) with (zlen (pre ++ [v])) by (rewrite zlen_app; done). replace (pre ++ v :: vals) with ((pre ++ [v]) ++ vals) in * by (by rewrite <- app_assoc).
  destruct Hm as (Hnd & Hsz & Hm). destruct (m !! v) as [i|] eqn:Ev.
  - apply (IH _ m ks); [done|done|done| |done]. apply Forall_app. split; [done|]. constructor; [|constructor]. apply Hm, zget_Some in Ev as [_ Ev]. by eapply list_elem_of_lookup_2.
  - case_bool_decide as Hc; [by exists None|]. rewrite Hsz in *. fold (zlen ks) in *. unfold MAX_DICT_ENTRIES in *.
    rewrite wrap_small by (unfold in_width; pose proof (zlen_nonneg ks); lia).
    apply (IH _ _ (ks ++ [v])); [done|by apply indexes_insert|rewrite zlen_app; change (zlen [v]) with 1; lia|..].
    + apply Forall_app. split; [|constructor; [set_solver|constructor]]. eapply Forall_impl; [done|]. set_solver.
    + apply Forall_app. split; [done|]. by constructor.
Qed.

Lemma order_keys_spec ks l o :
  Forall (fun p => 0 <= p.2 < zlen o /\ ks !!z p.2 = Some p.1) l ->
  exists o', order_keys l o = Ok o' /\ zlen o' = zlen o /\ (forall j, (forall key, (key, j) ∉ l) -> o' !!z j = o !!z j) /\ forall key j, (key, j) ∈ l -> o' !!z j = Some (Some key).
Proof.
  revert o. induction l as [|[key i] l IH]; intros o Hl; cbn [order_keys]; [exists o; set_solver|].
  apply Forall_cons in Hl as [[Hi Hki] Hl]. cbn in Hi, Hki. rewrite bool_decide_true by done.
  destruct (IH (zset i (Some key) o)) as (o' & H1 & H2 & H3 & H4); [by rewrite zlen_zset|]. exists o'. rewrite zlen_zset in H2. split_and!; [done|done|..].
  - intros j Hj. rewrite H3 by set_solver. rewrite zget_zset, decide_False; [done|]. intros [-> _]. by apply (Hj key); left.
  - intros key' j [[= -> ->]|Hin]%elem_of_cons; [|by apply H4]. destruct (decide ((key, i) ∈ l)) as [Hin|Hno]; [by apply H4|].
    rewrite H3; [by rewrite zget_zset, decide_True|]. intros key' Hin. rewrite Forall_forall in Hl. destruct (Hl _ Hin) as [_ Hk']. cbn in Hk'. congruence.
Qed.

Lemma order_keys_all m ks : indexes m ks -> order_keys (map_to_list m) (replicate (length ks) None) = Ok (Some <$> ks).
Proof.
  intros (Hnd & Hsz & Hm). destruct (order_keys_spec ks (map_to_list m) (replicate (length ks) None)) as (o & -> & Hlen & _ & Ho).
  - apply Forall_forall. intros [key i] Hin%elem_of_map_to_list%Hm. cbn. split; [|done]. pose proof (zget_Some_lt _ _ _ Hin). unfold zlen in *. by rewrite length_replicate.
  - f_equal. apply zlist_eq; [rewrite zlen_fmap, Hlen; unfold zlen; by rewrite length_replicate|]. intros i Hi. rewrite zget_fmap.
    assert (Hik : 0 <= i < zlen ks) by (rewrite Hlen in Hi; unfold zlen in *; by rewrite length_replicate in Hi). destruct (zget_is_Some ks i Hik) as [key Hkey]. rewrite Hkey. cbn.
    apply Ho, elem_of_map_to_list, Hm, Hkey.
Qed.

Lemma dict_values_spec ts ks a b c :
  Forall (fun v => zlen v = ts) ks -> zlen b = zlen (concat ks) ->
  dict_values (Some <$> ks) (a ++ b ++ c) (zlen a) ts = Ok (a ++ concat ks ++ c, zlen a + zlen (concat ks)).
Proof.
  intros Hk. revert a b. induction Hk as [|k ks Hk Hks IH]; intros a b Hb; cbn [fmap list_fmap dict_values concat] in *.
  - destruct b; [|rewrite zlen_cons in Hb; change (zlen []) with 0 in Hb; pose proof (zlen_nonneg b0); lia]. cbn. by rewrite Z.add_0_r.
  - rewrite zlen_app in Hb. pose proof (zlen_nonneg (concat ks)). pose proof (zlen_nonneg k). set (m := Z.to_nat (zlen k)).
    assert (Hm : zlen (take m b) = zlen k) by (unfold zlen in *; rewrite length_take; lia). rewrite <- (take_drop m b), <- (app_assoc (take m b)), (blit_mid a (take m b) _ k) by done.
    cbn [mbind outcome_bind]. replace (zlen a + ts) with (zlen (a ++ k)) by (rewrite zlen_app; lia). rewrite app_assoc, IH by (unfold zlen in *; rewrite length_drop; lia).
    rewrite <- !app_assoc, !zlen_app. do 2 f_equal. lia.
Qed.

Lemma zlen_index_bytes w (ixs : list Z) : zlen (concat (write_le w <$> ixs)) = zlen ixs * Z.of_nat w.
Proof. rewrite (zlen_concat (Z.of_nat w)), zlen_fmap; [done|]. apply Forall_fmap, Forall_forall. intros i _. apply zlen_write_le. Qed.

Lemma dict_indices_spec data ts vals pre m ks u8_ a b :
  holds data ts (pre ++ vals) -> indexes m ks -> Forall (fun v => v ∈ ks) vals -> (u8_ = true -> zlen ks <= 256) ->
  zlen b = zlen vals * (if u8_ then 1 else 2) ->
  exists ixs, Forall2 (fun i v => ks !!z i = Some v) ixs vals /\
    dict_indices data ts (zlen pre) (length vals) m u8_ (a ++ b) (zlen a) = Ok (a ++ concat (write_le (if u8_ then 1%nat else 2%nat) <$> ixs)).
Proof.
  intros H Hm Hv Hu. revert pre a b H. induction Hv as [|v vals Hv Hvals IH]; intros pre a b H Hb; cbn [length dict_indices].
  - exists []. split; [constructor|]. change (zlen []) with 0 in Hb. destruct b; [done|]. rewrite zlen_cons in Hb. pose proof (zlen_nonneg b0). lia.
  - rewrite (holds_middle _ _ _ _ _ H). cbn [mbind outcome_bind].
    apply list_elem_of_lookup in Hv as [j Hj]. assert (Hz : ks !!z Z.of_nat j = Some v) by (apply zget_Some; rewrite Nat2Z.id; split; [lia|done]).
    rewrite (proj2 (proj2 (proj2 Hm) v (Z.of_nat j)) Hz). cbn [of_option mbind outcome_bind].
    set (w := if u8_ then 1%nat else 2%nat). assert (Hw : Z.of_nat w = if u8_ then 1 else 2) by (by destruct u8_). rewrite zlen_cons in Hb. pose proof (zlen_nonneg vals).
    assert (Hu8 : (if u8_ then u8 (Z.of_nat j) else Z.of_nat j) = Z.of_nat j).
    { destruct u8_; [|done]. apply wrap_small. unfold in_width. pose proof (lookup_lt_Some _ _ _ Hj). specialize (Hu eq_refl). unfold zlen in Hu. lia. }
    rewrite Hu8. assert (Ht : zlen (take w b) = Z.of_nat w) by (unfold zlen in *; rewrite length_take; nia).
    rewrite <- (take_drop w b), (blit_mid a (take w b) (drop w b) (write_le w (Z.of_nat j))) by (by rewrite zlen_write_le). cbn [mbind outcome_bind].
    replace (zlen pre + 1) with (zlen (pre ++ [v])) by (rewrite zlen_app; done). replace (zlen a + Z.of_nat w) with (zlen (a ++ write_le w (Z.of_nat j))) by (rewrite zlen_app, zlen_write_le; lia).
    rewrite app_assoc. destruct (IH (pre ++ [v]) (a ++ write_le w (Z.of_nat j)) (drop w b)) as (ixs & H1 & H2); [by rewrite <- app_assoc|unfold zlen in *; rewrite length_drop; nia|].
    rewrite H2. exists (Z.of_nat j :: ixs). split; [by constructor|]. cbn [fmap list_fmap concat]. by rewrite <- app_assoc.
Qed.

(** The buffer: the number of values, the values, an index for each row. *)
Definition index_width (ks : list bytes) : nat := if bool_decide (zlen ks <= 256) then 1%nat else 2%nat.
Definition dict_bytes (ks : list bytes) (ixs : list Z) : bytes := write_le 2 (zlen ks) ++ concat ks ++ concat (write_le (index_width ks) <$> ixs).

(** What [analyze_dictionary] finds, and the buffer that is built from it. *)
Lemma dictionary_spec data ts vals :
  holds data ts vals -> vals <> [] -> zlen vals < 2 ^ 32 -> 0 <= ts < 2 ^ 31 ->
  exists an, analyze_dictionary data ts (zlen vals) = Ok an /\
    (num_unique an = 0 \/
     exists ks ixs, build_dict_buffer data ts (zlen vals) an = Ok (dict_bytes ks ixs) /\ compressed_size an = zlen (dict_bytes ks ixs) /\
       Forall2 (fun i v => ks !!z i = Some v) ixs vals /\ zlen ks <= MAX_DICT_ENTRIES /\ Forall (fun v => zlen v = ts) ks).
Proof.
  intros H Hne Hb Hts. unfold analyze_dictionary. pose proof (zlen_nonneg vals).
  rewrite bool_decide_false by (destruct vals; [done|]; rewrite zlen_cons; pose proof (zlen_nonneg vals); lia).
  destruct (dict_loop_spec data ts vals [] ∅ [] H indexes_empty) as (o & Ho & Hr); [done|constructor|constructor|]. change (zlen []) with 0 in Ho.
  replace (Z.to_nat (zlen vals)) with (length vals) by (unfold zlen; lia). rewrite Ho. cbn [mbind outcome_bind]. destruct o as [m|]; [|by eexists; split; [done|left]].
  destruct Hr as (ks & Hm & Hk & Hin & Hs). destruct Hm as (Hnd & Hsz & Hm). rewrite Hsz. fold (zlen ks). unfold MAX_DICT_ENTRIES in Hk. pose proof (zlen_nonneg ks).
  rewrite (wrap_small 16 (zlen ks)) by (unfold in_width; lia). eexists. split; [done|]. right. unfold build_dict_buffer. cbn [num_unique compressed_size value_map].
  replace (Z.to_nat (zlen vals)) with (length vals) by (unfold zlen; lia).
  set (u8_ := bool_decide (zlen ks <= 256)). set (wd := if u8_ then 1 else 2). assert (Hwd : 1 <= wd <= 2) by (unfold wd; destruct u8_; lia).
  rewrite wrap_small by (unfold in_width; nia).
  set (z := zeros _). assert (Hz : zlen z = 2 + zlen ks * ts + zlen vals * wd) by (unfold z; rewrite zlen_zeros; nia).
  assert (Hck : zlen (concat ks) = zlen ks * ts) by (by apply zlen_concat).
  rewrite <- (take_drop 2 z). assert (Ht : zlen (take 2 z) = 2) by (unfold zlen in *; rewrite length_take; nia).
  rewrite blit_start by (by rewrite zlen_write_le). cbn [mbind outcome_bind].
  replace (Z.to_nat (zlen ks)) with (length ks) by (unfold zlen; lia). rewrite order_keys_all by done. cbn [mbind outcome_bind].
  set (d := drop 2 z). set (n := Z.to_nat (zlen ks * ts)). assert (Hd : zlen d = zlen ks * ts + zlen vals * wd) by (unfold d, zlen in *; rewrite length_drop; lia).
  rewrite <- (take_drop n d). pose proof (dict_values_spec ts ks (write_le 2 (zlen ks)) (take n d) (drop n d) Hs) as Hv. rewrite zlen_write_le in Hv. change (Z.of_nat 2) with 2 in Hv.
  rewrite Hv by (rewrite Hck; unfold n, zlen in *; rewrite length_take; nia). cbn [mbind outcome_bind]. rewrite app_assoc.
  replace (2 + zlen (concat ks)) with (zlen (write_le 2 (zlen ks) ++ concat ks)) by (rewrite zlen_app, zlen_write_le; done).
  destruct (dict_indices_spec data ts vals [] m ks u8_ (write_le 2 (zlen ks) ++ concat ks) (drop n d)) as (ixs & Hi & Hx); [done|done|done|unfold u8_; by intros ?%bool_decide_eq_true|fold wd; unfold n, zlen in *; rewrite length_drop; nia|].
  change (zlen []) with 0 in Hx. rewrite Hx. exists ks, ixs. split_and!; [|..]; unfold dict_bytes, index_width; fold u8_; [by rewrite <- app_assoc| |done|done|done].
  rewrite !zlen_app, zlen_write_le, zlen_index_bytes, Hck. apply Forall2_length in Hi. unfold wd. unfold zlen. rewrite Hi. destruct u8_; lia.
Qed.

Lemma dict_reads_back seg block ks ixs vals :
  compression_ seg = DICTIONARY -> count seg = zlen vals -> stored block (offset_ seg) (dict_bytes ks ixs) -> zlen ks <= MAX_DICT_ENTRIES ->
  Forall (fun v => zlen v = type_size seg) ks -> Forall2 (fun i v => ks !!z i = Some v) ixs vals -> reads_back seg block vals.
Proof.
  intros Hc Hcount Hst Hk Hs Hi. unfold MAX_DICT_ENTRIES in Hk. pose proof (zlen_nonneg ks).
  unfold dict_bytes in Hst. apply stored_app in Hst as [Hn Hst]. apply stored_app in Hst as [Hv Hx]. rewrite zlen_write_le in Hv, Hx. change (Z.of_nat 2) with 2 in Hv, Hx.
  rewrite (zlen_concat (type_size seg)) in Hx by done. assert (Hnum : read_le 2 block (offset_ seg) = Ok (zlen ks)) by (apply stored_le; [done|cbn; lia]).
  assert (Hval : forall i v, vals !! i = Some v -> exists j, read_le (index_width ks) block (offset_ seg + 2 + zlen ks * type_size seg + Z.of_nat i * Z.of_nat (index_width ks)) = Ok j /\
    read_bytes block (offset_ seg + 2 + j * type_size seg) (type_size seg) = Ok v).
  { intros i v Hiv. destruct (Forall2_lookup_r _ _ _ _ _ Hi Hiv) as (j & Hj & Hjv). exists j. pose proof (zget_Some_lt _ _ _ Hjv) as Hjr. split.
    - unfold read_le. rewrite (stored_nth _ _ (Z.of_nat (index_width ks)) (write_le (index_width ks) <$> ixs) i (write_le (index_width ks) j)).
      + cbn. f_equal. apply le_combine_write. unfold index_width. case_bool_decide; cbn; lia.
      + apply Forall_fmap, Forall_forall. intros ? _. apply zlen_write_le.
      + done.
      + by rewrite list_lookup_fmap, Hj.
    - apply zget_Some in Hjv as [Hj0 Hjv]. rewrite <- (Z2Nat.id j) by done. by apply (stored_nth _ _ _ ks). }
  split.
  - intros i v dest idx Hiv. unfold fetch_row. rewrite Hc. unfold dict_fetch_row. rewrite Hnum. cbn [mbind outcome_bind]. fold (index_width ks).
    destruct (Hval i v Hiv) as (j & Hj & Hjv). replace (start seg + Z.of_nat i - start seg) with (Z.of_nat i) by lia. rewrite Hj. cbn [mbind outcome_bind]. by rewrite Hjv.
  - intros row n dest ro Hr Hm Hro Hroom. unfold scan_partial. rewrite Hc, relative_row by (unfold zlen in *; lia). cbn [mbind outcome_bind].
    unfold dict_scan_partial. rewrite Hnum. cbn [mbind outcome_bind]. rewrite Nat2Z.id.
    assert (Hts : Forall (fun v => zlen v = type_size seg) vals).
    { apply Forall_lookup. intros i v Hiv. destruct (Hval i v Hiv) as (j & _ & Hjv). by eapply read_bytes_zlen. }
    assert (Hloop : forall k i dest at_, (row + i + k <= length vals)%nat -> 0 <= at_ -> at_ + Z.of_nat k * type_size seg <= zlen dest ->
      dict_scan_loop block (offset_ seg + 2) (offset_ seg + 2 + zlen ks * type_size seg) (type_size seg) (Z.of_nat row) (Z.of_nat i) (bool_decide (zlen ks <= 256)) dest at_ k =
      blit dest at_ (concat (take k (drop (row + i) vals)))).
    { clear - Hval Hts. induction k as [|k IH]; intros i dest at_ Hb Hat Hroom; cbn [dict_scan_loop]; [cbn; by rewrite blit_nil by lia|].
      destruct (lookup_lt_is_Some_2 vals (row + i)) as [v Hv]; [lia|]. destruct (Hval _ _ Hv) as (j & Hj & Hjv). fold (index_width ks). rewrite Nat2Z.inj_add in Hj. rewrite Hj. cbn [mbind outcome_bind]. rewrite Hjv. cbn [mbind outcome_bind].
      rewrite (drop_S _ _ _ Hv). cbn [take concat]. assert (Hzv : zlen v = type_size seg) by (by rewrite Forall_lookup in Hts; eapply Hts). pose proof (zlen_nonneg v).
      rewrite <- blit_app. destruct (blit_ok dest at_ v) as (d & Hd & Hzd); [lia|nia|]. rewrite Hd. cbn [mbind outcome_bind].
      replace (Z.of_nat i + 1) with (Z.of_nat (S i)) by lia. rewrite IH; [|lia|lia|nia]. rewrite Hzv. by replace (row + S i)%nat with (S (row + i)) by lia. }
    specialize (Hloop n 0%nat dest (ro * type_size seg)). rewrite Nat.add_0_r in Hloop. apply Hloop; [lia| |nia].
    destruct vals as [|v vals]; [cbn in Hr; lia|]. apply Forall_cons in Hts as [<- _]. pose proof (zlen_nonneg v). nia.
Qed.
