(* ===== verification/BlockManager.v ===== *)
(** * Storage blocks

    [components/table/storage]: the file of a table as numbered blocks with checksums
    ([single_file_block_manager.cpp], [file_buffer.cpp]), its three header sectors, the allocation of
    blocks, and the packing of small segments into shared blocks ([partial_block_manager.cpp]); and the
    positioned reads and writes of [core/file/local_file_system.cpp] under them. A file is its bytes;
    [pread] and [pwrite] on a regular file transfer what is asked up to the end of the file, and what
    the code does after a shorter transfer is part of the model. The checksum is a parameter. *)

From S2P Require Import Prelude.
From S2P Require Import Bytes.
From Stdlib Require Import SpecFloat.
From coqutil Require Import Byte.
#[local] Open Scope Z_scope.

(** ** Positioned reads and writes *)

Definition pread (file : bytes) (n location : Z) : bytes := take (Z.to_nat n) (drop (Z.to_nat location) file).

(** [location] is the same in every turn. *)
Fixpoint read_at_loop (file : bytes) (n location : Z) (buffer : bytes) (fuel : nat) : outcome (option bytes) :=
  match fuel with
  | O => Fault OutOfFuel
  | S fuel =>
      if bool_decide (0 < n) then
        match pread file n location with
        | [] => Ok None
        | got => read_at_loop file (n - zlen got) location (buffer ++ got) fuel
        end
      else Ok (Some buffer)
  end.

Definition read_at (file : bytes) (n location : Z) : outcome (option bytes) := read_at_loop file n location [] (S (Z.to_nat n)).

(** [taken]: how many bytes of a request each call of [pwrite] takes. *)
Fixpoint write_at_loop (taken : nat -> Z -> Z) (file buffer : bytes) (location : Z) (call fuel : nat) : outcome (bool * bytes) :=
  match fuel with
  | O => Fault OutOfFuel
  | S fuel =>
      match buffer with
      | [] => Ok (true, file)
      | _ =>
          let k := taken call (zlen buffer) in
          if bool_decide (k <= 0) then Ok (false, file)
          else write_at_loop taken (file_write file location (take (Z.to_nat k) buffer)) (drop (Z.to_nat k) buffer) location (S call) fuel
      end
  end.

Definition write_at (taken : nat -> Z -> Z) (file buffer : bytes) (location : Z) : outcome (bool * bytes) :=
  write_at_loop taken file buffer location 0 (S (length buffer)).

(** ** The block manager *)

Definition SECTOR_SIZE : Z := 4096.
Definition DEFAULT_BLOCK_HEADER_SIZE : Z := 8.
Definition DEFAULT_BLOCK_ALLOC_SIZE : Z := 262144.
Definition BLOCK_START : Z := 3 * SECTOR_SIZE.
Definition INVALID_INDEX : Z := 2 ^ 64 - 1.

Inductive error_code_t := io_error | data_corruption.

(** [calculate_memory] of a block: the bytes that are allocated for it, its header included. *)
Definition calculate_memory (user_size : Z) : Z := (DEFAULT_BLOCK_HEADER_SIZE + user_size + (SECTOR_SIZE - 1)) / SECTOR_SIZE * SECTOR_SIZE.

Record block_manager_t := BlockManager {
  file_ : bytes;
  block_alloc_size_ : Z;
  free_list_ : list Z;
  used_blocks_ : list Z;
  modified_blocks_ : list Z;
  max_block_ : Z;
  iteration_ : Z;
  meta_block_ : Z;
}.

Definition with_file (bm : block_manager_t) (file : bytes) : block_manager_t :=
  BlockManager file (block_alloc_size_ bm) (free_list_ bm) (used_blocks_ bm) (modified_blocks_ bm) (max_block_ bm) (iteration_ bm) (meta_block_ bm).
Definition with_blocks (bm : block_manager_t) (free used modified : list Z) (max_block : Z) : block_manager_t :=
  BlockManager (file_ bm) (block_alloc_size_ bm) free used modified max_block (iteration_ bm) (meta_block_ bm).

Definition block_size (bm : block_manager_t) : Z := block_alloc_size_ bm - DEFAULT_BLOCK_HEADER_SIZE.
Definition block_location (bm : block_manager_t) (block_id : Z) : Z := BLOCK_START + block_id * block_alloc_size_ bm.

(** The bytes of a fresh [block_t] behind its checksum. *)
Definition buffer_size (bm : block_manager_t) : Z := calculate_memory (block_size bm) - DEFAULT_BLOCK_HEADER_SIZE.

Definition free_block_id (bm : block_manager_t) : Z * block_manager_t :=
  match free_list_ bm with
  | id :: rest => (id, with_blocks bm rest (oset_insert id (used_blocks_ bm)) (modified_blocks_ bm) (max_block_ bm))
  | [] => (max_block_ bm, with_blocks bm [] (oset_insert (max_block_ bm) (used_blocks_ bm)) (modified_blocks_ bm) (u64 (max_block_ bm + 1)))
  end.

Definition peek_free_block_id (bm : block_manager_t) : Z := match free_list_ bm with id :: _ => id | [] => max_block_ bm end.
Definition is_root_block (bm : block_manager_t) (block_pointer : Z) : bool := bool_decide (block_pointer = meta_block_ bm).
Definition mark_as_free (bm : block_manager_t) (id : Z) : block_manager_t :=
  with_blocks bm (oset_insert id (free_list_ bm)) (oset_erase id (used_blocks_ bm)) (oset_erase id (modified_blocks_ bm)) (max_block_ bm).
Definition mark_as_used (bm : block_manager_t) (id : Z) : block_manager_t :=
  with_blocks bm (oset_erase id (free_list_ bm)) (oset_insert id (used_blocks_ bm)) (modified_blocks_ bm) (max_block_ bm).
Definition mark_as_modified (bm : block_manager_t) (id : Z) : block_manager_t :=
  with_blocks bm (free_list_ bm) (used_blocks_ bm) (oset_insert id (modified_blocks_ bm)) (max_block_ bm).
Definition total_blocks (bm : block_manager_t) : Z := max_block_ bm.
Definition free_blocks (bm : block_manager_t) : Z := zlen (free_list_ bm).
Definition set_meta_block (bm : block_manager_t) (block : Z) : block_manager_t :=
  BlockManager (file_ bm) (block_alloc_size_ bm) (free_list_ bm) (used_blocks_ bm) (modified_blocks_ bm) (max_block_ bm) (iteration_ bm) block.

(** [ftruncate] to the end of the last block. *)
Definition truncate (bm : block_manager_t) : block_manager_t :=
  let file_end := block_location bm (max_block_ bm) in
  with_file bm (take (Z.to_nat file_end) (file_ bm ++ zeros (file_end - zlen (file_ bm)))).

(** ** Headers *)

Definition MAGIC_NUMBER : Z := 0x5842544F.
Definition CURRENT_VERSION : Z := 1.

Definition main_header : bytes := write_le 4 MAGIC_NUMBER ++ write_le 4 CURRENT_VERSION ++ write_le 8 0 ++ zeros (SECTOR_SIZE - 16).

Definition validate (header : bytes) : outcome bool :=
  magic ← read_le 4 header 0;
  version ← read_le 4 header 4;
  Ok (bool_decide (magic = MAGIC_NUMBER) && bool_decide (version <= CURRENT_VERSION)).

Record database_header_t := DatabaseHeader {
  h_iteration : Z;
  h_meta_block : Z;
  h_free_list : Z;
  h_block_count : Z;
  h_block_alloc_size : Z;
  h_checksum : Z;
}.

Definition header_initialize : database_header_t := DatabaseHeader 0 INVALID_INDEX INVALID_INDEX 0 DEFAULT_BLOCK_ALLOC_SIZE 0.

Definition header_bytes (h : database_header_t) : bytes :=
  write_le 8 (h_iteration h) ++ write_le 8 (h_meta_block h) ++ write_le 8 (h_free_list h) ++ write_le 8 (h_block_count h) ++
  write_le 8 (h_block_alloc_size h) ++ write_le 8 (h_checksum h) ++ zeros (SECTOR_SIZE - 48).

Definition header_of (b : bytes) : outcome database_header_t :=
  iteration ← read_le 8 b 0;
  meta_block ← read_le 8 b 8;
  free_list ← read_le 8 b 16;
  block_count ← read_le 8 b 24;
  block_alloc_size ← read_le 8 b 32;
  checksum ← read_le 8 b 40;
  Ok (DatabaseHeader iteration meta_block free_list block_count block_alloc_size checksum).

(** A new file; [create_new_database]. *)
Definition create_new_database (block_alloc_size : Z) : block_manager_t :=
  let db_header := DatabaseHeader 0 INVALID_INDEX INVALID_INDEX 0 block_alloc_size 0 in
  let file := file_write [] 0 main_header in
  let file := file_write file SECTOR_SIZE (header_bytes db_header) in
  let file := file_write file (2 * SECTOR_SIZE) (header_bytes db_header) in
  BlockManager file block_alloc_size [] [] [] 0 0 INVALID_INDEX.

(** [load_existing_database] up to the free list: the checked file and the header in force. *)
Definition load_header (file : bytes) : outcome (database_header_t + error_code_t) :=
  main ← read_at file SECTOR_SIZE 0;
  match main with
  | None => Ok (inr io_error)
  | Some main =>
      valid ← validate main;
      if negb valid then Ok (inr data_corruption)
      else
        header1 ← read_at file SECTOR_SIZE SECTOR_SIZE;
        match header1 with
        | None => Ok (inr io_error)
        | Some header1 =>
            header2 ← read_at file SECTOR_SIZE (2 * SECTOR_SIZE);
            match header2 with
            | None => Ok (inr io_error)
            | Some header2 =>
                h1 ← header_of header1;
                h2 ← header_of header2;
                Ok (inl (if bool_decide (h_iteration h2 <= h_iteration h1) then h1 else h2))
            end
        end
  end.

(** The manager that [load_existing_database] leaves when the header has no free list. *)
Definition manager_of (file : bytes) (block_alloc_size : Z) (active : database_header_t) : block_manager_t :=
  let alloc := if bool_decide (h_block_alloc_size active <> 0 /\ h_block_alloc_size active <> block_alloc_size) then h_block_alloc_size active else block_alloc_size in
  BlockManager file alloc [] [] [] (h_block_count active) (h_iteration active) (h_meta_block active).

(** [write_header] in its two writes, each followed by a [sync]. *)
Definition next_header (bm : block_manager_t) (header : database_header_t) : database_header_t :=
  DatabaseHeader (u64 (iteration_ bm + 1)) (meta_block_ bm) (h_free_list header) (max_block_ bm) (block_alloc_size_ bm) (h_checksum header).

Definition header_slot (iteration : Z) : Z := if bool_decide (iteration mod 2 = 1) then SECTOR_SIZE else 2 * SECTOR_SIZE.
Definition other_slot (slot : Z) : Z := if bool_decide (slot = SECTOR_SIZE) then 2 * SECTOR_SIZE else SECTOR_SIZE.

Definition header_files (bm : block_manager_t) (header : database_header_t) : bytes * bytes :=
  let h := next_header bm header in
  let slot := header_slot (h_iteration h) in
  let first := file_write (file_ bm) slot (header_bytes h) in
  (first, file_write first (other_slot slot) (header_bytes h)).

Definition write_header (bm : block_manager_t) (header : database_header_t) : block_manager_t :=
  BlockManager (header_files bm header).2 (block_alloc_size_ bm) (free_list_ bm) (used_blocks_ bm) (modified_blocks_ bm) (max_block_ bm) (u64 (iteration_ bm + 1)) (meta_block_ bm).

Section blocks.
Variable crc32c : bytes -> Z.

(** ** Blocks *)

Definition block_checksum (payload : bytes) : Z := u32 (crc32c payload).

(** [checksum_and_write]: the internal buffer with its checksum set. *)
Definition block_image (payload : bytes) : bytes := write_le 8 (block_checksum payload) ++ payload.
Definition write (bm : block_manager_t) (payload : bytes) (block_id : Z) : block_manager_t :=
  with_file bm (file_write (file_ bm) (block_location bm block_id) (block_image payload)).

Definition verify_checksum (buffer : bytes) : outcome bool :=
  stored_checksum ← read_le 8 buffer 0;
  Ok (bool_decide (stored_checksum = block_checksum (drop 8 buffer))).

(** [read]; whether the transfer succeeded is not looked at, and the memory of the fresh block is what
    stays in the buffer when nothing was read. *)
Definition read (bm : block_manager_t) (block_id : Z) (memory : bytes) : outcome (bytes + error_code_t) :=
  got ← read_at (file_ bm) (calculate_memory (block_size bm)) (block_location bm block_id);
  let buffer := default memory got in
  ok ← verify_checksum buffer;
  Ok (if ok : bool then inl (drop 8 buffer) else inr data_corruption).

(** ** Shared blocks *)

Record partial_block_t := PartialBlock { pb_block_id : Z; used_bytes : Z; block_capacity : Z }.
Record partial_block_allocation_t := Allocation { al_block_id : Z; offset_in_block : Z; al_size : Z }.
Record partial_block_manager_t := PartialBlockManager { partial_blocks_ : list partial_block_t; block_buffers_ : gmap Z bytes }.

(** [static_cast<uint64_t>(static_cast<double>(n) * 0.8)]. *)
Definition FULL_THRESHOLD : spec_float := S754_finite false 7205759403792794 (-53).
Definition truncated (f : spec_float) : Z :=
  match f with
  | S754_finite false m e => if bool_decide (0 <= e) then Zpos m * 2 ^ e else Zpos m / 2 ^ (- e)
  | _ => 0
  end.
Definition full_size (n : Z) : Z := truncated (SFmul 53 1024 (binary_normalize 53 1024 n 0 false) FULL_THRESHOLD).

(** The first partial block with room, and the list with its bytes taken. *)
Fixpoint take_partial (l : list partial_block_t) (segment_size : Z) : option (partial_block_allocation_t * list partial_block_t) :=
  match l with
  | [] => None
  | pb :: l =>
      if bool_decide (segment_size <= u64 (block_capacity pb - used_bytes pb)) then
        Some (Allocation (pb_block_id pb) (used_bytes pb) segment_size, PartialBlock (pb_block_id pb) (u32 (used_bytes pb + u32 segment_size)) (block_capacity pb) :: l)
      else match take_partial l segment_size with Some (a, l) => Some (a, pb :: l) | None => None end
  end.

Definition get_block_allocation (pm : partial_block_manager_t) (bm : block_manager_t) (segment_size : Z) :
    partial_block_allocation_t * partial_block_manager_t * block_manager_t :=
  if bool_decide (full_size (block_size bm) < segment_size) then
    let '(block_id, bm) := free_block_id bm in (Allocation block_id 0 segment_size, pm, bm)
  else
    match take_partial (partial_blocks_ pm) segment_size with
    | Some (a, l) => (a, PartialBlockManager l (block_buffers_ pm), bm)
    | None =>
        let '(block_id, bm) := free_block_id bm in
        (Allocation block_id 0 segment_size,
         PartialBlockManager (partial_blocks_ pm ++ [PartialBlock block_id (u32 segment_size) (block_size bm)]) (block_buffers_ pm), bm)
    end.

Definition register_partial_block (pm : partial_block_manager_t) (bm : block_manager_t) (block_id used_size : Z) : partial_block_manager_t :=
  PartialBlockManager (partial_blocks_ pm ++ [PartialBlock block_id used_size (block_size bm)]) (block_buffers_ pm).

Definition write_to_block (pm : partial_block_manager_t) (bm : block_manager_t) (block_id offset : Z) (data : bytes) : outcome partial_block_manager_t :=
  let buffer := default (zeros (buffer_size bm)) (block_buffers_ pm !! block_id) in
  buffer ← blit buffer offset data;
  Ok (PartialBlockManager (partial_blocks_ pm) (<[block_id := buffer]> (block_buffers_ pm))).

(** The buffers are written in the order of an unordered map. *)
Definition flush_partial_blocks (pm : partial_block_manager_t) (bm : block_manager_t) : partial_block_manager_t * block_manager_t :=
  (PartialBlockManager [] ∅, foldl (fun bm p => write bm p.2 p.1) bm (map_to_list (block_buffers_ pm))).

End blocks.
