(* ===== verification/BlockManagerTheorems.v ===== *)
(** * Theorems on storage blocks

    A block reads back as it was written whatever other blocks are written, a damaged one is
    rejected; allocated blocks are new; segments packed into shared blocks do not overlap and are all
    in the file once the buffers are flushed; the header that is in force after a crash during
    [write_header] is the old or the new one. *)

From S2P Require Import Prelude.
From S2P Require Import Bytes.
From S2P Require Import ColumnCompression.
From S2P Require Import ColumnCompressionTheorems.
From S2P Require Import BlockManager.
From coqutil Require Import Byte.
#[local] Open Scope Z_scope.

(** ** Positioned reads *)

Lemma pread_inside file n loc : 0 <= loc -> 0 <= n -> loc + n <= zlen file -> read_bytes file loc n = Ok (pread file n loc) /\ zlen (pread file n loc) = n.
Proof.
  intros. unfold pread, read_bytes. rewrite bool_decide_true by lia. split; [done|]. unfold zlen in *. rewrite length_take, length_drop. lia.
Qed.

Lemma read_at_inside file n loc b : 0 < n -> read_bytes file loc n = Ok b -> read_at file n loc = Ok (Some b).
Proof.
  intros Hn Hr. pose proof (read_bytes_range _ _ _ _ Hr) as (H1 & H2 & H3). destruct (pread_inside file n loc) as [He Hl]; [done..|].
  unfold read_at. cbn [read_at_loop]. rewrite bool_decide_true by done. rewrite Hr in He. injection He as ->. set (got := pread file n loc) in *. destruct got as [|x g] eqn:E; [change (zlen []) with 0 in Hl; lia|].
  destruct (Z.to_nat n) eqn:En; [lia|]. cbn [read_at_loop]. rewrite Hl, Z.sub_diag. by rewrite bool_decide_false by lia.
Qed.

Lemma read_at_past file n loc : 0 < n -> zlen file <= loc -> read_at file n loc = Ok None.
Proof.
  intros Hn Hl. unfold read_at. cbn [read_at_loop]. rewrite bool_decide_true by done. unfold pread. rewrite drop_ge by (unfold zlen in *; lia). by rewrite take_nil.
Qed.

(** A read across the end of the file succeeds and repeats what is there. *)
Lemma read_at_repeats : read_at [Byte.x01; Byte.x02] 6 0 = Ok (Some [Byte.x01; Byte.x02; Byte.x01; Byte.x02; Byte.x01; Byte.x02]).
Proof. reflexivity. Qed.

(** A write that [pwrite] takes in one call is the write; in two calls the second goes over the first. *)
Lemma write_at_whole file buffer loc : buffer <> [] -> write_at (fun _ n => n) file buffer loc = Ok (true, file_write file loc buffer).
Proof.
  intros Hb. unfold write_at. destruct buffer as [|x b]; [done|]. cbn [length write_at_loop]. pose proof (zlen_nonneg b).
  rewrite zlen_cons, bool_decide_false by lia. rewrite take_ge, drop_ge by (unfold zlen; cbn; lia). done.
Qed.

Lemma write_at_overwrites : write_at (fun _ _ => 1) [] [Byte.x01; Byte.x02] 0 = Ok (true, [Byte.x02]).
Proof. reflexivity. Qed.

(** ** Geometry *)

(** Blocks are whole sectors. *)
Definition whole_sectors (bm : block_manager_t) : Prop := exists k, 0 < k /\ block_alloc_size_ bm = SECTOR_SIZE * k.

Lemma alloc_pos bm : whole_sectors bm -> 0 < block_alloc_size_ bm.
Proof. intros (k & Hk & ->). unfold SECTOR_SIZE. lia. Qed.

Lemma calculate_memory_block bm : whole_sectors bm -> calculate_memory (block_size bm) = block_alloc_size_ bm.
Proof.
  intros (k & Hk & E). unfold calculate_memory, block_size, DEFAULT_BLOCK_HEADER_SIZE, SECTOR_SIZE in *. rewrite E.
  replace (8 + (4096 * k - 8) + (4096 - 1)) with (4095 + k * 4096) by lia. rewrite Z.div_add by lia. change (4095 / 4096) with 0. lia.
Qed.

Lemma buffer_size_block bm : whole_sectors bm -> buffer_size bm = block_size bm.
Proof. intros H. unfold buffer_size. by rewrite calculate_memory_block. Qed.

Lemma locations_apart bm i j : whole_sectors bm -> i < j -> block_location bm i + block_alloc_size_ bm <= block_location bm j.
Proof. intros (k & Hk & E) Hij. unfold block_location. rewrite E. unfold SECTOR_SIZE. nia. Qed.

Lemma location_pos bm i : whole_sectors bm -> 0 <= i -> BLOCK_START <= block_location bm i.
Proof. intros (k & Hk & E) Hi. unfold block_location. rewrite E. unfold SECTOR_SIZE. nia. Qed.

Section blocks.
Context (crc32c : bytes -> Z).
#[local] Abbreviation block_image := (block_image crc32c).
#[local] Abbreviation write := (BlockManager.write crc32c).
#[local] Abbreviation read := (BlockManager.read crc32c).

(** ** Blocks in the file *)

Definition block_at (bm : block_manager_t) (id : Z) (payload : bytes) : Prop :=
  zlen payload = block_size bm /\ read_bytes (file_ bm) (block_location bm id) (block_alloc_size_ bm) = Ok (block_image payload).

Lemma zlen_block_image bm payload : zlen payload = block_size bm -> zlen (block_image payload) = block_alloc_size_ bm.
Proof. intros H. unfold block_image. rewrite zlen_app, zlen_write_le, H. unfold block_size, DEFAULT_BLOCK_HEADER_SIZE. lia. Qed.

Lemma write_here bm id payload : whole_sectors bm -> 0 <= id -> zlen payload = block_size bm -> block_at (write bm payload id) id payload.
Proof.
  intros Hw Hid Hp. split; [done|].
  change (read_bytes (file_write (file_ bm) (block_location bm id) (block_image payload)) (block_location bm id) (block_alloc_size_ bm) = Ok (block_image payload)).
  apply file_write_same; [pose proof (location_pos bm id Hw Hid); unfold BLOCK_START, SECTOR_SIZE in *; lia|].
  by rewrite zlen_block_image with (bm := bm).
Qed.

Lemma write_elsewhere bm id id' payload p :
  whole_sectors bm -> 0 <= id' -> id <> id' -> zlen payload = block_size bm -> block_at bm id p -> block_at (write bm payload id') id p.
Proof.
  intros Hw Hid Hne Hz [Hp Hr]. split; [done|].
  change (read_bytes (file_write (file_ bm) (block_location bm id') (block_image payload)) (block_location bm id) (block_alloc_size_ bm) = Ok (block_image p)).
  apply file_write_other; [pose proof (location_pos bm id' Hw Hid); unfold BLOCK_START, SECTOR_SIZE in *; lia|done|].
  rewrite (zlen_block_image bm) by done. destruct (Z.lt_total id id') as [Hlt|[|Hlt]]; [left|done|right]; by apply locations_apart.
Qed.

Lemma block_at_read bm id p memory : whole_sectors bm -> block_at bm id p -> read bm id memory = Ok (inl p).
Proof.
  intros Hw [Hp Hr]. unfold BlockManager.read. rewrite calculate_memory_block by done.
  rewrite (read_at_inside _ _ _ _ (alloc_pos bm Hw) Hr). cbn [mbind outcome_bind default from_option Datatypes.id].
  unfold verify_checksum, block_image. assert (Hc : 0 <= block_checksum crc32c p < 2 ^ (8 * Z.of_nat 8)).
  { unfold block_checksum, wrap. pose proof (Z.mod_pos_bound (crc32c p) (2 ^ 32) ltac:(lia)). change (2 ^ (8 * Z.of_nat 8)) with (2 ^ 64). lia. }
  rewrite read_le_start by done. cbn [mbind outcome_bind]. rewrite drop_app_length' by (by unfold write_le; rewrite LittleEndianList.length_le_split).
  by rewrite bool_decide_true.
Qed.

(** Only payloads with a matching checksum are returned. *)
Lemma read_checks bm id memory p buffer :
  whole_sectors bm -> read_bytes (file_ bm) (block_location bm id) (block_alloc_size_ bm) = Ok buffer ->
  read bm id memory = Ok (inl p) -> buffer = block_image p.
Proof.
  intros Hw Hr. unfold BlockManager.read. rewrite calculate_memory_block by done.
  rewrite (read_at_inside _ _ _ _ (alloc_pos bm Hw) Hr). cbn [mbind outcome_bind default from_option Datatypes.id]. intros H. invert_ok.
  match goal with H : verify_checksum _ _ = Ok ?b |- _ => destruct b; [|done] end. simplify_eq. unfold verify_checksum in *. invert_ok.
  match goal with H : read_le 8 buffer 0 = Ok ?c |- _ => rename H into Hc; rename c into c end. unfold block_image.
  unfold read_le in Hc. destruct (read_bytes buffer 0 (Z.of_nat 8)) as [b8|] eqn:E8; [|done]. cbn in Hc. injection Hc as Hc.
  match goal with H : bool_decide _ = true |- _ => apply bool_decide_eq_true in H; rename H into Heq end. rewrite <- Heq, <- Hc. unfold write_le.
  unfold read_bytes in E8. case_bool_decide as Hb; [|done]. injection E8 as <-. rewrite drop_0. change (Z.to_nat (Z.of_nat 8)) with 8%nat.
  assert (H8 : length (take 8 buffer) = 8%nat) by (rewrite length_take; unfold zlen in Hb; lia). pose proof (LittleEndianList.split_le_combine (take 8 buffer)) as Hs. rewrite H8 in Hs. by rewrite Hs, take_drop.
Qed.

(** ** Allocation *)

(** The free list is ordered and below the end of the file. *)
Record alloc_ok (bm : block_manager_t) : Prop := {
  ao_sorted : oset (free_list_ bm);
  ao_free : forall id, id ∈ free_list_ bm -> 0 <= id < max_block_ bm;
  ao_max : 0 <= max_block_ bm < 2 ^ 62;
}.

(** A block that is in use: the allocator does not hand it out. *)
Definition taken (bm : block_manager_t) (id : Z) : Prop := 0 <= id < max_block_ bm /\ id ∉ free_list_ bm.

Lemma free_block_id_spec bm id bm' :
  alloc_ok bm -> max_block_ bm + 1 < 2 ^ 62 -> free_block_id bm = (id, bm') ->
  alloc_ok bm' /\ taken bm' id /\ ~ taken bm id /\ (forall j, taken bm j -> taken bm' j) /\ file_ bm' = file_ bm /\ block_alloc_size_ bm' = block_alloc_size_ bm /\ max_block_ bm <= max_block_ bm' <= max_block_ bm + 1.
Proof.
  intros [Hs Hf Hm] Hroom H. unfold free_block_id in H. destruct (free_list_ bm) as [|x l] eqn:E; injection H as <- <-; unfold taken; cbn [max_block_ free_list_ file_ block_alloc_size_ with_blocks].
  - rewrite wrap_small by (unfold in_width; lia). rewrite E. split; [split; cbn; [apply oset_nil|set_solver|lia]|]. split; [split; [lia|set_solver]|].
    split; [intros [? _]; lia|]. split; [intros j [? ?]; split; [lia|set_solver]|]. split_and!; [done|done|lia|lia].
  - apply oset_cons in Hs as [Hs Hlt]. pose proof (Hf x ltac:(set_solver)). rewrite Forall_forall in Hlt. rewrite E.
    split; [split; cbn; [done|intros j Hj; apply Hf; set_solver|done]|]. split; [split; [lia|]; intros Hin; specialize (Hlt _ Hin); lia|].
    split; [intros [_ Hn]; set_solver|]. split; [intros j [? ?]; split; [lia|set_solver]|]. split_and!; [done|done|lia|lia].
Qed.

(** ** Packing *)

(** What has been put into blocks: block, offset, bytes. *)
Definition piece : Type := Z * Z * bytes.

(** The piece is in the buffer of its block. *)
Definition kept (buffers : gmap Z bytes) (p : piece) : Prop := exists b, buffers !! p.1.1 = Some b /\ stored b p.1.2 p.2.

(** Partial blocks end where the next piece goes; pieces end before that. *)
Record pack_ok (bm : block_manager_t) (pm : partial_block_manager_t) (ps : list piece) : Prop := {
  po_alloc : alloc_ok bm;
  po_ids : NoDup (pb_block_id <$> partial_blocks_ pm);
  po_blocks : forall pb, pb ∈ partial_blocks_ pm -> taken bm (pb_block_id pb) /\ 0 <= used_bytes pb <= block_size bm /\ block_capacity pb = block_size bm;
  po_pieces : forall p, p ∈ ps -> taken bm p.1.1 /\ 0 <= p.1.2 /\ forall pb, pb ∈ partial_blocks_ pm -> pb_block_id pb = p.1.1 -> p.1.2 + zlen p.2 <= used_bytes pb;
  po_kept : forall p, p ∈ ps -> kept (block_buffers_ pm) p;
  po_buffers : forall id b, block_buffers_ pm !! id = Some b -> zlen b = block_size bm /\ taken bm id;
}.

Lemma take_partial_spec cap l size a l' :
  (forall pb, pb ∈ l -> 0 <= used_bytes pb <= cap /\ block_capacity pb = cap) -> 0 <= size <= cap -> cap < 2 ^ 32 -> take_partial l size = Some (a, l') ->
  exists l1 pb l2, l = l1 ++ pb :: l2 /\ used_bytes pb + size <= cap /\ a = Allocation (pb_block_id pb) (used_bytes pb) size /\
    l' = l1 ++ PartialBlock (pb_block_id pb) (used_bytes pb + size) cap :: l2.
Proof.
  intros Hl Hs Hc. revert l'. induction l as [|pb l IH]; intros l' H; cbn [take_partial] in H; [done|]. destruct (Hl pb ltac:(set_solver)) as [Hu Hcap].
  rewrite Hcap, (wrap_small 64) in H by (unfold in_width; lia). case_bool_decide as Hb.
  - injection H as <- <-. exists [], pb, l. rewrite (wrap_small 32 size) by (unfold in_width; lia). rewrite wrap_small by (unfold in_width; lia). split_and!; [done|lia|done|done].
  - destruct (take_partial l size) as [[a' l'']|] eqn:E; [|done]. injection H as <- <-. destruct (IH ltac:(set_solver) l'' eq_refl) as (l1 & q & l2 & -> & H1 & H2 & ->).
    exists (pb :: l1), q, l2. done.
Qed.

(** Where a new piece goes: after all pieces of its block. *)
Definition fresh_place (bm : block_manager_t) (pm : partial_block_manager_t) (ps : list piece) (id off size : Z) : Prop :=
  taken bm id /\ 0 <= off /\ off + size <= block_size bm /\
  (forall pb, pb ∈ partial_blocks_ pm -> pb_block_id pb = id -> off + size <= used_bytes pb) /\
  (forall p, p ∈ ps -> p.1.1 = id -> p.1.2 + zlen p.2 <= off).

(** At most one more block is taken, the file is the same. *)
Definition grown (bm bm' : block_manager_t) : Prop :=
  (forall j, taken bm j -> taken bm' j) /\ file_ bm' = file_ bm /\ block_alloc_size_ bm' = block_alloc_size_ bm /\ (iteration_ bm' = iteration_ bm /\ zlen (free_list_ bm') <= zlen (free_list_ bm)) /\
  max_block_ bm' <= max_block_ bm + 1.

Lemma free_block_id_rest bm id bm' : free_block_id bm = (id, bm') -> iteration_ bm' = iteration_ bm /\ zlen (free_list_ bm') <= zlen (free_list_ bm).
Proof. unfold free_block_id. destruct (free_list_ bm) as [|x l]; intros [= <- <-]; (split; [done|]); cbn [free_list_ with_blocks]; rewrite ?zlen_cons; lia. Qed.

(** A block that was not taken before has no pieces and is no partial block. *)
Lemma new_block_ok bm pm ps id bm' :
  pack_ok bm pm ps -> max_block_ bm + 1 < 2 ^ 62 -> free_block_id bm = (id, bm') ->
  pack_ok bm' pm ps /\ taken bm' id /\ (forall pb, pb ∈ partial_blocks_ pm -> pb_block_id pb <> id) /\ (forall p, p ∈ ps -> p.1.1 <> id) /\
  ~ taken bm id /\ grown bm bm'.
Proof.
  intros [Ha Hi Hb Hp Hk Hu] Hm H. destruct (free_block_id_spec bm id bm' Ha Hm H) as (Ha' & Ht & Hn & Hmono & Hf & Hal & Hmax).
  assert (Hbs : block_size bm' = block_size bm) by (unfold block_size; by rewrite Hal).
  split; [|split; [done|split_and!; [| |done|split_and!; [done|done|done|by eapply free_block_id_rest|by eapply free_block_id_rest|lia]]]].
  - split; [done|done|..|done|]; rewrite ?Hbs; [intros pb Hpb; destruct (Hb pb Hpb) as (? & ?); auto|intros p Hp'; destruct (Hp p Hp') as (? & ?); auto|].
    intros j b Hj. destruct (Hu j b Hj). auto.
  - intros pb Hpb <-. by apply Hn, (Hb pb).
  - intros p Hp' <-. by apply Hn, (Hp p).
Qed.

Lemma allocation_ok bm pm ps size a pm1 bm1 :
  pack_ok bm pm ps -> 0 <= size <= block_size bm -> full_size (block_size bm) <= block_size bm < 2 ^ 32 -> max_block_ bm + 1 < 2 ^ 62 ->
  get_block_allocation pm bm size = (a, pm1, bm1) ->
  pack_ok bm1 pm1 ps /\ fresh_place bm1 pm1 ps (al_block_id a) (offset_in_block a) size /\ block_buffers_ pm1 = block_buffers_ pm /\ grown bm bm1 /\
  (al_block_id a ∈ pb_block_id <$> partial_blocks_ pm \/ ~ taken bm (al_block_id a)) /\
  (forall j, j ∈ pb_block_id <$> partial_blocks_ pm1 -> j = al_block_id a \/ j ∈ pb_block_id <$> partial_blocks_ pm).
Proof.
  intros Hok Hs Hfull Hm H. unfold get_block_allocation in H. case_bool_decide as Hd; [|destruct (take_partial _ _) as [[a' l']|] eqn:Et].
  - destruct (free_block_id bm) as [id bm'] eqn:Ef. injection H as <- <- <-. destruct (new_block_ok _ _ _ _ _ Hok Hm Ef) as (Hok' & Ht & Hpb & Hp & Hn & Hg).
    split; [done|]. split; [|split_and!; [done|done|by right|intros j Hj; by right]]. destruct Hg as (_ & _ & Hal & _). split_and!; cbn; [apply Ht..|lia|unfold block_size in *; rewrite Hal; lia| |]; naive_solver.
  - injection H as <- <- <-. destruct Hok as [Ha Hi Hb Hp Hk Hu].
    destruct (take_partial_spec (block_size bm) _ _ _ _ (fun pb Hpb => proj2 (Hb pb Hpb)) Hs ltac:(lia) Et) as (l1 & pb & l2 & El & Hr & -> & ->).
    rewrite El in *. assert (Hin : pb ∈ l1 ++ pb :: l2) by set_solver. destruct (Hb pb Hin) as (Htk & Hub & _).
    assert (Hids : forall q, q ∈ l1 ++ l2 -> pb_block_id q <> pb_block_id pb).
    { intros q Hq E. rewrite fmap_app, fmap_cons in Hi. apply NoDup_app in Hi as (_ & Hd1 & Hi). apply NoDup_cons in Hi as [Hd2 _]. apply elem_of_app in Hq as [Hq|Hq].
      - apply (Hd1 (pb_block_id q)); [by apply list_elem_of_fmap_2|]. rewrite E. by left.
      - apply Hd2. rewrite <- E. by apply list_elem_of_fmap_2. }
    assert (Hmem : forall q, q ∈ l1 ++ PartialBlock (pb_block_id pb) (used_bytes pb + size) (block_size bm) :: l2 -> q ∈ l1 ++ l2 \/ q = PartialBlock (pb_block_id pb) (used_bytes pb + size) (block_size bm)) by set_solver.
    split; [|split; [|split_and!; [done|split_and!; done || lia|left; cbn [al_block_id]; by apply list_elem_of_fmap_2|intros j Hj; right; cbn in Hj; by rewrite fmap_app, fmap_cons in *]]].
    + split; cbn; [done|by rewrite fmap_app, fmap_cons in *| | |done|done].
      * intros q [Hq| ->]%Hmem; [apply Hb; set_solver|]. cbn. split_and!; [apply Htk..|lia|lia|done].
      * intros p Hp'. destruct (Hp p Hp') as (H1 & H2 & H3). split_and!; [apply H1..|done|]. intros q [Hq| ->]%Hmem Heq; [apply H3; [set_solver|done]|]. cbn in *. specialize (H3 pb Hin Heq). lia.
    + split_and!; cbn; [apply Htk..|lia|lia| |].
      * intros q [Hq| ->]%Hmem Heq; [by destruct (Hids q Hq)|cbn; lia].
      * intros p Hp' Heq. destruct (Hp p Hp') as (_ & _ & H3). by apply H3.
  - destruct (free_block_id bm) as [id bm'] eqn:Ef. injection H as <- <- <-. destruct (new_block_ok _ _ _ _ _ Hok Hm Ef) as ([Ha Hi Hb Hp Hk Hu] & Ht & Hpb & Hnp & Hn & Hg). pose proof Hg as (_ & _ & Hal & _).
    assert (Hbs : block_size bm' = block_size bm) by (unfold block_size; by rewrite Hal). rewrite (wrap_small 32) by (unfold in_width; lia).
    split; [|split; [|split_and!; [done|done|by right|intros j; cbn; rewrite fmap_app; set_solver]]].
    + split; cbn; [done| | | |done|done].
      * rewrite fmap_app. apply NoDup_app. split_and!; [done| |apply NoDup_singleton]. intros j (pb & -> & Hq)%list_elem_of_fmap Hj. apply (Hpb pb Hq). set_solver.
      * intros q [Hq|Hq%list_elem_of_singleton]%elem_of_app; [by apply Hb|]. subst q. cbn. split_and!; [apply Ht..|lia|lia|done].
      * intros p Hp'. destruct (Hp p Hp') as (H1 & H2 & H3). split_and!; [apply H1..|done|]. intros q [Hq|Hq%list_elem_of_singleton]%elem_of_app Heq; [by apply H3|]. subst q. cbn in Heq. by destruct (Hnp p Hp').
    + split_and!; cbn; [apply Ht..|lia|lia| |].
      * intros q [Hq|Hq%list_elem_of_singleton]%elem_of_app Heq; [by destruct (Hpb q Hq)|]. subst q. cbn. lia.
      * intros p Hp' Heq. by destruct (Hnp p Hp').
Qed.

(** Storing the bytes at a fresh place keeps the pieces that are there. *)
Lemma write_to_block_ok bm pm ps id off data :
  whole_sectors bm -> pack_ok bm pm ps -> fresh_place bm pm ps id off (zlen data) ->
  exists pm2, write_to_block pm bm id off data = Ok pm2 /\ pack_ok bm pm2 ((id, off, data) :: ps).
Proof.
  intros Hw [Ha Hi Hb Hp Hk Hu] (Ht & Hoff & Hroom & Hpb & Hps). unfold write_to_block. set (buffer := default _ _).
  assert (Hz : zlen buffer = block_size bm).
  { unfold buffer. destruct (block_buffers_ pm !! id) as [b|] eqn:E; [by apply (Hu id b)|]. cbn. rewrite buffer_size_block by done. apply zlen_zeros. pose proof (zlen_nonneg data). lia. }
  destruct (blit_ok buffer off data) as (b & Eb & Hzb); [done|lia|]. rewrite Eb. cbn [mbind outcome_bind]. eexists. split; [done|].
  split; cbn; [done|done|done| | |].
  - intros p [->|Hp']%elem_of_cons; [|by apply Hp]. cbn. split_and!; [apply Ht..|done|]. intros pb Hin Heq. by apply Hpb.
  - intros p [->|Hp']%elem_of_cons; cbn.
    + exists b. cbn. rewrite lookup_insert_eq. split; [done|]. apply (read_stored _ _ (zlen data)). by eapply read_blit.
    + destruct (Hk p Hp') as (b0 & Hb0 & Hst). destruct (decide (p.1.1 = id)) as [Heq|Hne].
      * exists b. rewrite Heq, lookup_insert_eq. split; [done|]. apply (read_stored _ _ (zlen p.2)). erewrite (read_blit_other _ _ _ _ _ _ Eb); [|apply zlen_nonneg|left; by apply Hps].
        unfold buffer. rewrite <- Heq, Hb0. cbn. by apply stored_bytes_read.
      * exists b0. by rewrite lookup_insert_ne.
  - intros j c. rewrite lookup_insert. case_decide as Hj; [|apply Hu]. intros [= <-]. subst j. split; [lia|done].
Qed.

(** ** Flushing *)

(** Managers that differ in the file only. *)
Definition same_but_file (bm bm' : block_manager_t) : Prop := bm' = with_file bm (file_ bm').

Lemma same_but_file_trans bm1 bm2 bm3 : same_but_file bm1 bm2 -> same_but_file bm2 bm3 -> same_but_file bm1 bm3.
Proof. unfold same_but_file. intros H1 H2. rewrite H2, H1. done. Qed.

Lemma write_all_ok l bm :
  whole_sectors bm -> NoDup l.*1 -> Forall (fun p => 0 <= p.1 /\ zlen p.2 = block_size bm) l ->
  let bm' := foldl (fun bm p => write bm p.2 p.1) bm l in
  same_but_file bm bm' /\ (forall id b, (id, b) ∈ l -> block_at bm' id b) /\ (forall id b, id ∉ l.*1 -> block_at bm id b -> block_at bm' id b).
Proof.
  revert bm. induction l as [|[id b] l IH]; intros bm Hw Hnd Hl; cbn; [split_and!; [by destruct bm|set_solver|done]|].
  apply NoDup_cons in Hnd as [Hni Hnd]. apply Forall_cons in Hl as [[Hid Hz] Hl]. cbn in Hid, Hz.
  destruct (IH (write bm b id) Hw Hnd Hl) as (H1 & H2 & H3). split_and!; [by eapply (same_but_file_trans _ (write bm b id))| |].
  - intros j c [[= -> ->]|Hin]%elem_of_cons; [|by apply H2]. apply H3; [done|]. by apply write_here.
  - intros j c Hj Hc. apply not_elem_of_cons in Hj as [Hne Hj]. apply H3; [done|]. by apply write_elsewhere.
Qed.

Lemma flush_ok bm pm ps :
  whole_sectors bm -> pack_ok bm pm ps ->
  let bm' := (flush_partial_blocks crc32c pm bm).2 in
  same_but_file bm bm' /\ (forall id b, block_buffers_ pm !! id = Some b -> block_at bm' id b) /\
  (forall id b, block_buffers_ pm !! id = None -> block_at bm id b -> block_at bm' id b).
Proof.
  intros Hw Hok. destruct (write_all_ok (map_to_list (block_buffers_ pm)) bm Hw) as (H1 & H2 & H3).
  - apply NoDup_fst_map_to_list.
  - apply Forall_forall. intros [id b] Hin%elem_of_map_to_list. destruct (po_buffers _ _ _ Hok id b Hin) as [Hz [? _]]. cbn. lia.
  - cbn zeta. split_and!; [done| |].
    + intros id b Hb. by apply H2, elem_of_map_to_list.
    + intros id b Hn Hb. apply H3; [|done]. intros ((j & c) & -> & Hin%elem_of_map_to_list)%list_elem_of_fmap. cbn in Hn. congruence.
Qed.

End blocks.

(** ** Headers *)

Definition header_ok (h : database_header_t) : Prop :=
  Forall (fun z => 0 <= z < 2 ^ 64) [h_iteration h; h_meta_block h; h_free_list h; h_block_count h; h_block_alloc_size h; h_checksum h].

Lemma header_round_trip h : header_ok h -> header_of (header_bytes h) = Ok h.
Proof.
  unfold header_ok. rewrite !Forall_cons. intros (H1 & H2 & H3 & H4 & H5 & H6 & _). destruct h. cbn in *. unfold header_of, header_bytes. cbn.
  do 6 (repeat read_field). done.
Qed.

Lemma zlen_database_header h : zlen (header_bytes h) = SECTOR_SIZE.
Proof. unfold header_bytes. rewrite !zlen_app, !zlen_write_le, zlen_zeros by done. reflexivity. Qed.

Lemma sector_pos : 0 < SECTOR_SIZE.
Proof. done. Qed.

(** The three sectors of a file. *)
Record sectors (file : bytes) (h1 h2 : database_header_t) : Prop := {
  sec_main : read_bytes file 0 SECTOR_SIZE = Ok main_header;
  sec_first : read_bytes file SECTOR_SIZE SECTOR_SIZE = Ok (header_bytes h1);
  sec_second : read_bytes file (2 * SECTOR_SIZE) SECTOR_SIZE = Ok (header_bytes h2);
}.

Lemma load_sectors file h1 h2 :
  sectors file h1 h2 -> header_ok h1 -> header_ok h2 -> load_header file = Ok (inl (if bool_decide (h_iteration h2 <= h_iteration h1) then h1 else h2)).
Proof.
  intros [Hm H1 H2] Ho1 Ho2. unfold load_header. rewrite (read_at_inside _ _ _ _ sector_pos Hm). cbn [mbind outcome_bind].
  replace (validate main_header) with (Ok true) by reflexivity. cbn [mbind outcome_bind negb].
  rewrite (read_at_inside _ _ _ _ sector_pos H1), (read_at_inside _ _ _ _ sector_pos H2). cbn [mbind outcome_bind]. by rewrite !header_round_trip.
Qed.

Lemma write_first file h1 h2 h : sectors file h1 h2 -> sectors (file_write file SECTOR_SIZE (header_bytes h)) h h2.
Proof.
  intros [Hm H1 H2]. split; [eapply file_write_other|eapply file_write_same|eapply file_write_other]; rewrite ?zlen_database_header; unfold SECTOR_SIZE in *; try done; lia.
Qed.

Lemma write_second file h1 h2 h : sectors file h1 h2 -> sectors (file_write file (2 * SECTOR_SIZE) (header_bytes h)) h1 h.
Proof.
  intros [Hm H1 H2]. split; [eapply file_write_other|eapply file_write_other|eapply file_write_same]; rewrite ?zlen_database_header; unfold SECTOR_SIZE in *; try done; lia.
Qed.

(** A new file has its sectors. *)
Lemma create_sectors alloc : 0 <= alloc < 2 ^ 64 ->
  let h := DatabaseHeader 0 INVALID_INDEX INVALID_INDEX 0 alloc 0 in sectors (file_ (create_new_database alloc)) h h /\ header_ok h.
Proof.
  intros Ha. cbn zeta. set (h := DatabaseHeader _ _ _ _ _ _).
  assert (Hmain : read_bytes (file_write [] 0 main_header) 0 SECTOR_SIZE = Ok main_header) by (apply file_write_same; done).
  assert (H1 : read_bytes (file_write (file_write [] 0 main_header) SECTOR_SIZE (header_bytes h)) 0 SECTOR_SIZE = Ok main_header).
  { apply file_write_other; [done|done|left; done]. }
  assert (H2 : read_bytes (file_write (file_write [] 0 main_header) SECTOR_SIZE (header_bytes h)) SECTOR_SIZE SECTOR_SIZE = Ok (header_bytes h)).
  { apply file_write_same; [done|]. by rewrite zlen_database_header. }
  split; [split|].
  - apply file_write_other; [done|exact H1|left; done].
  - apply file_write_other; [done|exact H2|left; done].
  - apply file_write_same; [done|]. by rewrite zlen_database_header.
  - unfold header_ok, h. rewrite !Forall_cons. cbn. unfold INVALID_INDEX. split_and!; try lia. constructor.
Qed.

(** Both slots hold [h], the header in force. *)
Definition settled (bm : block_manager_t) (h : database_header_t) : Prop :=
  sectors (file_ bm) h h /\ header_ok h /\ h_iteration h = iteration_ bm.

(** Blocks lie behind the headers. *)
Lemma write_sectors (crc32c : bytes -> Z) bm id payload h1 h2 : whole_sectors bm -> 0 <= id -> sectors (file_ bm) h1 h2 -> sectors (file_ (write crc32c bm payload id)) h1 h2.
Proof.
  intros Hw Hid [Hm H1 H2]. pose proof (location_pos bm id Hw Hid). split; (apply file_write_other; [unfold BLOCK_START, SECTOR_SIZE in *; lia|done|left; unfold BLOCK_START, SECTOR_SIZE in *; lia]).
Qed.

Lemma write_settled (crc32c : bytes -> Z) bm id payload h : whole_sectors bm -> 0 <= id -> settled bm h -> settled (write crc32c bm payload id) h.
Proof. intros Hw Hid (Hs & Ho & Hi). split; [by apply write_sectors|done]. Qed.

Lemma flush_settled (crc32c : bytes -> Z) bm pm ps h : whole_sectors bm -> pack_ok bm pm ps -> settled bm h -> settled (flush_partial_blocks crc32c pm bm).2 h.
Proof.
  intros Hw Hok. unfold flush_partial_blocks. cbn [snd]. assert (Hl : Forall (fun p : Z * bytes => 0 <= p.1) (map_to_list (block_buffers_ pm))).
  { apply Forall_forall. intros [id b] Hin%elem_of_map_to_list. destruct (po_buffers _ _ _ Hok id b Hin) as [_ [? _]]. cbn. lia. }
  clear Hok. revert bm Hw. induction Hl as [|[id b] l Hid Hl IH]; intros bm Hw Hs; [done|]. apply (IH (write crc32c bm b id)); [done|]. by apply write_settled.
Qed.

Lemma grown_settled bm bm' h : grown bm bm' -> settled bm h -> settled bm' h.
Proof. intros (_ & Hf & _ & [Hi _] & _). unfold settled. by rewrite Hf, Hi. Qed.

Lemma next_header_ok bm header h :
  settled bm h -> header_ok header -> 0 <= meta_block_ bm < 2 ^ 64 -> 0 <= max_block_ bm < 2 ^ 64 -> 0 <= block_alloc_size_ bm < 2 ^ 64 -> header_ok (next_header bm header).
Proof.
  intros _ Hh Hm Hx Ha. unfold header_ok in *. rewrite !Forall_cons in *. destruct Hh as (_ & _ & H3 & _ & _ & H6 & _). cbn. unfold wrap.
  pose proof (Z.mod_pos_bound (iteration_ bm + 1) (2 ^ 64) ltac:(lia)). split_and!; try lia. constructor.
Qed.

(** The file after the first and after the second write of [write_header]. *)
Lemma header_files_sectors bm header h :
  settled bm h ->
  let h' := next_header bm header in
  (sectors (header_files bm header).1 h' h \/ sectors (header_files bm header).1 h h') /\ sectors (header_files bm header).2 h' h'.
Proof.
  intros (Hs & _ & _). cbn zeta. unfold header_files, header_slot, other_slot. cbn [fst snd]. case_bool_decide.
  - rewrite bool_decide_true by done. split; [left; by eapply write_first|]. by eapply write_second, write_first.
  - rewrite bool_decide_false by done. split; [right; by eapply write_second|]. by eapply write_first, write_second.
Qed.

(** ** Properties *)


Definition small_manager : block_manager_t := create_new_database SECTOR_SIZE.

Lemma small_manager_sectors : whole_sectors small_manager.
Proof. exists 1. split; [lia|reflexivity]. Qed.

Lemma small_manager_settled : settled small_manager (DatabaseHeader 0 INVALID_INDEX INVALID_INDEX 0 SECTOR_SIZE 0).
Proof. destruct (create_sectors SECTOR_SIZE) as [H1 H2]; [unfold SECTOR_SIZE; lia|]. split_and!; [exact H1|exact H2|reflexivity]. Qed.


(** C13: The header swap. Before [write_header] the old header is in force; from the first of its two writes on the new one is, with the
    meta block, block count and free list it was given; afterwards both slots hold it, so the next swap can start. *)
Theorem header_swap bm header h
    (Hs : settled bm h) (Hh : header_ok header) (Hm : 0 <= meta_block_ bm < 2 ^ 64) (Hx : 0 <= max_block_ bm < 2 ^ 64)
    (Ha : 0 <= block_alloc_size_ bm < 2 ^ 64) (Hi : iteration_ bm + 1 < 2 ^ 64) :
  load_header (file_ bm) = Ok (inl h) /\
  load_header (header_files bm header).1 = Ok (inl (next_header bm header)) /\
  load_header (file_ (write_header bm header)) = Ok (inl (next_header bm header)) /\
  settled (write_header bm header) (next_header bm header).
Proof.
  pose proof (next_header_ok _ _ _ Hs Hh Hm Hx Ha) as Hn. destruct (header_files_sectors bm header h Hs) as [H1 H2]. destruct Hs as (Hsec & Ho & Hit).
  assert (Hit' : h_iteration (next_header bm header) = h_iteration h + 1).
  { cbn. rewrite Hit. apply wrap_small. unfold in_width. unfold header_ok in Ho. rewrite Forall_cons in Ho. lia. }
  split_and!.
  - rewrite (load_sectors _ h h) by done. by case_bool_decide.
  - destruct H1 as [H1|H1]; rewrite (load_sectors _ _ _ H1) by done; case_bool_decide; try done; lia.
  - change (file_ (write_header bm header)) with (header_files bm header).2. rewrite (load_sectors _ _ _ H2) by done. by case_bool_decide.
  - split_and!; done.
Qed.

Lemma header_swap_witness :
  load_header (file_ (write_header small_manager (DatabaseHeader 0 0 5 0 0 0))) = Ok (inl (DatabaseHeader 1 INVALID_INDEX 5 0 SECTOR_SIZE 0)).
Proof.
  destruct (header_swap small_manager (DatabaseHeader 0 0 5 0 0 0) (DatabaseHeader 0 INVALID_INDEX INVALID_INDEX 0 SECTOR_SIZE 0)) as (_ & _ & H & _).
  - exact small_manager_settled.
  - unfold header_ok. rewrite !Forall_cons. cbn. split_and!; try lia. constructor.
  - cbn. unfold INVALID_INDEX. lia.
  - cbn. lia.
  - cbn. unfold SECTOR_SIZE. lia.
  - cbn. lia.
  - exact H.
Defined.

(** A torn header write: the iteration of the new header with the fields of the old one is taken for a header. *)
Lemma torn_header_accepted :
  load_header (file_write (file_ small_manager) SECTOR_SIZE (take 8 (header_bytes (DatabaseHeader 1 640 641 9 SECTOR_SIZE 0)))) =
    Ok (inl (DatabaseHeader 1 INVALID_INDEX INVALID_INDEX 0 SECTOR_SIZE 0)).
Proof. vm_compute. reflexivity. Qed.
