(* ===== verification/ColumnCheckpoint.v ===== *)
(** * Checkpointing columns

    [column_checkpoint_state_t::flush_segment] of [components/table/column_checkpoint_state.cpp]: the
    segment of a column is encoded, placed in a block by the partial block manager and described by a data
    pointer; [column_data_checkpointer.cpp], [row_group_t::write_to_disk] and [collection_t::checkpoint]
    do this for all segments. The segments of the live table that were in memory only get a block of
    their own ([column_data_t::transition_to_disk]); [column_data_t::initialize_column] makes segments of
    the pointers again. Pinning a block gives its contents; that it can run out of memory is left out. *)

From S2P Require Import Prelude.
From S2P Require Import Bytes.
From S2P Require Import ColumnCompression.
From S2P Require Import BlockManager.
#[local] Open Scope Z_scope.

Record data_pointer_t := DataPointer {
  dp_row_start : Z;
  dp_tuple_count : Z;
  dp_block_id : Z;
  dp_offset : Z;
  dp_compression : compression_type;
  dp_segment_size : Z;
}.

(** Blocks from here on are in memory only. *)
Definition MAXIMUM_BLOCK : Z := 2 ^ 62.

(** A segment with its block and the contents of it. [is_fixed_size] is false for strings, validity bits and
    unknown types, [is_raw_copyable] for strings, unknown types and nested types. *)
Record loaded_segment := LoadedSegment {
  ls_segment : column_segment_t;
  ls_block : Z;
  ls_data : bytes;
  is_fixed_size : bool;
  is_raw_copyable : bool;
}.

(** An allocation of [size] bytes with the bytes written to it. *)
Definition place (pm : partial_block_manager_t) (bm : block_manager_t) (size : Z) (bytes : outcome bytes) : outcome (partial_block_allocation_t * partial_block_manager_t * block_manager_t) :=
  let '(allocation, pm, bm) := get_block_allocation pm bm size in
  data ← bytes;
  pm ← write_to_block pm bm (al_block_id allocation) (offset_in_block allocation) data;
  Ok (allocation, pm, bm).

Definition pointer_to (row_start tuple_count : Z) (compression : compression_type) (size : Z) (r : partial_block_allocation_t * partial_block_manager_t * block_manager_t) :
    data_pointer_t * partial_block_manager_t * block_manager_t :=
  let '(a, pm, bm) := r in (DataPointer row_start tuple_count (al_block_id a) (offset_in_block a) compression size, pm, bm).

Definition flush_segment (s : loaded_segment) (row_start tuple_count : Z) (pm : partial_block_manager_t) (bm : block_manager_t) :
    outcome (data_pointer_t * partial_block_manager_t * block_manager_t) :=
  let seg := ls_segment s in
  let data := ls_data s in
  let ts := type_size seg in
  let uncompressed :=
    let size := segment_size_ seg in
    if bool_decide (0 < size) then r ← place pm bm size (read_bytes data 0 size); Ok (pointer_to row_start tuple_count UNCOMPRESSED size r)
    else Ok (pointer_to row_start tuple_count UNCOMPRESSED size (get_block_allocation pm bm size)) in
  if bool_decide (compression_ seg <> UNCOMPRESSED /\ 0 < segment_size_ seg) then
    let compressed_size := segment_size_ seg in
    r ← place pm bm compressed_size (read_bytes data (offset_ seg) compressed_size);
    Ok (pointer_to row_start tuple_count (compression_ seg) compressed_size r)
  else if is_fixed_size s && bool_decide (1 < tuple_count /\ 0 < ts) then
    let segment_data := drop (Z.to_nat (offset_ seg)) data in
    constant ← is_constant_data segment_data ts tuple_count;
    if constant : bool then
      r ← place pm bm ts (read_bytes segment_data 0 ts);
      Ok (pointer_to row_start tuple_count CONSTANT ts r)
    else
      num_runs ← count_runs segment_data ts tuple_count;
      let rle_size := u64 (4 + num_runs * (ts + 4)) in
      let uncompressed_size := u64 (ts * tuple_count) in
      if bool_decide (rle_size < uncompressed_size) then
        rle_buf ← build_rle_buffer segment_data ts tuple_count;
        r ← place pm bm rle_size (read_bytes rle_buf 0 rle_size);
        Ok (pointer_to row_start tuple_count RLE rle_size r)
      else
        dict_info ← analyze_dictionary segment_data ts tuple_count;
        if bool_decide (1 < num_unique dict_info /\ compressed_size dict_info < uncompressed_size) then
          dict_buf ← build_dict_buffer segment_data ts tuple_count dict_info;
          r ← place pm bm (compressed_size dict_info) (read_bytes dict_buf 0 (compressed_size dict_info));
          Ok (pointer_to row_start tuple_count DICTIONARY (compressed_size dict_info) r)
        else uncompressed
  else uncompressed.

(** [column_data_checkpointer_t::checkpoint]: the pointers of a column, in the order of its segments. *)
Fixpoint checkpoint_column (segments : list loaded_segment) (pm : partial_block_manager_t) (bm : block_manager_t) :
    outcome (list data_pointer_t * partial_block_manager_t * block_manager_t) :=
  match segments with
  | [] => Ok ([], pm, bm)
  | s :: segments =>
      r ← flush_segment s (u64 (start (ls_segment s))) (count (ls_segment s)) pm bm;
      let '(dp, pm, bm) := r in
      r ← checkpoint_column segments pm bm;
      let '(dps, pm, bm) := r in Ok (dp :: dps, pm, bm)
  end.

(** ** Live segments *)

Section live.
Context (crc32c : bytes -> Z).

Definition transition_segment_to_disk (s : loaded_segment) (bm : block_manager_t) : outcome (loaded_segment * block_manager_t) :=
  let seg := ls_segment s in
  if bool_decide (ls_block s < MAXIMUM_BLOCK) then Ok (s, bm)
  else if bool_decide (offset_ seg <> 0) then Ok (s, bm)
  else if bool_decide (compression_ seg <> UNCOMPRESSED) then Ok (s, bm)
  else if negb (is_raw_copyable s) then Ok (s, bm)
  else if bool_decide (block_size bm < segment_size_ seg) then Fault Abort
  else
    let '(disk_block_id, bm) := free_block_id bm in
    payload ← read_bytes (ls_data s) (offset_ seg) (segment_size_ seg);
    block ← blit (zeros (buffer_size bm)) 0 payload;
    let bm := write crc32c bm block disk_block_id in
    let new_segment := ColumnSegment (start seg) (count seg) (type_size seg) 0 (segment_size_ seg) UNCOMPRESSED in
    Ok (LoadedSegment new_segment disk_block_id block (is_fixed_size s) (is_raw_copyable s), bm).

Fixpoint transition_to_disk (segments : list loaded_segment) (bm : block_manager_t) : outcome (list loaded_segment * block_manager_t) :=
  match segments with
  | [] => Ok ([], bm)
  | s :: segments =>
      r ← transition_segment_to_disk s bm;
      let '(s, bm) := r in
      r ← transition_to_disk segments bm;
      let '(segments, bm) := r in Ok (s :: segments, bm)
  end.

(** ** Tables *)

(** A column and its validity bits, which are a column of their own. *)
Record column_t := Column { data_ : list loaded_segment; validity_ : list loaded_segment }.

(** [column_data_t::checkpoint]. *)
Definition checkpoint (c : column_t) (pm : partial_block_manager_t) (bm : block_manager_t) :
    outcome (list data_pointer_t * column_t * partial_block_manager_t * block_manager_t) :=
  r ← checkpoint_column (data_ c) pm bm;
  let '(dps, pm, bm) := r in
  r ← transition_to_disk (data_ c) bm;
  let '(data, bm) := r in
  r ← transition_to_disk (validity_ c) bm;
  let '(validity, bm) := r in
  Ok (dps, Column data validity, pm, bm).

(** The loop of [row_group_t::write_to_disk]. *)
Fixpoint checkpoint_columns (columns : list column_t) (pm : partial_block_manager_t) (bm : block_manager_t) :
    outcome (list (list data_pointer_t) * list column_t * partial_block_manager_t * block_manager_t) :=
  match columns with
  | [] => Ok ([], [], pm, bm)
  | c :: columns =>
      r ← checkpoint c pm bm;
      let '(dps, c, pm, bm) := r in
      r ← checkpoint_columns columns pm bm;
      let '(rest, columns, pm, bm) := r in Ok (dps :: rest, c :: columns, pm, bm)
  end.

Record row_group_pointer_t := RowGroupPointer {
  rg_row_start : Z;
  rg_tuple_count : Z;
  data_pointers : list (list data_pointer_t);
  deletes_pointers : list data_pointer_t;
}.

Record row_group_t := RowGroup { rg_start : Z; rg_count : Z; columns_ : list column_t }.

Definition write_to_disk (rg : row_group_t) (pm : partial_block_manager_t) (bm : block_manager_t) :
    outcome (row_group_pointer_t * row_group_t * partial_block_manager_t * block_manager_t) :=
  r ← checkpoint_columns (columns_ rg) pm bm;
  let '(dps, columns, pm, bm) := r in Ok (RowGroupPointer (u64 (rg_start rg)) (rg_count rg) dps [], RowGroup (rg_start rg) (rg_count rg) columns, pm, bm).

Fixpoint checkpoint_row_groups (rgs : list row_group_t) (pm : partial_block_manager_t) (bm : block_manager_t) :
    outcome (list row_group_pointer_t * list row_group_t * partial_block_manager_t * block_manager_t) :=
  match rgs with
  | [] => Ok ([], [], pm, bm)
  | rg :: rgs =>
      r ← write_to_disk rg pm bm;
      let '(p, rg, pm, bm) := r in
      r ← checkpoint_row_groups rgs pm bm;
      let '(ps, rgs, pm, bm) := r in Ok (p :: ps, rg :: rgs, pm, bm)
  end.

(** [collection_t::checkpoint]. *)
Definition checkpoint_collection (rgs : list row_group_t) (pm : partial_block_manager_t) (bm : block_manager_t) :
    outcome (list row_group_pointer_t * list row_group_t * block_manager_t) :=
  r ← checkpoint_row_groups rgs pm bm;
  let '(ps, rgs, pm, bm) := r in Ok (ps, rgs, (flush_partial_blocks crc32c pm bm).2).

End live.

(** [initialize_column]: the block and the segment of each pointer, in a column of values of [ts] bytes, and the rows of the column
    where there are pointers. *)
Definition segment_of (ts : Z) (dp : data_pointer_t) : column_segment_t :=
  ColumnSegment (s64 (dp_row_start dp)) (dp_tuple_count dp) ts (dp_offset dp) (dp_segment_size dp) (dp_compression dp).

Definition initialize_column (ts : Z) (dps : list data_pointer_t) : list (Z * column_segment_t) * option Z :=
  (map (fun dp => (dp_block_id dp, segment_of ts dp)) dps, match dps with [] => None | _ => Some (foldl (fun total dp => u64 (total + dp_tuple_count dp)) 0 dps) end).
