(* ===== verification/ColumnCheckpointTheorems.v ===== *)
(** * Checkpointed columns read back

    A checkpoint encodes each segment so that the segment made of its data pointer reads the same values
    out of the block in the file, whichever encoding was chosen and however many segments share the
    block; segments loaded from an earlier checkpoint survive the next one; the live segments that are
    moved to blocks of their own keep their values. *)

From S2P Require Import Prelude.
From S2P Require Import Bytes.
From S2P Require Import ColumnCompression.
From S2P Require Import ColumnCompressionTheorems.
From S2P Require Import BlockManager.
From S2P Require Import BlockManagerTheorems.
From S2P Require Import ColumnCheckpoint.
#[local] Open Scope Z_scope.

(** ** Encodings *)

(** Wherever the bytes [bs] lie, the segment there reads as [vals]. *)
Definition encodes (ts st n : Z) (c : compression_type) (bs : bytes) (vals : list bytes) : Prop :=
  forall block off, stored block off bs -> reads_back (ColumnSegment st n ts off (zlen bs) c) block vals.

Lemma encodes_constant ts st n v k : zlen v = ts -> encodes ts st n CONSTANT v (replicate k v).
Proof. intros Hv block off Hs. by apply constant_reads_back. Qed.

Lemma encodes_rle ts st rs : 0 <= ts -> runs_ok ts rs -> zlen rs < 2 ^ 32 -> total rs < 2 ^ 64 -> encodes ts st (total rs) RLE (rle_bytes rs) (expand rs).
Proof. intros Hts Hok Hl Ht block off Hs. by apply rle_reads_back. Qed.

Lemma encodes_dict ts st ks ixs vals :
  zlen ks <= MAX_DICT_ENTRIES -> Forall (fun v => zlen v = ts) ks -> Forall2 (fun i v => ks !!z i = Some v) ixs vals -> encodes ts st (zlen vals) DICTIONARY (dict_bytes ks ixs) vals.
Proof. intros Hk Hs Hi block off Hst. by eapply dict_reads_back. Qed.

Lemma encodes_plain ts st vals rest : Forall (fun v => zlen v = ts) vals -> encodes ts st (zlen vals) UNCOMPRESSED (concat vals ++ rest) vals.
Proof.
  intros Hv block off Hs. apply stored_app in Hs as [Hs _]. split; cbn [start type_size].
  - intros i v dest idx Hi. unfold fetch_row. cbn [compression_ type_size]. unfold fixed_size_fetch_row. cbn [start offset_ type_size].
    replace (st + Z.of_nat i - st) with (Z.of_nat i) by lia. by rewrite (stored_nth _ _ _ vals i v).
  - intros row n dest ro Hr Hn Hro Hroom. unfold scan_partial. cbn [compression_]. pose proof (relative_row (ColumnSegment st (zlen vals) ts off (zlen (concat vals ++ rest)) UNCOMPRESSED) row) as Hrel.
    cbn [start count] in Hrel. rewrite Hrel by (unfold zlen; lia). cbn [mbind outcome_bind]. unfold fixed_size_scan_partial. cbn [type_size offset_].
    rewrite <- (take_drop row vals), <- (take_drop n (drop row vals)), !concat_app in Hs. apply stored_app in Hs as [_ Hs]. apply stored_app in Hs as [Hs _].
    apply stored_bytes_read in Hs. rewrite (zlen_concat ts) in Hs by (by apply Forall_take). rewrite (zlen_concat ts) in Hs by (by apply Forall_take, Forall_drop).
    assert (H1 : zlen (take row vals) = Z.of_nat row) by (unfold zlen; rewrite length_take; lia). assert (H2 : zlen (take n (drop row vals)) = Z.of_nat n) by (unfold zlen; rewrite length_take, length_drop; lia).
    rewrite H1, H2 in Hs. rewrite Hs. done.
Qed.

(** The encoding without a place. *)
Lemma encodes_size ts st n c bs vals : encodes ts st n c bs vals -> forall block off size, size = zlen bs -> stored block off bs -> reads_back (ColumnSegment st n ts off size c) block vals.
Proof. intros H block off size -> Hs. by apply H. Qed.

(** ** Segments *)

(** A segment that holds [vals]: fresh ones are not compressed and start their block. *)
Record segment_ok (s : loaded_segment) (vals : list bytes) : Prop := {
  so_fixed : is_fixed_size s = true;
  so_type : 0 < type_size (ls_segment s) < 2 ^ 31;
  so_start : in_signed64 (start (ls_segment s));
  so_count : count (ls_segment s) = zlen vals;
  so_rows : 1 <= zlen vals < 2 ^ 32;
  so_bytes : exists bs, stored (ls_data s) (offset_ (ls_segment s)) bs /\ zlen bs = segment_size_ (ls_segment s) /\
    encodes (type_size (ls_segment s)) (start (ls_segment s)) (zlen vals) (compression_ (ls_segment s)) bs vals /\
    (compression_ (ls_segment s) = UNCOMPRESSED -> offset_ (ls_segment s) = 0 /\ Forall (fun v => zlen v = type_size (ls_segment s)) vals /\ exists rest, bs = concat vals ++ rest);
  so_size : 0 < segment_size_ (ls_segment s);
}.

(** What the segment of a data pointer is. *)
Definition pointer_ok (ts : Z) (dp : data_pointer_t) (bs : bytes) (vals : list bytes) : Prop :=
  dp_segment_size dp = zlen bs /\ dp_tuple_count dp = zlen vals /\ encodes ts (s64 (dp_row_start dp)) (zlen vals) (dp_compression dp) bs vals /\
  (dp_compression dp = UNCOMPRESSED -> Forall (fun v => zlen v = ts) vals /\ exists rest, bs = concat vals ++ rest).

Lemma pointer_reads ts dp bs vals block : pointer_ok ts dp bs vals -> stored block (dp_offset dp) bs -> reads_back (segment_of ts dp) block vals.
Proof. intros (Hs & Hc & He & _) Hst. unfold segment_of. rewrite Hc. by eapply encodes_size. Qed.

Lemma stored_prefix block a b : stored block 0 (a ++ b) -> drop (Z.to_nat 0) block = block /\ stored block 0 a.
Proof. intros H. split; [by rewrite drop_0|]. by apply stored_app in H as [? _]. Qed.

(** Values at the start of a buffer. *)
Lemma stored_holds block ts vals : Forall (fun v => zlen v = ts) vals -> stored block 0 (concat vals) -> holds block ts vals.
Proof. intros Hv Hs i v Hi. unfold element. by rewrite <- (stored_nth block 0 ts vals i v). Qed.

Section checkpoint.
Context (crc32c : bytes -> Z).
(** The header in force. *)
Context (header : database_header_t).
(** Blocks that are taken for something else. *)
Context (reserved : list Z).
Context (most_free : Z).

(** A block that is neither free nor being filled. *)
Definition quiet (bm : block_manager_t) (pm : partial_block_manager_t) (id : Z) : Prop :=
  taken bm id /\ block_buffers_ pm !! id = None /\ id ∉ pb_block_id <$> partial_blocks_ pm.

(** Blocks that are in the file. *)
Definition disk_ok (bm : block_manager_t) (pm : partial_block_manager_t) (ds : list (Z * bytes)) : Prop :=
  (forall id b, (id, b) ∈ ds -> block_at crc32c bm id b /\ quiet bm pm id /\ id ∉ reserved) /\ (forall id, id ∈ reserved -> quiet bm pm id).

(** What a checkpoint relies on: whole sectors, blocks below 4 GiB, ids of 32 bits, a bounded free list, intact headers. *)
Record room (bm : block_manager_t) (k : Z) : Prop := {
  rm_sectors : whole_sectors bm;
  rm_full : full_size (block_size bm) <= block_size bm < 2 ^ 32;
  rm_ids : max_block_ bm + k < 2 ^ 32;
  rm_free : zlen (free_list_ bm) <= most_free;
  rm_settled : settled bm header;
}.

Lemma block_at_same bm bm' id b : file_ bm' = file_ bm -> block_alloc_size_ bm' = block_alloc_size_ bm -> block_at crc32c bm id b -> block_at crc32c bm' id b.
Proof. unfold block_at, block_size, block_location. intros -> ->. done. Qed.

(** Placing bytes in a block. *)
Lemma place_ok bm pm ps ds bs size n k :
  pack_ok bm pm ps -> disk_ok bm pm ds -> room bm (k + 1) -> 0 <= k -> size = zlen bs -> n = Ok bs -> 0 <= size <= block_size bm ->
  exists a pm' bm', place pm bm size n = Ok (a, pm', bm') /\ pack_ok bm' pm' ((al_block_id a, offset_in_block a, bs) :: ps) /\ disk_ok bm' pm' ds /\ room bm' k /\
    block_alloc_size_ bm' = block_alloc_size_ bm /\ taken bm' (al_block_id a) /\ 0 <= offset_in_block a.
Proof.
  intros Hok Hd [Hw Hf Hm Hfl Hset] Hk -> -> Hs. unfold place. destruct (get_block_allocation pm bm (zlen bs)) as [[a pm1] bm1] eqn:E.
  destruct (allocation_ok bm pm ps _ a pm1 bm1 Hok Hs Hf ltac:(lia) E) as (Hok1 & Hfresh & Hbuf & Hg & Hid & Hids). pose proof Hg as (Hmono & Hfile & Hal & [_ Hfree] & Hmax).
  assert (Hw1 : whole_sectors bm1) by (unfold whole_sectors; by rewrite Hal). assert (Hbs : block_size bm1 = block_size bm) by (unfold block_size; by rewrite Hal).
  destruct (write_to_block_ok bm1 pm1 ps _ _ bs Hw1 Hok1 Hfresh) as (pm2 & E2 & Hok2). cbn [mbind outcome_bind]. rewrite E2. exists a, pm2, bm1.
  split; [done|]. split; [done|]. destruct Hfresh as (Htk & Hoff & _). 
  split; [|split; [split; [done|by rewrite Hbs|lia|lia|by eapply grown_settled]|done]].
  assert (Hq : forall id, quiet bm pm id -> quiet bm1 pm2 id).
  { intros id (H2 & H3 & H4). split; [by apply Hmono|]. assert (Hne : id <> al_block_id a) by (intros ->; by destruct Hid). unfold write_to_block in E2. invert_ok. subst pm2. cbn. split.
    - by rewrite lookup_insert_ne, Hbuf.
    - intros [?|?]%Hids; done. }
  destruct Hd as [Hd Hres]. split; [|auto]. intros id b Hin. destruct (Hd id b Hin) as (H1 & H2 & H3). split; [by eapply block_at_same|]. auto.
Qed.

(** The outcome of flushing a segment. *)
Definition flushed (bm : block_manager_t) (ps : list piece) (ds : list (Z * bytes)) (k ts st : Z) (vals : list bytes) (m : outcome (data_pointer_t * partial_block_manager_t * block_manager_t)) : Prop :=
  exists dp pm' bm' bs, m = Ok (dp, pm', bm') /\ pack_ok bm' pm' ((dp_block_id dp, dp_offset dp, bs) :: ps) /\ disk_ok bm' pm' ds /\ room bm' k /\
    block_alloc_size_ bm' = block_alloc_size_ bm /\ pointer_ok ts dp bs vals /\ dp_row_start dp = u64 st /\ taken bm' (dp_block_id dp) /\ 0 <= dp_offset dp.

Lemma placed bm pm ps ds k ts st c size n bs vals :
  pack_ok bm pm ps -> disk_ok bm pm ds -> room bm (k + 1) -> 0 <= k -> size = zlen bs -> n = Ok bs -> 0 <= size <= block_size bm -> in_signed64 st ->
  encodes ts st (zlen vals) c bs vals -> (c = UNCOMPRESSED -> Forall (fun v => zlen v = ts) vals /\ exists rest, bs = concat vals ++ rest) ->
  flushed bm ps ds k ts st vals (r ← place pm bm size n; Ok (pointer_to (u64 st) (zlen vals) c size r)).
Proof.
  intros Hok Hd Hr Hk Hsz Hn Hb Hst He Hu. destruct (place_ok bm pm ps ds bs size n k Hok Hd Hr Hk Hsz Hn Hb) as (a & pm' & bm' & E & H1 & H2 & H3 & H4 & H5 & H6).
  rewrite E. cbn [mbind outcome_bind pointer_to]. eexists _, pm', bm', bs. split; [done|]. cbn. split_and!; try done; [|apply H5..].
  split_and!; cbn [dp_segment_size dp_tuple_count dp_compression dp_row_start]; [done|done| |done]. unfold wrap. by rewrite s64_mod.
Qed.

Section fresh.
Context (bm : block_manager_t) (pm : partial_block_manager_t) (ps : list piece) (ds : list (Z * bytes)) (k : Z).
Context (Hok : pack_ok bm pm ps) (Hd : disk_ok bm pm ds) (Hr : room bm (k + 1)) (Hk : 0 <= k).
Context (data : bytes) (ts st size : Z) (v : bytes) (l : list bytes) (rest : bytes).
Context (Hts : 0 < ts < 2 ^ 31) (Hst : in_signed64 st) (Hn : zlen l + 1 < 2 ^ 32) (Hv : Forall (fun v => zlen v = ts) (v :: l)).
Context (Hdata : stored data 0 (concat (v :: l) ++ rest)) (Hsize : zlen (concat (v :: l) ++ rest) = size) (Hblock : size <= block_size bm).

Lemma fresh_holds : holds data ts (v :: l).
Proof. apply stored_holds; [done|]. by apply stored_app in Hdata as [? _]. Qed.

Lemma fresh_fits : (zlen l + 1) * ts <= size.
Proof. rewrite <- Hsize, zlen_app, (zlen_concat ts), zlen_cons by done. pose proof (zlen_nonneg rest). lia. Qed.

Lemma flush_plain : flushed bm ps ds k ts st (v :: l) (r ← place pm bm size (read_bytes data 0 size); Ok (pointer_to (u64 st) (zlen (v :: l)) UNCOMPRESSED size r)).
Proof.
  pose proof (zlen_nonneg (concat (v :: l) ++ rest)). eapply placed; try done; [by rewrite <- Hsize; apply stored_bytes_read|lia|by apply encodes_plain|]. intros _. split; [done|]. by exists rest.
Qed.

Lemma flush_constant :
  Forall (eq v) l -> flushed bm ps ds k ts st (v :: l) (r ← place pm bm ts (read_bytes data 0 ts); Ok (pointer_to (u64 st) (zlen (v :: l)) CONSTANT ts r)).
Proof.
  intros Hall. pose proof fresh_fits. pose proof (zlen_nonneg l). pose proof Hv as Hv0. apply Forall_cons in Hv0 as [Hzv _].
  assert (El : v :: l = replicate (length (v :: l)) v).
  { clear -Hall. cbn. f_equal. induction Hall as [|x l <- _ IH]; [done|]. cbn. by f_equal. }
  eapply (placed _ _ _ _ _ _ _ _ _ _ v); try done; [|nia|].
  - pose proof (fresh_holds 0%nat v eq_refl) as Hel. unfold element in Hel. by rewrite Z.mul_0_l in Hel.
  - rewrite El at 2. by apply encodes_constant.
Qed.

Lemma flush_rle :
  let rle_size := u64 (4 + zlen (group v 1 l) * (ts + 4)) in
  rle_size < u64 (ts * zlen (v :: l)) ->
  flushed bm ps ds k ts st (v :: l)
    (rle_buf ← build_rle_buffer data ts (zlen (v :: l)); r ← place pm bm rle_size (read_bytes rle_buf 0 rle_size); Ok (pointer_to (u64 st) (zlen (v :: l)) RLE rle_size r)).
Proof.
  cbn zeta. pose proof fresh_fits. pose proof (zlen_nonneg l). pose proof (rm_full _ _ Hr) as Hfull. pose proof (length_group_pos v 1 l) as Hg.
  pose proof (group_ok ts v 1 l Hv ltac:(lia) ltac:(lia)) as Hgok. rewrite zlen_cons. assert (Hrs : zlen (group v 1 l) < 2 ^ 32) by (unfold zlen in *; lia).
  pose proof (zlen_nonneg (group v 1 l)) as Hg0. rewrite !wrap_small by (unfold in_width; nia). intros Hlt.
  rewrite <- zlen_cons with (x := v). rewrite (build_rle_buffer_spec data ts v l fresh_holds) by lia. cbn [mbind outcome_bind].
  assert (Hz : 4 + zlen (group v 1 l) * (ts + 4) = zlen (rle_bytes (group v 1 l))) by (unfold rle_bytes; rewrite zlen_app, zlen_write_le, (zlen_entries ts) by done; lia).
  assert (Hx : expand (group v 1 l) = v :: l) by (by rewrite expand_group).
  eapply placed; try done; [by apply read_bytes_all|lia|]. pose proof (encodes_rle ts st (group v 1 l)) as He. unfold total in He. rewrite Hx in He.
  apply He; [lia|done|done|]. rewrite zlen_cons. lia.
Qed.

Lemma flush_dict an ks ixs :
  build_dict_buffer data ts (zlen (v :: l)) an = Ok (dict_bytes ks ixs) -> compressed_size an = zlen (dict_bytes ks ixs) -> Forall2 (fun i v => ks !!z i = Some v) ixs (v :: l) ->
  zlen ks <= MAX_DICT_ENTRIES -> Forall (fun v => zlen v = ts) ks -> compressed_size an < u64 (ts * zlen (v :: l)) ->
  flushed bm ps ds k ts st (v :: l)
    (dict_buf ← build_dict_buffer data ts (zlen (v :: l)) an; r ← place pm bm (compressed_size an) (read_bytes dict_buf 0 (compressed_size an)); Ok (pointer_to (u64 st) (zlen (v :: l)) DICTIONARY (compressed_size an) r)).
Proof.
  intros Hb Hc Hi Hks Hsz Hlt. pose proof fresh_fits. pose proof (zlen_nonneg l). pose proof (rm_full _ _ Hr). rewrite zlen_cons, wrap_small in Hlt by (unfold in_width; nia).
  rewrite Hb. cbn [mbind outcome_bind]. pose proof (zlen_nonneg (dict_bytes ks ixs)). eapply placed; try done; [by apply read_bytes_all|lia|]. by apply encodes_dict.
Qed.

End fresh.

Lemma flush_segment_ok bm pm ps ds k s vals :
  pack_ok bm pm ps -> disk_ok bm pm ds -> room bm (k + 1) -> 0 <= k -> segment_ok s vals -> segment_size_ (ls_segment s) <= block_size bm ->
  flushed bm ps ds k (type_size (ls_segment s)) (start (ls_segment s)) vals (flush_segment s (u64 (start (ls_segment s))) (count (ls_segment s)) pm bm).
Proof.
  intros Hok Hd Hr Hk Hs Hblock. destruct Hs as [Hfix Hts Hst Hcount Hrows (bs & Hbs & Hz & He & Hu) Hsize]. unfold flush_segment. rewrite Hcount, Hfix.
  set (seg := ls_segment s) in *. set (ts := type_size seg) in *. destruct (decide (compression_ seg = UNCOMPRESSED)) as [Hc|Hc].
  2:{ rewrite bool_decide_true by done. eapply placed; try done; [by rewrite <- Hz; apply stored_bytes_read|lia]. }
  rewrite bool_decide_false by tauto. destruct (Hu Hc) as (Hoff & Hv & rest & ->). rewrite Hoff in *. destruct vals as [|v l]; [change (zlen []) with 0 in Hrows; lia|].
  rewrite zlen_cons in Hrows. assert (Hn : zlen l + 1 < 2 ^ 32) by lia. rewrite (bool_decide_true (0 < segment_size_ seg)) by done. change (Z.to_nat 0) with 0%nat. rewrite drop_0.
  pose proof (flush_plain bm pm ps ds k Hok Hd Hr Hk (ls_data s) ts (start seg) _ v l rest Hst Hv Hbs Hz Hblock) as Hplain.
  cbn [andb]. case_bool_decide as Htc; [|done].
  pose proof (fresh_holds (ls_data s) ts v l rest Hv Hbs) as Hh. rewrite (is_constant_data_spec _ _ v l Hh). cbn [mbind outcome_bind].
  case_bool_decide as Hall; [by eapply flush_constant|]. rewrite (count_runs_spec _ _ v l Hh Hn). cbn [mbind outcome_bind].
  case_bool_decide as Hrle; [by eapply flush_rle|].
  destruct (dictionary_spec (ls_data s) ts (v :: l) Hh) as (an & Ean & Hdict); [done|by rewrite zlen_cons|lia|]. rewrite Ean. cbn [mbind outcome_bind].
  case_bool_decide as Hb; [|done]. destruct Hdict as [H0|(ks & ixs & H1 & H2 & H3 & H4 & H5)]; [lia|]. eapply flush_dict; try done. apply Hb.
Qed.

(** ** Moving live segments to blocks of their own *)

(** The bytes to copy are there and fit a block. *)
Definition movable (bm : block_manager_t) (s : loaded_segment) : Prop :=
  0 <= segment_size_ (ls_segment s) <= block_size bm /\ (offset_ (ls_segment s) = 0 -> segment_size_ (ls_segment s) <= zlen (ls_data s)).

(** [s'] is [s], or a copy of it in a block of the file. *)
Definition moved (ds : list (Z * bytes)) (s s' : loaded_segment) : Prop :=
  s' = s \/
  (let seg := ls_segment s in
   compression_ seg = UNCOMPRESSED /\ offset_ seg = 0 /\ (ls_block s', ls_data s') ∈ ds /\ is_fixed_size s' = is_fixed_size s /\
   ls_segment s' = ColumnSegment (start seg) (count seg) (type_size seg) 0 (segment_size_ seg) UNCOMPRESSED /\
   read_bytes (ls_data s') 0 (segment_size_ seg) = read_bytes (ls_data s) 0 (segment_size_ seg)).

Lemma moved_mono ds ds' s s' : ds ⊆ ds' -> moved ds s s' -> moved ds' s s'.
Proof. intros Hs [->|(H1 & H2 & H3 & H4)]; [by left|]. right. split_and!; auto; apply H4. Qed.

Lemma moved_segment_ok ds s s' vals : moved ds s s' -> segment_ok s vals -> segment_ok s' vals.
Proof.
  intros [->|(Hc & Hoff & _ & Hfix & Hseg & Hread)] Hok; [done|]. destruct Hok as [H1 H2 H3 H4 H5 (bs & Hst & Hz & He & Hu) H7].
  rewrite Hoff in Hst. pose proof (stored_bytes_read _ _ _ Hst) as Hrd. rewrite Hz, <- Hread in Hrd. apply read_stored in Hrd.
  split; rewrite ?Hseg; cbn; [by rewrite Hfix|done|done|done|done| |done]. exists bs. rewrite Hc in *. split_and!; [done|done|done|]. intros _. split; [done|]. by apply Hu.
Qed.

Lemma disk_add bm pm ds id bm' b :
  disk_ok bm pm ds -> pack_ok bm' pm [] -> ~ taken bm id -> taken bm' id -> (forall j, taken bm j -> taken bm' j) -> file_ bm' = file_ bm -> block_alloc_size_ bm' = block_alloc_size_ bm ->
  (forall pb, pb ∈ partial_blocks_ pm -> pb_block_id pb <> id) -> block_buffers_ pm !! id = None -> whole_sectors bm' -> zlen b = block_size bm' ->
  disk_ok (write crc32c bm' b id) pm ((id, b) :: ds).
Proof.
  intros [Hd Hres] Hok Hn Ht Hmono Hf Ha Hpb Hbuf Hw Hz. assert (Hq : forall j, quiet bm pm j -> quiet (write crc32c bm' b id) pm j) by (intros j (H1 & H2 & H3); split; [by apply Hmono|done]).
  split; [|auto]. intros j c [[= -> ->]|Hin]%elem_of_cons.
  - split; [apply write_here; [done|destruct Ht; lia|done]|]. split; [|intros Hin; by destruct (Hres id Hin)]. split; [done|split; [done|]].
    intros (pb & -> & Hq')%list_elem_of_fmap. by apply (Hpb pb).
  - destruct (Hd j c Hin) as (H1 & H2 & H3). assert (j <> id) by (intros ->; by destruct H2). split; [|auto].
    apply write_elsewhere; [done|destruct Ht; lia|done|done|]. by eapply block_at_same.
Qed.

Lemma pack_ok_file bm pm ps f : pack_ok bm pm ps -> pack_ok (with_file bm f) pm ps.
Proof. intros [[? ? ?] ? ? ? ? ?]. by split. Qed.

Lemma pack_ok_fewer bm pm ps ps' : ps' ⊆ ps -> pack_ok bm pm ps -> pack_ok bm pm ps'.
Proof. intros Hs [? ? ? Hp Hk ?]. split; auto. Qed.

Lemma transition_segment_ok bm pm ps ds k s :
  pack_ok bm pm ps -> disk_ok bm pm ds -> room bm (k + 1) -> 0 <= k -> movable bm s ->
  exists s' bm' ds', transition_segment_to_disk crc32c s bm = Ok (s', bm') /\ pack_ok bm' pm ps /\ disk_ok bm' pm ds' /\ room bm' k /\ ds ⊆ ds' /\
    block_alloc_size_ bm' = block_alloc_size_ bm /\ moved ds' s s'.
Proof.
  intros Hok Hd [Hw Hf Hm Hfl Hset] Hk [Hsz Hdata]. unfold transition_segment_to_disk.
  assert (Hsame : exists s' bm' ds', Ok (s, bm) = Ok (s', bm') /\ pack_ok bm' pm ps /\ disk_ok bm' pm ds' /\ room bm' k /\ ds ⊆ ds' /\ block_alloc_size_ bm' = block_alloc_size_ bm /\ moved ds' s s').
  { exists s, bm, ds. split_and!; [done..| |done|done|by left]. split; [done|done|lia|done|done]. }
  case_bool_decide; [done|]. case_bool_decide as Hoff; [done|]. case_bool_decide as Hc; [done|]. destruct (negb _); [done|]. rewrite bool_decide_false by lia.
  assert (Ho : offset_ (ls_segment s) = 0) by (by destruct (decide (offset_ (ls_segment s) = 0))). assert (Hu : compression_ (ls_segment s) = UNCOMPRESSED) by (by destruct (decide (compression_ (ls_segment s) = UNCOMPRESSED))).
  specialize (Hdata Ho). destruct (free_block_id bm) as [id bm1] eqn:Ef. destruct (new_block_ok _ _ _ _ _ Hok ltac:(lia) Ef) as (Hok1 & Ht & Hpb & Hps & Hn & Hg). pose proof Hg as (Hmono & Hfile & Hal & [_ Hfree] & Hmax).
  assert (Hw1 : whole_sectors bm1) by (unfold whole_sectors; by rewrite Hal). assert (Hbs : block_size bm1 = block_size bm) by (unfold block_size; by rewrite Hal).
  rewrite Ho. destruct (pread_inside (ls_data s) (segment_size_ (ls_segment s)) 0) as [Hr Hl]; [lia..|]. set (payload := pread _ _ _) in *. rewrite Hr. cbn [mbind outcome_bind].
  assert (Hz0 : zlen (zeros (buffer_size bm1)) = block_size bm1) by (rewrite buffer_size_block by done; apply zlen_zeros; lia).
  destruct (blit_ok (zeros (buffer_size bm1)) 0 payload) as (b & Eb & Hzb); [lia|rewrite Hz0; lia|]. rewrite Eb. cbn [mbind outcome_bind]. rewrite Hz0 in Hzb.
  assert (Hbuf : block_buffers_ pm !! id = None).
  { destruct (block_buffers_ pm !! id) as [c|] eqn:E; [|done]. exfalso. apply Hn. by apply (po_buffers _ _ _ Hok id c). }
  eexists _, _, ((id, b) :: ds). split; [done|]. split; [by apply pack_ok_file|]. split; [eapply disk_add; try done; eapply pack_ok_fewer; [|done]; set_solver|].
  split; [split; [done|by change (block_size (write crc32c bm1 b id)) with (block_size bm1); rewrite Hbs|cbn; lia|cbn; lia|apply write_settled; [done|destruct Ht; lia|by eapply grown_settled]]|]. split; [set_solver|]. split; [done|].
  right. cbn. split_and!; [done|done|set_solver|done|done|]. rewrite <- Hl, (read_blit _ _ _ _ Eb), Hl. done.
Qed.

Lemma transition_ok bm pm ps ds k ss :
  pack_ok bm pm ps -> disk_ok bm pm ds -> room bm (k + zlen ss) -> 0 <= k -> Forall (movable bm) ss ->
  exists ss' bm' ds', transition_to_disk crc32c ss bm = Ok (ss', bm') /\ pack_ok bm' pm ps /\ disk_ok bm' pm ds' /\ room bm' k /\ ds ⊆ ds' /\
    block_alloc_size_ bm' = block_alloc_size_ bm /\ Forall2 (moved ds') ss ss'.
Proof.
  intros Hok Hd Hr Hk Hm. revert bm ds Hok Hd Hr Hm. induction ss as [|s ss IH]; intros bm ds Hok Hd Hr Hm; cbn [transition_to_disk].
  { exists [], bm, ds. change (zlen []) with 0 in Hr. rewrite Z.add_0_r in Hr. split_and!; try done. }
  apply Forall_cons in Hm as [Hm Hms]. rewrite zlen_cons, Z.add_assoc in Hr. pose proof (zlen_nonneg ss).
  destruct (transition_segment_ok bm pm ps ds (k + zlen ss) s) as (s' & bm1 & ds1 & E1 & Hok1 & Hd1 & Hr1 & Hs1 & Ha1 & Hmv1); [done|done|done|lia|done|]. rewrite E1. cbn [mbind outcome_bind].
  destruct (IH bm1 ds1 Hok1 Hd1 Hr1) as (ss' & bm2 & ds2 & E2 & Hok2 & Hd2 & Hr2 & Hs2 & Ha2 & Hmv2); [unfold movable, block_size in *; by rewrite Ha1|]. rewrite E2. cbn [mbind outcome_bind].
  exists (s' :: ss'), bm2, ds2. split_and!; [done|done|done|done|by etrans|by rewrite Ha2|]. constructor; [by eapply moved_mono|done].
Qed.

(** ** Columns, row groups, tables *)

(** Pieces [ps] are packed, blocks [ds] are in the file, and [k] more blocks can be had. *)
Record ready (bm : block_manager_t) (pm : partial_block_manager_t) (ps : list piece) (ds : list (Z * bytes)) (k : Z) : Prop := {
  rd_pack : pack_ok bm pm ps;
  rd_disk : disk_ok bm pm ds;
  rd_room : room bm k;
}.

(** Nothing that was packed or in the file is lost. *)
Definition later (bm bm' : block_manager_t) (ps ps' : list piece) (ds ds' : list (Z * bytes)) : Prop :=
  block_alloc_size_ bm' = block_alloc_size_ bm /\ ps ⊆ ps' /\ ds ⊆ ds'.

Lemma later_refl bm ps ds : later bm bm ps ps ds ds.
Proof. done. Qed.

Lemma later_trans bm1 bm2 bm3 ps1 ps2 ps3 ds1 ds2 ds3 : later bm1 bm2 ps1 ps2 ds1 ds2 -> later bm2 bm3 ps2 ps3 ds2 ds3 -> later bm1 bm3 ps1 ps3 ds1 ds3.
Proof. intros (H1 & H2 & H3) (H4 & H5 & H6). split_and!; [congruence|by etrans..]. Qed.

(** The bytes behind a pointer encode [vals]. *)
Definition kept_pointer (ps : list piece) (ts : Z) (dp : data_pointer_t) (vals : list bytes) : Prop :=
  (in_width 64 (dp_row_start dp) /\ zlen vals < 2 ^ 32) /\ exists bs, (dp_block_id dp, dp_offset dp, bs) ∈ ps /\ pointer_ok ts dp bs vals.

(** A segment with a block of the file holds that block. *)
Definition backed (ds : list (Z * bytes)) (s : loaded_segment) : Prop := ls_block s < MAXIMUM_BLOCK -> (ls_block s, ls_data s) ∈ ds.

Definition live_segment (bm : block_manager_t) (ds : list (Z * bytes)) (ts : Z) (s : loaded_segment) (vals : list bytes) : Prop :=
  segment_ok s vals /\ type_size (ls_segment s) = ts /\ movable bm s /\ backed ds s.

(** The width of a column's values, and the values of each of its segments. *)
Definition contents : Type := Z * list (list bytes).

Record column_ok (bm : block_manager_t) (ds : list (Z * bytes)) (c : column_t) (x : contents) : Prop := {
  co_data : Forall2 (live_segment bm ds x.1) (data_ c) x.2;
  co_validity : Forall (fun s => movable bm s /\ backed ds s) (validity_ c);
}.

(** Blocks a checkpoint may take. *)
Definition column_cost (c : column_t) : Z := 2 * zlen (data_ c) + zlen (validity_ c).
Definition columns_cost (cs : list column_t) : Z := foldr (fun c n => column_cost c + n) 0 cs.
Definition table_cost (rgs : list row_group_t) : Z := foldr (fun rg n => columns_cost (columns_ rg) + n) 0 rgs.

Lemma column_cost_nonneg c : 0 <= column_cost c.
Proof. unfold column_cost. pose proof (zlen_nonneg (data_ c)). pose proof (zlen_nonneg (validity_ c)). lia. Qed.

Lemma columns_cost_nonneg cs : 0 <= columns_cost cs.
Proof. induction cs as [|c cs IH]; [done|]. change (0 <= column_cost c + columns_cost cs). pose proof (column_cost_nonneg c). lia. Qed.

Lemma table_cost_nonneg rgs : 0 <= table_cost rgs.
Proof. induction rgs as [|rg rgs IH]; [done|]. change (0 <= columns_cost (columns_ rg) + table_cost rgs). pose proof (columns_cost_nonneg (columns_ rg)). lia. Qed.

Lemma kept_pointer_mono ps ps' ts dp vals : ps ⊆ ps' -> kept_pointer ps ts dp vals -> kept_pointer ps' ts dp vals.
Proof. intros Hs (Hw & bs & Hin & Hp). split; [done|]. exists bs. auto. Qed.

Lemma movable_same bm bm' s : block_alloc_size_ bm' = block_alloc_size_ bm -> movable bm s -> movable bm' s.
Proof. unfold movable, block_size. by intros ->. Qed.

Lemma column_ok_later bm bm' ds ds' c x : block_alloc_size_ bm' = block_alloc_size_ bm -> ds ⊆ ds' -> column_ok bm ds c x -> column_ok bm' ds' c x.
Proof.
  intros Ha Hs [Hd Hv]. split; [eapply Forall2_impl; [done|]|eapply Forall_impl; [done|]].
  - intros s vals (H1 & H2 & H3 & H4). split_and!; [done|done|apply (movable_same bm); [done|]; apply H3..|]. intros Hb. by apply Hs, H4.
  - intros s [H1 H2]. split; [by eapply movable_same|]. intros Hb. by apply Hs, H2.
Qed.

(** Moved segments can be moved and are in the file. *)
Lemma moved_movable bm ds s s' : moved ds s s' -> movable bm s /\ backed ds s -> movable bm s' /\ backed ds s'.
Proof.
  intros [->|(Hc & Hoff & Hin & _ & Hseg & Hread)] [[Hz Hd] Hb]; [done|]. split; [|by intros _].
  unfold movable. rewrite Hseg. cbn. split; [done|]. intros _. specialize (Hd Hoff). destruct (pread_inside (ls_data s) (segment_size_ (ls_segment s)) 0) as [Hr _]; [lia..|].
  rewrite Hr in Hread. apply read_bytes_range in Hread. lia.
Qed.

Lemma checkpoint_column_ok ts bm pm ps ds k ss valss :
  ready bm pm ps ds (k + zlen ss) -> 0 <= k -> Forall2 (live_segment bm ds ts) ss valss ->
  exists dps pm' bm' ps', checkpoint_column ss pm bm = Ok (dps, pm', bm') /\ ready bm' pm' ps' ds k /\ later bm bm' ps ps' ds ds /\ Forall2 (kept_pointer ps' ts) dps valss.
Proof.
  intros Hr Hk Hl. revert bm pm ps Hr Hl. revert valss. induction ss as [|s ss IH]; intros valss bm pm ps Hr Hl; cbn [checkpoint_column].
  { apply Forall2_nil_inv_l in Hl as ->. change (zlen []) with 0 in Hr. rewrite Z.add_0_r in Hr. by exists [], pm, bm, ps. }
  apply Forall2_cons_inv_l in Hl as (vals & valss' & (Hs & Hts & Hm & Hb) & Hl & ->). rewrite zlen_cons, Z.add_assoc in Hr. pose proof (zlen_nonneg ss). destruct Hr as [Hok Hd Hroom].
  destruct (flush_segment_ok bm pm ps ds (k + zlen ss) s vals) as (dp & pm1 & bm1 & bs & E & Hok1 & Hd1 & Hr1 & Ha & Hp & Hst & _); [done|done|done|lia|done|apply Hm|].
  rewrite E. cbn [mbind outcome_bind].
  destruct (IH valss' bm1 pm1 ((dp_block_id dp, dp_offset dp, bs) :: ps)) as (dps & pm2 & bm2 & ps2 & E2 & Hr2 & (Ha2 & Hps2 & _) & Hk2); [by split| |].
  { eapply Forall2_impl; [done|]. intros s' v' (? & ? & ? & ?). split_and!; [done|done|apply (movable_same bm); [done|]; done|done]. }
  rewrite E2. cbn [mbind outcome_bind]. exists (dp :: dps), pm2, bm2, ps2. split_and!; [done|done|split_and!; [congruence|set_solver|done]|].
  constructor; [|done]. split; [split; [rewrite Hst; by apply wrap_width|apply Hs]|]. exists bs. rewrite <- Hts. split; [set_solver|done].
Qed.

Lemma transition_ready bm pm ps ds k ss :
  ready bm pm ps ds (k + zlen ss) -> 0 <= k -> Forall (movable bm) ss ->
  exists ss' bm' ds', transition_to_disk crc32c ss bm = Ok (ss', bm') /\ ready bm' pm ps ds' k /\ later bm bm' ps ps ds ds' /\ Forall2 (moved ds') ss ss'.
Proof.
  intros [H1 H2 H3] Hk Hm. destruct (transition_ok bm pm ps ds k ss) as (ss' & bm' & ds' & E & H4 & H5 & H6 & H7 & H8 & H9); [done..|].
  exists ss', bm', ds'. split; [done|]. by split.
Qed.

Lemma moved_live bm ds ts ss ss' valss : Forall2 (moved ds) ss ss' -> Forall2 (live_segment bm ds ts) ss valss -> Forall2 (live_segment bm ds ts) ss' valss.
Proof.
  intros Hm. revert valss. induction Hm as [|s s' ss ss' Hs Hm IH]; intros valss Hl; [done|].
  apply Forall2_cons_inv_l in Hl as (vals & valss' & (H1 & H2 & H3 & H4) & Hl & ->). constructor; [|by apply IH].
  destruct (moved_movable bm ds s s' Hs (conj H3 H4)) as [H5 H6]. split; [by eapply moved_segment_ok|]. split; [|by split].
  destruct Hs as [->|(_ & _ & _ & _ & -> & _)]; done.
Qed.

Lemma moved_backed bm ds ss ss' : Forall2 (moved ds) ss ss' -> Forall (fun s => movable bm s /\ backed ds s) ss -> Forall (fun s => movable bm s /\ backed ds s) ss'.
Proof.
  intros Hm. induction Hm as [|s s' ss ss' Hs Hm IH]; intros Hl; [done|]. apply Forall_cons in Hl as [H1 H2].
  constructor; [by eapply moved_movable|by apply IH].
Qed.

(** What a checkpoint of [x] gives, for columns, row groups and tables: pointers [p] to the values, the live form [y] that still has them. *)
Definition checkpointed {A B C} (live : block_manager_t -> list (Z * bytes) -> B -> C -> Prop) (saved : list piece -> A -> C -> Prop)
    (bm : block_manager_t) (ps : list piece) (ds : list (Z * bytes)) (k : Z) (x : C) (m : outcome (A * B * partial_block_manager_t * block_manager_t)) : Prop :=
  exists p y pm' bm' ps' ds', m = Ok (p, y, pm', bm') /\ ready bm' pm' ps' ds' k /\ later bm bm' ps ps' ds ds' /\ live bm' ds' y x /\ saved ps' p x.

Definition saved_column (ps : list piece) (dps : list data_pointer_t) (x : contents) : Prop := Forall2 (kept_pointer ps x.1) dps x.2.

Lemma checkpoint_ok bm pm ps ds k c x :
  ready bm pm ps ds (k + column_cost c) -> 0 <= k -> column_ok bm ds c x -> checkpointed column_ok saved_column bm ps ds k x (checkpoint crc32c c pm bm).
Proof.
  intros Hr Hk [Hd Hv]. unfold checkpoint, column_cost in *. pose proof (zlen_nonneg (data_ c)). pose proof (zlen_nonneg (validity_ c)).
  destruct (checkpoint_column_ok x.1 bm pm ps ds (k + zlen (data_ c) + zlen (validity_ c)) (data_ c) x.2) as (dps & pm1 & bm1 & ps1 & E1 & Hr1 & L1 & Hp1); [|lia|done|].
  { replace (k + zlen (data_ c) + zlen (validity_ c) + zlen (data_ c)) with (k + (2 * zlen (data_ c) + zlen (validity_ c))) by lia. done. }
  rewrite E1. cbn [mbind outcome_bind]. assert (Hm1 : Forall (movable bm1) (data_ c)).
  { apply Forall_forall. intros s (j & Hj)%list_elem_of_lookup. destruct (Forall2_lookup_l _ _ _ _ _ Hd Hj) as (vals & _ & _ & _ & Hm & _). eapply movable_same; [apply L1|done]. }
  destruct (transition_ready bm1 pm1 ps1 ds (k + zlen (validity_ c)) (data_ c)) as (ss2 & bm2 & ds2 & E2 & Hr2 & L2 & Hm2); [|lia|done|].
  { replace (k + zlen (validity_ c) + zlen (data_ c)) with (k + zlen (data_ c) + zlen (validity_ c)) by lia. done. }
  rewrite E2. cbn [mbind outcome_bind]. pose proof (later_trans _ _ _ _ _ _ _ _ _ L1 L2) as L12. pose proof L12 as (Ha2 & _ & Hs2).
  destruct (column_ok_later bm bm2 ds ds2 c x Ha2 Hs2 (Build_column_ok _ _ _ _ Hd Hv)) as [Hd2 Hv2].
  destruct (transition_ready bm2 pm1 ps1 ds2 k (validity_ c)) as (vs3 & bm3 & ds3 & E3 & Hr3 & L3 & Hm3); [done|lia|eapply Forall_impl; [done|]; by intros ? []|].
  rewrite E3. cbn [mbind outcome_bind]. pose proof L3 as (Ha3 & _ & Hs3).
  destruct (column_ok_later bm2 bm3 ds2 ds3 c x Ha3 Hs3 (Build_column_ok _ _ _ _ Hd2 Hv2)) as [Hd3 Hv3].
  exists dps, (Column ss2 vs3), pm1, bm3, ps1, ds3. split; [done|]. split; [done|]. split; [by eapply later_trans|]. split; [|done].
  split; cbn [data_ validity_]; [|by eapply moved_backed]. eapply moved_live; [|done]. eapply Forall2_impl; [done|]. intros ??. by apply moved_mono.
Qed.

Definition saved_columns (ps : list piece) (dpss : list (list data_pointer_t)) (xs : list contents) : Prop := Forall2 (saved_column ps) dpss xs.
Definition columns_ok (bm : block_manager_t) (ds : list (Z * bytes)) (cs : list column_t) (xs : list contents) : Prop := Forall2 (column_ok bm ds) cs xs.

Lemma saved_column_mono ps ps' dps x : ps ⊆ ps' -> saved_column ps dps x -> saved_column ps' dps x.
Proof. intros Hs Hd. eapply Forall2_impl; [exact Hd|]. intros ??. by apply kept_pointer_mono. Qed.

Lemma columns_ok_later bm bm' ds ds' cs xs : block_alloc_size_ bm' = block_alloc_size_ bm -> ds ⊆ ds' -> columns_ok bm ds cs xs -> columns_ok bm' ds' cs xs.
Proof. intros Ha Hs Hc. eapply Forall2_impl; [exact Hc|]. intros ??. by apply column_ok_later. Qed.

Lemma checkpoint_columns_ok bm pm ps ds k cs xs :
  ready bm pm ps ds (k + columns_cost cs) -> 0 <= k -> columns_ok bm ds cs xs ->
  checkpointed columns_ok saved_columns bm ps ds k xs (checkpoint_columns crc32c cs pm bm).
Proof.
  intros Hr Hk Hc. revert xs bm pm ps ds Hr Hc. induction cs as [|c cs IH]; intros xs bm pm ps ds Hr Hc; cbn [checkpoint_columns].
  { apply Forall2_nil_inv_l in Hc as ->. change (columns_cost []) with 0 in Hr. rewrite Z.add_0_r in Hr. exists [], [], pm, bm, ps, ds. split_and!; try done; constructor. }
  apply Forall2_cons_inv_l in Hc as (x & xs' & Hx & Hc & ->). change (columns_cost (c :: cs)) with (column_cost c + columns_cost cs) in Hr. pose proof (columns_cost_nonneg cs).
  destruct (checkpoint_ok bm pm ps ds (k + columns_cost cs) c x) as (dps & c1 & pm1 & bm1 & ps1 & ds1 & E1 & Hr1 & L1 & Hx1 & Hp1); [|lia|done|].
  { replace (k + columns_cost cs + column_cost c) with (k + (column_cost c + columns_cost cs)) by lia. done. }
  rewrite E1. cbn [mbind outcome_bind]. pose proof L1 as (Ha1 & _ & Hs1).
  destruct (IH xs' bm1 pm1 ps1 ds1 Hr1) as (dpss & cs2 & pm2 & bm2 & ps2 & ds2 & E2 & Hr2 & L2 & Hx2 & Hp2); [by eapply columns_ok_later|].
  rewrite E2. cbn [mbind outcome_bind]. pose proof L2 as (Ha2 & Hps2 & Hs2).
  exists (dps :: dpss), (c1 :: cs2), pm2, bm2, ps2, ds2. split; [done|]. split; [done|]. split; [by eapply later_trans|].
  split; (constructor; [|done]); [by eapply column_ok_later|by eapply saved_column_mono].
Qed.

(** A row group keeps its range of rows. *)
Definition row_group_ok (bm : block_manager_t) (ds : list (Z * bytes)) (rg : row_group_t) (x : Z * Z * list contents) : Prop :=
  rg_start rg = x.1.1 /\ rg_count rg = x.1.2 /\ columns_ok bm ds (columns_ rg) x.2.
Definition saved_row_group (ps : list piece) (p : row_group_pointer_t) (x : Z * Z * list contents) : Prop :=
  rg_row_start p = u64 x.1.1 /\ rg_tuple_count p = x.1.2 /\ deletes_pointers p = [] /\ saved_columns ps (data_pointers p) x.2.
Definition table_ok bm ds := Forall2 (row_group_ok bm ds).
Definition saved_table ps := Forall2 (saved_row_group ps).

Lemma checkpoint_row_groups_ok bm pm ps ds k rgs xs :
  ready bm pm ps ds (k + table_cost rgs) -> 0 <= k -> table_ok bm ds rgs xs ->
  checkpointed table_ok saved_table bm ps ds k xs (checkpoint_row_groups crc32c rgs pm bm).
Proof.
  intros Hr Hk Hc. revert xs bm pm ps ds Hr Hc. induction rgs as [|rg rgs IH]; intros xs bm pm ps ds Hr Hc; cbn [checkpoint_row_groups].
  { apply Forall2_nil_inv_l in Hc as ->. change (table_cost []) with 0 in Hr. rewrite Z.add_0_r in Hr. exists [], [], pm, bm, ps, ds. split_and!; try done; constructor. }
  apply Forall2_cons_inv_l in Hc as (x & xs' & (Hx1 & Hx2 & Hx) & Hc & ->). change (table_cost (rg :: rgs)) with (columns_cost (columns_ rg) + table_cost rgs) in Hr.
  pose proof (table_cost_nonneg rgs). unfold write_to_disk.
  destruct (checkpoint_columns_ok bm pm ps ds (k + table_cost rgs) (columns_ rg) x.2) as (dpss & cs1 & pm1 & bm1 & ps1 & ds1 & E1 & Hr1 & L1 & Hy1 & Hp1); [|lia|done|].
  { replace (k + table_cost rgs + columns_cost (columns_ rg)) with (k + (columns_cost (columns_ rg) + table_cost rgs)) by lia. done. }
  rewrite E1. cbn [mbind outcome_bind]. pose proof L1 as (Ha1 & _ & Hs1).
  destruct (IH xs' bm1 pm1 ps1 ds1 Hr1) as (ptrs & rgs2 & pm2 & bm2 & ps2 & ds2 & E2 & Hr2 & L2 & Hy2 & Hp2).
  { eapply Forall2_impl; [exact Hc|]. intros ?? (? & ? & ?). split_and!; [done..|by eapply columns_ok_later]. }
  rewrite E2. cbn [mbind outcome_bind]. pose proof L2 as (Ha2 & Hps2 & Hs2).
  eexists _, _, pm2, bm2, ps2, ds2. split; [done|]. split; [done|]. split; [by eapply later_trans|].
  split; (constructor; [|done]); (split; [cbn; congruence|split; [done|cbn [data_pointers columns_]]]); [by eapply columns_ok_later|]. split; [done|].
  eapply Forall2_impl; [exact Hp1|]. intros ??. by apply saved_column_mono.
Qed.

(** ** A whole checkpoint *)

Definition no_partial : partial_block_manager_t := PartialBlockManager [] ∅.

Lemma ready_empty bm ds k : alloc_ok bm -> disk_ok bm no_partial ds -> room bm k -> ready bm no_partial [] ds k.
Proof. intros Ha Hd Hr. split; [|done|done]. split; [done|constructor|set_solver..|intros id b Hb]. cbn in Hb. by rewrite lookup_empty in Hb. Qed.

(** The fields of a pointer have the widths they are written with. *)
Definition pointer_wf (dp : data_pointer_t) : Prop :=
  in_width 64 (dp_row_start dp) /\ in_width 64 (dp_tuple_count dp) /\ in_width 64 (dp_block_id dp) /\ in_width 32 (dp_offset dp) /\ in_width 64 (dp_segment_size dp).

(** The block of the pointer is one of [ds] and the segment opened on it holds [vals]. *)
Definition stored_in (ds : list (Z * bytes)) (ts : Z) (dp : data_pointer_t) (vals : list bytes) : Prop :=
  pointer_wf dp /\ dp_tuple_count dp = zlen vals /\ exists b, (dp_block_id dp, b) ∈ ds /\ reads_back (segment_of ts dp) b vals.

Definition row_group_in (ds : list (Z * bytes)) (p : row_group_pointer_t) (x : Z * Z * list contents) : Prop :=
  rg_row_start p = u64 x.1.1 /\ rg_tuple_count p = x.1.2 /\ deletes_pointers p = [] /\
  Forall2 (fun dps c => Forall2 (stored_in ds c.1) dps c.2) (data_pointers p) x.2.

Lemma row_group_in_mono ds ds' p x : ds ⊆ ds' -> row_group_in ds p x -> row_group_in ds' p x.
Proof.
  intros Hs (H1 & H2 & Hdel & H3). split_and!; [done..|]. eapply Forall2_impl; [exact H3|]. intros dps c Hc. eapply Forall2_impl; [exact Hc|].
  intros dp vals (Hw & Ht & b & Hb & Hr). split; [done|]. split; [done|]. exists b. auto.
Qed.

Lemma kept_stored bm pm ps ts dp vals :
  block_size bm < 2 ^ 32 -> pack_ok bm pm ps -> kept_pointer ps ts dp vals -> stored_in (map_to_list (block_buffers_ pm)) ts dp vals.
Proof.
  intros Hbs Hok ((Hrow & Hvals) & bs & Hin & Hptr). destruct (po_kept _ _ _ Hok _ Hin) as (b & Hb & Hst). cbn [fst snd] in Hb, Hst. pose proof Hptr as (Hsz & Hcnt & _).
  destruct (po_buffers _ _ _ Hok _ _ Hb) as [Hzb [Htk _]]. pose proof (ao_max _ (po_alloc _ _ _ Hok)). pose proof Hst as (pre & post & -> & Hoff). rewrite !zlen_app in Hzb.
  pose proof (zlen_nonneg pre). pose proof (zlen_nonneg bs). pose proof (zlen_nonneg post). pose proof (zlen_nonneg vals).
  split; [unfold pointer_wf, in_width in *; rewrite Hsz, Hcnt; lia|]. split; [done|]. eexists. split; [by apply elem_of_map_to_list|by eapply pointer_reads].
Qed.

Lemma saved_in bm pm ps ptrs xs :
  block_size bm < 2 ^ 32 -> pack_ok bm pm ps -> saved_table ps ptrs xs -> Forall2 (row_group_in (map_to_list (block_buffers_ pm))) ptrs xs.
Proof.
  intros Hbs Hok Hs. eapply Forall2_impl; [exact Hs|]. intros p x (H1 & H2 & Hdel & H3). split_and!; [done..|]. eapply Forall2_impl; [exact H3|]. intros dps c Hc.
  eapply Forall2_impl; [exact Hc|]. intros dp vals. by apply (kept_stored bm).
Qed.

Lemma flush_disk bm pm ps ds k :
  ready bm pm ps ds k -> let bm' := (flush_partial_blocks crc32c pm bm).2 in
  same_but_file bm bm' /\ alloc_ok bm' /\ disk_ok bm' no_partial (map_to_list (block_buffers_ pm) ++ ds) /\ room bm' k.
Proof.
  intros [Hok [Hd Hres] [Hw Hf Hm Hfl Hset]]. pose proof (flush_settled crc32c bm pm ps header Hw Hok Hset) as Hset'.
  destruct (flush_ok crc32c bm pm ps Hw Hok) as (Hsame & Hbuf & Hother). cbn zeta. set (bm' := (flush_partial_blocks crc32c pm bm).2) in *.
  split; [done|]. rewrite Hsame. split; [by destruct (po_alloc _ _ _ Hok)|]. split; [|split; [done|done|done|done|by rewrite <- Hsame]]. rewrite <- Hsame.
  assert (Htk : forall id, taken bm id -> quiet bm' no_partial id) by (intros id; unfold quiet, taken; rewrite Hsame; split; [done|split; [apply lookup_empty|set_solver]]).
  split; [|intros id Hin; by apply Htk, Hres]. intros id b [Hin%elem_of_map_to_list|Hin]%elem_of_app.
  - split; [by apply Hbuf|]. split; [by apply Htk, (po_buffers _ _ _ Hok id b)|]. intros Hr. destruct (Hres id Hr) as (_ & Hn & _). congruence.
  - destruct (Hd id b Hin) as (H1 & (H2 & H3 & _) & H4). split; [by apply Hother|]. split; [by apply Htk|done].
Qed.

(** A checkpoint that leaves [k] blocks. *)
Lemma checkpoint_collection_ok bm rgs xs ds k :
  alloc_ok bm -> disk_ok bm no_partial ds -> room bm (k + table_cost rgs) -> 0 <= k -> table_ok bm ds rgs xs ->
  exists ptrs rgs' bm' ds', checkpoint_collection crc32c rgs no_partial bm = Ok (ptrs, rgs', bm') /\ alloc_ok bm' /\ disk_ok bm' no_partial ds' /\ room bm' k /\
    ds ⊆ ds' /\ block_alloc_size_ bm' = block_alloc_size_ bm /\ Forall2 (row_group_in ds') ptrs xs /\ table_ok bm' ds' rgs' xs.
Proof.
  intros Ha Hd Hr Hk Ht.
  destruct (checkpoint_row_groups_ok bm no_partial [] ds k rgs xs) as (ptrs & rgs' & pm & bm1 & ps & ds1 & E & Hr1 & (Hal & _ & Hs) & Ht1 & Hp); [by apply ready_empty|done|done|].
  destruct (flush_disk _ _ _ _ _ Hr1) as (Hsame & Ha' & Hd' & Hr'). unfold checkpoint_collection. rewrite E. cbn [mbind outcome_bind].
  eexists ptrs, rgs', _, _. split; [done|]. split; [done|]. split; [exact Hd'|]. split; [done|]. split; [set_solver|]. split; [by rewrite Hsame|]. split.
  - destruct Hr1 as [Hok _ Hrm]. eapply Forall2_impl; [eapply (saved_in bm1); [apply Hrm|done|done]|]. intros ??. apply row_group_in_mono. set_solver.
  - eapply Forall2_impl; [exact Ht1|]. intros rg x (H1 & H2 & H3). split_and!; [done..|]. apply (columns_ok_later bm1 _ ds1); [by rewrite Hsame|set_solver|done].
Qed.

End checkpoint.

(** What reading the file gives for a pointer. *)
Definition loads (crc32c : bytes -> Z) (bm : block_manager_t) (memory : bytes) (ts : Z) (dp : data_pointer_t) (vals : list bytes) : Prop :=
  exists b, BlockManager.read crc32c bm (dp_block_id dp) memory = Ok (inl b) /\ reads_back (segment_of ts dp) b vals.

Definition row_group_loads (crc32c : bytes -> Z) (bm : block_manager_t) (memory : bytes) (p : row_group_pointer_t) (x : Z * Z * list contents) : Prop :=
  rg_row_start p = u64 x.1.1 /\ rg_tuple_count p = x.1.2 /\ deletes_pointers p = [] /\
  Forall2 (fun dps c => Forall2 (loads crc32c bm memory c.1) dps c.2) (data_pointers p) x.2.

Lemma in_loads crc32c bm memory reserved ds ptrs xs :
  whole_sectors bm -> disk_ok crc32c reserved bm no_partial ds -> Forall2 (row_group_in ds) ptrs xs -> Forall2 (row_group_loads crc32c bm memory) ptrs xs.
Proof.
  intros Hw [Hd _] Hs. eapply Forall2_impl; [exact Hs|]. intros p x (H1 & H2 & Hdel & H3). split_and!; [done..|]. eapply Forall2_impl; [exact H3|]. intros dps c Hc.
  eapply Forall2_impl; [exact Hc|]. intros dp vals (_ & _ & b & Hb & Hr). exists b. split; [|done]. destruct (Hd _ _ Hb) as [Hat _]. by apply block_at_read.
Qed.


(** Three equal values of two bytes, and their validity bits. *)
Definition sample_data : bytes := concat (replicate 3 [Byte.x05; Byte.x06]) ++ zeros 10.
Definition sample_column : column_t :=
  Column [LoadedSegment (ColumnSegment 0 3 2 0 16 UNCOMPRESSED) MAXIMUM_BLOCK sample_data true true]
         [LoadedSegment (ColumnSegment 0 3 1 0 16 UNCOMPRESSED) (MAXIMUM_BLOCK + 1) (zeros 16) false true].
Definition sample_table : list row_group_t := [RowGroup 0 3 [sample_column]].
Definition sample_contents : list (Z * Z * list contents) := [((0, 3), [(2, [replicate 3 [Byte.x05; Byte.x06]])])].

Lemma sample_table_ok : table_ok small_manager [] sample_table sample_contents.
Proof.
  constructor; [|constructor]. split; [done|split; [done|]]. constructor; [|constructor]. split.
  - constructor; [|constructor]. split; [|split; [done|split; [|intros H; by cbn in H]]].
    + split; cbn; [done|lia|by unfold in_signed64|done|done| |done]. exists sample_data. split; [by exists [], []|]. split; [done|].
      split; [apply (encodes_plain 2 0 (replicate 3 [Byte.x05; Byte.x06])); by repeat constructor|]. intros _. split; [done|]. split; [by repeat constructor|]. by exists (zeros 10).
    + by split.
  - constructor; [|constructor]. split; [by split|intros H; by cbn in H].
Qed.

