(* ===== verification/MetadataStream.v ===== *)
(** * Metadata of a table file

    [metadata_manager_t], [metadata_writer_t] and [metadata_reader_t] of [components/table/storage]: a stream of
    bytes in a chain of sub-blocks, 64 to a block, each of which starts with the pointer to the next.

    A pointer into the buffer of a metadata block is the index of the block in [blocks_] and a byte of it. *)

From coqutil Require Import Word.LittleEndianList.
From S2P Require Import Prelude.
From S2P Require Import Bytes.
From S2P Require Import DataChunkBinary.
From S2P Require Import ColumnCompression.
From S2P Require Import BlockManager.
From S2P Require Import ColumnCheckpoint.
#[local] Open Scope Z_scope.

Definition META_SUB_BLOCKS_PER_BLOCK : Z := 64.
Definition SUB_BLOCK_HEADER_SIZE : Z := 12.

Record meta_block_pointer_t := MetaBlockPointer { block_pointer : Z; mp_offset : Z }.

Definition invalid_pointer : meta_block_pointer_t := MetaBlockPointer INVALID_INDEX 0.
Definition is_valid (p : meta_block_pointer_t) : bool := bool_decide (block_pointer p <> INVALID_INDEX).
Definition block_id (p : meta_block_pointer_t) : Z := u32 (block_pointer p / 64).
Definition GetBlockIndex (p : meta_block_pointer_t) : Z := u32 (block_pointer p mod 64).

Record metadata_block_t := MetadataBlock {
  mb_block_id : Z;
  mb_block : bytes;
  next_free_sub_block : Z;
  dirty : bool;
}.

Record metadata_manager_t := MetadataManager {
  blocks_ : list metadata_block_t;
  sub_block_size_ : Z;
  manager_error_ : option error_code_t;
}.

Definition metadata_manager (bm : block_manager_t) : metadata_manager_t :=
  MetadataManager [] (block_alloc_size_ bm / META_SUB_BLOCKS_PER_BLOCK) None.

Definition with_metadata (mm : metadata_manager_t) (blocks : list metadata_block_t) : metadata_manager_t :=
  MetadataManager blocks (sub_block_size_ mm) (manager_error_ mm).

(** The first block with a sub-block left. *)
Fixpoint take_sub_block (l : list metadata_block_t) : option (Z * list metadata_block_t) :=
  match l with
  | [] => None
  | mb :: l =>
      if bool_decide (next_free_sub_block mb < META_SUB_BLOCKS_PER_BLOCK) then
        Some (u64 (mb_block_id mb * META_SUB_BLOCKS_PER_BLOCK + next_free_sub_block mb),
              MetadataBlock (mb_block_id mb) (mb_block mb) (u32 (next_free_sub_block mb + 1)) true :: l)
      else match take_sub_block l with Some (bp, l) => Some (bp, mb :: l) | None => None end
  end.

Definition allocate_handle (mm : metadata_manager_t) (bm : block_manager_t) : meta_block_pointer_t * metadata_manager_t * block_manager_t :=
  match take_sub_block (blocks_ mm) with
  | Some (bp, blocks) => (MetaBlockPointer bp 0, with_metadata mm blocks, bm)
  | None =>
      let '(new_block_id, bm) := free_block_id bm in
      let mb := MetadataBlock new_block_id (zeros (buffer_size bm)) 1 true in
      (MetaBlockPointer (u64 (new_block_id * META_SUB_BLOCKS_PER_BLOCK)) 0, with_metadata mm (blocks_ mm ++ [mb]), bm)
  end.

Definition pointer_t : Type := nat * Z.

Fixpoint find_block (l : list metadata_block_t) (id : Z) : option nat :=
  match l with
  | [] => None
  | mb :: l => if bool_decide (mb_block_id mb = id) then Some O else S <$> find_block l id
  end.

(** What a read through [data + off] finds, and what a write leaves. *)
Definition load_at (mm : metadata_manager_t) (p : pointer_t) (off n : Z) : outcome bytes :=
  match blocks_ mm !! p.1 with
  | Some mb => read_bytes (mb_block mb) (p.2 + off) n
  | None => Fault Undefined
  end.

Definition store_at (mm : metadata_manager_t) (p : pointer_t) (off : Z) (data : bytes) : outcome metadata_manager_t :=
  match blocks_ mm !! p.1 with
  | Some mb =>
      block ← blit (mb_block mb) (p.2 + off) data;
      Ok (with_metadata mm (<[p.1 := MetadataBlock (mb_block_id mb) block (next_free_sub_block mb) (dirty mb)]> (blocks_ mm)))
  | None => Fault Undefined
  end.

Definition not_null (p : option pointer_t) : outcome pointer_t := match p with Some p => Ok p | None => Fault NullDeref end.

Section metadata.
Context (crc32c : bytes -> Z).
(** What the memory of a fresh block holds. *)
Context (memory : bytes).

(** [pin]: a block that is not loaded comes from the file. *)
Definition pin (mm : metadata_manager_t) (bm : block_manager_t) (pointer : meta_block_pointer_t) : outcome (option pointer_t * metadata_manager_t) :=
  let sub_idx := GetBlockIndex pointer in
  match find_block (blocks_ mm) (block_id pointer) with
  | Some i => Ok (Some (i, sub_idx * sub_block_size_ mm), mm)
  | None =>
      r ← BlockManager.read crc32c bm (block_id pointer) memory;
      match r with
      | inr e => Ok (None, MetadataManager (blocks_ mm) (sub_block_size_ mm) (Some e))
      | inl block =>
          Ok (Some (length (blocks_ mm), sub_idx * sub_block_size_ mm),
              with_metadata mm (blocks_ mm ++ [MetadataBlock (block_id pointer) block META_SUB_BLOCKS_PER_BLOCK false]))
      end
  end.

(** [metadata_manager_t::flush]. *)
Definition flush_metadata (mm : metadata_manager_t) (bm : block_manager_t) : metadata_manager_t * block_manager_t :=
  (with_metadata mm (map (fun mb => MetadataBlock (mb_block_id mb) (mb_block mb) (next_free_sub_block mb) false) (blocks_ mm)),
   foldl (fun bm mb => if dirty mb then BlockManager.write crc32c bm (mb_block mb) (mb_block_id mb) else bm) bm (blocks_ mm)).

(** ** The writer *)

Record metadata_writer_t := MetadataWriter {
  w_manager : metadata_manager_t;
  w_blocks : block_manager_t;
  start_pointer_ : meta_block_pointer_t;
  current_pointer_ : meta_block_pointer_t;
  current_data_ : option pointer_t;
  current_offset_ : Z;
}.

(** The header of a sub-block: no next one. *)
Definition initialize_header (mm : metadata_manager_t) (p : pointer_t) : outcome metadata_manager_t :=
  mm ← store_at mm p 0 (write_le 8 INVALID_INDEX);
  store_at mm p 8 (write_le 4 0).

Definition metadata_writer (mm : metadata_manager_t) (bm : block_manager_t) : outcome metadata_writer_t :=
  let '(p, mm, bm) := allocate_handle mm bm in
  r ← pin mm bm p;
  let '(d, mm) := r in
  data ← not_null d;
  mm ← initialize_header mm data;
  Ok (MetadataWriter mm bm p p (Some data) SUB_BLOCK_HEADER_SIZE).

Definition ensure_space (w : metadata_writer_t) (needed : Z) : outcome metadata_writer_t :=
  if bool_decide (u64 (current_offset_ w + needed) <= sub_block_size_ (w_manager w)) then Ok w
  else
    let '(new_pointer, mm, bm) := allocate_handle (w_manager w) (w_blocks w) in
    r ← pin mm bm new_pointer;
    let '(d, mm) := r in
    new_data ← not_null d;
    mm ← initialize_header mm new_data;
    current ← not_null (current_data_ w);
    mm ← store_at mm current 0 (write_le 8 (block_pointer new_pointer));
    mm ← store_at mm current 8 (write_le 4 (mp_offset new_pointer));
    Ok (MetadataWriter mm bm (start_pointer_ w) new_pointer (Some new_data) SUB_BLOCK_HEADER_SIZE).

(** The loop of [write_data]; [data] is what is left of the argument. *)
Fixpoint write_loop (fuel : nat) (w : metadata_writer_t) (data : bytes) : outcome metadata_writer_t :=
  match data with
  | [] => Ok w
  | _ =>
      match fuel with
      | O => Fault OutOfFuel
      | S fuel =>
          w ← ensure_space w 1;
          let available := u64 (sub_block_size_ (w_manager w) - current_offset_ w) in
          let to_write := Z.min available (zlen data) in
          current ← not_null (current_data_ w);
          mm ← store_at (w_manager w) current (current_offset_ w) (take (Z.to_nat to_write) data);
          write_loop fuel
            (MetadataWriter mm (w_blocks w) (start_pointer_ w) (current_pointer_ w) (Some current) (u64 (current_offset_ w + to_write)))
            (drop (Z.to_nat to_write) data)
      end
  end.

(** Every turn writes a byte. *)
Definition write_data (w : metadata_writer_t) (data : bytes) : outcome metadata_writer_t := write_loop (length data) w data.

Definition write_uint (n : nat) (value : Z) (w : metadata_writer_t) : outcome metadata_writer_t := write_data w (write_le n value).

Definition write_string (str : bytes) (w : metadata_writer_t) : outcome metadata_writer_t :=
  w ← write_uint 4 (u32 (zlen str)) w;
  match str with [] => Ok w | _ => write_data w str end.

Definition flush_writer (w : metadata_writer_t) : metadata_writer_t :=
  let '(mm, bm) := flush_metadata (w_manager w) (w_blocks w) in
  MetadataWriter mm bm (start_pointer_ w) (current_pointer_ w) (current_data_ w) (current_offset_ w).

Definition get_block_pointer (w : metadata_writer_t) : meta_block_pointer_t := start_pointer_ w.

(** ** The reader *)

Record metadata_reader_t := MetadataReader {
  r_manager : metadata_manager_t;
  r_pointer : meta_block_pointer_t;
  r_data : option pointer_t;
  r_offset : Z;
  finished_ : bool;
  error_ : option error_code_t;
}.

(** A null pointer takes the error of the manager over. *)
Definition adopted (mm : metadata_manager_t) (d : option pointer_t) (e : option error_code_t) : option error_code_t :=
  match d, manager_error_ mm with None, Some e => Some e | _, _ => e end.

Definition metadata_reader (mm : metadata_manager_t) (bm : block_manager_t) (start : meta_block_pointer_t) : outcome metadata_reader_t :=
  if negb (is_valid start) then Ok (MetadataReader mm start None 0 true None)
  else
    r ← pin mm bm start;
    let '(d, mm) := r in
    Ok (MetadataReader mm start d SUB_BLOCK_HEADER_SIZE false (adopted mm d None)).

Definition follow_chain (bm : block_manager_t) (r : metadata_reader_t) : outcome metadata_reader_t :=
  current ← not_null (r_data r);
  b ← load_at (r_manager r) current 0 8;
  o ← load_at (r_manager r) current 8 4;
  let next_bp := le_combine b in
  let next_offset := le_combine o in
  if bool_decide (next_bp = INVALID_INDEX) then Ok (MetadataReader (r_manager r) (r_pointer r) (r_data r) (r_offset r) true (error_ r))
  else
    let p := MetaBlockPointer next_bp next_offset in
    x ← pin (r_manager r) bm p;
    let '(d, mm) := x in
    Ok (MetadataReader mm p d SUB_BLOCK_HEADER_SIZE (finished_ r) (adopted mm d (error_ r))).

(** The loop of [read_data] with [size] bytes to go: the bytes that were copied. *)
Fixpoint read_loop (fuel : nat) (bm : block_manager_t) (r : metadata_reader_t) (size : Z) (data : bytes) : outcome (bytes * metadata_reader_t) :=
  if bool_decide (size <= 0) then Ok (data, r)
  else
    match fuel with
    | O => Fault OutOfFuel
    | S fuel =>
        if finished_ r then Ok (data, MetadataReader (r_manager r) (r_pointer r) (r_data r) (r_offset r) true (Some data_corruption))
        else
          let available := u64 (sub_block_size_ (r_manager r) - r_offset r) in
          if bool_decide (available = 0) then
            r ← follow_chain bm r;
            match error_ r with
            | Some _ => Ok (data, r)
            | None => read_loop fuel bm r size data
            end
          else
            let to_read := Z.min available size in
            current ← not_null (r_data r);
            b ← load_at (r_manager r) current (r_offset r) to_read;
            read_loop fuel bm (MetadataReader (r_manager r) (r_pointer r) (r_data r) (u64 (r_offset r + to_read)) (finished_ r) (error_ r)) (size - to_read) (data ++ b)
    end.

(** [read_data] into [size] zeroes: every other turn of the loop reads a byte. *)
Definition read_data (bm : block_manager_t) (r : metadata_reader_t) (size : Z) : outcome (bytes * metadata_reader_t) :=
  match error_ r with
  | Some _ => Ok (zeros size, r)
  | None =>
      x ← read_loop (S (2 * Z.to_nat size)) bm r size [];
      let '(data, r) := x in Ok (data ++ zeros (size - zlen data), r)
  end.

Definition read_uint (n : nat) (bm : block_manager_t) (r : metadata_reader_t) : outcome (Z * metadata_reader_t) :=
  x ← read_data bm r (Z.of_nat n);
  let '(b, r) := x in Ok (le_combine b, r).

Definition read_string (bm : block_manager_t) (r : metadata_reader_t) : outcome (bytes * metadata_reader_t) :=
  x ← read_uint 4 bm r;
  let '(len, r) := x in
  if bool_decide (len = 0) || bool_decide (error_ r <> None) then Ok ([], r) else read_data bm r len.

End metadata.
