(* ===== verification/MetadataStreamTheorems.v ===== *)
(** * Metadata streams

    What is written to a metadata stream is read back, across sub-blocks and through the file, as long as the
    stream fits the sub-blocks of one block but for the last eight bytes of the last of them; one byte more and
    the writer leaves the buffer of the block. *)

From coqutil Require Import Word.LittleEndianList.
From S2P Require Import Prelude.
From S2P Require Import Bytes.
From S2P Require Import ColumnCompressionTheorems.
From S2P Require Import BlockManager.
From S2P Require Import BlockManagerTheorems.
From S2P Require Import MetadataStream.
#[local] Open Scope Z_scope.

Section chain.
(** The size of a sub-block and the block of the stream. *)
Context (size id : Z) (Hsize : 20 < size < 2 ^ 50) (Hid : 0 <= id < 2 ^ 32).
Context (crc32c : bytes -> Z) (memory : bytes).

(** ** The bytes of a chain *)

Definition sub_block (next : Z) (chunk : bytes) : bytes := write_le 8 next ++ write_le 4 0 ++ chunk.

(** Full sub-blocks from number [j] on, each with the pointer to the next. *)
Fixpoint links (j : Z) (full : list bytes) : bytes :=
  match full with
  | [] => []
  | c :: full => sub_block (id * 64 + j + 1) c ++ links (j + 1) full
  end.

Definition chain (full : list bytes) (part : bytes) : bytes := links 0 full ++ sub_block INVALID_INDEX part.

(** Full chunks and the last one; 64 of them at most. *)
Record shape (full : list bytes) (part : bytes) : Prop := {
  sh_full : Forall (fun c => zlen c = size - 12) full;
  sh_part : zlen part <= size - 12;
  sh_count : zlen full <= 63;
}.

(** How many bytes a stream can have. *)
Definition limit : Z := 64 * (size - 12) - 8.

Lemma zlen_sub_block next c : zlen (sub_block next c) = 12 + zlen c.
Proof. unfold sub_block. rewrite !zlen_app, !zlen_write_le. lia. Qed.

Lemma zlen_links j full : Forall (fun c => zlen c = size - 12) full -> zlen (links j full) = zlen full * size.
Proof.
  intros H. revert j. induction H as [|c full Hc H IH]; intros j; cbn [links]; [done|]. rewrite zlen_app, zlen_sub_block, IH, zlen_cons. lia.
Qed.

Lemma zlen_chain full part : Forall (fun c => zlen c = size - 12) full -> zlen (chain full part) = zlen full * size + 12 + zlen part.
Proof. intros H. unfold chain. rewrite zlen_app, zlen_sub_block, zlen_links by done. lia. Qed.

Lemma links_app j full full' : links j (full ++ full') = links j full ++ links (j + zlen full) full'.
Proof.
  revert j. induction full as [|c full IH]; intros j; cbn [links app]; [by rewrite zlen_nil, Z.add_0_r|].
  rewrite IH, app_assoc, zlen_cons. by replace (j + (zlen full + 1)) with (j + 1 + zlen full) by lia.
Qed.

Lemma chain_append full part d : chain full (part ++ d) = chain full part ++ d.
Proof. unfold chain, sub_block. by rewrite <- !app_assoc. Qed.

(** ** Writing *)

Definition buffer (full : list bytes) (part : bytes) : bytes := chain full part ++ zeros (64 * size - 8 - zlen (chain full part)).

Definition writing (bm : block_manager_t) (full : list bytes) (part : bytes) : metadata_writer_t :=
  MetadataWriter (MetadataManager [MetadataBlock id (buffer full part) (zlen full + 1) true] size None) bm
    (MetaBlockPointer (id * 64) 0) (MetaBlockPointer (id * 64 + zlen full) 0) (Some (0%nat, zlen full * size)) (12 + zlen part).

Lemma store_one n b s e off base data :
  store_at (MetadataManager [MetadataBlock id b n true] s e) (0%nat, base) off data =
    (b' ← blit b (base + off) data; Ok (MetadataManager [MetadataBlock id b' n true] s e)).
Proof. unfold store_at. cbn. by destruct (blit b (base + off) data). Qed.

(** Appending to the last sub-block. *)
Lemma blit_buffer full part d :
  shape full part -> zlen (chain full part) + zlen d <= 64 * size - 8 ->
  blit (buffer full part) (zlen full * size + (12 + zlen part)) d = Ok (buffer full (part ++ d)).
Proof.
  intros [Hf Hp Hc] Hroom. unfold buffer. rewrite chain_append, zlen_app. pose proof (zlen_nonneg d). set (k := 64 * size - 8 - zlen (chain full part)).
  replace (64 * size - 8 - (zlen (chain full part) + zlen d)) with (k - zlen d) by (unfold k; lia).
  assert (Hz : zeros k = zeros (zlen d) ++ zeros (k - zlen d)).
  { unfold zeros. rewrite <- replicate_add. f_equal. lia. }
  rewrite <- app_assoc. apply (blit_in _ _ (zeros (zlen d))); [by rewrite Hz|rewrite zlen_chain by done; lia|by rewrite zlen_zeros].
Qed.

Lemma blit_overrun full part d :
  shape full part -> 64 * size - 8 < zlen (chain full part) + zlen d -> zlen (chain full part) <= 64 * size - 8 ->
  blit (buffer full part) (zlen full * size + (12 + zlen part)) d = Fault OutOfBounds.
Proof.
  intros [Hf Hp Hc] Hroom Hin. unfold blit, buffer. rewrite zlen_app, zlen_zeros by lia. rewrite zlen_chain in Hroom, Hin |- * by done. by rewrite bool_decide_false by lia.
Qed.

Lemma pointer_parts j : 0 <= j < 64 -> u32 ((id * 64 + j) / 64) = id /\ u32 ((id * 64 + j) mod 64) = j.
Proof.
  intros Hj. replace ((id * 64 + j) / 64) with id by (apply (Z.div_unique _ _ _ j); lia).
  replace ((id * 64 + j) mod 64) with j by (apply (Z.mod_unique _ _ id); lia). split; apply wrap_small; unfold in_width; lia.
Qed.

(** The block is loaded. *)
Lemma pin_one bm b n d s e j off :
  0 <= j < 64 -> let mm := MetadataManager [MetadataBlock id b n d] s e in pin crc32c memory mm bm (MetaBlockPointer (id * 64 + j) off) = Ok (Some (0%nat, j * s), mm).
Proof.
  intros Hj. unfold pin, block_id, GetBlockIndex. cbn [block_pointer blocks_ sub_block_size_]. destruct (pointer_parts j Hj) as [-> ->].
  cbn [find_block mb_block_id]. by rewrite bool_decide_true.
Qed.

(** The next sub-block: its header is written and the full one points to it. *)
Lemma chain_grows full part :
  shape full part -> zlen part = size - 12 -> zlen full < 63 ->
  (b ← blit (buffer full part) ((zlen full + 1) * size + 0) (write_le 8 INVALID_INDEX);
   b ← blit b ((zlen full + 1) * size + 8) (write_le 4 0);
   b ← blit b (zlen full * size + 0) (write_le 8 (id * 64 + (zlen full + 1)));
   blit b (zlen full * size + 8) (write_le 4 0)) = Ok (buffer (full ++ [part]) []).
Proof.
  intros [Hf _ Hc] Hp Hn. pose proof (zlen_nonneg full). pose proof (zlen_links 0 full Hf) as Hl. pose proof (zlen_chain full part Hf) as Hz.
  set (k := 64 * size - 8 - zlen (chain full part)). assert (Hk : 12 <= k) by (unfold k; rewrite Hz; nia).
  assert (Hzk : zeros k = zeros 8 ++ zeros 4 ++ zeros (k - 12)).
  { unfold zeros. rewrite <- !replicate_add. f_equal. lia. }
  unfold buffer at 1. fold k. rewrite (blit_in _ (chain full part) (zeros 8) (zeros 4 ++ zeros (k - 12))) by (rewrite ?Hzk; first [done|rewrite Hz; nia]). cbn [mbind outcome_bind].
  rewrite (blit_in _ (chain full part ++ write_le 8 INVALID_INDEX) (zeros 4) (zeros (k - 12))) by (first [by rewrite <- !app_assoc|done|rewrite zlen_app, zlen_write_le, Hz; nia]). cbn [mbind outcome_bind].
  unfold chain, sub_block. rewrite <- !app_assoc. rewrite (blit_in _ (links 0 full) (write_le 8 INVALID_INDEX) _ _ _ eq_refl) by (first [by rewrite !zlen_write_le|lia]). cbn [mbind outcome_bind].
  rewrite (blit_in _ (links 0 full ++ write_le 8 (id * 64 + (zlen full + 1))) (write_le 4 0) (part ++ write_le 8 INVALID_INDEX ++ write_le 4 0 ++ zeros (k - 12)))
    by (first [by rewrite <- !app_assoc|by rewrite !zlen_write_le|rewrite zlen_app, zlen_write_le; lia]).
  f_equal. unfold buffer, chain. rewrite links_app. cbn [links]. unfold sub_block. rewrite <- !app_assoc, !app_nil_r, !app_nil_l, Z.add_0_l, Z.add_assoc. do 7 f_equal.
  rewrite !zlen_app, !zlen_write_le. unfold k. rewrite Hz, Hl. lia.
Qed.

Lemma store_buffer bm full part off data b :
  blit (buffer full part) (zlen full * size + off) data = Ok b ->
  store_at (w_manager (writing bm full part)) (0%nat, zlen full * size) off data = Ok (MetadataManager [MetadataBlock id b (zlen full + 1) true] size None).
Proof. intros H. unfold writing. cbn [w_manager]. by rewrite store_one, H. Qed.

Lemma allocate_next bm full part :
  zlen full < 63 ->
  allocate_handle (w_manager (writing bm full part)) bm =
    (MetaBlockPointer (id * 64 + (zlen full + 1)) 0, MetadataManager [MetadataBlock id (buffer full part) (zlen full + 2) true] size None, bm).
Proof.
  intros Hn. pose proof (zlen_nonneg full). unfold allocate_handle, META_SUB_BLOCKS_PER_BLOCK. cbn [writing w_manager blocks_ take_sub_block next_free_sub_block mb_block_id mb_block].
  rewrite bool_decide_true by (unfold META_SUB_BLOCKS_PER_BLOCK; lia). unfold with_metadata, META_SUB_BLOCKS_PER_BLOCK. cbn [sub_block_size_ manager_error_].
  rewrite !wrap_small by (unfold in_width; lia). by rewrite <- Z.add_assoc.
Qed.

(** Room for a byte, in a next sub-block when the last one is full. *)
Lemma ensure_space_ok bm full part :
  shape full part -> zlen full * (size - 12) + zlen part <= limit ->
  exists full' part', ensure_space crc32c memory (writing bm full part) 1 = Ok (writing bm full' part') /\ shape full' part' /\
    concat full' ++ part' = concat full ++ part /\ zlen part' < size - 12 /\ zlen full' * (size - 12) + zlen part' = zlen full * (size - 12) + zlen part.
Proof.
  intros Hs Hroom. pose proof Hs as [Hf Hp Hc]. pose proof (zlen_nonneg part). pose proof (zlen_nonneg full). unfold ensure_space.
  change (current_offset_ (writing bm full part)) with (12 + zlen part). change (sub_block_size_ (w_manager (writing bm full part))) with size.
  assert (u64 (12 + zlen part + 1) = 12 + zlen part + 1) as -> by (apply wrap_small; unfold in_width; lia). case_bool_decide as Hfit.
  { exists full, part. split_and!; [done|done|done|lia|done]. }
  assert (Hfull : zlen part = size - 12) by lia. assert (Hn : zlen full < 63) by (unfold limit in Hroom; nia).
  change (w_blocks (writing bm full part)) with bm. rewrite allocate_next by done.
  rewrite pin_one by lia. cbn [mbind outcome_bind not_null sub_block_size_]. unfold initialize_header. rewrite store_one.
  pose proof (chain_grows full part Hs Hfull Hn) as Hg. cbn [mp_offset current_data_].
  destruct (blit (buffer full part) _ _) as [b1|] eqn:E1 in Hg |- *; [|done]. cbn [mbind outcome_bind] in Hg |- *. rewrite store_one.
  destruct (blit b1 _ _) as [b2|] eqn:E2 in Hg |- *; [|done]. change (current_data_ (writing bm full part)) with (Some (0%nat, zlen full * size)). cbn [mbind outcome_bind not_null block_pointer] in Hg |- *. rewrite store_one.
  destruct (blit b2 _ _) as [b3|] eqn:E3 in Hg |- *; [|done]. cbn [mbind outcome_bind] in Hg |- *. rewrite store_one, Hg. cbn [mbind outcome_bind].
  exists (full ++ [part]), []. unfold writing. rewrite zlen_app. change (zlen [part]) with 1. change (zlen []) with 0. split_and!.
  - do 2 f_equal. do 3 f_equal. lia.
  - split; [apply Forall_app; by split; [|constructor]|change (zlen (@nil byte)) with 0; lia|rewrite zlen_app; change (zlen [part]) with 1; lia].
  - rewrite concat_app. cbn. by rewrite !app_nil_r.
  - lia.
  - lia.
Qed.

Lemma nonempty_length {A} (l : list A) : l <> [] -> 1 <= zlen l.
Proof. destruct l as [|x l]; [done|]. rewrite zlen_cons. pose proof (zlen_nonneg l). lia. Qed.

(** A turn of the loop, once there is room for a byte. *)
Lemma write_turn bm fuel full part data :
  shape full part -> zlen full * (size - 12) + zlen part <= limit -> data <> [] ->
  exists full' part' d rest, data = d ++ rest /\ d <> [] /\ shape full' part' /\ concat full' ++ part' = concat full ++ part /\
    zlen full' * (size - 12) + zlen part' = zlen full * (size - 12) + zlen part /\ zlen part' + zlen d <= size - 12 /\ (rest <> [] -> zlen part' + zlen d = size - 12) /\
    write_loop crc32c memory (S fuel) (writing bm full part) data =
      (b ← blit (buffer full' part') (zlen full' * size + (12 + zlen part')) d;
       write_loop crc32c memory fuel (MetadataWriter (MetadataManager [MetadataBlock id b (zlen full' + 1) true] size None) bm (MetaBlockPointer (id * 64) 0)
         (MetaBlockPointer (id * 64 + zlen full') 0) (Some (0%nat, zlen full' * size)) (12 + zlen (part' ++ d))) rest).
Proof.
  intros Hs Hroom Hne. destruct (ensure_space_ok bm full part Hs Hroom) as (full1 & part1 & E & Hs1 & Hcat & Hp1 & Hpos). pose proof (zlen_nonneg part1). pose proof (zlen_nonneg full1).
  pose proof (nonempty_length data Hne) as Hd.
  set (n := Z.min (size - 12 - zlen part1) (zlen data)). assert (Hn : 1 <= n <= zlen data) by lia.
  assert (Hz : zlen (take (Z.to_nat n) data) = n) by (unfold zlen in *; rewrite length_take; lia).
  assert (Hzd : zlen (drop (Z.to_nat n) data) = zlen data - n) by (unfold zlen in *; rewrite length_drop; lia).
  exists full1, part1, (take (Z.to_nat n) data), (drop (Z.to_nat n) data). rewrite take_drop, Hz. split_and!; [done| |done|done|done|lia| |].
  - intros Ht. rewrite Ht in Hz. change (zlen []) with 0 in Hz. lia.
  - intros Hr%nonempty_length. lia.
  - destruct data as [|x data0]; [done|]. cbn [write_loop]. set (data := x :: data0) in *. rewrite E. cbn [mbind outcome_bind].
    cbn [writing current_offset_ w_manager sub_block_size_ current_data_ not_null mbind outcome_bind].
    assert (u64 (size - (12 + zlen part1)) = size - 12 - zlen part1) as -> by (rewrite wrap_small; [|unfold in_width]; lia). fold n.
    rewrite store_one. destruct (blit _ _ _); [|done]. cbn [mbind outcome_bind w_blocks start_pointer_ current_pointer_].
    assert (u64 (12 + zlen part1 + n) = 12 + zlen (part1 ++ take (Z.to_nat n) data)) as -> by (rewrite zlen_app, Hz; rewrite wrap_small; [|unfold in_width]; lia). done.
Qed.

Lemma write_loop_ok bm fuel full part data :
  shape full part -> (length data <= fuel)%nat -> zlen full * (size - 12) + zlen part + zlen data <= limit ->
  exists full' part', write_loop crc32c memory fuel (writing bm full part) data = Ok (writing bm full' part') /\ shape full' part' /\
    concat full' ++ part' = (concat full ++ part) ++ data.
Proof.
  revert full part data. induction fuel as [|fuel IH]; intros full part data Hs Hfuel Hroom; (destruct data as [|x data0]; [exists full, part; by rewrite app_nil_r|]); [cbn in Hfuel; lia|].
  pose proof (zlen_nonneg (x :: data0)). destruct (write_turn bm fuel full part (x :: data0) Hs) as (full1 & part1 & d & rest & Heq & Hd & Hs1 & Hcat & Hpos & Hfit & _ & ->); [lia|done|]. rewrite Heq in Hfuel, Hroom |- *.
  apply nonempty_length in Hd. rewrite zlen_app in Hroom. pose proof (zlen_nonneg rest). pose proof Hs1 as [Hf1 _ Hc1]. rewrite length_app in Hfuel.
  rewrite blit_buffer; [|done|rewrite zlen_chain by done; unfold limit in Hroom; nia]. cbn [mbind outcome_bind].
  destruct (IH full1 (part1 ++ d) rest) as (full2 & part2 & E & Hs2 & Hcat2); [split; [done|rewrite zlen_app; lia|done]|unfold zlen in *; lia|rewrite zlen_app; lia|].
  exists full2, part2. split; [exact E|]. split; [done|]. by rewrite Hcat2, app_assoc, <- Hcat, <- !app_assoc.
Qed.

(** One byte too many. *)
Lemma write_loop_overrun bm fuel full part data :
  shape full part -> (length data <= fuel)%nat -> zlen full * (size - 12) + zlen part <= limit < zlen full * (size - 12) + zlen part + zlen data ->
  write_loop crc32c memory fuel (writing bm full part) data = Fault OutOfBounds.
Proof.
  revert full part data. induction fuel as [|fuel IH]; intros full part data Hs Hfuel Hroom; (destruct data as [|x data0]; [change (zlen []) with 0 in Hroom; lia|]); [cbn in Hfuel; lia|].
  destruct (write_turn bm fuel full part (x :: data0) Hs) as (full1 & part1 & d & rest & Heq & Hd & Hs1 & Hcat & Hpos & Hfit & Hrest & ->); [lia|done|]. rewrite Heq in Hfuel, Hroom.
  apply nonempty_length in Hd. rewrite zlen_app in Hroom. pose proof (zlen_nonneg rest). pose proof (zlen_nonneg part1). pose proof Hs1 as [Hf1 _ Hc1]. rewrite length_app in Hfuel.
  destruct (decide (64 * size - 8 < zlen (chain full1 part1) + zlen d)) as [Hover|Hin].
  - rewrite blit_overrun; [done|done|done|]. rewrite zlen_chain by done. unfold limit in Hroom. nia.
  - rewrite blit_buffer by (done || lia). cbn [mbind outcome_bind]. rewrite zlen_chain in Hin by done. apply IH; [split; [done|rewrite zlen_app; lia|done]|unfold zlen in *; lia|].
    rewrite zlen_app. unfold limit in *. nia.
Qed.

(** ** Streams *)

(** [bs] has been written. *)
Definition writer_ok (bs : bytes) (w : metadata_writer_t) : Prop :=
  exists full part, w = writing (w_blocks w) full part /\ shape full part /\ concat full ++ part = bs.

(** The other blocks are not part of it. *)
Lemma writer_ok_blocks bs w bm : writer_ok bs w -> writer_ok bs (MetadataWriter (w_manager w) bm (start_pointer_ w) (current_pointer_ w) (current_data_ w) (current_offset_ w)).
Proof. intros (full & part & -> & Hs & Hb). by exists full, part. Qed.

Lemma write_data_ok bs w data :
  writer_ok bs w -> zlen bs + zlen data <= limit -> exists w', write_data crc32c memory w data = Ok w' /\ writer_ok (bs ++ data) w' /\ w_blocks w' = w_blocks w.
Proof.
  intros (full & part & -> & Hs & <-) Hroom. rewrite zlen_app, (zlen_concat (size - 12)) in Hroom by apply Hs.
  destruct (write_loop_ok (w_blocks w) (length data) full part data Hs) as (full' & part' & E & Hs' & Hcat); [lia|lia|].
  eexists. split; [exact E|]. split; [|done]. by exists full', part'.
Qed.

Lemma write_data_overrun bs w data : writer_ok bs w -> zlen bs <= limit < zlen bs + zlen data -> write_data crc32c memory w data = Fault OutOfBounds.
Proof.
  intros (full & part & -> & Hs & <-) Hroom. rewrite zlen_app, (zlen_concat (size - 12)) in Hroom by apply Hs. by apply write_loop_overrun.
Qed.

(** ** A new stream *)

Lemma new_writer bm bm' :
  whole_sectors bm -> block_alloc_size_ bm = 64 * size -> free_block_id bm = (id, bm') ->
  exists w, metadata_writer crc32c memory (metadata_manager bm) bm = Ok w /\ writer_ok [] w /\ w_blocks w = bm'.
Proof.
  intros Hw Ha Hf. unfold metadata_writer, allocate_handle, metadata_manager. cbn [blocks_ take_sub_block]. rewrite Hf. cbn [app].
  assert (Hs : block_alloc_size_ bm / META_SUB_BLOCKS_PER_BLOCK = size) by (unfold META_SUB_BLOCKS_PER_BLOCK; rewrite Ha, Z.mul_comm; by apply Z.div_mul). rewrite Hs. unfold with_metadata. cbn [sub_block_size_ manager_error_ blocks_ app].
  assert (Ha' : block_alloc_size_ bm' = 64 * size) by (unfold free_block_id in Hf; destruct (free_list_ bm); by injection Hf as <- <-).
  assert (Hb : buffer_size bm' = 64 * size - 8) by (rewrite buffer_size_block by (unfold whole_sectors in *; by rewrite Ha', <- Ha); unfold block_size, DEFAULT_BLOCK_HEADER_SIZE; lia).
  assert (u64 (id * META_SUB_BLOCKS_PER_BLOCK) = id * 64 + 0) as -> by (unfold META_SUB_BLOCKS_PER_BLOCK; rewrite wrap_small; [lia|unfold in_width; lia]).
  rewrite pin_one by lia. cbn [mbind outcome_bind not_null]. unfold initialize_header. rewrite store_one, Hb.
  assert (Hz : zeros (64 * size - 8) = zeros 8 ++ zeros 4 ++ zeros (64 * size - 8 - 12)) by (unfold zeros; rewrite <- !replicate_add; f_equal; lia).
  rewrite (blit_in _ [] (zeros 8) (zeros 4 ++ zeros (64 * size - 8 - 12)) _ _ Hz) by done. cbn [mbind outcome_bind]. rewrite store_one.
  rewrite (blit_in _ (write_le 8 INVALID_INDEX) (zeros 4) (zeros (64 * size - 8 - 12)) _ _ eq_refl) by done. cbn [mbind outcome_bind].
  eexists. split; [done|]. split; [|done]. exists [], []. split; [|split; [split; [constructor|rewrite zlen_nil; lia|done]|done]]. unfold writing, buffer, chain, sub_block. cbn [links app w_blocks].
  rewrite app_nil_r, <- app_assoc, Z.add_0_r. do 6 f_equal. change (zlen (@nil bytes)) with 0. lia.
Qed.

(** ** Reading *)

Definition chunks (full : list bytes) (part : bytes) : list bytes := full ++ [part].

(** Sub-block [j] in the chain. *)
Lemma chain_at full part j c :
  Forall (fun c => zlen c = size - 12) full -> chunks full part !! j = Some c ->
  exists a b, chain full part = a ++ sub_block (if decide (j = length full) then INVALID_INDEX else id * 64 + Z.of_nat j + 1) c ++ b /\ zlen a = Z.of_nat j * size.
Proof.
  intros Hf Hj. unfold chain, chunks in *. destruct (decide (j = length full)) as [->|Hne].
  - rewrite lookup_app_r, Nat.sub_diag in Hj by lia. injection Hj as ->. exists (links 0 full), []. rewrite app_nil_r. split; [done|]. by rewrite zlen_links.
  - assert (Hl : (j < length full)%nat) by (apply lookup_lt_Some in Hj; rewrite length_app in Hj; cbn in Hj; lia). rewrite lookup_app_l in Hj by done.
    pose proof (Forall_take _ j _ Hf) as Hf1.
    assert (Hz : zlen (take j full) = Z.of_nat j) by (unfold zlen; rewrite length_take; lia).
    assert (Hlk : links 0 full = links 0 (take j full) ++ sub_block (id * 64 + Z.of_nat j + 1) c ++ links (Z.of_nat j + 1) (drop (S j) full)).
    { pose proof (links_app 0 (take j full) (c :: drop (S j) full)) as Hla. rewrite take_drop_middle in Hla by done. by rewrite Hla, Hz. }
    rewrite Hlk.
    exists (links 0 (take j full)), (links (Z.of_nat j + 1) (drop (S j) full) ++ sub_block INVALID_INDEX part). split; [by rewrite <- !app_assoc|]. by rewrite zlen_links, Hz.
Qed.

(** A reader in chunk [j], [o] bytes into it, of a stream in a loaded block. *)
Definition reading (full : list bytes) (part rest : bytes) (j : nat) (o : Z) (r : metadata_reader_t) : Prop :=
  exists n d p, r = MetadataReader (MetadataManager [MetadataBlock id (chain full part ++ rest) n d] size None) p (Some (0%nat, Z.of_nat j * size)) (12 + o) false None.

Definition reader_ok (bs : bytes) (r : metadata_reader_t) : Prop :=
  exists full part rest j o c, reading full part rest j o r /\ shape full part /\ chunks full part !! j = Some c /\ 0 <= o <= zlen c /\
    bs = drop (Z.to_nat o) c ++ concat (drop (S j) (chunks full part)).

Lemma load_chunk full part rest j c o n s d e off :
  Forall (fun c => zlen c = size - 12) full -> chunks full part !! j = Some c -> 0 <= off -> off + o <= zlen c -> 0 <= o ->
  load_at (MetadataManager [MetadataBlock id (chain full part ++ rest) n d] s e) (0%nat, Z.of_nat j * size) (12 + off) o = Ok (take (Z.to_nat o) (drop (Z.to_nat off) c)).
Proof.
  intros Hf Hj Hoff Ho Hpos. destruct (chain_at full part j c Hf Hj) as (a & b & -> & Ha). unfold load_at. cbn [blocks_ lookup list_lookup fst snd mb_block]. unfold sub_block.
  set (next := if decide _ then _ else _). rewrite <- (take_drop (Z.to_nat off) c) at 1. rewrite <- (take_drop (Z.to_nat o) (drop (Z.to_nat off) c)) at 1.
  replace ((a ++ (write_le 8 next ++ write_le 4 0 ++ take (Z.to_nat off) c ++ take (Z.to_nat o) (drop (Z.to_nat off) c) ++ drop (Z.to_nat o) (drop (Z.to_nat off) c)) ++ b) ++ rest)
    with ((a ++ write_le 8 next ++ write_le 4 0 ++ take (Z.to_nat off) c) ++ take (Z.to_nat o) (drop (Z.to_nat off) c) ++ drop (Z.to_nat o) (drop (Z.to_nat off) c) ++ b ++ rest) by (by rewrite <- !app_assoc).
  apply read_bytes_mid; [rewrite !zlen_app, !zlen_write_le, Ha|]; unfold zlen in *; rewrite ?length_take, ?length_drop; lia.
Qed.

(** At the end of a full sub-block the chain leads to the next. *)
Lemma follow_chain_ok bm full part rest j r :
  shape full part -> (j < length full)%nat -> reading full part rest j (size - 12) r ->
  exists r', follow_chain crc32c memory bm r = Ok r' /\ reading full part rest (S j) 0 r' /\ error_ r' = None.
Proof.
  intros [Hf Hp Hc] Hj (n & d & p & ->). unfold follow_chain. cbn [r_data not_null mbind outcome_bind r_manager].
  destruct (lookup_lt_is_Some_2 (chunks full part) j) as [c Hlk]; [unfold chunks; rewrite length_app; lia|].
  destruct (chain_at full part j c Hf Hlk) as (a & b & Hch & Ha). rewrite decide_False in Hch by lia. set (next := id * 64 + Z.of_nat j + 1) in *.
  unfold load_at. cbn [blocks_ lookup list_lookup fst snd mb_block]. rewrite Hch. unfold sub_block. rewrite <- !app_assoc.
  rewrite (read_bytes_mid a (write_le 8 next) _ (Z.of_nat j * size + 0) 8) by (rewrite ?zlen_write_le; lia). cbn [mbind outcome_bind].
  replace (a ++ write_le 8 next ++ write_le 4 0 ++ c ++ b ++ rest) with ((a ++ write_le 8 next) ++ write_le 4 0 ++ c ++ b ++ rest) by (by rewrite <- !app_assoc).
  rewrite (read_bytes_mid (a ++ write_le 8 next) (write_le 4 0)) by (rewrite ?zlen_app, ?zlen_write_le; lia). cbn [mbind outcome_bind].
  assert (Hn : 0 <= next < 2 ^ 64 - 1) by (unfold next, zlen in *; lia). rewrite !le_combine_write by (cbn; lia). rewrite bool_decide_false by (unfold INVALID_INDEX; lia).
  assert (next = id * 64 + (Z.of_nat j + 1)) as -> by (unfold next; lia). rewrite pin_one by (unfold zlen in *; lia). cbn [mbind outcome_bind adopted manager_error_ error_ finished_].
  eexists. split; [done|]. split; [|done]. eexists n, d, _. rewrite Hch. unfold sub_block. rewrite <- !app_assoc, Nat2Z.inj_succ. done.
Qed.

Lemma read_loop_ok bm fuel : forall full part rest j o c r n acc,
  shape full part -> chunks full part !! j = Some c -> 0 <= o <= zlen c -> reading full part rest j o r ->
  let bs := drop (Z.to_nat o) c ++ concat (drop (S j) (chunks full part)) in
  0 <= n <= zlen bs -> 2 * n + (if decide (o = size - 12) then 1 else 0) <= Z.of_nat fuel + 1 ->
  exists r', read_loop crc32c memory fuel bm r n acc = Ok (acc ++ take (Z.to_nat n) bs, r') /\ reader_ok (drop (Z.to_nat n) bs) r'.
Proof.
  induction fuel as [|fuel IH]; intros full part rest j o c r n acc Hs Hj Ho Hr bs Hn Hfuel; cbn [read_loop]; case_bool_decide as Hz; try by destruct (decide (o = size - 12)); lia.
  1, 2: assert (n = 0) as -> by lia; rewrite take_0, drop_0, app_nil_r; exists r; split; [done|]; by exists full, part, rest, j, o, c.
  pose proof Hs as [Hf Hp Hc]. pose proof Hr as (k & d & p & Er). assert (Hfin : finished_ r = false) by (by rewrite Er). assert (Hoff : r_offset r = 12 + o) by (by rewrite Er).
  assert (Hss : sub_block_size_ (r_manager r) = size) by (by rewrite Er). rewrite Hfin, Hss, Hoff.
  assert (Hcl : zlen c = size - 12 \/ j = length full /\ zlen c <= size - 12).
  { destruct (decide (j < length full)%nat) as [Hlt|]; unfold chunks in Hj.
    - left. rewrite lookup_app_l in Hj by done. by apply (Forall_lookup_1 _ _ _ _ Hf Hj).
    - right. pose proof (lookup_lt_Some _ _ _ Hj) as Hlt. rewrite length_app in Hlt. cbn in Hlt. assert (j = length full) as -> by lia. rewrite lookup_app_r, Nat.sub_diag in Hj by lia. by injection Hj as <-. }
  assert (u64 (size - (12 + o)) = size - 12 - o) as -> by (rewrite wrap_small; [|unfold in_width]; lia). case_bool_decide as Hav.
  - assert (o = size - 12) as -> by lia. rewrite decide_True in Hfuel by done. assert (Hzc : zlen c = size - 12) by lia.
    assert (Hbs : bs = concat (drop (S j) (chunks full part))) by (unfold bs; rewrite drop_ge by (unfold zlen in *; lia); done).
    assert (Hlt : (j < length full)%nat).
    { destruct (decide (j < length full)%nat) as [|Hge]; [done|]. rewrite Hbs, drop_ge in Hn by (unfold chunks; rewrite length_app; cbn; lia). change (zlen (concat [])) with 0 in Hn. lia. }
    destruct (follow_chain_ok bm full part rest j r Hs Hlt Hr) as (r' & -> & Hr' & He). cbn [mbind outcome_bind]. rewrite He.
    destruct (lookup_lt_is_Some_2 (chunks full part) (S j)) as [c' Hj']; [unfold chunks; rewrite length_app; cbn; lia|].
    assert (Hbs' : bs = drop (Z.to_nat 0) c' ++ concat (drop (S (S j)) (chunks full part))) by (rewrite Hbs, (drop_S _ _ _ Hj'); done).
    rewrite Hbs' in Hn |- *. apply (IH full part rest (S j) 0 c'); [done|done|pose proof (zlen_nonneg c'); lia|done|done|rewrite decide_False by lia; lia].
  - set (m := Z.min (size - 12 - o) n).
    assert (Hm : 1 <= m <= n /\ o + m <= zlen c).
    { destruct Hcl as [|[-> Hle]]; [lia|]. split; [lia|]. unfold bs in Hn. rewrite (drop_ge (chunks full part)) in Hn by (unfold chunks; rewrite length_app; cbn; lia). cbn in Hn.
      rewrite app_nil_r in Hn. unfold zlen in *. rewrite length_drop in Hn. lia. }
    assert (Hdata : r_data r = Some (0%nat, Z.of_nat j * size)) by (by rewrite Er).
    assert (Hload : load_at (r_manager r) (0%nat, Z.of_nat j * size) (12 + o) m = Ok (take (Z.to_nat m) (drop (Z.to_nat o) c))) by (rewrite Er; apply load_chunk; [done|done|lia..]).
    rewrite Hdata. cbn [not_null mbind outcome_bind]. rewrite Hload. cbn [mbind outcome_bind].
    assert (u64 (12 + o + m) = 12 + (o + m)) as -> by (rewrite wrap_small; [|unfold in_width]; lia).
    assert (Hsplit : bs = take (Z.to_nat m) (drop (Z.to_nat o) c) ++ drop (Z.to_nat (o + m)) c ++ concat (drop (S j) (chunks full part))).
    { unfold bs. rewrite app_assoc. f_equal. rewrite Z2Nat.inj_add, <- drop_drop, take_drop by lia. done. }
    assert (Hlen : length (take (Z.to_nat m) (drop (Z.to_nat o) c)) = Z.to_nat m) by (unfold zlen in *; rewrite length_take, length_drop; lia).
    destruct (IH full part rest j (o + m) c (MetadataReader (r_manager r) (r_pointer r) (r_data r) (12 + (o + m)) false (error_ r)) (n - m) (acc ++ take (Z.to_nat m) (drop (Z.to_nat o) c))) as (r' & E & Hr'); [done|done|lia| | | |].
    + eexists k, d, p. by rewrite Er.
    + assert (Hlz : zlen (take (Z.to_nat m) (drop (Z.to_nat o) c)) = m) by (unfold zlen; rewrite Hlen; lia). rewrite Hsplit, zlen_app, Hlz in Hn. lia.
    + destruct (decide (o + m = size - 12)), (decide (o = size - 12)); lia.
    + rewrite Hdata in E. exists r'. rewrite E, Hsplit.
      replace (Z.to_nat n) with (Z.to_nat m + Z.to_nat (n - m))%nat by lia. rewrite take_app_add', drop_app_add' by done. split; [|done]. by rewrite <- app_assoc.
Qed.

Lemma read_data_ok bm bs rest r :
  reader_ok (bs ++ rest) r -> exists r', read_data crc32c memory bm r (zlen bs) = Ok (bs, r') /\ reader_ok rest r'.
Proof.
  intros (full & part & tail & j & o & c & Hr & Hs & Hj & Ho & Hbs). pose proof Hr as (n & d & p & Er). unfold read_data. assert (error_ r = None) as -> by (by rewrite Er).
  pose proof (zlen_nonneg bs). pose proof (zlen_nonneg rest).
  destruct (read_loop_ok bm (S (2 * Z.to_nat (zlen bs))) full part tail j o c r (zlen bs) [] Hs Hj Ho Hr) as (r' & -> & Hr'); rewrite <- ?Hbs; [rewrite zlen_app; lia| |].
  - destruct (decide (o = size - 12)); lia.
  - assert (Hnat : Z.to_nat (zlen bs) = length bs) by (unfold zlen; lia). rewrite Hnat, <- Hbs in Hr'. rewrite drop_app_length in Hr'.
    cbn [mbind outcome_bind app]. rewrite Hnat, take_app_length, Z.sub_diag, app_nil_r. by exists r'.
Qed.

(** ** Streams in the file *)

(** The block with the stream [bs]. *)
Definition holds_stream (block bs : bytes) : Prop :=
  zlen block = 64 * size - 8 /\ exists full part rest, block = chain full part ++ rest /\ shape full part /\ bs = concat full ++ part.

Lemma buffer_holds full part :
  shape full part -> zlen (concat full ++ part) <= limit -> holds_stream (buffer full part) (concat full ++ part).
Proof.
  intros Hs Hl. pose proof Hs as [Hf Hp Hc]. rewrite zlen_app, (zlen_concat (size - 12)) in Hl by done. pose proof (zlen_nonneg part). unfold limit in Hl. split.
  - unfold buffer. rewrite zlen_app, zlen_zeros; rewrite zlen_chain by done; nia.
  - by exists full, part, (zeros (64 * size - 8 - zlen (chain full part))).
Qed.

(** Flushing writes the block of the stream; a second time it writes nothing. *)
Lemma flush_stream bs w :
  writer_ok bs w -> zlen bs <= limit ->
  exists block, holds_stream block bs /\ w_blocks (flush_writer crc32c w) = BlockManager.write crc32c (w_blocks w) block id /\
    get_block_pointer (flush_writer crc32c w) = MetaBlockPointer (id * 64) 0.
Proof. intros (full & part & -> & Hs & <-) Hl. exists (buffer full part). split; [by apply buffer_holds|done]. Qed.

Lemma flush_again w : w_blocks (flush_writer crc32c (flush_writer crc32c w)) = w_blocks (flush_writer crc32c w) /\ get_block_pointer (flush_writer crc32c w) = get_block_pointer w.
Proof.
  split; [|done]. unfold flush_writer, flush_metadata. cbn [w_manager w_blocks blocks_ with_metadata]. generalize (foldl (fun bm mb => if dirty mb then write crc32c bm (mb_block mb) (mb_block_id mb) else bm) (w_blocks w) (blocks_ (w_manager w))) as bm.
  intros bm. induction (blocks_ (w_manager w)) as [|mb l IH]; [done|]. cbn [map foldl dirty]. apply IH.
Qed.

Lemma new_reader bm block bs :
  whole_sectors bm -> block_alloc_size_ bm = 64 * size -> block_at crc32c bm id block -> holds_stream block bs ->
  exists r, metadata_reader crc32c memory (metadata_manager bm) bm (MetaBlockPointer (id * 64) 0) = Ok r /\ reader_ok bs r.
Proof.
  intros Hw Ha Hb (Hz & full & part & rest & -> & Hs & ->). unfold metadata_reader, is_valid. cbn [block_pointer]. rewrite bool_decide_true by (unfold INVALID_INDEX; lia). cbn [negb].
  assert (Hss : block_alloc_size_ bm / META_SUB_BLOCKS_PER_BLOCK = size) by (unfold META_SUB_BLOCKS_PER_BLOCK; rewrite Ha, Z.mul_comm; by apply Z.div_mul).
  unfold pin, metadata_manager, block_id, GetBlockIndex. cbn [blocks_ find_block block_pointer]. destruct (pointer_parts 0) as [H1 H2]; [lia|]. rewrite Z.add_0_r in H1, H2. rewrite H1, H2.
  rewrite (block_at_read crc32c bm id (chain full part ++ rest) memory) by done. cbn [mbind outcome_bind with_metadata sub_block_size_ manager_error_ adopted]. rewrite Hss.
  eexists. split; [done|]. destruct (lookup_lt_is_Some_2 (chunks full part) 0) as [c Hc]; [unfold chunks; rewrite length_app; cbn; lia|].
  exists full, part, rest, 0%nat, 0, c. split; [eexists _, _, _; reflexivity|]. split; [done|]. split; [done|]. split; [pose proof (zlen_nonneg c); lia|].
  unfold chunks in *. destruct full as [|c0 full]; cbn in Hc; injection Hc as ->; cbn; rewrite drop_0, ?app_nil_r; [done|]. rewrite drop_0, concat_app, <- app_assoc. cbn. by rewrite app_nil_r.
Qed.

(** ** Steps *)

(** [m] appended [d] to [bs] and left the other blocks alone. *)
Definition wrote (bs d : bytes) (bm : block_manager_t) (m : outcome metadata_writer_t) : Prop :=
  exists w, m = Ok w /\ writer_ok (bs ++ d) w /\ w_blocks w = bm.

Definition appends (f : metadata_writer_t -> outcome metadata_writer_t) (d : bytes) : Prop :=
  forall bs w, writer_ok bs w -> zlen bs + zlen d <= limit -> wrote bs d (w_blocks w) (f w).

(** [m] returned [a] and left the reader before [rest]. *)
Definition got {A} (rest : bytes) (a : A) (m : outcome (A * metadata_reader_t)) : Prop := exists r, m = Ok (a, r) /\ reader_ok rest r.

Definition reads {A} (f : block_manager_t -> metadata_reader_t -> outcome (A * metadata_reader_t)) (d : bytes) (a : A) : Prop :=
  forall bm rest r, reader_ok (d ++ rest) r -> got rest a (f bm r).

Lemma appends_bind f g d e : appends f d -> appends g e -> appends (fun w => w ← f w; g w) (d ++ e).
Proof.
  intros Hf Hg bs w Hw Hl. rewrite zlen_app in Hl. pose proof (zlen_nonneg e). destruct (Hf bs w Hw) as (w1 & -> & Hw1 & Hb1); [lia|]. cbn [mbind outcome_bind].
  destruct (Hg (bs ++ d) w1 Hw1) as (w2 & -> & Hw2 & Hb2); [rewrite zlen_app; lia|]. exists w2. rewrite app_assoc. split_and!; [done|done|congruence].
Qed.

Lemma got_bind {A B} rest rest' (a : A) (b : B) m k : got rest a m -> (forall r, reader_ok rest r -> got rest' b (k (a, r))) -> got rest' b (m ≫= k).
Proof. intros (r & -> & Hr) Hk. by apply Hk. Qed.

Lemma got_ret {A} rest (a : A) r : reader_ok rest r -> got rest a (Ok (a, r)).
Proof. intros Hr. by exists r. Qed.

Lemma appends_data d : appends (fun w => write_data crc32c memory w d) d.
Proof. intros bs w Hw Hl. by apply write_data_ok. Qed.

Lemma appends_uint n v : appends (write_uint crc32c memory n v) (write_le n v).
Proof. apply appends_data. Qed.

Lemma appends_string s : appends (write_string crc32c memory s) (write_le 4 (u32 (zlen s)) ++ s).
Proof.
  unfold write_string. apply (appends_bind (write_uint crc32c memory 4 (u32 (zlen s)))); [apply appends_uint|]. destruct s as [|x s]; [|apply appends_data].
  intros bs w Hw _. exists w. by rewrite app_nil_r.
Qed.

Lemma reads_data d : reads (fun bm r => read_data crc32c memory bm r (zlen d)) d d.
Proof. intros bm rest r Hr. by apply read_data_ok. Qed.

Lemma reads_uint n v : 0 <= v < 2 ^ (8 * Z.of_nat n) -> reads (read_uint crc32c memory n) (write_le n v) v.
Proof.
  intros Hv bm rest r Hr. unfold read_uint. rewrite <- (zlen_write_le n v). eapply got_bind; [by apply reads_data|]. intros r' Hr'. rewrite le_combine_write by done. by apply got_ret.
Qed.

Lemma reads_string s : zlen s < 2 ^ 32 -> reads (read_string crc32c memory) (write_le 4 (u32 (zlen s)) ++ s) s.
Proof.
  intros Hs bm rest r Hr. pose proof (zlen_nonneg s). unfold read_string. rewrite wrap_small in Hr by (unfold in_width; lia). rewrite <- app_assoc in Hr. eapply got_bind; [by apply (reads_uint 4 (zlen s)); [change (8 * Z.of_nat 4) with 32; lia|]|].
  intros r' Hr'. cbn beta iota. assert (error_ r' = None) as -> by (destruct Hr' as (? & ? & ? & ? & ? & ? & (? & ? & ? & ->) & _); done).
  destruct s as [|x s]; [rewrite bool_decide_true by done; by apply got_ret|]. rewrite bool_decide_false by (rewrite zlen_cons; pose proof (zlen_nonneg s); lia).
  rewrite (bool_decide_false (None <> None)) by naive_solver. by apply reads_data.
Qed.

End chain.

(** Blocks of whole sectors have sub-blocks of 64 bytes or more. *)
Lemma sub_block_sizes bm :
  whole_sectors bm -> block_alloc_size_ bm < 2 ^ 32 -> let size := block_alloc_size_ bm / 64 in 20 < size < 2 ^ 50 /\ block_alloc_size_ bm = 64 * size.
Proof.
  intros (k & Hk & ->) Hb. unfold SECTOR_SIZE in *. cbn zeta. replace (4096 * k) with (k * 64 * 64) in * by lia. rewrite Z.div_mul by done. lia.
Qed.

(** C19: What is written to a metadata stream, flushed and read again from the file is the same, across as many sub-blocks as it takes, up to
    eight bytes less than the 64 sub-blocks of a block hold; from there on the writer runs past the end of the buffer of its block. *)
Theorem metadata_round_trip (crc32c : bytes -> Z) memory bm data
    (Hw : whole_sectors bm) (Ha : block_alloc_size_ bm < 2 ^ 32) (Hid : 0 <= (free_block_id bm).1 < 2 ^ 32) :
  let size := block_alloc_size_ bm / 64 in
  exists w, metadata_writer crc32c memory (metadata_manager bm) bm = Ok w /\
    (zlen data <= limit size -> exists w' r r', write_data crc32c memory w data = Ok w' /\
       let flushed := flush_writer crc32c w' in
       metadata_reader crc32c memory (metadata_manager (w_blocks flushed)) (w_blocks flushed) (get_block_pointer flushed) = Ok r /\
       read_data crc32c memory (w_blocks flushed) r (zlen data) = Ok (data, r')) /\
    (limit size < zlen data -> write_data crc32c memory w data = Fault OutOfBounds).
Proof.
  intros size. destruct (sub_block_sizes bm Hw Ha) as [Hsize Halloc]. fold size in Hsize, Halloc. destruct (free_block_id bm) as [id bm1] eqn:Ef. cbn [fst] in Hid.
  destruct (new_writer size id Hsize Hid crc32c memory bm bm1 Hw Halloc Ef) as (w & Ew & Hok & Hb). exists w. split; [done|]. pose proof (zlen_nonneg data).
  assert (Hlim : 0 <= limit size) by (unfold limit; lia). assert (Hal1 : block_alloc_size_ bm1 = 64 * size) by (unfold free_block_id in Ef; destruct (free_list_ bm); by injection Ef as <- <-).
  split; intros Hl; [|apply (write_data_overrun size id Hsize Hid crc32c memory []); [done|rewrite zlen_nil; lia]].
  destruct (write_data_ok size id Hsize Hid crc32c memory [] w data Hok) as (w' & E & Hok' & Hb'); [rewrite zlen_nil; lia|]. cbn [app] in Hok'.
  destruct (flush_stream size id Hsize crc32c data w' Hok' Hl) as (block & Hst & Hbm & Hp).
  assert (Hw1 : whole_sectors bm1) by (unfold whole_sectors in *; by rewrite Hal1, <- Halloc).
  destruct (new_reader size id Hid crc32c memory (write crc32c bm1 block id) block data) as (r & Er & Hr); [done|done| |done|].
  { apply write_here; [done|lia|]. destruct Hst as [Hz _]. unfold block_size, DEFAULT_BLOCK_HEADER_SIZE. lia. }
  destruct (read_data_ok size id Hsize Hid crc32c memory (write crc32c bm1 block id) data [] r) as (r' & Erd & _); [by rewrite app_nil_r|]. exists w', r, r'. split; [done|]. cbn zeta. by rewrite Hbm, Hp, Hb', Hb.
Qed.

Lemma metadata_round_trip_witness :
  exists w, metadata_writer (fun _ => 7) [] (metadata_manager small_manager) small_manager = Ok w /\
    (exists w', write_data (fun _ => 7) [] w (zeros 3320) = Ok w') /\ write_data (fun _ => 7) [] w (zeros 3321) = Fault OutOfBounds.
Proof.
  destruct (metadata_round_trip (fun _ => 7) [] small_manager (zeros 3320)) as (w & Ew & H & _); [exact small_manager_sectors|reflexivity|by vm_compute|].
  destruct (metadata_round_trip (fun _ => 7) [] small_manager (zeros 3321)) as (w2 & Ew2 & _ & H2); [exact small_manager_sectors|reflexivity|by vm_compute|].
  exists w. split; [exact Ew|]. split; [destruct H as (w' & _ & _ & Hd & _); [by vm_compute|by exists w']|].
  rewrite Ew in Ew2. injection Ew2 as <-. apply H2. by vm_compute.
Defined.
