(* ===== verification/TableFile.v ===== *)
(** * Checkpoints of a table's file

    What a checkpoint writes to the metadata stream and what opening the file reads back: data pointers and row
    groups ([components/table/storage/data_pointer.cpp]), the free list ([single_file_block_manager.cpp]), names,
    columns and row groups of a table ([components/table/data_table.cpp]); and the checkpoint of
    [services/disk/manager_disk.cpp]'s [table_storage_t] as a whole, with the constructor that opens the file.

    Columns are the segments of their values: the validity bits, which opening the file sets anew, are not
    part of an open table here. *)

From S2P Require Import Prelude.
From S2P Require Import Bytes.
From S2P Require Import DataChunkBinary.
From S2P Require Import ColumnCompression.
From S2P Require Import BlockManager.
From S2P Require Import ColumnCheckpoint.
From S2P Require Import MetadataStream.
#[local] Open Scope Z_scope.

(** The byte of an encoding; a byte that names none is one that no [switch] knows, like [INVALID]. *)
Definition compression_code (c : compression_type) : Z :=
  match c with
  | ColumnCompression.INVALID => 0
  | UNCOMPRESSED => 1
  | CONSTANT => 2
  | RLE => 3
  | BITPACKING => 4
  | DICTIONARY => 5
  | VALIDITY_UNCOMPRESSED => 6
  end.

Definition compression_of (b : Z) : compression_type :=
  match b with
  | 1 => UNCOMPRESSED
  | 2 => CONSTANT
  | 3 => RLE
  | 4 => BITPACKING
  | 5 => DICTIONARY
  | 6 => VALIDITY_UNCOMPRESSED
  | _ => ColumnCompression.INVALID
  end.

Record column_definition_t := ColumnDefinition { cd_name : bytes; cd_type : complex_logical_type; cd_not_null : bool }.

(** A table of a file. *)
Record table_t := Table { name_ : bytes; column_definitions_ : list column_definition_t; row_groups_ : list row_group_t }.

(** A row group that was opened: where it starts, its rows, and for each column its segments and its count. *)
Record open_row_group := OpenRowGroup { or_start : Z; or_count : Z; or_columns : list (list (Z * column_segment_t) * option Z) }.
Record open_table := OpenTable { ot_name : bytes; ot_columns : list column_definition_t; ot_row_groups : list open_row_group; ot_total_rows : Z }.

Section table_file.
Context (crc32c : bytes -> Z) (memory : bytes).

Notation write_uint := (write_uint crc32c memory).
Notation read_uint := (read_uint crc32c memory).
Notation write_string := (write_string crc32c memory).
Notation read_string := (read_string crc32c memory).

(** ** Loops *)

Fixpoint write_each {A} (f : A -> metadata_writer_t -> outcome metadata_writer_t) (l : list A) (w : metadata_writer_t) : outcome metadata_writer_t :=
  match l with
  | [] => Ok w
  | x :: l => w ← f x w; write_each f l w
  end.

Fixpoint read_each {A} (f : block_manager_t -> metadata_reader_t -> outcome (A * metadata_reader_t)) (n : nat) (bm : block_manager_t) (r : metadata_reader_t) : outcome (list A * metadata_reader_t) :=
  match n with
  | O => Ok ([], r)
  | S n =>
      x ← f bm r;
      let '(a, r) := x in
      x ← read_each f n bm r;
      let '(l, r) := x in Ok (a :: l, r)
  end.

(** ** Pointers *)

Definition serialize_pointer (dp : data_pointer_t) (w : metadata_writer_t) : outcome metadata_writer_t :=
  w ← write_uint 8 (dp_row_start dp) w;
  w ← write_uint 8 (dp_tuple_count dp) w;
  w ← write_uint 8 (dp_block_id dp) w;
  w ← write_uint 4 (dp_offset dp) w;
  w ← write_uint 1 (compression_code (dp_compression dp)) w;
  write_uint 8 (dp_segment_size dp) w.

Definition deserialize_pointer (bm : block_manager_t) (r : metadata_reader_t) : outcome (data_pointer_t * metadata_reader_t) :=
  '(row_start, r) ← read_uint 8 bm r;
  '(tuple_count, r) ← read_uint 8 bm r;
  '(block_id, r) ← read_uint 8 bm r;
  '(offset, r) ← read_uint 4 bm r;
  '(compression, r) ← read_uint 1 bm r;
  '(segment_size, r) ← read_uint 8 bm r;
  Ok (DataPointer row_start tuple_count block_id offset (compression_of compression) segment_size, r).

Definition serialize_column (dps : list data_pointer_t) (w : metadata_writer_t) : outcome metadata_writer_t :=
  w ← write_uint 4 (u32 (zlen dps)) w;
  write_each serialize_pointer dps w.

Definition deserialize_column (bm : block_manager_t) (r : metadata_reader_t) : outcome (list data_pointer_t * metadata_reader_t) :=
  '(seg_count, r) ← read_uint 4 bm r;
  read_each deserialize_pointer (Z.to_nat seg_count) bm r.

Definition serialize_row_group (p : row_group_pointer_t) (w : metadata_writer_t) : outcome metadata_writer_t :=
  w ← write_uint 8 (rg_row_start p) w;
  w ← write_uint 8 (rg_tuple_count p) w;
  w ← write_uint 4 (u32 (zlen (data_pointers p))) w;
  w ← write_each serialize_column (data_pointers p) w;
  serialize_column (deletes_pointers p) w.

Definition deserialize_row_group (bm : block_manager_t) (r : metadata_reader_t) : outcome (row_group_pointer_t * metadata_reader_t) :=
  '(row_start, r) ← read_uint 8 bm r;
  '(tuple_count, r) ← read_uint 8 bm r;
  '(col_count, r) ← read_uint 4 bm r;
  '(columns, r) ← read_each deserialize_column (Z.to_nat col_count) bm r;
  '(deletes, r) ← deserialize_column bm r;
  Ok (RowGroupPointer row_start tuple_count columns deletes, r).

(** ** The free list *)

(** The block of the writer comes off the free list first. *)
Definition serialize_free_list (bm : block_manager_t) : outcome (meta_block_pointer_t * block_manager_t) :=
  match free_list_ bm with
  | [] => Ok (invalid_pointer, bm)
  | _ =>
      w ← metadata_writer crc32c memory (metadata_manager bm) bm;
      let free_list := free_list_ (w_blocks w) in
      w ← write_uint 8 (zlen free_list) w;
      w ← write_each (write_uint 8) free_list w;
      let w := flush_writer crc32c w in
      Ok (get_block_pointer w, w_blocks w)
  end.

Fixpoint free_list_loop (n : nat) (bm : block_manager_t) (r : metadata_reader_t) (free : list Z) : outcome (list Z * metadata_reader_t) :=
  match n with
  | O => Ok (free, r)
  | S n =>
      if finished_ r then Ok (free, r)
      else
        '(id, r) ← read_uint 8 bm r;
        free_list_loop n bm r (oset_insert id free)
  end.

Definition deserialize_free_list (bm : block_manager_t) (pointer : meta_block_pointer_t) : outcome (block_manager_t + error_code_t) :=
  if negb (is_valid pointer) then Ok (inl bm)
  else
    r ← metadata_reader crc32c memory (metadata_manager bm) bm pointer;
    '(count, r) ← read_uint 8 bm r;
    '(free, r) ← free_list_loop (Z.to_nat count) bm r (free_list_ bm);
    Ok (match error_ r with
        | Some e => inr e
        | None => inl (with_blocks bm free (used_blocks_ bm) (modified_blocks_ bm) (max_block_ bm))
        end).

(** ** Tables *)

Definition write_column (c : column_definition_t) (w : metadata_writer_t) : outcome metadata_writer_t :=
  w ← write_string (cd_name c) w;
  w ← write_uint 1 (type_ (cd_type c)) w;
  write_uint 1 (if cd_not_null c then 1 else 0) w.

(** The type comes back without its extension, and with the name for its alias. *)
Definition read_column (bm : block_manager_t) (r : metadata_reader_t) : outcome (column_definition_t * metadata_reader_t) :=
  '(col_name, r) ← read_string bm r;
  '(logical_type, r) ← read_uint 1 bm r;
  '(not_null, r) ← read_uint 1 bm r;
  Ok (ColumnDefinition col_name (Complex logical_type (Some (Extension col_name GENERIC))) (bool_decide (not_null <> 0)), r).

(** [data_table_t::checkpoint]; the writer's block manager is the table's. *)
Definition checkpoint_table (t : table_t) (w : metadata_writer_t) : outcome (table_t * metadata_writer_t) :=
  '(row_group_pointers, rgs, bm) ← checkpoint_collection crc32c (row_groups_ t) (PartialBlockManager [] ∅) (w_blocks w);
  let w := MetadataWriter (w_manager w) bm (start_pointer_ w) (current_pointer_ w) (current_data_ w) (current_offset_ w) in
  w ← write_string (name_ t) w;
  w ← write_uint 4 (u32 (zlen (column_definitions_ t))) w;
  w ← write_each write_column (column_definitions_ t) w;
  w ← write_uint 4 (u32 (zlen row_group_pointers)) w;
  w ← write_each serialize_row_group row_group_pointers w;
  Ok (Table (name_ t) (column_definitions_ t) rgs, flush_writer crc32c w).

(** [create_from_pointer]: as many columns as there are pointers for. *)
Fixpoint open_columns (columns : list column_definition_t) (dpss : list (list data_pointer_t)) : outcome (list (list (Z * column_segment_t) * option Z)) :=
  match columns, dpss with
  | c :: columns, dps :: dpss =>
      p ← to_physical_type (cd_type c);
      rest ← open_columns columns dpss;
      Ok (initialize_column (object_size p) dps :: rest)
  | _ :: columns, [] => rest ← open_columns columns []; Ok (([], None) :: rest)
  | [], _ => Ok []
  end.

(** [append_row_group] of an empty row group at [row_start], populated from its pointer. *)
Definition open_row_group_of (columns : list column_definition_t) (p : row_group_pointer_t) : outcome open_row_group :=
  if bool_decide (s64 (rg_row_start p) < 0) then Fault Abort
  else
    cols ← open_columns columns (data_pointers p);
    Ok (OpenRowGroup (s64 (rg_row_start p)) (rg_tuple_count p) cols).

Fixpoint open_row_groups (columns : list column_definition_t) (n : nat) (bm : block_manager_t) (r : metadata_reader_t) (total : Z) : outcome (list open_row_group * Z * metadata_reader_t) :=
  match n with
  | O => Ok ([], total, r)
  | S n =>
      '(p, r) ← deserialize_row_group bm r;
      rg ← open_row_group_of columns p;
      '(rgs, total, r) ← open_row_groups columns n bm r (u64 (total + rg_tuple_count p));
      Ok (rg :: rgs, total, r)
  end.

Definition load_from_disk (bm : block_manager_t) (r : metadata_reader_t) : outcome (open_table + error_code_t) :=
  '(name, r) ← read_string bm r;
  '(col_count, r) ← read_uint 4 bm r;
  '(columns, r) ← read_each read_column (Z.to_nat col_count) bm r;
  '(rg_count, r) ← read_uint 4 bm r;
  '(rgs, total_loaded_rows, r) ← open_row_groups columns (Z.to_nat rg_count) bm r 0;
  Ok (match error_ r with
      | Some e => inr e
      | None => inl (OpenTable name columns rgs total_loaded_rows)
      end).

(** ** The file *)

(** [table_storage_t::checkpoint]: data and metadata first, the header last. *)
Definition checkpoint_storage (t : table_t) (bm : block_manager_t) : outcome (table_t * block_manager_t) :=
  w ← metadata_writer crc32c memory (metadata_manager bm) bm;
  '(t, w) ← checkpoint_table t w;
  let w := flush_writer crc32c w in
  let bm := set_meta_block (w_blocks w) (block_pointer (get_block_pointer w)) in
  '(free_list_ptr, bm) ← serialize_free_list bm;
  let header := DatabaseHeader (h_iteration header_initialize) (h_meta_block header_initialize) (block_pointer free_list_ptr)
                  (h_block_count header_initialize) (h_block_alloc_size header_initialize) (h_checksum header_initialize) in
  Ok (t, write_header bm header).

(** [load_existing_database]. *)
Definition load_existing_database (file : bytes) (block_alloc_size : Z) : outcome (block_manager_t + error_code_t) :=
  h ← load_header file;
  match h with
  | inr e => Ok (inr e)
  | inl active =>
      let bm := manager_of file block_alloc_size active in
      if bool_decide (h_free_list active <> INVALID_INDEX) then deserialize_free_list bm (MetaBlockPointer (h_free_list active) 0)
      else Ok (inl bm)
  end.

(** The constructor of [table_storage_t] that opens a file. *)
Definition open_storage (file : bytes) (block_alloc_size : Z) : outcome ((open_table * block_manager_t) + error_code_t) :=
  b ← load_existing_database file block_alloc_size;
  match b with
  | inr e => Ok (inr e)
  | inl bm =>
      r ← metadata_reader crc32c memory (metadata_manager bm) bm (MetaBlockPointer (meta_block_ bm) 0);
      t ← load_from_disk bm r;
      Ok (match t with inl t => inl (t, bm) | inr e => inr e end)
  end.

End table_file.
