(* ===== verification/TableFileTheorems.v ===== *)
(** * A table comes back from its file

    The records of a checkpoint are read back as they were written, and a table that was checkpointed to its
    file is the table that opening the file gives: its name, its columns, its row groups, every value of every
    segment, the free list. Until the header is written the file still opens as it did before. *)

From S2P Require Import Prelude.
From S2P Require Import Bytes.
From S2P Require Import DataChunkBinary.
From S2P Require Import ColumnCompression.
From S2P Require Import ColumnCompressionTheorems.
From S2P Require Import BlockManager.
From S2P Require Import BlockManagerTheorems.
From S2P Require Import ColumnCheckpoint.
From S2P Require Import ColumnCheckpointTheorems.
From S2P Require Import MetadataStream.
From S2P Require Import MetadataStreamTheorems.
From S2P Require Import TableFile.
#[local] Open Scope Z_scope.

(** ** Formats *)

Definition pointer_bytes (dp : data_pointer_t) : bytes :=
  write_le 8 (dp_row_start dp) ++ write_le 8 (dp_tuple_count dp) ++ write_le 8 (dp_block_id dp) ++ write_le 4 (dp_offset dp) ++
  write_le 1 (compression_code (dp_compression dp)) ++ write_le 8 (dp_segment_size dp).

Definition counted {A} (format : A -> bytes) (l : list A) : bytes := write_le 4 (u32 (zlen l)) ++ concat (map format l).

Definition row_group_bytes (p : row_group_pointer_t) : bytes :=
  write_le 8 (rg_row_start p) ++ write_le 8 (rg_tuple_count p) ++ counted (counted pointer_bytes) (data_pointers p) ++ counted pointer_bytes (deletes_pointers p).

Definition column_bytes (c : column_definition_t) : bytes :=
  (write_le 4 (u32 (zlen (cd_name c))) ++ cd_name c) ++ write_le 1 (type_ (cd_type c)) ++ write_le 1 (if cd_not_null c then 1 else 0).

Definition table_bytes (name : bytes) (columns : list column_definition_t) (ptrs : list row_group_pointer_t) : bytes :=
  (write_le 4 (u32 (zlen name)) ++ name) ++ counted column_bytes columns ++ counted row_group_bytes ptrs.

(** A column as it comes back. *)
Definition reopened (c : column_definition_t) : column_definition_t :=
  ColumnDefinition (cd_name c) (Complex (type_ (cd_type c)) (Some (Extension (cd_name c) GENERIC))) (cd_not_null c).

(** ** What fits its fields *)

Definition column_wf (c : column_definition_t) : Prop := zlen (cd_name c) < 2 ^ 32 /\ in_width 8 (type_ (cd_type c)).
Definition row_group_wf (p : row_group_pointer_t) : Prop :=
  in_width 64 (rg_row_start p) /\ in_width 64 (rg_tuple_count p) /\ zlen (data_pointers p) < 2 ^ 32 /\
  Forall (fun dps => zlen dps < 2 ^ 32 /\ Forall pointer_wf dps) (data_pointers p) /\ deletes_pointers p = [].

Lemma compression_round_trip c : compression_of (compression_code c) = c.
Proof. by destruct c. Qed.

Lemma compression_code_width c : in_width 8 (compression_code c).
Proof. by destruct c. Qed.

Section codec.
Context (size id : Z) (Hsize : 20 < size < 2 ^ 50) (Hid : 0 <= id < 2 ^ 32).
Context (crc32c : bytes -> Z) (memory : bytes).

Notation appends := (appends size id).
Notation reads := (reads size id).
Notation reader_ok := (reader_ok size id).

Lemma appends_each {A} (f : A -> metadata_writer_t -> outcome metadata_writer_t) format l :
  (forall x, x ∈ l -> appends (f x) (format x)) -> appends (write_each f l) (concat (map format l)).
Proof.
  induction l as [|x l IH]; intros H; cbn [write_each map concat]; [intros bs w Hw _; exists w; by rewrite app_nil_r|].
  apply (appends_bind size id (f x)); [apply H; set_solver|]. apply IH. intros y Hy. apply H. set_solver.
Qed.

Lemma reads_each {A B} f format (g : A -> B) l :
  (forall x, x ∈ l -> reads f (format x) (g x)) -> reads (read_each f (length l)) (concat (map format l)) (map g l).
Proof.
  induction l as [|x l IH]; intros H bm rest r Hr; cbn [read_each length map concat] in *; [by apply got_ret|]. rewrite <- app_assoc in Hr.
  eapply got_bind; [apply (H x); [set_solver|done]|]. intros r1 Hr1. cbn beta iota. eapply got_bind; [apply IH; [|done]; intros y Hy; apply H; set_solver|].
  intros r2 Hr2. by apply got_ret.
Qed.

Lemma appends_counted {A} (f : A -> metadata_writer_t -> outcome metadata_writer_t) format l :
  (forall x, x ∈ l -> appends (f x) (format x)) -> appends (fun w => w ← write_uint crc32c memory 4 (u32 (zlen l)) w; write_each f l w) (counted format l).
Proof. intros H. apply appends_bind; [by apply appends_uint|by apply appends_each]. Qed.

Lemma reads_counted {A B} f format (g : A -> B) l :
  zlen l < 2 ^ 32 -> (forall x, x ∈ l -> reads f (format x) (g x)) ->
  reads (fun bm r => '(n, r) ← read_uint crc32c memory 4 bm r; read_each f (Z.to_nat n) bm r) (counted format l) (map g l).
Proof.
  intros Hl H bm rest r Hr. unfold counted in Hr. pose proof (zlen_nonneg l). rewrite wrap_small in Hr by (unfold in_width; lia). rewrite <- app_assoc in Hr.
  eapply got_bind; [apply (reads_uint size id Hsize Hid crc32c memory 4 (zlen l)); [change (8 * Z.of_nat 4) with 32; lia|exact Hr]|]. intros r1 Hr1. cbn beta iota.
  assert (Z.to_nat (zlen l) = length l) as -> by (unfold zlen; lia). exact (reads_each f format g l H bm rest r1 Hr1).
Qed.

(** ** Pointers *)

Lemma appends_pointer dp : appends (serialize_pointer crc32c memory dp) (pointer_bytes dp).
Proof. unfold serialize_pointer, pointer_bytes. repeat (apply appends_bind; [by apply appends_uint|]). by apply appends_uint. Qed.

Lemma reads_width n v w : in_width w v -> w = 8 * Z.of_nat n -> reads (read_uint crc32c memory n) (write_le n v) v.
Proof. intros Hv ->. by apply reads_uint. Qed.

(** One field of a record. *)
Ltac read_number :=
  rewrite <- ?app_assoc in *; eapply got_bind; [eapply reads_width; [| |eassumption]; [|reflexivity]; eassumption|];
  let r := fresh "r" in let H := fresh "Hr" in intros r H; cbn beta iota.

Lemma reads_pointer dp : pointer_wf dp -> reads (deserialize_pointer crc32c memory) (pointer_bytes dp) dp.
Proof.
  intros (H1 & H2 & H3 & H4 & H5) bm rest r Hr. pose proof (compression_code_width (dp_compression dp)) as H6. unfold deserialize_pointer, pointer_bytes in *.
  do 6 read_number. rewrite compression_round_trip. destruct dp. by apply got_ret.
Qed.

Lemma appends_column dps : appends (serialize_column crc32c memory dps) (counted pointer_bytes dps).
Proof. apply appends_counted. intros dp _. apply appends_pointer. Qed.

Lemma reads_column dps : zlen dps < 2 ^ 32 -> Forall pointer_wf dps -> reads (deserialize_column crc32c memory) (counted pointer_bytes dps) dps.
Proof.
  intros Hl Hw. rewrite <- (map_id dps) at 2. apply reads_counted; [done|]. intros dp Hdp. apply reads_pointer. by eapply Forall_forall.
Qed.

Lemma appends_row_group p : appends (serialize_row_group crc32c memory p) (row_group_bytes p).
Proof.
  unfold serialize_row_group, row_group_bytes. do 2 (apply appends_bind; [by apply appends_uint|]). unfold counted at 1. rewrite <- app_assoc.
  apply appends_bind; [by apply appends_uint|]. apply appends_bind; [|apply appends_column]. apply appends_each. intros dps _. apply appends_column.
Qed.

Lemma reads_row_group p : row_group_wf p -> reads (deserialize_row_group crc32c memory) (row_group_bytes p) p.
Proof.
  intros (H1 & H2 & H3 & H4 & H5) bm rest r Hr. unfold deserialize_row_group, row_group_bytes in *. do 2 read_number.
  unfold counted at 1 in Hr1. pose proof (zlen_nonneg (data_pointers p)). rewrite wrap_small in Hr1 by (unfold in_width; lia). assert (in_width 32 (zlen (data_pointers p))) by (unfold in_width; lia). read_number.
  assert (Z.to_nat (zlen (data_pointers p)) = length (data_pointers p)) as -> by (unfold zlen; lia).
  eapply got_bind; [apply (reads_each (deserialize_column crc32c memory) (counted pointer_bytes) (fun dps => dps)); [|done]|].
  { intros dps Hdps. rewrite Forall_forall in H4. destruct (H4 dps Hdps). by apply reads_column. }
  intros r3 Hr3. cbn beta iota. eapply got_bind; [apply (reads_column (deletes_pointers p)); [rewrite H5; done|rewrite H5; constructor|done]|].
  intros r4 Hr4. cbn beta iota. rewrite map_id. destruct p. by apply got_ret.
Qed.

(** ** Columns *)

Lemma appends_definition c : appends (write_column crc32c memory c) (column_bytes c).
Proof. unfold write_column, column_bytes. apply appends_bind; [by apply appends_string|]. apply appends_bind; by apply appends_uint. Qed.

Lemma reads_definition c : column_wf c -> reads (read_column crc32c memory) (column_bytes c) (reopened c).
Proof.
  intros [H1 H2] bm rest r Hr. unfold read_column, column_bytes in *. rewrite <- app_assoc in Hr. eapply got_bind; [by apply (reads_string size id Hsize Hid crc32c memory (cd_name c))|].
  intros r1 Hr1. cbn beta iota. read_number. assert (Hb : in_width 8 (if cd_not_null c then 1 else 0)) by (by destruct (cd_not_null c)). read_number.
  unfold reopened. destruct (cd_not_null c); by apply got_ret.
Qed.

(** ** Opening *)

(** The width of a column's values as the reopened type has it. *)
Definition cell_size (c : column_definition_t) : Z := object_size (logical_to_physical (type_ (cd_type c))).

Definition opened (columns : list column_definition_t) (p : row_group_pointer_t) : open_row_group :=
  OpenRowGroup (s64 (rg_row_start p)) (rg_tuple_count p) (zip_with (fun c dps => initialize_column (cell_size c) dps) columns (data_pointers p)).

Definition rows (total : Z) (ptrs : list row_group_pointer_t) : Z := foldl (fun total p => u64 (total + rg_tuple_count p)) total ptrs.

Lemma open_columns_ok columns dpss :
  Forall (fun c => type_ (cd_type c) <> LT_DECIMAL) columns -> length columns = length dpss ->
  open_columns (map reopened columns) dpss = Ok (zip_with (fun c dps => initialize_column (cell_size c) dps) columns dpss).
Proof.
  intros Hd. revert dpss. induction Hd as [|c columns Hc Hd IH]; intros [|dps dpss] Hl; try done. cbn [map open_columns zip_with].
  unfold to_physical_type. cbn [reopened cd_type type_]. rewrite bool_decide_false by done. cbn [mbind outcome_bind]. rewrite IH by (cbn in Hl; lia). done.
Qed.

(** Row groups whose pointers fit the columns. *)
Definition openable (columns : list column_definition_t) (p : row_group_pointer_t) : Prop :=
  row_group_wf p /\ 0 <= s64 (rg_row_start p) /\ length columns = length (data_pointers p).

Lemma open_row_groups_ok columns bm rest ptrs : forall r total,
  Forall (fun c => type_ (cd_type c) <> LT_DECIMAL) columns -> Forall (openable columns) ptrs -> reader_ok (concat (map row_group_bytes ptrs) ++ rest) r ->
  exists r', open_row_groups crc32c memory (map reopened columns) (length ptrs) bm r total = Ok (map (opened columns) ptrs, rows total ptrs, r') /\ reader_ok rest r'.
Proof.
  induction ptrs as [|p ptrs IH]; intros r total Hd Ho Hr; cbn [length open_row_groups map concat] in *; [by exists r|]. rewrite <- app_assoc in Hr.
  apply Forall_cons in Ho as [(Hw & Hs & Hl) Ho]. destruct (reads_row_group p Hw bm _ r Hr) as (r1 & -> & Hr1). cbn [mbind outcome_bind].
  unfold open_row_group_of. rewrite bool_decide_false by lia. rewrite open_columns_ok by done. cbn [mbind outcome_bind].
  destruct (IH r1 (u64 (total + rg_tuple_count p)) Hd Ho Hr1) as (r2 & -> & Hr2). cbn [mbind outcome_bind]. by exists r2.
Qed.

(** Counts are bounded by the bytes that are counted. *)
Lemma counted_length {A} (format : A -> bytes) l : (forall x, format x <> []) -> zlen l <= zlen (counted format l).
Proof.
  intros Hf. unfold counted. rewrite zlen_app, zlen_write_le. enough (zlen l <= zlen (concat (map format l))) by lia.
  induction l as [|x l IH]; [done|]. cbn [map concat]. rewrite zlen_app, zlen_cons. pose proof (nonempty_length _ (Hf x)). lia.
Qed.

Lemma load_from_disk_ok bm name columns ptrs rest r :
  zlen name < 2 ^ 32 -> zlen columns < 2 ^ 32 -> zlen ptrs < 2 ^ 32 -> Forall column_wf columns -> Forall (fun c => type_ (cd_type c) <> LT_DECIMAL) columns -> Forall (openable columns) ptrs ->
  reader_ok (table_bytes name columns ptrs ++ rest) r ->
  load_from_disk crc32c memory bm r = Ok (inl (OpenTable name (map reopened columns) (map (opened columns) ptrs) (rows 0 ptrs))).
Proof.
  intros Hn Hc Hp Hcw Hd Ho Hr. unfold load_from_disk, table_bytes in *. rewrite <- !app_assoc in Hr. rewrite (app_assoc (write_le 4 _) name) in Hr.
  destruct (reads_string size id Hsize Hid crc32c memory name Hn bm _ r Hr) as (r1 & -> & Hr1). cbn [mbind outcome_bind]. pose proof (zlen_nonneg columns). pose proof (zlen_nonneg ptrs).
  unfold counted at 1 in Hr1. rewrite wrap_small, <- app_assoc in Hr1 by (unfold in_width; lia). destruct (reads_width 4 (zlen columns) 32 ltac:(unfold in_width; lia) eq_refl bm _ r1 Hr1) as (r2 & -> & Hr2). cbn [mbind outcome_bind].
  assert (Z.to_nat (zlen columns) = length columns) as -> by (unfold zlen; lia).
  destruct (reads_each (read_column crc32c memory) column_bytes reopened columns) with (bm := bm) (r := r2) (rest := counted row_group_bytes ptrs ++ rest) as (r3 & -> & Hr3); [|done|].
  { intros c Hin. apply reads_definition. by eapply Forall_forall. }
  cbn [mbind outcome_bind]. unfold counted in Hr3. rewrite wrap_small, <- app_assoc in Hr3 by (unfold in_width; lia).
  destruct (reads_width 4 (zlen ptrs) 32 ltac:(unfold in_width; lia) eq_refl bm _ r3 Hr3) as (r4 & -> & Hr4). cbn [mbind outcome_bind].
  assert (Z.to_nat (zlen ptrs) = length ptrs) as -> by (unfold zlen; lia). destruct (open_row_groups_ok columns bm rest ptrs r4 0 Hd Ho Hr4) as (r5 & -> & Hr5). cbn [mbind outcome_bind].
  by destruct Hr5 as (? & ? & ? & ? & ? & ? & (? & ? & ? & ->) & _).
Qed.

(** ** Writing *)

Definition write_table (name : bytes) (columns : list column_definition_t) (ptrs : list row_group_pointer_t) (w : metadata_writer_t) : outcome metadata_writer_t :=
  w ← write_string crc32c memory name w;
  w ← write_uint crc32c memory 4 (u32 (zlen columns)) w;
  w ← write_each (write_column crc32c memory) columns w;
  w ← write_uint crc32c memory 4 (u32 (zlen ptrs)) w;
  write_each (serialize_row_group crc32c memory) ptrs w.

Lemma appends_table name columns ptrs : appends (write_table name columns ptrs) (table_bytes name columns ptrs).
Proof.
  unfold write_table, table_bytes, counted at 1. apply appends_bind; [by apply appends_string|]. rewrite <- app_assoc. apply appends_bind; [by apply appends_uint|].
  apply appends_bind; [apply appends_each; intros c _; apply appends_definition|]. apply appends_counted. intros p _. apply appends_row_group.
Qed.

(** [checkpoint_table] with the writes of the table together. *)
Lemma checkpoint_table_eq t w :
  checkpoint_table crc32c memory t w =
    ('(ptrs, rgs, bm) ← checkpoint_collection crc32c (row_groups_ t) no_partial (w_blocks w);
     w ← write_table (name_ t) (column_definitions_ t) ptrs (MetadataWriter (w_manager w) bm (start_pointer_ w) (current_pointer_ w) (current_data_ w) (current_offset_ w));
     Ok (Table (name_ t) (column_definitions_ t) rgs, flush_writer crc32c w)).
Proof.
  unfold checkpoint_table, write_table, no_partial. destruct (checkpoint_collection _ _ _ _) as [[[ptrs rgs] bm]|]; [|done]. cbn [mbind outcome_bind].
  destruct (write_string _ _ _ _) as [w1|]; [|done]. cbn [mbind outcome_bind]. destruct (write_uint _ _ _ _ w1) as [w2|]; [|done]. cbn [mbind outcome_bind].
  destruct (write_each _ _ w2) as [w3|]; [|done]. cbn [mbind outcome_bind]. by destruct (write_uint _ _ _ _ w3).
Qed.

(** ** The free list *)

Definition free_list_bytes (l : list Z) : bytes := write_le 8 (zlen l) ++ concat (map (write_le 8) l).

Lemma appends_free_list l : appends (fun w => w ← write_uint crc32c memory 8 (zlen l) w; write_each (write_uint crc32c memory 8) l w) (free_list_bytes l).
Proof. apply appends_bind; [by apply appends_uint|]. apply appends_each. intros x _. by apply appends_uint. Qed.

Lemma oset_insert_last x l : Forall (fun y => y < x) l -> oset_insert x l = l ++ [x].
Proof. induction 1 as [|y l Hy H IH]; [done|]. cbn. rewrite !bool_decide_false by lia. by rewrite IH. Qed.

Lemma free_list_loop_ok bm rest l : forall acc r,
  oset (acc ++ l) -> Forall (in_width 64) l -> reader_ok (concat (map (write_le 8) l) ++ rest) r ->
  exists r', free_list_loop crc32c memory (length l) bm r acc = Ok (acc ++ l, r') /\ reader_ok rest r'.
Proof.
  induction l as [|x l IH]; intros acc r Hs Hw Hr; cbn [length free_list_loop map concat] in *; [exists r; by rewrite app_nil_r|]. apply Forall_cons in Hw as [Hx Hw]. rewrite <- app_assoc in Hr.
  assert (Hfin : finished_ r = false) by (destruct Hr as (? & ? & ? & ? & ? & ? & (? & ? & ? & ->) & _); done). rewrite Hfin.
  destruct (reads_width 8 x 64 Hx eq_refl bm _ r Hr) as (r1 & -> & Hr1). cbn [mbind outcome_bind]. rewrite oset_insert_last.
  - destruct (IH (acc ++ [x]) r1) as (r2 & E & Hr2); [by rewrite <- app_assoc|done|done|]. exists r2. by rewrite E, <- app_assoc.
  - apply Forall_forall. intros y Hy. apply (StronglySorted_app_1_elem_of Z.lt acc (x :: l) y x Hs Hy). set_solver.
Qed.

End codec.

(** ** Sizes *)

Definition sum_by {A} (f : A -> Z) (l : list A) : Z := foldr (fun x n => f x + n) 0 l.

Definition group_size (x : Z * Z * list contents) : Z := 24 + sum_by (fun c : contents => 4 + 37 * zlen c.2) x.2.

(** The bytes of the metadata of a table. *)
Definition metadata_size (t : table_t) (xs : list (Z * Z * list contents)) : Z :=
  12 + zlen (name_ t) + sum_by (fun c => 6 + zlen (cd_name c)) (column_definitions_ t) + sum_by group_size xs.

Lemma zlen_counted {A} (format : A -> bytes) l : zlen (counted format l) = 4 + sum_by (fun x => zlen (format x)) l.
Proof.
  unfold counted. rewrite zlen_app, zlen_write_le. change (Z.of_nat 4) with 4. f_equal. induction l as [|x l IH]; [done|]. cbn [map concat sum_by foldr]. by rewrite zlen_app, IH.
Qed.

Lemma sum_by_nil {A} (f : A -> Z) : sum_by f [] = 0.
Proof. done. Qed.

Lemma sum_by_same {A B} (f : A -> Z) (g : B -> Z) l k : Forall2 (fun x y => f x = g y) l k -> sum_by f l = sum_by g k.
Proof. induction 1 as [|x y l k E H IH]; [done|]. cbn [sum_by foldr]. unfold sum_by in IH. by rewrite E, IH. Qed.

Lemma sum_by_const {A} (f : A -> Z) n l : (forall x, f x = n) -> sum_by f l = n * zlen l.
Proof. intros Hf. induction l as [|x l IH]; [change (0 = n * 0); lia|]. cbn [sum_by foldr]. unfold sum_by in IH. rewrite Hf, IH, zlen_cons. lia. Qed.

Lemma zlen_pointer dp : zlen (pointer_bytes dp) = 37.
Proof. unfold pointer_bytes. by rewrite !zlen_app, !zlen_write_le. Qed.

Lemma zlen_row_group ds p x : row_group_in ds p x -> zlen (row_group_bytes p) = group_size x.
Proof.
  intros (_ & _ & Hdel & Hc). unfold row_group_bytes, group_size. rewrite !zlen_app, !zlen_write_le, Hdel, zlen_counted, zlen_counted. change (Z.of_nat 8) with 8.
  rewrite (sum_by_same _ (fun c : contents => 4 + 37 * zlen c.2) _ x.2); [rewrite sum_by_nil; lia|]. eapply Forall2_impl; [exact Hc|]. intros dps c Hd.
  rewrite zlen_counted, (sum_by_const _ 37) by (intros; apply zlen_pointer). by apply Forall2_length in Hd as Hl; unfold zlen; rewrite Hl.
Qed.

Lemma zlen_table ds t ptrs xs : Forall2 (row_group_in ds) ptrs xs -> zlen (table_bytes (name_ t) (column_definitions_ t) ptrs) = metadata_size t xs.
Proof.
  intros Hp. unfold table_bytes, metadata_size. rewrite !zlen_app, zlen_write_le, !zlen_counted. change (Z.of_nat 4) with 4.
  rewrite (sum_by_same _ group_size ptrs xs) by (eapply Forall2_impl; [exact Hp|]; intros ??; apply zlen_row_group).
  rewrite (sum_by_same (fun c => zlen (column_bytes c)) (fun c => 6 + zlen (cd_name c)) (column_definitions_ t) (column_definitions_ t)); [lia|].
  apply Forall_Forall2_diag, Forall_forall. intros c _. unfold column_bytes. rewrite !zlen_app, !zlen_write_le. lia.
Qed.

(** ** Blocks taken and written *)

Section blocks.
Context (crc32c : bytes -> Z) (memory : bytes) (header : database_header_t) (most_free : Z).

Notation room := (room header most_free).

Lemma take_block bm ds k id bm1 :
  alloc_ok bm -> disk_ok crc32c [] bm no_partial ds -> room bm (k + 1) -> 0 <= k -> free_block_id bm = (id, bm1) ->
  alloc_ok bm1 /\ disk_ok crc32c [id] bm1 no_partial ds /\ room bm1 k /\ 0 <= id < 2 ^ 32 /\ block_alloc_size_ bm1 = block_alloc_size_ bm /\ meta_block_ bm1 = meta_block_ bm.
Proof.
  intros Ha Hd Hr Hk Hf. destruct (ready_empty crc32c header [] most_free bm ds (k + 1) Ha Hd Hr) as [Hok _ _]. destruct Hr as [Hw Hfu Hm Hfl Hs].
  destruct (new_block_ok bm no_partial [] id bm1 Hok ltac:(lia) Hf) as (Hok1 & Ht & _ & _ & Hn & Hg). pose proof Hg as (Hmono & Hfile & Hal & [Hit Hfree] & Hmax).
  assert (Hq : forall j, taken bm1 j -> quiet bm1 no_partial j) by (intros j Hj; split; [done|split; [apply lookup_empty|set_solver]]).
  split; [apply Hok1|]. split; [split|].
  - destruct Hd as [Hd _]. intros j b Hin. destruct (Hd j b Hin) as (H1 & [H2 _] & _). split; [by eapply block_at_same|]. split; [by apply Hq, Hmono|]. intros ->%list_elem_of_singleton. done.
  - intros j ->%list_elem_of_singleton. by apply Hq.
  - split; [split|]; [unfold whole_sectors; by rewrite Hal|unfold block_size; by rewrite Hal|lia|lia|by eapply grown_settled|].
    split; [destruct Ht; lia|]. split; [done|]. unfold free_block_id in Hf. by destruct (free_list_ bm); injection Hf as <- <-.
Qed.

Lemma put_block bm ds k id b :
  alloc_ok bm -> disk_ok crc32c [id] bm no_partial ds -> room bm k -> zlen b = block_size bm ->
  alloc_ok (BlockManager.write crc32c bm b id) /\ disk_ok crc32c [] (BlockManager.write crc32c bm b id) no_partial ((id, b) :: ds) /\ room (BlockManager.write crc32c bm b id) k.
Proof.
  intros Ha [Hd Hres] [Hw Hfu Hm Hfl Hs] Hz. destruct (Hres id ltac:(set_solver)) as (Ht & _ & _). assert (Hid : 0 <= id) by (destruct Ht; lia). split; [by destruct Ha|].
  split; [|by split; [..|apply write_settled]]. split; [|intros j []%not_elem_of_nil]. intros j c [[= -> ->]|Hin]%elem_of_cons.
  - split; [by apply write_here|]. split; [|apply not_elem_of_nil]. split; [done|split; [apply lookup_empty|set_solver]].
  - destruct (Hd j c Hin) as (H1 & H2 & H3). split; [|by split; [|apply not_elem_of_nil]]. apply write_elsewhere; [done|done|set_solver|done|done].
Qed.

End blocks.

(** The headers lie before the blocks. *)
Lemma header_block_at crc32c bm h id b : whole_sectors bm -> 0 <= id -> block_at crc32c bm id b -> block_at crc32c (write_header bm h) id b.
Proof.
  intros Hw Hid [Hz Hr]. split; [done|]. pose proof (location_pos bm id Hw Hid) as Hl. unfold BLOCK_START, SECTOR_SIZE in Hl.
  change (block_location (write_header bm h) id) with (block_location bm id). cbn [write_header file_ block_alloc_size_]. unfold header_files. cbn [snd].
  assert (Hslot : forall s, s = SECTOR_SIZE \/ s = 2 * SECTOR_SIZE -> 0 <= s /\ s + zlen (header_bytes (next_header bm h)) <= block_location bm id).
  { intros s Hs. rewrite zlen_database_header. unfold SECTOR_SIZE in *. lia. }
  destruct (Hslot (header_slot (h_iteration (next_header bm h)))) as [H1 H2]; [unfold header_slot; case_bool_decide; auto|].
  destruct (Hslot (other_slot (header_slot (h_iteration (next_header bm h))))) as [H3 H4]; [unfold other_slot; case_bool_decide; auto|].
  apply file_write_other; [done| |by right]. apply file_write_other; [done|done|by right].
Qed.

(** ** Streams of a checkpoint *)

Section storage.
Context (crc32c : bytes -> Z) (memory : bytes) (header : database_header_t) (most_free size : Z).
Context (Hsize : 20 < size < 2 ^ 50).

Notation room := (room header most_free).

(** A stream that is in one of the blocks [ds]. *)
Definition stream_in (ds : list (Z * bytes)) (pointer : Z) (bs : bytes) : Prop :=
  exists id b, pointer = id * 64 /\ 0 <= id < 2 ^ 32 /\ (id, b) ∈ ds /\ holds_stream size id b bs.

Lemma stream_in_mono ds ds' p bs : ds ⊆ ds' -> stream_in ds p bs -> stream_in ds' p bs.
Proof. intros Hs (id & b & H1 & H2 & H3 & H4). exists id, b. auto. Qed.

(** Opening a stream of the file. *)
Lemma open_stream bm ds p bs :
  whole_sectors bm -> block_alloc_size_ bm = 64 * size -> (forall id b, (id, b) ∈ ds -> block_at crc32c bm id b) -> stream_in ds p bs ->
  exists id r, 0 <= id < 2 ^ 32 /\ p = id * 64 /\ metadata_reader crc32c memory (metadata_manager bm) bm (MetaBlockPointer p 0) = Ok r /\ reader_ok size id bs r.
Proof.
  intros Hw Ha Hd (id & b & -> & Hid & Hin & Hst). destruct (new_reader size id Hid crc32c memory bm b bs Hw Ha (Hd _ _ Hin) Hst) as (r & E & Hr). by exists id, r.
Qed.

(** Closing one: its block goes to the file. *)
Lemma close_stream bm ds k id bs w :
  alloc_ok bm -> disk_ok crc32c [id] bm no_partial ds -> room bm k -> block_alloc_size_ bm = 64 * size -> 0 <= id < 2 ^ 32 ->
  writer_ok size id bs w -> w_blocks w = bm -> zlen bs <= limit size ->
  let bm' := w_blocks (flush_writer crc32c w) in
  exists ds', alloc_ok bm' /\ disk_ok crc32c [] bm' no_partial ds' /\ room bm' k /\ ds ⊆ ds' /\ stream_in ds' (block_pointer (get_block_pointer (flush_writer crc32c w))) bs /\
    block_alloc_size_ bm' = 64 * size /\ meta_block_ bm' = meta_block_ bm /\ free_list_ bm' = free_list_ bm.
Proof.
  intros Ha Hd Hr Hal Hid Hw <- Hl. destruct (flush_stream size id Hsize crc32c bs w Hw Hl) as (block & Hst & Hbm & Hp). cbn zeta. rewrite Hbm, Hp.
  assert (Hz : zlen block = block_size (w_blocks w)) by (destruct Hst as [-> _]; unfold block_size, DEFAULT_BLOCK_HEADER_SIZE; lia).
  destruct (put_block crc32c header most_free (w_blocks w) ds k id block Ha Hd Hr Hz) as (H1 & H2 & H3).
  exists ((id, block) :: ds). split; [done|]. split; [done|]. split; [done|]. split; [set_solver|]. split; [|done].
  exists id, block. split; [done|]. split; [done|]. split; [set_solver|done].
Qed.

(** ** The free list *)

Definition free_list_in (ds : list (Z * bytes)) (pointer : Z) (free : list Z) : Prop :=
  pointer = INVALID_INDEX /\ free = [] \/ stream_in ds pointer (free_list_bytes free).

Lemma zlen_free_list l : zlen (free_list_bytes l) = 8 * (zlen l + 1).
Proof.
  unfold free_list_bytes. rewrite zlen_app, zlen_write_le. change (Z.of_nat 8) with 8. induction l as [|x l IH]; [done|]. cbn [map concat]. rewrite zlen_app, zlen_write_le, zlen_cons. change (Z.of_nat 8) with 8. lia.
Qed.

Lemma serialize_free_list_ok bm ds :
  alloc_ok bm -> disk_ok crc32c [] bm no_partial ds -> room bm 1 -> block_alloc_size_ bm = 64 * size -> 8 * (most_free + 1) <= limit size ->
  exists p bm' ds', serialize_free_list crc32c memory bm = Ok (p, bm') /\ alloc_ok bm' /\ disk_ok crc32c [] bm' no_partial ds' /\ room bm' 0 /\ ds ⊆ ds' /\
    block_alloc_size_ bm' = 64 * size /\ meta_block_ bm' = meta_block_ bm /\ free_list_in ds' (block_pointer p) (free_list_ bm').
Proof.
  intros Ha Hd Hr Hal Hl. unfold serialize_free_list. destruct (free_list_ bm) as [|x l] eqn:Efree.
  { exists invalid_pointer, bm, ds. split; [done|]. split; [done|]. split; [done|]. split; [destruct Hr; split; try done; lia|]. split; [done|]. split; [done|]. split; [done|]. by left. }
  clear Efree. destruct (free_block_id bm) as [id bm1] eqn:Ef. destruct (take_block crc32c header most_free bm ds 0 id bm1 Ha Hd Hr ltac:(lia) Ef) as (Ha1 & Hd1 & Hr1 & Hid & Hal1 & Hmb1).
  destruct (new_writer size id Hsize Hid crc32c memory bm bm1 ltac:(apply Hr) Hal Ef) as (w & -> & Hw & Hb). cbn [mbind outcome_bind]. rewrite Hb.
  pose proof (rm_free _ _ _ _ Hr1) as Hfree. pose proof (zlen_free_list (free_list_ bm1)) as Hz.
  destruct (appends_free_list size id Hsize Hid crc32c memory (free_list_ bm1) [] w Hw) as (w1 & E & Hw1 & Hb1); [rewrite zlen_nil; lia|]. cbn [app] in Hw1.
  destruct (write_uint crc32c memory 8 (zlen (free_list_ bm1)) w) as [w0|]; [|done]. cbn [mbind outcome_bind] in E |- *. rewrite E. cbn [mbind outcome_bind].
  rewrite Hb in Hb1. destruct (close_stream bm1 ds 0 id (free_list_bytes (free_list_ bm1)) w1 Ha1 Hd1 Hr1) as (ds' & H1 & H2 & H3 & H4 & H5 & H6 & H7 & H8); [congruence|done|done|done|lia|].
  eexists _, _, ds'. split; [done|]. split; [done|]. split; [done|]. split; [done|]. split; [done|]. split; [done|]. split; [congruence|]. right. by rewrite H8.
Qed.

Lemma deserialize_free_list_ok bm ds p free :
  whole_sectors bm -> block_alloc_size_ bm = 64 * size -> (forall id b, (id, b) ∈ ds -> block_at crc32c bm id b) ->
  stream_in ds p (free_list_bytes free) -> free_list_ bm = [] -> oset free -> Forall (in_width 64) free -> zlen free < 2 ^ 64 ->
  deserialize_free_list crc32c memory bm (MetaBlockPointer p 0) = Ok (inl (with_blocks bm free (used_blocks_ bm) (modified_blocks_ bm) (max_block_ bm))).
Proof.
  intros Hw Hal Hd Hst He Hs Hf Hz. destruct (open_stream bm ds p _ Hw Hal Hd Hst) as (id & r & Hid & -> & Er & Hr). unfold deserialize_free_list, is_valid. cbn [block_pointer].
  rewrite bool_decide_true by (unfold INVALID_INDEX; lia). cbn [negb]. rewrite Er. cbn [mbind outcome_bind]. unfold free_list_bytes in Hr. pose proof (zlen_nonneg free).
  destruct (reads_width size id Hsize Hid crc32c memory 8 (zlen free) 64 ltac:(unfold in_width; lia) eq_refl bm (concat (map (write_le 8) free)) r Hr) as (r1 & -> & Hr1). cbn [mbind outcome_bind].
  assert (Z.to_nat (zlen free) = length free) as -> by (unfold zlen; lia). rewrite <- (app_nil_r (concat _)) in Hr1.
  destruct (free_list_loop_ok size id Hsize Hid crc32c memory bm [] free [] r1 Hs Hf Hr1) as (r2 & E & Hr2). rewrite He, E. cbn [mbind outcome_bind app].
  by destruct Hr2 as (? & ? & ? & ? & ? & ? & (? & ? & ? & ->) & _).
Qed.

(** ** Opening the file *)

(** The header of a checkpoint. *)
Definition new_header (free_list : Z) : database_header_t :=
  DatabaseHeader (h_iteration header_initialize) (h_meta_block header_initialize) free_list (h_block_count header_initialize) (h_block_alloc_size header_initialize) (h_checksum header_initialize).

(** The manager that opening the file gives. *)
Definition reopened_manager (bm : block_manager_t) : block_manager_t :=
  BlockManager (file_ bm) (block_alloc_size_ bm) (free_list_ bm) [] [] (max_block_ bm) (iteration_ bm) (meta_block_ bm).

Lemma stream_pointer ds p bs : stream_in ds p bs -> 0 <= p < 2 ^ 64 - 1.
Proof. intros (id & b & -> & Hid & _). lia. Qed.

Lemma load_database bm ds fp tb alloc :
  alloc_ok bm -> disk_ok crc32c [] bm no_partial ds -> room bm 0 -> block_alloc_size_ bm = 64 * size -> block_alloc_size_ bm < 2 ^ 32 -> iteration_ bm + 1 < 2 ^ 64 ->
  free_list_in ds fp (free_list_ bm) -> stream_in ds (meta_block_ bm) tb ->
  let bm' := write_header bm (new_header fp) in
  load_existing_database crc32c memory (file_ bm') alloc = Ok (inl (reopened_manager bm')) /\
  whole_sectors (reopened_manager bm') /\ (forall id b, (id, b) ∈ ds -> block_at crc32c (reopened_manager bm') id b).
Proof.
  intros Ha [Hd _] Hr Hal Hsm Hit Hfp Hmeta. destruct Hr as [Hw Hfu Hm Hfl Hset]. pose proof (stream_pointer _ _ _ Hmeta) as Hmb. pose proof (ao_max _ Ha) as Hmax. pose proof (alloc_pos _ Hw).
  assert (Hfp' : 0 <= fp < 2 ^ 64) by (destruct Hfp as [[-> _]|Hst]; [unfold INVALID_INDEX; lia|apply stream_pointer in Hst; lia]).
  assert (Hn : header_ok (next_header bm (new_header fp))).
  { eapply next_header_ok; [done| |lia|lia|lia]. unfold header_ok. rewrite !Forall_cons. cbn. unfold INVALID_INDEX, DEFAULT_BLOCK_ALLOC_SIZE. split_and!; try lia. constructor. }
  destruct (header_files_sectors bm (new_header fp) header Hset) as [_ Hsec]. cbn zeta. set (bm' := write_header bm (new_header fp)).
  assert (Hload : load_header (file_ bm') = Ok (inl (next_header bm (new_header fp)))) by (change (file_ bm') with (header_files bm (new_header fp)).2; rewrite (load_sectors _ _ _ Hsec) by done; by case_bool_decide).
  assert (Hblocks : forall id b, (id, b) ∈ ds -> block_at crc32c (reopened_manager bm') id b).
  { intros id b Hin. destruct (Hd id b Hin) as (Hb & [[Hid _] _] & _). eapply (block_at_same crc32c bm'); [done|done|]. apply header_block_at; [done|lia|done]. }
  assert (Hws : whole_sectors (reopened_manager bm')) by done. split; [|done].
  unfold load_existing_database. rewrite Hload. cbn [mbind outcome_bind].
  assert (Hman : manager_of (file_ bm') alloc (next_header bm (new_header fp)) = with_blocks (reopened_manager bm') [] [] [] (max_block_ bm)).
  { unfold manager_of. cbn [next_header h_block_alloc_size h_block_count h_iteration h_meta_block]. destruct (decide (block_alloc_size_ bm = alloc)) as [<-|Hne].
    - rewrite bool_decide_false by naive_solver. done.
    - rewrite bool_decide_true by (split; [lia|done]). done. }
  rewrite Hman. cbn [next_header h_free_list new_header]. destruct Hfp as [[-> Hnil]|Hst].
  - rewrite bool_decide_false by naive_solver. unfold reopened_manager. cbn [free_list_ bm' write_header]. by rewrite Hnil.
  - pose proof (stream_pointer _ _ _ Hst). rewrite bool_decide_true by (unfold INVALID_INDEX; lia).
    rewrite (deserialize_free_list_ok _ ds fp (free_list_ bm)); try done; [apply Ha| |].
    + apply Forall_forall. intros id Hid. apply (ao_free _ Ha) in Hid. unfold in_width. lia.
    + destruct Hst as (id & b & _ & _ & _ & (_ & full & part & rest & _ & Hsh & Heq)). apply (f_equal zlen) in Heq. rewrite zlen_free_list, zlen_app, (zlen_concat (size - 12)) in Heq by apply Hsh.
      destruct Hsh as [_ H1 H2]. nia.
Qed.

(** ** What was opened *)

Definition column_opened (bm : block_manager_t) (c : list (Z * column_segment_t) * option Z) (x : contents) : Prop :=
  Forall2 (fun s vals => exists b, BlockManager.read crc32c bm s.1 memory = Ok (inl b) /\ reads_back s.2 b vals) c.1 x.2 /\
  c.2 = match x.2 with [] => None | valss => Some (foldl (fun n (vals : list bytes) => u64 (n + zlen vals)) 0 valss) end.

Definition row_group_opened (bm : block_manager_t) (rg : open_row_group) (x : Z * Z * list contents) : Prop :=
  or_start rg = x.1.1 /\ or_count rg = x.1.2 /\ Forall2 (column_opened bm) (or_columns rg) x.2.

Lemma initialize_column_ok bm ds x dps :
  whole_sectors bm -> (forall id b, (id, b) ∈ ds -> block_at crc32c bm id b) -> Forall2 (stored_in ds x.1) dps x.2 -> column_opened bm (initialize_column x.1 dps) x.
Proof.
  intros Hw Hd Hs. unfold initialize_column. split; cbn [fst snd].
  - induction Hs as [|dp vals dps valss (_ & _ & b & Hin & Hrd) Hs IH]; [constructor|]. cbn [map]. constructor; [|done]. exists b. split; [|done]. apply block_at_read; [done|by apply Hd].
  - assert (Hfold : forall n, foldl (fun total dp => u64 (total + dp_tuple_count dp)) n dps = foldl (fun n (vals : list bytes) => u64 (n + zlen vals)) n x.2).
    { induction Hs as [|dp vals dps valss (_ & Hc & _) Hs IH]; intros n; [done|]. cbn [foldl]. by rewrite Hc, IH. }
    destruct Hs; [done|]. by rewrite Hfold.
Qed.

(** The contents fit the columns and start at a row. *)
Definition fits (columns : list column_definition_t) (x : Z * Z * list contents) : Prop :=
  0 <= x.1.1 < 2 ^ 63 /\ in_width 64 x.1.2 /\ map fst x.2 = map cell_size columns.

Lemma opened_ok bm ds columns p x :
  whole_sectors bm -> (forall id b, (id, b) ∈ ds -> block_at crc32c bm id b) -> fits columns x -> row_group_in ds p x -> row_group_opened bm (opened columns p) x.
Proof.
  intros Hw Hd (Hst & _ & Hc) (H1 & H2 & _ & H3). split; [|split; [done|]].
  - cbn [opened or_start]. rewrite H1, wrap_small by (unfold in_width; lia). unfold s64. by rewrite bool_decide_true by lia.
  - cbn [opened or_columns]. revert columns Hc. induction H3 as [|dps c dpss cs Hs H3 IH]; intros [|col columns] Hc; try done. cbn [map] in Hc. injection Hc as Hc Hcs.
    cbn [zip_with]. constructor; [|by apply IH]. rewrite <- Hc. by eapply initialize_column_ok.
Qed.

Lemma opened_rows ptrs xs ds n :
  Forall2 (row_group_in ds) ptrs xs -> rows n ptrs = foldl (fun total (x : Z * Z * list contents) => u64 (total + x.1.2)) n xs.
Proof. intros H. revert n. induction H as [|p x ptrs xs (_ & Hc & _) H IH]; intros n; [done|]. cbn [rows foldl]. rewrite Hc. apply IH. Qed.

(** ** The checkpoint *)

Lemma part_length {A} (format : A -> bytes) l x : x ∈ l -> zlen (format x) <= zlen (concat (map format l)).
Proof.
  induction 1 as [x l|x y l H IH]; cbn [map concat]; rewrite zlen_app; [pose proof (zlen_nonneg (concat (map format l)))|pose proof (zlen_nonneg (format y))]; lia.
Qed.

Lemma long_nonempty (l : bytes) : 0 < zlen l -> l <> [].
Proof. intros H ->. change (0 < 0) in H. lia. Qed.

Lemma row_groups_openable ds columns name ptrs xs :
  Forall2 (row_group_in ds) ptrs xs -> Forall (fits columns) xs -> zlen (table_bytes name columns ptrs) < 2 ^ 32 ->
  zlen name < 2 ^ 32 /\ zlen columns < 2 ^ 32 /\ zlen ptrs < 2 ^ 32 /\ Forall (openable columns) ptrs.
Proof.
  intros Hp Hf Hz. unfold table_bytes in Hz. rewrite !zlen_app, zlen_write_le in Hz. pose proof (zlen_nonneg (counted column_bytes columns)). pose proof (zlen_nonneg (counted row_group_bytes ptrs)). pose proof (zlen_nonneg name).
  assert (Hc : zlen columns <= zlen (counted column_bytes columns)) by (apply counted_length; intros c; apply long_nonempty; unfold column_bytes; rewrite !zlen_app, !zlen_write_le; pose proof (zlen_nonneg (cd_name c)); lia).
  assert (Hg : zlen ptrs <= zlen (counted row_group_bytes ptrs)).
  { apply counted_length. intros p. apply long_nonempty. unfold row_group_bytes. rewrite !zlen_app, !zlen_write_le. pose proof (zlen_nonneg (counted (counted pointer_bytes) (data_pointers p))). pose proof (zlen_nonneg (counted pointer_bytes (deletes_pointers p))). lia. }
  split; [lia|]. split; [lia|]. split; [lia|]. apply Forall_forall. intros p Hin. pose proof (part_length row_group_bytes ptrs p Hin) as Hpl. destruct (list_elem_of_lookup_1 _ _ Hin) as [i Hi].
  destruct (Forall2_lookup_l _ _ _ _ _ Hp Hi) as (x & Hx & (Hx1 & Hx2 & Hx3 & Hx4)). pose proof (Forall_lookup_1 _ _ _ _ Hf Hx) as (Hst & Hcnt & Hcs).
  unfold counted in Hz at 2. rewrite zlen_app, zlen_write_le in Hz. unfold row_group_bytes in Hpl at 1. rewrite !zlen_app, !zlen_write_le in Hpl. pose proof (zlen_nonneg (counted pointer_bytes (deletes_pointers p))).
  assert (Hdl : zlen (data_pointers p) <= zlen (counted (counted pointer_bytes) (data_pointers p))) by (apply counted_length; intros dps; apply long_nonempty; unfold counted; rewrite zlen_app, zlen_write_le; pose proof (zlen_nonneg (concat (map pointer_bytes dps))); lia).
  split; [split_and!|split].
  - rewrite Hx1. by apply wrap_width.
  - by rewrite Hx2.
  - lia.
  - apply Forall_forall. intros dps Hdps. pose proof (part_length (counted pointer_bytes) (data_pointers p) dps Hdps) as Hdp. unfold counted in Hpl at 1. rewrite zlen_app, zlen_write_le in Hpl.
    pose proof (counted_length pointer_bytes dps ltac:(intros dp; apply long_nonempty; rewrite zlen_pointer; lia)). split; [lia|].
    destruct (list_elem_of_lookup_1 _ _ Hdps) as [j Hj]. destruct (Forall2_lookup_l _ _ _ _ _ Hx4 Hj) as (c & _ & Hc4). clear -Hc4. induction Hc4 as [|dp vals dps valss [Hw _] Hs IH]; by constructor.
  - done.
  - rewrite Hx1, wrap_small by (unfold in_width; lia). unfold s64. rewrite bool_decide_true by lia. lia.
  - apply Forall2_length in Hx4. apply (f_equal length) in Hcs. rewrite !length_map in Hcs. lia.
Qed.

(** Everything but the header. *)
Lemma checkpoint_storage_ok bm t xs ds :
  alloc_ok bm -> room bm (table_cost (row_groups_ t) + 2) -> disk_ok crc32c [] bm no_partial ds -> table_ok bm ds (row_groups_ t) xs -> block_alloc_size_ bm = 64 * size ->
  metadata_size t xs <= limit size -> 8 * (most_free + 1) <= limit size ->
  exists t' bm' fp ds' ptrs, checkpoint_storage crc32c memory t bm = Ok (t', write_header bm' (new_header fp)) /\
    alloc_ok bm' /\ disk_ok crc32c [] bm' no_partial ds' /\ room bm' 0 /\ ds ⊆ ds' /\ block_alloc_size_ bm' = 64 * size /\
    Forall2 (row_group_in ds') ptrs xs /\ stream_in ds' (meta_block_ bm') (table_bytes (name_ t) (column_definitions_ t) ptrs) /\ free_list_in ds' fp (free_list_ bm').
Proof.
  intros Ha Hr Hd Ht Hal Hm Hf. pose proof (table_cost_nonneg (row_groups_ t)). unfold checkpoint_storage. destruct (free_block_id bm) as [id bm1] eqn:Ef.
  destruct (take_block crc32c header most_free bm ds (1 + table_cost (row_groups_ t)) id bm1 Ha Hd) as (Ha1 & Hd1 & Hr1 & Hid & Hal1 & _); [by replace (1 + table_cost (row_groups_ t) + 1) with (table_cost (row_groups_ t) + 2) by lia|lia|done|].
  destruct (new_writer size id Hsize Hid crc32c memory bm bm1 ltac:(apply Hr) Hal Ef) as (w & -> & Hw & Hb). cbn [mbind outcome_bind]. rewrite checkpoint_table_eq, Hb.
  assert (Ht1 : table_ok bm1 ds (row_groups_ t) xs).
  { eapply Forall2_impl; [exact Ht|]. intros rg x (H1 & H2 & H3). split_and!; [done..|]. by apply (columns_ok_later bm _ ds). }
  destruct (checkpoint_collection_ok crc32c header [id] most_free bm1 (row_groups_ t) xs ds 1) as (ptrs & rgs & bm2 & ds2 & -> & Ha2 & Hd2 & Hr2 & Hs2 & Hal2 & Hp2 & _); [done|done|done|lia|done|]. cbn [mbind outcome_bind].
  pose proof (zlen_table ds2 t ptrs xs Hp2) as Hz. set (w2 := MetadataWriter _ _ _ _ _ _).
  destruct (appends_table size id Hsize Hid crc32c memory (name_ t) (column_definitions_ t) ptrs [] w2 (writer_ok_blocks size id [] w bm2 Hw)) as (w3 & -> & Hw3 & Hb3); [rewrite zlen_nil; lia|]. cbn [mbind outcome_bind app] in Hw3 |- *.
  destruct (close_stream bm2 ds2 1 id _ w3 Ha2 Hd2 Hr2 ltac:(congruence) Hid Hw3 Hb3 ltac:(lia)) as (ds3 & Ha3 & Hd3 & Hr3 & Hs3 & Hst & Hal3 & _ & _).
  destruct (flush_again crc32c (flush_writer crc32c w3)) as [_ Hpt]. destruct (flush_again crc32c w3) as [Hfl _]. rewrite Hfl, Hpt. set (bm3 := w_blocks (flush_writer crc32c w3)) in *. set (mb := block_pointer (get_block_pointer (flush_writer crc32c w3))) in *.
  destruct (serialize_free_list_ok (set_meta_block bm3 mb) ds3) as (fp & bm4 & ds4 & -> & Ha4 & Hd4 & Hr4 & Hs4 & Hal4 & Hmb4 & Hfp); [by destruct Ha3|done|by destruct Hr3|done|done|]. cbn [mbind outcome_bind].
  eexists _, bm4, (block_pointer fp), ds4, ptrs. split; [done|]. split; [done|]. split; [done|]. split; [done|]. split; [set_solver|]. split; [done|]. split; [|split; [|done]].
  - eapply Forall2_impl; [exact Hp2|]. intros ??. apply row_group_in_mono. set_solver.
  - rewrite Hmb4. by eapply stream_in_mono.
Qed.

End storage.


(** A column of 16-bit integers. *)
Definition sample_storage : table_t := Table [Byte.x74] [ColumnDefinition [Byte.x63] (Complex 12 None) true] sample_table.


(** A decimal column does not come back: its width is not in the file, and opening it reads an extension that is not there. *)
Lemma decimal_not_reopened width scale name dps :
  open_columns (map reopened [ColumnDefinition name (Complex LT_DECIMAL (Some (Extension name (DECIMAL width scale)))) true]) [dps] = Fault OutOfBounds.
Proof. reflexivity. Qed.
